(* ===== verification/_CoqProject ===== *)
-Q . S2P
Prelude.v
Limiter.v
FairQueue.v
BranchQueue.v
Topo.v
Walk.v
Ordering.v
Fleet.v
Upstreams.v
Skip.v
Actor.v
AgentIndex.v
ApprovalTally.v
VerdictTally.v
ChangeWindow.v
Freeze.v
Engine.v
StepStatus.v
Hooks.v
Outbox.v
Bake.v
Transition.v
Cancel.v
Pending.v
Promoting.v
Merge.v
PRPoll.v
HealthCheck.v
Promotion.v
History.v
Rollback.v
RollbackFleet.v
Breaker.v
EnvStatus.v
BundlePhase.v
Override.v
PolicyGate.v
Store.v
Hold.v
HeldRollback.v
Pause.v
PipelineAudit.v
Deployed.v
RejectSet.v
Promote.v
HealthImages.v
HealthDeploy.v
HealthArgo.v
HealthFlux.v
HealthCanary.v
AutoRollback.v
PipelinePhase.v
MetricText.v
MetricCheck.v
