(* ===== verification/Prelude.v ===== *)
(** * Kardinal: a verification library for kardinal-promoter

    kardinal-promoter promotes versions (Bundles) of an application through the
    environments of a Pipeline on Kubernetes.  A controller resolves the order of
    the environments, expands fleets, decides which environments a Bundle goes
    through and when each is released, and holds a promotion at policy gates
    (approvals, verdicts), change windows and freezes.  For every Bundle and
    environment a PromotionStep object runs a sequence of steps (clone, edit, push,
    open a pull request, ...), waits for the merge, checks the health of the
    environment and verifies it.  The workers share queues: a fair work queue, a
    limiter of health-check slots and one turn per git branch.  This library models
    those parts as executable functions and proves what they promise.

    ** Parts and files

    - [Prelude] (this file): integers at their width, time, strings as Go handles
      them, sorting and heaps over a boolean order, counting lemmas, the [bools]
      tactic and the [kardinal] hint database.

    Queues:
    - [Limiter] (src/pkg/slots/limiter.go): the slots for health checks, with
      global and per-namespace caps, reservations and a ready heap with stale
      entries.  [TryAcquire], [Cancel], [expire], [release] are the methods;
      [Sys] adds the release functions that are still to run.
    - [FairQueue] (src/pkg/reconciler/fairqueue/fairqueue.go): the work queue that
      lowers the priority of namespaces with a backlog.  The inner priority queue
      is outside: calls to it are outputs.
    - [BranchQueue] (src/pkg/reconciler/promotionstep/branch_queue.go): one
      promotion at a time pushes to a branch, oldest waiter first.

    Order:
    - [Topo], [Ordering] (src/pkg/graph/builder.go): the index-based Kahn sort and
      the cycle it reports; waves, dependsOn and list order.
    - [Walk]: the depth-first walk that [Upstreams] and [Skip] instantiate.
    - [Fleet] (src/pkg/graph/fleet.go): fleets and their expansion into targets.
    - [Upstreams] (src/pkg/graph/upstreams.go and builder.go): what a Bundle
      promotes, its upstreams, whether they are verified, the state of a gate.  It
      is proved against the class [ResolverOk]; [Fleet] discharges it.

    Policy:
    - [Skip] (src/pkg/graph/skip.go): who may skip an environment.
    - [Actor], [AgentIndex] (src/pkg/actor): who a request is, stamps and parties;
      the registry of AgentIdentities, its index and the compact index format.
    - [ApprovalTally], [VerdictTally] (src/pkg/lifecycle): counting approvals and
      verdicts, one vote per party, on the interface of [Actor].
    - [ChangeWindow], [Freeze] (src/pkg/reconciler/changewindow): when a window
      blocks and opens; freezes, exemptions and the status the reconciler writes.

    - [Override] (src/pkg/reconciler/policygate/overrides.go): overrides of a gate,
      their records and how long they count.
    - [PolicyGate] (the rest of src/pkg/reconciler/policygate, VerifyHeldRollback of
      src/pkg/lifecycle/hold.go, src/pkg/graph/gatereason.go): one evaluation of a
      gate, from its overrides, expression, approvals, verdicts and holds to
      status.ready, with the audit records of every branch.

    The promotion step (src/pkg/reconciler/promotionstep and src/pkg/steps):
    - [Engine] (pkg/steps/engine.go, defaults.go, registry.go, permanent.go):
      running a sequence of steps from an index, with restarts and errors; the
      default sequences.
    - [StepStatus]: the entries of status.steps and the states ([State]).
    - [Hooks] (hooks.go, verifying.go): pre- and post-deploy hooks, analyses, image
      verification.
    - [Outbox] (pkg/audit/outbox.go, audit.go): the bounded outbox of audit records.
    - [Bake] (handleBake): the contiguous healthy window.
    - [Transition] (transition.go, audit.go, scm_wait.go): the status record, the
      one patch of a change of state with its audit records and receipt, retry
      delays and waits for the code host.
    - [Cancel]: closing pull requests and cancelling a step ([haltOf],
      [closeStepPRWithSCM], [cancelStep]; reconciler.go, pr_branch.go).
    - [Pending], [Promoting], [Merge], [HealthCheck]: one handler per state
      ([handlePending], [handlePromoting] with [handleStepError],
      [handleWaitingForMerge], [handleHealthChecking] and [handleVerifying]) with
      every hold in front of it (lifecycle.go, freeze.go, hooks.go, pkg/lifecycle/hold.go).
    - [PRPoll] (src/pkg/reconciler/prstatus/reconciler.go and markPRStatusMerged of
      src/cmd/kardinal-controller/webhook.go): the PRStatus that [Merge] waits for,
      written by its reconciler, the merge webhook and the step, as JSON merge
      patches from copies that may be old ([World], [wstep]).
    - [Promotion]: [reconcileState], which composes them, the whole [reconcile] around it
      (audit and receipt outboxes, finalizer, hooks; receipt.go, hooks.go,
      finalizer.go), and the histories of a step.

    The code host:
    - [Breaker] (src/pkg/scm/circuit_breaker.go, circuit_registry.go, api_error.go):
      the circuit breakers in front of the code host, one per owner and one for the
      quota, with the pruning of idle ones.

    Rollback (src/pkg/lifecycle):
    - [History]: the deploys of an environment from its steps, newest first.
    - [Rollback]: which Bundle a rollback of an environment restores, and with which
      artifacts ([plan_environment], [asMixed], rejected artifacts).
    - [RollbackFleet]: the same for a whole fleet ([planFleetRollback]), and
      [PlanRollback].
    - [Deployed] (deployed_env.go, retired.go): what runs where, and the records that
      outlive the steps of a retired Bundle.
    - [AutoRollback] (autorollback.go, createAutoRollback of the promotion step,
      src/pkg/reconciler/rollbackpolicy): the rollbacks the controller makes itself, by a
      failing step and by a RollbackPolicy, and the names that keep them apart.
    - [RejectSet] (rejected_set.go): what rejecting a Bundle rejects.
    - [Promote] (promote.go): promoting what is verified upstream.

    Holds and pauses (src/pkg/lifecycle, src/pkg/reconciler/pipeline):
    - [Store]: an object under optimistic concurrency, and the loop that retries on a
      conflict as one atomic change.
    - [Hold] (hold.go): holding, releasing, and rolling back with a hold;
      [HeldRollback] composes it with [PolicyGate].
    - [Pause] (pause.go): pausing Pipelines and fleets, with the freeze gate.
    - [PipelineAudit] (holds.go, pause_audit.go): the conditions and audit records the
      Pipeline reconciler makes of them, through [Outbox].
    - [PipelinePhase] (reconciler.go, environments.go, CurrentBundle of
      src/pkg/lifecycle/lifecycle.go): the phase of a Pipeline, its current Bundle and
      status.environments.

    Metrics:
    - [MetricText] (src/pkg/graph/metriccheck.go): the placeholders of a query and the
      values that may be put into one.
    - [MetricCheck] (src/pkg/reconciler/metriccheck/reconciler.go): one reconcile of a
      MetricCheck, with its slot, query, threshold, status and retries.

    Health (src/pkg/health):
    - [HealthImages] (images.go): image references and git revisions.
    - [HealthDeploy], [HealthArgo], [HealthFlux], [HealthCanary] (adapter.go): the
      adapters for Deployments, Argo CD Applications, Flux Kustomizations, Argo Rollouts
      and Flagger canaries.  Their results are what [Bake] and [HealthCheck] consume.

    The Bundle (src/pkg/reconciler/bundle/reconciler.go):
    - [EnvStatus]: status.environments and what the phase is derived from.
    - [BundlePhase]: the reconciler, a function of what it reads ([Inputs]) and the
      stored status to its writes, with the sync of the Graph, supersession
      (src/pkg/lifecycle/supersede.go), the cap on concurrent promotions and the
      history limit; [cluster_step] is a step of all Bundles of a Pipeline.

    Each file has one module of its name.  Methods under a mutex are functions
    from state to state, and interleavings are sequences of operations ([op],
    [run_op]); a Go error is a value of a sum type, a panic is a value too.  A
    handler of the promotion step takes what it reads as records of inputs ([Reads],
    [Spec], the records of each file; a failed read is a value) and the status, and
    gives an [outcome]: the list of writes in order (an [effect] each: a patch of
    the status, a call of the code host, a run of the steps) and when it is called
    again.  A crash or a failed write stops a handler after a prefix of its effects
    ([leaves]); a history of a step is a sequence of such reconciles with
    arbitrary inputs.

    ** What the theorems show

    - The promotion step: a step keeps its state or moves along an edge of the
      state machine, and of a step in a terminal state only its outboxes and what is
      said of hooks change; in every history a Verified
      step was started past all its holds, ran its steps and was found healthy;
      exactly when a Pending step starts and when steps run; a merged pull request
      is never failed or closed; cancelling gives up after bounded retries; what
      each error of the engine leads to; past its deadline a health check that is
      not healthy applies onHealthFailure; a bake needs contiguous healthy
      time and a flapping one is bounded; one patch carries all a change of state
      means; no audit record is lost without a trace, also when records are merged.
    - The Bundle: its phases follow the state machine, and Verified, Superseded and
      Rejected are final but for a rejection; what Verified means; the cap on
      concurrent promotions holds in every run; the history limit deletes the oldest
      finished Bundles that nothing keeps; a rejection takes effect in any phase.
    - Gates: status.ready is true exactly when an override is in effect, the expression
      and its policies are met, or a hold exempts a rollback; an override is bounded
      from its first record on and never an agent's; an exempted rollback restores only
      what was verified there; a step that waits for a newer result gets one.
    - Rollback: a planned rollback goes to a version that was verified there (in every
      target of a fleet), the newest that qualifies, or is refused for a stated reason;
      it leaves nothing of what it rolls back, and takes nothing rejected.  In any
      interleaving of runs of the automatic paths, with crashes and lost answers, in which
      no two runs for one failure overlap, a failing Bundle has at most one stamped rollback
      in an environment; a policy that crashed after creating it records it and creates no
      other.
    - Lifecycle: a rejection names exactly the artifacts that were not verified before
      the rejected Bundle; a promotion takes the newest Bundle verified in every
      upstream; what runs is found alike with and without a history, and is kept when a
      Bundle is retired.
    - Holds and pauses: setting a hold is one atomic change whatever other clients write,
      and has effect once it is reported done; a rollback with a hold of an environment
      (not a fleet) that restores a whole Bundle passes its gates, and one whose Bundle
      cannot be created releases its hold as far as the API lets it; the controller keeps every hold and records each
      change of them once it has seen it.
    - Health: exactly when a Deployment, Application or Kustomization is healthy, failed or
      given up, and when a Rollout or Canary is healthy: what shows the promoted version,
      when it is only assumed because nothing can be compared, and which failures are
      about it and not left from before or of another commit.
    - The Pipeline: what its phase means, whatever the order of the lists; its projection
      shows the Bundle the phase judges by, and projecting again changes nothing.
    - Metrics: a query is sent only for a check that should ask, within its slot and with
      safe values; only a measured value that passes the threshold makes a check pass,
      and NaN and infinities never do; a failed write is retried early at most once.
    - The circuit breakers: an open circuit admits no call before its time,
      a successful probe closes it again, and pruning is never observable.
    - The PRStatus: under any interleaving of its writers, with copies of any age, it says
      merged only after the code host confirmed the merge of a pull request it named, and
      of the one it names unless a patch from a copy of an older spec overtook the change
      of the spec; so apart from that a step goes on only past a real merge; a closed pull request is given up only after its grace period; what is
      known of a merge is decided within its window.
    - The engine returns, and what its results and errors mean; recorded step
      entries stay well formed.
    - Queues: caps and counters after any sequence of operations, no slot leaked,
      no slot idle while somebody may use it, slots in arrival order (a refinement
      of a heap-free specification); the backlog counts what is due or in process;
      a branch has at most one holder, and a woken waiter gets its turn.
    - Order: the sort lists every environment once and after its dependencies, or
      reports a real cycle; waves are respected; fleets expand to distinct names;
      skipping environments never loosens the order; release and gate states are
      characterised exactly.
    - Policy: skips need a platform permission; actors are derived from the index
      alone, which decodes what was encoded, and resolving fails closed; approvals
      and verdicts are met exactly under their thresholds, by distinct parties,
      never by the author's own when excluded; a caller's standing predicts the
      vote.
    - Time: windows block exactly outside their intervals and fail closed;
      [OpensAt] finds the first opening; a freeze holds what it selects unless a
      person's exemption is alive, and an exemption never outlives its cap.
    - Behaviour that differs from the comments or the intent:
      [FairQueue.stale_waiter_wakes_early],
      [FairQueue.readd_while_processing_counts_itself],
      [ChangeWindow.clock_change_skips_opening],
      [Transition.receipt_record_collides], [PRPoll.polls_not_spaced],
      [PRPoll.stale_webhook_closes], [PRPoll.overtaken_patch_says_merged], [HealthCheck.unreachable_never_times_out],
      [Rollback.config_images_revived], [Breaker.backoff_overflows],
      [Breaker.second_probe_admitted], [BundlePhase.stuck_audit_blocks],
      [BundlePhase.recovery_past_cap], [Override.key_ignores_actor],
      [Override.ignored_override_audited_success], [Hold.undo_releases_other_hold],
      [HeldRollback.fleet_hold_not_exempt], [HeldRollback.partial_rollback_not_exempt],
      [Pause.resume_record_mixed], [PipelineAudit.reported_again],
      [PipelineAudit.release_recorded_as_expiry], [PipelineAudit.pause_recorded_twice],
      [Promote.promote_fleet_refused], [HealthCanary.workload_hash_waits],
      [AutoRollback.overlapping_runs_two_rollbacks],
      [AutoRollback.unstamped_rollback_repeats] and [MetricCheck.valid_for_overflows].

    ** Fuel and bounds

    Loops over data are structural.  [dispatch_loop] has fuel for every entry of
    the ready heap and every slot it can grant; the sort pops each node once, the
    cycle walk and [Walk.dfs] visit each name once; each file proves that its fuel
    is enough (the result is the specified one, not only when it returns).
    [ChangeWindow.opens] has the source's own bound of 64 boundaries, proved to be
    more than a week.  The engine's loop has fuel for its bounded number of passes
    over the sequence, and [Outbox.shrink] for every entry it can merge or drop.
    Counters of 64 bits wrap; theorems that need it state that the arrival counter
    has not.

    ** Modelling choices

    A message is a tag for its wording where the code compares it, and is left out
    elsewhere.  Times keep their nanoseconds, although a stored time is cut to the
    second.  A patch of a step is modelled as the whole status it leaves; the status a
    handler starts from is the stored one, except where the code itself asks whether
    its copy is behind ([PRPoll] models patches field by field).  Records hold the fields the modelled functions read.

    ** Not modelled

    The transport of API reads and writes (caches, watches, events, metrics), CEL
    expressions, git, templates, the HTTP of the code hosts, signatures, the
    command line and the UI.  Go's UTF-8, URL and regular-expression checks,
    [time.ParseDuration], the timezone database, hashes, and the answers of the code
    host and the cluster are parameters or inputs.  Of the promotion step,
    the push guard, the rebase of a PR branch, auto-merge, the gates commit status, what
    syncing the finalizer and handling a deleted step do, and the content of receipts are
    inputs, effects or left out.  Of the Bundle,
    the translation into a Graph is an input, and the records of gate changes, the
    carried upstream evidence and retirement are left out.
    [OpensAt_first] holds for zones whose offset does not change.

    Of the Pipeline reconciler, the validation conditions, the summary sentence, the git
    Secret and the deployment metrics are left out; of MetricChecks, the backends and
    the Graph nodes of their instances; of the health adapters, the wording of reasons, the pods quoted in them
    and the scope of refreshes.  The receipts, the sources, sharding, the compliance
    reports and the validation of a Pipeline are not covered. *)

From stdpp Require Import base gmap strings list sorting.
From Stdlib Require Import Ascii Lia ZArith.

Open Scope Z_scope.

(** ** Notation and automation

    [a <ₛ b] is Go's order on strings.  [bools] turns boolean hypotheses into
    propositions; the hint database [kardinal] holds the facts about sorting and
    string order that the components' proofs use. *)
Declare Scope kardinal_scope.
Delimit Scope kardinal_scope with kardinal.
Open Scope kardinal_scope.

Create HintDb kardinal.
Create Rewrite HintDb kardinal.

Ltac bools :=
  repeat match goal with
  | H : _ && _ = true |- _ => apply andb_true_iff in H as [? ?]
  | H : _ || _ = false |- _ => apply orb_false_iff in H as [? ?]
  | H : negb _ = true |- _ => apply negb_true_iff in H
  | H : negb _ = false |- _ => apply negb_false_iff in H
  | H : bool_decide _ = true |- _ => apply bool_decide_eq_true in H
  | H : bool_decide _ = false |- _ => apply bool_decide_eq_false in H
  end.


(** ** Machine integers and time

    Go's [int] and [time.Duration] are 64-bit two's complement; [uint64]
    counters wrap at 2^64.  Integers are kept as [Z]; where the code relies on
    a width the wrap-around is written out.  An instant ([time.Time]) is the
    number of nanoseconds since the Unix epoch, also a [Z]. *)
Definition u64 (z : Z) : Z := z mod 2 ^ 64.

Definition u64_succ (z : Z) : Z := u64 (z + 1).

(** Two's complement [int64] and [int]. *)
Definition i64 (z : Z) : Z := (z + 2 ^ 63) mod 2 ^ 64 - 2 ^ 63.

Lemma i64_small z : - 2 ^ 63 ≤ z < 2 ^ 63 → i64 z = z.
Proof. intros. unfold i64. rewrite Z.mod_small; lia. Qed.

Abbreviation Time := Z (only parsing).
Abbreviation Duration := Z (only parsing).

Definition nanosecond : Z := 1.
Definition millisecond : Z := 1000000.
Definition second : Z := 1000000000.

(** The zero [time.Time], January 1 of year 1, from the Unix epoch. *)
Definition zeroTime : Z := -62135596800 * second.

(** [Time.Sub] saturates at the bounds of [time.Duration]. *)
Definition sub_time (a b : Time) : Duration := Z.max (- 2 ^ 63) (Z.min (2 ^ 63 - 1) (a - b)).

(** [Truncate(time.Second)]. *)
Definition truncate_second (t : Time) : Time := t - t mod second.

Lemma sub_time_pos a b : (0 <? sub_time a b) = (b <? a).
Proof. unfold sub_time. destruct (Z.ltb_spec b a), (Z.ltb_spec 0 (Z.max (- 2 ^ 63) (Z.min (2 ^ 63 - 1) (a - b)))); lia. Qed.

Lemma u64_succ_small z : 0 ≤ z → z + 1 < 2 ^ 64 → u64_succ z = z + 1.
Proof. intros. unfold u64_succ, u64. apply Z.mod_small. lia. Qed.

(** ** Kubernetes object keys

    [types.NamespacedName] and [reconcile.Request] (which embeds it). *)
Record NamespacedName := mkName { Namespace : string; Name : string }.

#[export] Instance NamespacedName_eq_dec : EqDecision NamespacedName.
Proof. solve_decision. Defined.

#[export] Instance NamespacedName_countable : Countable NamespacedName.
Proof.
  refine (inj_countable' (fun k => (Namespace k, Name k)) (fun p => mkName p.1 p.2) _).
  by intros [].
Defined.

(** ** Strings

    Go compares strings byte by byte; [str_ltb] is its [<]. *)
Definition str_ltb (a b : string) : bool := String.ltb a b.

Notation "a <ₛ b" := (str_ltb a b = true) (at level 70) : kardinal_scope.

Lemma str_ltb_lt a b : str_ltb a b = true ↔ String.le a b ∧ a ≠ b.
Proof.
  unfold str_ltb, String.ltb, String.le, String.leb.
  pose proof (String.compare_eq_iff a b) as He.
  assert (a = b → String.compare a b = Eq) as Hr.
  { intros ->. pose proof (String.compare_antisym b b) as Hc. by destruct (String.compare b b). }
  destruct (String.compare a b); simpl; split; try done.
  - intros [_ Hne]. destruct Hne. by apply He.
  - intros _. split; [done|]. intros E. by specialize (Hr E).
  - by intros [? _].
Qed.

Lemma str_ltb_ge a b : str_ltb a b = false ↔ String.le b a.
Proof.
  split.
  - intros H. destruct (decide (String.le b a)) as [|Hn]; [done|exfalso].
    destruct (total String.le a b) as [Hab|]; [|done].
    assert (str_ltb a b = true) as E by (apply str_ltb_lt; split; [done|intros ->; done]). congruence.
  - intros H. destruct (str_ltb a b) eqn:E; [|done]. apply str_ltb_lt in E as [H1 H2].
    destruct H2. by apply (anti_symm String.le).
Qed.

Lemma str_ltb_irrefl a : str_ltb a a = false.
Proof. by apply str_ltb_ge. Qed.

Lemma str_ltb_trans a b c : a <ₛ b → b <ₛ c → a <ₛ c.
Proof.
  rewrite !str_ltb_lt. intros [H1 H2] [H3 H4]. split; [by trans b|]. intros ->. destruct H2.
  by apply (anti_symm String.le).
Qed.

Lemma str_ltb_total a b : a = b ∨ a <ₛ b ∨ b <ₛ a.
Proof.
  rewrite !str_ltb_lt. destruct (decide (a = b)); [by left|right].
  destruct (total String.le a b); [left|right]; split; congruence.
Qed.

(** [strings.TrimSuffix] and [strings.HasPrefix]. *)
Definition str_length (s : string) : nat := String.length s.

Definition HasSuffix (s suf : string) : bool :=
  (str_length suf <=? str_length s)%nat &&
  bool_decide (String.substring (str_length s - str_length suf) (str_length suf) s = suf).

Definition TrimSuffix (s suf : string) : string :=
  if HasSuffix s suf then String.substring 0 (str_length s - str_length suf) s else s.

Definition HasPrefix (s pre : string) : bool := String.prefix pre s.

Definition TrimPrefix (s pre : string) : string :=
  if HasPrefix s pre then String.substring (str_length pre) (str_length s - str_length pre) s else s.

Lemma substring_whole s : String.substring 0 (str_length s) s = s.
Proof. induction s as [|c s IH]; simpl; [done|]. by f_equal. Qed.

Lemma str_length_app p s : str_length (p +:+ s) = (str_length p + str_length s)%nat.
Proof. induction p as [|c p IH]; simpl; [done|]. by f_equal. Qed.

Lemma substring_app_right p s : String.substring (str_length p) (str_length s) (p +:+ s) = s.
Proof. induction p as [|c p IH]; simpl; [apply substring_whole|apply IH]. Qed.

Lemma substring_app_left p s : String.substring 0 (str_length p) (p +:+ s) = p.
Proof. induction p as [|c p IH]; simpl; [by destruct s|]. by f_equal. Qed.

Lemma HasPrefix_app p s : HasPrefix (p +:+ s) p = true.
Proof. unfold HasPrefix. induction p as [|c p IH]; simpl; [by destruct s|]. by destruct (Ascii.ascii_dec c c). Qed.

Lemma TrimPrefix_app p s : TrimPrefix (p +:+ s) p = s.
Proof. unfold TrimPrefix. rewrite HasPrefix_app, str_length_app. replace (_ - _)%nat with (str_length s) by lia. apply substring_app_right. Qed.

Lemma HasSuffix_app p s : HasSuffix (p +:+ s) s = true.
Proof.
  unfold HasSuffix. rewrite str_length_app. replace (_ + _ - _)%nat with (str_length p) by lia. rewrite substring_app_right, bool_decide_true by done.
  rewrite andb_true_r. apply Nat.leb_le. lia.
Qed.

Lemma TrimSuffix_app p s : TrimSuffix (p +:+ s) s = p.
Proof. unfold TrimSuffix. rewrite HasSuffix_app, str_length_app. replace (_ + _ - _)%nat with (str_length p) by lia. apply substring_app_left. Qed.

(** [strings.Split(s, c)] for a separator of one character: never empty. *)
Fixpoint Split (c : Ascii.ascii) (s : string) : list string :=
  match s with
  | EmptyString => [EmptyString]
  | String a s =>
      if Ascii.eqb a c then EmptyString :: Split c s
      else match Split c s with
           | [] => [String a EmptyString]
           | w :: ws => String a w :: ws
           end
  end.

(** [strings.TrimSpace] on ASCII text: the values it is used on here (label
    values, comma-separated annotations) hold no other white space. *)
Definition is_space (a : Ascii.ascii) : bool :=
  let n := Ascii.nat_of_ascii a in ((9 <=? n) && (n <=? 13) || (n =? 32))%nat.

Fixpoint trim_left (s : string) : string :=
  match s with
  | EmptyString => EmptyString
  | String a s' => if is_space a then trim_left s' else s
  end.

Fixpoint trim_right (s : string) : string :=
  match s with
  | EmptyString => EmptyString
  | String a s =>
      match trim_right s with
      | EmptyString => if is_space a then EmptyString else String a EmptyString
      | t => String a t
      end
  end.

Definition TrimSpace (s : string) : string := trim_right (trim_left s).

(** [strings.Join]. *)
Fixpoint Join (l : list string) (sep : string) : string :=
  match l with
  | [] => ""
  | [x] => x
  | x :: l => x +:+ sep +:+ Join l sep
  end.

(** [strings.Cut(s, c)] for a separator of one character: the parts around its
    first occurrence, if there is one. *)
Fixpoint Cut (c : Ascii.ascii) (s : string) : option (string * string) :=
  match s with
  | EmptyString => None
  | String a s =>
      if Ascii.eqb a c then Some ("", s)
      else match Cut c s with Some (x, y) => Some (String a x, y) | None => None end
  end.

(** [strings.SplitN(s, c, n)] for [n > 0]: at most [n] parts, the last one whole. *)
(** [strings.LastIndex] of a character, as the parts before and after it. *)
Fixpoint CutLast (c : Ascii.ascii) (s : string) : option (string * string) :=
  match s with
  | EmptyString => None
  | String a s =>
      match CutLast c s with
      | Some (x, y) => Some (String a x, y)
      | None => if Ascii.eqb a c then Some ("", s) else None
      end
  end.

(** [strings.Contains]. *)
Fixpoint Contains (s sub : string) : bool :=
  String.prefix sub s || match s with EmptyString => false | String _ s => Contains s sub end.

Fixpoint SplitN (c : Ascii.ascii) (s : string) (n : nat) : list string :=
  match n with
  | 0%nat => []
  | 1%nat => [s]
  | S n => match Cut c s with
           | Some (x, y) => x :: SplitN c y n
           | None => [s]
           end
  end.

(** [strings.Contains(s, c)] for one character. *)
Fixpoint has_char (c : Ascii.ascii) (s : string) : bool :=
  match s with EmptyString => false | String a s => Ascii.eqb a c || has_char c s end.

Lemma has_char_app c s t : has_char c (s +:+ t) = has_char c s || has_char c t.
Proof. induction s as [|a s IH]; simpl; [done|]. by rewrite IH, orb_assoc. Qed.

Lemma has_char_Join c sep l :
  has_char c sep = false → Forall (λ x, has_char c x = false) l → has_char c (Join l sep) = false.
Proof.
  intros Hc. induction 1 as [|x l Hx Hl IH]; [done|]. destruct l as [|y l]; [done|].
  change (has_char c (x +:+ sep +:+ Join (y :: l) sep) = false). by rewrite !has_char_app, Hx, IH, Hc.
Qed.

Lemma Cut_app c x y : has_char c x = false → Cut c (x +:+ String c y) = Some (x, y).
Proof.
  induction x as [|a x IH]; simpl; intros H.
  - by rewrite Ascii.eqb_refl.
  - apply orb_false_iff in H as [-> H]. by rewrite (IH H).
Qed.

Lemma CutLast_none c s : has_char c s = false → CutLast c s = None.
Proof.
  induction s as [|a s IH]; simpl; [done|]. intros [-> Hs]%orb_false_iff. by rewrite (IH Hs).
Qed.

Lemma CutLast_app c x y : has_char c y = false → CutLast c (x +:+ String c y) = Some (x, y).
Proof.
  intros Hy. induction x as [|a x IH].
  - change (match CutLast c y with Some (x, z) => Some (String c x, z) | None => if Ascii.eqb c c then Some ("", y) else None end = Some ("", y)).
    by rewrite (CutLast_none _ _ Hy), Ascii.eqb_refl.
  - change (match CutLast c (x +:+ String c y) with Some (u, z) => Some (String a u, z) | None => if Ascii.eqb a c then Some ("", x +:+ String c y) else None end
      = Some (String a x, y)). by rewrite IH.
Qed.

Lemma SplitN_cons c x y n : has_char c x = false → SplitN c (x +:+ String c y) (S (S n)) = x :: SplitN c y (S n).
Proof. intros H. change (match Cut c (x +:+ String c y) with Some (x, y) => x :: SplitN c y (S n) | None => [x +:+ String c y] end = x :: SplitN c y (S n)). by rewrite Cut_app. Qed.

Lemma Split_nosep c x : has_char c x = false → Split c x = [x].
Proof.
  induction x as [|a x IH]; simpl; [done|]. intros H. apply orb_false_iff in H as [-> H]. by rewrite (IH H).
Qed.

Lemma Split_app c x y : has_char c x = false → Split c (x +:+ String c y) = x :: Split c y.
Proof.
  induction x as [|a x IH]; simpl; intros H.
  - by rewrite Ascii.eqb_refl.
  - apply orb_false_iff in H as [-> H]. by rewrite (IH H).
Qed.

(** Splitting what was joined gives the items back, if none holds the separator. *)
Lemma Split_Join c l : l ≠ [] → Forall (λ x, has_char c x = false) l → Split c (Join l (String c "")) = l.
Proof.
  intros Hl. induction 1 as [|x l Hx Hf IH]; [done|]. destruct l as [|y l]; [by apply Split_nosep|].
  change (Split c (x +:+ String c (Join (y :: l) (String c ""))) = x :: y :: l). by rewrite Split_app, IH.
Qed.

(** [strings.ToLower] on ASCII text. *)
Definition lower (a : Ascii.ascii) : Ascii.ascii :=
  let n := Ascii.nat_of_ascii a in if ((65 <=? n) && (n <=? 90))%nat then Ascii.ascii_of_nat (n + 32) else a.

Fixpoint ToLower (s : string) : string :=
  match s with EmptyString => EmptyString | String a s => String (lower a) (ToLower s) end.

(** [strconv.ParseInt(s, 10, 64)] and [strconv.Atoi]: an optional sign, digits,
    in range. *)
Definition digit (a : Ascii.ascii) : option Z :=
  let n := Z.of_nat (Ascii.nat_of_ascii a) in if (48 <=? n) && (n <=? 57) then Some (n - 48) else None.

Fixpoint parse_digits (s : string) (acc : Z) : option Z :=
  match s with
  | EmptyString => Some acc
  | String a s => match digit a with Some d => parse_digits s (10 * acc + d) | None => None end
  end.

Definition parse_nonempty (s : string) : option Z :=
  if bool_decide (s = "") then None else parse_digits s 0.

Definition ParseInt64 (s : string) : option Z :=
  let v := match s with
           | String "-"%char s => Z.opp <$> parse_nonempty s
           | String "+"%char s => parse_nonempty s
           | _ => parse_nonempty s
           end in
  match v with
  | Some z => if (- 2 ^ 63 <=? z) && (z <? 2 ^ 63) then Some z else None
  | None => None
  end.

(** ** Orders given by a boolean [Less]

    Go's [sort.Slice], [sort.SliceStable] and [container/heap] take a strict
    comparison.  [StrictWeak] is what those packages require of it. *)
Class StrictWeak {A} (less : A → A → bool) : Prop := {
  less_asym : ∀ x y, less x y = true → less y x = false;
  less_negtrans : ∀ x y z, less x y = false → less y z = false → less x z = false
}.

Section less.
Context {A : Type} (less : A → A → bool).

(** [sort.SliceStable]: insertion keeps equal elements in their order. *)
Fixpoint insert_by (x : A) (l : list A) : list A :=
  match l with
  | [] => [x]
  | y :: l' => if less y x then y :: insert_by x l' else x :: y :: l'
  end.

Definition sort_by (l : list A) : list A := foldr insert_by [] l.

(** [container/heap] as the bag its contract describes: [Push] adds an
    element, [Pop] removes a least one. *)
Definition heap_push (x : A) (h : list A) : list A := h ++ [x].

Fixpoint heap_min (x : A) (l : list A) : A * list A :=
  match l with
  | [] => (x, [])
  | y :: l' =>
      let '(m, r) := heap_min y l' in
      if less m x then (m, x :: r) else (x, y :: l')
  end.

Definition heap_pop (h : list A) : option (A * list A) :=
  match h with
  | [] => None
  | x :: l => Some (heap_min x l)
  end.

Lemma heap_min_perm x l m r : heap_min x l = (m, r) → x :: l ≡ₚ m :: r.
Proof.
  revert x m r. induction l as [|y l IH]; intros x m r; simpl; [by intros [= <- <-]|].
  destruct (heap_min y l) as [m' r'] eqn:E. specialize (IH _ _ _ E).
  destruct (less m' x); intros [= <- <-]; [|done].
  rewrite IH. constructor.
Qed.

Lemma heap_pop_perm h m r : heap_pop h = Some (m, r) → h ≡ₚ m :: r.
Proof. destruct h as [|x l]; simpl; [done|]. intros [= ?]. by apply heap_min_perm. Qed.

Lemma heap_pop_None h : heap_pop h = None ↔ h = [].
Proof. by destruct h. Qed.

Lemma heap_pop_length h m r : heap_pop h = Some (m, r) → length h = S (length r).
Proof. intros H. apply heap_pop_perm in H. by rewrite H. Qed.

Lemma insert_by_perm x l : insert_by x l ≡ₚ x :: l.
Proof.
  induction l as [|y l IH]; simpl; [done|].
  destruct (less y x); [|done]. rewrite IH. constructor.
Qed.

Lemma sort_by_perm l : sort_by l ≡ₚ l.
Proof. induction l as [|x l IH]; simpl; [done|]. by rewrite insert_by_perm, IH. Qed.

Lemma sort_by_length l : length (sort_by l) = length l.
Proof. by rewrite sort_by_perm. Qed.

Lemma sort_by_elem x l : x ∈ sort_by l ↔ x ∈ l.
Proof. by rewrite sort_by_perm. Qed.

Context `{!StrictWeak less}.

Lemma less_irrefl x : less x x = false.
Proof. destruct (less x x) eqn:E; [|done]. by rewrite (less_asym x x E) in E. Qed.

Lemma heap_min_least x l m r z :
  heap_min x l = (m, r) → z ∈ x :: l → less z m = false.
Proof.
  revert x m r z. induction l as [|y l IH]; intros x m r z; simpl.
  - intros [= <- <-] Hz. rewrite list_elem_of_singleton in Hz. subst. apply less_irrefl.
  - destruct (heap_min y l) as [m' r'] eqn:E. specialize (IH _ _ _ z E).
    destruct (less m' x) eqn:L; intros [= <- <-] Hz; apply elem_of_cons in Hz as [->|Hz]; auto.
    + by apply less_asym.
    + apply less_irrefl.
    + eapply less_negtrans; eauto.
Qed.

Lemma heap_pop_least h m r z :
  heap_pop h = Some (m, r) → z ∈ h → less z m = false.
Proof. destruct h; simpl; [done|]. intros [= ?]. by apply heap_min_least with r. Qed.

(** Sorted: no element is less than an earlier one. *)
Definition sorted_by : list A → Prop := StronglySorted (λ x y, less y x = false).

Lemma insert_by_sorted x l : sorted_by l → sorted_by (insert_by x l).
Proof.
  unfold sorted_by. induction l as [|y l IH]; simpl; intros Hs.
  - repeat constructor.
  - apply StronglySorted_cons in Hs as [Hy Hs]. destruct (less y x) eqn:E.
    + apply StronglySorted_cons. split; [|by auto]. rewrite insert_by_perm.
      apply Forall_cons. split; [by apply less_asym|done].
    + apply StronglySorted_cons. split; [|by apply StronglySorted_cons].
      apply Forall_cons. split; [done|].
      eapply Forall_impl; [apply Hy|]. simpl. intros z Hz. by eapply less_negtrans.
Qed.

Lemma sort_by_sorted l : sorted_by (sort_by l).
Proof. induction l; simpl; [constructor|]. by apply insert_by_sorted. Qed.

End less.

(** ** Counting in maps and lists *)

Section counting.
Context `{Countable K} {V : Type} (P : K * V → Prop) `{!∀ x, Decision (P x)}.

Lemma size_filter_insert (m : gmap K V) k x :
  m !! k = None →
  size (filter P (<[k := x]> m)) = ((if decide (P (k, x)) then 1 else 0) + size (filter P m))%nat.
Proof.
  intros Hk. case_decide as HP.
  - rewrite map_filter_insert_True by done. rewrite map_size_insert_None; [done|].
    apply map_lookup_filter_None. by left.
  - rewrite map_filter_insert_False, delete_id by done. done.
Qed.

Lemma size_filter_delete (m : gmap K V) k x :
  m !! k = Some x →
  size (filter P m) = ((if decide (P (k, x)) then 1 else 0) + size (filter P (delete k m)))%nat.
Proof.
  intros Hk. rewrite <-(insert_id m k x Hk) at 1. rewrite <-insert_delete_eq.
  apply size_filter_insert. by rewrite lookup_delete_eq.
Qed.

(** Replacing the value at [k], if any, moves the count by that of the two values. *)
Lemma size_filter_update (m : gmap K V) k x (old : option V) :
  m !! k = old →
  (size (filter P (<[k := x]> m)) + from_option (λ y, if decide (P (k, y)) then 1 else 0) 0 old =
   size (filter P m) + (if decide (P (k, x)) then 1 else 0))%nat.
Proof.
  intros Hk. destruct old as [y|]; simpl.
  - rewrite (size_filter_delete m k y Hk), <-insert_delete_eq, size_filter_insert by apply lookup_delete_eq.
    lia.
  - rewrite size_filter_insert by done. lia.
Qed.
End counting.

Lemma length_filter_insert {A} (P : A → Prop) `{!∀ x, Decision (P x)} (l : list A) i x y :
  l !! i = Some y →
  (length (filter P (<[i := x]> l)) + (if decide (P y) then 1 else 0) =
   length (filter P l) + (if decide (P x) then 1 else 0))%nat.
Proof.
  revert i. induction l as [|z l IH]; intros [|i]; simpl; try done.
  - intros [= ->]. rewrite !filter_cons. repeat case_decide; simpl; lia.
  - intros Hi. specialize (IH _ Hi). rewrite !filter_cons. repeat case_decide; simpl; lia.
Qed.

Lemma NoDup_fmap_elem_eq {A B} (f : A → B) (l : list A) x y :
  NoDup (f <$> l) → x ∈ l → y ∈ l → f x = f y → x = y.
Proof.
  induction l as [|z l IH]; simpl; [set_solver|].
  rewrite NoDup_cons. intros [Hz Hl] Hx Hy E.
  apply elem_of_cons in Hx as [->|Hx]; apply elem_of_cons in Hy as [->|Hy]; auto.
  - exfalso. apply Hz. rewrite E. by apply list_elem_of_fmap_2.
  - exfalso. apply Hz. rewrite <-E. by apply list_elem_of_fmap_2.
Qed.

Lemma NoDup_fmap_filter {A B} (f : A → B) (P : A → Prop) `{!∀ x, Decision (P x)} (l : list A) :
  NoDup (f <$> l) → NoDup (f <$> filter P l).
Proof.
  induction l as [|z l IH]; simpl; [done|]. rewrite NoDup_cons. intros [Hz Hl].
  rewrite filter_cons. case_decide; simpl; [|by auto].
  apply NoDup_cons. split; [|by auto]. intros Hin. apply Hz.
  apply list_elem_of_fmap in Hin as (a & -> & Ha). apply list_elem_of_filter in Ha as [_ Ha].
  by apply list_elem_of_fmap_2.
Qed.

Lemma StronglySorted_mono {A} (R S : A → A → Prop) (l : list A) :
  (∀ x y, R x y → S x y) → StronglySorted R l → StronglySorted S l.
Proof.
  intros HRS. induction 1 as [|x l _ IH Hx]; constructor; [done|]. eapply Forall_impl; [apply Hx|]. auto.
Qed.

#[export] Hint Resolve str_ltb_irrefl str_ltb_trans sort_by_perm insert_by_perm sort_by_sorted : kardinal.
#[export] Hint Rewrite @sort_by_length @sort_by_elem : kardinal.
