(* ===== verification/Limiter.v ===== *)
(** * The outbound-call limiter (pkg/slots/limiter.go)

    [Limiter] shares a budget of outbound calls between namespaces: at most
    [Global] calls at once, at most [PerNamespace] of one namespace, slots
    first come first served.  The model keeps the code's data: a FIFO per
    namespace, the [waiting] and [reserved] maps, and the heap of namespaces
    that could take a slot, stale entries included.

    A pointer [*nsQueue] is represented by its key in [l.ns]; a
    [*list.Element] by the waiter it holds (a key waits at most once).  The
    mutex makes each exported operation one atomic step; [time.AfterFunc] is
    the environment's freedom to call [expire] with any key and generation.
    [Wake] callbacks run outside the lock, so an operation returns the keys to
    wake. *)

From stdpp Require Import base gmap strings list sorting.
From Stdlib Require Import Lia ZArith.
From S2P Require Import Prelude.

Open Scope Z_scope.

Module Limiter.

(** ** Data *)

Record waiter := mkWaiter { w_key : NamespacedName; w_seq : Z }.

Record nsQueue := mkNsQueue { used : Z; queue : list waiter }.

(** The timer of a reservation fires [expire key gen] after [ttl]. *)
Record reservation := mkReservation { gen : Z; ttl : Duration }.

Record readyEntry := mkReady { re_ns : string; re_seq : Z }.

Record Limiter := mkLimiter {
  Global : Z;
  PerNamespace : Z;
  ClaimTTL : Duration;
  seq : Z; (* uint64 *)
  total : Z; (* running plus reserved *)
  ns : gmap string nsQueue;
  waiting : gmap NamespacedName waiter;
  reserved : gmap NamespacedName reservation;
  ready : list readyEntry
}.

Definition defaultClaimTTL : Duration := 10 * second.

(** [readyHeap.Less]. *)
Definition readyHeap_Less (a b : readyEntry) : bool := re_seq a <? re_seq b.

Definition NewLimiter (global perNamespace : Z) : Limiter :=
  mkLimiter global perNamespace 0 0 0 ∅ ∅ ∅ [].

(** Field updates. *)
Definition set_ns (l : Limiter) (m : gmap string nsQueue) : Limiter :=
  mkLimiter (Global l) (PerNamespace l) (ClaimTTL l) (seq l) (total l) m
    (waiting l) (reserved l) (ready l).

Definition set_ready (l : Limiter) (h : list readyEntry) : Limiter :=
  mkLimiter (Global l) (PerNamespace l) (ClaimTTL l) (seq l) (total l) (ns l)
    (waiting l) (reserved l) h.

Definition set_waiting (l : Limiter) (m : gmap NamespacedName waiter) : Limiter :=
  mkLimiter (Global l) (PerNamespace l) (ClaimTTL l) (seq l) (total l) (ns l)
    m (reserved l) (ready l).

Definition set_reserved (l : Limiter) (m : gmap NamespacedName reservation) : Limiter :=
  mkLimiter (Global l) (PerNamespace l) (ClaimTTL l) (seq l) (total l) (ns l)
    (waiting l) m (ready l).

Definition set_total (l : Limiter) (t : Z) : Limiter :=
  mkLimiter (Global l) (PerNamespace l) (ClaimTTL l) (seq l) t (ns l)
    (waiting l) (reserved l) (ready l).

Definition set_seq (l : Limiter) (s : Z) : Limiter :=
  mkLimiter (Global l) (PerNamespace l) (ClaimTTL l) s (total l) (ns l)
    (waiting l) (reserved l) (ready l).

Definition set_ttl (l : Limiter) (d : Duration) : Limiter :=
  mkLimiter (Global l) (PerNamespace l) d (seq l) (total l) (ns l)
    (waiting l) (reserved l) (ready l).

(** ** Operations *)

(** [nsq] creates the namespace's queue on first use. *)
Definition nsq (name : string) (l : Limiter) : nsQueue * Limiter :=
  match ns l !! name with
  | Some q => (q, l)
  | None => let q := mkNsQueue 0 [] in (q, set_ns l (<[name := q]> (ns l)))
  end.

(** [gc] forgets a namespace with nothing running, reserved or waiting. *)
Definition gc (name : string) (l : Limiter) : Limiter :=
  match ns l !! name with
  | Some q =>
      if (used q =? 0) && bool_decide (queue q = [])
      then set_ns l (delete name (ns l)) else l
  | None => l
  end.

(** [markReady] records that the namespace could take a slot for its first
    waiter. *)
Definition markReady (name : string) (l : Limiter) : Limiter :=
  match ns l !! name with
  | Some q =>
      match queue q with
      | w :: _ =>
          if used q <? PerNamespace l
          then set_ready l (heap_push (mkReady name (w_seq w)) (ready l)) else l
      | [] => l
      end
  | None => l
  end.

Definition claim_ttl (l : Limiter) : Duration :=
  if ClaimTTL l <=? 0 then defaultClaimTTL else ClaimTTL l.

(** The body of [dispatch] for a fresh heap entry: the first waiter [w] of
    [name] leaves its queue and gets the slot reserved. *)
Definition reserve (name : string) (q : nsQueue) (w : waiter) (rest : list waiter)
    (l : Limiter) : Limiter :=
  let gen := u64_succ (seq l) in
  mkLimiter (Global l) (PerNamespace l) (ClaimTTL l) gen (total l + 1)
    (<[name := mkNsQueue (used q + 1) rest]> (ns l))
    (delete (w_key w) (waiting l))
    (<[w_key w := mkReservation gen (claim_ttl l)]> (reserved l))
    (ready l).

(** One pop of [dispatch]'s loop: [None] for a stale entry. *)
Definition fresh_entry (l : Limiter) (e : readyEntry) : option (nsQueue * waiter * list waiter) :=
  match ns l !! re_ns e with
  | None => None
  | Some q =>
      if PerNamespace l <=? used q then None
      else match queue q with
           | [] => None
           | w :: rest => if w_seq w =? re_seq e then Some (q, w, rest) else None
           end
  end.

Fixpoint dispatch_loop (fuel : nat) (wake : list NamespacedName) (l : Limiter)
    : list NamespacedName * Limiter :=
  match fuel with
  | O => (wake, l)
  | S fuel =>
      if total l <? Global l then
        match heap_pop readyHeap_Less (ready l) with
        | None => (wake, l)
        | Some (e, h) =>
            let l := set_ready l h in
            match fresh_entry l e with
            | None => dispatch_loop fuel wake l
            | Some (q, w, rest) =>
                dispatch_loop fuel (wake ++ [w_key w])
                  (markReady (re_ns e) (reserve (re_ns e) q w rest l))
            end
        end
      else (wake, l)
  end.

(** Every iteration pops an entry; one that pushes also takes a free slot. *)
Definition dispatch_fuel (l : Limiter) : nat :=
  S (length (ready l) + Z.to_nat (Global l - total l)).

Definition dispatch (l : Limiter) : list NamespacedName * Limiter :=
  dispatch_loop (dispatch_fuel l) [] l.

(** [free] gives back one slot of a namespace. *)
Definition give_back (name : string) (l : Limiter) : Limiter :=
  let '(q, l) := nsq name l in
  let l := set_ns l (<[name := mkNsQueue (used q - 1) (queue q)]> (ns l)) in
  set_total l (total l - 1).

Definition free (name : string) (l : Limiter) : list NamespacedName * Limiter :=
  let '(wake, l) := dispatch (markReady name (give_back name l)) in
  (wake, gc name l).

(** [expire] frees a reservation that was not claimed in time. *)
Definition expire (key : NamespacedName) (g : Z) (l : Limiter) : list NamespacedName * Limiter :=
  match reserved l !! key with
  | Some r =>
      if gen r =? g
      then free (Namespace key) (set_reserved l (delete key (reserved l)))
      else ([], l)
  | None => ([], l)
  end.

(** [TryAcquire]: [true] with a release function for the key, [false] when it
    must wait. *)
Definition TryAcquire (key : NamespacedName) (l : Limiter) : bool * Limiter :=
  match reserved l !! key with
  | Some _ => (true, set_reserved l (delete key (reserved l)))
  | None =>
      match waiting l !! key with
      | Some _ => (false, l)
      | None =>
          let '(q, l) := nsq (Namespace key) l in
          if (Global l <=? total l) || (PerNamespace l <=? used q) then
            let l := set_seq l (u64_succ (seq l)) in
            let w := mkWaiter key (seq l) in
            let q' := mkNsQueue (used q) (queue q ++ [w]) in
            let l := set_waiting (set_ns l (<[Namespace key := q']> (ns l)))
                       (<[key := w]> (waiting l)) in
            (false,
             if bool_decide (length (queue q') = 1%nat) then markReady (Namespace key) l else l)
          else
            let l := set_ns l (<[Namespace key := mkNsQueue (used q + 1) (queue q)]> (ns l)) in
            (true, set_total l (total l + 1))
      end
  end.

(** The waiter's element leaves its queue. *)
Definition remove_waiter (key : NamespacedName) (ws : list waiter) : list waiter :=
  filter (λ w, w_key w ≠ key) ws.

(** [Cancel] removes a key from the queue, or gives back the slot reserved for
    it. *)
Definition Cancel (key : NamespacedName) (l : Limiter) : list NamespacedName * Limiter :=
  let l :=
    match waiting l !! key, ns l !! Namespace key with
    | Some _, Some q =>
        let was_head := match queue q with w :: _ => bool_decide (w_key w = key) | [] => false end in
        let q' := mkNsQueue (used q) (remove_waiter key (queue q)) in
        let l := set_waiting (set_ns l (<[Namespace key := q']> (ns l)))
                   (delete key (waiting l)) in
        gc (Namespace key) (if was_head then markReady (Namespace key) l else l)
    | _, _ => l
    end in
  match reserved l !! key with
  | Some _ => free (Namespace key) (set_reserved l (delete key (reserved l)))
  | None => ([], l)
  end.

Definition Waiting (l : Limiter) : nat := size (waiting l).

Definition InUse (l : Limiter) : Z := total l.

(** ** The limiter with the release functions it has handed out

    [TryAcquire] returns a closure over a [sync.Once]: [h_done] is whether it
    ran.  A caller may call any closure it got, at any time and again. *)
Record handle := mkHandle { h_key : NamespacedName; h_done : bool }.

Record Sys := mkSys { lim : Limiter; handles : list handle }.

Definition release (i : nat) (s : Sys) : list NamespacedName * Sys :=
  match handles s !! i with
  | Some (mkHandle key false) =>
      let '(wake, l) := free (Namespace key) (lim s) in
      (wake, mkSys l (<[i := mkHandle key true]> (handles s)))
  | _ => ([], s)
  end.

Inductive op :=
  | OTryAcquire (key : NamespacedName)
  | ORelease (i : nat)
  | OExpire (key : NamespacedName) (g : Z)
  | OCancel (key : NamespacedName).

Definition run_op (o : op) (s : Sys) : list NamespacedName * Sys :=
  match o with
  | OTryAcquire key =>
      let '(ok, l) := TryAcquire key (lim s) in
      ([], mkSys l (if ok then handles s ++ [mkHandle key false] else handles s))
  | ORelease i => release i s
  | OExpire key g => let '(wake, l) := expire key g (lim s) in (wake, mkSys l (handles s))
  | OCancel key => let '(wake, l) := Cancel key (lim s) in (wake, mkSys l (handles s))
  end.

(** [reach g p n s]: [s] is reached from a new limiter by [n] operations, in
    any interleaving. *)
Inductive reach (g p : Z) : nat → Sys → Prop :=
  | reach_init d : reach g p 0 (mkSys (set_ttl (NewLimiter g p) d) [])
  | reach_step n s o : reach g p n s → reach g p (S n) (run_op o s).2.

(** ** Views

    What the invariants speak about: a namespace's slots in use and waiters,
    whether or not [nsq] created or [gc] dropped its entry. *)
Definition used_of (l : Limiter) (n : string) : Z := from_option used 0 (ns l !! n).

Definition queue_of (l : Limiter) (n : string) : list waiter := from_option queue [] (ns l !! n).

(** Reservations of namespace [n]. *)
Definition resn (l : Limiter) (n : string) : nat :=
  size (filter (λ p, Namespace p.1 = n) (reserved l)).

(** Release functions that have not run: of namespace [n], and in all. *)
Definition live_in (n : string) (hs : list handle) : nat :=
  length (filter (λ h, h_done h = false ∧ Namespace (h_key h) = n) hs).

Definition live (hs : list handle) : nat := length (filter (λ h, h_done h = false) hs).

(** ** The invariant

    [held n] and [H] count the slots in use that no reservation accounts for:
    the release functions still to run. *)
Record Core (l : Limiter) (held : string → nat) (H : nat) : Prop := {
  c_key : ∀ n w, w ∈ queue_of l n → Namespace (w_key w) = n;
  c_nodup : ∀ n, NoDup (w_key <$> queue_of l n);
  c_wait : ∀ k w, waiting l !! k = Some w ↔ w_key w = k ∧ w ∈ queue_of l (Namespace k);
  c_disj : ∀ k, is_Some (waiting l !! k) → reserved l !! k = None;
  c_used : ∀ n, used_of l n = Z.of_nat (resn l n + held n);
  c_total : total l = Z.of_nat (size (reserved l) + H);
  c_capG : total l ≤ Z.max 0 (Global l);
  c_capN : ∀ n, used_of l n ≤ Z.max 0 (PerNamespace l);
  c_ready : ∀ n w rest, queue_of l n = w :: rest → used_of l n < PerNamespace l →
              mkReady n (w_seq w) ∈ ready l
}.

(** No waiter whose namespace is under its cap waits while a slot is free. *)
Definition Work (l : Limiter) : Prop :=
  total l < Global l → ∀ n, queue_of l n ≠ [] → PerNamespace l ≤ used_of l n.

Definition Inv (s : Sys) : Prop :=
  Core (lim s) (λ n, live_in n (handles s)) (live (handles s)) ∧ Work (lim s).

(** *** How the operations change the views *)

Lemma used_of_set l n q m :
  used_of (set_ns l (<[n := q]> (ns l))) m = if decide (n = m) then used q else used_of l m.
Proof. unfold used_of; simpl. rewrite lookup_insert. by case_decide. Qed.

Lemma queue_of_set l n q m :
  queue_of (set_ns l (<[n := q]> (ns l))) m = if decide (n = m) then queue q else queue_of l m.
Proof. unfold queue_of; simpl. rewrite lookup_insert. by case_decide. Qed.

Lemma nsq_spec name l q l' :
  nsq name l = (q, l') →
  used q = used_of l name ∧ queue q = queue_of l name ∧
  (∀ m, used_of l' m = used_of l m) ∧ (∀ m, queue_of l' m = queue_of l m) ∧
  ∃ m, l' = set_ns l m.
Proof.
  unfold nsq, used_of, queue_of. destruct (ns l !! name) as [q0|] eqn:E; intros [= <- <-]; simpl.
  - split_and!; try done. exists (ns l). by destruct l.
  - split_and!; try done; [intros m; rewrite lookup_insert; case_decide; subst; by rewrite ?E..|].
    by eexists.
Qed.

Lemma gc_spec name l :
  (∀ m, used_of (gc name l) m = used_of l m) ∧ (∀ m, queue_of (gc name l) m = queue_of l m) ∧
  ∃ m, gc name l = set_ns l m.
Proof.
  assert (Hid : ∃ m, l = set_ns l m) by (exists (ns l); by destruct l).
  unfold gc. destruct (ns l !! name) as [q|] eqn:E; [|done].
  destruct ((used q =? 0) && bool_decide (queue q = [])) eqn:B; [|done].
  apply andb_true_iff in B as [B1 B2]. apply Z.eqb_eq in B1. apply bool_decide_eq_true in B2.
  unfold used_of, queue_of; simpl. split_and!; [intros m; rewrite lookup_delete;
    case_decide; subst; by rewrite ?E; simpl; rewrite ?B1, ?B2..|by eexists].
Qed.

Lemma markReady_spec name l :
  ∃ h, markReady name l = set_ready l h ∧
  (∀ e, e ∈ ready l → e ∈ h) ∧
  (∀ w rest, queue_of l name = w :: rest → used_of l name < PerNamespace l →
     mkReady name (w_seq w) ∈ h) ∧
  (length h ≤ S (length (ready l)))%nat.
Proof.
  assert (Hid : l = set_ready l (ready l)) by by destruct l.
  unfold markReady, queue_of, used_of. destruct (ns l !! name) as [q|] eqn:E; simpl.
  2:{ exists (ready l). split_and!; [done..|lia]. }
  destruct (queue q) as [|w ws] eqn:Q; [exists (ready l); split_and!; [done..|lia]|].
  destruct (used q <? PerNamespace l) eqn:B; simpl; unfold heap_push; eexists.
  - split_and!; [done|set_solver| |rewrite length_app; simpl; lia].
    intros ?? [= <- <-] _. set_solver.
  - split_and!; [exact Hid|done| |lia]. intros. apply Z.ltb_ge in B. lia.
Qed.

(** *** Bookkeeping of reservations *)

Lemma resn_insert l m k r n :
  reserved l = m → m !! k = None →
  resn (set_reserved l (<[k := r]> m)) n = ((if decide (Namespace k = n) then 1 else 0) + resn l n)%nat.
Proof. intros <- Hk. unfold resn; simpl. by rewrite size_filter_insert. Qed.

Lemma resn_delete l k r n :
  reserved l !! k = Some r →
  resn l n = ((if decide (Namespace k = n) then 1 else 0) + resn (set_reserved l (delete k (reserved l))) n)%nat.
Proof. intros Hk. unfold resn; simpl. by rewrite (size_filter_delete _ _ _ _ Hk). Qed.

Lemma size_reserved_delete l k r :
  reserved l !! k = Some r → size (reserved l) = S (size (delete k (reserved l))).
Proof.
  intros Hk. rewrite <-(insert_id (reserved l) k r Hk) at 1.
  rewrite <-insert_delete_eq. apply map_size_insert_None, lookup_delete_eq.
Qed.

(** [Core] only looks at the views. *)
Lemma Core_ext l l' held held' H :
  Core l held H →
  (∀ m, used_of l' m = used_of l m) → (∀ m, queue_of l' m = queue_of l m) →
  (∀ n, held' n = held n) → waiting l' = waiting l → reserved l' = reserved l →
  total l' = total l → Global l' = Global l → PerNamespace l' = PerNamespace l →
  (∀ e, e ∈ ready l → e ∈ ready l') → Core l' held' H.
Proof.
  intros [] Hu Hq Hh Hw Hr Ht HG HP He. split; intros; unfold resn in *;
    rewrite ?Hu, ?Hq, ?Hw, ?Hr, ?Ht, ?HG, ?HP, ?Hh in *; eauto.
Qed.

Lemma Core_markReady l held H name : Core l held H → Core (markReady name l) held H.
Proof.
  intros HC. destruct (markReady_spec name l) as (h & -> & He & _).
  eapply Core_ext; eauto.
Qed.

Lemma Core_gc l held H name : Core l held H → Core (gc name l) held H.
Proof.
  intros HC. destruct (gc_spec name l) as (Hu & Hq & m & E).
  eapply Core_ext; eauto; by rewrite E.
Qed.

Lemma fresh_entry_Some l e q w rest :
  fresh_entry l e = Some (q, w, rest) →
  ns l !! re_ns e = Some q ∧ used_of l (re_ns e) = used q ∧ used q < PerNamespace l ∧
  queue_of l (re_ns e) = w :: rest ∧ w_seq w = re_seq e.
Proof.
  unfold fresh_entry, used_of, queue_of. destruct (ns l !! re_ns e) as [q0|] eqn:E; [|done].
  destruct (PerNamespace l <=? used q0) eqn:B; [done|].
  destruct (queue q0) as [|w0 r0] eqn:Q; [done|].
  destruct (w_seq w0 =? re_seq e) eqn:S; [|done]. intros [= <- <- <-]. simpl.
  apply Z.leb_gt in B. apply Z.eqb_eq in S. auto.
Qed.

(** A stale entry is not the one an eligible namespace relies on. *)
Lemma fresh_entry_None l e :
  fresh_entry l e = None →
  ∀ n w rest, queue_of l n = w :: rest → used_of l n < PerNamespace l → mkReady n (w_seq w) ≠ e.
Proof.
  intros HN n w rest HQ HU <-. revert HN. unfold fresh_entry, used_of, queue_of in *; simpl in *.
  destruct (ns l !! n) as [q|]; simpl in *; [|done].
  rewrite HQ, Z.eqb_refl. by rewrite (proj2 (Z.leb_gt _ _) HU).
Qed.

Lemma used_of_reserve name q w rest l m :
  used_of (reserve name q w rest l) m = if decide (name = m) then used q + 1 else used_of l m.
Proof. unfold used_of, reserve; simpl. rewrite lookup_insert. by case_decide. Qed.

Lemma queue_of_reserve name q w rest l m :
  queue_of (reserve name q w rest l) m = if decide (name = m) then rest else queue_of l m.
Proof. unfold queue_of, reserve; simpl. rewrite lookup_insert. by case_decide. Qed.

(** Popping an entry loses only that entry. *)
Lemma pop_keeps l e h x :
  heap_pop readyHeap_Less (ready l) = Some (e, h) → x ∈ ready l → x ≠ e → x ∈ h.
Proof. intros Hp. apply heap_pop_perm in Hp. rewrite Hp, elem_of_cons. naive_solver. Qed.

Lemma Core_pop_stale l held H e h :
  Core l held H → heap_pop readyHeap_Less (ready l) = Some (e, h) →
  fresh_entry (set_ready l h) e = None → Core (set_ready l h) held H.
Proof.
  intros HC Hp HN. pose proof (fresh_entry_None _ _ HN) as Hst.
  destruct HC. split; try done. intros n w rest HQ HU.
  eapply pop_keeps; eauto.
Qed.

Lemma Core_reserve l held H e h q w rest :
  Core l held H → total l < Global l →
  heap_pop readyHeap_Less (ready l) = Some (e, h) →
  fresh_entry (set_ready l h) e = Some (q, w, rest) →
  Core (markReady (re_ns e) (reserve (re_ns e) q w rest (set_ready l h))) held H.
Proof.
  intros HC HG Hp HF. apply fresh_entry_Some in HF as (Hns & Hu & HP & HQ & Hs).
  change (ns (set_ready l h)) with (ns l) in Hns.
  change (used_of (set_ready l h)) with (used_of l) in Hu.
  change (queue_of (set_ready l h)) with (queue_of l) in HQ. simpl in HP.
  set (l1 := reserve (re_ns e) q w rest (set_ready l h)).
  assert (HUl : ∀ m, used_of l1 m = if decide (re_ns e = m) then used q + 1 else used_of l m)
    by (intros m; exact (used_of_reserve _ _ _ _ (set_ready l h) m)).
  assert (HQl : ∀ m, queue_of l1 m = if decide (re_ns e = m) then rest else queue_of l m)
    by (intros m; exact (queue_of_reserve _ _ _ _ (set_ready l h) m)).
  assert (Hwin : w ∈ queue_of l (re_ns e)) by (rewrite HQ; set_solver).
  assert (Hwns : Namespace (w_key w) = re_ns e) by (eapply c_key; eauto).
  assert (Hww : waiting l !! w_key w = Some w) by (eapply c_wait; [done|]; by rewrite Hwns).
  assert (Hnr : reserved l !! w_key w = None) by (eapply c_disj; eauto).
  pose proof (c_nodup _ _ _ HC (re_ns e)) as Hnd. rewrite HQ in Hnd. simpl in Hnd.
  apply NoDup_cons in Hnd as [Hnin Hnd].
  destruct (markReady_spec (re_ns e) l1) as (h' & -> & Hkeep & Hmark & _).
  split; simpl; change (used_of (set_ready l1 ?x)) with (used_of l1);
    change (queue_of (set_ready l1 ?x)) with (queue_of l1).
  - intros n w'. rewrite HQl. case_decide; intros Hin; eapply c_key; eauto;
      subst; rewrite HQ; set_solver.
  - intros n. rewrite HQl. case_decide; [done|]. by eapply c_nodup.
  - intros k w'. rewrite lookup_delete_Some, (c_wait _ _ _ HC), HQl. split.
    + intros (Hne & <- & Hin). split; [done|]. case_decide as Hd; [|done].
      rewrite <-Hd, HQ in Hin. set_solver.
    + intros (<- & Hin). case_decide as Hd.
      * split_and!; [|done|rewrite <-Hd, HQ; set_solver].
        intros Heq. apply Hnin. rewrite Heq. by apply list_elem_of_fmap_2.
      * split_and!; [|done..]. intros Heq. apply Hd. by rewrite <-Heq, Hwns.
  - intros k [v Hv]. apply lookup_delete_Some in Hv as [Hne Hv].
    rewrite lookup_insert_ne by done. eapply c_disj; eauto.
  - intros n. rewrite HUl.
    unfold resn; simpl. rewrite size_filter_insert by done. simpl. rewrite Hwns.
    pose proof (c_used _ _ _ HC n) as Hn. unfold resn in Hn.
    case_decide; subst; lia.
  - rewrite map_size_insert_None by done. pose proof (c_total _ _ _ HC). lia.
  - lia.
  - intros n. rewrite HUl. pose proof (c_capN _ _ _ HC n). case_decide; lia.
  - intros n w' rest' HQ' HU'. rewrite HQl in HQ'. rewrite HUl in HU'.
    destruct (decide (re_ns e = n)) as [<-|Hne].
    + eapply Hmark; [rewrite HQl|rewrite HUl]; rewrite decide_True by done; done.
    + apply Hkeep. simpl. eapply pop_keeps; [done| |].
      * eapply c_ready; eauto.
      * intros E. apply Hne. by rewrite <-E.
Qed.

(** *** [dispatch] *)

Lemma dispatch_loop_core fuel : ∀ wake l held H,
  Core l held H → Core (dispatch_loop fuel wake l).2 held H.
Proof.
  induction fuel as [|fuel IH]; intros wake l held H HC; simpl; [done|].
  destruct (total l <? Global l) eqn:HG; [|done]. apply Z.ltb_lt in HG.
  destruct (heap_pop readyHeap_Less (ready l)) as [[e h]|] eqn:Hp; [|done].
  destruct (fresh_entry (set_ready l h) e) as [[[q w] rest]|] eqn:HF; apply IH.
  - by eapply Core_reserve.
  - by eapply Core_pop_stale.
Qed.

(** The loop ends with no free slot or no candidate left. *)
Lemma dispatch_loop_done fuel : ∀ wake l,
  (length (ready l) + Z.to_nat (Global l - total l) < fuel)%nat →
  let l' := (dispatch_loop fuel wake l).2 in Global l' ≤ total l' ∨ ready l' = [].
Proof.
  induction fuel as [|fuel IH]; intros wake l Hf; simpl; [lia|].
  destruct (total l <? Global l) eqn:HG; [apply Z.ltb_lt in HG|apply Z.ltb_ge in HG; by left].
  destruct (heap_pop readyHeap_Less (ready l)) as [[e h]|] eqn:Hp.
  2:{ right. by apply heap_pop_None in Hp. }
  apply heap_pop_length in Hp.
  destruct (fresh_entry (set_ready l h) e) as [[[q w] rest]|] eqn:HF; apply IH; simpl; [|lia].
  destruct (markReady_spec (re_ns e) (reserve (re_ns e) q w rest (set_ready l h)))
    as (h' & -> & _ & _ & Hlen). simpl in *. lia.
Qed.

Lemma Work_done l held H : Core l held H → Global l ≤ total l ∨ ready l = [] → Work l.
Proof.
  intros HC Hd HG n Hn. destruct (queue_of l n) as [|w rest] eqn:Q; [done|].
  destruct (decide (used_of l n < PerNamespace l)) as [HU|]; [|lia].
  pose proof (c_ready _ _ _ HC _ _ _ Q HU) as Hin.
  destruct Hd as [|E]; [lia|]. rewrite E in Hin. set_solver.
Qed.

Lemma dispatch_inv l held H :
  Core l held H → Core (dispatch l).2 held H ∧ Work (dispatch l).2.
Proof.
  intros HC. assert (HC' := dispatch_loop_core (dispatch_fuel l) [] l held H HC).
  split; [done|]. eapply Work_done; [done|]. apply dispatch_loop_done. unfold dispatch_fuel. lia.
Qed.

(** A reservation given up becomes a slot nobody accounts for, until [free]. *)
Lemma Core_unreserve l held H key r :
  Core l held H → reserved l !! key = Some r →
  Core (set_reserved l (delete key (reserved l)))
    (λ n, if decide (Namespace key = n) then S (held n) else held n) (S H).
Proof.
  intros HC Hr. destruct HC. split; simpl; try done.
  - intros k Hk. rewrite lookup_delete_None. right. by apply c_disj0.
  - intros n. change (used_of (set_reserved l ?x)) with (used_of l).
    rewrite c_used0, (resn_delete _ _ _ n Hr). case_decide; lia.
  - rewrite c_total0, (size_reserved_delete _ _ _ Hr). lia.
Qed.

Lemma give_back_views name l :
  (∀ m, used_of (give_back name l) m = if decide (name = m) then used_of l m - 1 else used_of l m) ∧
  (∀ m, queue_of (give_back name l) m = queue_of l m) ∧
  ∃ m, give_back name l = set_total (set_ns l m) (total l - 1).
Proof.
  unfold give_back. destruct (nsq name l) as [q l1] eqn:En.
  apply nsq_spec in En as (Hqu & Hqq & Hu & Hq & m1 & ->). split_and!; [| |by eexists].
  - intros m. etrans; [apply used_of_set|]. case_decide; subst; simpl; [|by rewrite Hu].
    by rewrite Hqu.
  - intros m. etrans; [apply queue_of_set|]. case_decide; subst; simpl; by rewrite ?Hq.
Qed.

(** [free] takes one unaccounted slot back and hands free slots on. *)
Lemma Core_give_back l held held' H name :
  Core l held (S H) →
  (∀ n, held n = if decide (name = n) then S (held' n) else held' n) →
  Core (markReady name (give_back name l)) held' H.
Proof.
  intros HC Hh. destruct (give_back_views name l) as (Hu2 & Hq2 & m & E).
  destruct (markReady_spec name (give_back name l)) as (h & -> & Hkeep & Hmark & _).
  set (l2 := give_back name l) in *.
  destruct HC. split; simpl; change (used_of (set_ready l2 h)) with (used_of l2);
    change (queue_of (set_ready l2 h)) with (queue_of l2).
  - intros n w. rewrite Hq2. auto.
  - intros n. rewrite Hq2. auto.
  - intros k w. rewrite Hq2, E. auto.
  - rewrite E. auto.
  - intros n. rewrite Hu2. specialize (c_used0 n). specialize (Hh n).
    unfold resn in *; simpl. rewrite E; simpl. case_decide; lia.
  - rewrite E; simpl. lia.
  - rewrite E; simpl. lia.
  - intros n. rewrite Hu2, E; simpl. specialize (c_capN0 n). case_decide; lia.
  - intros n w rest HQ HU. destruct (decide (name = n)) as [<-|Hne]; [by eapply Hmark|].
    apply Hkeep. rewrite Hu2, decide_False in HU by done. rewrite E in HU |- *; simpl in *.
    eapply c_ready0; [|done]. by rewrite <-Hq2.
Qed.

Lemma free_inv l held held' H name :
  Core l held (S H) →
  (∀ n, held n = if decide (name = n) then S (held' n) else held' n) →
  let l' := (free name l).2 in Core l' held' H ∧ Work l'.
Proof.
  intros HC Hh. unfold free. pose proof (Core_give_back _ _ _ _ _ HC Hh) as HC2.
  destruct (dispatch_inv _ _ _ HC2) as [HC3 HW3].
  destruct (dispatch (markReady name (give_back name l))) as [wake l3]; simpl in *.
  destruct (gc_spec name l3) as (Hu3 & Hq3 & m3 & E3). split; [by apply Core_gc|].
  unfold Work. intros HG n. rewrite Hu3, Hq3. rewrite E3 in *; simpl in *. by apply HW3.
Qed.

(** *** [TryAcquire] *)

Definition bump (key : NamespacedName) (held : string → nat) (n : string) : nat :=
  if decide (Namespace key = n) then S (held n) else held n.

Lemma not_waiting_queue l held H key w :
  Core l held H → waiting l !! key = None → w ∈ queue_of l (Namespace key) → w_key w ≠ key.
Proof.
  intros HC Hn Hin <-. assert (waiting l !! w_key w = Some w); [|congruence].
  by apply (c_wait _ _ _ HC).
Qed.

Lemma Core_enqueue l held H key s :
  Core l held H → reserved l !! key = None → waiting l !! key = None →
  let w := mkWaiter key s in
  let q := mkNsQueue (used_of l (Namespace key)) (queue_of l (Namespace key) ++ [w]) in
  let l1 := set_seq (set_waiting (set_ns l (<[Namespace key := q]> (ns l))) (<[key := w]> (waiting l))) s in
  Core (if bool_decide (length (queue q) = 1%nat) then markReady (Namespace key) l1 else l1) held H.
Proof.
  intros HC Hr Hw w q l1.
  assert (Hu1 : ∀ m, used_of l1 m = used_of l m).
  { intros m. etrans; [apply used_of_set|]. by case_decide; subst. }
  assert (Hq1 : ∀ m, queue_of l1 m = if decide (Namespace key = m) then queue_of l m ++ [w] else queue_of l m).
  { intros m. etrans; [apply queue_of_set|]. by case_decide; subst. }
  set (l2 := if bool_decide _ then _ else _).
  assert (∃ h, l2 = set_ready l1 h ∧ (∀ e, e ∈ ready l → e ∈ h) ∧
    (queue_of l (Namespace key) = [] → used_of l (Namespace key) < PerNamespace l →
       mkReady (Namespace key) s ∈ h)) as (h & -> & Hkeep & Hnew).
  { subst l2. case_bool_decide as Hl.
    - destruct (markReady_spec (Namespace key) l1) as (h & -> & Hk & Hm & _).
      exists h. split_and!; [done..|]. intros HQ HU. apply (Hm w []).
      + by rewrite Hq1, decide_True, HQ by done.
      + by rewrite Hu1.
    - exists (ready l1). split_and!; [done..|]. intros HQ. exfalso. apply Hl. simpl. by rewrite HQ. }
  assert (Hnk : ∀ v, v ∈ queue_of l (Namespace key) → w_key v ≠ key)
    by (intros v; by eapply not_waiting_queue).
  destruct HC as [Hkey Hnd Hwait Hdis Hused Htot HcG HcN Hrdy].
  split; simpl; change (used_of (set_ready l1 h)) with (used_of l1);
    change (queue_of (set_ready l1 h)) with (queue_of l1); try done.
  - intros n v. rewrite Hq1. case_decide as E; [|by auto].
    rewrite elem_of_app, list_elem_of_singleton. intros [?| ->]; [by auto|done].
  - intros n. rewrite Hq1. case_decide as E; [|by auto]. rewrite fmap_app. apply NoDup_app.
    split_and!; [done| |apply NoDup_singleton]. subst n. intros k Hk Hk'.
    apply list_elem_of_fmap in Hk as (v & -> & Hv). apply list_elem_of_singleton in Hk'.
    by apply (Hnk v).
  - intros k v. rewrite Hq1, lookup_insert. case_decide as E1.
    + subst k. rewrite decide_True, elem_of_app, list_elem_of_singleton by done. split.
      * intros [= <-]. naive_solver.
      * intros [Hv [Hin| ->]]; [|done]. exfalso. by apply (Hnk v).
    + rewrite Hwait. case_decide; [|done]. rewrite elem_of_app, list_elem_of_singleton.
      split; [naive_solver|]. intros [? [?| ->]]; [done|]. simpl in *. done.
  - intros k. rewrite lookup_insert. case_decide; [by subst|by auto].
  - intros n. rewrite Hu1. done.
  - intros n. rewrite Hu1. done.
  - intros n v rest. rewrite Hq1, Hu1. case_decide as E; [|eauto]. subst n.
    destruct (queue_of l (Namespace key)) as [|v0 vs] eqn:HQ; simpl.
    + intros [= <- <-] HU. by apply Hnew.
    + intros [= <- <-] HU. apply Hkeep. by eapply Hrdy.
Qed.

Lemma Core_acquire l held H key :
  Core l held H → total l < Global l → used_of l (Namespace key) < PerNamespace l →
  let q := mkNsQueue (used_of l (Namespace key) + 1) (queue_of l (Namespace key)) in
  Core (set_total (set_ns l (<[Namespace key := q]> (ns l))) (total l + 1)) (bump key held) (S H).
Proof.
  intros HC HG HP q. set (l1 := set_total _ _).
  assert (Hu1 : ∀ m, used_of l1 m = if decide (Namespace key = m) then used_of l m + 1 else used_of l m).
  { intros m. etrans; [apply used_of_set|]. by case_decide; subst. }
  assert (Hq1 : ∀ m, queue_of l1 m = queue_of l m).
  { intros m. etrans; [apply queue_of_set|]. by case_decide; subst. }
  destruct HC as [Hkey Hnd Hwait Hdis Hused Htot HcG HcN Hrdy]. split; simpl; auto.
  - intros n w. rewrite Hq1. auto.
  - intros n. rewrite Hq1. auto.
  - intros k w. rewrite Hq1. auto.
  - intros n. rewrite Hu1. unfold bump, resn in *; simpl. specialize (Hused n). case_decide; lia.
  - lia.
  - lia.
  - intros n. rewrite Hu1. specialize (HcN n). case_decide; subst; lia.
  - intros n w rest. rewrite Hq1, Hu1. intros HQ HU. eapply Hrdy; [done|]. case_decide; lia.
Qed.

Lemma TryAcquire_inv key l held H :
  Core l held H → Work l →
  let '(ok, l') := TryAcquire key l in
  Core l' (if ok then bump key held else held) (if ok then S H else H) ∧ Work l'.
Proof.
  intros HC HW. unfold TryAcquire. destruct (reserved l !! key) as [r|] eqn:Hr.
  { split; [by eapply Core_unreserve|done]. }
  destruct (waiting l !! key) as [w|] eqn:Hw; [done|].
  destruct (nsq (Namespace key) l) as [q l1] eqn:En.
  apply nsq_spec in En as (Hqu & Hqq & Hu & Hq & m1 & ->).
  assert (HC1 : Core (set_ns l m1) held H) by by eapply Core_ext.
  rewrite Hqu, Hqq. rewrite <-(Hu (Namespace key)), <-(Hq (Namespace key)).
  destruct ((Global (set_ns l m1) <=? total (set_ns l m1)) || _) eqn:B.
  - pose proof (Core_enqueue _ _ _ key (u64_succ (seq (set_ns l m1))) HC1 Hr Hw) as HE.
    simpl in HE. split; [exact HE|]. clear HE.
    assert (Hcap : total l < Global l → PerNamespace l <= used_of (set_ns l m1) (Namespace key)).
    { apply orb_true_iff in B as [B|B]; apply Z.leb_le in B; simpl in *; lia. }
    set (l2 := set_waiting _ _).
    assert (HW2 : Work l2).
    { intros HG n Hn. subst l2. change (used_of (set_waiting ?a ?b)) with (used_of a) in *.
      change (queue_of (set_waiting ?a ?b)) with (queue_of a) in *.
      rewrite used_of_set. rewrite queue_of_set in Hn. simpl in *. case_decide; subst; [by auto|].
      change (used_of (set_seq ?a ?b)) with (used_of a). rewrite Hu. apply HW; [done|].
      change (queue_of (set_seq ?a ?b)) with (queue_of a) in Hn. by rewrite Hq in Hn. }
    destruct (bool_decide _); [|done].
    destruct (markReady_spec (Namespace key) l2) as (h & -> & _). exact HW2.
  - apply orb_false_iff in B as [B1 B2]. apply Z.leb_gt in B1. apply Z.leb_gt in B2.
    split; [by apply (Core_acquire _ _ _ key HC1)|]. intros HG n Hn. simpl in *.
    change (used_of (set_total ?a ?b)) with (used_of a). rewrite used_of_set. simpl.
    change (queue_of (set_total ?a ?b)) with (queue_of a) in Hn. rewrite queue_of_set in Hn.
    simpl in Hn. assert (Hn' : queue_of l n ≠ []).
    { case_decide; subst; by rewrite ?Hq in Hn. }
    apply HW in Hn'; [|lia]. rewrite <-Hu in Hn'. case_decide; subst; lia.
Qed.

(** *** [Cancel], [expire] and the release functions *)

Lemma remove_waiter_head key w ws :
  w_key w ≠ key → remove_waiter key (w :: ws) = w :: remove_waiter key ws.
Proof. intros. unfold remove_waiter. by rewrite filter_cons_True. Qed.

(** The first half of [Cancel]: a waiting key leaves its queue. *)
Definition drop_waiter (key : NamespacedName) (l : Limiter) (q : nsQueue) : Limiter :=
  set_waiting (set_ns l (<[Namespace key := mkNsQueue (used q) (remove_waiter key (queue q))]> (ns l)))
    (delete key (waiting l)).

Lemma drop_waiter_views key l q :
  ns l !! Namespace key = Some q →
  (∀ m, used_of (drop_waiter key l q) m = used_of l m) ∧
  (∀ m, queue_of (drop_waiter key l q) m =
     if decide (Namespace key = m) then remove_waiter key (queue_of l m) else queue_of l m).
Proof.
  intros E. split; intros m; unfold drop_waiter.
  - etrans; [apply used_of_set|]. case_decide; subst; [|done]. simpl. unfold used_of. by rewrite E.
  - etrans; [apply queue_of_set|]. case_decide; subst; [|done]. simpl. unfold queue_of. by rewrite E.
Qed.

Lemma Core_drop l held H key q h :
  Core l held H → ns l !! Namespace key = Some q →
  (∀ e, e ∈ ready l → e ∈ h) →
  (∀ w rest, queue_of l (Namespace key) = w :: rest → w_key w = key →
     ∀ v vs, queue_of (drop_waiter key l q) (Namespace key) = v :: vs →
     used_of l (Namespace key) < PerNamespace l → mkReady (Namespace key) (w_seq v) ∈ h) →
  Core (set_ready (drop_waiter key l q) h) held H.
Proof.
  intros HC E Hkeep Hnew. destruct (drop_waiter_views key l q E) as [Hu1 Hq1].
  destruct HC as [Hkey Hnd Hwait Hdis Hused Htot HcG HcN Hrdy].
  set (l1 := drop_waiter key l q) in *.
  split; simpl; change (used_of (set_ready l1 h)) with (used_of l1);
    change (queue_of (set_ready l1 h)) with (queue_of l1); try done.
  - intros n w. rewrite Hq1. case_decide; [|by auto].
    unfold remove_waiter. rewrite list_elem_of_filter. naive_solver.
  - intros n. rewrite Hq1. case_decide; [|by auto]. by apply NoDup_fmap_filter.
  - intros k w. rewrite Hq1, lookup_delete_Some, Hwait. case_decide as D; unfold remove_waiter.
    + rewrite list_elem_of_filter. naive_solver.
    + naive_solver.
  - intros k [v Hv]. apply lookup_delete_Some in Hv as [_ Hv]. by apply Hdis.
  - intros n. rewrite Hu1. done.
  - intros n. rewrite Hu1. done.
  - intros n v vs. rewrite Hu1. intros HQ HU. destruct (decide (Namespace key = n)) as [<-|Hne].
    + destruct (queue_of l (Namespace key)) as [|w rest] eqn:HQl.
      { rewrite Hq1, decide_True, HQl in HQ by done. done. }
      destruct (decide (w_key w = key)) as [Hk|Hk]; [by eapply Hnew|].
      rewrite Hq1, decide_True, HQl, remove_waiter_head in HQ by done. injection HQ as <- _.
      apply Hkeep. by eapply Hrdy.
    + apply Hkeep. eapply Hrdy; [|done]. rewrite Hq1, decide_False in HQ by done. done.
Qed.

Lemma Work_set_ready l h : Work l → Work (set_ready l h).
Proof. done. Qed.

Lemma Work_gc l name : Work l → Work (gc name l).
Proof.
  intros HW HG n. destruct (gc_spec name l) as (Hu & Hq & m & E). rewrite Hu, Hq.
  rewrite E in *; simpl in *. by apply HW.
Qed.

Lemma Work_drop l key q :
  Work l → ns l !! Namespace key = Some q → Work (drop_waiter key l q).
Proof.
  intros HW E HG n. destruct (drop_waiter_views key l q E) as [Hu1 Hq1]. rewrite Hu1, Hq1.
  intros Hn. apply HW; [done|]. intros E'. apply Hn. case_decide; by rewrite E'.
Qed.

Lemma free_reserved_inv l held H key r :
  Core l held H → reserved l !! key = Some r →
  let l' := (free (Namespace key) (set_reserved l (delete key (reserved l)))).2 in
  Core l' held H ∧ Work l'.
Proof. intros HC Hr. eapply free_inv; [by eapply Core_unreserve|done]. Qed.

Lemma expire_inv key g l held H :
  Core l held H → Work l → let l' := (expire key g l).2 in Core l' held H ∧ Work l'.
Proof.
  intros HC HW. unfold expire. destruct (reserved l !! key) as [r|] eqn:Hr; [|done].
  destruct (gen r =? g); [|done]. by eapply free_reserved_inv.
Qed.

Lemma Cancel_not_waiting key l :
  waiting l !! key = None →
  Cancel key l = match reserved l !! key with
                 | Some _ => free (Namespace key) (set_reserved l (delete key (reserved l)))
                 | None => ([], l)
                 end.
Proof. intros Hw. unfold Cancel. by rewrite Hw. Qed.

Lemma Cancel_waiting key l held H w :
  Core l held H → waiting l !! key = Some w →
  ∃ q h, ns l !! Namespace key = Some q ∧
    Cancel key l = ([], gc (Namespace key) (set_ready (drop_waiter key l q) h)) ∧
    Core (set_ready (drop_waiter key l q) h) held H.
Proof.
  intros HC Hw. destruct (ns l !! Namespace key) as [q|] eqn:E.
  2:{ apply (c_wait _ _ _ HC) in Hw as [_ Hw]. unfold queue_of in Hw. rewrite E in Hw.
      by apply elem_of_nil in Hw. }
  assert (HQ : queue_of l (Namespace key) = queue q) by (unfold queue_of; by rewrite E).
  destruct (drop_waiter_views key l q E) as [Hu1 Hq1].
  assert (Hr : reserved l !! key = None) by by eapply c_disj.
  unfold Cancel. rewrite Hw, E. fold (drop_waiter key l q). exists q.
  destruct (match queue q with [] => false | w0 :: _ => bool_decide (w_key w0 = key) end) eqn:B.
  - destruct (markReady_spec (Namespace key) (drop_waiter key l q)) as (h & -> & Hk & Hm & _).
    exists h. split_and!; [done| |].
    + destruct (gc_spec (Namespace key) (set_ready (drop_waiter key l q) h)) as (_ & _ & m & ->).
      simpl. by rewrite Hr.
    + eapply Core_drop; eauto. intros _ _ _ _ v vs HQv HU. eapply Hm; [done|]. by rewrite Hu1.
  - exists (ready l). split_and!; [done| |].
    + change (set_ready (drop_waiter key l q) (ready l)) with (drop_waiter key l q).
      destruct (gc_spec (Namespace key) (drop_waiter key l q)) as (_ & _ & m & ->).
      simpl. by rewrite Hr.
    + eapply Core_drop; eauto. rewrite HQ. intros w0 rest HQ0 Hk0. rewrite HQ0 in B.
      by apply bool_decide_eq_false in B.
Qed.

Lemma Cancel_inv key l held H :
  Core l held H → Work l → let l' := (Cancel key l).2 in Core l' held H ∧ Work l'.
Proof.
  intros HC HW. destruct (waiting l !! key) as [w|] eqn:Hw.
  - destruct (Cancel_waiting _ _ _ _ _ HC Hw) as (q & h & E & -> & HC').
    split; [by apply Core_gc|]. apply Work_gc, Work_set_ready. by apply Work_drop.
  - rewrite Cancel_not_waiting by done. destruct (reserved l !! key) eqn:Hr; [|done].
    by eapply free_reserved_inv.
Qed.

Lemma live_in_app n hs h :
  live_in n (hs ++ [h]) =
  (live_in n hs + if decide (h_done h = false ∧ Namespace (h_key h) = n) then 1 else 0)%nat.
Proof.
  unfold live_in. rewrite filter_app, length_app. f_equal. simpl. rewrite filter_cons.
  by case_decide.
Qed.

Lemma live_app hs h :
  live (hs ++ [h]) = (live hs + if decide (h_done h = false) then 1 else 0)%nat.
Proof.
  unfold live. rewrite filter_app, length_app. f_equal. simpl. rewrite filter_cons.
  by case_decide.
Qed.

(** Running a release function accounts for one slot less. *)
Lemma release_accounts s i key :
  Inv s → handles s !! i = Some (mkHandle key false) →
  let hs := <[i := mkHandle key true]> (handles s) in
  Core (lim s) (λ n, live_in n (handles s)) (S (live hs)) ∧
  ∀ n, live_in n (handles s) = if decide (Namespace key = n) then S (live_in n hs) else live_in n hs.
Proof.
  intros [HC _] Hi hs. subst hs. split.
  - pose proof (length_filter_insert (λ h, h_done h = false) (handles s) i (mkHandle key true) _ Hi) as HL.
    rewrite decide_True, decide_False in HL by done.
    replace (S _) with (live (handles s)); [done|]. unfold live. lia.
  - intros n. pose proof (length_filter_insert (λ h, h_done h = false ∧ Namespace (h_key h) = n)
      (handles s) i (mkHandle key true) _ Hi) as Hn. simpl in Hn. unfold live_in.
    repeat case_decide; naive_solver lia.
Qed.

Lemma release_inv i s : Inv s → Inv (release i s).2.
Proof.
  intros HI. unfold release. destruct (handles s !! i) as [[key []]|] eqn:Hi; try done.
  destruct (release_accounts s i key HI Hi) as [HC Hn].
  pose proof (free_inv _ _ _ _ _ HC Hn) as HF. by destruct (free (Namespace key) (lim s)).
Qed.

Lemma run_op_inv o s : Inv s → Inv (run_op o s).2.
Proof.
  intros HI. destruct o as [key|i|key g|key]; simpl.
  - destruct HI as [HC HW]. pose proof (TryAcquire_inv key _ _ _ HC HW) as HT.
    destruct (TryAcquire key (lim s)) as [[] l]; simpl; [|done].
    destruct HT as [HC' HW']. split; [|done]. simpl. rewrite live_app, decide_True, Nat.add_1_r by done.
    eapply Core_ext; eauto. intros n. unfold bump. rewrite live_in_app. simpl.
    repeat case_decide; naive_solver lia.
  - by apply release_inv.
  - destruct HI as [HC HW]. pose proof (expire_inv key g _ _ _ HC HW) as HT.
    by destruct (expire key g (lim s)) as [wake l].
  - destruct HI as [HC HW]. pose proof (Cancel_inv key _ _ _ HC HW) as HT.
    by destruct (Cancel key (lim s)) as [wake l].
Qed.

Lemma reach_inv g p n s : reach g p n s → Inv s.
Proof.
  induction 1 as [d|n s o _ IH]; [|by apply run_op_inv].
  split; [|by intros ? ? []]. constructor; simpl; try done; try lia.
  - intros m w Hw. by apply elem_of_nil in Hw.
  - intros m. apply NoDup_nil_2.
  - intros k w. split; [by intros|]. intros [_ Hw]. by apply elem_of_nil in Hw.
  - intros m. change (0 ≤ Z.max 0 p). lia.
Qed.

(** ** The contract of [dispatch]

    The specification knows nothing of the heap: while a slot is free, it goes
    to the waiter that arrived first among those whose namespace is under its
    cap. *)
Definition under_cap (l : Limiter) (w : waiter) : Prop :=
  used_of l (Namespace (w_key w)) < PerNamespace l.

Definition is_waiter (l : Limiter) (w : waiter) : Prop :=
  w ∈ queue_of l (Namespace (w_key w)).

Definition earliest (l : Limiter) (w : waiter) : Prop :=
  is_waiter l w ∧ under_cap l w ∧
  ∀ v, is_waiter l v → under_cap l v → w_seq w ≤ w_seq v.

Definition erase (l : Limiter) : Limiter := set_ready l [].

(** [grant w l l']: [w] leaves the queue and holds a reserved slot. *)
Definition grant (w : waiter) (l l' : Limiter) : Prop :=
  ∃ q rest, ns l !! Namespace (w_key w) = Some q ∧ queue q = w :: rest ∧
    l' = reserve (Namespace (w_key w)) q w rest l.

Inductive dispatch_spec : Limiter → list NamespacedName → Limiter → Prop :=
  | ds_done l : (total l < Global l → ∀ w, is_waiter l w → ¬ under_cap l w) → dispatch_spec l [] l
  | ds_step l w l1 ws l2 :
      total l < Global l → earliest l w → grant w l l1 → dispatch_spec l1 ws l2 →
      dispatch_spec l (w_key w :: ws) l2.

(** Arrival numbers grow along each queue. *)
Record Ordered (l : Limiter) : Prop := {
  o_sorted : ∀ n, StronglySorted (λ a b, w_seq a < w_seq b) (queue_of l n);
  o_bound : ∀ n w, w ∈ queue_of l n → w_seq w ≤ seq l;
  o_nonneg : 0 ≤ seq l
}.

(** Every entry of the heap names the arrival number of some waiter, past or
    present; the one popped for a fresh entry is the least. *)
#[local] Instance readyHeap_weak : StrictWeak readyHeap_Less.
Proof. split; unfold readyHeap_Less; intros *; rewrite ?Z.ltb_lt, ?Z.ltb_ge; lia. Qed.

Lemma pop_earliest l held H e h q w rest :
  Core l held H → (∀ n, StronglySorted (λ a b, w_seq a < w_seq b) (queue_of l n)) →
  heap_pop readyHeap_Less (ready l) = Some (e, h) →
  fresh_entry (set_ready l h) e = Some (q, w, rest) →
  earliest l w ∧ Namespace (w_key w) = re_ns e.
Proof.
  intros HC HO Hp HF. apply fresh_entry_Some in HF as (Hns & Hu & HP & HQ & Hs).
  change (queue_of (set_ready l h)) with (queue_of l) in HQ.
  change (used_of (set_ready l h)) with (used_of l) in Hu. simpl in HP.
  assert (Hw : w ∈ queue_of l (re_ns e)) by (rewrite HQ; by left).
  pose proof (c_key _ _ _ HC _ _ Hw) as Hk. split; [|done].
  unfold earliest, is_waiter, under_cap. rewrite Hk. split_and!; [done|lia|].
  intros v Hv HU. destruct (queue_of l (Namespace (w_key v))) as [|v0 vs] eqn:Q.
  { by apply elem_of_nil in Hv. }
  pose proof (c_ready _ _ _ HC _ _ _ Q HU) as Hin.
  pose proof (heap_pop_least _ _ _ _ _ Hp Hin) as Hle.
  unfold readyHeap_Less in Hle. simpl in Hle. apply Z.ltb_ge in Hle.
  pose proof (HO (Namespace (w_key v))) as Hso. rewrite Q in Hso.
  apply StronglySorted_cons in Hso as [Hall _]. rewrite Forall_forall in Hall.
  apply elem_of_cons in Hv as [->|Hv]; [lia|]. specialize (Hall _ Hv). lia.
Qed.

Lemma reserve_sorted name q w rest l :
  queue_of l name = w :: rest →
  (∀ n, StronglySorted (λ a b, w_seq a < w_seq b) (queue_of l n)) →
  ∀ n, StronglySorted (λ a b, w_seq a < w_seq b) (queue_of (reserve name q w rest l) n).
Proof.
  intros HQ HO n. rewrite queue_of_reserve. case_decide as D; [|done]. specialize (HO name).
  rewrite HQ in HO. by apply StronglySorted_cons in HO as [_ HO].
Qed.

Lemma is_waiter_erase l w : is_waiter (erase l) w ↔ is_waiter l w.
Proof. done. Qed.

Lemma markReady_erase name l : erase (markReady name l) = erase l.
Proof. by destruct (markReady_spec name l) as (h & -> & _). Qed.

Lemma markReady_queue name l n : queue_of (markReady name l) n = queue_of l n.
Proof. by destruct (markReady_spec name l) as (h & -> & _). Qed.

Lemma Work_no_candidate l held H :
  Core l held H → Work l → total l < Global l → ∀ w, is_waiter l w → ¬ under_cap l w.
Proof.
  intros HC HW HG w Hw HU. unfold is_waiter, under_cap in *.
  assert (queue_of l (Namespace (w_key w)) ≠ []) as Hne.
  { intros E. rewrite E in Hw. by apply elem_of_nil in Hw. }
  apply HW in Hne; [lia|done].
Qed.

Lemma dispatch_loop_refines fuel : ∀ wake l held H,
  Core l held H → (∀ n, StronglySorted (λ a b, w_seq a < w_seq b) (queue_of l n)) →
  (length (ready l) + Z.to_nat (Global l - total l) < fuel)%nat →
  ∃ ws, (dispatch_loop fuel wake l).1 = wake ++ ws ∧
    dispatch_spec (erase l) ws (erase (dispatch_loop fuel wake l).2).
Proof.
  induction fuel as [|fuel IH]; intros wake l held H HC HO Hf; [lia|].
  pose proof (dispatch_loop_core (S fuel) wake l held H HC) as HCe.
  pose proof (dispatch_loop_done (S fuel) wake l Hf) as Hd. revert HCe Hd. simpl.
  destruct (total l <? Global l) eqn:HG; simpl.
  2:{ intros _ _. exists []. rewrite app_nil_r. split; [done|]. constructor.
      simpl. apply Z.ltb_ge in HG. lia. }
  apply Z.ltb_lt in HG.
  destruct (heap_pop readyHeap_Less (ready l)) as [[e h]|] eqn:Hp; simpl.
  2:{ intros _ _. apply heap_pop_None in Hp. exists []. rewrite app_nil_r. split; [done|]. constructor.
      simpl. intros _. eapply (Work_no_candidate l); eauto. eapply Work_done; eauto. }
  intros _ _. pose proof (heap_pop_length _ _ _ _ Hp) as Hlen.
  destruct (fresh_entry (set_ready l h) e) as [[[q w] rest]|] eqn:HF.
  - pose proof (Core_reserve _ _ _ _ _ _ _ _ HC HG Hp HF) as HC'.
    destruct (pop_earliest _ _ _ _ _ _ _ _ HC HO Hp HF) as [He Hk].
    pose proof HF as HF'. apply fresh_entry_Some in HF' as (Hns & Hu & HP & HQ & Hs).
    edestruct (IH (wake ++ [w_key w])) as (ws & Hws & Hspec); [exact HC'| | |].
    + intros n. rewrite markReady_queue. by apply reserve_sorted.
    + destruct (markReady_spec (re_ns e) (reserve (re_ns e) q w rest (set_ready l h)))
        as (h' & -> & _ & _ & Hl). simpl in *. lia.
    + exists (w_key w :: ws). split; [by rewrite Hws, <-app_assoc|].
      rewrite markReady_erase in Hspec. eapply ds_step; [done|exact He| |exact Hspec].
      exists q, rest. rewrite Hk. split_and!; [done| |done].
      unfold queue_of in HQ. rewrite Hns in HQ. done.
  - edestruct (IH wake (set_ready l h)) as (ws & Hws & Hspec); [by eapply Core_pop_stale|done| |].
    + simpl. lia.
    + by exists ws.
Qed.

(** *** Arrival order is kept while the counter does not wrap *)

Lemma Ordered_ext l l' :
  Ordered l → (∀ n, queue_of l' n = queue_of l n) → seq l ≤ seq l' → Ordered l'.
Proof.
  intros [Hs Hb Hn] Hq Hle. split; [intros n|intros n w|lia]; rewrite Hq; [done|].
  intros Hw. specialize (Hb _ _ Hw). lia.
Qed.

Lemma Ordered_reserve name q w rest l :
  Ordered l → queue_of l name = w :: rest → seq l + 1 < 2 ^ 64 →
  Ordered (reserve name q w rest l) ∧ seq (reserve name q w rest l) = seq l + 1.
Proof.
  intros [Hs Hb Hn] HQ Hlt. assert (Hsq : seq (reserve name q w rest l) = seq l + 1).
  { simpl. by apply u64_succ_small. }
  split; [|done]. split; [by apply reserve_sorted| |lia].
  intros n v. rewrite queue_of_reserve, Hsq. case_decide as D; intros Hv.
  - subst n. assert (w_seq v ≤ seq l); [|lia]. apply (Hb name). rewrite HQ. by right.
  - specialize (Hb _ _ Hv). lia.
Qed.

Lemma dispatch_loop_ordered fuel : ∀ wake l,
  Ordered l → seq l + Z.max 0 (Global l - total l) < 2 ^ 64 →
  let l' := (dispatch_loop fuel wake l).2 in
  Ordered l' ∧ seq l' + Z.max 0 (Global l' - total l') ≤ seq l + Z.max 0 (Global l - total l) ∧
  Global l' = Global l.
Proof.
  induction fuel as [|fuel IH]; intros wake l HO Hlt; simpl; [done|].
  destruct (total l <? Global l) eqn:HG; [|done]. apply Z.ltb_lt in HG.
  destruct (heap_pop readyHeap_Less (ready l)) as [[e h]|] eqn:Hp; [|done].
  assert (HOr : Ordered (set_ready l h)) by by eapply Ordered_ext.
  destruct (fresh_entry (set_ready l h) e) as [[[q w] rest]|] eqn:HF; [|exact (IH wake _ HOr Hlt)].
  apply fresh_entry_Some in HF as (_ & _ & _ & HQ & _).
  destruct (Ordered_reserve (re_ns e) q w rest _ HOr HQ) as [HO1 Hs1]; [simpl; lia|].
  set (l1 := reserve (re_ns e) q w rest (set_ready l h)) in *.
  destruct (markReady_spec (re_ns e) l1) as (h' & Em & _).
  destruct (IH (wake ++ [w_key w]) (markReady (re_ns e) l1)) as (HO2 & Hle & Hg).
  - rewrite Em. by eapply Ordered_ext.
  - rewrite Em. simpl in *. lia.
  - split_and!; [done| |]; rewrite Em in *; simpl in *; lia.
Qed.

(** What one operation may add to the counter. *)
Definition op_cost (l : Limiter) : Z := Z.max 0 (Global l) + 1.

Lemma free_ordered name l :
  Ordered l → 1 ≤ total l → seq l + op_cost l < 2 ^ 64 →
  let l' := (free name l).2 in
  Ordered l' ∧ seq l' ≤ seq l + op_cost l ∧ Global l' = Global l.
Proof.
  intros HO Ht Hlt. unfold free. destruct (give_back_views name l) as (_ & Hq & m & E).
  destruct (markReady_spec name (give_back name l)) as (h & Em & _).
  destruct (dispatch_loop_ordered (dispatch_fuel (markReady name (give_back name l))) []
    (markReady name (give_back name l))) as (HO' & Hle & Hg).
  - rewrite Em. eapply Ordered_ext; [done|done|]. rewrite E. simpl. lia.
  - rewrite Em, E. simpl. unfold op_cost in *. lia.
  - fold (dispatch (markReady name (give_back name l))) in *.
    destruct (dispatch (markReady name (give_back name l))) as [wake l3].
    rewrite Em, E in Hle, Hg. simpl in *.
    destruct (gc_spec name l3) as (_ & Hq3 & m3 & E3). unfold op_cost in *.
    split_and!; [|rewrite E3; simpl; lia|by rewrite E3].
    eapply Ordered_ext; [exact HO'|done|]. rewrite E3. simpl. lia.
Qed.

Lemma free_reserved_ordered l held H key r :
  Core l held H → Ordered l → reserved l !! key = Some r → seq l + op_cost l < 2 ^ 64 →
  let l' := (free (Namespace key) (set_reserved l (delete key (reserved l)))).2 in
  Ordered l' ∧ seq l' ≤ seq l + op_cost l ∧ Global l' = Global l.
Proof.
  intros HC HO Hr Hlt. apply (free_ordered (Namespace key) (set_reserved l _)).
  - by eapply Ordered_ext.
  - simpl. rewrite (c_total _ _ _ HC), (size_reserved_delete _ _ _ Hr). lia.
  - done.
Qed.

Lemma StronglySorted_snoc {A} (R : A → A → Prop) l x :
  StronglySorted R l → (∀ y, y ∈ l → R y x) → StronglySorted R (l ++ [x]).
Proof.
  induction 1 as [|y l Hl IH Hy]; intros Hx; simpl; [repeat constructor|].
  constructor; [apply IH; intros; apply Hx; by right|].
  apply Forall_app. split; [done|]. constructor; [apply Hx; by left|done].
Qed.

Lemma TryAcquire_ordered key l :
  Ordered l → seq l + op_cost l < 2 ^ 64 →
  let l' := (TryAcquire key l).2 in
  Ordered l' ∧ seq l' ≤ seq l + op_cost l ∧ Global l' = Global l.
Proof.
  intros HO Hlt. assert (Hpos : 0 < op_cost l) by (unfold op_cost; lia).
  unfold TryAcquire. destruct (reserved l !! key) as [r|].
  { simpl. split_and!; [by eapply Ordered_ext|lia|done]. }
  destruct (waiting l !! key) as [w|]; [simpl; split_and!; [done|lia|done]|].
  destruct (nsq (Namespace key) l) as [q l1] eqn:En.
  apply nsq_spec in En as (Hqu & Hqq & Hu & Hq & m1 & ->).
  destruct (_ || _); simpl.
  - pose proof (o_nonneg _ HO) as Hn. rewrite u64_succ_small by (unfold op_cost in *; lia).
    set (l2 := set_waiting _ _). assert (HO2 : Ordered l2).
    { split; simpl.
      - intros n. change (queue_of l2 n) with (queue_of (set_ns (set_ns l m1)
          (<[Namespace key := mkNsQueue (used q) (queue q ++ [mkWaiter key (seq l + 1)])]> (ns (set_ns l m1)))) n).
        rewrite queue_of_set. case_decide; [|rewrite Hq; apply HO]. simpl. rewrite Hqq.
        apply StronglySorted_snoc; [apply HO|]. intros v Hv. simpl.
        pose proof (o_bound _ HO _ _ Hv). lia.
      - intros n v. change (queue_of l2 n) with (queue_of (set_ns (set_ns l m1)
          (<[Namespace key := mkNsQueue (used q) (queue q ++ [mkWaiter key (seq l + 1)])]> (ns (set_ns l m1)))) n).
        rewrite queue_of_set. case_decide; intros Hv.
        + simpl in Hv. rewrite Hqq in Hv. apply elem_of_app in Hv as [Hv|Hv].
          * pose proof (o_bound _ HO _ _ Hv). lia.
          * apply list_elem_of_singleton in Hv as ->. simpl. lia.
        + rewrite Hq in Hv. pose proof (o_bound _ HO _ _ Hv). lia.
      - lia. }
    destruct (bool_decide _).
    + destruct (markReady_spec (Namespace key) l2) as (h & -> & _). simpl.
      split_and!; [by eapply Ordered_ext|unfold op_cost; lia|done].
    + split_and!; [done|simpl; unfold op_cost; lia|done].
  - split_and!; [|lia|done]. eapply Ordered_ext; [done| |done]. intros n.
    etrans; [apply queue_of_set|]. case_decide; subst; simpl; by rewrite ?Hq.
Qed.

Lemma Ordered_drop l key q : Ordered l → ns l !! Namespace key = Some q → Ordered (drop_waiter key l q).
Proof.
  intros [Hs Hb Hn] E. destruct (drop_waiter_views key l q E) as [_ Hq]. split; [| |done].
  - intros n. rewrite Hq. case_decide; [|done]. unfold remove_waiter.
    specialize (Hs n). induction Hs as [|w ws Hws IH Hall]; simpl; [constructor|].
    rewrite filter_cons. case_decide; [|done]. constructor; [done|].
    apply Forall_forall. intros v [_ Hv]%list_elem_of_filter. by eapply Forall_forall in Hall.
  - intros n w. rewrite Hq. case_decide; [|by apply Hb]. unfold remove_waiter.
    intros [_ Hw]%list_elem_of_filter. by apply (Hb n).
Qed.

(** One operation adds at most [op_cost] to the counter. *)
Lemma run_op_ordered o s :
  Inv s → Ordered (lim s) → seq (lim s) + op_cost (lim s) < 2 ^ 64 →
  let l' := lim (run_op o s).2 in
  Ordered l' ∧ seq l' ≤ seq (lim s) + op_cost (lim s) ∧ Global l' = Global (lim s).
Proof.
  intros HI HO Hlt. assert (Hpos : 0 < op_cost (lim s)) by (unfold op_cost; lia).
  destruct o as [key|i|key g|key]; simpl.
  - pose proof (TryAcquire_ordered key _ HO Hlt) as HT. by destruct (TryAcquire key (lim s)).
  - unfold release. destruct (handles s !! i) as [[key []]|] eqn:Hi; simpl; try (split_and!; [done|lia|done]).
    destruct (release_accounts s i key HI Hi) as [HC _].
    pose proof (free_ordered (Namespace key) _ HO) as HF.
    destruct (free (Namespace key) (lim s)). apply HF; [|done]. rewrite (c_total _ _ _ HC). lia.
  - destruct HI as [HC _]. unfold expire. destruct (reserved (lim s) !! key) as [r|] eqn:Hr; simpl;
      [|split_and!; [done|lia|done]].
    destruct (gen r =? g); simpl; [|split_and!; [done|lia|done]].
    pose proof (free_reserved_ordered _ _ _ _ _ HC HO Hr Hlt) as HF. by destruct (free _ _).
  - destruct HI as [HC HW]. destruct (waiting (lim s) !! key) as [w|] eqn:Hw.
    + destruct (Cancel_waiting _ _ _ _ _ HC Hw) as (q & h & E & -> & _). simpl.
      destruct (gc_spec (Namespace key) (set_ready (drop_waiter key (lim s) q) h)) as (_ & Hq & m & Eg).
      split_and!; [|rewrite Eg; simpl; lia|by rewrite Eg].
      eapply Ordered_ext; [by eapply Ordered_drop|done|]. by rewrite Eg.
    + rewrite Cancel_not_waiting by done.
      destruct (reserved (lim s) !! key) as [r|] eqn:Hr; simpl; [|split_and!; [done|lia|done]].
      pose proof (free_reserved_ordered _ _ _ _ _ HC HO Hr Hlt) as HF. by destruct (free _ _).
Qed.

Lemma reach_ordered g p n s :
  reach g p n s → Z.of_nat n * (Z.max 0 g + 1) < 2 ^ 64 →
  Ordered (lim s) ∧ seq (lim s) ≤ Z.of_nat n * (Z.max 0 g + 1) ∧ Global (lim s) = g.
Proof.
  induction 1 as [d|n s o Hr IH]; intros Hb.
  - split_and!; [|simpl; lia|done]. split; simpl; [intros; constructor| |lia].
    intros m w Hw. by apply elem_of_nil in Hw.
  - destruct IH as (HO & Hs & Hg); [nia|].
    destruct (run_op_ordered o s (reach_inv _ _ _ _ Hr) HO) as (HO' & Hs' & Hg').
    + unfold op_cost. rewrite Hg. nia.
    + split_and!; [done| |congruence]. unfold op_cost in *. rewrite Hg in *. nia.
Qed.

(** The caps never change. *)
Lemma dispatch_loop_config fuel : ∀ wake l,
  let l' := (dispatch_loop fuel wake l).2 in Global l' = Global l ∧ PerNamespace l' = PerNamespace l.
Proof.
  induction fuel as [|fuel IH]; intros wake l; simpl; [done|].
  destruct (total l <? Global l); [|done].
  destruct (heap_pop readyHeap_Less (ready l)) as [[e h]|]; [|done].
  destruct (fresh_entry (set_ready l h) e) as [[[q w] rest]|].
  - destruct (IH (wake ++ [w_key w]) (markReady (re_ns e) (reserve (re_ns e) q w rest (set_ready l h)))) as [-> ->].
    by destruct (markReady_spec (re_ns e) (reserve (re_ns e) q w rest (set_ready l h))) as (h' & -> & _).
  - by destruct (IH wake (set_ready l h)) as [-> ->].
Qed.

Lemma free_config name l :
  Global (free name l).2 = Global l ∧ PerNamespace (free name l).2 = PerNamespace l.
Proof.
  unfold free. destruct (dispatch_loop_config (dispatch_fuel (markReady name (give_back name l))) []
    (markReady name (give_back name l))) as [Hg Hp].
  fold (dispatch (markReady name (give_back name l))) in *.
  destruct (dispatch (markReady name (give_back name l))) as [wake l3]; simpl in *.
  destruct (gc_spec name l3) as (_ & _ & m & ->). simpl. rewrite Hg, Hp.
  destruct (markReady_spec name (give_back name l)) as (h & -> & _). simpl.
  by destruct (give_back_views name l) as (_ & _ & m' & ->).
Qed.

Lemma run_op_config o s :
  Inv s → Global (lim (run_op o s).2) = Global (lim s) ∧
  PerNamespace (lim (run_op o s).2) = PerNamespace (lim s).
Proof.
  intros HI. destruct o as [key|i|key g|key]; simpl.
  - unfold TryAcquire. destruct (reserved (lim s) !! key); [done|].
    destruct (waiting (lim s) !! key); [done|].
    destruct (nsq (Namespace key) (lim s)) as [q l1] eqn:En.
    apply nsq_spec in En as (_ & _ & _ & _ & m1 & ->). destruct (_ || _); simpl; [|done].
    destruct (bool_decide _); [|done]. set (l2 := set_waiting _ _).
    by destruct (markReady_spec (Namespace key) l2) as (h & -> & _).
  - unfold release. destruct (handles s !! i) as [[key []]|]; try done.
    pose proof (free_config (Namespace key) (lim s)). by destruct (free _ _).
  - unfold expire. destruct (reserved (lim s) !! key) as [r|]; [|done]. destruct (gen r =? g); [|done].
    pose proof (free_config (Namespace key) (set_reserved (lim s) (delete key (reserved (lim s))))).
    by destruct (free _ _).
  - destruct HI as [HC _]. destruct (waiting (lim s) !! key) as [w|] eqn:Hw.
    + destruct (Cancel_waiting _ _ _ _ _ HC Hw) as (q & h & _ & -> & _). simpl.
      by destruct (gc_spec (Namespace key) (set_ready (drop_waiter key (lim s) q) h)) as (_ & _ & m & ->).
    + rewrite Cancel_not_waiting by done. destruct (reserved (lim s) !! key); [|done].
      pose proof (free_config (Namespace key) (set_reserved (lim s) (delete key (reserved (lim s))))).
      by destruct (free _ _).
Qed.

Lemma reach_config g p n s : reach g p n s → Global (lim s) = g ∧ PerNamespace (lim s) = p.
Proof.
  induction 1 as [d|n s o Hr [IHg IHp]]; [done|].
  destruct (run_op_config o s (reach_inv _ _ _ _ Hr)) as [-> ->]. done.
Qed.

(** *** Woken keys hold a reservation *)

Lemma dispatch_loop_woken fuel : ∀ wake l,
  (∀ k, k ∈ wake → is_Some (reserved l !! k)) →
  ∀ k, k ∈ (dispatch_loop fuel wake l).1 → is_Some (reserved (dispatch_loop fuel wake l).2 !! k).
Proof.
  induction fuel as [|fuel IH]; intros wake l Hw; simpl; [done|].
  destruct (total l <? Global l); [|done].
  destruct (heap_pop readyHeap_Less (ready l)) as [[e h]|]; [|done].
  destruct (fresh_entry (set_ready l h) e) as [[[q w] rest]|]; apply IH; [|done].
  destruct (markReady_spec (re_ns e) (reserve (re_ns e) q w rest (set_ready l h))) as (h' & -> & _).
  simpl. intros k. rewrite elem_of_app, list_elem_of_singleton, lookup_insert. intros Hk.
  case_decide; [by eexists|]. apply Hw. naive_solver.
Qed.

Lemma free_woken name l k : k ∈ (free name l).1 → is_Some (reserved (free name l).2 !! k).
Proof.
  unfold free. pose proof (dispatch_loop_woken (dispatch_fuel (markReady name (give_back name l))) []
    (markReady name (give_back name l))) as HD.
  fold (dispatch (markReady name (give_back name l))) in HD.
  destruct (dispatch (markReady name (give_back name l))) as [wake l3]. simpl in *.
  destruct (gc_spec name l3) as (_ & _ & m & ->). simpl. intros Hk. apply HD; [|done].
  intros k' Hk'. by apply elem_of_nil in Hk'.
Qed.

Lemma run_op_woken o s k :
  k ∈ (run_op o s).1 → is_Some (reserved (lim (run_op o s).2) !! k).
Proof.
  assert (Hnil : k ∈ @nil NamespacedName → is_Some (reserved (lim s) !! k))
    by (intros E; by apply elem_of_nil in E).
  destruct o as [key|i|key g|key]; simpl.
  - destruct (TryAcquire key (lim s)). simpl. intros E. by apply elem_of_nil in E.
  - unfold release. destruct (handles s !! i) as [[key []]|]; try done.
    pose proof (free_woken (Namespace key) (lim s) k). by destruct (free _ _).
  - unfold expire. destruct (reserved (lim s) !! key) as [r|]; [|done]. destruct (gen r =? g); [|done].
    pose proof (free_woken (Namespace key) (set_reserved (lim s) (delete key (reserved (lim s)))) k).
    by destruct (free _ _).
  - unfold Cancel. set (l1 := match waiting (lim s) !! key with Some _ => _ | None => _ end).
    destruct (reserved l1 !! key); [|simpl; intros E; by apply elem_of_nil in E].
    pose proof (free_woken (Namespace key) (set_reserved l1 (delete key (reserved l1))) k).
    by destruct (free _ _).
Qed.

(** *** Forgotten namespaces *)

(** Every entry of [l.ns], [x] aside, has a slot in use or a waiter. *)
Definition NoLeak (x : option string) (l : Limiter) : Prop :=
  ∀ n q, Some n ≠ x → ns l !! n = Some q → 0 < used q ∨ queue q ≠ [].

Lemma NoLeak_insert x l n q :
  NoLeak x l → (Some n = x ∨ 0 < used q ∨ queue q ≠ []) → NoLeak x (set_ns l (<[n := q]> (ns l))).
Proof.
  intros HN Hq m q' Hm. simpl. rewrite lookup_insert. case_decide; [|by apply HN].
  intros [= <-]. subst. naive_solver.
Qed.

Lemma used_nonneg l held H n q : Core l held H → ns l !! n = Some q → 0 ≤ used q.
Proof. intros HC E. pose proof (c_used _ _ _ HC n) as Hu. unfold used_of in Hu. rewrite E in Hu. simpl in Hu. lia. Qed.

Lemma dispatch_loop_noleak fuel x : ∀ wake l held H,
  Core l held H → NoLeak x l → NoLeak x (dispatch_loop fuel wake l).2.
Proof.
  induction fuel as [|fuel IH]; intros wake l held H HC HN; simpl; [done|].
  destruct (total l <? Global l) eqn:HG; [|done]. apply Z.ltb_lt in HG.
  destruct (heap_pop readyHeap_Less (ready l)) as [[e h]|] eqn:Hp; [|done].
  destruct (fresh_entry (set_ready l h) e) as [[[q w] rest]|] eqn:HF.
  - eapply IH; [by eapply Core_reserve|].
    apply fresh_entry_Some in HF as (Hns & _).
    pose proof (used_nonneg _ _ _ _ _ HC Hns) as Hu.
    destruct (markReady_spec (re_ns e) (reserve (re_ns e) q w rest (set_ready l h))) as (h' & -> & _).
    intros n q' Hx. simpl. rewrite lookup_insert. case_decide; [|by apply HN].
    intros [= <-]. left. simpl. lia.
  - eapply IH; [by eapply Core_pop_stale|done].
Qed.

Lemma gc_noleak name l held H : Core l held H → NoLeak (Some name) l → NoLeak None (gc name l).
Proof.
  intros HC HN n q _. unfold gc. destruct (ns l !! name) as [q0|] eqn:E0.
  - pose proof (used_nonneg _ _ _ _ _ HC E0).
    destruct ((used q0 =? 0) && bool_decide (queue q0 = [])) eqn:B; simpl.
    + intros [Hne Hq]%lookup_delete_Some. apply (HN n q); [congruence|done].
    + intros Hq. destruct (decide (n = name)) as [->|Hne]; [|apply (HN n q); [congruence|done]].
      assert (q = q0) as -> by congruence. apply andb_false_iff in B as [B|B].
      * apply Z.eqb_neq in B. lia.
      * apply bool_decide_eq_false in B. by right.
  - intros Hq. destruct (decide (n = name)) as [->|Hne]; [congruence|]. apply (HN n q); [congruence|done].
Qed.

Lemma free_noleak l held held' H name :
  Core l held (S H) → (∀ n, held n = if decide (name = n) then S (held' n) else held' n) →
  NoLeak None l → NoLeak None (free name l).2.
Proof.
  intros HC Hh HN. unfold free. pose proof (Core_give_back _ _ _ _ _ HC Hh) as HC2.
  assert (HN2 : NoLeak (Some name) (markReady name (give_back name l))).
  { destruct (markReady_spec name (give_back name l)) as (h & -> & _).
    intros n q Hn. simpl. unfold give_back, nsq.
    destruct (ns l !! name) eqn:E; simpl; rewrite !lookup_insert_ne by congruence; by apply HN. }
  pose proof (dispatch_loop_noleak (dispatch_fuel (markReady name (give_back name l))) (Some name) []
    _ _ _ HC2 HN2) as HN3.
  destruct (dispatch_inv _ _ _ HC2) as [HC3 _].
  fold (dispatch (markReady name (give_back name l))) in HN3.
  destruct (dispatch (markReady name (give_back name l))) as [wake l3]. by eapply gc_noleak.
Qed.

Lemma free_reserved_noleak l held H key r :
  Core l held H → reserved l !! key = Some r → NoLeak None l →
  NoLeak None (free (Namespace key) (set_reserved l (delete key (reserved l)))).2.
Proof. intros HC Hr HN. eapply free_noleak; [by eapply Core_unreserve|done|done]. Qed.

Lemma TryAcquire_noleak key l held H :
  Core l held H → NoLeak None l → NoLeak None (TryAcquire key l).2.
Proof.
  intros HC HN. unfold TryAcquire. destruct (reserved l !! key); [done|].
  destruct (waiting l !! key); [done|]. unfold nsq.
  destruct (ns l !! Namespace key) as [q|] eqn:E.
  - pose proof (used_nonneg _ _ _ _ _ HC E). destruct (_ || _); simpl.
    + set (l2 := set_waiting _ _). assert (HN2 : NoLeak None l2).
      { apply (NoLeak_insert None l); [done|]. right; right. simpl. by destruct (queue q). }
      destruct (bool_decide _); [|done].
      by destruct (markReady_spec (Namespace key) l2) as (h & -> & _).
    + apply (NoLeak_insert None l); [done|]. right; left. simpl. lia.
  - destruct (_ || _); simpl.
    + set (l2 := set_waiting _ _). assert (HN2 : NoLeak None l2).
      { intros n q _. simpl. rewrite insert_insert_eq. apply (NoLeak_insert None l); [done| |done].
        by right; right. }
      by destruct (markReady_spec (Namespace key) l2) as (h & -> & _).
    + intros n q _. simpl. rewrite insert_insert_eq. apply (NoLeak_insert None l); [done| |done].
      right; left. simpl. lia.
Qed.

Lemma run_op_noleak o s : Inv s → NoLeak None (lim s) → NoLeak None (lim (run_op o s).2).
Proof.
  intros HI HN. destruct o as [key|i|key g|key]; simpl.
  - destruct HI as [HC _]. pose proof (TryAcquire_noleak key _ _ _ HC HN).
    by destruct (TryAcquire key (lim s)).
  - unfold release. destruct (handles s !! i) as [[key []]|] eqn:Hi; try done.
    destruct (release_accounts s i key HI Hi) as [HC Hn].
    pose proof (free_noleak _ _ _ _ _ HC Hn HN). by destruct (free _ _).
  - destruct HI as [HC _]. unfold expire. destruct (reserved (lim s) !! key) as [r|] eqn:Hr; [|done].
    destruct (gen r =? g); [|done].
    pose proof (free_reserved_noleak _ _ _ _ _ HC Hr HN). by destruct (free _ _).
  - destruct HI as [HC _]. destruct (waiting (lim s) !! key) as [w|] eqn:Hw.
    + destruct (Cancel_waiting _ _ _ _ _ HC Hw) as (q & h & E & -> & HC').
      eapply gc_noleak; [done|]. intros n q' Hn. simpl. rewrite lookup_insert_ne by congruence.
      by apply HN.
    + rewrite Cancel_not_waiting by done. destruct (reserved (lim s) !! key) as [r|] eqn:Hr; [|done].
      pose proof (free_reserved_noleak _ _ _ _ _ HC Hr HN). by destruct (free _ _).
Qed.

Lemma reach_noleak g p n s : reach g p n s → NoLeak None (lim s).
Proof.
  induction 1 as [d|n s o Hr IH]; [by intros ? ?|].
  apply run_op_noleak; [by eapply reach_inv|done].
Qed.

(** [free] hands the slot it gives back on as the contract says. *)
Lemma free_refines name l held held' H :
  Core l held (S H) →
  (∀ n, held n = if decide (name = n) then S (held' n) else held' n) →
  (∀ n, StronglySorted (λ a b, w_seq a < w_seq b) (queue_of l n)) →
  ∃ l', dispatch_spec (erase (give_back name l)) (free name l).1 (erase l') ∧
    (free name l).2 = gc name l'.
Proof.
  intros HC Hh HO. pose proof (Core_give_back _ _ _ _ _ HC Hh) as HG.
  destruct (give_back_views name l) as (_ & Hq & _).
  unfold free, dispatch.
  destruct (dispatch_loop_refines (dispatch_fuel (markReady name (give_back name l))) []
    (markReady name (give_back name l)) _ _ HG) as (ws & E & Hd).
  - intros m. rewrite markReady_queue, Hq. apply HO.
  - unfold dispatch_fuel. lia.
  - destruct (dispatch_loop _ _ _) as [wk l']. simpl in *. exists l'. subst.
    split; [|done]. by rewrite markReady_erase in Hd.
Qed.

Lemma live_in_le n hs : (live_in n hs ≤ live hs)%nat.
Proof.
  unfold live_in, live. induction hs as [|h hs IH]; [done|].
  rewrite !filter_cons. repeat case_decide; simpl; naive_solver lia.
Qed.

(** ** Properties *)

(** A run of operations from a new limiter. *)
Definition run_ops (os : list op) (s : Sys) : Sys := foldl (λ s o, (run_op o s).2) s os.

Definition new_sys (g p : Z) (d : Duration) : Sys := mkSys (set_ttl (NewLimiter g p) d) [].

Lemma reach_run g p os : ∀ n s, reach g p n s → reach g p (length os + n) (run_ops os s).
Proof.
  induction os as [|o os IH]; intros n s Hr; simpl; [done|].
  replace (S (length os + n)) with (length os + S n)%nat by lia. apply IH. by constructor.
Qed.

(** C35. In every reachable state, whatever the interleaving of acquires,
    releases (repeated ones included), expiries and cancels, at most [Global]
    slots are in use and at most [PerNamespace] of one namespace, and the
    counters are exact: a slot in use is a reservation or a release function
    that has not run. *)
Theorem limiter_caps g p n s :
  reach g p n s →
  total (lim s) ≤ Z.max 0 g ∧
  total (lim s) = Z.of_nat (size (reserved (lim s)) + live (handles s)) ∧
  ∀ m, used_of (lim s) m ≤ Z.max 0 p ∧
       used_of (lim s) m = Z.of_nat (resn (lim s) m + live_in m (handles s)).
Proof.
  intros Hr. destruct (reach_inv _ _ _ _ Hr) as [HC _]. destruct (reach_config _ _ _ _ Hr) as [Hg Hp].
  pose proof (c_capG _ _ _ HC) as HG. rewrite Hg in HG. split_and!; [done|apply HC|].
  intros m. pose proof (c_capN _ _ _ HC m) as HN. rewrite Hp in HN. split; [done|apply HC].
Qed.

(** Three checks of two namespaces on a limiter of two slots, one per
    namespace: [a/1] and [b/1] run, [a/2] waits. *)
Definition demo_ops : list op :=
  [OTryAcquire (mkName "a" "1"); OTryAcquire (mkName "a" "2"); OTryAcquire (mkName "b" "1")].

Lemma limiter_caps_witness :
  total (lim (run_ops demo_ops (new_sys 2 1 0))) = 2 ∧
  total (lim (run_ops demo_ops (new_sys 2 1 0))) ≤ Z.max 0 2.
Proof.
  split; [by vm_compute|].
  apply (limiter_caps 2 1 (length demo_ops + 0)). apply reach_run. constructor.
Defined.

(** The limiter is work conserving: in every reachable state, a check
    waits only when every slot is in use or its namespace is at its cap. *)
Theorem limiter_work_conserving g p n s key w :
  reach g p n s → waiting (lim s) !! key = Some w →
  g ≤ total (lim s) ∨ p ≤ used_of (lim s) (Namespace key).
Proof.
  intros Hr Hw. destruct (reach_inv _ _ _ _ Hr) as [HC HW]. destruct (reach_config _ _ _ _ Hr) as [Hg Hp].
  apply (c_wait _ _ _ HC) in Hw as [_ Hw].
  destruct (decide (g ≤ total (lim s))); [by left|right].
  assert (queue_of (lim s) (Namespace key) ≠ []) as Hne by (intros E; rewrite E in Hw; by apply elem_of_nil in Hw).
  rewrite <-Hp. apply HW; [rewrite Hg; lia|done].
Qed.

Lemma limiter_work_conserving_witness :
  is_Some (waiting (lim (run_ops demo_ops (new_sys 2 1 0))) !! mkName "a" "2") ∧
  (2 ≤ total (lim (run_ops demo_ops (new_sys 2 1 0))) ∨
   1 ≤ used_of (lim (run_ops demo_ops (new_sys 2 1 0))) "a").
Proof.
  split; [by eexists; vm_compute|].
  apply (limiter_work_conserving 2 1 (length demo_ops + 0) _ (mkName "a" "2") (mkWaiter (mkName "a" "2") 1)).
  - apply reach_run. constructor.
  - by vm_compute.
Defined.

(** C39. A release function that runs for the first time gives its slot back
    and hands out the free slots first come, first served: the keys it wakes
    are those of the specification [dispatch_spec], which knows no heap and
    always picks the earliest arrival among the waiters whose namespace is
    under its cap.  The bound says the 64-bit arrival counter has not wrapped
    after [n] operations. *)
Theorem release_serves_earliest g p n s i key :
  reach g p n s → Z.of_nat n * (Z.max 0 g + 1) < 2 ^ 64 →
  handles s !! i = Some (mkHandle key false) →
  ∃ l, dispatch_spec (erase (give_back (Namespace key) (lim s))) (release i s).1 (erase l) ∧
    lim (release i s).2 = gc (Namespace key) l.
Proof.
  intros Hr Hn Hi. pose proof (reach_inv _ _ _ _ Hr) as HI.
  destruct (reach_ordered _ _ _ _ Hr Hn) as ([HO _ _] & _ & _).
  destruct (release_accounts s i key HI Hi) as [HC Hh].
  destruct (free_refines _ _ _ _ _ HC Hh HO) as (l & Hd & E). unfold release. rewrite Hi.
  destruct (free (Namespace key) (lim s)). exists l. by split.
Qed.

Lemma release_serves_earliest_witness :
  let s := run_ops demo_ops (new_sys 2 1 0) in
  (release 0 s).1 = [mkName "a" "2"] ∧
  ∃ l, dispatch_spec (erase (give_back "a" (lim s))) (release 0 s).1 (erase l) ∧
    lim (release 0 s).2 = gc "a" l.
Proof.
  split; [by vm_compute|].
  apply (release_serves_earliest 2 1 (length demo_ops + 0) _ 0 (mkName "a" "1")).
  - apply reach_run. constructor.
  - by vm_compute.
  - by vm_compute.
Defined.

(** A woken check gets its slot: after any operation that woke [k], the
    next [TryAcquire k] answers ok and uses no slot beyond the one reserved
    for [k]. *)
Theorem woken_acquires s o k :
  k ∈ (run_op o s).1 →
  (TryAcquire k (lim (run_op o s).2)).1 = true ∧
  total (TryAcquire k (lim (run_op o s).2)).2 = total (lim (run_op o s).2).
Proof.
  intros Hk. destruct (run_op_woken o s k Hk) as [r Hr].
  unfold TryAcquire. by rewrite Hr.
Qed.

Lemma woken_acquires_witness :
  let s := run_ops demo_ops (new_sys 2 1 0) in
  (TryAcquire (mkName "a" "2") (lim (run_op (ORelease 0) s).2)).1 = true.
Proof.
  apply (woken_acquires _ (ORelease 0) (mkName "a" "2")). vm_compute. by left.
Defined.

(** Nothing leaks: once every release function has run, no slot is
    reserved and no check waits, no namespace is remembered and no slot is
    counted as in use. *)
Theorem limiter_no_leak g p n s :
  reach g p n s → live (handles s) = 0%nat → reserved (lim s) = ∅ → waiting (lim s) = ∅ →
  ns (lim s) = ∅ ∧ total (lim s) = 0.
Proof.
  intros Hr Hh Hres Hw. destruct (reach_inv _ _ _ _ Hr) as [HC _].
  pose proof (reach_noleak _ _ _ _ Hr) as HN. split.
  - apply map_eq. intros m. rewrite lookup_empty. destruct (ns (lim s) !! m) as [q|] eqn:Eq; [|done].
    exfalso. destruct (HN m q) as [Hu|Hq]; [done|done|..].
    + pose proof (c_used _ _ _ HC m) as E. unfold used_of, resn in E. rewrite Eq, Hres in E. simpl in E.
      pose proof (live_in_le m (handles s)). rewrite map_filter_empty, map_size_empty in E. lia.
    + destruct (queue q) as [|w ws] eqn:Ew; [done|].
      assert (w ∈ queue_of (lim s) m) as Hin by (unfold queue_of; rewrite Eq; simpl; rewrite Ew; by left).
      pose proof (c_key _ _ _ HC _ _ Hin) as Hk.
      assert (waiting (lim s) !! w_key w = Some w) as E by (apply (c_wait _ _ _ HC); by rewrite Hk).
      by rewrite Hw in E.
  - rewrite (c_total _ _ _ HC), Hres, Hh, map_size_empty. done.
Qed.

Lemma limiter_no_leak_witness :
  let s := run_ops (demo_ops ++ [ORelease 0; OTryAcquire (mkName "a" "2"); ORelease 2; ORelease 1;
                                 ORelease 0]) (new_sys 2 1 0) in
  ns (lim s) = ∅ ∧ total (lim s) = 0.
Proof.
  apply (limiter_no_leak 2 1 (length (demo_ops ++ [ORelease 0; OTryAcquire (mkName "a" "2"); ORelease 2;
    ORelease 1; ORelease 0]) + 0)).
  - apply reach_run. constructor.
  - by vm_compute.
  - by vm_compute.
  - by vm_compute.
Defined.

End Limiter.
