(* ===== verification/FairQueue.v ===== *)
(** * FairQueue: the work queue that is fair between namespaces

    Model of src/pkg/reconciler/fairqueue/fairqueue.go.  A [Queue] wraps
    controller-runtime's priority queue (the inner queue) and lowers an item's
    priority by the size of its namespace's backlog.

    The inner queue and the rate limiter are not part of this repository.  A
    call the code makes on the inner queue is an output of the operation
    ([innerAdd]); what the inner queue hands out ([GetWithPriority]) and the
    delay the rate limiter answers ([When]) are inputs, as is each reading of
    the clock.  The theorems hold for every such input, so for every
    interleaving of the workers and every behaviour of the inner queue: each
    operation below is one critical section of [q.mu]. *)

From stdpp Require Import base gmap strings list sorting.
From Stdlib Require Import Lia ZArith.
From S2P Require Import Prelude.

Open Scope Z_scope.

Module FairQueue.

Abbreviation Request := NamespacedName (only parsing).

(** [span], [buckets] and [DefaultAging]. *)
Definition span : Z := 1000.
Definition buckets : list Z := [1; 4; 16; 64; 256].
Definition DefaultAging : Duration := 10 * second.

(** The bookkeeping of one key. *)
Record state := mkState {
  queued : bool; processing : bool; due : bool; aged : bool;
  base : Z;
  readyAt : Time; dueSince : Time;
  gen : Z; seq : Z
}.

(** [&state{}]; the zero instants are never read before they are set. *)
Definition zero_state : state := mkState false false false false 0 0 0 0 0.

Record waiter := mkWaiter { at_ : Time; w_key : Request; w_gen : Z }.

(** [waiters.Less]. *)
Definition waiters_Less (a b : waiter) : bool := at_ a <? at_ b.

Record namespace := mkNamespace {
  keys : gmap Request state;
  active : Z;
  waiting : list waiter
}.

(** [limiter] is whether the [RateLimiter] option was given. *)
Record Queue := mkQueue {
  limiter : bool;
  aging : Duration;
  q_seq : Z;
  namespaces : gmap string namespace
}.

(** [Wrap]: the queue as it starts. *)
Definition Wrap (lim : bool) : Queue := mkQueue lim DefaultAging 0 ∅.

(** [tick]: how often [sweep] runs. *)
Definition tick_every (q : Queue) : Duration :=
  let every := Z.quot (aging q) 4 in
  if (every <=? 0) || (second <? every) then second else every.

(** [priorityqueue.AddOpts]. *)
Record AddOpts := mkAddOpts { After : Duration; RateLimited : bool; Priority : option Z }.

(** A call of the inner queue's [AddWithOpts] with one item. *)
Record innerAdd := mkInnerAdd { ia_opts : AddOpts; ia_key : Request }.

(** [shift]: the priority within the level of [b] for a backlog.  Go's [int]
    is 64 bits wide. *)
Definition shift (b backlog : Z) : Z :=
  let step := foldl (λ step bound, if bound <=? backlog then step + 1 else step) 0 buckets in
  i64 (i64 (b * span) - step).

(** [readd]: the calls that add due keys to the inner queue again. *)
Definition readd (p : Z) (key : Request) : innerAdd := mkInnerAdd (mkAddOpts 0 false (Some p)) key.

(** ** Updates of a key's state *)

Definition set_due (st : state) (since : Time) : state :=
  mkState (queued st) (processing st) true (aged st) (base st) (readyAt st) since (gen st) (seq st).

Definition set_gen (st : state) (g : Z) : state :=
  mkState (queued st) (processing st) (due st) (aged st) (base st) (readyAt st) (dueSince st) g (seq st).

Definition set_base (st : state) (b : Z) : state :=
  mkState (queued st) (processing st) (due st) (aged st) b (readyAt st) (dueSince st) (gen st) (seq st).

Definition set_readyAt (st : state) (t : Time) : state :=
  mkState (queued st) (processing st) (due st) (aged st) (base st) t (dueSince st) (gen st) (seq st).

Definition set_aged (st : state) : state :=
  mkState (queued st) (processing st) (due st) true (base st) (readyAt st) (dueSince st) (gen st) (seq st).

Definition set_processing (st : state) (b : bool) : state :=
  mkState (queued st) b (due st) (aged st) (base st) (readyAt st) (dueSince st) (gen st) (seq st).

(** [st.base, st.queued, st.readyAt, st.aged, st.seq = base, true, ready, false, q.seq]. *)
Definition enqueue_state (st : state) (b : Z) (ready : Time) (s : Z) : state :=
  mkState true (processing st) (due st) false b ready (dueSince st) (gen st) s.

(** ** The operations of a namespace *)

(** [promote]: the loop pops the heap while its first entry is due.  Every
    iteration pops one entry, so [length (waiting n)] iterations are enough.
    It returns the keys it marked due; the code returns pointers to their
    states, read again through [keys]. *)
Fixpoint promote_loop (fuel : nat) (now : Time) (out : list Request) (n : namespace)
  : list Request * namespace :=
  match fuel with
  | O => (out, n)
  | S fuel =>
      match heap_pop waiters_Less (waiting n) with
      | None => (out, n)
      | Some (w, rest) =>
          if at_ w <=? now then
            match keys n !! w_key w with
            | Some st =>
                if (gen st =? w_gen w) && queued st && negb (due st) then
                  promote_loop fuel now (out ++ [w_key w])
                    (mkNamespace (<[w_key w := set_due st (at_ w)]> (keys n)) (active n + 1) rest)
                else promote_loop fuel now out (mkNamespace (keys n) (active n) rest)
            | None => promote_loop fuel now out (mkNamespace (keys n) (active n) rest)
            end
          else (out, n)
      end
  end.

Definition promote (now : Time) (n : namespace) : list Request * namespace :=
  promote_loop (length (waiting n)) now [] n.

(** [schedule] counts the key as due now, or keeps it waiting. *)
Definition schedule (key : Request) (st : state) (now : Time) (n : namespace) : namespace :=
  let st := set_gen st (u64_succ (gen st)) in
  if readyAt st <=? now then
    if due st then mkNamespace (<[key := st]> (keys n)) (active n) (waiting n)
    else mkNamespace (<[key := set_due st now]> (keys n)) (active n + 1) (waiting n)
  else mkNamespace (<[key := st]> (keys n)) (active n)
         (heap_push (mkWaiter (readyAt st) key (gen st)) (waiting n)).

(** The calls that add promoted keys again, at their recomputed priority. *)
Definition readds (n : namespace) (ks : list Request) : list innerAdd :=
  (λ k, readd (shift (from_option base 0 (keys n !! k)) (active n - 1)) k) <$> ks.

(** ** The operations of the queue *)

(** [q.ns]: [namespaces[name]], created when missing. *)
Definition ns (name : string) (q : Queue) : namespace :=
  default (mkNamespace ∅ 0 []) (namespaces q !! name).

Definition put (name : string) (n : namespace) (q : Queue) : Queue :=
  mkQueue (limiter q) (aging q) (q_seq q) (<[name := n]> (namespaces q)).

(** What one item of [AddWithOpts] reads from outside: the clock, and the rate
    limiter's delay when it is asked. *)
Record reading := mkReading { r_now : Time; r_when : Duration }.

(** The options after the rate limiter was asked for the delay. *)
Definition item_opts (lim : bool) (o : AddOpts) (r : reading) : AddOpts :=
  if RateLimited o && lim then
    mkAddOpts (if (After o <=? 0) || (r_when r <? After o) then r_when r else After o) false (Priority o)
  else o.

(** The switch of [AddWithOpts] on the key's state, with the add counter. *)
Definition add_key (it : Request) (b : Z) (ready now : Time) (s : Z) (n : namespace) : namespace * Z :=
  let st := default zero_state (keys n !! it) in
  if negb (queued st) then
    let s := u64_succ s in
    (schedule it (enqueue_state st b ready s) now n, s)
  else
    let st := set_base st (Z.max (base st) b) in
    if negb (due st) && (ready <? readyAt st) then
      (schedule it (set_readyAt st ready) now n, s)
    else (mkNamespace (<[it := st]> (keys n)) (active n) (waiting n), s).

(** One iteration of the loop of [AddWithOpts]. *)
Definition add_item (o : AddOpts) (it : Request) (r : reading) (q : Queue) : list innerAdd * Queue :=
  let b := default 0 (Priority o) in
  let opts := item_opts (limiter q) o r in
  let now := r_now r in
  let ready := if 0 <? After opts then now + After opts else now in
  let '(promoted, n) := promote now (ns (Namespace it) q) in
  let '(n, s) := add_key it b ready now (q_seq q) n in
  let st := default zero_state (keys n !! it) in
  let backlog := if due st || processing st then active n - 1 else active n in
  let p := shift b backlog in
  let again := readds n (filter (λ k, k ≠ it) promoted) in
  (mkInnerAdd (mkAddOpts (After opts) (RateLimited opts) (Some p)) it :: again,
   put (Namespace it) n (mkQueue (limiter q) (aging q) s (namespaces q))).

(** [AddWithOpts] with its items, each with what it reads. *)
Fixpoint AddWithOpts (o : AddOpts) (items : list (Request * reading)) (q : Queue) : list innerAdd * Queue :=
  match items with
  | [] => ([], q)
  | (it, r) :: items =>
      let '(out1, q) := add_item o it r q in
      let '(out2, q) := AddWithOpts o items q in
      (out1 ++ out2, q)
  end.

(** [Add], [AddAfter], [AddRateLimited]. *)
Definition Add (it : Request) (r : reading) := AddWithOpts (mkAddOpts 0 false None) [(it, r)].
Definition AddAfter (it : Request) (d : Duration) (r : reading) := AddWithOpts (mkAddOpts d false None) [(it, r)].
Definition AddRateLimited (it : Request) (r : reading) := AddWithOpts (mkAddOpts 0 true None) [(it, r)].

(** [GetWithPriority] after the inner queue handed out [it] at priority [p]
    (not shut down): the base priority it returns. *)
Definition GetWithPriority (it : Request) (p : Z) (q : Queue) : Z * Queue :=
  let n := ns (Namespace it) q in
  let st0 := default zero_state (keys n !! it) in
  let st := if queued st0 then st0 else set_base st0 (Z.quot p span) in
  let a := if due st then active n - 1 else active n in
  let a := if processing st then a else a + 1 in
  let st := mkState false true false false (base st) (readyAt st) (dueSince st) (u64_succ (gen st)) (seq st) in
  (base st, put (Namespace it) (mkNamespace (<[it := st]> (keys n)) a (waiting n)) q).

(** [release] drops the bookkeeping of a key that is neither queued nor
    processing, and the namespace without keys. *)
Definition release (name : string) (n : namespace) (key : Request) (st : state) (q : Queue) : Queue :=
  if queued st || processing st then put name n q
  else
    let ks := delete key (keys n) in
    if decide (ks = ∅) then mkQueue (limiter q) (aging q) (q_seq q) (delete name (namespaces q))
    else put name (mkNamespace ks (active n) (waiting n)) q.

(** [Done], after [q.inner.Done]. *)
Definition Done (it : Request) (q : Queue) : Queue :=
  match namespaces q !! Namespace it with
  | None => q
  | Some n =>
      match keys n !! it with
      | None => q
      | Some st =>
          let a := if processing st then active n - 1 else active n in
          let st := set_processing st false in
          release (Namespace it) (mkNamespace (<[it := st]> (keys n)) a (waiting n)) it st q
      end
  end.

(** [Backlog]. *)
Definition Backlog (name : string) (now : Time) (q : Queue) : Z * list innerAdd * Queue :=
  match namespaces q !! name with
  | None => (0, [], q)
  | Some n =>
      let '(promoted, n) := promote now n in
      (active n, readds n promoted, put name n q)
  end.

(** [sweep] of one namespace.  The keys to age are collected in map order and
    sorted by when they became due, then by their add. *)
Definition to_age (now : Time) (ag : Duration) (st : state) : bool :=
  due st && negb (aged st) && (ag <=? now - dueSince st).

Definition aged_less (a b : Request * state) : bool :=
  if negb (dueSince a.2 =? dueSince b.2) then dueSince a.2 <? dueSince b.2 else seq a.2 <? seq b.2.

Definition sweep_ns (now : Time) (ag : Duration) (n : namespace) : list innerAdd * namespace :=
  let '(promoted, n) := promote now n in
  let out := readds n promoted in
  if ag <=? 0 then (out, n)
  else
    let old := sort_by aged_less (filter (λ p, to_age now ag p.2 = true) (map_to_list (keys n))) in
    (out ++ ((λ p, readd (i64 (base p.2 * span)) p.1) <$> old),
     mkNamespace ((λ st, if to_age now ag st then set_aged st else st) <$> keys n) (active n) (waiting n)).

Definition sweep (now : Time) (q : Queue) : list innerAdd * Queue :=
  (mjoin ((λ p, (sweep_ns now (aging q) p.2).1) <$> map_to_list (namespaces q)),
   mkQueue (limiter q) (aging q) (q_seq q) ((λ n, (sweep_ns now (aging q) n).2) <$> namespaces q)).

(** ** The invariant *)

(** Keys of [n] in process, and keys due. *)
Definition procs (ks : gmap Request state) : nat := size (filter (λ p, processing p.2 = true) ks).
Definition dues (ks : gmap Request state) : nat := size (filter (λ p, due p.2 = true) ks).

Definition b2n (b : bool) : nat := if b then 1 else 0.

Lemma procs_update ks k st old :
  ks !! k = old →
  (procs (<[k := st]> ks) + from_option (λ o, b2n (processing o)) 0 old = procs ks + b2n (processing st))%nat.
Proof.
  intros Hk. pose proof (size_filter_update (λ p, processing p.2 = true) ks k st old Hk) as HS.
  unfold procs, b2n. destruct old as [o|]; simpl in *; repeat case_decide; repeat case_match; simplify_eq; lia.
Qed.

Lemma dues_update ks k st old :
  ks !! k = old →
  (dues (<[k := st]> ks) + from_option (λ o, b2n (due o)) 0 old = dues ks + b2n (due st))%nat.
Proof.
  intros Hk. pose proof (size_filter_update (λ p, due p.2 = true) ks k st old Hk) as HS.
  unfold dues, b2n. destruct old as [o|]; simpl in *; repeat case_decide; repeat case_match; simplify_eq; lia.
Qed.

(** One key of namespace [name], with the waiting heap [h]. *)
Record KeyOK (name : string) (h : list waiter) (k : Request) (st : state) : Prop := {
  k_ns : Namespace k = name;
  k_due : due st = true → queued st = true;
  k_wait : queued st = true → due st = false → mkWaiter (readyAt st) k (gen st) ∈ h
}.

Record NsOK (name : string) (n : namespace) : Prop := {
  n_keys : ∀ k st, keys n !! k = Some st → KeyOK name (waiting n) k st;
  n_active : active n = Z.of_nat (procs (keys n) + dues (keys n))
}.

(** No key is remembered that is neither queued nor in process. *)
Definition Live (n : namespace) : Prop :=
  ∀ k st, keys n !! k = Some st → queued st || processing st = true.

Definition Inv (q : Queue) : Prop :=
  ∀ name n, namespaces q !! name = Some n → NsOK name n ∧ Live n ∧ keys n ≠ ∅.

(** Replacing one key's state, the heap growing. *)
Lemma NsOK_update name n k st a h :
  NsOK name n → (∀ w, w ∈ waiting n → w ∈ h) → KeyOK name h k st →
  a = active n + Z.of_nat (b2n (processing st)) + Z.of_nat (b2n (due st)) -
      from_option (λ o, Z.of_nat (b2n (processing o)) + Z.of_nat (b2n (due o))) 0 (keys n !! k) →
  NsOK name (mkNamespace (<[k := st]> (keys n)) a h).
Proof.
  intros [HK HA] Hh Hst ->. split; simpl.
  - intros k' st'. rewrite lookup_insert. case_decide; [intros [= <-]; by subst|].
    intros Hk'. destruct (HK _ _ Hk'). split; auto.
  - pose proof (procs_update (keys n) k st _ eq_refl) as HP.
    pose proof (dues_update (keys n) k st _ eq_refl) as HD. rewrite HA.
    destruct (keys n !! k); simpl in *; lia.
Qed.

Lemma Live_update n k st a h :
  Live n → queued st || processing st = true → Live (mkNamespace (<[k := st]> (keys n)) a h).
Proof.
  intros HL Hst k' st'. simpl. rewrite lookup_insert. case_decide; [by intros [= <-]|apply HL].
Qed.

(** ** [promote] *)

#[local] Instance waiters_weak : StrictWeak waiters_Less.
Proof. split; unfold waiters_Less; intros *; rewrite ?Z.ltb_lt, ?Z.ltb_ge; lia. Qed.

(** What [promote] does to a key: nothing, or it marks a queued key due. *)
Definition promotes (now : Time) (st st' : state) : Prop :=
  st' = st ∨ (queued st = true ∧ due st = false ∧ ∃ t, t ≤ now ∧ st' = set_due st t).

Lemma promotes_trans now a b c : promotes now a b → promotes now b c → promotes now a c.
Proof. unfold promotes. intros [->|(?&?&?&?&->)] [->|(?&?&?&?&->)]; simpl in *; naive_solver. Qed.

Lemma NsOK_pop_stale name n w rest :
  NsOK name n → heap_pop waiters_Less (waiting n) = Some (w, rest) →
  (∀ st, keys n !! w_key w = Some st → (gen st =? w_gen w) && queued st && negb (due st) = false) →
  NsOK name (mkNamespace (keys n) (active n) rest).
Proof.
  intros [HK HA] Hp Hst. split; [|done]. simpl. intros k st Hk. destruct (HK _ _ Hk) as [H1 H2 H3].
  split; auto. intros Hq Hd. specialize (H3 Hq Hd). rewrite (heap_pop_perm _ _ _ _ Hp) in H3.
  apply elem_of_cons in H3 as [<-|]; [|done]. specialize (Hst st Hk). simpl in Hst.
  by rewrite Z.eqb_refl, Hq, Hd in Hst.
Qed.

Lemma NsOK_pop_due name n w rest st :
  NsOK name n → heap_pop waiters_Less (waiting n) = Some (w, rest) →
  keys n !! w_key w = Some st → queued st = true → due st = false →
  NsOK name (mkNamespace (<[w_key w := set_due st (at_ w)]> (keys n)) (active n + 1) rest).
Proof.
  intros [HK HA] Hp Hk Hq Hd. split; simpl.
  - intros k st'. rewrite lookup_insert. case_decide as E.
    + intros [= <-]. subst. destruct (HK _ _ Hk). split; by auto.
    + intros Hk'. destruct (HK _ _ Hk') as [H1 H2 H3]. split; auto. intros Hq' Hd'.
      specialize (H3 Hq' Hd'). rewrite (heap_pop_perm _ _ _ _ Hp) in H3.
      apply elem_of_cons in H3 as [<-|]; [|done]. by destruct E.
  - pose proof (procs_update (keys n) (w_key w) (set_due st (at_ w)) _ Hk) as HP.
    pose proof (dues_update (keys n) (w_key w) (set_due st (at_ w)) _ Hk) as HD.
    simpl in *. rewrite Hd in HD. simpl in HD. rewrite HA. lia.
Qed.

Lemma option_promotes_refl now (o : option state) : option_Forall2 (promotes now) o o.
Proof. destruct o; constructor. by left. Qed.

Lemma option_promotes_insert now (ks : gmap Request state) k st t (o : option state) k' :
  ks !! k = Some st → queued st = true → due st = false → t ≤ now →
  option_Forall2 (promotes now) (<[k := set_due st t]> ks !! k') o →
  option_Forall2 (promotes now) (ks !! k') o.
Proof.
  intros Hk Hq Hd Ht. rewrite lookup_insert. case_decide as E; [|done]. subst. rewrite Hk.
  inversion 1 as [? ? HP|]; subst. constructor. eapply promotes_trans; [|done]. right. eauto.
Qed.

Lemma promote_loop_spec fuel now : ∀ out n name,
  NsOK name n → (length (waiting n) ≤ fuel)%nat →
  let r := promote_loop fuel now out n in
  NsOK name r.2 ∧ (∀ w, w ∈ waiting r.2 → now < at_ w) ∧
  (∀ k, option_Forall2 (promotes now) (keys n !! k) (keys r.2 !! k)).
Proof.
  induction fuel as [|fuel IH]; intros out n name HN Hf; simpl.
  { split_and!; [done| |intros; apply option_promotes_refl].
    destruct (waiting n); [|simpl in Hf; lia]. intros w Hw. by apply elem_of_nil in Hw. }
  destruct (heap_pop waiters_Less (waiting n)) as [[w rest]|] eqn:Hp.
  2: { apply heap_pop_None in Hp. simpl. rewrite Hp. split_and!; [done| |intros; apply option_promotes_refl].
       intros w Hw. by apply elem_of_nil in Hw. }
  pose proof (heap_pop_length _ _ _ _ Hp) as HL.
  destruct (Z.leb_spec (at_ w) now) as [Hle|Hgt].
  2: { split_and!; [done| |intros; apply option_promotes_refl]. intros v Hv.
       pose proof (heap_pop_least _ _ _ _ v Hp Hv) as HLs. unfold waiters_Less in HLs.
       apply Z.ltb_ge in HLs. lia. }
  destruct (keys n !! w_key w) as [st|] eqn:Hk.
  - destruct ((gen st =? w_gen w) && queued st && negb (due st)) eqn:HG.
    + apply andb_prop in HG as [HG Hd]. apply andb_prop in HG as [_ Hq]. apply negb_true_iff in Hd.
      destruct (IH (out ++ [w_key w]) _ _ (NsOK_pop_due _ _ _ _ _ HN Hp Hk Hq Hd)) as (H1 & H2 & H3);
        [simpl; lia|].
      split_and!; [done|done|]. intros k. eapply option_promotes_insert; eauto.
    + apply (IH out (mkNamespace (keys n) (active n) rest)); [|simpl; lia].
      eapply NsOK_pop_stale; [done..|]. naive_solver.
  - apply (IH out (mkNamespace (keys n) (active n) rest)); [|simpl; lia].
      eapply NsOK_pop_stale; [done..|]. naive_solver.
Qed.

(** After [promote now] no queued key whose time has come is left waiting. *)
Definition Caught (now : Time) (n : namespace) : Prop :=
  ∀ k st, keys n !! k = Some st → queued st = true → readyAt st ≤ now → due st = true.

Lemma promote_spec now n name :
  NsOK name n →
  let n' := (promote now n).2 in
  NsOK name n' ∧ Caught now n' ∧ (∀ k, option_Forall2 (promotes now) (keys n !! k) (keys n' !! k)).
Proof.
  intros HN. destruct (promote_loop_spec (length (waiting n)) now [] n name HN) as (H1 & H2 & H3); [done|].
  split_and!; [done| |done]. intros k st Hk Hq Hr. destruct (due st) eqn:Hd; [done|].
  pose proof (k_wait _ _ _ _ (n_keys _ _ H1 _ _ Hk) Hq Hd) as Hw. apply H2 in Hw. simpl in Hw. lia.
Qed.

(** What [promote] keeps of every key. *)
Lemma promotes_keeps now st st' :
  promotes now st st' →
  queued st' = queued st ∧ processing st' = processing st ∧ aged st' = aged st ∧ base st' = base st ∧
  readyAt st' = readyAt st ∧ gen st' = gen st ∧ seq st' = seq st.
Proof. intros [->|(_&_&t&_&->)]; done. Qed.

Lemma promoted_lookup now (ks ks' : gmap Request state) k st' :
  (∀ k, option_Forall2 (promotes now) (ks !! k) (ks' !! k)) → ks' !! k = Some st' →
  ∃ st, ks !! k = Some st ∧ promotes now st st'.
Proof. intros H Hk. specialize (H k). rewrite Hk in H. inversion H; subst; eauto. Qed.

Lemma promoted_lookup_fwd now (ks ks' : gmap Request state) k st :
  (∀ k, option_Forall2 (promotes now) (ks !! k) (ks' !! k)) → ks !! k = Some st →
  ∃ st', ks' !! k = Some st' ∧ promotes now st st'.
Proof. intros H Hk. specialize (H k). rewrite Hk in H. inversion H; subst; eauto. Qed.

Lemma promote_live now n name : NsOK name n → Live n → Live (promote now n).2.
Proof.
  intros HN HL k st Hk. destruct (promote_spec now n name HN) as (_ & _ & HP).
  destruct (promoted_lookup _ _ _ _ _ HP Hk) as (st0 & Hk0 & (-> & -> & _)%promotes_keeps). eauto.
Qed.

Lemma promote_nonempty now n name : NsOK name n → keys n ≠ ∅ → keys (promote now n).2 ≠ ∅.
Proof.
  intros HN (k & st & Hk)%map_choose E. destruct (promote_spec now n name HN) as (_ & _ & HP).
  destruct (promoted_lookup_fwd _ _ _ _ _ HP Hk) as (st' & Hk' & _). by rewrite E in Hk'.
Qed.

(** ** [schedule], the adds, [Get], [Done] and [sweep] keep the invariant *)

Lemma schedule_ok name key st now n :
  NsOK name n → Namespace key = name → queued st = true →
  processing st = from_option processing false (keys n !! key) →
  due st = from_option due false (keys n !! key) →
  NsOK name (schedule key st now n).
Proof.
  intros HN Hns Hq Hp Hd. unfold schedule. simpl.
  destruct (Z.leb_spec (readyAt st) now).
  - destruct (due st) eqn:Ed; (apply NsOK_update; [done|auto|split; simpl; auto; congruence|]); simpl;
      rewrite ?Ed, ?Hp; destruct (keys n !! key); simpl in *; rewrite <-?Hd; simpl; lia.
  - apply NsOK_update; [done| |split; simpl; auto|].
    + intros w. unfold heap_push. set_solver.
    + intros _ _. unfold heap_push. set_solver.
    + simpl. rewrite Hp, Hd. destruct (keys n !! key); simpl in *; lia.
Qed.

Lemma schedule_keys key st now n :
  ∃ st', keys (schedule key st now n) = <[key := st']> (keys n) ∧
    queued st' = queued st ∧ base st' = base st ∧ processing st' = processing st ∧
    (due st = true → due st' = true).
Proof. unfold schedule. simpl. repeat case_match; simpl; eexists; split; eauto. Qed.

Lemma NsOK_empty name : NsOK name (mkNamespace ∅ 0 []).
Proof. split; [by intros ? ?|done]. Qed.

Lemma ns_ok name q : Inv q → NsOK name (ns name q) ∧ Live (ns name q).
Proof.
  intros HI. unfold ns. destruct (namespaces q !! name) as [n|] eqn:E; simpl.
  - destruct (HI _ _ E) as (?&?&?). done.
  - split; [apply NsOK_empty|by intros ? ?].
Qed.

Lemma Inv_put name n q s :
  Inv q → NsOK name n → Live n → keys n ≠ ∅ →
  Inv (put name n (mkQueue (limiter q) (aging q) s (namespaces q))).
Proof.
  intros HI HN HL Hne name' n'. simpl. rewrite lookup_insert. case_decide; [|apply HI].
  intros [= <-]. by subst.
Qed.

Lemma Inv_put' name n q : Inv q → NsOK name n → Live n → keys n ≠ ∅ → Inv (put name n q).
Proof. destruct q as [l a s m]. apply (Inv_put name n (mkQueue l a s m)). Qed.

Lemma add_key_ok name it b ready now s n :
  NsOK name n → Namespace it = name → NsOK name (add_key it b ready now s n).1.
Proof.
  intros HN Hns. unfold add_key. destruct (keys n !! it) as [st|] eqn:Hk; simpl.
  - pose proof (n_keys _ _ HN _ _ Hk) as [_ K2 K3].
    destruct (queued st) eqn:Hq; simpl.
    2: { apply schedule_ok; rewrite ?Hk; by simpl. }
    destruct (negb (due st) && _) eqn:E.
    { apply schedule_ok; rewrite ?Hk; by simpl. }
    apply NsOK_update; [done|auto|split; simpl; auto|]. rewrite Hk. simpl. lia.
  - apply schedule_ok; rewrite ?Hk; by simpl.
Qed.

(** [add_key] touches only [it], which ends queued, its base the highest
    since it was last handed out. *)
Lemma add_key_keys it b ready now s n :
  ∃ st', keys (add_key it b ready now s n).1 = <[it := st']> (keys n) ∧ queued st' = true ∧
    processing st' = from_option processing false (keys n !! it) ∧
    base st' = match keys n !! it with
               | Some st => if queued st then Z.max (base st) b else b
               | None => b
               end.
Proof.
  unfold add_key. destruct (keys n !! it) as [st|] eqn:Hk; simpl.
  - destruct (queued st) eqn:Hq; simpl.
    + destruct (negb (due st) && _); simpl.
      * destruct (schedule_keys it (set_readyAt (set_base st (base st `max` b)) ready) now n)
          as (st' & E & ? & ? & ? & _). exists st'. split_and!; try done; simpl in *; congruence.
      * eexists. split_and!; [done|done|done|done].
    + destruct (schedule_keys it (enqueue_state st b ready (u64_succ s)) now n)
        as (st' & E & ? & ? & ? & _). exists st'. split_and!; done.
  - destruct (schedule_keys it (enqueue_state zero_state b ready (u64_succ s)) now n)
      as (st' & E & ? & ? & ? & _). exists st'. split_and!; done.
Qed.

(** The shape of [add_item]. *)
Lemma add_item_shape o it r q :
  let now := r_now r in
  let opts := item_opts (limiter q) o r in
  let n := (promote now (ns (Namespace it) q)).2 in
  let a := add_key it (default 0 (Priority o)) (if 0 <? After opts then now + After opts else now)
             now (q_seq q) n in
  (add_item o it r q).2 = put (Namespace it) a.1 (mkQueue (limiter q) (aging q) a.2 (namespaces q)).
Proof.
  simpl. unfold add_item. destruct (promote _ _) as [pr n]. simpl. by destruct (add_key _ _ _ _ _ _).
Qed.

Lemma add_item_inv o it r q : Inv q → Inv (add_item o it r q).2.
Proof.
  intros HI. rewrite add_item_shape. set (n := (promote _ _).2).
  destruct (ns_ok (Namespace it) q HI) as [HN HL].
  assert (NsOK (Namespace it) n) as HN' by by apply promote_spec.
  assert (Live n) as HL' by by eapply promote_live.
  set (ready := if _ <? _ then _ else _). set (b := default 0 _).
  pose proof (add_key_ok _ it b ready (r_now r) (q_seq q) n HN' eq_refl) as HA.
  destruct (add_key_keys it b ready (r_now r) (q_seq q) n) as (st' & E & Hq & _).
  apply Inv_put; [done|done| |].
  - intros k st. rewrite E, lookup_insert. case_decide; [intros [= <-]; by rewrite Hq|apply HL'].
  - rewrite E. apply insert_non_empty.
Qed.

Lemma AddWithOpts_inv o items : ∀ q, Inv q → Inv (AddWithOpts o items q).2.
Proof.
  induction items as [|[it r] items IH]; intros q HI; simpl; [done|].
  pose proof (add_item_inv o it r q HI) as H1. destruct (add_item o it r q) as [out1 q1].
  specialize (IH q1 H1). by destruct (AddWithOpts o items q1).
Qed.

Lemma GetWithPriority_inv it p q : Inv q → Inv (GetWithPriority it p q).2.
Proof.
  intros HI. destruct (ns_ok (Namespace it) q HI) as [HN HL]. unfold GetWithPriority. simpl.
  apply Inv_put'; [done| |by apply Live_update|apply insert_non_empty].
  apply NsOK_update; [done|auto|by split|]. simpl.
  destruct (keys (ns (Namespace it) q) !! it) as [st|]; simpl; [|lia].
  destruct (queued st); simpl; destruct (due st), (processing st); simpl; lia.
Qed.

(** Dropping a key that is neither in process nor due. *)
Lemma NsOK_delete name n k st :
  NsOK name n → keys n !! k = Some st → processing st = false → due st = false →
  NsOK name (mkNamespace (delete k (keys n)) (active n) (waiting n)).
Proof.
  intros [HK HA] Hk Hp Hd. split; simpl.
  - intros k' st' [_ Hk']%lookup_delete_Some. by apply HK.
  - rewrite HA. unfold procs, dues.
    rewrite (size_filter_delete (λ p, processing p.2 = true) _ _ _ Hk),
      (size_filter_delete (λ p, due p.2 = true) _ _ _ Hk).
    rewrite !decide_False by (simpl; congruence). done.
Qed.

Lemma Done_inv it q : Inv q → Inv (Done it q).
Proof.
  intros HI. unfold Done. destruct (namespaces q !! Namespace it) as [n|] eqn:En; [|done].
  destruct (keys n !! it) as [st|] eqn:Hk; [|done].
  destruct (HI _ _ En) as (HN & HL & _). destruct (n_keys _ _ HN _ _ Hk) as [K1 K2 K3].
  set (st' := set_processing st false). set (n' := mkNamespace _ _ _).
  assert (NsOK (Namespace it) n') as HN'.
  { apply NsOK_update; [done|auto|by split|]. rewrite Hk. subst st'. simpl.
    destruct (processing st); simpl; lia. }
  assert (∀ k st0, k ≠ it → keys n' !! k = Some st0 → queued st0 || processing st0 = true) as HL'.
  { intros k st0 Hne. simpl. rewrite lookup_insert_ne by done. apply HL. }
  assert (keys n' !! it = Some st') as Hk' by apply lookup_insert_eq.
  unfold release. destruct (queued st' || processing st') eqn:Ho.
  - apply Inv_put'; [done|done| |apply insert_non_empty].
    intros k st0 Hk0. destruct (decide (k = it)) as [->|]; [|by eapply HL']. by simplify_eq.
  - apply orb_false_iff in Ho as [Hq _]. assert (due st' = false) as Hd.
    { destruct (due st') eqn:E; [|done]. by rewrite (K2 E : queued st' = true) in Hq. }
    case_decide as Hd0.
    + intros name m. simpl. intros [_ Hm]%lookup_delete_Some. by apply HI.
    + apply Inv_put'; [done|by eapply NsOK_delete| |done].
      intros k st0. simpl. intros [Hne Hk0]%lookup_delete_Some. by eapply HL'.
Qed.

Lemma Backlog_inv name now q : Inv q → Inv (Backlog name now q).2.
Proof.
  intros HI. unfold Backlog. destruct (namespaces q !! name) as [n|] eqn:En; [|done].
  destruct (HI _ _ En) as (HN & HL & Hne). destruct (promote_spec now n name HN) as (H1 & _ & _).
  pose proof (promote_live now _ _ HN HL). pose proof (promote_nonempty now _ _ HN Hne).
  destruct (promote now n) as [pr n']. by apply Inv_put'.
Qed.

(** Marking keys as aged changes nothing the invariant speaks of. *)
Lemma size_filter_fmap (P : state → Prop) `{!∀ x, Decision (P x)} (f : state → state) (ks : gmap Request state) :
  (∀ st, P (f st) ↔ P st) → size (filter (λ p, P p.2) (f <$> ks)) = size (filter (λ p, P p.2) ks).
Proof.
  intros Hf. induction ks as [|k st ks Hk IH] using map_ind; [by rewrite fmap_empty|].
  rewrite fmap_insert, !size_filter_insert by (rewrite ?lookup_fmap, ?Hk; done).
  rewrite IH. simpl. repeat case_decide; naive_solver.
Qed.

Definition age (now : Time) (ag : Duration) (st : state) : state :=
  if to_age now ag st then set_aged st else st.

Lemma age_keeps now ag st :
  queued (age now ag st) = queued st ∧ processing (age now ag st) = processing st ∧
  due (age now ag st) = due st ∧ base (age now ag st) = base st ∧ readyAt (age now ag st) = readyAt st ∧
  gen (age now ag st) = gen st.
Proof. unfold age. by destruct (to_age now ag st). Qed.

Lemma sweep_ns_shape now ag n :
  (sweep_ns now ag n).2 =
  let n := (promote now n).2 in
  if ag <=? 0 then n else mkNamespace (age now ag <$> keys n) (active n) (waiting n).
Proof. unfold sweep_ns. destruct (promote now n) as [pr n']. simpl. by case_match. Qed.

Lemma NsOK_age name now ag n :
  NsOK name n → NsOK name (mkNamespace (age now ag <$> keys n) (active n) (waiting n)).
Proof.
  intros [HK HA]. split; simpl.
  - intros k st'. rewrite lookup_fmap. intros (st & Hk & ->)%fmap_Some.
    destruct (HK _ _ Hk) as [K1 K2 K3].
    destruct (age_keeps now ag st) as (E1 & E2 & E3 & E4 & E5 & E6). split; [done|..]; rewrite E1, E3; [done|].
    by rewrite E5, E6.
  - rewrite HA. do 2 f_equal; symmetry;
      [refine (size_filter_fmap (λ st, processing st = true) _ _ _)
      |refine (size_filter_fmap (λ st, due st = true) _ _ _)]; intros st;
      destruct (age_keeps now ag st) as (_ & E1 & E2 & _); by rewrite ?E1, ?E2.
Qed.

Lemma sweep_ns_inv now ag name n :
  NsOK name n → Live n → keys n ≠ ∅ →
  NsOK name (sweep_ns now ag n).2 ∧ Live (sweep_ns now ag n).2 ∧ keys (sweep_ns now ag n).2 ≠ ∅.
Proof.
  intros HN HL Hne. rewrite sweep_ns_shape. simpl. destruct (promote_spec now n name HN) as (H1 & _ & _).
  pose proof (promote_live now _ _ HN HL) as H2. pose proof (promote_nonempty now _ _ HN Hne) as H3.
  destruct (ag <=? 0); [done|]. split_and!; [by apply NsOK_age| |].
  - intros k st. simpl. rewrite lookup_fmap. intros (st0 & Hk & ->)%fmap_Some.
    destruct (age_keeps now ag st0) as (-> & -> & _). by eapply H2.
  - simpl. intros E. by apply fmap_empty_iff in E.
Qed.

Lemma sweep_inv now q : Inv q → Inv (sweep now q).2.
Proof.
  intros HI name n. simpl. rewrite lookup_fmap. intros (n0 & Hn & ->)%fmap_Some.
  destruct (HI _ _ Hn) as (?&?&?). by apply sweep_ns_inv.
Qed.

(** ** Runs

    [op] is a critical section; a run interleaves them in any order. *)
Inductive op :=
  | OAdd (o : AddOpts) (items : list (Request * reading))
  | OGet (it : Request) (p : Z)
  | ODone (it : Request)
  | OBacklog (name : string) (now : Time)
  | OSweep (now : Time).

Definition run_op (o : op) (q : Queue) : Queue :=
  match o with
  | OAdd o items => (AddWithOpts o items q).2
  | OGet it p => (GetWithPriority it p q).2
  | ODone it => Done it q
  | OBacklog name now => (Backlog name now q).2
  | OSweep now => (sweep now q).2
  end.

Definition run (os : list op) (q : Queue) : Queue := foldl (λ q o, run_op o q) q os.

Lemma run_inv os : ∀ q, Inv q → Inv (run os q).
Proof.
  induction os as [|o os IH]; intros q HI; simpl; [done|]. apply IH. destruct o; simpl.
  - by apply AddWithOpts_inv.
  - by apply GetWithPriority_inv.
  - by apply Done_inv.
  - by apply Backlog_inv.
  - by apply sweep_inv.
Qed.

Lemma Wrap_inv lim : Inv (Wrap lim).
Proof. by intros name n. Qed.

(** ** The base priority of a queued key *)

Definition st_of (q : Queue) (k : Request) : option state := keys (ns (Namespace k) q) !! k.

(** The base priority of [k] when it is queued. *)
Definition qbase (q : Queue) (k : Request) : option Z :=
  match st_of q k with
  | Some st => if queued st then Some (base st) else None
  | None => None
  end.

(** Adding a key keeps the highest base priority. *)
Definition raise (o : option Z) (b : Z) : option Z := Some (from_option (λ c, Z.max c b) b o).

(** The base priorities [k] is added with in an operation, in order. *)
Definition op_bases (k : Request) (o : op) : list Z :=
  match o with
  | OAdd o items => (λ _, default 0 (Priority o)) <$> filter (λ p, p.1 = k) items
  | _ => []
  end.

Definition bases (k : Request) (os : list op) : list Z := mjoin (op_bases k <$> os).

Definition gets (k : Request) (o : op) : bool :=
  match o with OGet it _ => bool_decide (it = k) | _ => false end.

Lemma ns_put name n q name' : ns name' (put name n q) = if decide (name = name') then n else ns name' q.
Proof. unfold ns, put. simpl. rewrite lookup_insert. by case_decide. Qed.

Lemma st_of_put name n q k :
  st_of (put name n q) k = if decide (name = Namespace k) then keys n !! k else st_of q k.
Proof. unfold st_of. rewrite ns_put. by case_decide. Qed.

(** Two states of a key that agree on [queued] and [base]. *)
Definition same_base (a b : state) : Prop := queued a = queued b ∧ base a = base b.

Lemma qbase_same q q' k : option_Forall2 same_base (st_of q k) (st_of q' k) → qbase q' k = qbase q k.
Proof. unfold qbase. intros H. inversion H as [a b [E1 E2]|]; subst; [|done]. by rewrite E1, E2. Qed.

Lemma same_base_refl (o : option state) : option_Forall2 same_base o o.
Proof. destruct o; by repeat constructor. Qed.

Lemma promote_same_base now n name k :
  NsOK name n → option_Forall2 same_base (keys n !! k) (keys (promote now n).2 !! k).
Proof.
  intros HN. destruct (promote_spec now n name HN) as (_ & _ & HP). specialize (HP k).
  inversion HP as [a b (E1 & _ & _ & E2 & _)%promotes_keeps|]; subst; by constructor.
Qed.

Lemma add_item_qbase o it r q k :
  Inv q → qbase (add_item o it r q).2 k = if decide (it = k) then raise (qbase q k) (default 0 (Priority o)) else qbase q k.
Proof.
  intros HI. destruct (ns_ok (Namespace it) q HI) as [HN _].
  pose proof (promote_same_base (r_now r) _ _ k HN) as HP.
  assert (qbase (add_item o it r q).2 k =
    if decide (Namespace it = Namespace k) then
      let n := (promote (r_now r) (ns (Namespace it) q)).2 in
      match (if decide (it = k) then None else keys n !! k) with
      | Some st => if queued st then Some (base st) else None
      | None => if decide (it = k) then
                  Some (match keys n !! k with Some st => if queued st then Z.max (base st) (default 0 (Priority o)) else default 0 (Priority o)
                        | None => default 0 (Priority o) end) else None
      end
    else qbase q k) as ->.
  { rewrite add_item_shape. simpl. unfold qbase. rewrite st_of_put.
    case_decide as E1; [|done].
    set (n := (promote _ _).2). set (ready := if _ <? _ then _ else _).
    destruct (add_key_keys it (default 0 (Priority o)) ready (r_now r) (q_seq q) n) as (st' & -> & Hq & _ & Hb).
    rewrite lookup_insert. case_decide; [|done]. subst. by rewrite Hq, Hb. }
  simpl. destruct (decide (it = k)) as [->|Hne].
  - rewrite decide_True by done. unfold raise, qbase, st_of.
    inversion HP as [a b [E1 E2]|]; simpl; [|done]. rewrite E1, E2. by destruct (queued b).
  - case_decide as E; [|done]. rewrite E in *. unfold qbase, st_of.
    inversion HP as [a b [E1 E2]|]; simpl; [|done]. by rewrite E1, E2.
Qed.

Lemma AddWithOpts_qbase o items k : ∀ q, Inv q →
  qbase (AddWithOpts o items q).2 k = foldl raise (qbase q k) (op_bases k (OAdd o items)).
Proof.
  induction items as [|[it r] items IH]; intros q HI; simpl; [done|].
  pose proof (add_item_inv o it r q HI) as H1. pose proof (add_item_qbase o it r q k HI) as H2.
  destruct (add_item o it r q) as [out1 q1]. specialize (IH q1 H1).
  destruct (AddWithOpts o items q1) as [out2 q2]. simpl in *. rewrite IH, H2.
  rewrite filter_cons. simpl. by case_decide.
Qed.

Lemma Done_qbase it q k : Inv q → qbase (Done it q) k = qbase q k.
Proof.
  intros HI. unfold Done. destruct (namespaces q !! Namespace it) as [n|] eqn:En; [|done].
  destruct (keys n !! it) as [st|] eqn:Hk; [|done].
  assert (∀ j, Namespace j = Namespace it → st_of q j = keys n !! j) as Hst.
  { intros j Hj. unfold st_of, ns. by rewrite Hj, En. }
  unfold release. simpl. destruct (queued st || false) eqn:Ho.
  - apply qbase_same. rewrite st_of_put. simpl. case_decide as E; [|apply same_base_refl].
    rewrite Hst by done. rewrite lookup_insert. case_decide; [|apply same_base_refl].
    subst. rewrite Hk. by repeat constructor.
  - rewrite orb_false_r in Ho. rewrite delete_insert_eq.
    set (q' := if decide _ then _ else _).
    assert (∀ j, st_of q' j = if decide (j = it) then None else st_of q j) as Hst'.
    { intros j. subst q'. case_decide as E.
      - unfold st_of, ns. simpl. rewrite lookup_delete. destruct (decide (Namespace it = Namespace j)) as [Ej|Ej].
        + simpl. rewrite lookup_empty. case_decide; [done|]. rewrite <-Ej, En. simpl.
          rewrite <-(lookup_delete_ne (keys n) it j), E by done. done.
        + rewrite decide_False by congruence. done.
      - rewrite st_of_put. simpl. rewrite lookup_delete. repeat case_decide; subst; try done.
        by rewrite Hst. }
    unfold qbase. rewrite Hst'. case_decide as E; [|done]. subst. rewrite (Hst it) by done.
    by rewrite Hk, Ho.
Qed.

Lemma Backlog_qbase name now q k : Inv q → qbase (Backlog name now q).2 k = qbase q k.
Proof.
  intros HI. unfold Backlog. destruct (namespaces q !! name) as [n|] eqn:En; [|done].
  destruct (HI _ _ En) as (HN & _). pose proof (promote_same_base now n name k HN) as HP.
  destruct (promote now n) as [pr n']. apply qbase_same. simpl in *. rewrite st_of_put.
  case_decide as E; [|apply same_base_refl]. unfold st_of, ns. by rewrite <-E, En.
Qed.

Lemma sweep_qbase now q k : Inv q → qbase (sweep now q).2 k = qbase q k.
Proof.
  intros HI. apply qbase_same. unfold st_of, ns. simpl. rewrite lookup_fmap.
  destruct (namespaces q !! Namespace k) as [n|] eqn:En; simpl; [|apply same_base_refl].
  destruct (HI _ _ En) as (HN & _). pose proof (promote_same_base now n _ k HN) as HP.
  rewrite sweep_ns_shape. simpl. destruct (aging q <=? 0); [done|]. simpl. rewrite lookup_fmap.
  inversion HP as [a b [E1 E2] F1 F2|F1 F2]; simpl; constructor.
  destruct (age_keeps now (aging q) b) as (A1 & _ & _ & A2 & _). split; congruence.
Qed.

Lemma GetWithPriority_qbase it p q k : it ≠ k → qbase (GetWithPriority it p q).2 k = qbase q k.
Proof.
  intros Hne. apply qbase_same. simpl. rewrite st_of_put. simpl. case_decide as E; [|apply same_base_refl].
  rewrite lookup_insert_ne by done. rewrite E. apply same_base_refl.
Qed.

Lemma run_qbase os k : ∀ q, Inv q → Forall (λ o, gets k o = false) os →
  qbase (run os q) k = foldl raise (qbase q k) (bases k os).
Proof.
  induction os as [|o os IH]; intros q HI HG; simpl; [done|].
  apply Forall_cons in HG as [Hg HG]. pose proof (run_inv [o] q HI) as HI'. simpl in HI'.
  unfold bases in *. simpl. rewrite foldl_app. rewrite (IH (run_op o q) HI' HG).
  f_equal. destruct o; simpl in *.
  - by apply AddWithOpts_qbase.
  - apply GetWithPriority_qbase. by apply bool_decide_eq_false in Hg.
  - by apply Done_qbase.
  - by apply Backlog_qbase.
  - by apply sweep_qbase.
Qed.

Lemma foldl_raise b bs : foldl raise (Some b) bs = Some (foldl Z.max b bs).
Proof. revert b. induction bs; intros b; simpl; [done|]. by rewrite <-IHbs. Qed.

(** ** Properties *)

(** After any run of adds, gets, dones, backlogs and sweeps, in any
    interleaving and whatever the inner queue hands out: the backlog count of
    every namespace is its keys in process plus its keys due, only queued keys
    are due, and no key or namespace is remembered without work. *)
Theorem fairqueue_bookkeeping lim os name n :
  namespaces (run os (Wrap lim)) !! name = Some n →
  active n = Z.of_nat (procs (keys n) + dues (keys n)) ∧ keys n ≠ ∅ ∧
  ∀ k st, keys n !! k = Some st →
    Namespace k = name ∧ (due st = true → queued st = true) ∧ queued st || processing st = true.
Proof.
  intros Hn. destruct (run_inv os _ (Wrap_inv lim) _ _ Hn) as (HN & HL & Hne).
  split_and!; [apply HN|done|]. intros k st Hk. destruct (n_keys _ _ HN _ _ Hk) as [K1 K2 _].
  split_and!; [done|done|by eapply HL].
Qed.

Definition kx : Request := mkName "a" "x".
Definition ky : Request := mkName "a" "y".

(** [y] runs, [x] is due. *)
Definition demo_ops : list op :=
  [OAdd (mkAddOpts 0 false None) [(kx, mkReading 0 0); (ky, mkReading 0 0)]; OGet ky 0].

Lemma fairqueue_bookkeeping_witness :
  ∃ n, namespaces (run demo_ops (Wrap true)) !! "a" = Some n ∧
    active n = Z.of_nat (procs (keys n) + dues (keys n)) ∧ active n = 2.
Proof.
  eexists. split; [by vm_compute|]. split; [|by vm_compute].
  eapply (fairqueue_bookkeeping true demo_ops "a"). by vm_compute.
Defined.

(** [Backlog] at [now] answers the keys in process plus the keys due, and
    by then no queued key of the namespace whose ready time has come is still
    uncounted. *)
Theorem backlog_counts_ready lim os name now :
  let q := run os (Wrap lim) in
  let '(b, _, q') := Backlog name now q in
  b = Z.of_nat (procs (keys (ns name q')) + dues (keys (ns name q'))) ∧
  ∀ k st, keys (ns name q') !! k = Some st → queued st = true → readyAt st ≤ now → due st = true.
Proof.
  simpl. pose proof (run_inv os _ (Wrap_inv lim)) as HI. revert HI. generalize (run os (Wrap lim)).
  intros q HI. unfold Backlog. destruct (namespaces q !! name) as [n|] eqn:En.
  - destruct (HI _ _ En) as (HN & _). destruct (promote_spec now n name HN) as ([_ HA] & HC & _).
    destruct (promote now n) as [pr n']. rewrite ns_put, decide_True by done. by split.
  - unfold ns. rewrite En. by split.
Qed.

(** Priority levels are kept apart: whatever the backlogs, a key of a
    higher base priority keeps a higher priority, and within a level a larger
    backlog never raises the priority, which stays within five of the level's.
    The bound on the base is what keeps [base*span] within an [int]. *)
Theorem shift_keeps_levels b b' x y :
  Z.abs b < 2 ^ 53 → Z.abs b' < 2 ^ 53 →
  b * 1000 - 5 ≤ shift b x ≤ b * 1000 ∧
  (x ≤ y → shift b y ≤ shift b x) ∧
  (b < b' → shift b x < shift b' y).
Proof.
  intros Hb Hb'.
  assert (∀ b x, Z.abs b < 2 ^ 53 → ∃ s, shift b x = b * 1000 - s ∧
    s = (if 1 <=? x then 1 else 0) + (if 4 <=? x then 1 else 0) + (if 16 <=? x then 1 else 0) +
        (if 64 <=? x then 1 else 0) + (if 256 <=? x then 1 else 0)) as Hs.
  { intros c z Hc. unfold shift, span, buckets. cbn [foldl].
    eexists. split; [|reflexivity]. rewrite (i64_small (c * 1000)) by lia.
    rewrite i64_small; repeat case_match; lia. }
  destruct (Hs b x Hb) as (s1 & E1 & Hs1). destruct (Hs b y Hb) as (s2 & E2 & Hs2).
  destruct (Hs b' y Hb') as (s3 & E3 & Hs3). rewrite E1, E2, E3.
  repeat match goal with H : context [?c <=? ?d] |- _ => destruct (Z.leb_spec c d) end; lia.
Qed.

Lemma shift_keeps_levels_witness : shift (-1) 0 < shift 0 1000.
Proof. apply (shift_keeps_levels (-1) 0 0 1000); lia. Defined.

(** [GetWithPriority] returns the highest base priority the key was added
    with since it was last handed out, whatever else the queue did in between:
    not the shifted priority the inner queue sorts by. *)
Theorem get_returns_highest_base lim os1 os2 k p p' b bs :
  Forall (λ o, gets k o = false) os2 → bases k os2 = b :: bs →
  (GetWithPriority k p (run os2 (GetWithPriority k p' (run os1 (Wrap lim))).2)).1 = foldl Z.max b bs.
Proof.
  intros HG Hb. pose proof (run_inv os1 _ (Wrap_inv lim)) as HI.
  pose proof (GetWithPriority_inv k p' _ HI) as HI1. set (q1 := (GetWithPriority k p' _).2) in *.
  pose proof (run_qbase os2 k q1 HI1 HG) as HQ. rewrite Hb in HQ.
  assert (qbase q1 k = None) as E.
  { subst q1. unfold qbase. simpl. rewrite st_of_put. simpl.
    by rewrite decide_True, lookup_insert_eq by done. }
  rewrite E in HQ. simpl in HQ. unfold raise at 2 in HQ. simpl in HQ. rewrite foldl_raise in HQ.
  unfold qbase, st_of in HQ. unfold GetWithPriority. simpl.
  destruct (keys _ !! k) as [st|]; simpl; [|done]. destruct (queued st); by simplify_eq.
Qed.

Lemma get_returns_highest_base_witness :
  (GetWithPriority kx 0 (run [OAdd (mkAddOpts 0 false (Some 2)) [(kx, mkReading 7 0)];
      ODone kx; OSweep 9; OAdd (mkAddOpts 5 false (Some 1)) [(kx, mkReading 8 0)]]
    (GetWithPriority kx 0 (run [] (Wrap true))).2)).1 = foldl Z.max 2 [1].
Proof. apply get_returns_highest_base; [by repeat constructor|by vm_compute]. Defined.

(** Aging: a sweep re-adds every key that has been due for the aging
    bound, and was not raised yet, at its base priority without any backlog
    penalty, and marks it so that it is raised once. *)
Theorem sweep_ages lim os now k st :
  let q := run os (Wrap lim) in
  st_of q k = Some st → due st = true → aged st = false →
  0 < aging q ≤ now - dueSince st →
  readd (i64 (base st * span)) k ∈ (sweep now q).1 ∧ st_of (sweep now q).2 k = Some (set_aged st).
Proof.
  simpl. pose proof (run_inv os _ (Wrap_inv lim)) as HI. revert HI. generalize (run os (Wrap lim)).
  intros q HI Hst Hd Ha [Hag Hs]. unfold st_of, ns in *.
  destruct (namespaces q !! Namespace k) as [n|] eqn:En; [|done]. simpl in Hst.
  destruct (HI _ _ En) as (HN & _). destruct (promote_spec now n _ HN) as (_ & _ & HP).
  destruct (promoted_lookup_fwd _ _ _ _ _ HP Hst) as (st' & Hk' & [->|(_ & E & _)]); [|congruence].
  assert (to_age now (aging q) st = true) as Ht.
  { unfold to_age. rewrite Hd, Ha. simpl. by apply Z.leb_le. }
  split.
  - simpl. apply list_elem_of_join. exists (sweep_ns now (aging q) n).1. split.
    + unfold sweep_ns. destruct (promote now n) as [pr n']. simpl in *.
      destruct (Z.leb_spec (aging q) 0); [lia|]. apply elem_of_app. right.
      apply list_elem_of_fmap. exists (k, st). split; [done|]. rewrite sort_by_elem.
      apply list_elem_of_filter. split; [done|]. by apply elem_of_map_to_list.
    + apply list_elem_of_fmap. exists (Namespace k, n). split; [done|]. by apply elem_of_map_to_list.
  - simpl. rewrite lookup_fmap, En. simpl. rewrite sweep_ns_shape. simpl.
    destruct (Z.leb_spec (aging q) 0); [lia|]. simpl. rewrite lookup_fmap, Hk'. simpl.
    unfold age. by rewrite Ht.
Qed.

Lemma sweep_ages_witness :
  ∃ st, st_of (run demo_ops (Wrap true)) kx = Some st ∧
    readd (i64 (base st * span)) kx ∈ (sweep (11 * second) (run demo_ops (Wrap true))).1.
Proof.
  eexists. split; [by vm_compute|].
  eapply (sweep_ages true demo_ops (11 * second) kx); by vm_compute.
Defined.

(** A key added again while it is in process is counted twice, once for
    the worker and once for being due, and its own count lowers its priority:
    a key alone on the controller is added at priority -1, not 0, and its
    namespace's backlog is 2. *)
Theorem readd_while_processing_counts_itself :
  let q := run [OAdd (mkAddOpts 0 false None) [(kx, mkReading 0 0)]; OGet kx 0] (Wrap true) in
  (Add kx (mkReading 1 0) q).1 = [mkInnerAdd (mkAddOpts 0 false (Some (-1))) kx] ∧
  (Backlog "a" 1 (Add kx (mkReading 1 0) q).2).1.1 = 2.
Proof. by vm_compute. Qed.

(** A waiting entry outlives the state it was pushed for: [x] is queued
    for 60 s, added at once, handed out and done, so its state is dropped, and
    is then queued for an hour by a new state whose generation starts again.
    The entry left in the heap matches that generation: a sweep at 60 s counts
    [x] as due and adds it to the inner queue with no delay, although its
    ready time is an hour away. *)
Theorem stale_waiter_wakes_early :
  let q := run [OAdd (mkAddOpts 0 false None) [(ky, mkReading 0 0)];
                OAdd (mkAddOpts (60 * second) false None) [(kx, mkReading 0 0)];
                OAdd (mkAddOpts 0 false None) [(kx, mkReading (1 * second) 0)];
                OGet kx 0; ODone kx;
                OAdd (mkAddOpts (3600 * second) false None) [(kx, mkReading (2 * second) 0)]] (Wrap true) in
  match st_of q kx, st_of (sweep (60 * second) q).2 kx with
  | Some st, Some st' =>
      due st = false ∧ due st' = true ∧ readyAt st' = 3602 * second ∧
      existsb (λ c, bool_decide (ia_key c = kx) && (After (ia_opts c) =? 0)) (sweep (60 * second) q).1 = true
  | _, _ => False
  end.
Proof. by vm_compute. Qed.

End FairQueue.
