(* ===== verification/BranchQueue.v ===== *)
(** * BranchQueue: turns to push to a branch

    Model of src/pkg/reconciler/promotionstep/branch_queue.go.  The auto
    promotions that push to one branch of one repository take turns, oldest
    first.  The state is [branchQueue.branches]; each operation is a critical
    section of [q.mu].  The clock readings and the random number of
    [turnJitter] are inputs; [q.wake] is an output. *)

From stdpp Require Import base gmap strings list.
From Stdlib Require Import Lia ZArith.
From S2P Require Import Prelude.

Open Scope Z_scope.

Module BranchQueue.

Record waiter := mkWaiter { first : Time; due : Time }.

Record branchTurn := mkTurn {
  holder : string;
  since : Time;
  avgHold : Duration;
  waiters : gmap string waiter
}.

Abbreviation branchQueue := (gmap string branchTurn) (only parsing).

Definition initialTurn : Duration := 2 * second.
Definition minTurnWait : Duration := 300 * millisecond.
Definition maxTurnWait : Duration := 15 * second.
Definition waiterGrace : Duration := 5 * second.

(** [turnJitter], with [rand.Int64N] as [rnd]. *)
Definition turnJitter (d : Duration) (rnd : Z → Z) : Duration :=
  let span := Z.quot d 5 in d + (rnd (2 * span + 1) - span).

(** What [rand.Int64N] documents: a number of [0,n). *)
Definition Int64N_ok (rnd : Z → Z) : Prop := ∀ n, 0 < n → 0 ≤ rnd n < n.

(** The order of the waiters: first refused first, then by key. *)
Definition older (a b : string * waiter) : bool :=
  (first a.2 <? first b.2) || ((first a.2 =? first b.2) && str_ltb a.1 b.1).

(** [headLocked]: the loop over the waiters, in the map's order. *)
Definition head_step (acc kw : string * waiter) : string * waiter :=
  if bool_decide (acc.1 = "") || older kw acc then kw else acc.

Definition headLocked (b : branchTurn) : string * waiter :=
  foldl head_step ("", mkWaiter 0 0) (map_to_list (waiters b)).

(** [sweepLocked]. *)
Definition sweep_turn (now : Time) (b : branchTurn) : option branchTurn :=
  let ws := filter (λ kw, ¬ (due kw.2 + waiterGrace < now)) (waiters b) in
  if bool_decide (holder b = "") && bool_decide (ws = ∅) then None
  else Some (mkTurn (holder b) (since b) (avgHold b) ws).

Definition sweepLocked (now : Time) (q : branchQueue) : branchQueue := omap (sweep_turn now) q.

(** The place of [step] in line: the loop counts the older waiters. *)
Definition place_of (step : string) (w : waiter) (ws : gmap string waiter) : Z :=
  1 + Z.of_nat (size (filter (λ kw, kw.1 ≠ step ∧ older kw (step, w) = true) ws)).

Inductive turn := Granted | Wait (d : Duration).

(** [tryTurn].  The release function it returns is a [handle] below. *)
Definition tryTurn (key step : string) (now : Time) (rnd : Z → Z) (q : branchQueue) : turn * branchQueue :=
  let q := sweepLocked now q in
  let b := default (mkTurn "" 0 initialTurn ∅) (q !! key) in
  let w := default (mkWaiter now 0) (waiters b !! step) in
  let free := bool_decide (holder b = "" ∨ holder b = step) in
  let head := (headLocked b).1 in
  if free && bool_decide (head = "" ∨ head = step) then
    (Granted, <[key := mkTurn step now (avgHold b) (delete step (waiters b))]> q)
  else
    let place := place_of step w (waiters b) in
    let wait := i64 (place * avgHold b) in
    let wait := turnJitter (Z.min (Z.max wait minTurnWait) maxTurnWait) rnd in
    (Wait wait, <[key := mkTurn (holder b) (since b) (avgHold b)
                           (<[step := mkWaiter (first w) (now + wait)]> (waiters b))]> q).

(** [release], with the step it wakes. *)
Definition release (key step : string) (at_ : Time) (q : branchQueue) : option string * branchQueue :=
  match q !! key with
  | None => (None, q)
  | Some b =>
      if bool_decide (holder b = step) then
        let d := sub_time at_ (since b) in
        let avg := if 0 <? d then Z.quot (i64 (i64 (4 * avgHold b) + d)) 5 else avgHold b in
        let b := mkTurn "" (since b) avg (waiters b) in
        let head := (headLocked b).1 in
        if bool_decide (head = "") then (None, delete key q) else (Some head, <[key := b]> q)
      else (None, q)
  end.

(** ** The key of a branch

    [strings.ToLower] and [strings.TrimSpace] fold Unicode; only that they are
    functions matters here. *)
Section key.
Context (ToLower TrimSpace : string → string).

Definition normalizeRepoURL (u : string) : string :=
  TrimSuffix (TrimSuffix (ToLower (TrimSpace u)) "/") ".git".

Definition OpenPRStepName : string := "open-pr".

(** The loop of [basePushBranch]: [None] when the sequence opens a pull
    request, otherwise the index of the last git-push. *)
Fixpoint last_push (seq : list string) (i : Z) (push : Z) : option Z :=
  match seq with
  | [] => Some push
  | s :: seq =>
      if bool_decide (s = OpenPRStepName) then None
      else if bool_decide (s = "git-push") then last_push seq (i + 1) i
      else last_push seq (i + 1) push
  end.

Definition basePushBranch (seq : list string) (from : Z) (repoURL branch : string) : option string :=
  match last_push seq 0 (-1) with
  | None => None
  | Some push =>
      if (push <? 0) || (push <? from) || bool_decide (repoURL = "") || bool_decide (branch = "") then None
      else Some (normalizeRepoURL repoURL +:+ "#" +:+ branch)
  end.
End key.

(** ** The queue with the release functions it handed out

    [handlePromoting] of the reconciler takes a turn for [step] and calls its
    release function once git-push is done and again when the reconcile ends;
    the [sync.Once] lets the first call through ([h_done]). *)
Record handle := mkHandle { h_key : string; h_step : string; h_done : bool }.

Record Sys := mkSys { queue : branchQueue; handles : list handle }.

Inductive op :=
  | OTry (key step : string) (now : Time) (rnd : Z → Z)
  | ORelease (i : nat) (at_ : Time).

Definition run_op (o : op) (s : Sys) : Sys :=
  match o with
  | OTry key step now rnd =>
      let '(r, q) := tryTurn key step now rnd (queue s) in
      mkSys q (match r with Granted => handles s ++ [mkHandle key step false] | Wait _ => handles s end)
  | ORelease i at_ =>
      match handles s !! i with
      | Some (mkHandle key step false) =>
          mkSys (release key step at_ (queue s)).2 (<[i := mkHandle key step true]> (handles s))
      | _ => s
      end
  end.

(** A step's key is namespace/name, never empty, and the work queue runs one
    reconcile of a step at a time: it asks only when it holds no turn. *)
Definition allowed (o : op) (s : Sys) : Prop :=
  match o with
  | OTry key step _ _ => step ≠ "" ∧ Forall (λ h, h_step h = step → h_done h = true) (handles s)
  | ORelease _ _ => True
  end.

Inductive reach : Sys → Prop :=
  | reach_init : reach (mkSys ∅ [])
  | reach_step s o : reach s → allowed o s → reach (run_op o s).

(** ** The order of the waiters *)

Lemma older_spec a b :
  older a b = true ↔ first a.2 < first b.2 ∨ (first a.2 = first b.2 ∧ str_ltb a.1 b.1 = true).
Proof. unfold older. rewrite orb_true_iff, andb_true_iff, Z.ltb_lt, Z.eqb_eq. done. Qed.

Lemma older_trans a b c : older a b = true → older b c = true → older a c = true.
Proof.
  rewrite !older_spec. intros [?|[??]] [?|[??]]; [left; lia..|]. right. split; [lia|].
  by eapply str_ltb_trans.
Qed.

Lemma older_irrefl a : older a a = false.
Proof.
  apply not_true_is_false. rewrite older_spec. intros [?|[_ E]]; [lia|].
  by rewrite str_ltb_irrefl in E.
Qed.

Lemma older_total a b : a.1 ≠ b.1 → older a b = true ∨ older b a = true.
Proof.
  intros Hne. rewrite !older_spec. destruct (str_ltb_total a.1 b.1) as [|[]]; [done|..];
    destruct (Z.lt_total (first a.2) (first b.2)) as [|[]]; auto.
Qed.

(** [oldest k w m]: [k] waits in [m] and every other waiter is younger. *)
Definition oldest (k : string) (w : waiter) (m : gmap string waiter) : Prop :=
  m !! k = Some w ∧ ∀ k' w', m !! k' = Some w' → k' ≠ k → older (k, w) (k', w') = true.

Lemma oldest_unique m k w k' w' : oldest k w m → oldest k' w' m → k = k'.
Proof.
  intros [H1 H2] [H3 H4]. destruct (decide (k = k')) as [|Hne]; [done|exfalso].
  pose proof (older_trans _ _ _ (H2 _ _ H3 ltac:(done)) (H4 _ _ H1 Hne)) as E.
  by rewrite older_irrefl in E.
Qed.

(** The fold of [headLocked] over a list of waiters with distinct, non-empty
    keys ends in the oldest. *)
Lemma head_fold l : ∀ acc,
  NoDup (l.*1) → Forall (λ kw, kw.1 ≠ "" ∧ kw.1 ≠ acc.1) l →
  let r := foldl head_step acc l in
  (r = acc ∨ r ∈ l) ∧ (acc.1 ≠ "" ∨ l ≠ [] → r.1 ≠ "") ∧
  (acc.1 = "" ∨ r = acc ∨ older r acc = true) ∧ (∀ x, x ∈ l → x = r ∨ older r x = true).
Proof.
  induction l as [|x l IH]; intros acc HN HF; simpl.
  { split_and!; [by left|naive_solver|by right; left|]. intros x Hx. by apply elem_of_nil in Hx. }
  apply NoDup_cons in HN as [Hx HN]. apply Forall_cons in HF as [[Hx1 Hx2] HF].
  assert (Hfresh : ∀ y, y ∈ l → y.1 ≠ x.1).
  { intros y Hy E. apply Hx. rewrite <-E. by apply list_elem_of_fmap_2. }
  assert (head_step acc x = if bool_decide (acc.1 = "") || older x acc then x else acc) as -> by done.
  destruct (bool_decide (acc.1 = "") || older x acc) eqn:E.
  - destruct (IH x HN) as (I1 & I2 & I3 & I4).
    { apply Forall_forall. intros y Hy. rewrite Forall_forall in HF. split; [by apply HF|by apply Hfresh]. }
    set (r := foldl head_step x l) in *. split_and!.
    + right. destruct I1 as [->|]; set_solver.
    + intros _. apply I2. by left.
    + apply orb_true_iff in E as [E|E]; [left; by apply bool_decide_eq_true in E|right].
      destruct I3 as [|[->|]]; [done|by right|]. right. by eapply older_trans.
    + intros y [->|Hy]%elem_of_cons; [|by apply I4]. destruct I3 as [|[|]]; [done|by left|by right].
  - apply orb_false_iff in E as [E1 E2]. apply bool_decide_eq_false in E1.
    destruct (IH acc HN) as (I1 & I2 & I3 & I4).
    { apply Forall_forall. intros y Hy. rewrite Forall_forall in HF. by apply HF. }
    set (r := foldl head_step acc l) in *. split_and!.
    + destruct I1; [by left|right; set_solver].
    + intros _. apply I2. by left.
    + done.
    + intros y [->|Hy]%elem_of_cons; [|by apply I4]. right.
      assert (older acc x = true) as Ha by (destruct (older_total acc x); congruence).
      destruct I3 as [|[->|]]; [done|done|by eapply older_trans].
Qed.

Definition named (m : gmap string waiter) : Prop := m !! "" = None.

Lemma headLocked_spec b :
  named (waiters b) →
  match waiters b with m => ((headLocked b).1 = "" ∧ m = ∅) ∨
    ((headLocked b).1 ≠ "" ∧ oldest (headLocked b).1 (headLocked b).2 m) end.
Proof.
  intros Hn. unfold headLocked. set (m := waiters b) in *. set (z := mkWaiter 0 0).
  destruct (head_fold (map_to_list m) ("", z)) as (I1 & I2 & _ & I4).
  - apply NoDup_fst_map_to_list.
  - apply Forall_forall. intros [k w] Hkw%elem_of_map_to_list. simpl. split; intros ->; by rewrite Hn in Hkw.
  - set (r := foldl _ _ _) in *. destruct (decide (m = ∅)) as [E|E].
    + left. split; [|done]. destruct I1 as [->|I1]; [done|]. rewrite E, map_to_list_empty in I1.
      by apply elem_of_nil in I1.
    + right. assert (r.1 ≠ "") as Hr.
      { apply I2. right. intros E'. by apply map_to_list_empty_iff in E'. }
      destruct I1 as [->|I1]; [done|]. destruct r as [k w]. simpl in *.
      apply elem_of_map_to_list in I1. split; [done|]. split; [done|].
      intros k' w' Hk' Hne. apply elem_of_map_to_list in Hk'.
      destruct (I4 _ Hk') as [|]; [congruence|done].
Qed.

Lemma headLocked_is b k w :
  named (waiters b) → oldest k w (waiters b) → (headLocked b).1 = k.
Proof.
  intros Hn Ho. destruct (headLocked_spec b Hn) as [[_ E]|[_ Ho']].
  - destruct Ho as [Ho _]. by rewrite E in Ho.
  - by eapply oldest_unique.
Qed.

(** ** Sweeping *)

(** The branch [tryTurn] works on: what the sweep left of it, or a new one. *)
Definition swept (now : Time) (key : string) (q : branchQueue) : branchTurn :=
  default (mkTurn "" 0 initialTurn ∅) (sweepLocked now q !! key).

(** The waiters of branch [key] that asked again in time. *)
Definition live_waiters (now : Time) (key : string) (q : branchQueue) : gmap string waiter :=
  filter (λ kw, ¬ (due kw.2 + waiterGrace < now)) (from_option waiters ∅ (q !! key)).

Lemma swept_spec now key q :
  holder (swept now key q) = from_option holder "" (q !! key) ∧
  waiters (swept now key q) = live_waiters now key q.
Proof.
  unfold swept, sweepLocked, live_waiters. rewrite lookup_omap.
  destruct (q !! key) as [b|]; simpl; [|by rewrite map_filter_empty].
  unfold sweep_turn. repeat case_bool_decide; simpl; auto.
Qed.

Lemma sweep_lookup now q key b' :
  sweepLocked now q !! key = Some b' →
  ∃ b, q !! key = Some b ∧ holder b' = holder b ∧
    waiters b' = filter (λ kw, ¬ (due kw.2 + waiterGrace < now)) (waiters b).
Proof.
  unfold sweepLocked. rewrite lookup_omap. intros (b & Hb & Hs)%bind_Some. exists b. split; [done|].
  unfold sweep_turn in Hs. repeat case_bool_decide; by simplify_eq/=.
Qed.

Lemma sweep_keeps_held now q key b :
  q !! key = Some b → holder b ≠ "" → ∃ b', sweepLocked now q !! key = Some b' ∧ holder b' = holder b.
Proof.
  intros Hb Hh. unfold sweepLocked. rewrite lookup_omap, Hb. simpl. unfold sweep_turn.
  rewrite bool_decide_false by done. simpl. eauto.
Qed.

Definition AllNamed (q : branchQueue) : Prop := ∀ key b, q !! key = Some b → named (waiters b).

Lemma named_filter (P : string * waiter → Prop) `{!∀ x, Decision (P x)} m : named m → named (filter P m).
Proof. intros Hm. apply map_lookup_filter_None. by left. Qed.

Lemma swept_named now key q : AllNamed q → named (waiters (swept now key q)).
Proof.
  intros HA. rewrite (proj2 (swept_spec now key q)). apply named_filter.
  destruct (q !! key) eqn:E; [by eapply HA|done].
Qed.

Lemma AllNamed_sweep now q : AllNamed q → AllNamed (sweepLocked now q).
Proof.
  intros HA key b' (b & Hb & _ & ->)%sweep_lookup. apply named_filter. by eapply HA.
Qed.

(** ** [tryTurn]: both branches *)

(** The conditions under which [step] gets the turn. *)
Definition may_take (now : Time) (key step : string) (q : branchQueue) : Prop :=
  (from_option holder "" (q !! key) = "" ∨ from_option holder "" (q !! key) = step) ∧
  (live_waiters now key q = ∅ ∨ ∃ w, oldest step w (live_waiters now key q)).

Lemma head_free now key step q :
  AllNamed q → step ≠ "" →
  ((headLocked (swept now key q)).1 = "" ∨ (headLocked (swept now key q)).1 = step) ↔
  live_waiters now key q = ∅ ∨ ∃ w, oldest step w (live_waiters now key q).
Proof.
  intros HA Hs. rewrite <-(proj2 (swept_spec now key q)).
  pose proof (headLocked_spec _ (swept_named now key q HA)) as Hh. simpl in Hh. split.
  - intros [E|E]; destruct Hh as [[E1 E2]|[E1 E2]]; try congruence; [by left|]. right. rewrite <-E. eauto.
  - intros [E|[w Ho]]; destruct Hh as [[E1 E2]|[E1 E2]]; auto.
    + destruct E2 as [E2 _]. by rewrite E in E2.
    + right. by eapply oldest_unique.
Qed.

Lemma tryTurn_cases key step now rnd q :
  AllNamed q → step ≠ "" →
  (may_take now key step q ∧
   tryTurn key step now rnd q =
     (Granted, <[key := mkTurn step now (avgHold (swept now key q)) (delete step (live_waiters now key q))]>
       (sweepLocked now q))) ∨
  (¬ may_take now key step q ∧ ∃ d w,
     w = default (mkWaiter now 0) (live_waiters now key q !! step) ∧
     d = turnJitter (Z.min (Z.max (i64 (place_of step w (live_waiters now key q) * avgHold (swept now key q)))
           minTurnWait) maxTurnWait) rnd ∧
     tryTurn key step now rnd q =
     (Wait d, <[key := mkTurn (from_option holder "" (q !! key)) (since (swept now key q))
         (avgHold (swept now key q)) (<[step := mkWaiter (first w) (now + d)]> (live_waiters now key q))]>
       (sweepLocked now q))).
Proof.
  intros HA Hs. pose proof (head_free now key step q HA Hs) as Hf.
  destruct (swept_spec now key q) as [E1 E2]. unfold may_take, tryTurn. fold (swept now key q).
  rewrite E1, E2. case_bool_decide as B1; case_bool_decide as B2; simpl.
  - left. split; [split; [done|by apply Hf]|done].
  - right. split; [|eauto]. intros [_ H]. by apply Hf in H.
  - right. split; [|eauto]. by intros [H _].
  - right. split; [|eauto]. by intros [H _].
Qed.

(** ** The invariant of the queue and its release functions *)

Record Inv (s : Sys) : Prop := {
  i_named : AllNamed (queue s);
  i_live : ∀ i h, handles s !! i = Some h → h_done h = false → h_step h ≠ "" ∧
             ∃ b, queue s !! h_key h = Some b ∧ holder b = h_step h;
  i_uniq : ∀ i j h h', handles s !! i = Some h → handles s !! j = Some h' →
             h_done h = false → h_done h' = false → h_key h = h_key h' → i = j
}.

Lemma AllNamed_insert q key b : AllNamed q → named (waiters b) → AllNamed (<[key := b]> q).
Proof. intros HA Hb k b'. rewrite lookup_insert. case_decide; [intros [= <-]; done|apply HA]. Qed.

Lemma tryTurn_named key step now rnd q :
  AllNamed q → step ≠ "" → AllNamed (tryTurn key step now rnd q).2.
Proof.
  intros HA Hs. pose proof (swept_named now key q HA) as Hn. rewrite (proj2 (swept_spec now key q)) in Hn.
  destruct (tryTurn_cases key step now rnd q HA Hs) as [[_ ->]|(_ & d & w & _ & _ & ->)]; simpl;
    apply AllNamed_insert; try by apply AllNamed_sweep.
  - simpl. unfold named. apply lookup_delete_None. by right.
  - simpl. unfold named. by rewrite lookup_insert_ne.
Qed.

(** A branch somebody holds keeps its holder through [tryTurn]. *)
Lemma tryTurn_keeps_held key step now rnd q key' b :
  AllNamed q → step ≠ "" → q !! key' = Some b → holder b ≠ "" → (key' ≠ key ∨ holder b ≠ step) →
  ∃ b', (tryTurn key step now rnd q).2 !! key' = Some b' ∧ holder b' = holder b.
Proof.
  intros HA Hs Hb Hh Hne. destruct (sweep_keeps_held now q key' b Hb Hh) as (b' & Hb' & E).
  destruct (tryTurn_cases key step now rnd q HA Hs) as [[[Hf _] ->]|(_ & d & w & _ & _ & ->)]; simpl;
    rewrite lookup_insert; case_decide as Ek; eauto; subst.
  - rewrite Hb in Hf. simpl in Hf. naive_solver.
  - eexists. split; [done|]. simpl. by rewrite Hb.
Qed.

Lemma release_named key step at_ q : AllNamed q → AllNamed (release key step at_ q).2.
Proof.
  intros HA. unfold release. destruct (q !! key) as [b|] eqn:E; [|done]. case_bool_decide; [|done].
  case_bool_decide; simpl.
  - intros k b' [_ Hk]%lookup_delete_Some. by eapply HA.
  - apply AllNamed_insert; [done|]. simpl. by eapply HA.
Qed.

Lemma release_other key step at_ q key' :
  key' ≠ key → (release key step at_ q).2 !! key' = q !! key'.
Proof.
  intros Hne. unfold release. destruct (q !! key) as [b|]; [|done]. case_bool_decide; [|done].
  case_bool_decide; simpl; by rewrite ?lookup_delete_ne, ?lookup_insert_ne by done.
Qed.

Lemma OTry_inv key step now rnd s :
  Inv s → allowed (OTry key step now rnd) s → Inv (run_op (OTry key step now rnd) s).
Proof.
  intros [HA HL HU] [Hs Hf]. pose proof (tryTurn_named key step now rnd _ HA Hs) as HA'.
  assert (∀ i h, handles s !! i = Some h → h_done h = false →
    h_step h ≠ "" ∧ ∃ b, (tryTurn key step now rnd (queue s)).2 !! h_key h = Some b ∧ holder b = h_step h) as HL'.
  { intros i h Hi Hd. destruct (HL i h Hi Hd) as (Hne & b & Hb & Eb). split; [done|]. rewrite <-Eb.
    apply (tryTurn_keeps_held key step now rnd _ _ b); [done|done|done|congruence|]. right.
    rewrite Forall_lookup in Hf. specialize (Hf i h Hi). intros E. rewrite Hf in Hd; [done|congruence]. }
  simpl. destruct (tryTurn_cases key step now rnd (queue s) HA Hs) as [[[Hfree _] E]|(_ & d & w & _ & _ & E)];
    rewrite E in *; simpl in *; [|by split].
  assert (∀ i h, handles s !! i = Some h → h_done h = false → h_key h ≠ key) as Hnone.
  { intros i h Hi Hd <-. destruct (HL i h Hi Hd) as (Hne & b & Hb & Eb). rewrite Hb in Hfree. simpl in Hfree.
    rewrite Forall_lookup in Hf. specialize (Hf i h Hi). destruct Hfree as [|]; [congruence|].
    rewrite Hf in Hd; [done|congruence]. }
  split; [done| |].
  - simpl. intros i h [[_ Hi]|[-> <-]]%lookup_snoc_Some Hd; [by eapply HL'|]. simpl. split; [done|].
    eexists. rewrite lookup_insert_eq. by split.
  - simpl. intros i j h h' [[_ Hi]|[-> <-]]%lookup_snoc_Some [[_ Hj]|[-> <-]]%lookup_snoc_Some Hd Hd' Ek; [eauto|..|done].
    + by destruct (Hnone _ _ Hi Hd).
    + by destruct (Hnone _ _ Hj Hd').
Qed.

Lemma ORelease_inv i at_ s : Inv s → Inv (run_op (ORelease i at_) s).
Proof.
  intros [HA HL HU]. simpl. destruct (handles s !! i) as [[key step []]|] eqn:Hi; try by split.
  assert (∀ j h, <[i := mkHandle key step true]> (handles s) !! j = Some h → h_done h = false →
    handles s !! j = Some h ∧ j ≠ i) as Hup.
  { intros j h Hj Hd. apply list_lookup_insert_Some in Hj as [(<- & <- & _)|[? Hj]]; [done|]. by split. }
  split; simpl.
  - by apply release_named.
  - intros j h Hj Hd. destruct (Hup j h Hj Hd) as [Hj' Hne]. destruct (HL j h Hj' Hd) as (Hs & b & Hb & E).
    split; [done|]. exists b. rewrite release_other; [done|]. intros Ek.
    destruct Hne. by apply (HU j i h (mkHandle key step false)).
  - intros j k h h' Hj Hk Hd Hd' Ek. destruct (Hup j h Hj Hd) as [Hj' _].
    destruct (Hup k h' Hk Hd') as [Hk' _]. by eapply HU.
Qed.

Lemma turns_reach_inv s : reach s → Inv s.
Proof.
  induction 1 as [|s o _ IH Ho]; [by split; [intros ? ?|..]|].
  destruct o; [by apply OTry_inv|by apply ORelease_inv].
Qed.

(** ** A reserved turn *)

(** Nobody holds branch [key] and [h], with its place [w], is first in line. *)
Definition Reserved (key h : string) (w : waiter) (q : branchQueue) : Prop :=
  AllNamed q ∧ h ≠ "" ∧ ∃ b, q !! key = Some b ∧ holder b = "" ∧ oldest h w (waiters b).

(** An ask of another step, while [h] may still come back. *)
Definition in_time (key h : string) (w : waiter) (o : string * string * Time * (Z → Z)) : Prop :=
  let '(key', step, now, _) := o in
  step ≠ "" ∧ (key' = key → step ≠ h) ∧ first w < now ≤ due w + waiterGrace.

Definition ask (o : string * string * Time * (Z → Z)) (q : branchQueue) : turn * branchQueue :=
  let '(key, step, now, rnd) := o in tryTurn key step now rnd q.

Lemma oldest_live now key h w q b :
  q !! key = Some b → oldest h w (waiters b) → now ≤ due w + waiterGrace →
  oldest h w (live_waiters now key q).
Proof.
  intros Hb [H1 H2] Hn. unfold live_waiters. rewrite Hb. simpl. split.
  - apply map_lookup_filter_Some. split; [done|]. simpl. lia.
  - intros k' w' [Hk' _]%map_lookup_filter_Some. by apply H2.
Qed.

Lemma Reserved_ask key h w o q :
  Reserved key h w q → in_time key h w o → Reserved key h w (ask o q).2 ∧
    (o.1.1.1 = key → (ask o q).1 ≠ Granted).
Proof.
  destruct o as [[[key' step] now] rnd]. simpl. intros (HA & Hh & b & Hb & Eb & Ho) (Hs & Hne & Hlt & Hle).
  pose proof (oldest_live now _ _ _ _ _ Hb Ho Hle) as Hol.
  pose proof (tryTurn_named key' step now rnd q HA Hs) as HA'.
  destruct (decide (key' = key)) as [->|Hk].
  - destruct (tryTurn_cases key step now rnd q HA Hs) as [[[_ [E|[w' Ho']]] _]|(_ & d & w' & Ew & _ & E)].
    + destruct Hol as [Hol _]. by rewrite E in Hol.
    + destruct Hne; [done|]. by eapply oldest_unique.
    + rewrite E in *. simpl in *. split; [|done]. split_and!; [done|done|].
      eexists. rewrite lookup_insert_eq. split_and!; [done|simpl; by rewrite Hb|]. simpl. split.
      * rewrite lookup_insert_ne by naive_solver. apply Hol.
      * intros k' wk. rewrite lookup_insert. case_decide; [|apply Hol]. intros [= <-] _. subst.
        destruct (live_waiters now key q !! k') as [w0|] eqn:E0; simpl; apply older_spec; simpl; [|lia].
        destruct Hol as [_ Hol]. specialize (Hol k' w0 E0). rewrite older_spec in Hol. simpl in Hol. naive_solver.
  - split; [|done]. split_and!; [done|done|].
    assert ((tryTurn key' step now rnd q).2 !! key = sweepLocked now q !! key) as ->.
    { destruct (tryTurn_cases key' step now rnd q HA Hs) as [[_ ->]|(_ & ? & ? & _ & _ & ->)];
        simpl; by rewrite lookup_insert_ne. }
    unfold sweepLocked. rewrite lookup_omap, Hb. simpl. unfold sweep_turn.
    unfold live_waiters in Hol. rewrite Hb in Hol. simpl in Hol.
    rewrite (bool_decide_false (_ = ∅)), andb_false_r; [by eauto|].
    intros E. rewrite E in Hol. by destruct Hol.
Qed.

Definition ask_all (os : list (string * string * Time * (Z → Z))) (q : branchQueue) : branchQueue :=
  foldl (λ q o, (ask o q).2) q os.

Lemma Reserved_ask_all key h w os : ∀ q,
  Reserved key h w q → Forall (in_time key h w) os → Reserved key h w (ask_all os q).
Proof.
  induction os as [|o os IH]; intros q HR HF; [done|]. apply Forall_cons in HF as [Ho HF].
  apply IH; [|done]. by apply Reserved_ask.
Qed.

Lemma Reserved_take key h w now rnd q :
  Reserved key h w q → now ≤ due w + waiterGrace → (tryTurn key h now rnd q).1 = Granted.
Proof.
  intros (HA & Hh & b & Hb & Eb & Ho) Hle. pose proof (oldest_live now _ _ _ _ _ Hb Ho Hle) as Hol.
  destruct (tryTurn_cases key h now rnd q HA Hh) as [[_ ->]|(Hn & _)]; [done|].
  destruct Hn. split; [rewrite Hb; by left|by right; eauto].
Qed.

Lemma release_wakes key step at_ q h :
  AllNamed q → (release key step at_ q).1 = Some h →
  ∃ w, Reserved key h w (release key step at_ q).2.
Proof.
  intros HA. pose proof (release_named key step at_ q HA) as HA'. revert HA'. unfold release.
  destruct (q !! key) as [b|] eqn:Hb; [|done]. case_bool_decide; [|done].
  set (b' := mkTurn _ _ _ _). destruct (headLocked_spec b') as [[E _]|[E Ho]]; [exact (HA _ _ Hb)|..].
  - by rewrite bool_decide_true.
  - rewrite bool_decide_false by done. simpl. intros HA' [= <-].
    exists (headLocked b').2. split_and!; [done|done|]. exists b'. by rewrite lookup_insert_eq.
Qed.

Lemma turnJitter_bounds rnd d :
  Int64N_ok rnd → minTurnWait ≤ d ≤ maxTurnWait →
  240 * millisecond ≤ turnJitter d rnd ≤ 18 * second.
Proof.
  unfold turnJitter, minTurnWait, maxTurnWait, millisecond, second. intros Hr Hd.
  rewrite Z.quot_div_nonneg by lia. pose proof (Z.div_mod d 5 ltac:(lia)). pose proof (Z.mod_pos_bound d 5 ltac:(lia)).
  specialize (Hr (2 * (d / 5) + 1) ltac:(lia)). lia.
Qed.

Lemma last_push_spec seq : ∀ i push r, 0 ≤ i →
  (last_push seq i push = Some r) ↔
  (OpenPRStepName ∉ seq) ∧
  ((r = push ∧ "git-push" ∉ seq) ∨
   ∃ n, seq !! n = Some "git-push" ∧ r = i + Z.of_nat n ∧
     ∀ m, (n < m)%nat → seq !! m ≠ Some "git-push").
Proof.
  induction seq as [|x seq IH]; intros i push r Hi; simpl.
  - split; [intros [= <-]; split; [set_solver|left; split; [done|set_solver]]|].
    intros [_ [[-> _]|(n & Hn & _)]]; [done|]. by rewrite lookup_nil in Hn.
  - case_bool_decide as E1.
    { split; [done|]. intros [H _]. set_solver. }
    case_bool_decide as E2; rewrite IH by lia; rewrite not_elem_of_cons.
    + split.
      * intros [H1 [[-> H2]|(n & Hn & -> & Hl)]]; (split; [split; congruence|right]).
        -- exists 0%nat. simpl. split_and!; [congruence|lia|]. intros [|m] Hm; [lia|]. simpl. intros Em.
           apply H2. by eapply list_elem_of_lookup_2.
        -- exists (S n). simpl. split_and!; [done|lia|]. intros [|m] Hm; [lia|]. simpl. apply Hl. lia.
      * intros [[_ H1] [[_ H2]|(n & Hn & -> & Hl)]]; [set_solver|]. split; [done|].
        destruct n as [|n]; simpl in *.
        -- left. split; [lia|]. intros [m Hm]%list_elem_of_lookup_1. by apply (Hl (S m)); [lia|].
        -- right. exists n. split_and!; [done|lia|]. intros m Hm. apply (Hl (S m)). lia.
    + split.
      * intros [H1 [[-> H2]|(n & Hn & -> & Hl)]]; (split; [split; congruence|]).
        -- left. split; [done|set_solver].
        -- right. exists (S n). simpl. split_and!; [done|lia|]. intros [|m] Hm; [lia|]. simpl. apply Hl. lia.
      * intros [[_ H1] [[-> H2]|(n & Hn & -> & Hl)]]; (split; [done|]); [left; set_solver|].
        right. destruct n as [|n]; simpl in *; [congruence|].
        exists n. split_and!; [done|lia|]. intros m Hm. apply (Hl (S m)). lia.
Qed.

Lemma last_push_None seq : ∀ i push, last_push seq i push = None → OpenPRStepName ∈ seq.
Proof.
  induction seq as [|x seq IH]; intros i push; simpl; [done|].
  repeat case_bool_decide; subst; [by left|..]; intros E%IH; by right.
Qed.

(** ** Properties *)

(** C36. Turns are exclusive: in every reachable state at most one release
    function of a branch has not run, and its step is the branch's holder. *)
Theorem turn_exclusive s i h :
  reach s → handles s !! i = Some h → h_done h = false →
  (∃ b, queue s !! h_key h = Some b ∧ holder b = h_step h) ∧
  ∀ j h', handles s !! j = Some h' → h_done h' = false → h_key h' = h_key h → j = i.
Proof.
  intros [HA HL HU]%turns_reach_inv Hi Hd. split; [by apply (HL i h)|]. intros j h' Hj Hd' E. by eapply HU.
Qed.

(** Two steps ask for the turn of one branch; the first gets it. *)
Definition demo : Sys :=
  run_op (OTry "r#main" "a/2" 5 (λ _, 0)) (run_op (OTry "r#main" "a/1" 0 (λ _, 0)) (mkSys ∅ [])).

Lemma demo_reach : reach demo.
Proof. repeat constructor; done. Qed.

Lemma turn_exclusive_witness :
  handles demo !! 0%nat = Some (mkHandle "r#main" "a/1" false) ∧
  ∀ j h', handles demo !! j = Some h' → h_done h' = false → h_key h' = "r#main" → j = 0%nat.
Proof.
  split; [by vm_compute|].
  apply (turn_exclusive demo 0 (mkHandle "r#main" "a/1" false)); [apply demo_reach|by vm_compute|done].
Defined.

(** [tryTurn] answers exactly: the turn is given when nobody else holds
    the branch and no live waiter is older, and only then. *)
Theorem tryTurn_oldest_first s key step now rnd :
  reach s → step ≠ "" →
  (tryTurn key step now rnd (queue s)).1 = Granted ↔
  (∀ b, queue s !! key = Some b → holder b = "" ∨ holder b = step) ∧
  (live_waiters now key (queue s) = ∅ ∨ ∃ w, oldest step w (live_waiters now key (queue s))).
Proof.
  intros [HA _ _]%turns_reach_inv Hs.
  assert (may_take now key step (queue s) ↔ (∀ b, queue s !! key = Some b → holder b = "" ∨ holder b = step) ∧
    (live_waiters now key (queue s) = ∅ ∨ ∃ w, oldest step w (live_waiters now key (queue s)))) as Hm.
  { unfold may_take. destruct (queue s !! key) as [b|]; simpl; [naive_solver|].
    split; [intros [_ ?]; by split|intros [_ ?]; split; auto]. }
  destruct (tryTurn_cases key step now rnd (queue s) HA Hs) as [[H ->]|(H & d & w & _ & _ & ->)]; simpl;
    rewrite <-Hm; naive_solver.
Qed.

Lemma tryTurn_oldest_first_witness :
  (tryTurn "r#main" "a/3" 7 (λ _, 0) (queue demo)).1 = Granted ↔
  (∀ b, queue demo !! "r#main" = Some b → holder b = "" ∨ holder b = "a/3") ∧
  (live_waiters 7 "r#main" (queue demo) = ∅ ∨ ∃ w, oldest "a/3" w (live_waiters 7 "r#main" (queue demo))).
Proof. apply tryTurn_oldest_first; [apply demo_reach|done]. Defined.

(** A refused step keeps its place and a bounded wait: it is told to ask
    again after 240 ms to 18 s (the jitter included), and it stays in line
    with the time of its first refusal. *)
Theorem refused_keeps_place s key step now rnd d q' :
  reach s → step ≠ "" → Int64N_ok rnd → tryTurn key step now rnd (queue s) = (Wait d, q') →
  240 * millisecond ≤ d ≤ 18 * second ∧
  ∃ b, q' !! key = Some b ∧
    waiters b !! step = Some (mkWaiter (from_option first now (live_waiters now key (queue s) !! step)) (now + d)).
Proof.
  intros [HA _ _]%turns_reach_inv Hs Hr E.
  destruct (tryTurn_cases key step now rnd (queue s) HA Hs) as [[_ E']|(_ & d' & w & Ew & Ed & E')];
    rewrite E' in E; simplify_eq. split.
  - apply turnJitter_bounds; [done|]. unfold minTurnWait, maxTurnWait, millisecond, second. lia.
  - eexists. rewrite lookup_insert_eq. split; [done|]. simpl. rewrite lookup_insert_eq.
    by destruct (live_waiters now key (queue s) !! step).
Qed.

Lemma refused_keeps_place_witness :
  ∃ d q', tryTurn "r#main" "a/2" 9 (λ _, 0) (queue demo) = (Wait d, q') ∧
  240 * millisecond ≤ d ≤ 18 * second.
Proof.
  do 2 eexists. split; [by vm_compute|].
  eapply (refused_keeps_place demo "r#main" "a/2" 9 (λ _, 0)); [apply demo_reach|done| |by vm_compute].
  intros n Hn. lia.
Defined.

(** The turn a release ends is reserved for the waiter it wakes: whatever
    other steps ask in the meantime, of this and of other branches, while that
    waiter may still come back, none gets the branch, and the woken step gets
    it when it asks. *)
Theorem woken_waiter_gets_turn s key step at_ h :
  reach s → (release key step at_ (queue s)).1 = Some h →
  ∃ w, ∀ os now rnd, Forall (in_time key h w) os → now ≤ due w + waiterGrace →
    let q := ask_all os (release key step at_ (queue s)).2 in
    (∀ o, in_time key h w o → o.1.1.1 = key → (ask o q).1 ≠ Granted) ∧
    (tryTurn key h now rnd q).1 = Granted.
Proof.
  intros [HA _ _]%turns_reach_inv Hw. destruct (release_wakes key step at_ _ h HA Hw) as (w & HR).
  exists w. intros os now rnd HF Hn q. pose proof (Reserved_ask_all _ _ _ _ _ HR HF) as HR'. split.
  - intros o Ho Ek. by eapply Reserved_ask.
  - by eapply Reserved_take.
Qed.

Lemma woken_waiter_gets_turn_witness :
  (release "r#main" "a/1" 8 (queue demo)).1 = Some "a/2" ∧
  ∃ w, ∀ os now rnd, Forall (in_time "r#main" "a/2" w) os → now ≤ due w + waiterGrace →
    let q := ask_all os (release "r#main" "a/1" 8 (queue demo)).2 in
    (∀ o, in_time "r#main" "a/2" w o → o.1.1.1 = "r#main" → (ask o q).1 ≠ Granted) ∧
    (tryTurn "r#main" "a/2" now rnd q).1 = Granted.
Proof.
  split; [by vm_compute|].
  apply (woken_waiter_gets_turn demo "r#main" "a/1" 8 "a/2"); [apply demo_reach|by vm_compute].
Defined.

(** Only a promotion that still has to push to its base branch takes a
    turn: the sequence opens no pull request, names a repository and a branch,
    and runs git-push at or after the step it resumes from. *)
Theorem basePushBranch_iff ToLower TrimSpace seq from repoURL branch key :
  0 ≤ from →
  basePushBranch ToLower TrimSpace seq from repoURL branch = Some key ↔
  (OpenPRStepName ∉ seq) ∧ repoURL ≠ "" ∧ branch ≠ "" ∧
  key = normalizeRepoURL ToLower TrimSpace repoURL +:+ "#" +:+ branch ∧
  ∃ i, from ≤ Z.of_nat i ∧ seq !! i = Some "git-push".
Proof.
  intros Hf. unfold basePushBranch. destruct (last_push seq 0 (-1)) as [push|] eqn:E.
  2: { split; [done|]. intros [H1 _]. by apply last_push_None in E. }
  apply last_push_spec in E as [H1 [[-> H2]|(n & Hn & -> & Hl)]]; [..|lia].
  { split; [done|]. intros (_ & _ & _ & _ & i & _ & Hi). destruct H2. by eapply list_elem_of_lookup_2. }
  rewrite Z.add_0_l, (proj2 (Z.ltb_ge (Z.of_nat n) 0)) by lia. rewrite orb_false_l.
  destruct (Z.ltb_spec (Z.of_nat n) from); rewrite ?orb_true_l, ?orb_false_l.
  - split; [done|]. intros (_ & _ & _ & _ & i & Hi & Ei).
    destruct (decide (n < i)%nat) as [Hlt|]; [by destruct (Hl i Hlt)|lia].
  - repeat case_bool_decide; simpl; (split; [try done; intros [= <-]|naive_solver]).
    split_and!; [done..|]. by exists n.
Qed.

Lemma basePushBranch_iff_witness :
  basePushBranch id id ["git-clone"; "git-push"] 1 "https://h/r.git" "main" = Some "https://h/r#main" ↔
  (OpenPRStepName ∉ ["git-clone"; "git-push"]) ∧ "https://h/r.git" ≠ "" ∧ "main" ≠ "" ∧
  "https://h/r#main" = normalizeRepoURL id id "https://h/r.git" +:+ "#" +:+ "main" ∧
  ∃ i, 1 ≤ Z.of_nat i ∧ ["git-clone"; "git-push"] !! i = Some "git-push".
Proof. apply basePushBranch_iff. lia. Defined.


End BranchQueue.
