(* ===== verification/Topo.v ===== *)
(** * Topo: the topological sort of the environments

    Model of [topoSort] and [findCycle] of src/pkg/graph/builder.go: Kahn's
    algorithm over the indices of the sorted names, and the walk that names a
    cycle when it fails.  [nodes] is the Go map used as a set; [deps] maps an
    environment to the environments it depends on. *)

From stdpp Require Import base gmap strings list sorting.
From Stdlib Require Import Lia ZArith.
From S2P Require Import Prelude.

Open Scope Z_scope.

Module Topo.

Abbreviation Deps := (gmap string (list string)) (only parsing).

(** [deps[n]]: nil when missing. *)
Definition deps_of (deps : Deps) (n : string) : list string := default [] (deps !! n).

(** [names], the sorted nodes, and [idx]. *)
Definition node_names (nodes : gset string) : list string := sort_by str_ltb (elements nodes).

Definition idx (names : list string) (n : string) : option nat := fst <$> list_find (n =.) names.

(** The edges of the two nested loops, as (upstream, environment) indices, in
    the order the loops meet them. *)
Definition edges (names : list string) (deps : Deps) : list (nat * nat) :=
  mjoin ((λ p, match idx names p.1 with
               | None => []
               | Some ni => omap (λ d, (λ di, (di, ni)) <$> idx names d) p.2
               end) <$> map_to_list deps).

(** [inDegree] and [dependents]. *)
Record counts := mkCounts { inDegree : list Z; dependents : list (list nat) }.

Definition add_edge (c : counts) (e : nat * nat) : counts :=
  mkCounts (alter (λ v, v + 1) e.2 (inDegree c)) (alter (λ l, l ++ [e.2]) e.1 (dependents c)).

Definition count_edges (n : nat) (es : list (nat * nat)) : counts :=
  foldl add_edge (mkCounts (replicate n 0) (replicate n [])) es.

(** The inner loop of the queue: one dependent loses an upstream. *)
Definition visit (s : list Z * list nat) (d : nat) : list Z * list nat :=
  let v := default 0 (s.1 !! d) - 1 in
  (<[d := v]> s.1, if v =? 0 then s.2 ++ [d] else s.2).

Fixpoint kahn (fuel : nat) (names : list string) (dependents : list (list nat))
    (inDeg : list Z) (queue : list nat) (sorted : list string) : list string :=
  match fuel with
  | O => sorted
  | S fuel =>
      match queue with
      | [] => sorted
      | n :: queue =>
          let next := sort_by Nat.ltb (default [] (dependents !! n)) in
          let '(inDeg, queue) := foldl visit (inDeg, queue) next in
          kahn fuel names dependents inDeg queue (sorted ++ [default "" (names !! n)])
      end
  end.

(** [findCycle]: the walk follows the first unsorted upstream until it comes
    back to the path. *)
Fixpoint cycle_walk (fuel : nat) (deps : Deps) (sortedSet : gset string)
    (pos : gmap string nat) (path : list string) : option (list string) :=
  match fuel with
  | O => None
  | S fuel =>
      let current := default "" (last path) in
      let pos := <[current := (length path - 1)%nat]> pos in
      match list_find (λ dep, dep ∉ sortedSet) (deps_of deps current) with
      | None => Some (path ++ take 1 path)
      | Some (_, next) =>
          if bool_decide (next = "") then Some (path ++ take 1 path)
          else match pos !! next with
               | Some at_ => Some (drop at_ path ++ [next])
               | None => cycle_walk fuel deps sortedSet pos (path ++ [next])
               end
      end
  end.

Definition findCycle (nodes : gset string) (deps : Deps) (sorted : list string) : list string :=
  let sortedSet := list_to_set sorted : gset string in
  match sort_by str_ltb (filter (λ n, n ∉ sortedSet) (elements nodes)) with
  | [] => []
  | start :: rest =>
      default [] (cycle_walk (S (length rest)) deps sortedSet ∅ [start])
  end.

(** [topoSort]: the sorted names and no cycle, or a cycle. *)
Definition topoSort (nodes : gset string) (deps : Deps) : list string * list string :=
  let names := node_names nodes in
  let c := count_edges (length names) (edges names deps) in
  let queue := filter (λ i, inDegree c !! i = Some 0) (seq 0 (length names)) in
  let sorted := kahn (length names) names (dependents c) (inDegree c) queue [] in
  if bool_decide (length sorted = size nodes) then (sorted, [])
  else ([], findCycle nodes deps sorted).

Example topo_small :
  topoSort {["prod"; "test"; "uat"]} (<["prod" := ["uat"]]> (<["uat" := ["test"]]> (<["test" := []]> ∅)))
  = (["test"; "uat"; "prod"], []).
Proof. by vm_compute. Qed.

Example topo_cycle :
  topoSort {["prod"; "test"; "uat"]} (<["prod" := ["uat"]]> (<["uat" := ["test"; "prod"]]> (<["test" := []]> ∅)))
  = ([], ["prod"; "uat"; "prod"]).
Proof. by vm_compute. Qed.

(** ** Counting the edges *)

Lemma count_edges_spec n es :
  Forall (λ e, e.1 < n ∧ e.2 < n)%nat es →
  let c := count_edges n es in
  length (inDegree c) = n ∧ length (dependents c) = n ∧
  (∀ i, (i < n)%nat → inDegree c !! i = Some (Z.of_nat (length (filter (λ e, e.2 = i) es)))) ∧
  (∀ d, (d < n)%nat → dependents c !! d = Some ((filter (λ e, e.1 = d) es).*2)).
Proof.
  unfold count_edges. induction es as [|e es IH] using rev_ind; intros HF; simpl.
  { rewrite !length_replicate. split_and!; [done|done|..]; intros i Hi; by rewrite lookup_replicate_2. }
  apply Forall_app in HF as [HF He]. apply Forall_singleton in He as [He1 He2].
  rewrite foldl_snoc. specialize (IH HF). simpl in IH.
  set (c := foldl add_edge _ es) in *. destruct IH as (L1 & L2 & I1 & I2).
  unfold add_edge; simpl. rewrite !length_alter. split_and!; [done|done|..].
  - intros i Hi. rewrite filter_app, length_app, filter_cons, filter_nil.
    destruct (decide (e.2 = i)) as [->|Hne].
    + rewrite list_lookup_alter_eq, I1 by done. simpl. f_equal. lia.
    + rewrite list_lookup_alter_ne, I1 by done. f_equal. simpl. lia.
  - intros d Hd. rewrite filter_app, fmap_app, filter_cons, filter_nil.
    destruct (decide (e.1 = d)) as [->|Hne].
    + by rewrite list_lookup_alter_eq, I2.
    + by rewrite list_lookup_alter_ne, I2, app_nil_r.
Qed.

(** ** The queue loop *)

(** Occurrences of [i]. *)
Definition occ (i : nat) (l : list nat) : nat := length (filter (λ j, j = i) l).

Lemma occ_cons i j l : occ i (j :: l) = ((if decide (j = i) then 1 else 0) + occ i l)%nat.
Proof. unfold occ. rewrite filter_cons. by case_decide. Qed.

Lemma occ_perm i l l' : l ≡ₚ l' → occ i l = occ i l'.
Proof. intros H. unfold occ. by rewrite H. Qed.

(** The inner loop with [J] still to visit: a node's count is [c] without the
    upstream just sorted, plus its visits left; a node is sorted or queued
    exactly when its count is zero. *)
Record VInv (n : nat) (pre : list nat) (c : nat → nat) (J : list nat) (inDeg : list Z) (queue : list nat) : Prop := {
  v_len : length inDeg = n;
  v_J : Forall (λ j, j < n)%nat J;
  v_deg : ∀ i, (i < n)%nat → inDeg !! i = Some (Z.of_nat (c i + occ i J));
  v_nodup : NoDup (pre ++ queue);
  v_zero : ∀ i, i ∈ pre ++ queue ↔ inDeg !! i = Some 0
}.

Lemma visit_inv n pre c j J inDeg queue :
  VInv n pre c (j :: J) inDeg queue →
  VInv n pre c J (visit (inDeg, queue) j).1 (visit (inDeg, queue) j).2.
Proof.
  intros [L HJ HD HN HZ]. apply Forall_cons in HJ as [Hj HJ].
  assert (Hjd : inDeg !! j = Some (Z.of_nat (c j + S (occ j J)))).
  { rewrite HD by done. rewrite occ_cons, decide_True by done. done. }
  assert (Hnj : j ∉ pre ++ queue) by (rewrite HZ, Hjd; intros [= E]; lia).
  unfold visit. simpl. rewrite Hjd. simpl default.
  replace (Z.of_nat (c j + S (occ j J)) - 1) with (Z.of_nat (c j + occ j J)) by lia.
  set (v := Z.of_nat (c j + occ j J)).
  assert (HD' : ∀ i, (i < n)%nat → <[j := v]> inDeg !! i = Some (Z.of_nat (c i + occ i J))).
  { intros i Hi. destruct (decide (j = i)) as [->|Hne].
    - by rewrite list_lookup_insert_eq by lia.
    - rewrite list_lookup_insert_ne, HD, occ_cons, decide_False by done. done. }
  assert (HZ' : ∀ i, i ∈ pre ++ queue ↔ i ≠ j ∧ <[j := v]> inDeg !! i = Some 0).
  { intros i. destruct (decide (i = j)) as [->|Hne]; [naive_solver|].
    rewrite list_lookup_insert_ne by done. rewrite HZ. naive_solver. }
  split; [by rewrite length_insert|done|done|..].
  - destruct (v =? 0); [|done]. rewrite app_assoc. apply NoDup_app. split_and!; [done| |apply NoDup_singleton].
    intros x Hx Hx'. apply list_elem_of_singleton in Hx'. by subst.
  - intros i. destruct (Z.eqb_spec v 0) as [E|E].
    + rewrite app_assoc, elem_of_app, HZ', list_elem_of_singleton.
      destruct (decide (i = j)) as [->|]; [|naive_solver]. rewrite list_lookup_insert_eq by lia.
      split; [intros _; by rewrite E|by right].
    + rewrite HZ'. split; [naive_solver|]. intros H. split; [|done]. intros ->.
      rewrite list_lookup_insert_eq in H by lia. congruence.
Qed.

Lemma visits_inv n pre c J : ∀ inDeg queue,
  VInv n pre c J inDeg queue →
  VInv n pre c [] (foldl visit (inDeg, queue) J).1 (foldl visit (inDeg, queue) J).2.
Proof.
  induction J as [|j J IH]; intros inDeg queue HV; simpl; [done|].
  apply visit_inv in HV. destruct (visit (inDeg, queue) j) as [d q]. by apply IH.
Qed.

(** Edges into [i] from nodes not sorted yet. *)
Definition pending (es : list (nat * nat)) (done_ : list nat) (i : nat) : nat :=
  length (filter (λ e, e.2 = i ∧ e.1 ∉ done_) es).

Record KInv (n : nat) (es : list (nat * nat)) (done_ : list nat) (inDeg : list Z) (queue : list nat) : Prop := {
  k_len : length inDeg = n;
  k_deg : ∀ i, (i < n)%nat → inDeg !! i = Some (Z.of_nat (pending es done_ i));
  k_nodup : NoDup (done_ ++ queue);
  k_zero : ∀ i, i ∈ done_ ++ queue ↔ inDeg !! i = Some 0;
  k_order : ∀ d i l1 l2, (d, i) ∈ es → done_ = l1 ++ i :: l2 → d ∈ l1
}.

Lemma pending_0 es done_ d i : pending es done_ i = 0%nat → (d, i) ∈ es → d ∈ done_.
Proof.
  unfold pending. intros H He. apply length_zero_iff_nil in H. destruct (decide (d ∈ done_)) as [|Hd]; [done|].
  assert ((d, i) ∈ filter (λ e, e.2 = i ∧ e.1 ∉ done_) es) as Hin by (apply list_elem_of_filter; by split).
  rewrite H in Hin. by apply elem_of_nil in Hin.
Qed.

(** Sorting [x] takes its edges off the pending ones. *)
Lemma pending_snoc es done_ x i :
  x ∉ done_ →
  pending es done_ i = (pending es (done_ ++ [x]) i + occ i ((filter (λ e, e.1 = x) es).*2))%nat.
Proof.
  intros Hx. unfold pending. induction es as [|[d j] es IH]; [done|].
  rewrite !filter_cons. simpl.
  assert (d ∈ done_ ++ [x] ↔ d ∈ done_ ∨ d = x) as Hd by set_solver.
  destruct (decide (d = x)) as [->|Hne].
  - rewrite fmap_cons, occ_cons. simpl.
    destruct (decide (j = i)) as [->|]; repeat case_decide; simpl in *; naive_solver lia.
  - repeat case_decide; simpl in *; naive_solver lia.
Qed.

Lemma KInv_init n es :
  Forall (λ e, e.1 < n ∧ e.2 < n)%nat es →
  let c := count_edges n es in
  KInv n es [] (inDegree c) (filter (λ i, inDegree c !! i = Some 0) (seq 0 n)).
Proof.
  intros HF c. destruct (count_edges_spec n es HF) as (L1 & _ & I1 & _). fold c in L1, I1.
  split; [done|..].
  - intros i Hi. rewrite I1 by done. do 2 f_equal. unfold pending. f_equal. apply list_filter_iff. intros e. set_solver.
  - simpl. apply NoDup_filter, NoDup_seq.
  - intros i. simpl. rewrite list_elem_of_filter, elem_of_seq. split; [naive_solver|].
    intros H. split; [done|]. apply lookup_lt_Some in H. lia.
  - intros d i l1 l2 _ E. by destruct l1.
Qed.

Lemma KInv_step n es done_ inDeg x queue :
  Forall (λ e, e.1 < n ∧ e.2 < n)%nat es →
  KInv n es done_ inDeg (x :: queue) →
  let next := sort_by Nat.ltb (default [] (dependents (count_edges n es) !! x)) in
  let r := foldl visit (inDeg, queue) next in
  KInv n es (done_ ++ [x]) r.1 r.2.
Proof.
  intros HF [L HD HN HZ HO] next r.
  assert (Hx0 : inDeg !! x = Some 0) by (apply HZ; set_solver).
  assert (Hxn : (x < n)%nat) by (apply lookup_lt_Some in Hx0; lia).
  assert (Hxd : x ∉ done_).
  { apply NoDup_app in HN as (_ & HN & _). intros Hx. apply (HN x Hx). by left. }
  destruct (count_edges_spec n es HF) as (_ & _ & _ & I2).
  assert (Hnext : next ≡ₚ (filter (λ e, e.1 = x) es).*2).
  { subst next. rewrite sort_by_perm, I2 by done. done. }
  assert (VInv n (done_ ++ [x]) (pending es (done_ ++ [x])) next inDeg queue) as HV.
  { split; [done|..].
    - rewrite Hnext. apply Forall_fmap, Forall_forall. intros e [_ He]%list_elem_of_filter.
      rewrite Forall_forall in HF. by apply HF.
    - intros i Hi. rewrite HD, (pending_snoc es done_ x i) by done. by rewrite (occ_perm i _ _ Hnext).
    - by rewrite <-app_assoc.
    - intros i. rewrite <-app_assoc. apply HZ. }
  apply visits_inv in HV as [L' _ HD' HN' HZ']. fold r in L', HD', HN', HZ'. split; [done| |done|done|].
  - intros i Hi. rewrite HD' by done. do 2 f_equal. unfold occ. rewrite filter_nil. simpl. lia.
  - intros d i l1 l2 He E. destruct l2 as [|y l2] using rev_ind.
    + apply app_inj_tail in E as [-> ->]. apply (pending_0 es _ d i); [|done].
      specialize (HD i Hxn). rewrite Hx0 in HD. simplify_eq. lia.
    + rewrite app_comm_cons, app_assoc in E. apply app_inj_tail in E as [E _]. by eapply HO.
Qed.

Lemma NoDup_bounded_length n (l : list nat) : NoDup l → Forall (λ i, i < n)%nat l → (length l ≤ n)%nat.
Proof.
  intros HN HF. rewrite <-(length_seq n 0). apply submseteq_length, NoDup_submseteq; [done|].
  intros x Hx. rewrite Forall_forall in HF. apply elem_of_seq. specialize (HF x Hx). lia.
Qed.

Lemma KInv_bound n es done_ inDeg queue :
  KInv n es done_ inDeg queue → Forall (λ i, i < n)%nat (done_ ++ queue).
Proof.
  intros [L _ _ HZ _]. apply Forall_forall. intros i Hi%HZ. apply lookup_lt_Some in Hi. lia.
Qed.

(** With as much fuel as there are nodes left, the loop ends with an empty
    queue. *)
Lemma kahn_spec fuel names es : ∀ done_ inDeg queue sorted,
  Forall (λ e, e.1 < length names ∧ e.2 < length names)%nat es →
  KInv (length names) es done_ inDeg queue → (length names ≤ length done_ + fuel)%nat →
  sorted = (λ i, default "" (names !! i)) <$> done_ →
  ∃ done' inDeg', KInv (length names) es done' inDeg' [] ∧
    kahn fuel names (dependents (count_edges (length names) es)) inDeg queue sorted =
      (λ i, default "" (names !! i)) <$> done'.
Proof.
  induction fuel as [|fuel IH]; intros done_ inDeg queue sorted HF HK Hl Hs; simpl.
  - pose proof (NoDup_bounded_length _ _ (k_nodup _ _ _ _ _ HK) (KInv_bound _ _ _ _ _ HK)) as Hb.
    rewrite length_app in Hb. destruct queue; [|simpl in Hb; lia]. eauto.
  - destruct queue as [|x queue]; [by eauto|].
    pose proof (KInv_step _ _ _ _ _ _ HF HK) as HK'. simpl in HK'.
    destruct (foldl visit _ _) as [inDeg' queue']. eapply IH; [done|exact HK'|rewrite length_app; simpl; lia|].
    rewrite fmap_app. simpl. by rewrite Hs.
Qed.

(** ** From indices to names *)

Lemma node_names_elem nodes n : n ∈ node_names nodes ↔ n ∈ nodes.
Proof. unfold node_names. by rewrite sort_by_elem, elem_of_elements. Qed.

Lemma node_names_nodup nodes : NoDup (node_names nodes).
Proof. unfold node_names. rewrite sort_by_perm. apply NoDup_elements. Qed.

Lemma node_names_length nodes : length (node_names nodes) = size nodes.
Proof. unfold node_names. by autorewrite with kardinal. Qed.

Lemma idx_Some names n i : NoDup names → idx names n = Some i ↔ names !! i = Some n.
Proof.
  intros HN. unfold idx. rewrite fmap_Some. split.
  - intros ([j x] & (Hx & <- & _)%list_find_Some & ->). done.
  - intros Hi. destruct (list_find_elem_of (n =.) names n) as [[j x] Hj]; [by eapply list_elem_of_lookup_2|done|].
    exists (j, x). split; [done|]. apply list_find_Some in Hj as (Hx & <- & _). simpl.
    by eapply NoDup_lookup.
Qed.

Lemma edges_spec names deps d i :
  NoDup names →
  (d, i) ∈ edges names deps ↔
  ∃ nd ni, names !! d = Some nd ∧ names !! i = Some ni ∧ nd ∈ deps_of deps ni.
Proof.
  intros HN. unfold edges. rewrite list_elem_of_join. split.
  - intros (l & Hl & ([n ds] & -> & Hn)%list_elem_of_fmap). apply elem_of_map_to_list in Hn. simpl in Hl.
    destruct (idx names n) as [ni|] eqn:Ei; [|by apply elem_of_nil in Hl].
    apply list_elem_of_omap in Hl as (nd & Hnd & (di & Hdi & [= -> ->])%fmap_Some).
    rewrite idx_Some in Ei, Hdi by done. exists nd, n. unfold deps_of. rewrite Hn. done.
  - intros (nd & ni & Hd & Hi & Hin). unfold deps_of in Hin.
    destruct (deps !! ni) as [ds|] eqn:E; [|by apply elem_of_nil in Hin].
    exists (omap (λ d, (λ di, (di, i)) <$> idx names d) ds). split.
    + apply list_elem_of_omap. exists nd. split; [done|]. by rewrite (proj2 (idx_Some names nd d HN) Hd).
    + apply list_elem_of_fmap. exists (ni, ds). split; [|by apply elem_of_map_to_list].
      simpl. by rewrite (proj2 (idx_Some names ni i HN) Hi).
Qed.

Lemma edges_bound names deps :
  NoDup names → Forall (λ e, e.1 < length names ∧ e.2 < length names)%nat (edges names deps).
Proof.
  intros HN. apply Forall_forall. intros [d i] (nd & ni & Hd & Hi & _)%edges_spec; [|done].
  split; by eapply lookup_lt_Some.
Qed.

(** [before a b l]: [a] is in [l] ahead of [b]. *)
Definition before (a b : string) (l : list string) : Prop := ∃ l1 l2, l = l1 ++ b :: l2 ∧ a ∈ l1.

(** An edge of the graph over [nodes]. *)
Definition upstream (nodes : gset string) (deps : Deps) (d n : string) : Prop :=
  d ∈ nodes ∧ n ∈ nodes ∧ d ∈ deps_of deps n.

(** What the loop sorts: distinct nodes, each after its upstreams, and every
    node left over has an upstream left over. *)
Record Sorted (nodes : gset string) (deps : Deps) (sorted : list string) : Prop := {
  s_nodup : NoDup sorted;
  s_nodes : ∀ n, n ∈ sorted → n ∈ nodes;
  s_before : ∀ d n, upstream nodes deps d n → n ∈ sorted → before d n sorted;
  s_stuck : ∀ n, n ∈ nodes → n ∉ sorted → ∃ d, upstream nodes deps d n ∧ d ∉ sorted
}.

Definition kahn_sort (nodes : gset string) (deps : Deps) : list string :=
  let names := node_names nodes in
  let c := count_edges (length names) (edges names deps) in
  kahn (length names) names (dependents c) (inDegree c)
    (filter (λ i, inDegree c !! i = Some 0) (seq 0 (length names))) [].

Lemma fmap_split {A B} (f : A → B) (l : list A) k1 y k2 :
  f <$> l = k1 ++ y :: k2 → ∃ l1 x l2, l = l1 ++ x :: l2 ∧ f x = y ∧ f <$> l1 = k1.
Proof.
  intros (l1 & l' & -> & E & ->)%fmap_app_inv. symmetry in E. apply fmap_cons_inv in E as (x & l2 & -> & ? & ->).
  exists l1, x, l2. done.
Qed.

Lemma kahn_sorted nodes deps : Sorted nodes deps (kahn_sort nodes deps).
Proof.
  unfold kahn_sort. set (names := node_names nodes). pose proof (node_names_nodup nodes) as HN. fold names in HN.
  pose proof (edges_bound names deps HN) as HB.
  destruct (kahn_spec (length names) names _ _ _ _ [] HB (KInv_init _ _ HB)) as (dn & inDeg & HK & E); [simpl; lia|done|].
  rewrite E. clear E. set (f := λ i, default "" (names !! i)).
  assert (Hf : ∀ i, (i < length names)%nat → names !! i = Some (f i)).
  { intros i Hi. unfold f. destruct (lookup_lt_is_Some_2 names i Hi) as [x ->]. done. }
  pose proof (KInv_bound _ _ _ _ _ HK) as Hbd. destruct HK as [L HD HNd HZ0 HO].
  assert (HZ : ∀ i, i ∈ dn ↔ inDeg !! i = Some 0) by (intros; rewrite <-HZ0, app_nil_r; done). clear HZ0.
  rewrite app_nil_r in HNd, Hbd. rewrite Forall_forall in Hbd.
  assert (Hinj : ∀ i n, names !! i = Some n → n ∈ f <$> dn → i ∈ dn).
  { intros i n Hi (j & -> & Hj)%list_elem_of_fmap.
    by rewrite (NoDup_lookup names i j (f j) HN Hi (Hf j (Hbd j Hj))). }
  assert (Hedge : ∀ d n, upstream nodes deps d n → ∃ di ni, names !! di = Some d ∧ names !! ni = Some n ∧
    (di, ni) ∈ edges names deps).
  { intros d n (Hd & Hn & Hdn). apply node_names_elem, list_elem_of_lookup in Hd as [di Hd].
    apply node_names_elem, list_elem_of_lookup in Hn as [ni Hn]. exists di, ni.
    split_and!; [done|done|]. apply edges_spec; [done|]. eauto. }
  split.
  - apply NoDup_fmap_2_strong; [|done]. intros a b Ha Hb Eab.
    apply (NoDup_lookup names a b (f a) HN); [by apply Hf, Hbd|rewrite Eab; by apply Hf, Hbd].
  - intros n (j & -> & Hj)%list_elem_of_fmap. apply node_names_elem. eapply list_elem_of_lookup_2. by apply Hf, Hbd.
  - intros d n Hup Hn. destruct (Hedge d n Hup) as (di & ni & Hd & Hni & He).
    pose proof (Hinj ni n Hni Hn) as Hin. apply list_elem_of_split in Hin as (l1 & l2 & E).
    pose proof (HO di ni l1 l2 He E) as Hdi. exists (f <$> l1), (f <$> l2). split.
    + rewrite E, fmap_app. simpl. f_equal. f_equal. unfold f. by rewrite Hni.
    + apply list_elem_of_fmap. exists di. split; [|done]. unfold f. by rewrite Hd.
  - intros n Hn Hns. apply node_names_elem, list_elem_of_lookup in Hn as [i Hi]. fold names in Hi.
    assert (Hin : i ∉ dn).
    { intros Hi'. apply Hns. apply list_elem_of_fmap. exists i. split; [|done]. unfold f. by rewrite Hi. }
    pose proof (lookup_lt_Some _ _ _ Hi) as Hlt. specialize (HD i Hlt).
    destruct (pending (edges names deps) dn i) as [|m] eqn:Ep; [by destruct Hin; apply HZ|].
    unfold pending in Ep. destruct (filter _ _) as [|[d i'] es] eqn:Ef; [done|].
    assert ((d, i') ∈ filter (λ e, e.2 = i ∧ e.1 ∉ dn) (edges names deps)) as Hdi by (rewrite Ef; by left).
    apply list_elem_of_filter in Hdi as [[? Hdn] He]. simpl in *. subst i'.
    apply edges_spec in He as (nd & n' & Hnd & Hn' & Hdep); [|done]. simplify_eq.
    exists nd. split.
    + split_and!; [by apply node_names_elem; eapply list_elem_of_lookup_2..|done].
    + intros Hx. by apply Hdn, (Hinj d nd).
Qed.

(** ** The cycle *)

(** Each environment of [c] depends on the next one. *)
Definition chain (deps : Deps) (c : list string) : Prop :=
  ∀ i a b, c !! i = Some a → c !! S i = Some b → b ∈ deps_of deps a.

Definition is_cycle (nodes : gset string) (deps : Deps) (c : list string) : Prop :=
  (∃ x mid, c = x :: mid ++ [x]) ∧ chain deps c ∧ ∀ n, n ∈ c → n ∈ nodes.

Lemma chain_snoc deps p x y :
  chain deps p → last p = Some x → y ∈ deps_of deps x → chain deps (p ++ [y]).
Proof.
  intros HC Hl Hy i a b Ha Hb. apply lookup_snoc_Some in Hb as [[Hlt Hb]|[Hi <-]].
  - rewrite lookup_app_l in Ha by lia. by eapply HC.
  - rewrite lookup_app_l in Ha by lia. rewrite last_lookup, <-Hi in Hl. simpl in Hl. by simplify_eq.
Qed.

Lemma chain_drop deps p k : chain deps p → chain deps (drop k p).
Proof. intros HC i a b. rewrite !lookup_drop, Nat.add_succ_r. apply HC. Qed.

(** The walk, from nodes [U] that each have an unsorted upstream in [U]. *)
Lemma cycle_walk_spec deps sortedSet (U : list string) fuel : ∀ pos path x,
  (∀ n, n ∈ U → ∃ j d, list_find (λ dep, dep ∉ sortedSet) (deps_of deps n) = Some (j, d) ∧ d ∈ U ∧ d ≠ "") →
  NoDup path → (∀ n, n ∈ path → n ∈ U) → chain deps path → last path = Some x →
  (∀ n i, pos !! n = Some i ↔ path !! i = Some n ∧ (S i < length path)%nat) →
  (length U < length path + fuel)%nat →
  ∃ c, cycle_walk fuel deps sortedSet pos path = Some c ∧
    (∃ x mid, c = x :: mid ++ [x]) ∧ chain deps c ∧ ∀ n, n ∈ c → n ∈ U.
Proof.
  induction fuel as [|fuel IH]; intros pos path x HU HN HP HC Hl Hpos Hf.
  { pose proof (submseteq_length path U (NoDup_submseteq _ _ HN HP)). lia. }
  assert (Hx : path !! (length path - 1)%nat = Some x).
  { rewrite last_lookup in Hl. by rewrite Nat.sub_1_r. }
  simpl. rewrite Hl. simpl.
  destruct (HU x) as (j & d & Hfind & Hd & Hne); [apply HP; by eapply list_elem_of_lookup_2|].
  rewrite Hfind, bool_decide_false by done.
  apply list_find_Some in Hfind as (Hdx & _ & _). apply list_elem_of_lookup_2 in Hdx.
  assert (Hpos' : ∀ n i, <[x := (length path - 1)%nat]> pos !! n = Some i ↔ path !! i = Some n).
  { intros n i. pose proof (lookup_lt_Some _ _ _ Hx) as Hlt. rewrite lookup_insert_Some, Hpos. split.
    - intros [[-> <-]|(_ & H & _)]; done.
    - intros Hi. pose proof (lookup_lt_Some _ _ _ Hi). destruct (decide (x = n)) as [->|Hxn].
      + left. split; [done|]. by eapply NoDup_lookup.
      + right. split_and!; [done|done|]. destruct (decide (S i = length path)); [|lia].
        replace (length path - 1)%nat with i in Hx by lia. congruence. }
  destruct (<[x := (length path - 1)%nat]> pos !! d) as [at_|] eqn:Ea.
  - apply Hpos' in Ea. eexists. split; [done|].
    pose proof (lookup_lt_Some _ _ _ Ea) as Hlt. split_and!.
    + exists d, (drop (S at_) path). by rewrite (drop_S path d at_ Ea).
    + rewrite <-(drop_app_le path) by lia. by eapply chain_drop, chain_snoc.
    + intros n [Hn|Hn]%elem_of_app; [|set_solver]. apply HP. rewrite <-(take_drop at_ path). set_solver.
  - apply (IH _ (path ++ [d]) d HU).
    + apply NoDup_app. split_and!; [done| |apply NoDup_singleton]. intros y Hy ->%list_elem_of_singleton.
      apply list_elem_of_lookup in Hy as [i Hi]. apply Hpos' in Hi. congruence.
    + intros n [Hn| ->%list_elem_of_singleton]%elem_of_app; auto.
    + by eapply chain_snoc.
    + by rewrite last_snoc.
    + intros n i. rewrite Hpos', length_app. simpl. split.
      * intros Hi. pose proof (lookup_lt_Some _ _ _ Hi). rewrite lookup_app_l by lia. split; [done|lia].
      * intros [Hi Hlt]. rewrite lookup_app_l in Hi by lia. done.
    + rewrite length_app. simpl. lia.
Qed.

(** Every upstream is a node, and every node is named. *)
Definition closed (nodes : gset string) (deps : Deps) : Prop :=
  ("" ∉ nodes) ∧ ∀ n d, n ∈ nodes → d ∈ deps_of deps n → d ∈ nodes.

Lemma findCycle_spec nodes deps sorted n :
  closed nodes deps → Sorted nodes deps sorted → n ∈ nodes → n ∉ sorted →
  is_cycle nodes deps (findCycle nodes deps sorted).
Proof.
  intros [Hemp Hcl] [_ Hnodes _ Hstuck] Hn Hns. unfold findCycle.
  set (sortedSet := list_to_set sorted : gset string).
  set (U := filter (λ n, n ∉ sortedSet) (elements nodes)).
  assert (HUin : ∀ m, m ∈ U ↔ m ∈ nodes ∧ m ∉ sorted).
  { intros m. unfold U, sortedSet. rewrite list_elem_of_filter, elem_of_elements, elem_of_list_to_set. tauto. }
  destruct (sort_by str_ltb U) as [|start rest] eqn:Es.
  { assert (n ∈ sort_by str_ltb U) as Hx by (rewrite sort_by_elem; by apply HUin).
    rewrite Es in Hx. by apply elem_of_nil in Hx. }
  assert (start ∈ U) as Hst by (rewrite <-(sort_by_elem str_ltb), Es; by left).
  destruct (cycle_walk_spec deps sortedSet U (S (length rest)) ∅ [start] start) as (c & -> & Hc1 & Hc2 & Hc3); [..|].
  - intros m Hm. apply HUin in Hm as [Hm1 Hm2]. destruct (Hstuck m Hm1 Hm2) as (d & (_ & _ & Hd) & Hdn).
    destruct (list_find_elem_of (λ dep, dep ∉ sortedSet) (deps_of deps m) d Hd) as [[j d'] Hj].
    { unfold sortedSet. by rewrite elem_of_list_to_set. }
    exists j, d'. split; [done|]. apply list_find_Some in Hj as (Hj & Hd' & _).
    apply list_elem_of_lookup_2 in Hj. pose proof (Hcl m d' Hm1 Hj). split; [|by intros ->].
    apply HUin. split; [done|]. unfold sortedSet in Hd'. by rewrite elem_of_list_to_set in Hd'.
  - apply NoDup_singleton.
  - by intros m ->%list_elem_of_singleton.
  - intros i a b Ha Hb. by destruct i.
  - done.
  - intros m i. rewrite lookup_empty. split; [done|]. simpl. lia.
  - simpl. rewrite <-(sort_by_length str_ltb U), Es. simpl. lia.
  - split_and!; [done|done|]. intros m Hm. by apply HUin, Hc3.
Qed.

Lemma topoSort_eq nodes deps :
  topoSort nodes deps =
  if bool_decide (length (kahn_sort nodes deps) = size nodes) then (kahn_sort nodes deps, [])
  else ([], findCycle nodes deps (kahn_sort nodes deps)).
Proof. done. Qed.

(** A graph with a cycle has no list of all its nodes with every upstream
    before: the first node of the cycle in the list has a later upstream. *)
Lemma before_trans l a b c : NoDup l → before a b l → before b c l → before a c l.
Proof.
  intros HN (l1 & l2 & E1 & Ha) (k1 & k2 & E2 & Hb). exists k1, k2. split; [done|].
  apply list_elem_of_split in Hb as (m1 & m2 & ->). subst l.
  rewrite <-app_assoc in E2. simpl in E2.
  assert (l1 = m1) as ->; [|set_solver].
  apply (f_equal (λ l, fst <$> list_find (b =.) l)) in E2 as Ef.
  assert (∀ p q, NoDup (p ++ b :: q) → fst <$> list_find (b =.) (p ++ b :: q) = Some (length p)) as Hlen.
  { intros p q Hpq. apply fmap_Some. exists (length p, b). split; [|done]. apply list_find_Some.
    split_and!; [by apply list_lookup_middle|done|]. intros j y Hj Hlt <-.
    assert (j = length p); [|lia]. eapply (NoDup_lookup _ _ _ b Hpq); [done|by apply list_lookup_middle]. }
  rewrite !Hlen in Ef; [|by rewrite <-E2|done]. simplify_eq. by apply app_inj_1 in E2 as [? _].
Qed.

Lemma before_irrefl l a : NoDup l → ¬ before a a l.
Proof.
  intros HN (l1 & l2 & -> & Ha). apply NoDup_app in HN as (_ & HN & _). apply (HN a Ha). by left.
Qed.

Lemma cycle_not_sorted nodes deps sorted c :
  Sorted nodes deps sorted → (∀ n, n ∈ nodes → n ∈ sorted) → is_cycle nodes deps c → False.
Proof.
  intros [HN _ HB _] Hall ((x & mid & ->) & HC & Hin).
  assert (∀ i a, (x :: mid ++ [x]) !! S i = Some a → before a x sorted) as Hb.
  { induction i as [|i IH]; intros a Ha.
    - assert (x ∈ nodes) by (apply Hin; by left).
      apply HB; [|auto]. split_and!; [|done|by apply (HC 0%nat x a)].
      apply Hin. by eapply list_elem_of_lookup_2.
    - destruct ((x :: mid ++ [x]) !! S i) as [b|] eqn:Eb.
      + specialize (IH b eq_refl). apply (before_trans _ _ b); [done| |done].
        assert (b ∈ nodes) by (apply Hin; by eapply list_elem_of_lookup_2).
        apply HB; [|auto]. split_and!; [|done|by apply (HC (S i))].
        apply Hin. by eapply list_elem_of_lookup_2.
      + apply lookup_ge_None in Eb. apply lookup_lt_Some in Ha. simpl in *. lia. }
  apply (before_irrefl sorted x); [done|]. apply (Hb (length mid)). simpl.
  by apply list_lookup_middle.
Qed.

Lemma topoSort_cases nodes deps :
  closed nodes deps →
  (Sorted nodes deps (topoSort nodes deps).1 ∧ (∀ n, n ∈ nodes → n ∈ (topoSort nodes deps).1) ∧
   (topoSort nodes deps).2 = []) ∨
  ((topoSort nodes deps).1 = [] ∧ is_cycle nodes deps (topoSort nodes deps).2).
Proof.
  intros Hcl. rewrite topoSort_eq. pose proof (kahn_sorted nodes deps) as HS.
  set (sorted := kahn_sort nodes deps) in *.
  case_bool_decide as Hlen; simpl.
  - left. split_and!; [done| |done].
    assert (list_to_set sorted = nodes) as E.
    { apply set_eq. intros n. pose proof (s_nodes _ _ _ HS). 
      assert ((list_to_set sorted : gset string) ⊆ nodes) as Hsub by (intros m; rewrite elem_of_list_to_set; auto).
      assert (nodes ⊆ (list_to_set sorted : gset string)) as Hsup.
      { destruct (decide (nodes ⊆ (list_to_set sorted : gset string))) as [|Hn]; [done|exfalso].
        assert (size (list_to_set sorted : gset string) < size nodes)%nat as Hlt by (apply subset_size; split; done).
        rewrite size_list_to_set in Hlt by apply HS. lia. }
      set_solver. }
    intros n Hn. rewrite <-E, elem_of_list_to_set in Hn. done.
  - right. split; [done|].
    destruct (decide (Forall (.∈ sorted) (elements nodes))) as [HF|HF].
    + exfalso. apply Hlen. apply Permutation_length, NoDup_Permutation; [apply HS|apply NoDup_elements|].
      intros n. rewrite elem_of_elements. split; [apply HS|]. intros Hn.
      rewrite Forall_forall in HF. by apply HF, elem_of_elements.
    + apply not_Forall_Exists, Exists_exists in HF as (n & Hn & Hns); [|intros ?; apply _].
      apply elem_of_elements in Hn. by eapply findCycle_spec.
Qed.

(** ** Properties *)

(** C30. The topological sort is right: over named environments whose
    upstreams are all environments, when no environment waits for itself
    through others it lists every environment once, each after everything it
    depends on. *)
Theorem topoSort_sorts nodes deps :
  closed nodes deps → (∀ c, ¬ is_cycle nodes deps c) →
  let '(sorted, cycle) := topoSort nodes deps in
  cycle = [] ∧ sorted ≡ₚ elements nodes ∧
  ∀ d n, n ∈ nodes → d ∈ deps_of deps n → before d n sorted.
Proof.
  intros Hcl Hac. destruct (topoSort_cases nodes deps Hcl) as [(HS & Hall & E)|[_ Hc]]; [|by destruct (Hac _ Hc)].
  destruct (topoSort nodes deps) as [sorted cycle]. simpl in *. split_and!; [done| |].
  - apply NoDup_Permutation; [apply HS|apply NoDup_elements|]. intros n. rewrite elem_of_elements.
    split; [apply HS|apply Hall].
  - intros d n Hn Hd. apply (s_before _ _ _ HS); [|by apply Hall]. split_and!; [|done|done].
    by eapply (proj2 Hcl).
Qed.

Definition demo_deps : Deps := <["prod" := ["uat"]]> (<["uat" := ["test"]]> (<["test" := []]> ∅)).

Definition demo_nodes : gset string := {["prod"; "test"; "uat"]}.

Lemma demo_closed : closed demo_nodes demo_deps.
Proof.
  split; [by vm_compute|]. intros n d Hn Hd. unfold demo_nodes in *.
  assert (n = "prod" ∨ n = "test" ∨ n = "uat") as [->|[->| ->]] by set_solver.
  all: vm_compute in Hd; set_solver.
Qed.

(** Each environment of the demo has a higher rank than its upstreams. *)
Lemma demo_acyclic c : ¬ is_cycle demo_nodes demo_deps c.
Proof.
  intros Hc. destruct (topoSort_cases demo_nodes demo_deps demo_closed) as [(HS & Hall & _)|[E _]];
    [by eapply cycle_not_sorted|by vm_compute in E].
Qed.

Lemma topoSort_sorts_witness :
  let '(sorted, cycle) := topoSort demo_nodes demo_deps in
  cycle = [] ∧ sorted ≡ₚ elements demo_nodes ∧
  ∀ d n, n ∈ demo_nodes → d ∈ deps_of demo_deps n → before d n sorted.
Proof. apply (topoSort_sorts demo_nodes demo_deps); [apply demo_closed|apply demo_acyclic]. Defined.

(** Cycle detection is exact: [topoSort] reports a cycle when there is
    one and only then, and the path it reports is a cycle of the graph, each
    environment depending on the next and the last one the first again. *)
Theorem topoSort_cycle_iff nodes deps :
  closed nodes deps →
  ((topoSort nodes deps).2 ≠ [] ↔ ∃ c, is_cycle nodes deps c) ∧
  ((topoSort nodes deps).2 ≠ [] → is_cycle nodes deps (topoSort nodes deps).2).
Proof.
  intros Hcl. destruct (topoSort_cases nodes deps Hcl) as [(HS & Hall & ->)|[_ Hc]].
  - split; [|done]. split; [done|]. intros [c Hc]. exfalso. by eapply cycle_not_sorted.
  - split; [|done]. split; [by eauto|]. intros _ E. destruct Hc as ((x & mid & E') & _). congruence.
Qed.

Lemma topoSort_cycle_iff_witness :
  let deps : Deps := <["uat" := ["test"; "prod"]]> demo_deps in
  is_cycle demo_nodes deps (topoSort demo_nodes deps).2.
Proof.
  apply topoSort_cycle_iff; [|by vm_compute].
  split; [by vm_compute|]. intros n d Hn Hd. unfold demo_nodes in *.
  assert (n = "prod" ∨ n = "test" ∨ n = "uat") as [->|[->| ->]] by set_solver.
  all: vm_compute in Hd; set_solver.
Defined.

End Topo.
