(* ===== verification/Walk.v ===== *)
(** * Walk: depth-first walks over a dependency map

    The recursive [walk] closures of src/pkg/graph (envPathTo and filteredDeps
    of builder.go, skipPermissionGates of skip.go) visit the upstreams of an
    environment with a set of the ones already seen.  [dfs] is their common
    shape, with the order of the visits; [dfs_spec] says that it visits exactly
    what is reachable, once each, and that recursion as deep as there are nodes
    is enough. *)

From stdpp Require Import base gmap strings list relations.
From Stdlib Require Import Lia.
From S2P Require Import Prelude.

Section dfs.
Context {A : Type} `{!EqDecision A} (next : A → list A).

Fixpoint dfs (fuel : nat) (ds : list A) (seen : list A) : list A :=
  match fuel with
  | O => seen
  | S fuel => foldl (λ s d, if decide (d ∈ s) then s else dfs fuel (next d) (s ++ [d])) seen ds
  end.

(** [x] is reached from [d] by zero or more steps. *)
Definition reaches : A → A → Prop := rtc (λ a b, b ∈ next a).

Context (U : list A) (HU : ∀ x y, x ∈ U → y ∈ next x → y ∈ U).

(** What one walk from [ds] adds to [seen]. *)
Record Visits (ds seen r : list A) : Prop := {
  v_seen : ∃ new, r = seen ++ new ∧
    (∀ x, x ∈ new → ∃ d, d ∈ ds ∧ reaches d x) ∧ (∀ x y, x ∈ new → y ∈ next x → y ∈ r);
  v_nodup : NoDup r;
  v_in : ∀ x, x ∈ r → x ∈ U;
  v_all : ∀ d, d ∈ ds → d ∈ r
}.

Lemma dfs_visits fuel : ∀ ds seen,
  NoDup seen → (∀ x, x ∈ seen → x ∈ U) → (∀ d, d ∈ ds → d ∈ U) →
  (length U < fuel + length seen)%nat → Visits ds seen (dfs fuel ds seen).
Proof.
  induction fuel as [|fuel IH]; intros ds seen HN Hin Hds Hf.
  { pose proof (submseteq_length seen U (NoDup_submseteq _ _ HN Hin)). lia. }
  simpl. revert seen HN Hin Hf. induction ds as [|d ds IHds]; intros seen HN Hin Hf; simpl.
  { split; [exists []; rewrite app_nil_r; set_solver|done|done|set_solver]. }
  destruct (decide (d ∈ seen)) as [Hd|Hd].
  - destruct (IHds ltac:(set_solver) seen HN Hin Hf) as [(new & E & R1 & R2) V2 V3 V4].
    split; [|done|done|].
    + exists new. split_and!; [done| |done]. intros x Hx. destruct (R1 x Hx) as (d' & ? & ?). set_solver.
    + intros y [->|Hy]%elem_of_cons; [|auto]. rewrite E. set_solver.
  - assert (HdU : d ∈ U) by (apply Hds; by left).
    destruct (IH (next d) (seen ++ [d])) as [(new & E & R1 & R2) V2 V3 V4].
    + apply NoDup_app. split_and!; [done| |apply NoDup_singleton]. set_solver.
    + set_solver.
    + intros y Hy. by apply (HU d).
    + rewrite length_app. simpl. lia.
    + set (s := dfs fuel (next d) (seen ++ [d])) in *.
      destruct (IHds ltac:(set_solver) s V2 V3) as [(new' & E' & R1' & R2') V2' V3' V4'].
      { rewrite E, !length_app. simpl. lia. }
      set (r := foldl _ s ds) in *. clearbody r s. subst s r.
      split; [|done|done|set_solver].
      exists (d :: new ++ new'). split_and!; [by rewrite <-!app_assoc| |].
      * intros x [->|[Hx|Hx]%elem_of_app]%elem_of_cons.
        -- exists d. split; [by left|apply rtc_refl].
        -- destruct (R1 x Hx) as (y & Hy & Hr). exists d. split; [by left|]. by eapply rtc_l.
        -- destruct (R1' x Hx) as (y & Hy & Hr). exists y. split; [by right|done].
      * intros x y [->|[Hx|Hx]%elem_of_app]%elem_of_cons Hy.
        -- specialize (V4 y Hy). set_solver.
        -- specialize (R2 x y Hx Hy). set_solver.
        -- by apply (R2' x y).
Qed.

(** A walk that starts with nothing seen visits what is reachable, once. *)
Lemma dfs_spec fuel ds :
  (∀ d, d ∈ ds → d ∈ U) → (length U < fuel)%nat →
  NoDup (dfs fuel ds []) ∧ ∀ x, x ∈ dfs fuel ds [] ↔ ∃ d, d ∈ ds ∧ reaches d x.
Proof.
  intros Hds Hf. destruct (dfs_visits fuel ds []) as [(new & E & R1 & R2) V2 V3 V4];
    [constructor|set_solver|done|simpl; lia|].
  simpl in E. split; [done|]. intros x. split; [rewrite E; apply R1|].
  intros (d & Hd & Hr). assert (Hin : d ∈ dfs fuel ds []) by auto. clear Hd.
  induction Hr as [|d e x Hde _ IH]; [done|]. apply IH. rewrite E in Hin. by apply (R2 d).
Qed.

End dfs.
