(* ===== verification/Ordering.v ===== *)
(** * Ordering: the order a Pipeline promotes its environments in

    Model of [orderEnvironments] and the wave index of src/pkg/graph/builder.go:
    the edges each environment gets from its wave, its dependsOn and its place
    in the list, and their topological order ([Topo]).  Of an environment the
    record keeps what the ordering and the fleets read. *)

From stdpp Require Import base gmap strings list sorting pretty.
From Stdlib Require Import Lia ZArith.
From S2P Require Import Prelude Topo.

Open Scope Z_scope.

Module Ordering.
Import Topo.

(** [intstr.IntOrString]. *)
Inductive IntOrString := IntVal (n : Z) | StrVal (s : string).

(** A selector of a fleet: its kind, and the labels it matches. *)
Record FleetSelector := mkSelector { sel_Kind : string; sel_MatchLabels : gmap string string }.

Record FleetTarget := mkTarget { t_Name : string; t_Labels : gmap string string; t_Path : string }.

Record FleetSpec := mkFleet {
  Targets : list FleetTarget;
  Selector : option FleetSelector;
  MaxConcurrent : Z;
  MaxUnavailable : option IntOrString
}.

Record EnvironmentSpec := mkEnv {
  Name : string;
  Path : string;
  DependsOn : list string;
  Wave : Z;
  Fleet : option FleetSpec
}.

(** ** Waves *)

Record waveIndex := mkWaves {
  byWave : gmap Z (list string);
  sorted : list Z;
  firstPos : gmap Z nat
}.

(** The loop of [indexWaves], from list position [i]. *)
Fixpoint index_loop (i : nat) (envs : list EnvironmentSpec) (w : waveIndex) : waveIndex :=
  match envs with
  | [] => w
  | e :: envs =>
      if Wave e <=? 0 then index_loop (S i) envs w
      else
        let w := match byWave w !! Wave e with
                 | Some _ => w
                 | None => mkWaves (byWave w) (sorted w ++ [Wave e]) (<[Wave e := i]> (firstPos w))
                 end in
        index_loop (S i) envs
          (mkWaves (<[Wave e := default [] (byWave w !! Wave e) ++ [Name e]]> (byWave w)) (sorted w) (firstPos w))
  end.

Definition indexWaves (envs : list EnvironmentSpec) : waveIndex :=
  let w := index_loop 0 envs (mkWaves ∅ [] ∅) in
  mkWaves (sort_by str_ltb <$> byWave w) (sort_by Z.ltb (sorted w)) (firstPos w).

(** [lowerWave]: the highest wave below [n]; the loop breaks at the first wave
    that is not below. *)
Fixpoint lower_loop (n prev : Z) (ws : list Z) : Z :=
  match ws with
  | [] => prev
  | m :: ws => if n <=? m then prev else lower_loop n m ws
  end.

Definition lowerWave (w : waveIndex) (e : EnvironmentSpec) : Z :=
  if Wave e <=? 0 then 0 else lower_loop (Wave e) 0 (sorted w).

Definition waveDeps (w : waveIndex) (e : EnvironmentSpec) : list string :=
  let prev := lowerWave w e in
  if prev =? 0 then [] else default [] (byWave w !! prev).

(** The loop of [defaultDeps] over [j - 1], ..., 0. *)
Fixpoint default_loop (w : waveIndex) (envs : list EnvironmentSpec) (e : EnvironmentSpec) (j : nat) : list string :=
  match j with
  | O => []
  | S j =>
      match envs !! j with
      | None => []
      | Some f =>
          if 0 <? Wave f then default_loop w envs e j
          else
            let lower := lowerWave w e in
            if negb (lower =? 0) && (j <? default 0 (firstPos w !! lower))%nat then []
            else [Name f]
      end
  end.

Definition defaultDeps (w : waveIndex) (envs : list EnvironmentSpec) (i : nat) : list string :=
  match envs !! i with
  | None => []
  | Some e =>
      if Wave e <=? 0 then
        match i with
        | O => []
        | S j =>
            match envs !! j with
            | None => []
            | Some prev => if 0 <? Wave prev then default [] (byWave w !! Wave prev) else [Name prev]
            end
        end
      else default_loop w envs e (default 0%nat (firstPos w !! Wave e))
  end.

(** ** The edges of an environment *)

Inductive edgeSource := fromDependsOn | fromWave | fromListOrder.

#[export] Instance edgeSource_eq_dec : EqDecision edgeSource.
Proof. solve_decision. Defined.

(** [add]: an edge is kept once, with its first source. *)
Definition add_dep (merged : list (string * edgeSource)) (p : string * edgeSource) : list (string * edgeSource) :=
  if bool_decide (p.1 ∈ merged.*1) then merged else merged ++ [p].

Inductive order_error :=
  | NoEnvironments
  | UnknownUpstream (env dep : string).

(** The body of the loop for [envs[i] = e]. *)
Definition env_deps (nameSet : gset string) (w : waveIndex) (envs : list EnvironmentSpec) (i : nat)
    (e : EnvironmentSpec) : order_error + list (string * edgeSource) :=
  match list_find (λ d, d ∉ nameSet) (DependsOn e) with
  | Some (_, d) => inl (UnknownUpstream (Name e) d)
  | None =>
      inr (foldl add_dep []
        (((., fromWave) <$> waveDeps w e) ++ ((., fromDependsOn) <$> DependsOn e) ++
         (if decide (DependsOn e = []) then (., fromListOrder) <$> defaultDeps w envs i else [])))
  end.

(** [deps] and, for the error, where each edge comes from ([why]). *)
Fixpoint deps_loop (nameSet : gset string) (w : waveIndex) (envs : list EnvironmentSpec) (i : nat)
    (rest : list EnvironmentSpec) (deps : gmap string (list (string * edgeSource)))
  : order_error + gmap string (list (string * edgeSource)) :=
  match rest with
  | [] => inr deps
  | e :: rest =>
      match env_deps nameSet w envs i e with
      | inl err => inl err
      | inr merged => deps_loop nameSet w envs (S i) rest (<[Name e := merged]> deps)
      end
  end.

Definition env_names (envs : list EnvironmentSpec) : gset string := list_to_set (Name <$> envs).

Inductive order_result :=
  | OErr (err : order_error)
  | OCycle (cycle : list string) (why : gmap string (list (string * edgeSource)))
  | OOk (order : list string) (deps : gmap string (list string)).

Definition orderEnvironments (envs : list EnvironmentSpec) : order_result :=
  match envs with
  | [] => OErr NoEnvironments
  | _ =>
      match deps_loop (env_names envs) (indexWaves envs) envs 0 envs ∅ with
      | inl err => OErr err
      | inr why =>
          let deps := (λ m, m.*1) <$> why in
          let '(order, cycle) := topoSort (env_names envs) deps in
          if decide (cycle = []) then OOk order deps else OCycle cycle why
      end
  end.

(** ** The wave index *)

(** The index of the environments listed so far. *)
Record Waves (pre : list EnvironmentSpec) (w : waveIndex) : Prop := {
  w_names : ∀ n x, x ∈ default [] (byWave w !! n) ↔ ∃ e, e ∈ pre ∧ 0 < Wave e ∧ Wave e = n ∧ Name e = x;
  w_dom : ∀ n, is_Some (byWave w !! n) ↔ ∃ e, e ∈ pre ∧ 0 < Wave e ∧ Wave e = n;
  w_sorted : ∀ n, n ∈ sorted w ↔ is_Some (byWave w !! n);
  w_first : ∀ n, is_Some (byWave w !! n) → ∃ i e, firstPos w !! n = Some i ∧ pre !! i = Some e ∧ Wave e = n
}.

Lemma index_loop_waves rest : ∀ pre w,
  Waves pre w → Waves (pre ++ rest) (index_loop (length pre) rest w).
Proof.
  induction rest as [|e rest IH]; intros pre w HW; simpl; [by rewrite app_nil_r|].
  replace (pre ++ e :: rest) with ((pre ++ [e]) ++ rest) by by rewrite <-app_assoc.
  replace (S (length pre)) with (length (pre ++ [e])) by (rewrite length_app; simpl; lia).
  destruct (Z.leb_spec (Wave e) 0) as [Hw|Hw]; apply IH; destruct HW as [W1 W2 W3 W4].
  - split; [..|done|].
    + intros n x. rewrite W1. split; intros (f & Hf & ?); exists f; set_solver by lia.
    + intros n. rewrite W2. split; intros (f & Hf & ?); exists f; set_solver by lia.
    + intros n Hn. destruct (W4 n Hn) as (i & f & H1 & H2 & H3). exists i, f. split_and!; [done| |done].
      by apply lookup_app_l_Some.
  - set (w' := match byWave w !! Wave e with Some _ => w | None => _ end).
    assert (Eb : byWave w' = byWave w) by (subst w'; by destruct (byWave w !! Wave e)).
    split; simpl; rewrite Eb.
    + intros n x. rewrite lookup_insert. case_decide as En; simpl.
      * subst n. rewrite elem_of_app, list_elem_of_singleton, W1. set_solver by lia.
      * rewrite W1. set_solver by lia.
    + intros n. rewrite lookup_insert_is_Some', W2. set_solver by lia.
    + intros n. rewrite lookup_insert_is_Some', <-W3. subst w'.
      destruct (byWave w !! Wave e) eqn:E; simpl; [|set_solver].
      split; [by right|]. intros [<-|]; [|done]. apply W3. by rewrite E.
    + intros n Hn. subst w'. destruct (byWave w !! Wave e) eqn:E; simpl.
      * destruct (W4 n) as (i & f & H1 & H2 & H3).
        { apply lookup_insert_is_Some' in Hn as [<-|]; [by rewrite E|done]. }
        exists i, f. split_and!; [done|by apply lookup_app_l_Some|done].
      * destruct (decide (Wave e = n)) as [<-|Hne].
        -- exists (length pre), e. rewrite lookup_insert_eq. split_and!; [done|by apply list_lookup_middle|done].
        -- rewrite lookup_insert_ne in Hn by done. destruct (W4 n Hn) as (i & f & H1 & H2 & H3).
           exists i, f. rewrite lookup_insert_ne by done. split_and!; [done|by apply lookup_app_l_Some|done].
Qed.

Lemma indexWaves_spec envs : Waves envs (indexWaves envs).
Proof.
  assert (Waves [] (mkWaves ∅ [] ∅)) as H0.
  { split; simpl; intros n; rewrite lookup_empty; simpl; [|set_solver|..].
    - intros x. set_solver.
    - set_solver by eauto using is_Some_None.
    - by intros [? ?]. }
  pose proof (index_loop_waves envs [] _ H0) as [W1 W2 W3 W4]. simpl in *.
  unfold indexWaves. set (w := index_loop 0 envs _) in *. split; simpl.
  - intros n x. rewrite <-W1, lookup_fmap. destruct (byWave w !! n); simpl; [|done]. apply sort_by_elem.
  - intros n. by rewrite lookup_fmap, fmap_is_Some.
  - intros n. by rewrite lookup_fmap, fmap_is_Some, sort_by_elem.
  - intros n. rewrite lookup_fmap, fmap_is_Some. apply W4.
Qed.

#[local] Instance Zltb_weak : StrictWeak Z.ltb.
Proof. split; intros *; rewrite ?Z.ltb_lt, ?Z.ltb_ge; lia. Qed.

Lemma indexWaves_sorted envs : StronglySorted (≤) (sorted (indexWaves envs)).
Proof.
  unfold indexWaves. simpl. eapply StronglySorted_mono; [|apply (sort_by_sorted Z.ltb)].
  simpl. intros x y. apply Z.ltb_ge.
Qed.

Lemma lower_loop_spec n ws : ∀ prev,
  StronglySorted (≤) ws → prev < n → Forall (λ m, prev ≤ m) ws →
  let r := lower_loop n prev ws in
  (r = prev ∨ r ∈ ws) ∧ r < n ∧ prev ≤ r ∧ ∀ m, m ∈ ws → m < n → m ≤ r.
Proof.
  induction ws as [|m ws IH]; intros prev HS Hp HF; simpl.
  { split_and!; [by left|done|done|]. intros m Hm. by apply elem_of_nil in Hm. }
  apply StronglySorted_cons in HS as [Hm HS]. apply Forall_cons in HF as [Hpm HF].
  destruct (Z.leb_spec n m) as [Hle|Hlt].
  - split_and!; [by left|done|done|]. intros k [->|Hk]%elem_of_cons Hkn; [lia|].
    rewrite Forall_forall in Hm. specialize (Hm k Hk). lia.
  - destruct (IH m HS Hlt Hm) as (I1 & I2 & I3 & I4). split_and!; [|done|lia|].
    + right. destruct I1 as [->|]; set_solver.
    + intros k [->|Hk]%elem_of_cons Hkn; [done|by apply I4].
Qed.

(** The highest wave below that of [e], when there is one. *)
Lemma lowerWave_spec envs e :
  0 < Wave e →
  let r := lowerWave (indexWaves envs) e in
  r < Wave e ∧ (r = 0 ∨ ∃ f, f ∈ envs ∧ 0 < Wave f ∧ Wave f = r) ∧
  ∀ f, f ∈ envs → 0 < Wave f → Wave f < Wave e → Wave f ≤ r.
Proof.
  intros He. unfold lowerWave. destruct (Z.leb_spec (Wave e) 0); [lia|].
  pose proof (indexWaves_spec envs) as [_ W2 W3 _].
  assert (∀ m, m ∈ sorted (indexWaves envs) ↔ ∃ f, f ∈ envs ∧ 0 < Wave f ∧ Wave f = m) as Hm.
  { intros m. by rewrite W3, W2. }
  destruct (lower_loop_spec (Wave e) (sorted (indexWaves envs)) 0) as (I1 & I2 & _ & I4).
  - apply indexWaves_sorted.
  - done.
  - apply Forall_forall. intros m (f & _ & ? & <-)%Hm. lia.
  - simpl in *. split_and!; [done| |].
    + destruct I1 as [->|I1]; [by left|right]. by apply Hm.
    + intros f Hf Hf0 Hfe. apply I4; [|done]. apply Hm. eauto.
Qed.

Lemma waveDeps_spec envs e d :
  d ∈ waveDeps (indexWaves envs) e ↔
  0 < Wave e ∧ ∃ f, f ∈ envs ∧ Name f = d ∧ 0 < Wave f ∧ Wave f = lowerWave (indexWaves envs) e.
Proof.
  unfold waveDeps. destruct (Z.eqb_spec (lowerWave (indexWaves envs) e) 0) as [E|E].
  - split; [intros H; by apply elem_of_nil in H|]. intros (_ & f & _ & _ & ? & ?). lia.
  - rewrite (w_names _ _ (indexWaves_spec envs)). unfold lowerWave in *.
    destruct (Z.leb_spec (Wave e) 0); [done|]. naive_solver.
Qed.

(** ** The edges *)

Lemma add_deps_elem l : ∀ acc x, x ∈ (foldl add_dep acc l).*1 ↔ x ∈ acc.*1 ∨ x ∈ l.*1.
Proof.
  induction l as [|p l IH]; intros acc x; simpl; [set_solver|].
  rewrite IH. unfold add_dep. case_bool_decide; set_solver.
Qed.

Lemma pair_fst (l : list string) (s : edgeSource) : ((., s) <$> l).*1 = l.
Proof. rewrite <-list_fmap_compose. apply list_fmap_id. Qed.

(** The upstreams of [envs[i] = e], by rule. *)
Definition upstreams_of (envs : list EnvironmentSpec) (i : nat) (e : EnvironmentSpec) (d : string) : Prop :=
  d ∈ waveDeps (indexWaves envs) e ∨ d ∈ DependsOn e ∨
  (DependsOn e = [] ∧ d ∈ defaultDeps (indexWaves envs) envs i).

Lemma env_deps_spec nameSet envs i e merged :
  env_deps nameSet (indexWaves envs) envs i e = inr merged →
  (∀ d, d ∈ DependsOn e → d ∈ nameSet) ∧ ∀ d, d ∈ merged.*1 ↔ upstreams_of envs i e d.
Proof.
  unfold env_deps. destruct (list_find _ _) as [[j d]|] eqn:E; [done|]. intros [= <-]. split.
  - intros d Hd. apply list_find_None in E. rewrite Forall_forall in E. specialize (E d Hd). simpl in E.
    by destruct (decide (d ∈ nameSet)).
  - intros d. rewrite add_deps_elem, !fmap_app, !elem_of_app, !pair_fst. unfold upstreams_of.
    case_decide; rewrite ?pair_fst; set_solver.
Qed.

Lemma deps_loop_spec nameSet envs rest : ∀ i acc why,
  deps_loop nameSet (indexWaves envs) envs i rest acc = inr why → NoDup (Name <$> rest) →
  (∀ n, n ∉ Name <$> rest → why !! n = acc !! n) ∧
  ∀ j e, rest !! j = Some e → ∃ merged, why !! Name e = Some merged ∧
    env_deps nameSet (indexWaves envs) envs (i + j) e = inr merged.
Proof.
  induction rest as [|e rest IH]; intros i acc why; simpl.
  { intros [= <-] _. split; [done|]. intros j e H. by rewrite lookup_nil in H. }
  destruct (env_deps nameSet _ envs i e) as [err|merged] eqn:E; [done|]. intros Hl HN.
  apply NoDup_cons in HN as [Hn HN]. destruct (IH _ _ _ Hl HN) as [I1 I2]. split.
  - intros n Hn'. rewrite I1 by set_solver. apply lookup_insert_ne. set_solver.
  - intros [|j] f; simpl.
    + intros [= <-]. exists merged. rewrite I1, lookup_insert_eq, Nat.add_0_r by done. done.
    + intros Hj. destruct (I2 j f Hj) as (m & Hm & Em). exists m. split; [done|].
      by rewrite Nat.add_succ_r.
Qed.

Lemma byWave_in envs n d : d ∈ default [] (byWave (indexWaves envs) !! n) → d ∈ Name <$> envs.
Proof.
  intros (e & He & _ & _ & <-)%(w_names _ _ (indexWaves_spec envs)). by apply list_elem_of_fmap_2.
Qed.

Lemma default_loop_in w envs e j d : d ∈ default_loop w envs e j → d ∈ Name <$> envs.
Proof.
  induction j as [|j IH]; simpl; [intros H; by apply elem_of_nil in H|].
  destruct (envs !! j) as [f|] eqn:Ef; [|intros H; by apply elem_of_nil in H].
  destruct (0 <? Wave f); [done|]. destruct (_ && _); [intros H; by apply elem_of_nil in H|].
  intros ->%list_elem_of_singleton. by eapply list_elem_of_fmap_2, list_elem_of_lookup_2.
Qed.

Lemma defaultDeps_in envs i d : d ∈ defaultDeps (indexWaves envs) envs i → d ∈ Name <$> envs.
Proof.
  unfold defaultDeps. destruct (envs !! i) as [e|]; [|intros H; by apply elem_of_nil in H].
  destruct (Wave e <=? 0); [|apply default_loop_in].
  destruct i as [|j]; [intros H; by apply elem_of_nil in H|].
  destruct (envs !! j) as [f|] eqn:Ef; [|intros H; by apply elem_of_nil in H].
  destruct (0 <? Wave f); [apply byWave_in|].
  intros ->%list_elem_of_singleton. by eapply list_elem_of_fmap_2, list_elem_of_lookup_2.
Qed.

(** What [validateEnvironments] checks of the names: set and declared once. *)
Definition named_once (envs : list EnvironmentSpec) : Prop :=
  NoDup (Name <$> envs) ∧ "" ∉ Name <$> envs.

(** The dependency map, as the ordering uses it. *)
Definition wired (envs : list EnvironmentSpec) (deps : gmap string (list string)) : Prop :=
  ∀ i e, envs !! i = Some e → ∀ d, d ∈ deps_of deps (Name e) ↔ upstreams_of envs i e d.

Lemma env_names_elem envs n : n ∈ env_names envs ↔ ∃ i e, envs !! i = Some e ∧ Name e = n.
Proof.
  unfold env_names. rewrite elem_of_list_to_set, list_elem_of_fmap. split.
  - intros (e & -> & (i & Hi)%list_elem_of_lookup). eauto.
  - intros (i & e & Hi & <-). exists e. split; [done|]. by eapply list_elem_of_lookup_2.
Qed.

Lemma deps_wired envs why :
  named_once envs → deps_loop (env_names envs) (indexWaves envs) envs 0 envs ∅ = inr why →
  wired envs ((λ m, m.*1) <$> why) ∧ closed (env_names envs) ((λ m, m.*1) <$> why).
Proof.
  intros [HN Hne] Hl. destruct (deps_loop_spec _ _ _ _ _ _ Hl HN) as [_ HD].
  assert (wired envs ((λ m, m.*1) <$> why)) as HW.
  { intros i e Hi d. destruct (HD i e Hi) as (m & Hm & Em). apply env_deps_spec in Em as [_ Em].
    unfold deps_of. rewrite lookup_fmap, Hm. simpl. apply Em. }
  split; [done|]. split.
  - unfold env_names. by rewrite elem_of_list_to_set.
  - intros n d (i & e & Hi & <-)%env_names_elem Hd. apply (HW i e Hi) in Hd.
    destruct (HD i e Hi) as (m & _ & Em). apply env_deps_spec in Em as [Em _].
    destruct Hd as [Hd|[Hd|[_ Hd]]].
    + apply waveDeps_spec in Hd as (_ & f & Hf & <- & _). unfold env_names. rewrite elem_of_list_to_set.
      by apply list_elem_of_fmap_2.
    + by apply Em.
    + unfold env_names. rewrite elem_of_list_to_set. by eapply defaultDeps_in.
Qed.

(** The shape of [orderEnvironments]. *)
Lemma orderEnvironments_cases envs :
  named_once envs →
  match orderEnvironments envs with
  | OErr NoEnvironments => envs = []
  | OErr (UnknownUpstream n d) => ∃ e, e ∈ envs ∧ Name e = n ∧ d ∈ DependsOn e ∧ d ∉ Name <$> envs
  | OCycle c why =>
      wired envs ((λ m, m.*1) <$> why) ∧ is_cycle (env_names envs) ((λ m, m.*1) <$> why) c
  | OOk order deps => wired envs deps ∧ closed (env_names envs) deps ∧
      Sorted (env_names envs) deps order ∧ (∀ n, n ∈ env_names envs → n ∈ order)
  end.
Proof.
  intros Hne. unfold orderEnvironments. destruct envs as [|e0 envs0]; [done|].
  set (envs := e0 :: envs0) in *.
  destruct (deps_loop _ _ _ _ _ _) as [err|why] eqn:El.
  - assert (∀ rest i acc, (∀ e, e ∈ rest → e ∈ envs) →
      deps_loop (env_names envs) (indexWaves envs) envs i rest acc = inl err →
      ∃ n d, err = UnknownUpstream n d ∧ ∃ e, e ∈ envs ∧ Name e = n ∧ d ∈ DependsOn e ∧ d ∉ Name <$> envs) as Herr.
    { induction rest as [|e rest IH]; intros i acc Hin; simpl; [done|].
      unfold env_deps. destruct (list_find _ _) as [[j d]|] eqn:E.
      - intros [= <-]. apply list_find_Some in E as (Hd & Hd2 & _).
        exists (Name e), d. split; [done|]. exists e. split_and!; [apply Hin; by left|done|by eapply list_elem_of_lookup_2|].
        unfold env_names in Hd2. by rewrite elem_of_list_to_set in Hd2.
      - apply IH. intros f Hf. apply Hin. by right. }
    destruct (Herr _ _ _ (λ e H, H) El) as (n & d & -> & He). done.
  - destruct (deps_wired envs why Hne El) as [HW HC].
    destruct (topoSort_cases _ _ HC) as [(HS & Hall & E)|[E Hc]];
      destruct (topoSort _ _) as [order cycle]; simpl in *.
    + rewrite decide_True by done. done.
    + rewrite decide_False; [done|]. destruct Hc as ((x & mid & ->) & _). done.
Qed.

(** What a successful ordering gives: its facts in one place. *)
Lemma order_facts envs order deps :
  named_once envs → orderEnvironments envs = OOk order deps →
  NoDup order ∧ order ≡ₚ Name <$> envs ∧ wired envs deps ∧
  ∀ i e d, envs !! i = Some e → upstreams_of envs i e d → before d (Name e) order.
Proof.
  intros HN E. pose proof (orderEnvironments_cases envs HN) as HC. rewrite E in HC.
  destruct HC as (HW & Hcl & HS & Hall). split_and!; [apply HS| |done|].
  - apply NoDup_Permutation; [apply HS|apply HN|]. intros n. split.
    + intros Hn%(s_nodes _ _ _ HS). unfold env_names in Hn. by rewrite elem_of_list_to_set in Hn.
    + intros Hn. apply Hall. unfold env_names. by rewrite elem_of_list_to_set.
  - intros i e d Hi Hu. apply (HW i e Hi) in Hu.
    assert (Name e ∈ env_names envs) by (apply env_names_elem; eauto).
    apply (s_before _ _ _ HS); [|by apply Hall]. split_and!; [|done|done]. by eapply (proj2 Hcl).
Qed.

Lemma before_elem a b l : before a b l → a ∈ l ∧ b ∈ l.
Proof. intros (l1 & l2 & -> & Ha). set_solver. Qed.

Lemma waves_before envs order deps :
  named_once envs → orderEnvironments envs = OOk order deps →
  ∀ k f e, e ∈ envs → f ∈ envs → 0 < Wave e < Wave f → (Z.to_nat (Wave f) < k)%nat →
  before (Name e) (Name f) order.
Proof.
  intros HN E. destruct (order_facts envs order deps HN E) as (Hnd & _ & _ & HB).
  induction k as [|k IH]; intros f e He Hf Hw Hk; [lia|].
  apply list_elem_of_lookup in Hf as [i Hi].
  destruct (lowerWave_spec envs f ltac:(lia)) as (L1 & L2 & L3). specialize (L3 e He ltac:(lia) ltac:(lia)).
  destruct L2 as [L2|(g & Hg & Hg0 & Eg)]; [lia|].
  assert (before (Name g) (Name f) order) as Hgf.
  { apply (HB i f _ Hi). left. apply waveDeps_spec. split; [lia|]. exists g. done. }
  destruct (decide (Wave e = Wave g)) as [Heq|Hne].
  - apply (HB i f _ Hi). left. apply waveDeps_spec. split; [lia|]. exists e. split_and!; [done|done|lia|lia].
  - apply (before_trans _ _ (Name g)); [done| |done]. apply IH; [done|done|lia|lia].
Qed.

Lemma default_loop_nil w envs e j :
  lowerWave w e = 0 → default_loop w envs e j = [] → (j ≤ length envs)%nat →
  ∀ k f, (k < j)%nat → envs !! k = Some f → 0 < Wave f.
Proof.
  intros Hl. induction j as [|j IH]; simpl; intros Hd Hj k f Hk Hf; [lia|].
  destruct (lookup_lt_is_Some_2 envs j ltac:(lia)) as [g Hg]. rewrite Hg in Hd.
  destruct (Z.ltb_spec 0 (Wave g)).
  - destruct (decide (k = j)) as [->|]; [by simplify_eq|]. apply (IH Hd ltac:(lia) k f); [lia|done].
  - by rewrite Hl in Hd.
Qed.

(** ** Properties *)

(** A Pipeline's order lists every environment once, after everything its
    dependsOn names; an environment without a wave and without dependsOn comes
    after the environment listed before it. *)
Theorem ordering_follows_spec envs order deps :
  named_once envs → orderEnvironments envs = OOk order deps →
  order ≡ₚ Name <$> envs ∧
  (∀ e d, e ∈ envs → d ∈ DependsOn e → before d (Name e) order) ∧
  (∀ i e prev, envs !! S i = Some e → envs !! i = Some prev → Wave e ≤ 0 → DependsOn e = [] →
     before (Name prev) (Name e) order).
Proof.
  intros HN E. destruct (order_facts envs order deps HN E) as (_ & HP & _ & HB). split_and!; [done|..].
  - intros e d (i & Hi)%list_elem_of_lookup Hd. apply (HB i e d Hi). right. by left.
  - intros i e prev Hi Hp Hw Hd. apply (HB (S i) e _ Hi). right. right. split; [done|].
    unfold defaultDeps. rewrite Hi. destruct (Z.leb_spec (Wave e) 0); [|lia]. rewrite Hp.
    destruct (Z.ltb_spec 0 (Wave prev)); [|by left].
    apply (w_names _ _ (indexWaves_spec envs)). exists prev. split_and!; [by eapply list_elem_of_lookup_2|done..].
Qed.

(** test, then staging, then two waves of production regions. *)
Definition demo_envs : list EnvironmentSpec :=
  [mkEnv "test" "" [] 0 None; mkEnv "staging" "" [] 0 None;
   mkEnv "prod-eu" "" [] 1 None; mkEnv "prod-us" "" [] 1 None; mkEnv "prod-ap" "" [] 3 None].

Lemma demo_named : named_once demo_envs.
Proof. split; [|set_solver]. apply (bool_decide_unpack _). by vm_compute. Qed.

Definition demo_order : list string := ["test"; "staging"; "prod-eu"; "prod-us"; "prod-ap"].

Lemma ordering_follows_spec_witness :
  ∃ deps, orderEnvironments demo_envs = OOk demo_order deps ∧ demo_order ≡ₚ Name <$> demo_envs ∧
    before "test" "staging" demo_order.
Proof.
  eexists. split; [by vm_compute|].
  edestruct (ordering_follows_spec demo_envs demo_order) as (H1 & _ & H3); [apply demo_named|by vm_compute|].
  split; [done|]. by apply (H3 0%nat (mkEnv "staging" "" [] 0 None) (mkEnv "test" "" [] 0 None)).
Defined.

(** Waves run in order: an environment of a lower wave comes before every
    environment of a higher wave, gaps in the numbering included. *)
Theorem waves_in_order envs order deps e f :
  named_once envs → orderEnvironments envs = OOk order deps →
  e ∈ envs → f ∈ envs → 0 < Wave e < Wave f → before (Name e) (Name f) order.
Proof. intros HN E He Hf Hw. by eapply waves_before with (k := S (Z.to_nat (Wave f))); [..|lia]. Qed.

Lemma waves_in_order_witness : before "prod-us" "prod-ap" demo_order.
Proof.
  eapply (waves_in_order demo_envs demo_order _ (mkEnv "prod-us" "" [] 1 None) (mkEnv "prod-ap" "" [] 3 None));
    [apply demo_named|by vm_compute|set_solver|set_solver|simpl; lia].
Defined.

(** Only an environment with nothing before it starts at once: an
    environment without upstreams is listed first, or is of the lowest wave
    and that wave's first environment has only wave environments before it. *)
Theorem roots_are_first envs order deps i e :
  named_once envs → orderEnvironments envs = OOk order deps →
  envs !! i = Some e → deps_of deps (Name e) = [] →
  i = 0%nat ∨
  (0 < Wave e ∧ (∀ f, f ∈ envs → 0 < Wave f → Wave e ≤ Wave f) ∧
   ∃ j g, envs !! j = Some g ∧ Wave g = Wave e ∧ ∀ k f, (k < j)%nat → envs !! k = Some f → 0 < Wave f).
Proof.
  intros HN E Hi Hr. destruct (order_facts envs order deps HN E) as (_ & _ & HW & _).
  assert (∀ d, ¬ upstreams_of envs i e d) as Hnone.
  { intros d Hd. apply (HW i e Hi) in Hd. rewrite Hr in Hd. by apply elem_of_nil in Hd. }
  assert (DependsOn e = []) as Hdo.
  { destruct (DependsOn e) as [|d ds] eqn:Ed; [done|]. destruct (Hnone d). right. left. rewrite Ed. by left. }
  assert (defaultDeps (indexWaves envs) envs i = []) as Hdd.
  { destruct (defaultDeps _ _ _) as [|d ds] eqn:Ed; [done|]. destruct (Hnone d). right. right.
    rewrite Ed. split; [done|by left]. }
  unfold defaultDeps in Hdd. rewrite Hi in Hdd. destruct (Z.leb_spec (Wave e) 0) as [Hw|Hw].
  - left. destruct i as [|i]; [done|]. exfalso.
    destruct (lookup_lt_is_Some_2 envs i) as [p Hp]; [apply lookup_lt_Some in Hi; lia|]. rewrite Hp in Hdd.
    destruct (Z.ltb_spec 0 (Wave p)); [|done].
    assert (Name p ∈ default [] (byWave (indexWaves envs) !! Wave p)) as Hin.
    { apply (w_names _ _ (indexWaves_spec envs)). exists p. split_and!; [by eapply list_elem_of_lookup_2|done..]. }
    rewrite Hdd in Hin. by apply elem_of_nil in Hin.
  - right. split; [done|]. destruct (lowerWave_spec envs e Hw) as (L1 & L2 & L3).
    assert (lowerWave (indexWaves envs) e = 0) as HL.
    { destruct L2 as [|(f & Hf & Hf0 & Ef)]; [done|]. destruct (Hnone (Name f)). left. apply waveDeps_spec.
      split; [done|]. exists f. split_and!; done. }
    split.
    + intros f Hf Hf0. destruct (decide (Wave f < Wave e)); [|lia]. specialize (L3 f Hf Hf0 ltac:(lia)). lia.
    + destruct (w_first _ _ (indexWaves_spec envs) (Wave e)) as (j & g & Hj & Hg & Eg).
      { apply (w_dom _ _ (indexWaves_spec envs)). exists e. split_and!; [by eapply list_elem_of_lookup_2|done..]. }
      rewrite Hj in Hdd. simpl in Hdd. exists j, g. split_and!; [done|done|].
      eapply default_loop_nil; [done|exact Hdd|]. apply lookup_lt_Some in Hg. lia.
Qed.

Lemma roots_are_first_witness :
  0%nat = 0%nat ∨
  (0 < 0 ∧ (∀ f, f ∈ demo_envs → 0 < Wave f → 0 ≤ Wave f) ∧
   ∃ j g, demo_envs !! j = Some g ∧ Wave g = 0 ∧ ∀ k f, (k < j)%nat → demo_envs !! k = Some f → 0 < Wave f).
Proof.
  eapply (roots_are_first demo_envs demo_order _ 0 (mkEnv "test" "" [] 0 None));
    [apply demo_named|by vm_compute|done|by vm_compute].
Defined.

End Ordering.
