(* ===== verification/Fleet.v ===== *)
(** * Fleet: environments that are fleets of targets

    Model of src/pkg/graph/fleet.go and of [resolveOrdering] of builder.go: a
    fleet environment stands for its targets, each an environment named
    "<environment>-<target>".  The label selectors, the scaling of a percentage,
    the DNS-label check and [path.Join] come from Kubernetes' and Go's
    libraries and are parameters. *)

From stdpp Require Import base gmap strings list.
From Stdlib Require Import Lia ZArith.
From S2P Require Import Prelude Topo Ordering.

Open Scope Z_scope.

Module Fleet.
Import Topo Ordering.

(** An entry of [status.fleets]. *)
Record FleetStatus := mkFleetStatus { fs_Environment : string; fs_Targets : list FleetTarget; fs_Message : string }.

Record Pipeline := mkPipeline {
  Environments : list EnvironmentSpec;
  PausedFleets : list string;
  Fleets : list FleetStatus
}.

Record fleetMember := mkMember {
  fleet : string;
  index : nat;
  maxConcurrent : Z;
  maxUnavailable : Z;
  paused : bool;
  spec : EnvironmentSpec
}.

Inductive fleet_error :=
  | BadSelector (env : string)
  | SelectorFailed (env msg : string)
  | SelectorUnresolved (env : string)
  | NoTargets (env : string)
  | BadMaxUnavailable (env : string)
  | NotDNSLabel (env target name : string)
  | NameUsed (env target name : string).

Definition FleetTargetName (env target : string) : string := env +:+ "-" +:+ target.

Section libs.
(** [LabelSelectorAsSelector] with [Matches]: [None] for an invalid selector.
    [GetScaledValueFromIntOrPercent], rounding up; [validation.IsDNS1123Label];
    [path.Join]. *)
Context (selects : FleetSelector → option (gmap string string → bool)).
Context (scaled : IntOrString → Z → option Z).
Context (IsDNS1123Label : string → bool).
Context (path_Join : string → string → string).

Definition FleetSelectorTarget : string := "Target".

Definition fleetTargets (p : Pipeline) (env : EnvironmentSpec) (f : FleetSpec)
  : fleet_error + list FleetTarget :=
  match Selector f with
  | None => inr (Targets f)
  | Some sel =>
      if bool_decide (sel_Kind sel = FleetSelectorTarget) then
        match selects sel with
        | None => inl (BadSelector (Name env))
        | Some matches => inr (filter (λ t, matches (t_Labels t) = true) (Targets f))
        end
      else
        match list_find (λ s, fs_Environment s = Name env) (Fleets p) with
        | None => inl (SelectorUnresolved (Name env))
        | Some (_, s) =>
            if bool_decide (fs_Targets s = []) && negb (bool_decide (fs_Message s = ""))
            then inl (SelectorFailed (Name env) (fs_Message s))
            else inr (fs_Targets s)
        end
  end.

(** [MaxUnavailableCount]: [None] is an error. *)
Definition MaxUnavailableCount (v : option IntOrString) (total : Z) : option Z :=
  match v with
  | None => Some 0
  | Some v =>
      match scaled v total with
      | None => None
      | Some n =>
          match v with
          | IntVal _ => if n <? 1 then None else Some n
          | StrVal _ => Some (if n <? 1 then 1 else n)
          end
      end
  end.

(** [ValidatePausedFleets]: the entries that name no fleet. *)
Definition fleet_names (envs : list EnvironmentSpec) : gset string :=
  list_to_set (Name <$> filter (λ e, is_Some (Fleet e)) envs).

Definition ValidatePausedFleets (p : Pipeline) : list string :=
  filter (λ f, f ∉ fleet_names (Environments p)) (PausedFleets p).

(** The two nested loops of [fleetMembers], with [members], [byFleet] and
    [names] as their state. *)
Record fm_state := mkFm {
  members : gmap string fleetMember;
  byFleet : gmap string (list string);
  names : gset string
}.

(** The target's environment: the fleet environment with the target's name and
    path (its health check is copied along and not modelled). *)
Definition target_spec (e : EnvironmentSpec) (t : FleetTarget) (name : string) : EnvironmentSpec :=
  let base := if bool_decide (Path e = "") then "environments/" +:+ Name e else Path e in
  mkEnv name (if bool_decide (t_Path t = "") then path_Join base (t_Name t) else t_Path t)
    (DependsOn e) (Wave e) None.

Fixpoint targets_loop (e : EnvironmentSpec) (maxConc maxUnav : Z) (isPaused : bool) (i : nat)
    (ts : list FleetTarget) (s : fm_state) : fleet_error + fm_state :=
  match ts with
  | [] => inr s
  | t :: ts =>
      let name := FleetTargetName (Name e) (t_Name t) in
      if negb (IsDNS1123Label name) then inl (NotDNSLabel (Name e) (t_Name t) name)
      else if bool_decide (name ∈ names s) then inl (NameUsed (Name e) (t_Name t) name)
      else
        targets_loop e maxConc maxUnav isPaused (S i) ts
          (mkFm (<[name := mkMember (Name e) i maxConc maxUnav isPaused (target_spec e t name)]> (members s))
                (<[Name e := default [] (byFleet s !! Name e) ++ [name]]> (byFleet s))
                ({[name]} ∪ names s))
  end.

Fixpoint members_loop (p : Pipeline) (stalePause : bool) (envs : list EnvironmentSpec) (s : fm_state)
  : fleet_error + fm_state :=
  match envs with
  | [] => inr s
  | e :: envs =>
      match Fleet e with
      | None => members_loop p stalePause envs s
      | Some f =>
          match fleetTargets p e f with
          | inl err => inl err
          | inr [] => inl (NoTargets (Name e))
          | inr ts =>
              match MaxUnavailableCount (MaxUnavailable f) (Z.of_nat (length ts)) with
              | None => inl (BadMaxUnavailable (Name e))
              | Some maxUnav =>
                  let isPaused := bool_decide (Name e ∈ PausedFleets p) || stalePause in
                  match targets_loop e (MaxConcurrent f) maxUnav isPaused 0 ts s with
                  | inl err => inl err
                  | inr s => members_loop p stalePause envs s
                  end
              end
          end
      end
  end.

Definition fleetMembers (p : Pipeline) : fleet_error + fm_state :=
  members_loop p (negb (bool_decide (ValidatePausedFleets p = []))) (Environments p)
    (mkFm ∅ ∅ (env_names (Environments p))).

Definition hasFleets (p : Pipeline) : bool := existsb (λ e, bool_decide (is_Some (Fleet e))) (Environments p).

(** ** Expanding the ordering *)

(** [mapDeps]. *)
Definition targets_of (byFleet : gmap string (list string)) (d : string) : list string :=
  match byFleet !! d with Some ts => ts | None => [d] end.

Definition mapDeps (byFleet : gmap string (list string)) (ds : list string) : list string :=
  mjoin (targets_of byFleet <$> ds).

(** The loop over the ordering: each environment, or each target of a fleet,
    gets the mapped upstreams. *)
Definition expand_step (deps byFleet : gmap string (list string))
    (s : list string * gmap string (list string)) (env : string) : list string * gmap string (list string) :=
  match byFleet !! env with
  | None => (s.1 ++ [env], <[env := mapDeps byFleet (deps_of deps env)]> s.2)
  | Some ts =>
      (s.1 ++ ts, foldl (λ m t, <[t := mapDeps byFleet (deps_of deps env)]> m) s.2 ts)
  end.

Definition expandFleets (ordered : list string) (deps byFleet : gmap string (list string))
  : list string * gmap string (list string) :=
  if decide (byFleet = ∅) then (ordered, deps)
  else
    let '(order, expanded) := foldl (expand_step deps byFleet) ([], ∅) ordered in
    (order, byFleet ∪ expanded).

Definition isFleetName (ordered : list string) (deps : gmap string (list string)) (name : string) : bool :=
  match deps !! name with
  | None => false
  | Some _ => negb (bool_decide (name ∈ ordered))
  end.

Inductive resolve_error :=
  | ROrder (err : order_error)
  | RCycle (cycle : list string)
  | RFleet (err : fleet_error).

(** [resolveSpecOrdering] and [resolveOrdering]. *)
Definition resolveSpecOrdering (p : Pipeline) : resolve_error + (list string * gmap string (list string)) :=
  match orderEnvironments (Environments p) with
  | OErr err => inl (ROrder err)
  | OCycle c _ => inl (RCycle c)
  | OOk order deps => inr (order, deps)
  end.

Definition resolveOrdering (p : Pipeline) : resolve_error + (list string * gmap string (list string)) :=
  match resolveSpecOrdering p with
  | inl err => inl err
  | inr (ordered, deps) =>
      if negb (hasFleets p) then inr (ordered, deps)
      else match fleetMembers p with
           | inl err => inl (RFleet err)
           | inr s => inr (expandFleets ordered deps (byFleet s))
           end
  end.

(** ** The read-only views of the fleets *)

Definition EnvironmentSpecFor (p : Pipeline) (name : string) : option EnvironmentSpec :=
  match list_find (λ e, Name e = name ∧ Fleet e = None) (Environments p) with
  | Some (_, e) => Some e
  | None =>
      match fleetMembers p with
      | inl _ => None
      | inr s => spec <$> members s !! name
      end
  end.

Definition HasEnvironment (p : Pipeline) (name : string) : bool :=
  bool_decide (name ∈ Name <$> Environments p) || bool_decide (is_Some (EnvironmentSpecFor p name)).

Definition FleetOf (p : Pipeline) (target : string) : string :=
  match fleetMembers p with
  | inl _ => ""
  | inr s => from_option fleet "" (members s !! target)
  end.

Definition ExpandedEnvironments (p : Pipeline) : list EnvironmentSpec :=
  mjoin ((λ e, match Fleet e with
               | None => [e]
               | Some _ =>
                   match fleetMembers p with
                   | inl _ => []
                   | inr s => omap (λ n, spec <$> members s !! n) (default [] (byFleet s !! Name e))
                   end
               end) <$> Environments p).

Definition EnvironmentNames (p : Pipeline) : list string :=
  let bf := if hasFleets p then match fleetMembers p with inl _ => ∅ | inr s => byFleet s end else ∅ in
  mjoin ((λ e, Name e :: default [] (bf !! Name e)) <$> Environments p).

End libs.

(** ** The members of the fleets *)

Section members.
Context (selects : FleetSelector → option (gmap string string → bool)).
Context (scaled : IntOrString → Z → option Z).
Context (IsDNS1123Label : string → bool).
Context (path_Join : string → string → string).

(** Whether the fleet [f] is paused. *)
Definition fleet_paused (p : Pipeline) (f : string) : bool :=
  bool_decide (f ∈ PausedFleets p) || negb (bool_decide (ValidatePausedFleets p = [])).

Record Members (p : Pipeline) (s : fm_state) : Prop := {
  m_names : ∀ n, n ∈ env_names (Environments p) → n ∈ names s;
  m_mem : ∀ t m, members s !! t = Some m →
            t ∈ names s ∧ (t ∉ env_names (Environments p)) ∧ t ∈ default [] (byFleet s !! fleet m) ∧
            paused m = fleet_paused p (fleet m) ∧ Name (spec m) = t ∧ Fleet (spec m) = None;
  m_by : ∀ f ts, byFleet s !! f = Some ts →
            f ∈ env_names (Environments p) ∧ ts ≠ [] ∧ NoDup ts ∧
            ∀ t, t ∈ ts → ∃ m, members s !! t = Some m ∧ fleet m = f
}.

Lemma add_member p s e m name :
  Members p s → Name e ∈ env_names (Environments p) → name ∉ names s →
  fleet m = Name e → paused m = fleet_paused p (Name e) → Name (spec m) = name → Fleet (spec m) = None →
  Members p (mkFm (<[name := m]> (members s))
               (<[Name e := default [] (byFleet s !! Name e) ++ [name]]> (byFleet s)) ({[name]} ∪ names s)).
Proof.
  intros [H1 H2 H3] He Hn Ef Ep En Efl.
  assert (Hfresh : members s !! name = None).
  { destruct (members s !! name) as [m'|] eqn:E; [|done]. destruct (H2 _ _ E) as [? _]. done. }
  split; simpl.
  - set_solver.
  - intros t m'. rewrite lookup_insert. case_decide as Et.
    + intros [= <-]. subst t. rewrite Ef, lookup_insert_eq. simpl. split_and!; [set_solver| |set_solver|done..].
      intros Hin. by apply Hn, H1.
    + intros Hm. destruct (H2 t m' Hm) as (A1 & A2 & A3 & A4 & A5 & A6). split_and!; [set_solver|done| |done..].
      rewrite lookup_insert. case_decide as Efl'; [|done]. simpl. rewrite Efl'. set_solver.
  - intros f ts. rewrite lookup_insert. case_decide as Ef'.
    + intros [= <-]. subst f. split_and!; [done|by destruct (default _ _)|..].
      * destruct (byFleet s !! Name e) as [ts|] eqn:Eb; simpl; [|apply NoDup_singleton].
        destruct (H3 _ _ Eb) as (_ & _ & HN & Hts). apply NoDup_app. split_and!; [done| |apply NoDup_singleton].
        intros x Hx ->%list_elem_of_singleton. destruct (Hts _ Hx) as (m' & Hm' & _). congruence.
      * intros t [Ht| ->%list_elem_of_singleton]%elem_of_app; [|by rewrite lookup_insert_eq; eauto].
        destruct (byFleet s !! Name e) as [ts|] eqn:Eb; simpl in Ht; [|by apply elem_of_nil in Ht].
        destruct (H3 _ _ Eb) as (_ & _ & _ & Hts). destruct (Hts t Ht) as (m' & Hm' & Em').
        exists m'. rewrite lookup_insert_ne by congruence. done.
    + intros Hb. destruct (H3 _ _ Hb) as (A1 & A2 & A3 & A4). split_and!; [done..|].
      intros t Ht. destruct (A4 t Ht) as (m' & Hm' & Em'). exists m'. rewrite lookup_insert_ne by congruence. done.
Qed.

Lemma targets_loop_members p e mc mu ts : ∀ i s s',
  Members p s → Name e ∈ env_names (Environments p) →
  targets_loop IsDNS1123Label path_Join e mc mu (fleet_paused p (Name e)) i ts s = inr s' →
  Members p s' ∧ (∀ f, f ≠ Name e → byFleet s' !! f = byFleet s !! f) ∧
  default [] (byFleet s' !! Name e) = default [] (byFleet s !! Name e) ++
    ((λ t, FleetTargetName (Name e) (t_Name t)) <$> ts) ∧
  (ts ≠ [] ∨ is_Some (byFleet s !! Name e) → is_Some (byFleet s' !! Name e)).
Proof.
  induction ts as [|t ts IH]; intros i s s' HM He; simpl.
  { intros [= <-]. split_and!; [done|done|by rewrite app_nil_r|naive_solver]. }
  destruct (IsDNS1123Label _); simpl; [|done]. case_bool_decide as Hn; [done|]. intros Hl.
  apply IH in Hl as (I1 & I2 & I3 & I4); [| |done].
  - split_and!; [done| | |].
    + intros f Hf. rewrite I2 by done. simpl. by rewrite lookup_insert_ne.
    + rewrite I3. simpl. rewrite lookup_insert_eq. simpl. by rewrite <-app_assoc.
    + intros _. apply I4. right. simpl. rewrite lookup_insert_eq. eauto.
  - by apply add_member.
Qed.

Lemma members_loop_members p envs : ∀ s s',
  Members p s → (∀ e, e ∈ envs → Name e ∈ env_names (Environments p)) →
  members_loop selects scaled IsDNS1123Label path_Join p (negb (bool_decide (ValidatePausedFleets p = []))) envs s
    = inr s' →
  Members p s' ∧ (∀ f, is_Some (byFleet s !! f) → is_Some (byFleet s' !! f)) ∧
  (∀ f, is_Some (byFleet s' !! f) → is_Some (byFleet s !! f) ∨ ∃ e, e ∈ envs ∧ Name e = f ∧ is_Some (Fleet e)) ∧
  ∀ e, e ∈ envs → is_Some (Fleet e) → is_Some (byFleet s' !! Name e).
Proof.
  induction envs as [|e envs IH]; intros s s' HM Hin; simpl.
  { intros [= <-]. split_and!; [done|done|by left|set_solver]. }
  destruct (Fleet e) as [f|] eqn:Ef.
  2: { intros Hl. apply IH in Hl as (I1 & I2 & I3 & I4); [|done|set_solver]. split_and!; [done|done|set_solver|].
       intros e' [->|He']%elem_of_cons; [rewrite Ef; by intros [? ?]|auto]. }
  destruct (fleetTargets selects p e f) as [|[|t ts]]; [done..|].
  destruct (MaxUnavailableCount _ _ _) as [mu|]; [|done].
  destruct (targets_loop _ _ _ _ _ _ _ _ _) as [|s1] eqn:Et; [done|]. intros Hl.
  apply (targets_loop_members p) in Et as (T1 & T2 & _ & T4); [|done|apply Hin; by left].
  apply IH in Hl as (I1 & I2 & I3 & I4); [|done|set_solver]. split_and!; [done|..].
  - intros g Hg. apply I2. destruct (decide (g = Name e)) as [->|]; [apply T4; by left|by rewrite T2].
  - intros g Hg. destruct (I3 g Hg) as [Hg1|(e' & ? & ? & ?)]; [|right; exists e'; set_solver].
    destruct (decide (g = Name e)) as [->|]; [right; exists e; rewrite Ef; set_solver|].
    left. by rewrite <-T2.
  - intros e' [->|He']%elem_of_cons Hf; [apply I2, T4; by left|auto].
Qed.

Lemma fleetMembers_members p s :
  fleetMembers selects scaled IsDNS1123Label path_Join p = inr s →
  Members p s ∧ ∀ f, is_Some (byFleet s !! f) ↔ ∃ e, e ∈ Environments p ∧ Name e = f ∧ is_Some (Fleet e).
Proof.
  intros H. apply (members_loop_members p) in H as (I1 & _ & I3 & I4).
  - split; [done|]. intros f. split.
    + intros [[? ?]|?]%I3; [done|done].
    + intros (e & He & <- & Hf). by apply I4.
  - by split.
  - intros e He. unfold env_names. rewrite elem_of_list_to_set. by apply list_elem_of_fmap_2.
Qed.
End members.

(** ** The expanded ordering *)

Lemma before_join (f : string → list string) l d n d' n' :
  before d n l → d' ∈ f d → n' ∈ f n → before d' n' (mjoin (f <$> l)).
Proof.
  intros (l1 & l2 & -> & Hd) Hd' (a & b & E)%list_elem_of_split.
  exists (mjoin (f <$> l1) ++ a), (b ++ mjoin (f <$> l2)). split.
  - rewrite fmap_app, join_app. simpl. by rewrite E, <-!app_assoc.
  - apply elem_of_app. left. apply list_elem_of_join. exists (f d). split; [done|]. by apply list_elem_of_fmap_2.
Qed.

Lemma fold_insert_lookup (ts : list string) (v : list string) (m : gmap string (list string)) k :
  foldl (λ m t, <[t := v]> m) m ts !! k = if decide (k ∈ ts) then Some v else m !! k.
Proof.
  revert m. induction ts as [|t ts IH]; intros m; cbn [foldl]; [case_decide; set_solver|].
  rewrite IH. destruct (decide (k ∈ ts)) as [Hk|Hk]; [by rewrite decide_True by set_solver|].
  rewrite lookup_insert. repeat case_decide; set_solver.
Qed.

(** What the loop makes of [ordered]: the targets in order, each with the
    mapped upstreams of its environment. *)
Lemma expand_loop deps bf ordered : ∀ order m,
  NoDup (mjoin (targets_of bf <$> ordered)) →
  let r := foldl (expand_step deps bf) (order, m) ordered in
  r.1 = order ++ mjoin (targets_of bf <$> ordered) ∧
  (∀ k, k ∉ mjoin (targets_of bf <$> ordered) → r.2 !! k = m !! k) ∧
  ∀ n n', n ∈ ordered → n' ∈ targets_of bf n → r.2 !! n' = Some (mapDeps bf (deps_of deps n)).
Proof.
  induction ordered as [|x ordered IH]; intros order m HN; simpl.
  { rewrite app_nil_r. split_and!; [done|done|set_solver]. }
  simpl in HN. apply NoDup_app in HN as (HN1 & HN2 & HN3).
  set (s := expand_step deps bf (order, m) x).
  assert (s.1 = order ++ targets_of bf x ∧
          ∀ k, s.2 !! k = if decide (k ∈ targets_of bf x) then Some (mapDeps bf (deps_of deps x)) else m !! k) as [E1 E2].
  { subst s. unfold expand_step, targets_of. destruct (bf !! x) as [ts|]; simpl.
    - split; [done|]. intros k. apply fold_insert_lookup.
    - split; [done|]. intros k. rewrite lookup_insert. repeat case_decide; set_solver. }
  destruct s as [o' m'] eqn:Es. simpl in E1, E2. destruct (IH o' m' HN3) as (I1 & I2 & I3). split_and!.
  - rewrite I1, E1. by rewrite <-app_assoc.
  - intros k Hk. rewrite I2 by set_solver. rewrite E2. apply decide_False. set_solver.
  - intros n n' [->|Hn]%elem_of_cons Hn'; [|by apply I3]. rewrite I2 by (by apply HN2).
    by rewrite E2, decide_True.
Qed.

Lemma expandFleets_spec ordered deps bf :
  NoDup (mjoin (targets_of bf <$> ordered)) → (∀ f ts t, bf !! f = Some ts → t ∈ ts → bf !! t = None) →
  (expandFleets ordered deps bf).1 = mjoin (targets_of bf <$> ordered) ∧
  ∀ n n', n ∈ ordered → n' ∈ targets_of bf n →
    deps_of (expandFleets ordered deps bf).2 n' = mapDeps bf (deps_of deps n).
Proof.
  intros HN Hbf. unfold expandFleets. case_decide as E.
  - subst bf. assert (∀ l, mjoin (targets_of ∅ <$> l) = l) as Hid.
    { induction l as [|x l IH]; [done|]. change (x :: mjoin (targets_of ∅ <$> l) = x :: l). by rewrite IH. }
    simpl. rewrite Hid. split; [done|]. intros n n' _ ->%list_elem_of_singleton. unfold mapDeps. by rewrite Hid.
  - destruct (expand_loop deps bf ordered [] ∅ HN) as (E1 & _ & E3).
    destruct (foldl _ _ _) as [o m]. simpl in *. split; [done|].
    intros n n' Hn Hn'. unfold deps_of at 1.
    assert (bf !! n' = None) as Hb.
    { unfold targets_of in Hn'. destruct (bf !! n) as [ts|] eqn:Eb; [by eapply Hbf|].
      by apply list_elem_of_singleton in Hn' as ->. }
    rewrite lookup_union_r by done. by rewrite (E3 n n').
Qed.

Lemma targets_nodup p s (ordered : list string) :
  Members p s → NoDup ordered → (∀ n, n ∈ ordered → n ∈ env_names (Environments p)) →
  NoDup (mjoin (targets_of (byFleet s) <$> ordered)).
Proof.
  intros [H1 H2 H3]. induction ordered as [|x l IH]; intros HN Hin; simpl; [constructor|].
  apply NoDup_cons in HN as [Hx HN]. apply NoDup_app. split_and!; [| |apply IH; set_solver].
  - unfold targets_of. destruct (byFleet s !! x) eqn:E; [|apply NoDup_singleton]. by apply H3 in E as (_ & _ & ? & _).
  - intros t Ht (lt & Hlt & (y & -> & Hy)%list_elem_of_fmap)%list_elem_of_join.
    unfold targets_of in Ht, Hlt.
    assert (∀ y t, t ∈ match byFleet s !! y with Some ts => ts | None => [y] end → y ∈ env_names (Environments p) →
      (∃ m, members s !! t = Some m ∧ fleet m = y ∧ t ∉ env_names (Environments p)) ∨ t = y) as Hcase.
    { intros z u Hu Hz. destruct (byFleet s !! z) as [ts|] eqn:E; [|right; by apply list_elem_of_singleton in Hu].
      left. apply H3 in E as (_ & _ & _ & E). destruct (E u Hu) as (m & Hm & Em). exists m.
      split_and!; [done|done|]. by apply H2 in Hm as (_ & ? & _). }
    destruct (Hcase x t Ht) as [(m & Hm & Em & Et)|Ex]; [set_solver|..];
      destruct (Hcase y t Hlt) as [(m' & Hm' & Em' & Et')|Ey]; [set_solver|..].
    all: try (simplify_eq; done). all: set_solver.
Qed.

Section resolve.
Context (selects : FleetSelector → option (gmap string string → bool)).
Context (scaled : IntOrString → Z → option Z).
Context (IsDNS1123Label : string → bool).
Context (path_Join : string → string → string).

Lemma resolve_expands p s order deps :
  named_once (Environments p) →
  fleetMembers selects scaled IsDNS1123Label path_Join p = inr s →
  resolveOrdering selects scaled IsDNS1123Label path_Join p = inr (order, deps) →
  NoDup order ∧
  (∀ n d, n ∈ order → d ∈ deps_of deps n → before d n order) ∧
  (∀ e d n' d', e ∈ Environments p → d ∈ DependsOn e →
     n' ∈ targets_of (byFleet s) (Name e) → d' ∈ targets_of (byFleet s) d → before d' n' order).
Proof.
  intros Hn Hs Hr. apply fleetMembers_members in Hs as Hm. destruct Hm as [HM Hdom].
  unfold resolveOrdering, resolveSpecOrdering in Hr.
  destruct (orderEnvironments (Environments p)) as [| |o ds] eqn:Eo; [done..|].
  destruct (order_facts _ _ _ Hn Eo) as (Hnd & HP & HW & HB).
  assert ((order, deps) = expandFleets o ds (byFleet s)) as E.
  { rewrite Hs in Hr. destruct (hasFleets p) eqn:Hf; simpl in Hr; [by simplify_eq|].
    assert (byFleet s = ∅) as Hemp; [|unfold expandFleets; rewrite decide_True by done; by simplify_eq].
    apply map_eq. intros f. rewrite lookup_empty. destruct (byFleet s !! f) eqn:Ef; [|done]. exfalso.
    destruct (proj1 (Hdom f)) as (e & He & _ & Hfe); [by rewrite Ef|].
    assert (hasFleets p = true); [|congruence]. apply existsb_exists. exists e.
    split; [by apply list_elem_of_In|by apply bool_decide_eq_true]. }
  clear Hr.
  assert (Hin : ∀ n, n ∈ o → n ∈ env_names (Environments p)).
  { intros n Hn'. unfold env_names. rewrite elem_of_list_to_set. by rewrite <-HP. }
  pose proof (targets_nodup p s o HM Hnd Hin) as HNt.
  destruct (expandFleets_spec o ds (byFleet s) HNt) as [E1 E2].
  { intros f ts t Hts Ht. destruct (byFleet s !! t) as [ts'|] eqn:Et; [|done]. exfalso.
    apply (m_by _ _ HM) in Hts as (_ & _ & _ & Hts). destruct (Hts t Ht) as (m & Hmt & _).
    apply (m_mem _ _ HM) in Hmt as (_ & Hmt & _). by apply (m_by _ _ HM) in Et as (? & _). }
  rewrite <-E in E1, E2. simpl in E1, E2. rewrite E1. split_and!; [done|..].
  - intros n' d' (lt & Hlt & (n & -> & Hn'o)%list_elem_of_fmap)%list_elem_of_join Hd'.
    rewrite (E2 n n' Hn'o Hlt) in Hd'. apply list_elem_of_join in Hd' as (ld & Hld & (d & -> & Hd)%list_elem_of_fmap).
    apply (before_join _ _ d n); [|done|done].
    assert (n ∈ env_names (Environments p)) as (i & e & Hi & <-)%env_names_elem by auto.
    apply (HB i e d Hi). by apply HW.
  - intros e d n' d' (i & Hi)%list_elem_of_lookup Hd Hn' Hd'. apply (before_join _ _ d (Name e)); [|done|done].
    apply (HB i e d Hi). right. by left.
Qed.

Lemma no_fleets_members p :
  hasFleets p = false →
  ∃ s, fleetMembers selects scaled IsDNS1123Label path_Join p = inr s.
Proof.
  intros H. unfold fleetMembers, hasFleets in *.
  generalize (negb (bool_decide (ValidatePausedFleets p = []))). generalize (mkFm ∅ ∅ (env_names (Environments p))).
  induction (Environments p) as [|e envs IH]; intros s b; simpl in *; [eauto|].
  apply orb_false_iff in H as [H1 H2]. apply bool_decide_eq_false in H1.
  destruct (Fleet e); [destruct H1; eauto|]. by apply IH.
Qed.

(** What every use of the ordering relies on: names once, upstreams first. *)
Lemma resolve_ordered p order deps :
  named_once (Environments p) → resolveOrdering selects scaled IsDNS1123Label path_Join p = inr (order, deps) →
  NoDup order ∧ ∀ n d, n ∈ order → d ∈ deps_of deps n → before d n order.
Proof.
  intros Hn Hr. destruct (fleetMembers selects scaled IsDNS1123Label path_Join p) as [err|s] eqn:Es.
  - exfalso. unfold resolveOrdering in Hr. destruct (resolveSpecOrdering p) as [|[o ds]]; [done|].
    destruct (hasFleets p) eqn:Hf; simpl in Hr; [by rewrite Es in Hr|].
    destruct (no_fleets_members p Hf) as [s Hs]. congruence.
  - destruct (resolve_expands p s order deps Hn Es Hr) as (? & ? & _). done.
Qed.
End resolve.

(** ** Properties *)

Section properties.
Context (selects : FleetSelector → option (gmap string string → bool)).
Context (scaled : IntOrString → Z → option Z).
Context (IsDNS1123Label : string → bool).
Context (path_Join : string → string → string).

(** The targets of the fleets are environments of their own: every fleet
    has one, their names are distinct from each other across fleets and from
    the names of the Pipeline's environments.  A pause fails closed: a target
    is paused when its fleet is named in pausedFleets, and every target is when
    pausedFleets names something that is not a fleet. *)
Theorem fleet_targets_distinct p s :
  fleetMembers selects scaled IsDNS1123Label path_Join p = inr s →
  (∀ e f, e ∈ Environments p → Fleet e = Some f →
     ∃ ts, byFleet s !! Name e = Some ts ∧ ts ≠ [] ∧ NoDup ts ∧
       ∀ t, t ∈ ts → (t ∉ Name <$> Environments p) ∧
         ∃ m, members s !! t = Some m ∧ fleet m = Name e ∧
           ((∃ x, x ∈ PausedFleets p ∧ (x = Name e ∨ x ∉ fleet_names (Environments p))) → paused m = true)) ∧
  (∀ f f' ts ts' t, byFleet s !! f = Some ts → byFleet s !! f' = Some ts' → t ∈ ts → t ∈ ts' → f = f').
Proof.
  intros H. apply fleetMembers_members in H as [[H1 H2 H3] Hdom]. split.
  - intros e f He Hf. destruct (proj2 (Hdom (Name e))) as [ts Hts]; [by rewrite ?Hf; eauto|].
    exists ts. destruct (H3 _ _ Hts) as (_ & A2 & A3 & A4). split_and!; [done..|]. intros t Ht.
    destruct (A4 t Ht) as (m & Hm & Em). destruct (H2 t m Hm) as (_ & B2 & _ & B4 & _). split.
    + unfold env_names in B2. by rewrite elem_of_list_to_set in B2.
    + exists m. split_and!; [done|done|]. intros (x & Hx & Hx'). rewrite B4, Em. unfold fleet_paused.
      apply orb_true_iff. destruct Hx' as [->|Hx']; [left; by apply bool_decide_eq_true|right].
      apply negb_true_iff, bool_decide_eq_false. intros E.
      assert (x ∈ ValidatePausedFleets p) as Hin by (apply list_elem_of_filter; done).
      rewrite E in Hin. by apply elem_of_nil in Hin.
  - intros f f' ts ts' t Hts Hts' Ht Ht'. apply H3 in Hts as (_ & _ & _ & Hts). apply H3 in Hts' as (_ & _ & _ & Hts').
    destruct (Hts t Ht) as (m & Hm & <-). destruct (Hts' t Ht') as (m' & Hm' & <-). congruence.
Qed.

(** A fleet takes its place in the order with all its targets: the
    resolved order lists no name twice, every environment and target comes
    after everything the resolved dependencies give it, and what dependsOn
    names is waited for target by target. *)
Theorem resolveOrdering_expands p s order deps :
  named_once (Environments p) →
  fleetMembers selects scaled IsDNS1123Label path_Join p = inr s →
  resolveOrdering selects scaled IsDNS1123Label path_Join p = inr (order, deps) →
  NoDup order ∧
  (∀ n d, n ∈ order → d ∈ deps_of deps n → before d n order) ∧
  (∀ e d n' d', e ∈ Environments p → d ∈ DependsOn e →
     n' ∈ targets_of (byFleet s) (Name e) → d' ∈ targets_of (byFleet s) d → before d' n' order).
Proof. apply resolve_expands. Qed.

(** maxUnavailable, once set, is an error or at least 1, whatever the scaling
    of a percentage answers. *)
Lemma maxUnavailable_positive v total n :
  MaxUnavailableCount scaled (Some v) total = Some n → 1 ≤ n.
Proof.
  unfold MaxUnavailableCount. destruct (scaled v total) as [k|]; [|done].
  destruct v; destruct (Z.ltb_spec k 1); intros E; by simplify_eq.
Qed.
End properties.

(** A fleet of two clusters after staging, and a smoke test after the fleet. *)
Definition demo_pipeline : Pipeline :=
  mkPipeline
    [mkEnv "staging" "" [] 0 None;
     mkEnv "prod" "" ["staging"] 0 (Some (mkFleet [mkTarget "eu" ∅ ""; mkTarget "us" ∅ ""] None 1 (Some (IntVal 1))));
     mkEnv "smoke" "" ["prod"] 0 None] ["gone"] [].

Definition demo_scaled (v : IntOrString) (total : Z) : option Z :=
  match v with IntVal n => Some n | StrVal _ => None end.

Definition demo_members := fleetMembers (λ _, None) demo_scaled (λ _, true) (λ a b, a +:+ "/" +:+ b) demo_pipeline.

Lemma fleet_targets_distinct_witness :
  ∃ s, demo_members = inr s ∧ byFleet s !! "prod" = Some ["prod-eu"; "prod-us"] ∧
    ∀ f f' ts ts' t, byFleet s !! f = Some ts → byFleet s !! f' = Some ts' → t ∈ ts → t ∈ ts' → f = f'.
Proof.
  eexists. split; [by vm_compute|]. split; [by vm_compute|].
  eapply (fleet_targets_distinct (λ _, None) demo_scaled (λ _, true) (λ a b, a +:+ "/" +:+ b) demo_pipeline).
  by vm_compute.
Defined.

Lemma resolveOrdering_expands_witness :
  before "prod-eu" "smoke" ["staging"; "prod-eu"; "prod-us"; "smoke"].
Proof.
  edestruct (resolveOrdering_expands (λ _, None) demo_scaled (λ _, true) (λ a b, a +:+ "/" +:+ b) demo_pipeline)
    as (_ & _ & H).
  - split; [apply (bool_decide_unpack _); by vm_compute|]. apply (bool_decide_unpack _). by vm_compute.
  - by vm_compute.
  - by vm_compute.
  - apply (H (mkEnv "smoke" "" ["prod"] 0 None) "prod"); [|by left|by left|by left]. simpl. set_solver.
Defined.

End Fleet.
