(* ===== verification/Upstreams.v ===== *)
(** * Upstreams: which environments a Bundle promotes, and what it waits for

    Model of [filterByIntent], [CarriedEnvironments], [envPathTo] and
    [filteredDeps] of src/pkg/graph/builder.go and of
    src/pkg/graph/upstreams.go: the environments of a Bundle's promotion, the
    direct upstreams of each once skipped environments are bridged, and whether
    a policy gate holds the Bundle.

    The functions take the Pipeline's ordering through the interface
    [Resolver]; [fleet_resolver] shows that [Fleet.resolveOrdering] implements
    it. *)

From stdpp Require Import base gmap strings list relations.
From Stdlib Require Import Lia ZArith.
From S2P Require Import Prelude Topo Walk Ordering Fleet.

Open Scope Z_scope.

(** ** The ordering as its clients see it *)

(** [resolve p] is the order of the Pipeline's environments with their
    dependencies, or [None] for an error. *)
Class Resolver (P : Type) := resolve : P → option (list string * gmap string (list string)).

(** What a resolved ordering promises: every name once, upstreams first. *)
Class ResolverOk (P : Type) `{!Resolver P} (valid : P → Prop) : Prop := {
  resolve_nodup : ∀ p order deps, valid p → resolve p = Some (order, deps) → NoDup order;
  resolve_before : ∀ p order deps n d, valid p → resolve p = Some (order, deps) →
    n ∈ order → d ∈ Topo.deps_of deps n → Topo.before d n order
}.

Module Upstreams.
Import Topo.

(** ** The Bundle and its steps *)

Record BundleIntent := mkIntent {
  TargetEnvironment : string;
  SkipEnvironments : list string;
  TargetOnly : bool
}.

Record UpstreamEvidence := mkEvidence { ue_Environment : string; ue_SoakMinutes : Z }.

Record EnvironmentStatus := mkEnvStatus { es_Name : string; es_Phase : string; es_SoakMinutes : Z }.

Record Bundle := mkBundle {
  b_Name : string;
  Intent : option BundleIntent;
  Phase : string;
  b_Environments : list EnvironmentStatus;
  b_UpstreamEvidence : list UpstreamEvidence
}.

Record PromotionStep := mkStep {
  BundleName : string;
  Environment : string;
  RequiredGates : list string;
  State : string
}.

Record PolicyGate := mkGate {
  g_Namespace : string;
  g_Name : string;
  Labels : gmap string string;
  SkipPermission : bool;
  Ready : bool;
  LastEvaluatedAt : option Time
}.

(** [gate.Labels[k]]: empty when missing. *)
Definition label (g : PolicyGate) (k : string) : string := default "" (Labels g !! k).

(** ** The environments of the promotion *)

(** The environments a targetOnly Bundle carries the verification of. *)
Definition CarriedEnvironments (b : Bundle) : gset string :=
  match Intent b with
  | Some i => if TargetOnly i then list_to_set (ue_Environment <$> b_UpstreamEvidence b) else ∅
  | None => ∅
  end.

(** The names in a dependency map: recursion along [deps] is at most as deep. *)
Definition all_names (deps : gmap string (list string)) : list string :=
  mjoin ((λ p, p.1 :: p.2) <$> map_to_list deps).

(** The [walk] of [envPathTo]. *)
Fixpoint anc_walk (fuel : nat) (deps : gmap string (list string)) (e : string) (ancestors : gset string)
  : gset string :=
  match fuel with
  | O => ancestors
  | S fuel =>
      if decide (e ∈ ancestors) then ancestors
      else foldl (λ a d, anc_walk fuel deps d a) ({[e]} ∪ ancestors) (deps_of deps e)
  end.

Definition walk_fuel (deps : gmap string (list string)) : nat := S (S (length (all_names deps))).

Definition envPathTo (orderedEnvs : list string) (deps : gmap string (list string)) (target : string)
  : list string :=
  filter (λ e, e ∈ anc_walk (walk_fuel deps) deps target ∅) orderedEnvs.

Inductive intent_error := UnknownTarget (target : string) | AllSkipped.

Definition filterByIntent (orderedEnvs : list string) (deps : gmap string (list string)) (b : Bundle)
  : intent_error + list string :=
  match Intent b with
  | None => inr orderedEnvs
  | Some i =>
      let target := TargetEnvironment i in
      let found := Fleet.isFleetName orderedEnvs deps target || bool_decide (target ∈ orderedEnvs) in
      if negb (bool_decide (target = "")) && negb found then inl (UnknownTarget target)
      else
        let result := if bool_decide (target = "") then orderedEnvs else envPathTo orderedEnvs deps target in
        let result := filter (λ e, e ∉ SkipEnvironments i) result in
        let result := filter (λ e, e ∉ CarriedEnvironments b) result in
        if decide (result = []) then inl AllSkipped else inr result
  end.

(** The [walk] of [filteredDeps]: its state is [result] and [seen]. *)
Fixpoint bridge_walk (fuel : nat) (deps : gmap string (list string)) (filteredSet : gset string) (e : string)
    (s : list string * gset string) : list string * gset string :=
  match fuel with
  | O => s
  | S fuel =>
      foldl (λ s dep,
        if decide (dep ∈ s.2) then s
        else
          let seen := {[dep]} ∪ s.2 in
          if decide (dep ∈ filteredSet) then (s.1 ++ [dep], seen)
          else bridge_walk fuel deps filteredSet dep (s.1, seen)) s (deps_of deps e)
  end.

Definition filteredDeps (envName : string) (deps : gmap string (list string)) (filteredSet : gset string)
  : list string :=
  (bridge_walk (walk_fuel deps) deps filteredSet envName ([], ∅)).1.

(** ** Direct upstreams, and the gates *)

Section resolver.
Context {P : Type} `{!Resolver P}.

Inductive upstream_error := BadOrdering | BadIntent (err : intent_error) | NotPromoted (env : string).

Definition DirectUpstreams (p : P) (b : Bundle) (envName : string) : upstream_error + list string :=
  match resolve p with
  | None => inl BadOrdering
  | Some (ordered, deps) =>
      match filterByIntent ordered deps b with
      | inl err => inl (BadIntent err)
      | inr filtered =>
          let filteredSet : gset string := list_to_set filtered in
          if decide (envName ∈ filteredSet) then inr (filteredDeps envName deps filteredSet)
          else inl (NotPromoted envName)
      end
  end.

Definition SoakUpstreams (p : P) (b : Bundle) (envName : string) : upstream_error + list string :=
  if decide (CarriedEnvironments b = ∅) then DirectUpstreams p b envName
  else DirectUpstreams p (mkBundle (b_Name b) (Intent b) (Phase b) (b_Environments b) []) envName.

Definition UpstreamSoak (b : Bundle) (env : string) : Z * bool :=
  match list_find (λ e, es_Name e = env) (b_Environments b) with
  | Some (_, e) => if bool_decide (es_Phase e = "Verified") then (es_SoakMinutes e, true) else (0, false)
  | None =>
      if decide (env ∈ CarriedEnvironments b) then
        match list_find (λ e, ue_Environment e = env) (b_UpstreamEvidence b) with
        | Some (_, e) => (ue_SoakMinutes e, true)
        | None => (0, false)
        end
      else (0, false)
  end.

(** The inner loop of [upstreamsVerified] for one upstream: [None] is the
    early [return false], otherwise how many steps are Verified. *)
Fixpoint count_verified (b : Bundle) (up : string) (steps : list PromotionStep) (verified : nat) : option nat :=
  match steps with
  | [] => Some verified
  | s :: steps =>
      if negb (bool_decide (BundleName s = b_Name b)) || negb (bool_decide (Environment s = up))
      then count_verified b up steps verified
      else if negb (bool_decide (State s = "Verified")) then None
      else count_verified b up steps (S verified)
  end.

Definition UpstreamsVerified (p : P) (b : Bundle) (envName : string) (steps : list PromotionStep) : bool :=
  match DirectUpstreams p b envName with
  | inl _ => false
  | inr ups =>
      forallb (λ up, match count_verified b up steps 0 with
                     | None => false
                     | Some verified => negb (verified =? 0)%nat
                     end) ups
  end.

(** The loop of [gateHolds]: [None] is the early [return true], otherwise
    whether the Bundle has a step in the environment. *)
Fixpoint gate_loop (b : Bundle) (gate : PolicyGate) (env : string) (steps : list PromotionStep) (stepped : bool)
  : option bool :=
  match steps with
  | [] => Some stepped
  | s :: steps =>
      if negb (bool_decide (BundleName s = b_Name b)) || negb (bool_decide (Environment s = env))
      then gate_loop b gate env steps stepped
      else
        let pending := bool_decide (State s = "") || bool_decide (State s = "Pending") in
        if pending && bool_decide (g_Name gate ∈ RequiredGates s) then None
        else gate_loop b gate env steps true
  end.

Definition final_phase (phase : string) : bool :=
  bool_decide (phase = "Failed") || bool_decide (phase = "Superseded") || bool_decide (phase = "Rejected").

Definition gateHolds (p : P) (b : Bundle) (gate : PolicyGate) (steps : list PromotionStep) : bool :=
  let env := label gate "kardinal.io/environment" in
  if Ready gate || bool_decide (env = "") || negb (bool_decide (label gate "kardinal.io/bundle" = b_Name b)) then false
  else if final_phase (Phase b) then false
  else match gate_loop b gate env steps false with
       | None => true
       | Some stepped => negb stepped && UpstreamsVerified p b env steps
       end.

Inductive gate_state := Pass | Block | Superseded | Rejected | Pending | Waiting.

(** [GateState]; the Pipeline or the Bundle may be gone. *)
Definition GateState (p : option P) (b : option Bundle) (gate : PolicyGate) (steps : list PromotionStep) : gate_state :=
  if Ready gate then Pass
  else if match p, b with Some p, Some b => gateHolds p b gate steps | _, _ => false end then Block
  else if bool_decide ((Phase <$> b) = Some "Superseded") then Superseded
  else if bool_decide ((Phase <$> b) = Some "Rejected") then Rejected
  else if bool_decide (LastEvaluatedAt gate = None) then Pending
  else Waiting.

End resolver.

(** ** The walks are depth-first walks *)

Lemma anc_walk_dfs deps fuel : ∀ ds seen,
  foldl (λ a d, anc_walk fuel deps d a) (list_to_set seen) ds = list_to_set (dfs (deps_of deps) fuel ds seen).
Proof.
  induction fuel as [|fuel IH]; intros ds.
  - simpl. induction ds as [|d ds IHds]; intros seen; simpl; [done|]. apply IHds.
  - induction ds as [|d ds IHds]; intros seen; simpl; [done|]. simpl in IHds.
    destruct (decide (d ∈ (list_to_set seen : gset string))) as [Hd|Hd];
      rewrite elem_of_list_to_set in Hd.
    + rewrite decide_True by done. apply IHds.
    + rewrite decide_False by done. rewrite <-IHds. f_equal. rewrite <-IH. f_equal. set_solver.
Qed.

Definition bridge_next (deps : gmap string (list string)) (F : gset string) (d : string) : list string :=
  if decide (d ∈ F) then [] else deps_of deps d.

Lemma bridge_walk_dfs deps F fuel : ∀ e seen,
  bridge_walk fuel deps F e (filter (.∈ F) seen, list_to_set seen) =
  let r := dfs (bridge_next deps F) fuel (deps_of deps e) seen in (filter (.∈ F) r, list_to_set r).
Proof.
  induction fuel as [|fuel IH]; intros e; simpl; [done|].
  induction (deps_of deps e) as [|d ds IHds]; intros seen; simpl; [done|].
  destruct (decide (d ∈ (list_to_set seen : gset string))) as [Hd|Hd]; rewrite elem_of_list_to_set in Hd.
  { rewrite decide_True by done. apply IHds. }
  rewrite (decide_False (P := d ∈ seen)) by done. rewrite <-IHds. f_equal.
  assert (E : ({[d]} ∪ list_to_set seen : gset string) = list_to_set (seen ++ [d])) by set_solver.
  assert (Hn : bridge_next deps F d = if decide (d ∈ F) then [] else deps_of deps d) by done.
  rewrite E, Hn. destruct (decide (d ∈ F)) as [HF|HF].
  - assert (dfs (bridge_next deps F) fuel [] (seen ++ [d]) = seen ++ [d]) as -> by by destruct fuel.
    rewrite filter_app, filter_cons_True, filter_nil by done. done.
  - rewrite <-IH. do 2 f_equal. rewrite filter_app, filter_cons_False, filter_nil, app_nil_r by done. done.
Qed.

Lemma all_names_closed deps x y : y ∈ deps_of deps x → y ∈ all_names deps.
Proof.
  unfold deps_of, all_names. destruct (deps !! x) as [ds|] eqn:E; simpl; [|intros H; by apply elem_of_nil in H].
  intros Hy. apply list_elem_of_join. exists (x :: ds). split; [by right|].
  apply list_elem_of_fmap. exists (x, ds). split; [done|]. by apply elem_of_map_to_list.
Qed.

(** [depends deps a b]: [a] lists [b] as an upstream. *)
Definition depends (deps : gmap string (list string)) (a b : string) : Prop := b ∈ deps_of deps a.

Lemma envPathTo_spec order deps target e :
  e ∈ envPathTo order deps target ↔ e ∈ order ∧ rtc (depends deps) target e.
Proof.
  unfold envPathTo. rewrite list_elem_of_filter.
  assert (anc_walk (walk_fuel deps) deps target ∅ = list_to_set (dfs (deps_of deps) (walk_fuel deps) [target] [])) as ->
    by (rewrite <-(anc_walk_dfs deps (walk_fuel deps) [target] []); done).
  rewrite elem_of_list_to_set.
  destruct (dfs_spec (deps_of deps) (target :: all_names deps)) with (fuel := walk_fuel deps) (ds := [target]) as [_ ->].
  - intros x y _ Hy. right. by eapply all_names_closed.
  - set_solver.
  - unfold walk_fuel. simpl. lia.
  - unfold reaches. set_solver.
Qed.

(** [bridged deps F e x]: [x] is kept and is reached from [e] through
    environments that are not. *)
Inductive bridged (deps : gmap string (list string)) (F : gset string) : string → string → Prop :=
  | bridged_direct e x : x ∈ deps_of deps e → x ∈ F → bridged deps F e x
  | bridged_skip e d x : d ∈ deps_of deps e → d ∉ F → bridged deps F d x → bridged deps F e x.

Lemma bridged_reaches deps F e x :
  bridged deps F e x ↔ x ∈ F ∧ ∃ d, d ∈ deps_of deps e ∧ reaches (bridge_next deps F) d x.
Proof.
  split.
  - induction 1 as [e x Hx HF|e d x Hd HF _ IH]; [split; [done|]; exists x; split; [done|apply rtc_refl]|].
    destruct IH as (HxF & y & Hy & Hr). split; [done|]. exists d. split; [done|].
    eapply rtc_l; [|done]. unfold bridge_next. by rewrite decide_False.
  - intros (HxF & d & Hd & Hr). revert e Hd. induction Hr as [d|d y x Hdy Hyx IH]; intros e Hd.
    + by apply bridged_direct.
    + unfold bridge_next in Hdy. destruct (decide (d ∈ F)) as [|HF]; [by apply elem_of_nil in Hdy|].
      eapply bridged_skip; [done|done|]. by apply IH.
Qed.

Lemma filteredDeps_spec e deps F :
  NoDup (filteredDeps e deps F) ∧ ∀ x, x ∈ filteredDeps e deps F ↔ bridged deps F e x.
Proof.
  unfold filteredDeps. pose proof (bridge_walk_dfs deps F (walk_fuel deps) e []) as E.
  change (filter (.∈ F) []) with (@nil string) in E. change (list_to_set []) with (∅ : gset string) in E.
  rewrite E. cbn [fst].
  destruct (dfs_spec (bridge_next deps F) (all_names deps)) with (fuel := walk_fuel deps) (ds := deps_of deps e)
    as [HN HD].
  - intros x y _ Hy. unfold bridge_next in Hy. destruct (decide (x ∈ F)); [by apply elem_of_nil in Hy|].
    by eapply all_names_closed.
  - intros d Hd. by eapply all_names_closed.
  - unfold walk_fuel. lia.
  - split; [by apply NoDup_filter|]. intros x. by rewrite list_elem_of_filter, HD, bridged_reaches.
Qed.

(** ** Bridging keeps the order *)

Lemma bridged_first deps F n : ∀ u a,
  nsteps (depends deps) (S n) u a → a ∈ F →
  ∃ v m, (m ≤ n)%nat ∧ v ∈ F ∧ bridged deps F u v ∧ nsteps (depends deps) m v a.
Proof.
  induction n as [|n IH]; intros u a Hs Ha.
  - apply nsteps_once_inv in Hs. exists a, 0%nat. split_and!; [lia|done|by apply bridged_direct|constructor].
  - inversion Hs as [|? ? d ? Hd Hr]; subst. destruct (decide (d ∈ F)) as [HF|HF].
    + exists d, (S n). split_and!; [lia|done|by apply bridged_direct|done].
    + destruct (IH d a Hr Ha) as (v & m & Hm & Hv & Hb & Hn). exists v, m.
      split_and!; [lia|done|by eapply bridged_skip|done].
Qed.

Lemma bridged_tc deps F n : ∀ m u a,
  (m ≤ n)%nat → nsteps (depends deps) (S m) u a → a ∈ F → tc (bridged deps F) u a.
Proof.
  induction n as [|n IH]; intros m u a Hm Hs Ha;
    destruct (bridged_first deps F m u a Hs Ha) as (v & k & Hk & Hv & Hb & Hn).
  - replace k with 0%nat in Hn by lia. inversion Hn; subst. by apply tc_once.
  - destruct k as [|k]; [inversion Hn; subst; by apply tc_once|].
    eapply tc_l; [done|]. apply (IH k); [lia|done|done].
Qed.

Lemma bridged_before deps F order e x :
  NoDup order → (∀ n d, n ∈ order → d ∈ deps_of deps n → before d n order) →
  bridged deps F e x → e ∈ order → before x e order.
Proof.
  intros HN HB. induction 1 as [e x Hx HF|e d x Hd HF _ IH]; intros He; [by apply HB|].
  pose proof (HB e d He Hd) as Hde. apply (before_trans _ _ d); [done| |done]. apply IH.
  by apply Ordering.before_elem in Hde as [? _].
Qed.

Lemma filterByIntent_spec order deps b filtered :
  filterByIntent order deps b = inr filtered →
  filtered `sublist_of` order ∧
  ∀ e, e ∈ filtered ↔ e ∈ order ∧
    match Intent b with
    | None => True
    | Some i => (TargetEnvironment i = "" ∨ rtc (depends deps) (TargetEnvironment i) e) ∧
                (e ∉ SkipEnvironments i) ∧ e ∉ CarriedEnvironments b
    end.
Proof.
  unfold filterByIntent. destruct (Intent b) as [i|].
  2: { intros [= <-]. split; [done|]. naive_solver. }
  set (target := TargetEnvironment i). destruct (_ && _); [done|].
  set (result := if bool_decide (target = "") then order else envPathTo order deps target).
  assert (result `sublist_of` order ∧ ∀ e, e ∈ result ↔ e ∈ order ∧ (target = "" ∨ rtc (depends deps) target e)) as [R1 R2].
  { subst result. case_bool_decide as E; [split; [done|naive_solver]|]. split.
    - unfold envPathTo. apply sublist_filter.
    - intros e. rewrite envPathTo_spec. naive_solver. }
  case_decide as E; [done|]. intros [= <-]. split.
  - do 2 (etrans; [apply sublist_filter|]). done.
  - intros e. rewrite !list_elem_of_filter, R2. naive_solver.
Qed.

(** ** The ordering of [Fleet] implements the interface *)

Section fleets.
Context (selects : Ordering.FleetSelector → option (gmap string string → bool)).
Context (scaled : Ordering.IntOrString → Z → option Z).
Context (IsDNS1123Label : string → bool).
Context (path_Join : string → string → string).

Definition fleet_resolver : Resolver Fleet.Pipeline := λ p,
  match Fleet.resolveOrdering selects scaled IsDNS1123Label path_Join p with
  | inl _ => None
  | inr r => Some r
  end.

Lemma fleet_resolver_ok :
  @ResolverOk Fleet.Pipeline fleet_resolver (λ p, Ordering.named_once (Fleet.Environments p)).
Proof.
  split; unfold resolve, fleet_resolver; intros p order deps.
  - intros Hv Hr. destruct (Fleet.resolveOrdering _ _ _ _ p) as [|r] eqn:E; [done|]. simplify_eq.
    by eapply Fleet.resolve_ordered.
  - intros n d Hv Hr. destruct (Fleet.resolveOrdering _ _ _ _ p) as [|r] eqn:E; [done|]. simplify_eq.
    eapply Fleet.resolve_ordered; done.
Qed.
End fleets.

(** ** The steps of a Bundle *)

Definition own (b : Bundle) (env : string) (s : PromotionStep) : Prop :=
  BundleName s = b_Name b ∧ Environment s = env.

Lemma count_verified_spec b up steps : ∀ v,
  match count_verified b up steps v with
  | None => ∃ s, s ∈ steps ∧ own b up s ∧ State s ≠ "Verified"
  | Some n => (∀ s, s ∈ steps → own b up s → State s = "Verified") ∧
              (v ≤ n)%nat ∧ (n = v ↔ ∀ s, s ∈ steps → ¬ own b up s)
  end.
Proof.
  induction steps as [|s steps IH]; intros v; simpl; [set_solver|].
  destruct (negb (bool_decide (BundleName s = b_Name b)) || negb (bool_decide (Environment s = up))) eqn:E.
  - assert (¬ own b up s) as Hn.
    { intros [E1 E2]. rewrite !bool_decide_true in E by done. done. }
    specialize (IH v). destruct (count_verified b up steps v); [set_solver|].
    destruct IH as (s' & ? & ?). exists s'. set_solver.
  - assert (own b up s) as Ho.
    { apply orb_false_iff in E as [E1 E2]. apply negb_false_iff, bool_decide_eq_true in E1, E2. done. }
    clear E. case_bool_decide as Hv; simpl; [|exists s; set_solver].
    specialize (IH (S v)). destruct (count_verified b up steps (S v)) as [n|].
    + destruct IH as (I1 & I2 & I3). split_and!; [set_solver|lia|]. split; [lia|]. intros H.
      exfalso. apply (H s); [by left|done].
    + destruct IH as (s' & ? & ?). exists s'. set_solver.
Qed.

(** Every upstream of [ups] has a step of the Bundle, and all are Verified. *)
Definition released (b : Bundle) (steps : list PromotionStep) (ups : list string) : Prop :=
  ∀ up, up ∈ ups → (∃ s, s ∈ steps ∧ own b up s) ∧ ∀ s, s ∈ steps → own b up s → State s = "Verified".

Lemma all_verified b steps ups :
  forallb (λ up, match count_verified b up steps 0 with
                 | None => false
                 | Some verified => negb (verified =? 0)%nat
                 end) ups = true ↔ released b steps ups.
Proof.
  rewrite forallb_forall. unfold released. split; intros H up Hup.
  - specialize (H up (proj1 (list_elem_of_In _ _) Hup)). pose proof (count_verified_spec b up steps 0) as HC.
    destruct (count_verified b up steps 0) as [n|]; [|done]. destruct HC as (H1 & _ & H3).
    apply negb_true_iff, Nat.eqb_neq in H. split; [|done].
    destruct (decide (Exists (own b up) steps)) as [He|He].
    + apply Exists_exists in He as (s & ? & ?). eauto.
    + exfalso. apply H, H3. intros s Hs Ho. apply He, Exists_exists. eauto.
  - apply list_elem_of_In in Hup. destruct (H up Hup) as [(s & Hs & Ho) Hall].
    pose proof (count_verified_spec b up steps 0) as HC.
    destruct (count_verified b up steps 0) as [n|].
    + destruct HC as (_ & _ & H3). apply negb_true_iff, Nat.eqb_neq. intros E. by apply (proj1 H3 E s).
    + destruct HC as (s' & Hs' & Ho' & Hv). by destruct (Hv (Hall s' Hs' Ho')).
Qed.

Lemma gate_loop_spec b gate env steps : ∀ stepped,
  match gate_loop b gate env steps stepped with
  | None => ∃ s, s ∈ steps ∧ own b env s ∧ (State s = "" ∨ State s = "Pending") ∧ g_Name gate ∈ RequiredGates s
  | Some r => (∀ s, s ∈ steps → own b env s → (State s = "" ∨ State s = "Pending") → g_Name gate ∉ RequiredGates s) ∧
              (r = true ↔ stepped = true ∨ ∃ s, s ∈ steps ∧ own b env s)
  end.
Proof.
  induction steps as [|s steps IH]; intros st; simpl; [set_solver|].
  destruct (negb (bool_decide (BundleName s = b_Name b)) || negb (bool_decide (Environment s = env))) eqn:E.
  - assert (¬ own b env s) as Hn.
    { intros [E1 E2]. rewrite !bool_decide_true in E by done. done. }
    specialize (IH st). destruct (gate_loop b gate env steps st); set_solver.
  - assert (own b env s) as Ho.
    { apply orb_false_iff in E as [E1 E2]. apply negb_false_iff, bool_decide_eq_true in E1, E2. done. }
    destruct ((bool_decide (State s = "") || bool_decide (State s = "Pending")) &&
              bool_decide (g_Name gate ∈ RequiredGates s)) eqn:Eg.
    + apply andb_prop in Eg as [E1 E2]. apply bool_decide_eq_true in E2.
      apply orb_true_iff in E1 as [E1|E1]; apply bool_decide_eq_true in E1; exists s; set_solver.
    + specialize (IH true). destruct (gate_loop b gate env steps true) as [r|]; [|set_solver].
      destruct IH as [I1 I2]. split; [|set_solver].
      intros s' [->|Hs']%elem_of_cons Ho' Hp Hin; [|by eapply I1].
      rewrite (bool_decide_true (g_Name gate ∈ _)), andb_true_r in Eg by done.
      apply orb_false_iff in Eg as [E1 E2]. apply bool_decide_eq_false in E1, E2. naive_solver.
Qed.

(** ** Properties *)

Section properties.
Context {P : Type} `{!Resolver P} {valid : P → Prop} `{!ResolverOk P valid}.

(** A Bundle promotes exactly what its intent leaves: the environments on
    a path to the target (all without a target), less the skipped ones and less
    the ones a targetOnly Bundle carries the verification of, in the
    Pipeline's order. *)
Theorem intent_selects order deps b filtered :
  filterByIntent order deps b = inr filtered →
  filtered `sublist_of` order ∧
  ∀ e, e ∈ filtered ↔ e ∈ order ∧
    match Intent b with
    | None => True
    | Some i => (TargetEnvironment i = "" ∨ rtc (depends deps) (TargetEnvironment i) e) ∧
                (e ∉ SkipEnvironments i) ∧ e ∉ CarriedEnvironments b
    end.
Proof. apply filterByIntent_spec. Qed.

(** C29. Skipping never loosens the order: an environment's direct upstreams
    are promoted environments that come before it, and whatever environment it
    depended on, at any distance, that is still promoted is reached through
    direct upstreams of promoted environments. *)
Theorem bridging_keeps_order p b env ups order deps filtered :
  valid p → resolve p = Some (order, deps) → filterByIntent order deps b = inr filtered →
  DirectUpstreams p b env = inr ups →
  (∀ up, up ∈ ups → up ∈ filtered ∧ before up env order) ∧
  (∀ a, a ∈ filtered → tc (depends deps) env a → tc (bridged deps (list_to_set filtered)) env a) ∧
  (∀ up, up ∈ ups ↔ bridged deps (list_to_set filtered) env up).
Proof.
  intros Hv Hr Hf Hd. unfold DirectUpstreams in Hd. rewrite Hr, Hf in Hd.
  case_decide as He; [|done]. injection Hd as <-. rewrite elem_of_list_to_set in He.
  destruct (filterByIntent_spec _ _ _ _ Hf) as [_ Hsub]. pose proof (proj1 (proj1 (Hsub env) He)) as Heo.
  destruct (filteredDeps_spec env deps (list_to_set filtered)) as [_ HF]. split_and!; [|..|done].
  - intros up Hup%HF. split.
    + apply bridged_reaches in Hup as [Hup _]. by rewrite elem_of_list_to_set in Hup.
    + eapply bridged_before; [by eapply resolve_nodup| |done|done]. intros n d. by eapply resolve_before.
  - intros a Ha (n & Hn & Hs)%tc_nsteps. destruct n as [|n]; [lia|].
    apply (bridged_tc _ _ n n); [done|done|]. by rewrite elem_of_list_to_set.
Qed.

(** The Graph releases an environment exactly when each of its direct
    upstreams has a step of the Bundle and every such step is Verified; an
    environment the Bundle does not promote is never released. *)
Theorem UpstreamsVerified_iff p b env steps :
  UpstreamsVerified p b env steps = true ↔
  ∃ ups, DirectUpstreams p b env = inr ups ∧ released b steps ups.
Proof.
  unfold UpstreamsVerified. destruct (DirectUpstreams p b env) as [|ups].
  - split; [done|]. by intros (? & ? & _).
  - rewrite all_verified. naive_solver.
Qed.

(** A gate blocks exactly when it is not ready, its Bundle is in flight,
    and either a step of the Bundle in the gate's environment that is still
    Pending requires it, or the Bundle has no step there yet and its upstreams
    have released the environment. *)
Theorem gate_blocks_iff p b gate steps :
  let env := label gate "kardinal.io/environment" in
  GateState (Some p) (Some b) gate steps = Block ↔
  Ready gate = false ∧ env ≠ "" ∧ label gate "kardinal.io/bundle" = b_Name b ∧
  (Phase b ≠ "Failed" ∧ Phase b ≠ "Superseded" ∧ Phase b ≠ "Rejected") ∧
  ((∃ s, s ∈ steps ∧ own b env s ∧ (State s = "" ∨ State s = "Pending") ∧ g_Name gate ∈ RequiredGates s) ∨
   ((∀ s, s ∈ steps → ¬ own b env s) ∧ ∃ ups, DirectUpstreams p b env = inr ups ∧ released b steps ups)).
Proof.
  intros env. assert (GateState (Some p) (Some b) gate steps = Block ↔
    Ready gate = false ∧ gateHolds p b gate steps = true) as ->.
  { unfold GateState. destruct (Ready gate); [naive_solver|].
    destruct (gateHolds p b gate steps); [naive_solver|]. repeat case_bool_decide; naive_solver. }
  unfold gateHolds. fold env. destruct (Ready gate); simpl; [naive_solver|].
  repeat case_bool_decide; simpl; try naive_solver.
  assert (final_phase (Phase b) = false ↔ Phase b ≠ "Failed" ∧ Phase b ≠ "Superseded" ∧ Phase b ≠ "Rejected") as Hp.
  { unfold final_phase. rewrite !orb_false_iff, !bool_decide_eq_false. tauto. }
  destruct (final_phase (Phase b)); [naive_solver|].
  pose proof (gate_loop_spec b gate env steps false) as HG.
  destruct (gate_loop b gate env steps false) as [r|]; [|naive_solver].
  destruct HG as [HG1 HG2].
  assert (UpstreamsVerified p b env steps = true ↔ ∃ ups, DirectUpstreams p b env = inr ups ∧ released b steps ups) as HU.
  { unfold UpstreamsVerified. destruct (DirectUpstreams p b env); [naive_solver|]. rewrite all_verified. naive_solver. }
  rewrite andb_true_iff, negb_true_iff, HU. destruct r; naive_solver.
Qed.
End properties.

(** A Pipeline test, uat, prod whose Bundle skips uat. *)
Definition demo_resolver : Resolver unit := λ _, Some (["test"; "uat"; "prod"], demo_deps).

Lemma demo_resolver_ok : @ResolverOk unit demo_resolver (λ _, True).
Proof.
  assert (Hb : before "test" "uat" ["test"; "uat"; "prod"] ∧ before "uat" "prod" ["test"; "uat"; "prod"]).
  { split; [exists ["test"], ["prod"]|exists ["test"; "uat"], []]; set_solver. }
  split; unfold resolve, demo_resolver; intros [] order deps.
  - intros _ [= <- <-]. apply (bool_decide_unpack _). by vm_compute.
  - intros n d _ [= <- <-] Hn Hd.
    assert (n = "prod" ∨ n = "test" ∨ n = "uat") as [->|[->| ->]] by set_solver;
      vm_compute in Hd; set_solver.
Qed.

Definition demo_bundle : Bundle := mkBundle "v1" (Some (mkIntent "prod" ["uat"] false)) "Promoting" [] [].

Lemma intent_selects_witness :
  filterByIntent ["test"; "uat"; "prod"] demo_deps demo_bundle = inr ["test"; "prod"] ∧
  ["test"; "prod"] `sublist_of` ["test"; "uat"; "prod"].
Proof.
  split; [by vm_compute|]. eapply (intent_selects _ demo_deps demo_bundle). by vm_compute.
Defined.

Lemma bridging_keeps_order_witness :
  @DirectUpstreams unit demo_resolver tt demo_bundle "prod" = inr ["test"] ∧
  before "test" "prod" ["test"; "uat"; "prod"].
Proof.
  split; [by vm_compute|].
  eapply (@bridging_keeps_order unit demo_resolver (λ _, True) demo_resolver_ok tt demo_bundle "prod" ["test"]
    _ demo_deps ["test"; "prod"]); [done|done|by vm_compute|by vm_compute|by left].
Defined.

End Upstreams.
