(* ===== verification/Skip.v ===== *)
(** * Skip: permission to skip an environment

    Model of src/pkg/graph/skip.go: which policy gates are the platform's, and
    when a Bundle may skip an environment they guard. *)

From stdpp Require Import base gmap strings list relations.
From Stdlib Require Import Lia ZArith Ascii.
From S2P Require Import Prelude Topo Walk Upstreams.

Open Scope Z_scope.

Module Skip.
Import Topo Upstreams.

Definition DefaultPolicyNamespace : string := "platform-policies".
Definition LabelGateType : string := "kardinal.io/type".
Definition GateTypeSkipPermission : string := "skip-permission".
Definition ScopeOrg : string := "org".
Definition ScopeTeam : string := "team".

Definition isSkipPermissionGate (g : PolicyGate) : bool :=
  bool_decide (label g LabelGateType = GateTypeSkipPermission).

Definition policyNamespaceSet (policyNamespaces : list string) : gset string :=
  list_to_set (if decide (policyNamespaces = []) then [DefaultPolicyNamespace] else policyNamespaces).

Definition IsPolicyNamespace (ns : string) (policyNamespaces : list string) : bool :=
  negb (bool_decide (ns = "")) && bool_decide (ns ∈ policyNamespaceSet policyNamespaces).

Definition scopeOf (g : PolicyGate) (orgNS : gset string) : string :=
  let s := label g "kardinal.io/scope" in
  if bool_decide (g_Namespace g ∈ orgNS) || bool_decide (s = ScopeOrg) then ScopeOrg
  else if negb (bool_decide (s = "")) then s
  else ScopeTeam.

Definition GateScope (g : PolicyGate) (policyNamespaces : list string) : string :=
  scopeOf g (policyNamespaceSet policyNamespaces).

Definition isOrgGate (g : PolicyGate) (orgNS : gset string) : bool :=
  negb (isSkipPermissionGate g) && bool_decide (scopeOf g orgNS = ScopeOrg).

(** [appliesToEnv]: the label lists the environments, separated by commas. *)
Definition appliesToEnv (g : PolicyGate) (envName : string) : bool :=
  existsb (λ e, let e := TrimSpace e in negb (bool_decide (e = "")) && bool_decide (e = envName))
    (Split ","%char (label g "kardinal.io/applies-to")).

Definition isSkipPermissionFor (g : PolicyGate) (envName : string) (orgNS : gset string) : bool :=
  isSkipPermissionGate g && SkipPermission g && bool_decide (g_Namespace g ∈ orgNS) && appliesToEnv g envName.

(** The error of [ValidateSkipPermissions]: the environment and the org gate. *)
Inductive skip_error := SkipDenied (skip orgGate : string).

Definition gate_key (g : PolicyGate) : string := g_Namespace g +:+ "/" +:+ g_Name g.

(** One environment of the loop. *)
Definition skip_denied (allGates : list PolicyGate) (orgNS : gset string) (skip : string) : option skip_error :=
  match list_find (λ g, isOrgGate g orgNS && appliesToEnv g skip = true) allGates with
  | None => None
  | Some (_, g) =>
      if bool_decide (gate_key g = "") then None
      else if existsb (λ g, isSkipPermissionFor g skip orgNS) allGates then None
      else Some (SkipDenied skip (gate_key g))
  end.

Fixpoint first_denied (allGates : list PolicyGate) (orgNS : gset string) (skips : list string) : option skip_error :=
  match skips with
  | [] => None
  | s :: skips =>
      match skip_denied allGates orgNS s with
      | Some err => Some err
      | None => first_denied allGates orgNS skips
      end
  end.

Definition ValidateSkipPermissions (b : Bundle) (allGates : list PolicyGate) (policyNamespaces : list string)
  : option skip_error :=
  match Intent b with
  | None => None
  | Some i => first_denied allGates (policyNamespaceSet policyNamespaces) (SkipEnvironments i)
  end.

Record skipPermissionGate := mkSPG { sp_gate : PolicyGate; sp_skipped : list string }.

Definition orgGated (allGates : list PolicyGate) (orgNS : gset string) (env : string) : bool :=
  existsb (λ g, isOrgGate g orgNS && appliesToEnv g env) allGates.

(** The [walk] of [skipPermissionGates]: its state is [crossed] and [seen]. *)
Fixpoint cross_walk (fuel : nat) (deps : gmap string (list string)) (skipped : gset string)
    (gated : string → bool) (e : string) (s : list string * gset string) : list string * gset string :=
  match fuel with
  | O => s
  | S fuel =>
      foldl (λ s dep,
        if bool_decide (dep ∈ s.2) || negb (bool_decide (dep ∈ skipped)) then s
        else
          let seen := {[dep]} ∪ s.2 in
          cross_walk fuel deps skipped gated dep (if gated dep then s.1 ++ [dep] else s.1, seen)) s (deps_of deps e)
  end.

(** One permission gate of one crossed environment: [byGate] and [order]. *)
Definition add_permission (s : string) (acc : gmap string skipPermissionGate * list string) (g : PolicyGate)
  : gmap string skipPermissionGate * list string :=
  let key := gate_key g in
  match acc.1 !! key with
  | Some pg => (<[key := mkSPG (sp_gate pg) (sp_skipped pg ++ [s])]> acc.1, acc.2)
  | None => (<[key := mkSPG g [s]]> acc.1, acc.2 ++ [key])
  end.

Definition permissions (allGates : list PolicyGate) (orgNS : gset string) (crossed : list string)
  : gmap string skipPermissionGate * list string :=
  foldl (λ acc s, foldl (add_permission s) acc (filter (λ g, isSkipPermissionFor g s orgNS = true) allGates))
    (∅, []) crossed.

(** The instances in front of one kept environment. *)
Definition kept_gates (deps : gmap string (list string)) (skipped : gset string) (allGates : list PolicyGate)
    (orgNS : gset string) (kept : string) : list skipPermissionGate :=
  let crossed := sort_by str_ltb
    (cross_walk (walk_fuel deps) deps skipped (orgGated allGates orgNS) kept ([], ∅)).1 in
  let '(byGate, order) := permissions allGates orgNS crossed in
  omap (λ key, byGate !! key) (sort_by str_ltb order).

(** [skipPermissionGates]: the instances of each kept environment. *)
Definition skipPermissionGates (filteredEnvs : list string) (deps : gmap string (list string)) (b : Bundle)
    (allGates : list PolicyGate) (policyNamespaces : list string) : gmap string (list skipPermissionGate) :=
  match Intent b with
  | None => ∅
  | Some i =>
      if decide (SkipEnvironments i = []) then ∅
      else
        let orgNS := policyNamespaceSet policyNamespaces in
        let skipped : gset string := list_to_set (SkipEnvironments i) in
        foldl (λ m kept,
          match kept_gates deps skipped allGates orgNS kept with
          | [] => m
          | gs => <[kept := default [] (m !! kept) ++ gs]> m
          end) ∅ filteredEnvs
  end.

(** ** Denied skips *)

Lemma existsb_elem {A} (f : A → bool) l : existsb f l = true ↔ ∃ x, x ∈ l ∧ f x = true.
Proof. rewrite existsb_exists. by setoid_rewrite <-list_elem_of_In. Qed.

Lemma gate_key_nonempty g : gate_key g ≠ "".
Proof. unfold gate_key. by destruct (g_Namespace g). Qed.

Lemma skip_denied_None gates orgNS s :
  skip_denied gates orgNS s = None ↔
  (orgGated gates orgNS s = true → ∃ g, g ∈ gates ∧ isSkipPermissionFor g s orgNS = true).
Proof.
  unfold skip_denied. destruct (list_find _ gates) as [[j g]|] eqn:E.
  - apply list_find_Some in E as (Hg & Hog & _). rewrite bool_decide_false by apply gate_key_nonempty.
    assert (orgGated gates orgNS s = true) as Ho.
    { apply existsb_elem. exists g. split; [by eapply list_elem_of_lookup_2|done]. }
    destruct (existsb _ gates) eqn:Ep.
    + apply existsb_elem in Ep. naive_solver.
    + split; [done|]. intros H. specialize (H Ho). apply existsb_elem in H. congruence.
  - split; [|done]. intros _ Ho. exfalso. apply existsb_elem in Ho as (g & Hg & Hog).
    apply list_find_None in E. rewrite Forall_forall in E. by apply (E g).
Qed.

Lemma first_denied_None gates orgNS skips :
  first_denied gates orgNS skips = None ↔ ∀ s, s ∈ skips → skip_denied gates orgNS s = None.
Proof.
  induction skips as [|s skips IH]; simpl; [set_solver|].
  destruct (skip_denied gates orgNS s) eqn:E; [|rewrite IH; set_solver].
  split; [done|]. intros H. specialize (H s ltac:(by left)). congruence.
Qed.

(** ** Crossed environments *)

(** [crosses deps skipped e s]: [s] is skipped and is reached from [e] through
    skipped environments only. *)
Inductive crosses (deps : gmap string (list string)) (skipped : gset string) : string → string → Prop :=
  | crosses_direct e s : s ∈ deps_of deps e → s ∈ skipped → crosses deps skipped e s
  | crosses_step e d s : d ∈ deps_of deps e → d ∈ skipped → crosses deps skipped d s → crosses deps skipped e s.

Definition skip_next (deps : gmap string (list string)) (skipped : gset string) (d : string) : list string :=
  filter (.∈ skipped) (deps_of deps d).

Lemma crosses_reaches deps skipped e s :
  crosses deps skipped e s ↔ ∃ d, d ∈ skip_next deps skipped e ∧ reaches (skip_next deps skipped) d s.
Proof.
  unfold skip_next at 1. split.
  - induction 1 as [e s Hs Hk|e d s Hd Hk _ IH].
    + exists s. split; [by apply list_elem_of_filter|apply rtc_refl].
    + destruct IH as (y & Hy & Hr). exists d. split; [by apply list_elem_of_filter|]. by eapply rtc_l.
  - intros (d & [Hk Hd]%list_elem_of_filter & Hr). revert e Hd Hk.
    induction Hr as [d|d y s Hdy _ IH]; intros e Hd Hk; [by apply crosses_direct|].
    apply list_elem_of_filter in Hdy as [Hy1 Hy2]. eapply crosses_step; [done|done|]. by apply IH.
Qed.

Lemma cross_walk_dfs deps skipped gated fuel : ∀ e seen,
  cross_walk fuel deps skipped gated e (filter (λ d, gated d = true) seen, list_to_set seen) =
  let r := dfs (skip_next deps skipped) fuel (skip_next deps skipped e) seen in
  (filter (λ d, gated d = true) r, list_to_set r).
Proof.
  induction fuel as [|fuel IH]; intros e; simpl; [done|]. unfold skip_next at 3 6.
  induction (deps_of deps e) as [|d ds IHds]; intros seen; [done|]. cbn [foldl].
  rewrite filter_cons. destruct (decide (d ∈ skipped)) as [Hk|Hk].
  2: { rewrite (bool_decide_false (d ∈ skipped)), orb_true_r by done. apply IHds. }
  rewrite (bool_decide_true (d ∈ skipped)) by done. cbn [foldl negb]. rewrite orb_false_r.
  destruct (decide (d ∈ seen)) as [Hd|Hd].
  { rewrite bool_decide_true by (simpl; by rewrite elem_of_list_to_set). apply IHds. }
  rewrite bool_decide_false by (simpl; by rewrite elem_of_list_to_set). rewrite <-IHds. f_equal.
  rewrite <-IH. f_equal. simpl. f_equal; [|set_solver].
  rewrite filter_app, filter_cons, filter_nil. destruct (gated d); [by rewrite decide_True|].
  by rewrite decide_False, app_nil_r.
Qed.

Lemma crossed_spec deps skipped gated e s :
  s ∈ (cross_walk (walk_fuel deps) deps skipped gated e ([], ∅)).1 ↔
  crosses deps skipped e s ∧ gated s = true.
Proof.
  pose proof (cross_walk_dfs deps skipped gated (walk_fuel deps) e []) as E.
  change (filter (λ d, gated d = true) []) with (@nil string) in E.
  change (list_to_set []) with (∅ : gset string) in E. rewrite E. cbn [fst].
  destruct (dfs_spec (skip_next deps skipped) (all_names deps)) with (fuel := walk_fuel deps)
    (ds := skip_next deps skipped e) as [_ HD].
  - intros x y _ [_ Hy]%list_elem_of_filter. by eapply all_names_closed.
  - intros d [_ Hd]%list_elem_of_filter. by eapply all_names_closed.
  - unfold walk_fuel. lia.
  - rewrite list_elem_of_filter, HD, crosses_reaches. naive_solver.
Qed.

(** ** The permission instances *)

Definition pairs (allGates : list PolicyGate) (orgNS : gset string) (crossed : list string)
  : list (string * PolicyGate) :=
  crossed ≫= λ s, (s,.) <$> filter (λ g, isSkipPermissionFor g s orgNS = true) allGates.

Lemma permissions_pairs gates orgNS crossed :
  permissions gates orgNS crossed = foldl (λ acc p, add_permission p.1 acc p.2) (∅, []) (pairs gates orgNS crossed).
Proof.
  unfold permissions, pairs. generalize (∅ : gmap string skipPermissionGate, @nil string).
  induction crossed as [|s crossed IH]; intros acc; simpl; [done|].
  rewrite foldl_app, IH. f_equal. generalize (filter (λ g, isSkipPermissionFor g s orgNS = true) gates).
  intros l. revert acc. induction l as [|g l IHl]; intros acc; simpl; [done|]. apply IHl.
Qed.

Record PermInv (ps : list (string * PolicyGate)) (acc : gmap string skipPermissionGate * list string) : Prop := {
  p_order : ∀ key, key ∈ acc.2 ↔ is_Some (acc.1 !! key);
  p_key : ∀ key pg, acc.1 !! key = Some pg → gate_key (sp_gate pg) = key;
  p_skipped : ∀ key s, s ∈ from_option sp_skipped [] (acc.1 !! key) ↔ ∃ g, (s, g) ∈ ps ∧ gate_key g = key
}.

Lemma permissions_inv ps : PermInv ps (foldl (λ acc p, add_permission p.1 acc p.2) (∅, []) ps).
Proof.
  induction ps as [|[s g] ps IH] using rev_ind.
  { split; simpl.
    - intros key. rewrite lookup_empty. split; [set_solver|by intros [? ?]].
    - intros key pg. by rewrite lookup_empty.
    - intros key s. rewrite lookup_empty. set_solver. }
  rewrite foldl_snoc. cbn [fst snd]. destruct IH as [I1 I2 I3]. set (acc := foldl _ _ ps) in *.
  unfold add_permission. destruct (acc.1 !! gate_key g) as [pg|] eqn:E; split; cbn [fst snd].
  - intros key. rewrite I1, lookup_insert. case_decide; [subst; rewrite E; naive_solver|done].
  - intros key pg'. rewrite lookup_insert. case_decide; [|apply I2]. intros [= <-]. subst. exact (I2 _ _ E).
  - intros key s'. rewrite lookup_insert. case_decide as Ek; simpl.
    + subst key. specialize (I3 (gate_key g) s'). rewrite E in I3. simpl in I3.
      rewrite elem_of_app, I3, list_elem_of_singleton. set_solver.
    + rewrite I3. set_solver.
  - intros key. rewrite elem_of_app, I1, list_elem_of_singleton, lookup_insert_is_Some'. split; intros [|]; auto.
  - intros key pg'. rewrite lookup_insert. case_decide; [|apply I2]. by intros [= <-].
  - intros key s'. rewrite lookup_insert. case_decide as Ek; simpl.
    + subst key. specialize (I3 (gate_key g) s'). rewrite E in I3. simpl in I3.
      rewrite list_elem_of_singleton. split; [intros ->; exists g; set_solver|].
      intros (g' & [Hg'|Hg']%elem_of_app & Ek); [|set_solver]. exfalso.
      assert (s' ∈ @nil string) as Hs by (apply I3; eauto). by apply elem_of_nil in Hs.
    + rewrite I3. set_solver.
Qed.

Lemma kept_gates_spec deps skipped gates orgNS kept key s :
  (∃ inst, inst ∈ kept_gates deps skipped gates orgNS kept ∧ gate_key (sp_gate inst) = key ∧ s ∈ sp_skipped inst) ↔
  crosses deps skipped kept s ∧ orgGated gates orgNS s = true ∧
  ∃ g, g ∈ gates ∧ isSkipPermissionFor g s orgNS = true ∧ gate_key g = key.
Proof.
  unfold kept_gates. set (crossed := sort_by str_ltb _). rewrite permissions_pairs.
  pose proof (permissions_inv (pairs gates orgNS crossed)) as [P1 P2 P3].
  set (acc := foldl _ _ (pairs gates orgNS crossed)) in *. destruct acc as [byGate order]. cbn [fst snd] in *.
  assert (Hcr : ∀ x, x ∈ crossed ↔ crosses deps skipped kept x ∧ orgGated gates orgNS x = true).
  { intros x. unfold crossed. autorewrite with kardinal. apply crossed_spec. }
  assert (Hpair : ∀ x g, (x, g) ∈ pairs gates orgNS crossed ↔
    x ∈ crossed ∧ g ∈ gates ∧ isSkipPermissionFor g x orgNS = true).
  { intros x g. unfold pairs. rewrite list_elem_of_bind. setoid_rewrite list_elem_of_fmap.
    setoid_rewrite list_elem_of_filter. naive_solver. }
  transitivity (∃ g, (s, g) ∈ pairs gates orgNS crossed ∧ gate_key g = key).
  - rewrite <-P3. split.
    + intros (inst & (k & Hk & Hi)%list_elem_of_omap & Ek & Hs). rewrite (P2 _ _ Hi) in Ek. subst k. by rewrite Hi.
    + intros Hs. destruct (byGate !! key) as [pg|] eqn:Eg; simpl in Hs; [|by apply elem_of_nil in Hs].
      exists pg. split_and!; [|by apply P2|done]. apply list_elem_of_omap. exists key.
      rewrite sort_by_elem. split; [apply P1; by rewrite Eg|done].
  - setoid_rewrite Hpair. setoid_rewrite Hcr. naive_solver.
Qed.

Lemma fold_kept (f : string → list skipPermissionGate) envs kept :
  NoDup envs → kept ∈ envs →
  default [] (foldl (λ m k, match f k with [] => m | gs => <[k := default [] (m !! k) ++ gs]> m end)
    (∅ : gmap string (list skipPermissionGate)) envs !! kept) = f kept.
Proof.
  intros HN Hin.
  assert (∀ envs m, NoDup envs → default [] (foldl (λ m k, match f k with [] => m | gs => <[k := default [] (m !! k) ++ gs]> m end)
    (m : gmap string (list skipPermissionGate)) envs !! kept) =
    default [] (m !! kept) ++ (if decide (kept ∈ envs) then f kept else [])) as H.
  { clear. induction envs as [|k envs IH]; intros m HN; cbn [foldl].
    - rewrite decide_False by set_solver. by rewrite app_nil_r.
    - apply NoDup_cons in HN as [Hk HN]. rewrite IH by done. destruct (decide (kept = k)) as [->|Hne].
      + rewrite decide_False by done. rewrite decide_True by by left. rewrite app_nil_r.
        destruct (f k) as [|g gs]; [by rewrite app_nil_r|]. by rewrite lookup_insert_eq.
      + destruct (f k) as [|g gs]; rewrite ?lookup_insert_ne by done;
          (destruct (decide (kept ∈ envs)); [rewrite decide_True by set_solver|rewrite decide_False by set_solver]; done). }
  rewrite H by done. rewrite lookup_empty, decide_True by done. done.
Qed.

(** ** Properties *)

(** A skip is refused exactly when a gate of the platform guards the
    environment and no skip-permission gate that lives in a policy namespace
    of the platform names it: a gate of a team namespace never grants one. *)
Theorem skip_needs_permission b i gates nss :
  Intent b = Some i →
  ValidateSkipPermissions b gates nss = None ↔
  ∀ s, s ∈ SkipEnvironments i → orgGated gates (policyNamespaceSet nss) s = true →
    ∃ g, g ∈ gates ∧ label g LabelGateType = GateTypeSkipPermission ∧ SkipPermission g = true ∧
      g_Namespace g ∈ policyNamespaceSet nss ∧ appliesToEnv g s = true.
Proof.
  intros Hi. unfold ValidateSkipPermissions. rewrite Hi, first_denied_None.
  assert (∀ g s, isSkipPermissionFor g s (policyNamespaceSet nss) = true ↔
    label g LabelGateType = GateTypeSkipPermission ∧ SkipPermission g = true ∧
    g_Namespace g ∈ policyNamespaceSet nss ∧ appliesToEnv g s = true) as Hp.
  { intros g s. unfold isSkipPermissionFor, isSkipPermissionGate.
    rewrite !andb_true_iff, !bool_decide_eq_true. tauto. }
  setoid_rewrite skip_denied_None. setoid_rewrite Hp. done.
Qed.

Definition org_gate : PolicyGate :=
  mkGate "platform-policies" "no-friday" (<["kardinal.io/applies-to" := "uat, prod"]> ∅) false false None.

Definition team_permission : PolicyGate :=
  mkGate "team-a" "let-me" (<["kardinal.io/applies-to" := "uat"]> (<[LabelGateType := GateTypeSkipPermission]> ∅))
    true true None.

Definition org_permission : PolicyGate :=
  mkGate "platform-policies" "skip-uat"
    (<["kardinal.io/applies-to" := "uat"]> (<[LabelGateType := GateTypeSkipPermission]> ∅)) true true None.

Lemma skip_needs_permission_witness :
  ValidateSkipPermissions demo_bundle [org_gate; team_permission] [] = Some (SkipDenied "uat" "platform-policies/no-friday") ∧
  (ValidateSkipPermissions demo_bundle [org_gate; org_permission] [] = None ↔
   ∀ s, s ∈ ["uat"] → orgGated [org_gate; org_permission] (policyNamespaceSet []) s = true →
    ∃ g, g ∈ [org_gate; org_permission] ∧ label g LabelGateType = GateTypeSkipPermission ∧ SkipPermission g = true ∧
      g_Namespace g ∈ policyNamespaceSet [] ∧ appliesToEnv g s = true).
Proof.
  split; [by vm_compute|].
  apply (skip_needs_permission demo_bundle (mkIntent "prod" ["uat"] false)). done.
Defined.

(** The permissions are enforced where they matter: in front of a kept
    environment stands an instance of a permission gate for a skipped
    environment exactly when the environment's upstreams are reached through
    that skipped environment (and only skipped ones), a gate of the platform
    guards it, and the permission gate grants skipping it. *)
Theorem skip_permissions_enforced b i filtered deps gates nss kept key s :
  Intent b = Some i → NoDup filtered → kept ∈ filtered →
  (∃ inst, inst ∈ default [] (skipPermissionGates filtered deps b gates nss !! kept) ∧
     gate_key (sp_gate inst) = key ∧ s ∈ sp_skipped inst) ↔
  crosses deps (list_to_set (SkipEnvironments i)) kept s ∧
  orgGated gates (policyNamespaceSet nss) s = true ∧
  ∃ g, g ∈ gates ∧ isSkipPermissionFor g s (policyNamespaceSet nss) = true ∧ gate_key g = key.
Proof.
  intros Hi HN Hk. unfold skipPermissionGates. rewrite Hi. case_decide as E.
  - rewrite lookup_empty, E. split; [set_solver|]. intros [Hc _]. exfalso. inversion Hc; set_solver.
  - rewrite fold_kept by done. apply kept_gates_spec.
Qed.

Lemma skip_permissions_enforced_witness :
  (∃ inst, inst ∈ default [] (skipPermissionGates ["test"; "prod"] demo_deps demo_bundle
       [org_gate; org_permission] [] !! "prod") ∧
     gate_key (sp_gate inst) = "platform-policies/skip-uat" ∧ "uat" ∈ sp_skipped inst) ↔
  crosses demo_deps (list_to_set ["uat"]) "prod" "uat" ∧
  orgGated [org_gate; org_permission] (policyNamespaceSet []) "uat" = true ∧
  ∃ g, g ∈ [org_gate; org_permission] ∧ isSkipPermissionFor g "uat" (policyNamespaceSet []) = true ∧
    gate_key g = "platform-policies/skip-uat".
Proof.
  apply (skip_permissions_enforced demo_bundle (mkIntent "prod" ["uat"] false)); [done| |set_solver].
  apply (bool_decide_unpack _). by vm_compute.
Defined.

End Skip.
