(* ===== verification/Actor.v ===== *)
(** * Actor: who made a change, and for whom

    Model of src/pkg/actor (actor.go, party.go, verify.go): deriving an actor
    from an authenticated user and the agent index, an agent's scope, the
    one-party rule, and the check of a stamp before it is recorded. *)

From stdpp Require Import base gmap strings list.
From Stdlib Require Import Lia ZArith.
From S2P Require Import Prelude.

Module Actor.

(** The values of [Actor.kind]. *)
Inductive ActorKind := ActorHuman | ActorAgent | ActorBot | ActorController | ActorUnknown.

#[export] Instance ActorKind_eq_dec : EqDecision ActorKind.
Proof. solve_decision. Defined.

Record AssertedActor := mkAsserted { Model : string; Session : string; Client : string }.

Record Actor := mkActor {
  Kind : ActorKind;
  Principal : string;
  Agent : string;
  Sponsor : string;
  Via : string;
  Asserted : option AssertedActor
}.

#[export] Instance AssertedActor_eq_dec : EqDecision AssertedActor.
Proof. solve_decision. Defined.

#[export] Instance Actor_eq_dec : EqDecision Actor.
Proof. solve_decision. Defined.

Record AgentIndexEntry := mkEntry {
  e_Agent : string;
  e_Sponsor : string;
  e_Namespaces : list string;
  e_Pipelines : list string;
  e_Environments : list string;
  e_Autonomy : string;
  e_Blocked : string
}.

(** [metav1.Condition], as far as it is read: its type, whether its status is
    True, and its reason. *)
Record Condition := mkCondition { c_Type : string; c_True : bool; c_Reason : string }.

(** [AgentIndexStatus]: every registered subject and its agent, in the legacy
    maps or in the compact ones of a later release. *)
Record AgentIndexStatus := mkIndex {
  ObservedIdentities : Z;
  Users : gmap string AgentIndexEntry;
  Groups : gmap string AgentIndexEntry;
  CompactUsers : gmap string string;
  CompactGroups : gmap string string;
  Bytes : Z;
  MaxBytes : Z;
  Conditions : list Condition
}.

Record User := mkUser { Username : string; u_Groups : list string }.

Record Resolved := mkResolved { r_Actor : Actor; r_Entry : option AgentIndexEntry }.

Definition ServiceAccountPrefix : string := "system:serviceaccount:".

(** [ErrConflict] names the two agents, [ErrBlocked] the agent and why. *)
Inductive derive_error :=
  | ErrConflict (user first other : string)
  | ErrBlocked (agent why : string).

(** [matches]: the entries of the username, then of the groups in order. *)
Definition index_matches (u : User) (idx : option AgentIndexStatus) : list AgentIndexEntry :=
  match idx with
  | None => []
  | Some idx => option_list (Users idx !! Username u) ++ omap (λ g, Groups idx !! g) (u_Groups u)
  end.

Definition Derive (u : User) (idx : option AgentIndexStatus) : derive_error + Resolved :=
  match index_matches u idx with
  | [] =>
      let kind := if HasPrefix (Username u) ServiceAccountPrefix then ActorBot else ActorHuman in
      inr (mkResolved (mkActor kind (Username u) "" "" "" None) None)
  | first :: rest =>
      match list_find (λ m, e_Agent m ≠ e_Agent first) rest with
      | Some (_, m) => inl (ErrConflict (Username u) (e_Agent first) (e_Agent m))
      | None =>
          match list_find (λ m, e_Blocked m ≠ "") (first :: rest) with
          | Some (_, m) => inl (ErrBlocked (e_Agent m) (e_Blocked m))
          | None => inr (mkResolved (mkActor ActorAgent (Username u) (e_Agent first) (e_Sponsor first) "" None)
                           (Some first))
          end
      end
  end.

(** [Matches]: an exact name, or a prefix ending in a star. *)
Definition match_pattern (p value : string) : bool :=
  if HasSuffix p "*" then HasPrefix value (TrimSuffix p "*") else bool_decide (p = value).

Definition Matches (patterns : list string) (value : string) : bool :=
  existsb (λ p, match_pattern p value) patterns.

Record Where := mkWhere { w_Namespace : string; w_Pipeline : string; w_Environment : string }.

(** Which part of the scope refuses. *)
Inductive scope_error := BadNamespace | BadPipeline | BadEnvironment.

Definition Scope (e : option AgentIndexEntry) (w : Where) : option scope_error :=
  match e with
  | None => None
  | Some e =>
      if negb (Matches (e_Namespaces e) (w_Namespace w)) then Some BadNamespace
      else if negb (bool_decide (w_Pipeline w = "")) && negb (Matches (e_Pipelines e) (w_Pipeline w))
      then Some BadPipeline
      else if negb (bool_decide (w_Environment w = "")) && negb (Matches (e_Environments e) (w_Environment w))
      then Some BadEnvironment
      else None
  end.

(** [Stamp], [OnBehalf], [Controller], [OrUnknown]. *)
Definition Stamp (r : Resolved) (a : option AssertedActor) : Actor :=
  let out := r_Actor r in
  match a with
  | Some a' =>
      if negb (bool_decide (Model a' = "")) || negb (bool_decide (Session a' = "")) || negb (bool_decide (Client a' = ""))
      then mkActor (Kind out) (Principal out) (Agent out) (Sponsor out) (Via out) (Some a')
      else out
  | None => out
  end.

Definition OnBehalf (r : Resolved) (via : string) : Actor :=
  let out := r_Actor r in mkActor (Kind out) (Principal out) (Agent out) (Sponsor out) via (Asserted out).

Definition Controller (principal via : string) : Actor := mkActor ActorController principal "" "" via None.

Definition OrUnknown (a : option Actor) (legacy : string) : Actor :=
  match a with
  | Some a => a
  | None => mkActor ActorUnknown legacy "" "" "" None
  end.

Definition Describe (a : Actor) : string :=
  let via s := if bool_decide (Via a = "ui") then s +:+ " via the UI"
               else if bool_decide (Via a = "api") then s +:+ " via the API" else s in
  match Kind a with
  | ActorAgent => via ("agent " +:+ Agent a +:+ " for " +:+ Sponsor a)
  | ActorBot => via ("bot " +:+ Principal a)
  | ActorController => "kardinal (" +:+ Via a +:+ ")"
  | ActorHuman => via (Principal a)
  | ActorUnknown => if bool_decide (Principal a = "") then "unknown" else Principal a
  end.

(** ** The one-party rule *)

Definition Party (a : Actor) : list string :=
  (if bool_decide (Principal a = "") then [] else [Principal a]) ++
  (if bool_decide (Kind a = ActorAgent) then [Sponsor a; "agent:" +:+ Agent a] else []).

Definition SameParty (a b : Actor) : bool := existsb (λ x, bool_decide (x ∈ Party b)) (Party a).

Definition PartyKey (a : Actor) : string :=
  if bool_decide (Kind a = ActorAgent) then Sponsor a else Principal a.

(** ** Checking a stamp before it is recorded *)

Inductive stamp_problem :=
  | NamesOther | IndexMissing | IsAgent (agent : string) | OtherAgent (agent sponsor : string)
  | RegisteredByGroup | NoSuchAgent.

(** [VerifyStamp]: [inr None] for no stamp, [inr (Some s)] for a stamp that is
    recorded, [inl] for the reason one is not. *)
Definition VerifyStamp (stamp : option Actor) (by_ : string) (idx : option AgentIndexStatus)
  : stamp_problem + option Actor :=
  match stamp with
  | None => inr None
  | Some s =>
      if negb (bool_decide (Principal s = by_)) then inl NamesOther
      else
        match idx with
        | None => if bool_decide (Kind s = ActorAgent) then inl IndexMissing else inr (Some s)
        | Some idx =>
            let agent := bool_decide (Kind s = ActorAgent) in
            match Users idx !! by_ with
            | Some e =>
                if negb agent then inl (IsAgent (e_Agent e))
                else if negb (bool_decide (e_Agent e = Agent s)) || negb (bool_decide (e_Sponsor e = Sponsor s))
                then inl (OtherAgent (e_Agent e) (e_Sponsor e))
                else inr (Some s)
            | None =>
                if negb agent then inr (Some s)
                else if existsb (λ p, bool_decide (e_Agent p.2 = Agent s)) (map_to_list (Groups idx))
                then inl RegisteredByGroup
                else inl NoSuchAgent
            end
        end
  end.

(** ** Lemmas *)

Lemma SameParty_spec a b : SameParty a b = true ↔ ∃ x, x ∈ Party a ∧ x ∈ Party b.
Proof.
  unfold SameParty. rewrite existsb_exists. split.
  - intros (x & Hx & Hb). apply bool_decide_eq_true in Hb. exists x. by rewrite list_elem_of_In.
  - intros (x & Hx & Hb). exists x. by rewrite <-list_elem_of_In, bool_decide_eq_true.
Qed.

Lemma SameParty_sym a b : SameParty a b = SameParty b a.
Proof. apply eq_bool_prop_intro. rewrite !Is_true_true, !SameParty_spec. naive_solver. Qed.

(** The vote key of a named actor is one of its party's identities. *)
Lemma PartyKey_in a : PartyKey a ≠ "" → PartyKey a ∈ Party a.
Proof.
  unfold PartyKey, Party. case_bool_decide as E; intros H.
  - apply elem_of_app. right. by left.
  - rewrite bool_decide_false by done. by left.
Qed.

Lemma PartyKey_SameParty a b : PartyKey a ≠ "" → PartyKey a = PartyKey b → SameParty a b = true.
Proof.
  intros Hne E. apply SameParty_spec. exists (PartyKey a). split; [by apply PartyKey_in|].
  rewrite E in *. by apply PartyKey_in.
Qed.

(** ** Properties *)

(** An agent cannot act as a person: whoever the index knows, by name or
    by group, is derived as that agent with that sponsor, or is refused (it
    matches two agents, or is blocked); only someone the index does not know
    is a human or a bot. *)
Theorem derive_exact u idx r :
  Derive u (Some idx) = inr r →
  Principal (r_Actor r) = Username u ∧
  ((Kind (r_Actor r) = ActorAgent ∧
    ∃ e, r_Entry r = Some e ∧ Agent (r_Actor r) = e_Agent e ∧ Sponsor (r_Actor r) = e_Sponsor e ∧
      (Users idx !! Username u = Some e ∨ ∃ g, g ∈ u_Groups u ∧ Groups idx !! g = Some e) ∧
      ∀ e', (Users idx !! Username u = Some e' ∨ ∃ g, g ∈ u_Groups u ∧ Groups idx !! g = Some e') →
        e_Agent e' = e_Agent e ∧ e_Blocked e' = "") ∨
   ((Kind (r_Actor r) = ActorHuman ∨ Kind (r_Actor r) = ActorBot) ∧ r_Entry r = None ∧
    Users idx !! Username u = None ∧ ∀ g, g ∈ u_Groups u → Groups idx !! g = None)).
Proof.
  assert (Hm : ∀ e, e ∈ index_matches u (Some idx) ↔
    (Users idx !! Username u = Some e ∨ ∃ g, g ∈ u_Groups u ∧ Groups idx !! g = Some e)).
  { intros e. unfold index_matches. rewrite elem_of_app, list_elem_of_omap.
    destruct (Users idx !! Username u); simpl; set_solver. }
  unfold Derive. destruct (index_matches u (Some idx)) as [|first rest] eqn:E.
  - intros [= <-]. simpl. split; [done|]. right.
    assert (Hno : ∀ e, ¬ (Users idx !! Username u = Some e ∨ ∃ g, g ∈ u_Groups u ∧ Groups idx !! g = Some e)).
    { intros e He. apply Hm in He. by apply elem_of_nil in He. }
    split_and!; [destruct (HasPrefix _ _); auto|done|..].
    + destruct (Users idx !! Username u) as [e|] eqn:Eu; [|done]. destruct (Hno e). by left.
    + intros g Hg. destruct (Groups idx !! g) as [e|] eqn:Eg; [|done]. destruct (Hno e). right. eauto.
  - destruct (list_find _ rest) as [[? ?]|] eqn:F1; [done|].
    destruct (list_find _ (first :: rest)) as [[? ?]|] eqn:F2; [done|]. intros [= <-]. simpl.
    split; [done|]. left. split; [done|]. exists first. split_and!; [done..|apply Hm; by left|].
    intros e' He'%Hm. apply list_find_None in F1, F2. rewrite Forall_forall in F1, F2. split.
    + apply elem_of_cons in He' as [->|He']; [done|]. specialize (F1 e' He'). simpl in F1.
      by destruct (decide (e_Agent e' = e_Agent first)).
    + specialize (F2 e' He'). simpl in F2. by destruct (decide (e_Blocked e' = "")).
Qed.

Definition demo_entry : AgentIndexEntry := mkEntry "deployer" "alice" ["*"] ["*"] ["test"] "" "".

Definition demo_index : AgentIndexStatus :=
  mkIndex 1 (<["system:serviceaccount:ci:bot" := demo_entry]> ∅) (<["agents" := demo_entry]> ∅) ∅ ∅ 0 0
    [mkCondition "Ready" true "Valid"].

Lemma derive_exact_witness :
  ∃ r, Derive (mkUser "system:serviceaccount:ci:bot" ["agents"]) (Some demo_index) = inr r ∧
    Principal (r_Actor r) = "system:serviceaccount:ci:bot".
Proof. eexists. split; [by vm_compute|]. 
  eapply (derive_exact (mkUser "system:serviceaccount:ci:bot" ["agents"]) demo_index). by vm_compute.
Defined.

(** Recording a stamp fails closed: a recorded stamp names who made the
    change; an agent stamp is recorded only when the index names exactly that
    agent and sponsor for that user (never without an index, never by group),
    and a stamp of another kind never for a user the index names as an agent. *)
Theorem VerifyStamp_sound stamp by_ idx s :
  VerifyStamp stamp by_ idx = inr (Some s) →
  stamp = Some s ∧ Principal s = by_ ∧
  (Kind s = ActorAgent → ∃ i e, idx = Some i ∧ Users i !! by_ = Some e ∧ e_Agent e = Agent s ∧ e_Sponsor e = Sponsor s) ∧
  (Kind s ≠ ActorAgent → ∀ i, idx = Some i → Users i !! by_ = None).
Proof.
  unfold VerifyStamp. destruct stamp as [s'|]; [|done].
  case_bool_decide as Hp; simpl; [|done]. destruct idx as [i|].
  - destruct (Users i !! by_) as [e|] eqn:Eu.
    + case_bool_decide as Hk; simpl; [|done]. repeat case_bool_decide; simpl; try done.
      intros [= <-]. naive_solver.
    + case_bool_decide as Hk; simpl; [by destruct (existsb _ _)|]. intros [= <-]. naive_solver.
  - case_bool_decide as Hk; [done|]. intros [= <-]. naive_solver.
Qed.

Definition demo_stamp : Actor := mkActor ActorAgent "system:serviceaccount:ci:bot" "deployer" "alice" "" None.

Lemma VerifyStamp_sound_witness :
  Some demo_stamp = Some demo_stamp ∧ Principal demo_stamp = "system:serviceaccount:ci:bot".
Proof.
  destruct (VerifyStamp_sound (Some demo_stamp) "system:serviceaccount:ci:bot" (Some demo_index) demo_stamp)
    as (H1 & H2 & _); [by vm_compute|by split].
Defined.

End Actor.
