(* ===== verification/AgentIndex.v ===== *)
(** * AgentIndex: the registry of agents and its index

    Model of src/pkg/actor (registry.go, compact.go, source.go): which
    AgentIdentities take effect and the index built from them, the compact
    encoding of a later release's index, and how a caller is resolved against
    the index that is current.  Resolving uses [Actor.Derive] and
    [Actor.Scope]. *)

From stdpp Require Import base gmap strings list sorting.
From Stdlib Require Import Ascii Lia ZArith.
From S2P Require Import Prelude Actor.
Import Actor.Actor.

Module AgentIndex.

(** ** The compact format (compact.go) *)

Definition ReasonCompactFormat : string := "CompactFormat".
Definition ConditionCompactReady : string := "CompactReady".
Definition compactField : ascii := ascii_of_nat 127.
Definition compactList : ascii := ascii_of_nat 31.
Definition compactFields : nat := 7.

Definition malformed : string := "the agent index entry is malformed".

Definition decode_list (v : string) : list string :=
  if bool_decide (v = "") then [] else Split compactList v.

Definition DecodeEntry (s : string) : AgentIndexEntry :=
  match SplitN compactField s compactFields with
  | [f0; f1; f2; f3; f4; f5; f6] =>
      mkEntry f0 f1 (decode_list f3) (decode_list f4) (decode_list f5) f2 f6
  | _ => mkEntry "" "" [] [] [] "" malformed
  end.

(** The writer's format, as the comment of the constants documents it:
    "agent F sponsor F autonomy F namespaces F pipelines F environments F
    blocked", each list's items joined with [compactList]. *)
Definition EncodeEntry (e : AgentIndexEntry) : string :=
  let F := String compactField "" in
  let list l := Join l (String compactList "") in
  e_Agent e +:+ F +:+ e_Sponsor e +:+ F +:+ e_Autonomy e +:+ F +:+ list (e_Namespaces e) +:+ F +:+
  list (e_Pipelines e) +:+ F +:+ list (e_Environments e) +:+ F +:+ e_Blocked e.

(** [meta.FindStatusCondition] and [meta.IsStatusConditionTrue]. *)
Definition FindStatusCondition (cs : list Condition) (ty : string) : option Condition :=
  snd <$> list_find (λ c, c_Type c = ty) cs.

Definition IsStatusConditionTrue (cs : list Condition) (ty : string) : bool :=
  from_option c_True false (FindStatusCondition cs ty).

Definition IsCompact (st : AgentIndexStatus) : bool :=
  match FindStatusCondition (Conditions st) "Ready" with
  | Some c => bool_decide (c_Reason c = ReasonCompactFormat)
  | None => false
  end.

(** The entries in the legacy shape, and whether the index is built. *)
Definition Readable (st : option AgentIndexStatus) : option AgentIndexStatus * bool :=
  match st with
  | None => (None, false)
  | Some st =>
      if negb (IsCompact st) then
        (Some (mkIndex (ObservedIdentities st) (Users st) (Groups st) ∅ ∅ (Bytes st) (MaxBytes st) (Conditions st)),
         IsStatusConditionTrue (Conditions st) "Ready")
      else if negb (IsStatusConditionTrue (Conditions st) ConditionCompactReady) then (None, false)
      else
        (Some (mkIndex (ObservedIdentities st) (DecodeEntry <$> CompactUsers st) (DecodeEntry <$> CompactGroups st)
                 ∅ ∅ (Bytes st) (MaxBytes st) (Conditions st)), true)
  end.

(** ** Reading the index (source.go) *)

(** An [AgentIndex] object; the answers of the API's Get and List.  A "no match"
    error and a missing object are treated alike. *)
Record AgentIndexObject := mkAgentIndex { ai_Name : string; ai_Status : AgentIndexStatus }.

Inductive read_result (A : Type) := Found (a : A) | NotFound | ReadError.
Arguments Found {A} _.
Arguments NotFound {A}.
Arguments ReadError {A}.

Record Reader := mkReader {
  Get : string → read_result AgentIndexObject;
  List : read_result (list AgentIndexObject)
}.

Record Source := mkSource { s_Reader : option Reader; s_Name : string }.

Inductive index_error := ErrIndexNotReady | ErrRead.

Definition index_less (a b : AgentIndexObject) : bool := str_ltb (ai_Name a) (ai_Name b).

Fixpoint first_readable (l : list AgentIndexObject) : option AgentIndexStatus :=
  match l with
  | [] => None
  | i :: l =>
      match Readable (Some (ai_Status i)) with
      | (st, true) => st
      | _ => first_readable l
      end
  end.

Definition Index (s : option Source) : index_error + option AgentIndexStatus :=
  match s with
  | None => inr None
  | Some s =>
      match s_Reader s with
      | None => inr None
      | Some r =>
          if negb (bool_decide (s_Name s = "")) then
            match Get r (s_Name s) with
            | Found idx =>
                match Readable (Some (ai_Status idx)) with
                | (st, true) => inr st
                | _ => inl ErrIndexNotReady
                end
            | NotFound => inl ErrIndexNotReady
            | ReadError => inl ErrRead
            end
          else
            match List r with
            | Found l => inr (first_readable (sort_by index_less l))
            | NotFound => inr None
            | ReadError => inl ErrRead
            end
      end
  end.

Inductive resolve_error :=
  | OnIndex (e : index_error) | OnDerive (e : derive_error) | OnScope (r : Resolved) (e : scope_error).

Definition Resolve (s : option Source) (u : User) (w : Where) : resolve_error + Resolved :=
  match Index s with
  | inl e => inl (OnIndex e)
  | inr idx =>
      match Derive u idx with
      | inl e => inl (OnDerive e)
      | inr r =>
          match Actor.Scope (r_Entry r) w with
          | Some e => inl (OnScope r e)
          | None => inr r
          end
      end
  end.

(** ** The registry (registry.go) *)

Inductive SubjectKind := ServiceAccountSubject | UserSubject | GroupSubject.

#[export] Instance SubjectKind_eq_dec : EqDecision SubjectKind.
Proof. solve_decision. Defined.

Record AgentSubject := mkSubject { s_Kind : SubjectKind; s_SubjectName : string; s_Namespace : string }.

Definition SubjectKey (s : AgentSubject) : string :=
  match s_Kind s with
  | ServiceAccountSubject => ServiceAccountPrefix +:+ s_Namespace s +:+ ":" +:+ s_SubjectName s
  | _ => s_SubjectName s
  end.

Definition isGroup (s : AgentSubject) : bool := bool_decide (s_Kind s = GroupSubject).

Definition ownerKey (s : AgentSubject) : string :=
  if isGroup s then "group:" +:+ s_SubjectName s else "user:" +:+ SubjectKey s.

(** An [AgentIdentity]: its name, its creation time (in seconds) and its spec.
    [SubjectRegExps] are the subjectRegExp fields of its signing identities. *)
Record AgentIdentity := mkIdentity {
  id_Name : string;
  CreationTimestamp : Z;
  Subjects : list AgentSubject;
  SponsorUser : string;
  sc_Namespaces : list string;
  sc_Pipelines : list string;
  sc_Environments : list string;
  Autonomy : string;
  Suspended : bool;
  SubjectRegExps : list string
}.

(** [Verdict] with the parts of its message. *)
Inductive Verdict :=
  | Valid
  | SubjectConflict (key owner : string)
  | InvalidSponsor (user agent : string)
  | InvalidSigningIdentity (i : nat)
  | IndexFull (size maxBytes : Z).

Definition Ready (v : Verdict) : bool := match v with Valid => true | _ => false end.

Definition Reason (v : Verdict) : string :=
  match v with
  | Valid => "Valid"
  | SubjectConflict _ _ => "SubjectConflict"
  | InvalidSponsor _ _ => "InvalidSponsor"
  | InvalidSigningIdentity _ => "InvalidSigningIdentity"
  | IndexFull _ _ => "IndexFull"
  end.

Record Registry := mkRegistry {
  Verdicts : gmap string Verdict;
  r_Index : AgentIndexStatus;
  Full : bool;
  r_Bytes : Z;
  r_MaxBytes : Z
}.

Definition orAll (v : list string) : list string := if bool_decide (v = []) then ["*"] else v.

Definition AutonomyApprove : string := "approve".

Definition orDefault (a : string) : string := if bool_decide (TrimSpace a = "") then AutonomyApprove else a.

Definition identity_less (a b : AgentIdentity) : bool :=
  if bool_decide (CreationTimestamp a = CreationTimestamp b) then str_ltb (id_Name a) (id_Name b)
  else CreationTimestamp a <? CreationTimestamp b.

Section registry.
(** [regexp.Compile] of the anchored expression succeeds; the length of an
    entry's JSON. *)
Variable compiles : string → bool.
Variable json_len : AgentIndexEntry → Z.

Definition entrySize (key : string) (e : AgentIndexEntry) : Z := json_len e + Z.of_nat (str_length key) + 4.

(** The first loop: the subjects of every AgentIdentity that are no groups. *)
Definition add_userSubject (name : string) (us : gmap string string) (s : AgentSubject) : gmap string string :=
  if isGroup s then us
  else match us !! SubjectKey s with Some _ => us | None => <[SubjectKey s := name]> us end.

Definition user_subjects (sorted : list AgentIdentity) : gmap string string :=
  foldl (λ us id, foldl (add_userSubject (id_Name id)) us (Subjects id)) ∅ sorted.

(** The second loop's state: the owner of each subject, the size and the maps. *)
Record reg_state := mkReg {
  owner : gmap string string;
  size_ : Z;
  g_Users : gmap string AgentIndexEntry;
  g_Groups : gmap string AgentIndexEntry;
  g_Verdicts : gmap string Verdict
}.

Fixpoint find_conflict (owner : gmap string string) (name : string) (ss : list AgentSubject) : option Verdict :=
  match ss with
  | [] => None
  | s :: ss =>
      match owner !! ownerKey s with
      | Some o => if bool_decide (o = name) then find_conflict owner name ss
                  else Some (SubjectConflict (SubjectKey s) o)
      | None => find_conflict owner name ss
      end
  end.

Fixpoint find_bad_regexp (i : nat) (rs : list string) : option Verdict :=
  match rs with
  | [] => None
  | r :: rs => if negb (bool_decide (r = "")) && negb (compiles r) then Some (InvalidSigningIdentity i)
               else find_bad_regexp (S i) rs
  end.

Definition verdict_of (owner us : gmap string string) (id : AgentIdentity) : Verdict :=
  match find_conflict owner (id_Name id) (Subjects id) with
  | Some v => v
  | None =>
      match us !! SponsorUser id with
      | Some o => InvalidSponsor (SponsorUser id) o
      | None => from_option (λ v, v) Valid (find_bad_regexp 0 (SubjectRegExps id))
      end
  end.

Definition entry_of (v : Verdict) (id : AgentIdentity) : AgentIndexEntry :=
  if negb (Ready v) then mkEntry (id_Name id) (SponsorUser id) [] [] [] "" ("not ready: " +:+ Reason v)
  else mkEntry (id_Name id) (SponsorUser id) (sc_Namespaces id) (orAll (sc_Pipelines id))
         (orAll (sc_Environments id)) (orDefault (Autonomy id)) (if Suspended id then "suspended" else "").

Definition add_subject (name : string) (entry : AgentIndexEntry) (st : reg_state) (s : AgentSubject) : reg_state :=
  match owner st !! ownerKey s with
  | Some _ => st
  | None =>
      mkReg (<[ownerKey s := name]> (owner st)) (size_ st + entrySize (SubjectKey s) entry)
        (if isGroup s then g_Users st else <[SubjectKey s := entry]> (g_Users st))
        (if isGroup s then <[s_SubjectName s := entry]> (g_Groups st) else g_Groups st)
        (g_Verdicts st)
  end.

Definition add_identity (us : gmap string string) (st : reg_state) (id : AgentIdentity) : reg_state :=
  let v := verdict_of (owner st) us id in
  let st := mkReg (owner st) (size_ st) (g_Users st) (g_Groups st) (<[id_Name id := v]> (g_Verdicts st)) in
  foldl (add_subject (id_Name id) (entry_of v id)) st (Subjects id).

Definition Evaluate (ids : list AgentIdentity) (maxBytes : Z) : Registry :=
  let sorted := sort_by identity_less ids in
  let us := user_subjects sorted in
  let st := foldl (add_identity us) (mkReg ∅ 0 ∅ ∅ ∅) sorted in
  let index users groups := mkIndex (Z.of_nat (length ids)) users groups ∅ ∅ 0 0 [] in
  if maxBytes <? size_ st then
    mkRegistry ((λ _, IndexFull (size_ st) maxBytes) <$> g_Verdicts st) (index ∅ ∅) true (size_ st) maxBytes
  else mkRegistry (g_Verdicts st) (index (g_Users st) (g_Groups st)) false (size_ st) maxBytes.

End registry.

(** ** The compact format is read back *)

(** What the format can carry: no separator in a field, and no list of one
    empty item (it is written like the empty list).  [e_Blocked] is free. *)
Definition encodable_list (l : list string) : Prop :=
  l ≠ [""] ∧ Forall (λ x, has_char compactField x = false ∧ has_char compactList x = false) l.

Definition encodable (e : AgentIndexEntry) : Prop :=
  has_char compactField (e_Agent e) = false ∧ has_char compactField (e_Sponsor e) = false ∧
  has_char compactField (e_Autonomy e) = false ∧
  encodable_list (e_Namespaces e) ∧ encodable_list (e_Pipelines e) ∧ encodable_list (e_Environments e).

Lemma decode_list_Join l : encodable_list l → decode_list (Join l (String compactList "")) = l.
Proof.
  intros [Hne Hf]. unfold decode_list. destruct l as [|x l]; [done|].
  assert (Join (x :: l) (String compactList "") ≠ "") as Hj.
  { destruct x as [|a x]; [|by destruct l]. by destruct l. }
  rewrite bool_decide_false by done. apply Split_Join; [done|].
  eapply Forall_impl; [apply Hf|]. by intros ? [_ ?].
Qed.

Lemma Join_no_field l : encodable_list l → has_char compactField (Join l (String compactList "")) = false.
Proof.
  intros [_ Hf]. apply has_char_Join; [done|]. eapply Forall_impl; [apply Hf|]. by intros ? [? _].
Qed.

(** Round trip of the compact index: every entry a later release encodes as
    the format documents (fields without the separators, lists that are not one
    empty item) is decoded to itself, whatever its blocked text holds. *)
Theorem DecodeEntry_EncodeEntry e : encodable e → DecodeEntry (EncodeEntry e) = e.
Proof.
  intros (H0 & H1 & H2 & H3 & H4 & H5). unfold DecodeEntry, EncodeEntry, compactFields.
  assert (∀ x, String compactField "" +:+ x = String compactField x) as HF by done. rewrite !HF.
  rewrite !SplitN_cons by auto using Join_no_field. cbv beta iota zeta delta [SplitN].
  rewrite !decode_list_Join by done. by destruct e.
Qed.

Lemma DecodeEntry_EncodeEntry_witness :
  DecodeEntry (EncodeEntry (mkEntry "bot" "alice" ["a"; "b"] ["*"] [] "auto" "not ready")) =
  mkEntry "bot" "alice" ["a"; "b"] ["*"] [] "auto" "not ready".
Proof.
  apply (DecodeEntry_EncodeEntry (mkEntry "bot" "alice" ["a"; "b"] ["*"] [] "auto" "not ready")).
  unfold encodable, encodable_list. simpl.
  repeat first [split | constructor]; first [done | by vm_compute].
Defined.

Fixpoint count_char (c : ascii) (s : string) : nat :=
  match s with
  | EmptyString => 0
  | String a s => ((if Ascii.eqb a c then 1 else 0) + count_char c s)%nat
  end.

Lemma Cut_count c s : match Cut c s with
                      | Some (_, y) => count_char c s = S (count_char c y)
                      | None => count_char c s = 0%nat
                      end.
Proof.
  induction s as [|a s IH]; simpl; [done|]. destruct (Ascii.eqb a c); [done|].
  destruct (Cut c s) as [[x y]|]; simpl; lia.
Qed.

Lemma SplitN_length c s n : length (SplitN c s (S n)) = S (Nat.min n (count_char c s)).
Proof.
  revert s. induction n as [|n IH]; intros s; [done|].
  change (length match Cut c s with Some (x, y) => x :: SplitN c y (S n) | None => [s] end =
          S (Nat.min (S n) (count_char c s))).
  pose proof (Cut_count c s) as Hc. destruct (Cut c s) as [[x y]|]; [|by rewrite Hc].
  change (S (length (SplitN c y (S n))) = S (Nat.min (S n) (count_char c s))). rewrite IH, Hc. lia.
Qed.

(** An entry without every field decodes blocked. *)
Lemma DecodeEntry_malformed s : (count_char compactField s < 6)%nat → e_Blocked (DecodeEntry s) = malformed.
Proof.
  intros H. unfold DecodeEntry. pose proof (SplitN_length compactField s 6) as Hl.
  unfold compactFields. destruct (SplitN compactField s 7) as [|? [|? [|? [|? [|? [|? [|? [|]]]]]]]]; try done;
    cbn [length] in Hl; lia.
Qed.

Lemma Derive_user_entry u idx e r :
  Users idx !! Username u = Some e → Derive u (Some idx) = inr r →
  Kind (r_Actor r) = ActorAgent ∧ Agent (r_Actor r) = e_Agent e ∧ Sponsor (r_Actor r) = e_Sponsor e ∧
  r_Entry r = Some e ∧ e_Blocked e = "".
Proof.
  intros Hu. unfold Derive, index_matches. rewrite Hu. simpl.
  destruct (list_find _ (omap _ _)) as [[]|]; [done|].
  destruct (decide (e_Blocked e ≠ "")) as [Hb|Hb]; [done|].
  destruct (list_find _ _) as [[]|]; simpl; [done|]. intros [= <-]. simpl. by apply dec_stable in Hb.
Qed.

(** The controller resolves a caller only against its own index, present and
    built, and within the agent's scope; a caller that the current format of the
    index lists is that agent, and never when its entry is malformed or blocked. *)
Theorem Resolve_fails_closed r name u w res :
  name ≠ "" → Resolve (Some (mkSource (Some r) name)) u w = inr res →
  ∃ idx st, Get r name = Found idx ∧ Readable (Some (ai_Status idx)) = (Some st, true) ∧
    Derive u (Some st) = inr res ∧ Actor.Scope (r_Entry res) w = None ∧
    (∀ s, IsCompact (ai_Status idx) = true → CompactUsers (ai_Status idx) !! Username u = Some s →
       Kind (r_Actor res) = ActorAgent ∧ r_Entry res = Some (DecodeEntry s) ∧
       (6 ≤ count_char compactField s)%nat ∧ e_Blocked (DecodeEntry s) = "") ∧
    (∀ e, IsCompact (ai_Status idx) = false → Users (ai_Status idx) !! Username u = Some e →
       Kind (r_Actor res) = ActorAgent ∧ r_Entry res = Some e ∧ e_Blocked e = "").
Proof.
  intros Hn. unfold Resolve, Index. cbn [s_Reader s_Name]. rewrite bool_decide_false by done. cbn [negb].
  destruct (Get r name) as [idx| |] eqn:Eg; [|done..].
  destruct (Readable (Some (ai_Status idx))) as [st [|]] eqn:Er; [|done].
  destruct (Derive u st) as [|r'] eqn:Ed; [done|]. destruct (Actor.Scope _ w) eqn:Es; [done|]. intros [= <-].
  destruct st as [st|]; [|simpl in Er; repeat case_match; naive_solver].
  exists idx, st. split_and!; try done.
  - intros s Hc Hs. simpl in Er. rewrite Hc in Er. simpl in Er. case_match; [done|]. injection Er as Est.
    assert (Users st !! Username u = Some (DecodeEntry s)) as Hst by (rewrite <-Est; cbn [Users]; by rewrite lookup_fmap, Hs).
    destruct (Derive_user_entry u _ (DecodeEntry s) r' Hst Ed)
      as (? & _ & _ & ? & Hb).
    split_and!; try done. destruct (decide (6 ≤ count_char compactField s)%nat) as [|Hlt]; [done|].
    rewrite DecodeEntry_malformed in Hb by lia. done.
  - intros e Hc He. simpl in Er. rewrite Hc in Er. simpl in Er. injection Er as <- _.
    destruct (Derive_user_entry u _ e r' He Ed) as (? & _ & _ & ? & ?). done.
Qed.

Definition demo_compact : AgentIndexStatus :=
  mkIndex 1 ∅ ∅ (<["ci-bot" := EncodeEntry demo_entry]> ∅) ∅ 0 0
    [mkCondition "Ready" false "CompactFormat"; mkCondition "CompactReady" true "Built"].

Definition demo_reader : Reader :=
  mkReader (λ n, if bool_decide (n = "kardinal") then Found (mkAgentIndex n demo_compact) else NotFound) NotFound.

Definition demo_resolved : Resolved :=
  mkResolved (mkActor ActorAgent "ci-bot" "deployer" "alice" "" None) (Some demo_entry).

Lemma Resolve_fails_closed_witness :
  Resolve (Some (mkSource (Some demo_reader) "kardinal")) (mkUser "ci-bot" []) (mkWhere "apps" "web" "test") =
    inr demo_resolved ∧
  ∃ idx st, Get demo_reader "kardinal" = Found idx ∧ Readable (Some (ai_Status idx)) = (Some st, true).
Proof.
  assert (Resolve (Some (mkSource (Some demo_reader) "kardinal")) (mkUser "ci-bot" []) (mkWhere "apps" "web" "test") =
    inr demo_resolved) as H by (vm_compute; reflexivity).
  split; [exact H|].
  destruct (Resolve_fails_closed demo_reader "kardinal" (mkUser "ci-bot" []) (mkWhere "apps" "web" "test") demo_resolved
    ltac:(done) H) as (idx & st & H1 & H2 & _).
  exists idx, st. split; assumption.
Defined.

(** ** The registry's index *)

Definition user_key (u : string) : string := "user:" +:+ u.
Definition group_key (g : string) : string := "group:" +:+ g.

(** The AgentIdentity lists a subject with this key. *)
Abbreviation lists id k := (k ∈ ownerKey <$> Subjects id).

(** The first AgentIdentity of a list with a subject of this key. *)
Fixpoint lister (l : list AgentIdentity) (k : string) : option AgentIdentity :=
  match l with
  | [] => None
  | id :: l => if bool_decide (lists id k) then Some id else lister l k
  end.

Lemma ownerKey_cases s :
  (isGroup s = false ∧ ownerKey s = user_key (SubjectKey s)) ∨
  (isGroup s = true ∧ ownerKey s = group_key (s_SubjectName s)).
Proof. unfold ownerKey. destruct (isGroup s); auto. Qed.

Section registry_proofs.
Variable compiles : string → bool.
Variable json_len : AgentIndexEntry → Z.
Abbreviation add_subject := (add_subject json_len).
Abbreviation add_identity := (add_identity compiles json_len).
Abbreviation verdict_of := (verdict_of compiles).

#[local] Ltac key_cases := try (case_match; [done|]); apply decide_ext; rewrite ?elem_of_cons; intuition congruence.

(** One AgentIdentity's subjects take the keys nobody has yet. *)
Lemma add_subjects_spec name e ss st :
  let st' := foldl (add_subject name e) st ss in
  (∀ k, owner st' !! k = match owner st !! k with
                         | Some o => Some o
                         | None => if decide (k ∈ ownerKey <$> ss) then Some name else None
                         end) ∧
  (∀ u, g_Users st' !! u = if decide (owner st !! user_key u = None ∧ user_key u ∈ ownerKey <$> ss)
                           then Some e else g_Users st !! u) ∧
  (∀ g, g_Groups st' !! g = if decide (owner st !! group_key g = None ∧ group_key g ∈ ownerKey <$> ss)
                            then Some e else g_Groups st !! g) ∧
  g_Verdicts st' = g_Verdicts st.
Proof.
  revert st. induction ss as [|s ss IH]; intros st; simpl.
  - split_and!; intros; repeat case_decide; try case_match; set_solver.
  - specialize (IH (add_subject name e st s)). destruct IH as (IHo & IHu & IHg & IHv). unfold AgentIndex.add_subject in *.
    destruct (owner st !! ownerKey s) as [o|] eqn:Eo.
    + split_and!; [intros k; rewrite IHo|intros u; rewrite IHu|intros g; rewrite IHg|done];
        key_cases.
    + simpl in *. split_and!; [intros k; rewrite IHo|intros u; rewrite IHu|intros g; rewrite IHg|done]; clear IHo IHu IHg IHv.
      * destruct (decide (k = ownerKey s)) as [->|Hk].
        -- rewrite lookup_insert_eq, Eo, decide_True by set_solver. done.
        -- rewrite lookup_insert_ne by done. destruct (owner st !! k); [done|]. key_cases.
      * destruct (ownerKey_cases s) as [[-> Hs]|[-> Hs]]; rewrite Hs in *.
        -- destruct (decide (u = SubjectKey s)) as [->|Hu].
           ++ rewrite !lookup_insert_eq. rewrite decide_False by naive_solver.
              rewrite decide_True by set_solver. done.
           ++ assert (user_key u ≠ user_key (SubjectKey s)) by (intros [= ?]; done).
              rewrite !lookup_insert_ne by done. key_cases.
        -- rewrite !lookup_insert_ne by done. 
           assert (user_key u ≠ group_key (s_SubjectName s)) by done. key_cases.
      * destruct (ownerKey_cases s) as [[-> Hs]|[-> Hs]]; rewrite Hs in *.
        -- rewrite !lookup_insert_ne by done.
           assert (group_key g ≠ user_key (SubjectKey s)) by done. key_cases.
        -- destruct (decide (g = s_SubjectName s)) as [->|Hu].
           ++ rewrite !lookup_insert_eq. rewrite decide_False by naive_solver.
              rewrite decide_True by set_solver. done.
           ++ assert (group_key g ≠ group_key (s_SubjectName s)) by (intros [= ?]; done).
              rewrite !lookup_insert_ne by done. key_cases.
Qed.

Lemma lister_snoc pre id k :
  lister (pre ++ [id]) k =
  match lister pre k with Some x => Some x | None => if decide (lists id k) then Some id else None end.
Proof.
  induction pre as [|x pre IH]; cbn [lister app].
  - case_bool_decide; case_decide; done.
  - by case_bool_decide.
Qed.

Lemma lister_Some l k id : lister l k = Some id → id ∈ l ∧ lists id k.
Proof.
  induction l as [|x l IH]; cbn [lister]; [done|]. case_bool_decide as H.
  - intros [= <-]. split; [by left|done].
  - intros E. destruct (IH E). split; [by right|done].
Qed.

Lemma lister_None l k : lister l k = None ↔ ∀ id, id ∈ l → ¬ lists id k.
Proof.
  induction l as [|x l IH]; cbn [lister]; [set_solver|]. setoid_rewrite elem_of_cons.
  case_bool_decide as H; [naive_solver|]. rewrite IH. naive_solver.
Qed.

(** When an AgentIdentity takes effect: no older one has a subject of it, its
    sponsor is no agent, its expressions compile. *)
Definition takes_effect (us : gmap string string) (older : list AgentIdentity) (id : AgentIdentity) : Prop :=
  (∀ s, s ∈ Subjects id → lister older (ownerKey s) = None) ∧ us !! SponsorUser id = None ∧
  Forall (λ r, r = "" ∨ compiles r = true) (SubjectRegExps id).

Lemma find_conflict_None owner name ss :
  find_conflict owner name ss = None ↔ ∀ s, s ∈ ss → owner !! ownerKey s = None ∨ owner !! ownerKey s = Some name.
Proof.
  induction ss as [|s ss IH]; simpl; [set_solver|].
  setoid_rewrite elem_of_cons. destruct (owner !! ownerKey s) as [o|] eqn:E.
  - case_bool_decide as Ho; [subst; rewrite IH; naive_solver|].
    split; [done|]. intros H. destruct (H s (or_introl eq_refl)); congruence.
  - rewrite IH. naive_solver.
Qed.

Lemma find_bad_regexp_None i rs :
  find_bad_regexp compiles i rs = None ↔ Forall (λ r, r = "" ∨ compiles r = true) rs.
Proof.
  revert i. induction rs as [|r rs IH]; intros i; simpl; [done|]. rewrite Forall_cons, <-(IH (S i)).
  case_bool_decide; destruct (compiles r) eqn:E; simpl; naive_solver.
Qed.

Lemma find_conflict_not_ready owner name ss v : find_conflict owner name ss = Some v → Ready v = false.
Proof.
  induction ss as [|s ss IH]; simpl; [done|]. destruct (owner !! ownerKey s); [|done].
  case_bool_decide; [done|]. by intros [= <-].
Qed.

Lemma find_bad_regexp_not_ready i rs v : find_bad_regexp compiles i rs = Some v → Ready v = false.
Proof.
  revert i. induction rs as [|r rs IH]; intros i; simpl; [done|].
  destruct (_ && _); [by intros [= <-]|apply IH].
Qed.

(** The verdict, given that the owners are those of the older AgentIdentities. *)
Lemma verdict_of_Ready owner us pre id :
  (∀ k, owner !! k = id_Name <$> lister pre k) → id_Name id ∉ id_Name <$> pre →
  Ready (verdict_of owner us id) = true ↔ takes_effect us pre id.
Proof.
  intros Ho Hn. unfold AgentIndex.verdict_of, takes_effect.
  assert (find_conflict owner (id_Name id) (Subjects id) = None ↔
          ∀ s, s ∈ Subjects id → lister pre (ownerKey s) = None) as Hc.
  { rewrite find_conflict_None. setoid_rewrite Ho. split; intros H s Hs; specialize (H s Hs).
    - destruct (lister pre (ownerKey s)) as [x|] eqn:E; [|done]. exfalso.
      apply lister_Some in E as [E _]. destruct H as [|[= H]]; [done|]. apply Hn. rewrite <-H.
      by apply list_elem_of_fmap_2.
    - rewrite H. by left. }
  rewrite <-Hc. destruct (find_conflict _ _ _) as [v|] eqn:E.
  { apply find_conflict_not_ready in E. rewrite E. naive_solver. }
  destruct (us !! SponsorUser id); [naive_solver|].
  rewrite <-(find_bad_regexp_None 0). destruct (find_bad_regexp _ _ _) as [v|] eqn:Eb; simpl; [|naive_solver].
  apply find_bad_regexp_not_ready in Eb. rewrite Eb. naive_solver.
Qed.

(** The state after some of the sorted AgentIdentities: each key belongs to the
    first that lists it, with the entry of that one's verdict. *)
Record registry_inv (us : gmap string string) (pre : list AgentIdentity) (st : reg_state) : Prop := {
  inv_owner k : owner st !! k = id_Name <$> lister pre k;
  inv_users u : g_Users st !! u = lister pre (user_key u) ≫= λ id, (λ v, entry_of v id) <$> g_Verdicts st !! id_Name id;
  inv_groups g : g_Groups st !! g = lister pre (group_key g) ≫= λ id, (λ v, entry_of v id) <$> g_Verdicts st !! id_Name id;
  inv_dom n : n ∉ id_Name <$> pre → g_Verdicts st !! n = None;
  inv_verdict i id : pre !! i = Some id →
    ∃ v, g_Verdicts st !! id_Name id = Some v ∧ (Ready v = true ↔ takes_effect us (take i pre) id)
}.

(** The entries of a map after one more AgentIdentity: those of older ones are
    kept, the free keys get the new entry. *)
Lemma entries_step pre id k (vs : gmap string Verdict) v (old : option AgentIndexEntry) :
  id_Name id ∉ id_Name <$> pre →
  old = (lister pre k ≫= λ x, (λ w, entry_of w x) <$> vs !! id_Name x) →
  (if decide (id_Name <$> lister pre k = None ∧ lists id k) then Some (entry_of v id) else old) =
  (lister (pre ++ [id]) k ≫= λ x, (λ w, entry_of w x) <$> <[id_Name id := v]> vs !! id_Name x).
Proof.
  intros Hn ->. rewrite lister_snoc. destruct (lister pre k) as [x|] eqn:E.
  - rewrite decide_False by naive_solver. simpl. apply lister_Some in E as [E _].
    rewrite lookup_insert_ne; [done|]. intros H. apply Hn. rewrite H. by apply list_elem_of_fmap_2.
  - simpl. repeat case_decide; simpl; [by rewrite lookup_insert_eq|naive_solver..].
Qed.

Lemma add_identity_inv us pre id st :
  registry_inv us pre st → id_Name id ∉ id_Name <$> pre → registry_inv us (pre ++ [id]) (add_identity us st id).
Proof.
  intros H Hn. unfold AgentIndex.add_identity.
  set (v := verdict_of (owner st) us id).
  destruct (add_subjects_spec (id_Name id) (entry_of v id) (Subjects id)
    (mkReg (owner st) (size_ st) (g_Users st) (g_Groups st) (<[id_Name id := v]> (g_Verdicts st))))
    as (Ho & Hu & Hg & Hv). cbn [owner g_Users g_Groups g_Verdicts size_] in *.
  split.
  - intros k. rewrite Ho, (inv_owner _ _ _ H), lister_snoc.
    destruct (lister pre k); [done|]. simpl. by case_decide.
  - intros u. rewrite Hu, Hv, (inv_owner _ _ _ H). apply entries_step; [done|apply (inv_users _ _ _ H)].
  - intros g. rewrite Hg, Hv, (inv_owner _ _ _ H). apply entries_step; [done|apply (inv_groups _ _ _ H)].
  - intros n Hin. rewrite Hv. rewrite fmap_app, elem_of_app in Hin. simpl in Hin.
    rewrite lookup_insert_ne by set_solver. apply (inv_dom _ _ _ H). naive_solver.
  - intros i x Hx. rewrite Hv. apply lookup_app_Some in Hx as [Hx|[Hi Hx]].
    + destruct (inv_verdict _ _ _ H i x Hx) as (w & Hw & Hr). exists w.
      rewrite lookup_insert_ne by (intros E; apply Hn; rewrite E; apply list_elem_of_fmap_2; by eapply list_elem_of_lookup_2).
      rewrite take_app_le by (apply lookup_lt_Some in Hx; lia). done.
    + apply list_lookup_singleton_Some in Hx as [Hi' ->].
      exists v. rewrite lookup_insert_eq, take_app_le, firstn_all2 by lia. split; [done|].
      apply verdict_of_Ready; [apply (inv_owner _ _ _ H)|done].
Qed.

Lemma registry_inv_all us l :
  NoDup (id_Name <$> l) → registry_inv us l (foldl (add_identity us) (mkReg ∅ 0 ∅ ∅ ∅) l).
Proof.
  induction l as [|id l IH] using rev_ind; intros Hd.
  - split; try done; intros; simpl; by rewrite lookup_empty.
  - rewrite foldl_snoc. rewrite fmap_app in Hd. apply NoDup_app in Hd as (Hd & Hn & _).
    apply add_identity_inv; [by apply IH|]. set_solver.
Qed.

#[export] Instance identity_less_weak : StrictWeak identity_less.
Proof.
  split; unfold identity_less.
  - intros x y. repeat case_bool_decide; try congruence; rewrite ?Z.ltb_lt, ?Z.ltb_ge; [|lia].
    intros H1. apply str_ltb_ge, str_ltb_lt, H1.
  - intros x y z. repeat case_bool_decide; try congruence; rewrite ?Z.ltb_ge; rewrite ?str_ltb_ge; intros; try lia.
    by trans (id_Name y).
Qed.

Lemma identity_less_total a b : id_Name a ≠ id_Name b → identity_less a b = true ∨ identity_less b a = true.
Proof.
  intros Hn. unfold identity_less. repeat case_bool_decide; try congruence; rewrite ?Z.ltb_lt; [|lia].
  destruct (str_ltb_total (id_Name a) (id_Name b)) as [|[|]]; auto.
Qed.

(** The first lister of the sorted list is the oldest. *)
Lemma lister_oldest ids k o :
  NoDup (id_Name <$> ids) → lister (sort_by identity_less ids) k = Some o →
  o ∈ ids ∧ lists o k ∧ ∀ o', o' ∈ ids → lists o' k → o' = o ∨ identity_less o o' = true.
Proof.
  intros Hd Hl. pose proof (sort_by_sorted identity_less ids) as Hs.
  assert (∀ x, x ∈ sort_by identity_less ids ↔ x ∈ ids) as Hm by (intros; apply sort_by_elem).
  destruct (lister_Some _ _ _ Hl) as [Ho Hk]. apply Hm in Ho. split_and!; [done..|]. intros o' Ho' Hk'.
  destruct (decide (id_Name o' = id_Name o)) as [E|E].
  { left. by apply (NoDup_fmap_elem_eq id_Name ids). }
  right. destruct (identity_less_total _ _ E) as [Hlt|]; [exfalso|done].
  apply Hm in Ho'. clear Hm Ho Hd. induction (sort_by identity_less ids) as [|x l IH]; [done|].
  apply StronglySorted_cons in Hs as [Hx Hs]. cbn [lister] in Hl. case_bool_decide as Hxk.
  - injection Hl as ->. apply elem_of_cons in Ho' as [->|Ho']; [done|].
    rewrite Forall_forall in Hx. specialize (Hx _ Ho'). simpl in Hx. congruence.
  - apply elem_of_cons in Ho' as [->|Ho']; [done|]. auto.
Qed.

Lemma user_subjects_Some l u :
  is_Some (user_subjects l !! u) ↔ ∃ id s, id ∈ l ∧ s ∈ Subjects id ∧ isGroup s = false ∧ SubjectKey s = u.
Proof.
  assert (∀ name ss us, is_Some (foldl (add_userSubject name) us ss !! u) ↔
    is_Some (us !! u) ∨ ∃ s, s ∈ ss ∧ isGroup s = false ∧ SubjectKey s = u) as Hss.
  { intros name. induction ss as [|s ss IH]; intros us; simpl; [set_solver|].
    rewrite IH. setoid_rewrite elem_of_cons. unfold add_userSubject.
    destruct (isGroup s) eqn:Eg.
    { split; [naive_solver|]. intros [|(s' & [->|] & ? & ?)]; [by left|congruence|right; eauto]. }
    destruct (us !! SubjectKey s) eqn:E.
    - split; [naive_solver|].
      intros [|(s' & [->|] & ? & <-)]; [by left|left; by rewrite E|right; eauto].
    - rewrite lookup_insert_is_Some'. naive_solver. }
  unfold user_subjects. assert (∀ us, is_Some (foldl (λ us id, foldl (add_userSubject (id_Name id)) us (Subjects id)) us l !! u) ↔
    is_Some (us !! u) ∨ ∃ id s, id ∈ l ∧ s ∈ Subjects id ∧ isGroup s = false ∧ SubjectKey s = u) as Hl.
  { induction l as [|id l IH]; intros us; simpl; [set_solver|].
    rewrite IH, Hss. setoid_rewrite elem_of_cons. naive_solver. }
  rewrite Hl, lookup_empty. split; [intros [[]|]; done|auto].
Qed.

(** In a sorted list the elements before one are those less than it. *)
Lemma sorted_take_less l i x o :
  NoDup (id_Name <$> l) → sorted_by identity_less l → l !! i = Some x →
  o ∈ take i l ↔ o ∈ l ∧ identity_less o x = true.
Proof.
  revert i. induction l as [|y l IH]; intros i Hd Hs Hi; [done|].
  apply StronglySorted_cons in Hs as [Hy Hs]. simpl in Hd. apply NoDup_cons in Hd as [Hn Hd].
  rewrite Forall_forall in Hy. destruct i as [|i]; simpl in *.
  - injection Hi as ->. split; [set_solver|]. intros [Ho Hlt].
    apply elem_of_cons in Ho as [->|Ho]; [rewrite (less_irrefl identity_less) in Hlt; congruence|].
    specialize (Hy _ Ho). simpl in Hy. congruence.
  - rewrite !elem_of_cons, (IH i Hd Hs Hi). split; [|naive_solver].
    intros [->|]; [|naive_solver]. split; [by left|].
    assert (x ∈ l) as Hx by by eapply list_elem_of_lookup_2.
    assert (id_Name y ≠ id_Name x) as Hne by (intros E; apply Hn; rewrite E; by apply list_elem_of_fmap_2).
    destruct (identity_less_total _ _ Hne) as [|Hlt]; [done|]. specialize (Hy _ Hx). simpl in Hy. congruence.
Qed.

Lemma NoDup_sorted ids : NoDup (id_Name <$> ids) → NoDup (id_Name <$> sort_by identity_less ids).
Proof.
  intros Hd. assert (id_Name <$> sort_by identity_less ids ≡ₚ id_Name <$> ids) as ->; [|done].
  apply fmap_Permutation, sort_by_perm.
Qed.

Abbreviation Evaluate := (Evaluate compiles json_len).

Lemma Evaluate_inv ids maxBytes :
  NoDup (id_Name <$> ids) → Full (Evaluate ids maxBytes) = false →
  let sorted := sort_by identity_less ids in
  let st := foldl (add_identity (user_subjects sorted)) (mkReg ∅ 0 ∅ ∅ ∅) sorted in
  registry_inv (user_subjects sorted) sorted st ∧ Verdicts (Evaluate ids maxBytes) = g_Verdicts st ∧
  Users (r_Index (Evaluate ids maxBytes)) = g_Users st ∧ Groups (r_Index (Evaluate ids maxBytes)) = g_Groups st.
Proof.
  intros Hd. unfold AgentIndex.Evaluate. case_match; simpl; [done|]. intros _. split; [|done].
  by apply registry_inv_all, NoDup_sorted.
Qed.

(** The oldest AgentIdentity that lists a subject owns its entry. *)
Lemma Evaluate_user_entry ids maxBytes id s :
  NoDup (id_Name <$> ids) → Full (Evaluate ids maxBytes) = false →
  id ∈ ids → s ∈ Subjects id → isGroup s = false →
  ∃ o v, o ∈ ids ∧ lists o (ownerKey s) ∧
    (∀ o', o' ∈ ids → lists o' (ownerKey s) → o' = o ∨ identity_less o o' = true) ∧
    Verdicts (Evaluate ids maxBytes) !! id_Name o = Some v ∧
    Users (r_Index (Evaluate ids maxBytes)) !! SubjectKey s = Some (entry_of v o).
Proof.
  intros Hd Hf Hid Hs Hg. destruct (Evaluate_inv ids maxBytes Hd Hf) as (Hi & Hv & Hu & _).
  destruct (lister (sort_by identity_less ids) (ownerKey s)) as [o|] eqn:El.
  2:{ rewrite lister_None in El. destruct (El id); [by apply sort_by_elem|by apply list_elem_of_fmap_2]. }
  destruct (lister_oldest _ _ _ Hd El) as (Ho & Hk & Hold).
  assert (o ∈ sort_by identity_less ids) as Hso by by apply sort_by_elem.
  apply list_elem_of_lookup in Hso as [i Hso].
  destruct (inv_verdict _ _ _ Hi i o Hso) as (v & Hov & _). exists o, v. rewrite Hv, Hu.
  split_and!; try done. rewrite (inv_users _ _ _ Hi).
  destruct (ownerKey_cases s) as [[_ E]|[? _]]; [|congruence]. rewrite <-E, El. simpl. by rewrite Hov.
Qed.

(** A registered principal is never taken for a person: while the index is
    not full, a caller whose username is a subject of any AgentIdentity either
    fails to resolve or is the agent of the oldest AgentIdentity that lists it,
    and then that one is ready and not suspended. *)
Theorem registered_never_a_person ids maxBytes id s u r :
  NoDup (id_Name <$> ids) → Full (Evaluate ids maxBytes) = false →
  id ∈ ids → s ∈ Subjects id → isGroup s = false → Username u = SubjectKey s →
  Derive u (Some (r_Index (Evaluate ids maxBytes))) = inr r →
  Kind (r_Actor r) = ActorAgent ∧
  ∃ o, o ∈ ids ∧ lists o (ownerKey s) ∧
    (∀ o', o' ∈ ids → lists o' (ownerKey s) → o' = o ∨ identity_less o o' = true) ∧
    Agent (r_Actor r) = id_Name o ∧ Sponsor (r_Actor r) = SponsorUser o ∧
    Suspended o = false ∧ Verdicts (Evaluate ids maxBytes) !! id_Name o = Some Valid.
Proof.
  intros Hd Hf Hid Hs Hg Hu Hr.
  destruct (Evaluate_user_entry ids maxBytes id s Hd Hf Hid Hs Hg) as (o & v & Ho & Hk & Hold & Hv & He).
  rewrite <-Hu in He. destruct (Derive_user_entry _ _ _ _ He Hr) as (HK & HA & HS & _ & Hb).
  split; [done|]. exists o. unfold entry_of in *.
  destruct v; simpl in *; try done. destruct (Suspended o); done.
Qed.

(** Which AgentIdentities take effect: when the index is not full, exactly
    those with no subject of an older one, whose sponsor is no subject of any,
    and whose signing expressions compile; so two agents that are ready share
    no subject and no agent sponsors an agent. *)
Theorem ready_iff ids maxBytes id :
  NoDup (id_Name <$> ids) → Full (Evaluate ids maxBytes) = false → id ∈ ids →
  ∃ v, Verdicts (Evaluate ids maxBytes) !! id_Name id = Some v ∧
    (Ready v = true ↔
     (∀ o s, o ∈ ids → identity_less o id = true → s ∈ Subjects id → ¬ lists o (ownerKey s)) ∧
     (∀ o s, o ∈ ids → s ∈ Subjects o → isGroup s = false → SubjectKey s ≠ SponsorUser id) ∧
     Forall (λ x, x = "" ∨ compiles x = true) (SubjectRegExps id)).
Proof.
  intros Hd Hf Hid. destruct (Evaluate_inv ids maxBytes Hd Hf) as (Hi & Hv & _). rewrite Hv.
  pose proof (sort_by_sorted identity_less ids) as Hs.
  assert (∀ x, x ∈ sort_by identity_less ids ↔ x ∈ ids) as Hm by (intros; apply sort_by_elem).
  assert (id ∈ sort_by identity_less ids) as Hl by by apply Hm.
  apply list_elem_of_lookup in Hl as [i Hl].
  destruct (inv_verdict _ _ _ Hi i id Hl) as (v & Hiv & Hr). exists v. split; [done|].
  rewrite Hr. unfold takes_effect. clear Hr Hiv Hi Hv.
  assert (∀ o, o ∈ take i (sort_by identity_less ids) ↔ o ∈ ids ∧ identity_less o id = true) as Ht.
  { intros o. rewrite <-Hm. apply sorted_take_less; [by apply NoDup_sorted|done..]. }
  assert (user_subjects (sort_by identity_less ids) !! SponsorUser id = None ↔
    ∀ o s, o ∈ ids → s ∈ Subjects o → isGroup s = false → SubjectKey s ≠ SponsorUser id) as ->.
  { rewrite eq_None_not_Some, user_subjects_Some. setoid_rewrite Hm. naive_solver. }
  setoid_rewrite lister_None. setoid_rewrite Ht. naive_solver.
Qed.

End registry_proofs.

(** ** A registry of two agents that both list the CI bot *)

Definition ci_bot : AgentSubject := mkSubject ServiceAccountSubject "bot" "ci".

Definition demo_ids : list AgentIdentity :=
  [mkIdentity "late" 20 [ci_bot] "bob" ["*"] [] [] "" false [];
   mkIdentity "early" 10 [ci_bot] "alice" ["*"] [] [] "" false ["ok"]].

Abbreviation demo_registry := (Evaluate (λ r, bool_decide (r = "ok")) (λ _, 100) demo_ids 1000).

Lemma demo_ids_NoDup : NoDup (id_Name <$> demo_ids).
Proof. compute_done. Qed.

Lemma registered_never_a_person_witness :
  ∃ r, Derive (mkUser "system:serviceaccount:ci:bot" []) (Some (r_Index demo_registry)) = inr r ∧
    Kind (r_Actor r) = ActorAgent.
Proof.
  eexists. split; [vm_compute; reflexivity|].
  eapply (registered_never_a_person (λ r, bool_decide (r = "ok")) (λ _, 100) demo_ids 1000
    (mkIdentity "early" 10 [ci_bot] "alice" ["*"] [] [] "" false ["ok"]) ci_bot
    (mkUser "system:serviceaccount:ci:bot" []));
    [apply demo_ids_NoDup|by vm_compute|by right; left|by left|done|done|vm_compute; reflexivity].
Defined.

Lemma ready_iff_witness :
  ∃ v, Verdicts demo_registry !! "late" = Some v ∧ v = SubjectConflict "system:serviceaccount:ci:bot" "early".
Proof.
  destruct (ready_iff (λ r, bool_decide (r = "ok")) (λ _, 100) demo_ids 1000
    (mkIdentity "late" 20 [ci_bot] "bob" ["*"] [] [] "" false [])) as (v & Hv & _);
    [apply demo_ids_NoDup|by vm_compute|by left|].
  exists v. split; [exact Hv|]. assert (Verdicts demo_registry !! "late" = Some (SubjectConflict "system:serviceaccount:ci:bot" "early")) as E
    by (vm_compute; reflexivity). cbn [id_Name] in Hv. congruence.
Defined.

End AgentIndex.
