(* ===== verification/ApprovalTally.v ===== *)
(** * ApprovalTally: counting the approvals of a gate

    Model of src/pkg/lifecycle/approval_tally.go and approval_fields.go: which
    decisions on a policy gate count, one vote per party, and where a caller
    stands.  UTF-8 validation, URL parsing and regular expressions come from
    Go's libraries and are parameters.  The messages in words are not modelled:
    [Held] and the reasons are the values they are made from. *)

From stdpp Require Import base gmap strings list sorting.
From Stdlib Require Import Lia ZArith Ascii.
From S2P Require Import Prelude Actor.

Open Scope Z_scope.

Module ApprovalTally.
Import Actor.

Definition MaxGateApprovals : Z := 100.
Definition MaxApprovalFieldValue : Z := 1024.
Definition MaxRecordedFieldValue : Z := 256.

Record ApprovalField := mkField {
  f_Name : string; f_Type : string; f_Required : bool; f_Pattern : string;
  f_MustBe : string; f_Values : list string; f_Description : string
}.

Record GateApprovalPolicy := mkPolicy {
  p_Required : Z;
  AllowedUsers : list string;
  AllowedGroups : list string;
  ExcludeAuthor : bool;
  RequiredWhen : string;
  AllowAgents : bool;
  AllowedAgents : list string;
  p_Fields : list ApprovalField
}.

(** One decision, as the Graph copies it from an Approval. *)
Record GateApproval := mkApproval {
  a_Bundle : string; a_BundleUID : string; a_Environment : string; a_User : string; a_Groups : list string;
  a_Decision : string; a_Comment : string; a_Actor : option Actor; a_Fields : gmap string string
}.

(** What the tally reads of a PolicyGate: the labels that name its Bundle and
    environment, its policy, the decisions, and
    [status.approvalRequired]. *)
Record Gate := mkGate {
  g_Bundle : string; g_Environment : string;
  g_Approval : option GateApprovalPolicy; g_Approvals : list GateApproval;
  g_ApprovalRequired : option bool
}.

(** [ApprovalWaived]: the last evaluation found requiredWhen false. *)
Definition ApprovalWaived (gate : Gate) : bool := bool_decide (g_ApprovalRequired gate = Some false).

Inductive ApprovalBlock :=
  | ApprovalOpen | ApprovalTooMany | ApprovalNoCreator | ApprovalComponentCreator | ApprovalRejected
  | ApprovalCounted | ApprovalNotAllowed | ApprovalAuthor | ApprovalAgentsOff | ApprovalAgentNotAllowed
  | ApprovalOwnParty.

#[export] Instance ApprovalBlock_eq_dec : EqDecision ApprovalBlock.
Proof. solve_decision. Defined.

(** [ApprovalBlock.Held]. *)
Definition block_held (b : ApprovalBlock) : bool :=
  match b with ApprovalTooMany | ApprovalNoCreator | ApprovalComponentCreator => true | _ => false end.

(** ** Who counts *)

(** [ComponentCreator] of lifecycle.go. *)
Definition ComponentCreator (who : string) : bool :=
  bool_decide (who = "kardinal-controller") || bool_decide (who = "bundle-api") ||
  bool_decide (who = "kardinal-ui") || HasPrefix who "subscription:".

Definition componentAuthor (author : Actor) : bool :=
  bool_decide (Kind author = ActorController) || ComponentCreator (Principal author).

Definition approvalPolicyBlock (p : option GateApprovalPolicy) (n : Z) (author : Actor) : ApprovalBlock :=
  match p with
  | None => ApprovalOpen
  | Some p =>
      if MaxGateApprovals <? n then ApprovalTooMany
      else if ExcludeAuthor p && bool_decide (Principal author = "") then ApprovalNoCreator
      else if ExcludeAuthor p && componentAuthor author then ApprovalComponentCreator
      else ApprovalOpen
  end.

Record Approver := mkApprover { ap_User : string; ap_Groups : list string; ap_Actor : option Actor }.

Definition actorOf (a : Approver) : Actor := OrUnknown (ap_Actor a) (ap_User a).

Definition approvalAllowed (p : GateApprovalPolicy) (user : string) (groups : list string) : bool :=
  (bool_decide (AllowedUsers p = []) && bool_decide (AllowedGroups p = [])) ||
  bool_decide (user ∈ AllowedUsers p) || existsb (λ g, bool_decide (g ∈ AllowedGroups p)) groups.

Definition approvalDecisionBlock (p : option GateApprovalPolicy) (a : Approver) (author : Actor) : ApprovalBlock :=
  let who := actorOf a in
  let own_party := negb (bool_decide (Principal author = "")) && SameParty author who in
  if bool_decide (Kind who = ActorAgent) then
    match p with
    | None => ApprovalAgentsOff
    | Some p =>
        if negb (AllowAgents p) then ApprovalAgentsOff
        else if negb (bool_decide (Agent who ∈ AllowedAgents p)) then ApprovalAgentNotAllowed
        else if own_party then ApprovalOwnParty
        else ApprovalOpen
    end
  else
    match p with
    | None => ApprovalOpen
    | Some p =>
        if negb (approvalAllowed p (ap_User a) (ap_Groups a)) then ApprovalNotAllowed
        else if ExcludeAuthor p && own_party then ApprovalAuthor
        else ApprovalOpen
    end.

(** [ApprovalDecisionCounts]: every block it names makes it answer false. *)
Definition ApprovalDecisionCounts (p : option GateApprovalPolicy) (a : Approver) (author : Actor) : bool :=
  match approvalDecisionBlock p a author with
  | ApprovalNotAllowed | ApprovalAuthor | ApprovalAgentsOff | ApprovalAgentNotAllowed | ApprovalOwnParty => false
  | _ => true
  end.

(** [partyRelation]: how the approver belongs to the author's party. *)
Inductive relation := TheAuthor | TheAgent | TheSponsor (agent : string) | OwnAgent (agent : string)
  | SiblingAgent (agent : string) | SomeParty.

Definition partyRelation (author approver : Actor) : relation :=
  let agentAuthor := bool_decide (Kind author = ActorAgent) in
  let agentApprover := bool_decide (Kind approver = ActorAgent) in
  if bool_decide (Principal approver = Principal author) then TheAuthor
  else if agentAuthor && agentApprover && bool_decide (Agent approver = Agent author) then TheAgent
  else if agentAuthor && bool_decide (Principal approver = Sponsor author) then TheSponsor (Agent author)
  else if agentApprover && bool_decide (Sponsor approver = Principal author) then OwnAgent (Agent approver)
  else if agentAuthor && agentApprover then SiblingAgent (Agent author)
  else SomeParty.

(** ** The fields of an approval *)

Inductive field_what :=
  | IsRequired | TooLong | BadUTF8 | NotBool | NotInt | NotURL | NotOneOf | UnknownType | BadPattern
  | NoMatch | NotMustBe.

Record FieldProblem := mkProblem { fp_Name : string; fp_what : field_what; fp_Missing : bool }.

(** [utf8.RuneStart]: not a continuation byte. *)
Definition RuneStart (a : ascii) : bool := negb (Z.land (Z.of_nat (nat_of_ascii a)) 192 =? 128).

(** The loop of [truncate]: back to a character boundary. *)
Fixpoint cut_at (s : string) (cut : nat) : nat :=
  match cut with
  | O => O
  | S c => match String.get cut s with
           | Some a => if RuneStart a then cut else cut_at s c
           | None => cut
           end
  end.

Definition ellipsis : string :=
  String (ascii_of_nat 226) (String (ascii_of_nat 128) (String (ascii_of_nat 166) EmptyString)).

Definition truncate (s : string) (n : Z) : string :=
  if (n <=? 0) || (Z.of_nat (String.length s) <=? n) then s
  else String.substring 0 (cut_at s (Z.to_nat n)) s +:+ ellipsis.

Definition fieldType (f : ApprovalField) : string := if bool_decide (f_Type f = "") then "string" else f_Type f.

Section fields.
(** [utf8.ValidString]; [url.Parse] with an http or https scheme and a host;
    [regexp.Compile] with [MatchString] ([None] when it does not compile). *)
Context (ValidString : string → bool) (http_url : string → bool) (re_match : string → option (string → bool)).

Definition fieldValueProblem (f : ApprovalField) (v : string) : option field_what :=
  if MaxApprovalFieldValue <? Z.of_nat (String.length v) then Some TooLong
  else if negb (ValidString v) then Some BadUTF8
  else
    let ty := fieldType f in
    let typed :=
      if bool_decide (ty = "bool") then
        if bool_decide (v = "true") || bool_decide (v = "false") then None else Some NotBool
      else if bool_decide (ty = "int") then
        if bool_decide (ParseInt64 v = None) then Some NotInt else None
      else if bool_decide (ty = "url") then if http_url v then None else Some NotURL
      else if bool_decide (ty = "enum") then if bool_decide (v ∈ f_Values f) then None else Some NotOneOf
      else if bool_decide (ty = "string") then None
      else Some UnknownType in
    match typed with
    | Some w => Some w
    | None =>
        let matched :=
          if bool_decide (f_Pattern f = "") then None
          else match re_match (f_Pattern f) with
               | None => Some BadPattern
               | Some re => if re v then None else Some NoMatch
               end in
        match matched with
        | Some w => Some w
        | None => if negb (bool_decide (f_MustBe f = "")) && negb (bool_decide (v = f_MustBe f)) then Some NotMustBe else None
        end
    end.

(** One declared field. *)
Definition field_problem (fields : gmap string string) (f : ApprovalField) : option FieldProblem :=
  let v := default "" (fields !! f_Name f) in
  if bool_decide (v = "") then
    if f_Required f then Some (mkProblem (f_Name f) IsRequired true) else None
  else (λ w, mkProblem (f_Name f) w false) <$> fieldValueProblem f v.

Definition ApprovalFieldProblems (p : option GateApprovalPolicy) (fields : gmap string string) : list FieldProblem :=
  match p with
  | None => []
  | Some p => sort_by (λ a b, str_ltb (fp_Name a) (fp_Name b)) (omap (field_problem fields) (p_Fields p))
  end.

Definition ApprovalFieldsValid (p : option GateApprovalPolicy) (fields : gmap string string) : bool :=
  bool_decide (ApprovalFieldProblems p fields = []).

Definition DeclaredFields (p : option GateApprovalPolicy) (fields : gmap string string) (limit : Z) : gmap string string :=
  match p with
  | None => ∅
  | Some p => foldl (λ out f, match fields !! f_Name f with
                              | Some v => <[f_Name f := truncate v limit]> out
                              | None => out
                              end) ∅ (p_Fields p)
  end.

(** ** The tally *)

Inductive not_counted :=
  | Counts | OtherGate | Blocked (b : ApprovalBlock) | BadFields | PartyCounted (by_ : string).

Record GateApprovalStatus := mkStatus {
  s_User : string; s_Decision : string; s_Comment : string; s_Actor : option Actor;
  s_Fields : gmap string string; s_Counted : bool; s_Reason : not_counted
}.

(** The state of the loop. *)
Record tally_state := mkTS {
  approved : gmap string string;
  rejected : gmap string string;
  approvedFields : gmap string (gmap string string);
  comments : gmap string string;
  records : list GateApprovalStatus
}.

Definition approver_of (a : GateApproval) : Approver := mkApprover (a_User a) (a_Groups a) (a_Actor a).

Definition key_of (a : GateApproval) : string := PartyKey (actorOf (approver_of a)).

Definition is_reject (a : GateApproval) : bool := bool_decide (a_Decision a = "reject").

Definition tally_step (gate : Gate) (author : Actor) (t : tally_state) (a : GateApproval) : tally_state :=
  let p := g_Approval gate in
  let rec_ counted reason := mkStatus (a_User a) (a_Decision a) (a_Comment a) (a_Actor a)
    (DeclaredFields p (a_Fields a) MaxRecordedFieldValue) counted reason in
  let fieldsOK := is_reject a || ApprovalFieldsValid p (a_Fields a) in
  let add r t := mkTS (approved t) (rejected t) (approvedFields t) (comments t) (records t ++ [r]) in
  if negb (bool_decide (a_Bundle a = g_Bundle gate)) || negb (bool_decide (a_Environment a = g_Environment gate))
  then add (rec_ false OtherGate) t
  else if negb (ApprovalDecisionCounts p (approver_of a) author)
  then add (rec_ false (Blocked (approvalDecisionBlock p (approver_of a) author))) t
  else if negb fieldsOK then add (rec_ false BadFields) t
  else
    let key := key_of a in
    if is_reject a then
      let rej := match rejected t !! key with Some _ => rejected t | None => <[key := a_User a]> (rejected t) end in
      let com := if bool_decide (a_Comment a = "") then comments t
                 else <[default "" (rej !! key) := a_Comment a]> (comments t) in
      mkTS (approved t) rej (approvedFields t) com (records t ++ [rec_ true Counts])
    else
      match approved t !! key with
      | None =>
          mkTS (<[key := a_User a]> (approved t)) (rejected t) (<[key := a_Fields a]> (approvedFields t)) (comments t)
            (records t ++ [rec_ true Counts])
      | Some u =>
          if bool_decide (u = a_User a) then add (rec_ true Counts) t
          else add (rec_ false (PartyCounted u)) t
      end.

Record ApprovalTally := mkTally {
  Required : Z;
  Approvers : list string;
  Rejecters : list string;
  Comments : gmap string string;
  Records : list GateApprovalStatus;
  Held : ApprovalBlock;
  Fields : gmap string (list string);
  countedKeys : gmap string string
}.

(** The values of the declared fields that the counted approvals carry. *)
Definition tally_fields (p : option GateApprovalPolicy) (counted : gmap string string)
    (approvers : list string) (af : gmap string (gmap string string)) : gmap string (list string) :=
  match p with
  | None => ∅
  | Some p =>
      let byUser : gmap string string := list_to_map ((λ kv, (kv.2, kv.1)) <$> map_to_list counted) in
      foldl (λ m f, <[f_Name f :=
        omap (λ u, match default ∅ (af !! default "" (byUser !! u)) !! f_Name f with
                   | Some v => if bool_decide (v = "") then None else Some v
                   | None => None
                   end) approvers]> m) ∅ (p_Fields p)
  end.

Definition sorted_decisions (gate : Gate) : list GateApproval :=
  sort_by (λ a b, str_ltb (a_User a) (a_User b)) (g_Approvals gate).

Definition tally_loop (gate : Gate) (author : Actor) : tally_state :=
  foldl (tally_step gate author) (mkTS ∅ ∅ ∅ ∅ []) (sorted_decisions gate).

Definition TallyApprovals (gate : Gate) (author : Actor) : ApprovalTally :=
  let p := g_Approval gate in
  let t := tally_loop gate author in
  let counted := filter (λ kv, rejected t !! kv.1 = None) (approved t) in
  let approvers := sort_by str_ltb (map_to_list counted).*2 in
  mkTally (match p with Some p => Z.max (p_Required p) 1 | None => 0 end)
    approvers
    (sort_by str_ltb (map_to_list (rejected t)).*2)
    (comments t) (records t)
    (approvalPolicyBlock p (Z.of_nat (length (g_Approvals gate))) author)
    (tally_fields p counted approvers (approvedFields t))
    counted.

Definition Met (t : ApprovalTally) : bool :=
  if Required t =? 0 then true
  else bool_decide (Held t = ApprovalOpen) && bool_decide (Rejecters t = []) &&
       (Required t <=? Z.of_nat (length (Approvers t))).

(** ** Where a caller stands *)

Record ApprovalStanding := mkStanding {
  Approved : Z; st_Required : Z; CanApprove : bool; AlreadyCounted : bool;
  RejectedBy : list string; Block : ApprovalBlock; Who : list string; Waived : bool
}.

Definition who_may (p : option GateApprovalPolicy) : list string :=
  match p with
  | None => []
  | Some p => AllowedUsers p ++ ((λ g, "group " +:+ g) <$> AllowedGroups p) ++
              (if AllowAgents p then (λ a, "agent " +:+ a) <$> AllowedAgents p else [])
  end.

Definition ApprovalStandingOf (gate : Gate) (author : Actor) (id : option Approver) : ApprovalStanding :=
  let t := TallyApprovals gate author in
  let p := g_Approval gate in
  let already := match id with Some who => bool_decide (is_Some (countedKeys t !! PartyKey (actorOf who))) | None => false end in
  let mk can block := mkStanding (Z.of_nat (length (Approvers t))) (Required t) can already (Rejecters t) block (who_may p)
    (ApprovalWaived gate) in
  if negb (bool_decide (Held t = ApprovalOpen)) then mk false (Held t)
  else if negb (bool_decide (Rejecters t = [])) then mk false ApprovalRejected
  else match id with
       | None => mk false ApprovalOpen
       | Some who =>
           if already then mk false ApprovalCounted
           else mk (ApprovalDecisionCounts p who author) (approvalDecisionBlock p who author)
       end.

(** ** What the loop finds *)

(** The decision counts: it is for this gate, by someone the policy counts, and
    an approve carries the declared fields. *)
Definition qualifies (gate : Gate) (author : Actor) (a : GateApproval) : bool :=
  bool_decide (a_Bundle a = g_Bundle gate) && bool_decide (a_Environment a = g_Environment gate) &&
  ApprovalDecisionCounts (g_Approval gate) (approver_of a) author &&
  (is_reject a || ApprovalFieldsValid (g_Approval gate) (a_Fields a)).

Lemma tally_step_maps gate author t a :
  let t' := tally_step gate author t a in
  (qualifies gate author a = false → approved t' = approved t ∧ rejected t' = rejected t) ∧
  (qualifies gate author a = true → is_reject a = true →
     approved t' = approved t ∧
     rejected t' = match rejected t !! key_of a with Some _ => rejected t | None => <[key_of a := a_User a]> (rejected t) end) ∧
  (qualifies gate author a = true → is_reject a = false →
     rejected t' = rejected t ∧
     approved t' = match approved t !! key_of a with Some _ => approved t | None => <[key_of a := a_User a]> (approved t) end).
Proof.
  unfold tally_step, qualifies. simpl.
  destruct (bool_decide (a_Bundle a = g_Bundle gate)); simpl; [|done].
  destruct (bool_decide (a_Environment a = g_Environment gate)); simpl; [|done].
  destruct (ApprovalDecisionCounts (g_Approval gate) (approver_of a) author); simpl; [|done].
  destruct (is_reject a); simpl; [done|]. destruct (ApprovalFieldsValid (g_Approval gate) (a_Fields a)); simpl; [|done].
  destruct (approved t !! key_of a); simpl; [|done]. by case_bool_decide.
Qed.

(** [m] holds the party keys of the decisions of [ds] that satisfy [P], each
    with the user of one of them. *)
Definition keys_of (P : GateApproval → Prop) (ds : list GateApproval) (m : gmap string string) : Prop :=
  (∀ k u, m !! k = Some u → ∃ a, a ∈ ds ∧ P a ∧ key_of a = k ∧ a_User a = u) ∧
  (∀ a, a ∈ ds → P a → is_Some (m !! key_of a)).

Lemma keys_of_skip P ds m a : keys_of P ds m → ¬ P a → keys_of P (ds ++ [a]) m.
Proof.
  intros [H1 H2] Ha. split.
  - intros k u Hk. destruct (H1 k u Hk) as (b & ? & ?). exists b. rewrite elem_of_app. naive_solver.
  - intros b [Hb| ->%list_elem_of_singleton]%elem_of_app Pb; [auto|done].
Qed.

Lemma keys_of_add P ds m a :
  keys_of P ds m → P a →
  keys_of P (ds ++ [a]) (match m !! key_of a with Some _ => m | None => <[key_of a := a_User a]> m end).
Proof.
  intros [H1 H2] Ha. destruct (m !! key_of a) eqn:E; split.
  - intros k u Hk. destruct (H1 k u Hk) as (b & ? & ?). exists b. rewrite elem_of_app. naive_solver.
  - intros b [Hb| ->%list_elem_of_singleton]%elem_of_app Pb; [auto|]. by rewrite E.
  - intros k u. rewrite lookup_insert. case_decide as Ek.
    + intros [= <-]. exists a. rewrite elem_of_app, list_elem_of_singleton. naive_solver.
    + intros Hk. destruct (H1 k u Hk) as (b & ? & ?). exists b. rewrite elem_of_app. naive_solver.
  - intros b [Hb| ->%list_elem_of_singleton]%elem_of_app Pb.
    + apply lookup_insert_is_Some'. right. auto.
    + by rewrite lookup_insert_eq.
Qed.

Definition counted_approve (gate : Gate) (author : Actor) (a : GateApproval) : Prop :=
  qualifies gate author a = true ∧ is_reject a = false.

Definition counted_reject (gate : Gate) (author : Actor) (a : GateApproval) : Prop :=
  qualifies gate author a = true ∧ is_reject a = true.

Lemma tally_fold gate author ds :
  let t := foldl (tally_step gate author) (mkTS ∅ ∅ ∅ ∅ []) ds in
  keys_of (counted_approve gate author) ds (approved t) ∧ keys_of (counted_reject gate author) ds (rejected t).
Proof.
  induction ds as [|a ds IH] using rev_ind.
  { split; split; simpl; [by intros k u|set_solver|by intros k u|set_solver]. }
  cbv zeta in *. rewrite foldl_snoc. destruct IH as [IA IR]. set (t := foldl _ _ ds) in *.
  destruct (tally_step_maps gate author t a) as (M1 & M2 & M3).
  destruct (qualifies gate author a) eqn:Eq; [destruct (is_reject a) eqn:Er|].
  - destruct (M2 eq_refl eq_refl) as [-> ->]. split.
    + apply keys_of_skip; [done|]. intros [_ ?]. congruence.
    + by apply keys_of_add.
  - destruct (M3 eq_refl eq_refl) as [-> ->]. split.
    + by apply keys_of_add.
    + apply keys_of_skip; [done|]. intros [_ ?]. congruence.
  - destruct (M1 eq_refl) as [-> ->]. split; apply keys_of_skip; try done; intros [? _]; congruence.
Qed.

Lemma keys_of_perm P ds ds' m : ds ≡ₚ ds' → keys_of P ds m → keys_of P ds' m.
Proof.
  intros HP [H1 H2]. split.
  - intros k u Hk. destruct (H1 k u Hk) as (a & Ha & ?). exists a. by rewrite <-HP.
  - intros a Ha. rewrite <-HP in Ha. auto.
Qed.

Lemma tally_keys gate author :
  keys_of (counted_approve gate author) (g_Approvals gate) (approved (tally_loop gate author)) ∧
  keys_of (counted_reject gate author) (g_Approvals gate) (rejected (tally_loop gate author)).
Proof.
  unfold tally_loop. destruct (tally_fold gate author (sorted_decisions gate)) as [H1 H2].
  pose proof (sort_by_perm (λ a b, str_ltb (a_User a) (a_User b)) (g_Approvals gate)) as HP.
  split; by apply (keys_of_perm _ _ _ _ HP).
Qed.

(** The parties whose approve counts: each once, less those whose reject does. *)
Definition approving_parties (gate : Gate) (author : Actor) : gset string :=
  let ds := g_Approvals gate in
  list_to_set (key_of <$> filter (λ a, qualifies gate author a = true ∧ is_reject a = false) ds) ∖
  list_to_set (key_of <$> filter (λ a, qualifies gate author a = true ∧ is_reject a = true) ds).

Lemma approving_elem gate author k :
  k ∈ approving_parties gate author ↔
  (∃ a, a ∈ g_Approvals gate ∧ counted_approve gate author a ∧ key_of a = k) ∧
  ¬ (∃ a, a ∈ g_Approvals gate ∧ counted_reject gate author a ∧ key_of a = k).
Proof.
  unfold approving_parties, counted_approve, counted_reject.
  rewrite elem_of_difference, !elem_of_list_to_set, !list_elem_of_fmap.
  setoid_rewrite list_elem_of_filter. naive_solver.
Qed.

Lemma countedKeys_dom gate author :
  dom (countedKeys (TallyApprovals gate author)) = approving_parties gate author.
Proof.
  destruct (tally_keys gate author) as [[A1 A2] [R1 R2]]. simpl.
  apply set_eq. intros k. rewrite elem_of_dom, approving_elem. split.
  - intros [u [Hu Hr]%map_lookup_filter_Some]. simpl in Hr. split.
    + destruct (A1 k u Hu) as (a & Ha & Pa & Ek & _). by exists a.
    + intros (a & Ha & Pa & <-). destruct (R2 a Ha Pa) as [? E]. congruence.
  - intros [(a & Ha & Pa & <-) Hn]. destruct (A2 a Ha Pa) as [u Hu]. exists u.
    apply map_lookup_filter_Some. split; [done|]. simpl.
    destruct (rejected _ !! key_of a) as [v|] eqn:E; [|done]. exfalso. apply Hn.
    destruct (R1 _ _ E) as (b & Hb & Pb & Ek & _). by exists b.
Qed.

Lemma Approvers_length gate author :
  length (Approvers (TallyApprovals gate author)) = size (approving_parties gate author).
Proof.
  rewrite <-countedKeys_dom, size_dom. simpl. autorewrite with kardinal. rewrite length_fmap.
  by rewrite length_map_to_list.
Qed.

Lemma Rejecters_nil gate author :
  Rejecters (TallyApprovals gate author) = [] ↔ ∀ a, a ∈ g_Approvals gate → ¬ counted_reject gate author a.
Proof.
  destruct (tally_keys gate author) as [_ [R1 R2]]. simpl.
  assert (sort_by str_ltb (map_to_list (rejected (tally_loop gate author))).*2 = [] ↔
    rejected (tally_loop gate author) = ∅) as ->.
  { split.
    - intros E. apply map_to_list_empty_iff. apply (f_equal length) in E.
      rewrite sort_by_length, length_fmap in E. by destruct (map_to_list _).
    - intros ->. by rewrite map_to_list_empty. }
  split.
  - intros E a Ha Pa. destruct (R2 a Ha Pa) as [? H]. by rewrite E in H.
  - intros H. apply map_eq. intros k. rewrite lookup_empty. destruct (_ !! k) as [u|] eqn:E; [|done].
    destruct (R1 k u E) as (a & Ha & Pa & _). by destruct (H a Ha).
Qed.

(** Why a decision that counts is allowed to. *)
Lemma decision_counts p a author :
  ApprovalDecisionCounts (Some p) a author = true ↔
  let who := actorOf a in
  let own_party := Principal author ≠ "" ∧ SameParty author who = true in
  if bool_decide (Kind who = ActorAgent)
  then AllowAgents p = true ∧ Agent who ∈ AllowedAgents p ∧ ¬ own_party
  else approvalAllowed p (ap_User a) (ap_Groups a) = true ∧ (ExcludeAuthor p = true → ¬ own_party).
Proof.
  unfold ApprovalDecisionCounts, approvalDecisionBlock. simpl.
  destruct (bool_decide (Principal author = "")) eqn:Ep; [apply bool_decide_eq_true in Ep|apply bool_decide_eq_false in Ep];
    simpl; destruct (SameParty author (actorOf a)) eqn:Es; simpl;
    destruct (bool_decide (Kind (actorOf a) = ActorAgent)); simpl.
  all: destruct (AllowAgents p), (bool_decide (Agent (actorOf a) ∈ AllowedAgents p)) eqn:Ea;
    rewrite ?bool_decide_eq_true, ?bool_decide_eq_false in Ea; simpl;
    destruct (approvalAllowed p (ap_User a) (ap_Groups a)), (ExcludeAuthor p); simpl; naive_solver.
Qed.

Definition with_decision (gate : Gate) (a : GateApproval) : Gate :=
  mkGate (g_Bundle gate) (g_Environment gate) (g_Approval gate) (g_Approvals gate ++ [a]) (g_ApprovalRequired gate).

Lemma standing_can gate author who :
  CanApprove (ApprovalStandingOf gate author (Some who)) = true →
  Held (TallyApprovals gate author) = ApprovalOpen ∧ Rejecters (TallyApprovals gate author) = [] ∧
  countedKeys (TallyApprovals gate author) !! PartyKey (actorOf who) = None ∧
  ApprovalDecisionCounts (g_Approval gate) who author = true.
Proof.
  unfold ApprovalStandingOf. set (t := TallyApprovals gate author).
  case_bool_decide as E1; simpl; [|done]. case_bool_decide as E2; simpl; [|done].
  case_bool_decide as E3; simpl; [done|]. intros E4. split_and!; [done..| |done]. by apply eq_None_not_Some.
Qed.

(** ** Properties *)

(** C31. A gate with an approval policy is met exactly when nothing holds it,
    no decision that counts rejects, and at least the required number of
    distinct parties approved: an agent, its sponsor and the sponsor's other
    agents are one vote however many of them decide. *)
Theorem approval_met_iff gate author p :
  g_Approval gate = Some p →
  Met (TallyApprovals gate author) = true ↔
  approvalPolicyBlock (Some p) (Z.of_nat (length (g_Approvals gate))) author = ApprovalOpen ∧
  (∀ a, a ∈ g_Approvals gate → ¬ counted_reject gate author a) ∧
  Z.max (p_Required p) 1 ≤ Z.of_nat (size (approving_parties gate author)).
Proof.
  intros Hp. unfold Met. rewrite <-Rejecters_nil, <-Approvers_length. simpl. rewrite Hp.
  destruct (Z.eqb_spec (Z.max (p_Required p) 1) 0); [lia|].
  rewrite !andb_true_iff, !bool_decide_eq_true, Z.leb_le. tauto.
Qed.

(** Every name among the counted approvers is the user of a decision for
    this very gate that the policy lets count: a person among the allowed ones
    and, with excludeAuthor, not of the author's party; an agent only where the
    gate opts in to it by name, and never on its own party's work. *)
Theorem approvers_are_allowed gate author p u :
  g_Approval gate = Some p → u ∈ Approvers (TallyApprovals gate author) →
  ∃ a, a ∈ g_Approvals gate ∧ a_User a = u ∧ is_reject a = false ∧
    a_Bundle a = g_Bundle gate ∧ a_Environment a = g_Environment gate ∧
    ApprovalFieldsValid (Some p) (a_Fields a) = true ∧
    let who := actorOf (approver_of a) in
    let own_party := Principal author ≠ "" ∧ SameParty author who = true in
    (Kind who = ActorAgent → AllowAgents p = true ∧ Agent who ∈ AllowedAgents p ∧ ¬ own_party) ∧
    (Kind who ≠ ActorAgent → approvalAllowed p (a_User a) (a_Groups a) = true ∧ (ExcludeAuthor p = true → ¬ own_party)).
Proof.
  intros Hp. simpl. rewrite sort_by_elem. intros ([k u'] & -> & Hk)%list_elem_of_fmap.
  apply elem_of_map_to_list, map_lookup_filter_Some in Hk as [Hk _].
  destruct (tally_keys gate author) as [[A1 _] _]. destruct (A1 k u' Hk) as (a & Ha & [Hq Hr] & _ & Hu).
  unfold qualifies in Hq. rewrite Hr, Hp, !andb_true_iff, !bool_decide_eq_true, orb_false_l in Hq.
  destruct Hq as [[[Q1 Q2] Q3] Q4]. apply decision_counts in Q3. cbv zeta in Q3. exists a.
  split_and!; try done; intros Hk'; rewrite ?bool_decide_true, ?bool_decide_false in Q3 by done; done.
Qed.

(** What a caller is told matches what the gate will count: when the
    standing says the caller can approve, an approve by that caller for this
    gate with valid fields adds exactly one vote and leaves the gate neither
    held nor rejected. *)
Theorem standing_predicts_vote gate author a :
  CanApprove (ApprovalStandingOf gate author (Some (approver_of a))) = true →
  a_Bundle a = g_Bundle gate → a_Environment a = g_Environment gate → is_reject a = false →
  ApprovalFieldsValid (g_Approval gate) (a_Fields a) = true →
  Z.of_nat (length (g_Approvals gate)) < MaxGateApprovals →
  let t := TallyApprovals gate author in
  let t' := TallyApprovals (with_decision gate a) author in
  length (Approvers t') = S (length (Approvers t)) ∧ Held t' = ApprovalOpen ∧ Rejecters t' = [].
Proof.
  intros (Hh & Hr & Hc & Hd)%standing_can Hb He Hrej Hf Hn t t'.
  assert (Hq : qualifies gate author a = true).
  { unfold qualifies. by rewrite !bool_decide_true, Hd, Hf, Hrej by done. }
  assert (Hrej' : ∀ b, b ∈ g_Approvals (with_decision gate a) → ¬ counted_reject gate author b).
  { intros b [Hb'| ->%list_elem_of_singleton]%elem_of_app; [by eapply Rejecters_nil|]. intros [_ ?]. congruence. }
  assert (Hno : ∀ b, b ∈ g_Approvals gate → ¬ counted_reject gate author b) by by apply Rejecters_nil.
  assert (E : approving_parties (with_decision gate a) author = {[key_of a]} ∪ approving_parties gate author).
  { apply set_eq. intros k. rewrite elem_of_union, elem_of_singleton, !approving_elem. simpl.
    change (counted_approve (with_decision gate a)) with (counted_approve gate).
    change (counted_reject (with_decision gate a)) with (counted_reject gate).
    setoid_rewrite elem_of_app. setoid_rewrite list_elem_of_singleton.
    assert (Hca : counted_approve gate author a) by done.
    assert (Hnr : ¬ ∃ c, (c ∈ g_Approvals gate ∨ c = a) ∧ counted_reject gate author c ∧ key_of c = k).
    { intros (c & [Hc1| ->] & Hc2 & _); [by apply (Hno c)|]. destruct Hc2. congruence. }
    split.
    - intros [(b & [Hb'| ->] & Hcb & <-) _]; [right|by left]. split; [by exists b|].
      intros (c & Hc1 & Hc2 & _). by apply (Hno c).
    - intros [->|[(b & Hb' & Hcb & <-) _]]; (split; [|done]); [by exists a; auto|exists b; auto]. }
  assert (Hk : key_of a ∉ approving_parties gate author).
  { rewrite <-countedKeys_dom. by apply not_elem_of_dom. }
  split_and!.
  - subst t t'. rewrite !Approvers_length, E, size_union, size_singleton; [done|]. set_solver.
  - subst t'. simpl in *. unfold approvalPolicyBlock in *. rewrite length_app. simpl.
    destruct (g_Approval gate); [|done]. rewrite (proj2 (Z.ltb_ge _ _)) in Hh by lia.
    rewrite (proj2 (Z.ltb_ge _ _)) by lia. done.
  - subst t'. by apply Rejecters_nil.
Qed.

End fields.
(** alice's version, approved by bob; alice and her agent may not approve it. *)
Definition demo_policy : GateApprovalPolicy := mkPolicy 1 [] [] true "" true ["deployer"] [].

Definition demo_author : Actor := mkActor ActorHuman "alice" "" "" "" None.

Definition demo_vote (user : string) (actor : option Actor) : GateApproval :=
  mkApproval "v1" "uid1" "prod" user [] "approve" "" actor ∅.

Definition demo_gate : Gate :=
  mkGate "v1" "prod" (Some demo_policy)
    [demo_vote "bob" None; demo_vote "alice" None;
     demo_vote "sa" (Some (mkActor ActorAgent "sa" "deployer" "alice" "" None))] None.

Definition yes (_ : string) : bool := true.
Definition no_re (_ : string) : option (string → bool) := None.

Lemma approval_met_iff_witness :
  Met (TallyApprovals yes yes no_re demo_gate demo_author) = true ∧
  1 ≤ Z.of_nat (size (approving_parties yes yes no_re demo_gate demo_author)).
Proof.
  split; [by vm_compute|].
  apply (approval_met_iff yes yes no_re demo_gate demo_author demo_policy); [done|by vm_compute].
Defined.

Lemma approvers_are_allowed_witness :
  ∃ a, a ∈ g_Approvals demo_gate ∧ a_User a = "bob" ∧ is_reject a = false.
Proof.
  destruct (approvers_are_allowed yes yes no_re demo_gate demo_author demo_policy "bob") as (a & H1 & H2 & H3 & _).
  - done.
  - vm_compute. by left.
  - by exists a.
Defined.

Lemma standing_predicts_vote_witness :
  length (Approvers (TallyApprovals yes yes no_re (with_decision demo_gate (demo_vote "carol" None)) demo_author)) = 2%nat.
Proof.
  destruct (standing_predicts_vote yes yes no_re demo_gate demo_author (demo_vote "carol" None)) as (H & _);
    [by vm_compute..|]. rewrite H. by vm_compute.
Defined.

End ApprovalTally.
