(* ===== verification/VerdictTally.v ===== *)
(** * VerdictTally: counting the verdicts of a verify gate

    Model of src/pkg/lifecycle/verdict_tally.go: which verdicts are votes (the
    latest allowed one of each voter), and the outcome of the gate.  The
    messages in words are values; [time.ParseDuration] is a parameter. *)

From stdpp Require Import base gmap strings list sorting pretty.
From Stdlib Require Import Lia ZArith.
From S2P Require Import Prelude Actor.

Open Scope Z_scope.

Module VerdictTally.
Import Actor.

Definition MaxGateVerdicts : Z := 100.

Record VerifyRun := mkRun { Template : string; Count : Z; r_Namespace : string }.

(** [OnInconclusive] is hold, retry or fail, [OnTimeout] fail or allow; empty is
    unset. *)
Record GateVerifyPolicy := mkVerify {
  Check_ : string;
  v_Environment : string;
  v_Required : Z;
  v_MaxFailures : Z;
  v_AllowedAgents : list string;
  v_AllowedUsers : list string;
  v_AllowedGroups : list string;
  v_ExcludeAuthor : option bool;
  OnInconclusive : string;
  OnTimeout : string;
  Timeout_ : string;
  Retries : Z;
  Run : option VerifyRun
}.

Record VerdictRun := mkVRun { run_Name : string; run_Index : Z; run_Attempt : Z }.

Record GateVerdict := mkVerdict {
  vd_Name : string; vd_CreatedAt : option Time; vd_Bundle : string; vd_BundleUID : string;
  vd_Environment : string; vd_Check : string; vd_Result : string; vd_Summary : string;
  vd_EvidenceURL : string; vd_Findings : Z; vd_HighFindings : Z; vd_By : string; vd_Groups : list string; vd_Actor : option Actor;
  vd_Run : option VerdictRun
}.

(** What the tally reads of a PolicyGate. *)
Record Gate := mkGate { g_Bundle : string; g_Verify : option GateVerifyPolicy; g_Verdicts : list GateVerdict }.

Inductive outcome := VerifyWaiting | VerifyVerified | VerifyFailed | VerifyTimedOut.

#[export] Instance outcome_eq_dec : EqDecision outcome.
Proof. solve_decision. Defined.

(** [VerifyPolicyOf]: the policy with its defaults. *)
Definition with_defaults (p : GateVerifyPolicy) : GateVerifyPolicy :=
  let required := Z.max (v_Required p) 1 in
  mkVerify (Check_ p) (v_Environment p) required (v_MaxFailures p) (v_AllowedAgents p) (v_AllowedUsers p)
    (v_AllowedGroups p)
    (match v_ExcludeAuthor p with None => Some true | x => x end)
    (if bool_decide (OnInconclusive p = "") then "hold" else OnInconclusive p)
    (if bool_decide (OnTimeout p = "") then "fail" else OnTimeout p)
    (Timeout_ p) (Retries p)
    (match Run p with Some r => Some (if Count r =? 0 then mkRun (Template r) required (r_Namespace r) else r) | None => None end).

Definition VerifyPolicyOf (gate : Gate) : option GateVerifyPolicy := with_defaults <$> g_Verify gate.

Section parse.
Context (ParseDuration : string → option Duration).

Definition VerifyTimeout (p : option GateVerifyPolicy) : Duration :=
  match p with
  | None => 0
  | Some p =>
      if bool_decide (Timeout_ p = "") then 0
      else match ParseDuration (Timeout_ p) with
           | None => 0
           | Some d => if d <? 0 then 0 else d
           end
  end.

Definition VerifyDeadline (p : option GateVerifyPolicy) (healthCheckedAt : option Time) : option Time :=
  let d := VerifyTimeout p in
  if d =? 0 then None else (λ t, t + d) <$> healthCheckedAt.
End parse.

(** ** Who votes *)

Definition VerifierActor (v : GateVerdict) : Actor := OrUnknown (vd_Actor v) (vd_By v).

Definition verifierLabel (a : Actor) : string := if bool_decide (Kind a = ActorAgent) then Agent a else Principal a.

Definition VerdictWriterAllowed (p : GateVerifyPolicy) (v : Actor) (groups : list string) : bool :=
  if bool_decide (Kind v = ActorAgent) then bool_decide (Agent v ∈ v_AllowedAgents p)
  else (bool_decide (v_AllowedAgents p = []) && bool_decide (v_AllowedUsers p = []) && bool_decide (v_AllowedGroups p = []))
       || bool_decide (Principal v ∈ v_AllowedUsers p) || existsb (λ g, bool_decide (g ∈ v_AllowedGroups p)) groups.

Definition excludes (p : GateVerifyPolicy) : bool := match v_ExcludeAuthor p with None => true | Some b => b end.

(** [VerdictPartyBlock]: why the one-party rule refuses. *)
Inductive party_block := PartyOK | AuthorUnknown | AuthorsParty.

Definition VerdictPartyBlock (p : GateVerifyPolicy) (author v : Actor) : party_block :=
  let agent := bool_decide (Kind v = ActorAgent) in
  if negb (excludes p) && negb agent then PartyOK
  else if bool_decide (Principal author = "") then if agent then AuthorUnknown else PartyOK
  else if SameParty author v then AuthorsParty
  else PartyOK.

(** [voterOf]: one vote per run, else per party. *)
Definition voterOf (v : GateVerdict) (a : Actor) : string :=
  match vd_Run v with
  | Some r => "run:" +:+ pretty (run_Index r)
  | None => "party:" +:+ PartyKey a
  end.

(** ** The first loop: which verdicts are votes *)

Inductive vreason :=
  | NoReason | OtherGate | OtherVersion | NotAllowed | PartyRefused (b : party_block) | AfterTimeout
  | SupersededBy (name : string) | HeldReason | InconclusiveFails | Retrying (attempt : Z) | WaitingMore.

Record GateVerdictStatus := mkVStatus {
  vs_Name : string; vs_Verifier : string; vs_Result : string; vs_Counted : bool; vs_Reason : vreason;
  vs_Summary : string; vs_EvidenceURL : string; vs_Findings : Z; vs_CreatedAt : option Time;
  vs_Run : Z; vs_Attempt : Z
}.

Inductive held := NotHeld | TooManyVerdicts | NoAuthor.

#[export] Instance held_eq_dec : EqDecision held.
Proof. solve_decision. Defined.

Record VerdictTally := mkVTally {
  Policy : option GateVerifyPolicy;
  Required : Z; MaxFailures : Z;
  Passed : list string;
  Failed : list (string * string);
  Inconclusive : Z;
  HighFindings : Z;
  Records : list GateVerdictStatus;
  Held : held;
  Deadline : option Time;
  Outcome : option outcome
}.

Definition verdictTime (v : GateVerdict) : Time := default zeroTime (vd_CreatedAt v).

(** Oldest first, then by name. *)
Definition verdict_less (a b : GateVerdict) : bool :=
  if negb (verdictTime a =? verdictTime b) then verdictTime a <? verdictTime b else str_ltb (vd_Name a) (vd_Name b).

(** Why verdict [v] is no vote, or [NoReason]. *)
Definition refusal (gate : Gate) (p : GateVerifyPolicy) (author : Actor) (bundleUID : string)
    (deadline : option Time) (v : GateVerdict) : vreason :=
  let a := VerifierActor v in
  if (negb (bool_decide (g_Bundle gate = "")) && negb (bool_decide (vd_Bundle v = g_Bundle gate))) ||
     (negb (bool_decide (v_Environment p = "")) && negb (bool_decide (vd_Environment v = v_Environment p))) ||
     negb (bool_decide (vd_Check v = Check_ p)) then OtherGate
  else if negb (bool_decide (vd_BundleUID v = bundleUID)) then OtherVersion
  else if negb (VerdictWriterAllowed p a (vd_Groups v)) then NotAllowed
  else match VerdictPartyBlock p author a with
       | PartyOK =>
           match deadline, vd_CreatedAt v with
           | Some d, Some t => if d <? t then AfterTimeout else NoReason
           | _, _ => NoReason
           end
       | b => PartyRefused b
       end.

Definition is_vote (gate : Gate) (p : GateVerifyPolicy) (author : Actor) (bundleUID : string)
    (deadline : option Time) (v : GateVerdict) : bool :=
  match refusal gate p author bundleUID deadline v with NoReason => true | _ => false end.

Record vstate := mkVS { latest : gmap string nat; eligible : list bool; recs : list GateVerdictStatus }.

Definition set_reason (r : vreason) (s : GateVerdictStatus) : GateVerdictStatus :=
  mkVStatus (vs_Name s) (vs_Verifier s) (vs_Result s) (vs_Counted s) r (vs_Summary s)
    (vs_EvidenceURL s) (vs_Findings s) (vs_CreatedAt s) (vs_Run s) (vs_Attempt s).

Definition set_counted (s : GateVerdictStatus) : GateVerdictStatus :=
  mkVStatus (vs_Name s) (vs_Verifier s) (vs_Result s) true (vs_Reason s) (vs_Summary s)
    (vs_EvidenceURL s) (vs_Findings s) (vs_CreatedAt s) (vs_Run s) (vs_Attempt s).

(** One verdict; its index is how many came before. *)
Definition vote_step (gate : Gate) (p : GateVerifyPolicy) (author : Actor) (bundleUID : string)
    (deadline : option Time) (s : vstate) (v : GateVerdict) : vstate :=
  let a := VerifierActor v in
  let i := length (eligible s) in
  let reason := refusal gate p author bundleUID deadline v in
  let rec_ := mkVStatus (vd_Name v) (Describe a) (vd_Result v) false reason
                (vd_Summary v) (vd_EvidenceURL v) (vd_Findings v) (vd_CreatedAt v)
                (from_option run_Index 0 (vd_Run v)) (from_option run_Attempt 0 (vd_Run v)) in
  if is_vote gate p author bundleUID deadline v then
    let voter := voterOf v a in
    match latest s !! voter with
    | Some prev =>
        mkVS (<[voter := i]> (latest s)) (<[prev := false]> (eligible s) ++ [true])
          (alter (set_reason (SupersededBy (vd_Name v))) prev (recs s) ++ [rec_])
    | None => mkVS (<[voter := i]> (latest s)) (eligible s ++ [true]) (recs s ++ [rec_])
    end
  else mkVS (latest s) (eligible s ++ [false]) (recs s ++ [rec_]).

(** ** The second loop: how the votes count *)

Definition count_step (p : GateVerifyPolicy) (h : held) (t : VerdictTally) (x : GateVerdict * bool * GateVerdictStatus)
  : VerdictTally :=
  let '(v, el, r) := x in
  let add r passed failed inc high :=
    mkVTally (Policy t) (Required t) (MaxFailures t) passed failed inc high (Records t ++ [r]) (Held t) (Deadline t) (Outcome t) in
  if negb el || negb (bool_decide (h = NotHeld)) then
    let r := match h, vs_Reason r with
             | NotHeld, _ => r
             | _, NoReason => set_reason HeldReason r
             | _, _ => r
             end in
    add r (Passed t) (Failed t) (Inconclusive t) (HighFindings t)
  else
    let label := verifierLabel (VerifierActor v) in
    if bool_decide (vd_Result v = "pass") then
      add (set_counted r) (Passed t ++ [label]) (Failed t) (Inconclusive t) (HighFindings t + vd_HighFindings v)
    else if bool_decide (vd_Result v = "fail") ||
            (bool_decide (vd_Result v = "inconclusive") && bool_decide (OnInconclusive p = "fail")) then
      let r := set_counted r in
      let r := if bool_decide (vd_Result v = "inconclusive") then set_reason InconclusiveFails r else r in
      add r (Passed t) (Failed t ++ [(label, vd_Summary v)]) (Inconclusive t) (HighFindings t + vd_HighFindings v)
    else
      let r := match vd_Run v with
               | Some run => if bool_decide (OnInconclusive p = "retry") && (run_Attempt run <=? Retries p)
                             then set_reason (Retrying (run_Attempt run + 1)) r else set_reason WaitingMore r
               | None => set_reason WaitingMore r
               end in
      add r (Passed t) (Failed t) (Inconclusive t + 1) (HighFindings t).

Definition tally_outcome (t : VerdictTally) (deadline : option Time) (now : Time) : outcome :=
  if negb (bool_decide (Held t = NotHeld)) then VerifyWaiting
  else if MaxFailures t <? Z.of_nat (length (Failed t)) then VerifyFailed
  else if Required t <=? Z.of_nat (length (Passed t)) then VerifyVerified
  else match deadline with
       | Some d => if d <? now then VerifyTimedOut else VerifyWaiting
       | None => VerifyWaiting
       end.

Definition tally_held (p : GateVerifyPolicy) (n : Z) (author : Actor) : held :=
  if MaxGateVerdicts <? n then TooManyVerdicts
  else if bool_decide (Principal author = "") && excludes p then NoAuthor
  else NotHeld.

Definition zip3 (vs : list GateVerdict) (es : list bool) (rs : list GateVerdictStatus)
  : list (GateVerdict * bool * GateVerdictStatus) := zip (zip vs es) rs.

Definition TallyVerdicts (gate : Gate) (author : Actor) (bundleUID : string) (deadline : option Time) (now : Time)
  : VerdictTally :=
  match VerifyPolicyOf gate with
  | None => mkVTally None 0 0 [] [] 0 0 [] NotHeld deadline None
  | Some p =>
      let h := tally_held p (Z.of_nat (length (g_Verdicts gate))) author in
      let verdicts := sort_by verdict_less (g_Verdicts gate) in
      let s := foldl (vote_step gate p author bundleUID deadline) (mkVS ∅ [] []) verdicts in
      let t := foldl (count_step p h)
        (mkVTally (Some p) (v_Required p) (v_MaxFailures p) [] [] 0 0 [] h deadline None)
        (zip3 verdicts (eligible s) (recs s)) in
      mkVTally (Policy t) (Required t) (MaxFailures t) (Passed t) (Failed t) (Inconclusive t) (HighFindings t)
        (sort_by (λ a b, str_ltb (vs_Name a) (vs_Name b)) (Records t)) (Held t) (Deadline t)
        (Some (tally_outcome t deadline now))
  end.

(** What [Blocked] says: the cases of its message, with the parts of it that
    are computed.  [BlockedPanic]: a failed outcome without a failed vote would
    index an empty slice. *)
Inductive blocked :=
  | NotBlocked
  | BlockedHeld (h : held)
  | BlockedFailed (first : string * string) (more : Z)
  | BlockedPanic
  | BlockedTimedOut (timeout : string) (passed required : Z)
  | BlockedWaiting (passed required inconclusive : Z) (retrying : bool).

Definition Blocked (t : VerdictTally) : blocked :=
  match Policy t with
  | None => NotBlocked
  | Some p =>
      if negb (bool_decide (Held t = NotHeld)) then BlockedHeld (Held t)
      else match Outcome t with
           | Some VerifyFailed =>
               match Failed t with
               | f :: rest => BlockedFailed f (Z.of_nat (length rest))
               | [] => BlockedPanic
               end
           | Some VerifyVerified => NotBlocked
           | Some VerifyTimedOut =>
               if bool_decide (OnTimeout p = "allow") then NotBlocked
               else BlockedTimedOut (Timeout_ p) (Z.of_nat (length (Passed t))) (Required t)
           | _ => BlockedWaiting (Z.of_nat (length (Passed t))) (Required t) (Inconclusive t)
                    (bool_decide (OnInconclusive p = "retry"))
           end
  end.

(** [Met], as whether it says something. *)
Definition Met (t : VerdictTally) : bool :=
  match Policy t with
  | None => false
  | Some p =>
      if negb (bool_decide (Held t = NotHeld)) then false
      else match Outcome t with
           | Some VerifyVerified => true
           | Some VerifyTimedOut => bool_decide (OnTimeout p = "allow")
           | _ => false
           end
  end.

(** [Context]: the verdicts variable of a gate's expression. *)
Record verdicts_context := mkVCtx {
  cx_passed : Z; cx_failed : Z; cx_inconclusive : Z; cx_required : Z;
  cx_verifiers : list string; cx_timedOut : bool; cx_high : Z
}.

Definition Context_ (t : VerdictTally) : verdicts_context :=
  mkVCtx (Z.of_nat (length (Passed t))) (Z.of_nat (length (Failed t))) (Inconclusive t) (Required t)
    (Passed t) (bool_decide (Outcome t = Some VerifyTimedOut)) (HighFindings t).

(** [VerdictStandingOf]: whether a verdict would be a vote. *)
Definition VerdictStandingOf (gate : Gate) (author v : Actor) (groups : list string) : bool :=
  match VerifyPolicyOf gate with
  | None => false
  | Some p => VerdictWriterAllowed p v groups &&
              match VerdictPartyBlock p author v with PartyOK => true | _ => false end
  end.

(** ** The specification: the last vote of each voter

    A verdict counts when it is a vote and no later vote comes from the same
    voter. *)
Section votes.
Context (gate : Gate) (p : GateVerifyPolicy) (author : Actor) (bundleUID : string) (deadline : option Time).

Abbreviation vote := (is_vote gate p author bundleUID deadline).

Definition voter (v : GateVerdict) : string := voterOf v (VerifierActor v).

Fixpoint last_votes (vs : list GateVerdict) : list GateVerdict :=
  match vs with
  | [] => []
  | v :: vs =>
      if vote v && forallb (λ w, negb (vote w) || negb (bool_decide (voter w = voter v))) vs
      then v :: last_votes vs else last_votes vs
  end.

Definition is_last (vs : list GateVerdict) (i : nat) (v : GateVerdict) : Prop :=
  vote v = true ∧ ∀ j w, (i < j)%nat → vs !! j = Some w → vote w = true → voter w ≠ voter v.

Definition rec_ok (v : GateVerdict) (el : bool) (r : GateVerdictStatus) : Prop :=
  vs_Name r = vd_Name v ∧ vs_Counted r = false ∧ (el = true ↔ vs_Reason r = NoReason).

(** What the first loop keeps of the verdicts seen so far. *)
Record votes_inv (vs : list GateVerdict) (s : vstate) : Prop := {
  vi_length : length (eligible s) = length vs;
  vi_recs_length : length (recs s) = length vs;
  vi_eligible : ∀ i v, vs !! i = Some v → (eligible s !! i = Some true ↔ is_last vs i v);
  vi_latest : ∀ k i, latest s !! k = Some i ↔ ∃ v, vs !! i = Some v ∧ voter v = k ∧ is_last vs i v;
  vi_recs : ∀ i v el r, vs !! i = Some v → eligible s !! i = Some el → recs s !! i = Some r → rec_ok v el r
}.

Lemma is_last_snoc vs v i w :
  vs !! i = Some w →
  is_last (vs ++ [v]) i w ↔ is_last vs i w ∧ (vote v = true → voter v ≠ voter w).
Proof.
  intros Hi. pose proof (lookup_lt_Some _ _ _ Hi). split.
  - intros [Hv Hl]. split; [split; [done|]|].
    + intros j x Hj Hx. apply Hl with j; [done|]. by apply lookup_app_l_Some.
    + apply Hl with (length vs); [lia|]. by rewrite list_lookup_middle.
  - intros [[Hv Hl] Hn]. split; [done|]. intros j x Hj Hx Hvx.
    apply lookup_app_Some in Hx as [Hx | [Hge Hx]]; [eauto|].
    apply list_lookup_singleton_Some in Hx as [_ <-]. auto.
Qed.

Lemma is_last_snoc_new vs v : is_last (vs ++ [v]) (length vs) v ↔ vote v = true.
Proof.
  split; [by intros []|]. intros Hv. split; [done|]. intros j w Hj Hw.
  apply lookup_lt_Some in Hw. rewrite length_app in Hw. simpl in Hw. lia.
Qed.

(** A verdict that is no vote changes nothing before it. *)
Lemma vote_step_refused vs v s :
  vote v = false → votes_inv vs s → votes_inv (vs ++ [v]) (vote_step gate p author bundleUID deadline s v).
Proof.
  intros Hv I. destruct I as [HL HR HE HT HC]. unfold vote_step. rewrite Hv.
  split; simpl; [rewrite !length_app; simpl; lia..| | |].
  - intros i w [Hi | [Hge Hi]]%lookup_app_Some.
    + rewrite is_last_snoc by done. rewrite lookup_app_l by (rewrite HL; eapply lookup_lt_Some; eauto).
      rewrite HE by done. rewrite Hv. naive_solver.
    + apply list_lookup_singleton_Some in Hi as [Hi <-]. assert (i = length vs) as -> by lia.
      rewrite is_last_snoc_new. rewrite Hv, <- HL, list_lookup_middle by done. naive_solver.
  - intros k i. rewrite HT. split.
    + intros (w & Hi & Hk & Hl). exists w. rewrite is_last_snoc by done.
      repeat split; [by apply lookup_app_l_Some|done|apply Hl|apply Hl|congruence].
    + intros (w & [Hi | [Hge Hi]]%lookup_app_Some & Hk & Hl).
      * apply is_last_snoc in Hl as [Hl _]; [|done]. eauto.
      * apply list_lookup_singleton_Some in Hi as [_ <-]. destruct Hl as [Hl _]. congruence.
  - intros i w el r [Hi | [Hge Hi]]%lookup_app_Some He Hr.
    + pose proof (lookup_lt_Some _ _ _ Hi). rewrite lookup_app_l in He by lia. rewrite lookup_app_l in Hr by lia. eauto.
    + apply list_lookup_singleton_Some in Hi as [Hi <-]. assert (i = length vs) as -> by lia.
      rewrite <- HL, list_lookup_middle in He by done. rewrite <- HR, list_lookup_middle in Hr by done.
      simplify_eq. unfold rec_ok, is_vote in *. simpl. repeat split; try done. by case_match.
Qed.

(** The index a vote supersedes. *)
Definition superseded (s : vstate) (v : GateVerdict) : option nat := latest s !! voter v.

Lemma superseded_iff vs v s i w :
  votes_inv vs s → vs !! i = Some w →
  (superseded s v = Some i ↔ is_last vs i w ∧ voter v = voter w).
Proof.
  intros I Hi. unfold superseded. rewrite (vi_latest _ _ I). naive_solver.
Qed.

Definition elig_after (s : vstate) (v : GateVerdict) : list bool :=
  match superseded s v with Some prev => <[prev := false]> (eligible s) | None => eligible s end.

Definition recs_after (s : vstate) (v : GateVerdict) : list GateVerdictStatus :=
  match superseded s v with
  | Some prev => alter (set_reason (SupersededBy (vd_Name v))) prev (recs s)
  | None => recs s
  end.

Lemma vote_step_counted_eq v s :
  vote v = true →
  ∃ r, vote_step gate p author bundleUID deadline s v =
    mkVS (<[voter v := length (eligible s)]> (latest s)) (elig_after s v ++ [true]) (recs_after s v ++ [r])
    ∧ rec_ok v true r.
Proof.
  intros Hv. unfold vote_step, elig_after, recs_after, superseded. rewrite Hv.
  unfold is_vote in Hv. fold (voter v). destruct (latest s !! voter v); (eexists; split; [reflexivity|]);
    unfold rec_ok; simpl; (repeat split; try done); by case_match.
Qed.

Lemma elig_after_lookup vs v s i w :
  votes_inv vs s → vs !! i = Some w →
  (elig_after s v !! i = Some true ↔ is_last vs i w ∧ voter v ≠ voter w).
Proof.
  intros I Hi. pose proof (vi_eligible _ _ I _ _ Hi) as HE. pose proof (vi_length _ _ I) as HL.
  pose proof (lookup_lt_Some _ _ _ Hi). pose proof (superseded_iff _ v _ _ _ I Hi) as HS.
  unfold elig_after. destruct (superseded s v) as [q|].
  - destruct (decide (q = i)) as [-> | Hne].
    + rewrite list_lookup_insert_eq by lia. naive_solver.
    + rewrite list_lookup_insert_ne by done. naive_solver.
  - naive_solver.
Qed.

Lemma recs_after_ok vs v s i w el r :
  votes_inv vs s → vs !! i = Some w → elig_after s v !! i = Some el → recs_after s v !! i = Some r → rec_ok w el r.
Proof.
  intros I Hi. pose proof (lookup_lt_Some _ _ _ Hi). pose proof (vi_length _ _ I). pose proof (vi_recs_length _ _ I).
  unfold elig_after, recs_after. destruct (superseded s v) as [q|]; [|intros; by eapply vi_recs].
  destruct (decide (q = i)) as [-> | Hne].
  - rewrite list_lookup_insert_eq by lia. rewrite list_lookup_alter_eq. intros [= <-] (r0 & Hr0 & ->)%fmap_Some.
    destruct (lookup_lt_is_Some_2 (eligible s) i) as [el0 He0]; [lia|].
    destruct (vi_recs _ _ I _ _ _ _ Hi He0 Hr0) as (? & ? & _). by repeat split.
  - rewrite list_lookup_insert_ne, list_lookup_alter_ne by done. intros; by eapply vi_recs.
Qed.

Lemma after_length s v :
  length (elig_after s v) = length (eligible s) ∧ length (recs_after s v) = length (recs s).
Proof. unfold elig_after, recs_after. destruct (superseded s v); by rewrite ?length_insert, ?length_alter. Qed.

(** A vote takes the place of its voter's earlier one. *)
Lemma vote_step_counted vs v s :
  vote v = true → votes_inv vs s → votes_inv (vs ++ [v]) (vote_step gate p author bundleUID deadline s v).
Proof.
  intros Hv I. destruct (vote_step_counted_eq v s Hv) as (r0 & -> & Hr0).
  destruct (after_length s v) as [L1 L2]. pose proof (vi_length _ _ I) as HL. pose proof (vi_recs_length _ _ I) as HR.
  split; simpl; [rewrite !length_app; simpl; lia..| | |].
  - intros i w [Hi | [Hge Hi]]%lookup_app_Some.
    + rewrite is_last_snoc by done. rewrite lookup_app_l by (rewrite L1, HL; eapply lookup_lt_Some; eauto).
      rewrite elig_after_lookup by done. rewrite Hv. naive_solver.
    + apply list_lookup_singleton_Some in Hi as [Hi <-]. assert (i = length vs) as -> by lia.
      rewrite is_last_snoc_new. rewrite <- HL, <- L1, list_lookup_middle by done. naive_solver.
  - intros k i. rewrite HL. destruct (decide (voter v = k)) as [<- | Hne].
    + rewrite lookup_insert_eq. split.
      * intros [= <-]. exists v. rewrite is_last_snoc_new, list_lookup_middle by done. auto.
      * intros (w & [Hi | [Hge Hi]]%lookup_app_Some & Hk & Hl).
        -- apply is_last_snoc in Hl as [_ Hl]; [|done]. exfalso. by apply Hl.
        -- apply list_lookup_singleton_Some in Hi as [Hi <-]. f_equal; lia.
    + rewrite lookup_insert_ne by done. rewrite (vi_latest _ _ I). split.
      * intros (w & Hi & Hk & Hl). exists w. rewrite is_last_snoc by done.
        repeat split; [by apply lookup_app_l_Some|done|apply Hl|apply Hl|congruence].
      * intros (w & [Hi | [Hge Hi]]%lookup_app_Some & Hk & Hl).
        -- apply is_last_snoc in Hl as [Hl _]; [|done]. eauto.
        -- apply list_lookup_singleton_Some in Hi as [_ <-]. done.
  - intros i w el r [Hi | [Hge Hi]]%lookup_app_Some He Hr.
    + pose proof (lookup_lt_Some _ _ _ Hi). rewrite lookup_app_l in He by lia. rewrite lookup_app_l in Hr by lia. by eapply recs_after_ok.
    + apply list_lookup_singleton_Some in Hi as [Hi <-]. assert (i = length vs) as -> by lia.
      rewrite <- HL, <- L1, list_lookup_middle in He by done.
      rewrite <- HR, <- L2, list_lookup_middle in Hr by done. by simplify_eq.
Qed.

Lemma votes_inv_fold vs :
  votes_inv vs (foldl (vote_step gate p author bundleUID deadline) (mkVS ∅ [] []) vs).
Proof.
  induction vs as [|v vs IH] using rev_ind; simpl.
  - split; simpl; try done. intros k i. rewrite lookup_empty. naive_solver.
  - rewrite foldl_app. simpl.
    destruct (vote v) eqn:Hv; [by apply vote_step_counted | by apply vote_step_refused].
Qed.

(** The flags select the last votes. *)
Definition selected (vs : list GateVerdict) (es : list bool) : list GateVerdict :=
  fst <$> filter (λ x, x.2 = true) (zip vs es).

Lemma is_last_head v vs :
  is_last (v :: vs) 0 v ↔
  vote v && forallb (λ w, negb (vote w) || negb (bool_decide (voter w = voter v))) vs = true.
Proof.
  rewrite andb_true_iff, forallb_forall. unfold is_last. apply and_iff_compat_l. split.
  - intros H w (j & Hj)%list_elem_of_In%list_elem_of_lookup_1. specialize (H (S j) w). simpl in H.
    destruct (vote w); [|done]. simpl. apply negb_true_iff, bool_decide_eq_false. apply H; [lia|done|done].
  - intros H [|j] w Hj Hw Hv; [lia|]. specialize (H w). simpl in Hw. rewrite Hv in H.
    apply list_elem_of_lookup_2, list_elem_of_In, H in Hw. simpl in Hw.
    by apply negb_true_iff, bool_decide_eq_false in Hw.
Qed.

Lemma is_last_tail v vs i w : is_last (v :: vs) (S i) w ↔ is_last vs i w.
Proof.
  unfold is_last. apply and_iff_compat_l. split.
  - intros H j x Hj Hx. apply (H (S j)); [lia|done].
  - intros H [|j] x Hj Hx; [lia|]. apply (H j); [lia|done].
Qed.

Lemma selected_last vs es :
  length es = length vs →
  (∀ i v, vs !! i = Some v → (es !! i = Some true ↔ is_last vs i v)) →
  selected vs es = last_votes vs.
Proof.
  revert es. induction vs as [|v vs IH]; intros [|e es] HL HE; simpl in *; try done.
  pose proof (HE 0%nat v eq_refl) as H0. rewrite is_last_head in H0. simpl in H0.
  assert (selected vs es = last_votes vs) as <-.
  { apply IH; [lia|]. intros i w Hi. rewrite <- is_last_tail with (v := v). exact (HE (S i) w Hi). }
  unfold selected. simpl. rewrite filter_cons. simpl.
  destruct (decide (e = true)) as [-> | He].
  - destruct (vote v && _) eqn:E; [done|]. naive_solver.
  - destruct (vote v && _) eqn:E; [|done]. naive_solver.
Qed.

Lemma last_votes_elem vs v : v ∈ last_votes vs → v ∈ vs ∧ vote v = true.
Proof.
  induction vs as [|w vs IH]; simpl; [by intros ?%elem_of_nil|]. destruct (vote w && _) eqn:E.
  - apply andb_true_iff in E as [E _]. rewrite !elem_of_cons. naive_solver.
  - rewrite elem_of_cons. naive_solver.
Qed.

Lemma last_votes_voters vs : NoDup (voter <$> last_votes vs).
Proof.
  induction vs as [|w vs IH]; simpl; [constructor|]. destruct (vote w && _) eqn:E; [|done].
  simpl. constructor; [|done]. apply andb_true_iff in E as [_ E]. rewrite forallb_forall in E.
  intros (x & Hx & [Hin Hv]%last_votes_elem)%list_elem_of_fmap.
  apply list_elem_of_In, E in Hin. rewrite Hv in Hin. simpl in Hin.
  by apply negb_true_iff, bool_decide_eq_false in Hin.
Qed.

(** What makes a verdict a vote. *)
Lemma is_vote_true v :
  vote v = true →
  vd_BundleUID v = bundleUID ∧ vd_Check v = Check_ p ∧
  VerdictWriterAllowed p (VerifierActor v) (vd_Groups v) = true ∧
  VerdictPartyBlock p author (VerifierActor v) = PartyOK ∧
  (∀ d t, deadline = Some d → vd_CreatedAt v = Some t → t ≤ d).
Proof.
  unfold is_vote, refusal. intros H.
  destruct (bool_decide (vd_Check v = Check_ p)) eqn:HC; [apply bool_decide_eq_true in HC | by rewrite orb_true_r in H].
  rewrite orb_false_r in H. destruct (_ || _); [done|].
  destruct (bool_decide (vd_BundleUID v = _)) eqn:HU; [apply bool_decide_eq_true in HU | done]. simpl in H.
  destruct (VerdictWriterAllowed p _ _); [|done]. simpl in H.
  destruct (VerdictPartyBlock p author _); try done.
  repeat split; try done. intros d t -> Ht. rewrite Ht in H. destruct (d <? t) eqn:E; [done|]. lia.
Qed.

End votes.

(** A party rule that passes leaves out the author's party. *)
Lemma VerdictPartyBlock_ok p author a :
  VerdictPartyBlock p author a = PartyOK → Principal author ≠ "" →
  excludes p = true ∨ Kind a = ActorAgent → SameParty author a = false.
Proof.
  unfold VerdictPartyBlock. intros H Ha Hx. rewrite bool_decide_eq_false_2 with (P := Principal author = "") in H by done.
  destruct (SameParty author a); [|done]. case_bool_decide; destruct (excludes p); naive_solver.
Qed.

(** ** The second loop *)

Definition passes (v : GateVerdict) : bool := bool_decide (vd_Result v = "pass").

Definition fails (p : GateVerifyPolicy) (v : GateVerdict) : bool :=
  bool_decide (vd_Result v = "fail") ||
  (bool_decide (vd_Result v = "inconclusive") && bool_decide (OnInconclusive p = "fail")).

Definition vlabel (v : GateVerdict) : string := verifierLabel (VerifierActor v).

(** The votes of the rows the second loop walks. *)
Definition rows_votes (xs : list (GateVerdict * bool * GateVerdictStatus)) : list GateVerdict :=
  (λ x, x.1.1) <$> filter (λ x, x.1.2 = true) xs.

Lemma passes_not_fails p v : passes v = true → fails p v = false.
Proof. unfold passes, fails. intros H%bool_decide_eq_true. by rewrite H. Qed.

Lemma rows_votes_cons v el r xs :
  rows_votes ((v, el, r) :: xs) = if el then v :: rows_votes xs else rows_votes xs.
Proof. unfold rows_votes. rewrite filter_cons. by destruct el. Qed.

Lemma count_fold p xs t :
  let t' := foldl (count_step p NotHeld) t xs in
  Passed t' = Passed t ++ (vlabel <$> filter (λ v, passes v = true) (rows_votes xs)) ∧
  Failed t' = Failed t ++ ((λ v, (vlabel v, vd_Summary v)) <$> filter (λ v, fails p v = true) (rows_votes xs)) ∧
  Inconclusive t' = Inconclusive t +
    Z.of_nat (length (filter (λ v, passes v = false ∧ fails p v = false) (rows_votes xs))).
Proof.
  revert t. induction xs as [|[[v el] r] xs IH]; intros t; simpl.
  - rewrite !app_nil_r. repeat split. lia.
  - specialize (IH (count_step p NotHeld t (v, el, r))). simpl in IH. destruct IH as (-> & -> & ->).
    rewrite rows_votes_cons. destruct el; simpl; [|done]. rewrite !filter_cons. fold (passes v). fold (fails p v). fold (vlabel v).
    destruct (passes v) eqn:HP; [rewrite (passes_not_fails p v HP)|destruct (fails p v) eqn:HF]; simpl;
      rewrite <- ?app_assoc; repeat split; try case_decide; simpl; first [lia | naive_solver].
Qed.

(** Every vote passes, fails or is inconclusive. *)
Lemma votes_split p vs :
  length vs = (length (filter (λ v, passes v = true) vs) + length (filter (λ v, fails p v = true) vs) +
    length (filter (λ v, passes v = false ∧ fails p v = false) vs))%nat.
Proof.
  induction vs as [|v vs IH]; [done|]. rewrite !filter_cons. pose proof (passes_not_fails p v).
  repeat case_decide; simpl; destruct (passes v), (fails p v); naive_solver lia.
Qed.

Lemma count_fold_const p h xs t :
  let t' := foldl (count_step p h) t xs in
  Policy t' = Policy t ∧ Required t' = Required t ∧ MaxFailures t' = MaxFailures t ∧ Held t' = Held t ∧ Deadline t' = Deadline t.
Proof.
  revert t. induction xs as [|[[v el] r] xs IH]; intros t; simpl; [done|].
  specialize (IH (count_step p h t (v, el, r))). simpl in IH. destruct IH as (-> & -> & -> & -> & ->).
  simpl. repeat case_match; done.
Qed.

Lemma count_fold_held p h xs t :
  h ≠ NotHeld →
  let t' := foldl (count_step p h) t xs in
  Passed t' = Passed t ∧ Failed t' = Failed t ∧ Inconclusive t' = Inconclusive t.
Proof.
  intros Hh. revert t. induction xs as [|[[v el] r] xs IH]; intros t; simpl; [done|].
  specialize (IH (count_step p h t (v, el, r))). simpl in IH. destruct IH as (-> & -> & ->).
  simpl. rewrite bool_decide_eq_false_2 by done. rewrite orb_true_r. done.
Qed.

(** A row's record after the second loop: the same name, and either counted or
    given a reason. *)
Definition explained (r : GateVerdictStatus) : Prop := vs_Counted r = true ∨ vs_Reason r ≠ NoReason.

Definition counted (rs : list GateVerdictStatus) : nat := length (filter (λ r, vs_Counted r = true) rs).

Lemma count_step_record p h t v el r :
  rec_ok v el r →
  ∃ r', Records (count_step p h t (v, el, r)) = Records t ++ [r'] ∧ vs_Name r' = vd_Name v ∧ explained r' ∧
    (length (Passed (count_step p h t (v, el, r))) + length (Failed (count_step p h t (v, el, r))) =
     length (Passed t) + length (Failed t) + (if vs_Counted r' then 1 else 0))%nat.
Proof.
  intros (HN & HC & HE). unfold count_step.
  destruct (negb el || _) eqn:Hskip; simpl.
  - eexists; split; [done|].
    assert (h = NotHeld → vs_Reason r ≠ NoReason) as Hr.
    { intros ->. destruct el; [done|]. naive_solver. }
    unfold explained. destruct h, (vs_Reason r) eqn:HR; simpl; rewrite ?HN, ?HC, ?HR;
      (split; [done|]); (split; [right; naive_solver | lia]).
  - repeat case_match; simpl; (eexists; split; [reflexivity|]); unfold explained; simpl;
      rewrite ?HC, ?length_app; simpl; repeat split; first [done | lia | by left | by right].
Qed.

#[local] Arguments count_step : simpl never.

Lemma count_fold_records p h xs t :
  (∀ x, x ∈ xs → rec_ok x.1.1 x.1.2 x.2) →
  Forall explained (Records t) → counted (Records t) = (length (Passed t) + length (Failed t))%nat →
  let t' := foldl (count_step p h) t xs in
  vs_Name <$> Records t' = (vs_Name <$> Records t) ++ ((λ x, vd_Name x.1.1) <$> xs) ∧
  Forall explained (Records t') ∧ counted (Records t') = (length (Passed t') + length (Failed t'))%nat.
Proof.
  revert t. induction xs as [|[[v el] r] xs IH]; intros t HX HF HC; simpl; [by rewrite app_nil_r|].
  destruct (count_step_record p h t v el r) as (r' & HR & HN & He & Hc).
  { exact (HX (v, el, r) ltac:(left)). }
  destruct (IH (count_step p h t (v, el, r))) as (Hn' & HF' & HC').
  { intros x Hx. apply HX. by right. }
  { rewrite HR. apply Forall_app; split; [done|]. by constructor. }
  { rewrite HR. unfold counted in *. rewrite filter_app, length_app, filter_cons, HC, Hc.
    destruct (decide (vs_Counted r' = true)) as [-> | ->%not_true_is_false]; simpl; lia. }
  split; [|done]. rewrite Hn', HR, fmap_app, <- app_assoc. simpl. by rewrite HN.
Qed.

Lemma zip3_votes vs es rs :
  length es = length vs → length rs = length vs → rows_votes (zip3 vs es rs) = selected vs es.
Proof.
  unfold zip3, selected. revert es rs. induction vs as [|v vs IH]; intros [|e es] [|r rs] H1 H2; simpl in *; try lia; [done|].
  rewrite rows_votes_cons, filter_cons, IH by lia. by destruct e.
Qed.

Lemma zip3_names vs es rs :
  length es = length vs → length rs = length vs → (λ x, vd_Name x.1.1) <$> zip3 vs es rs = vd_Name <$> vs.
Proof.
  unfold zip3. revert es rs. induction vs as [|v vs IH]; intros [|e es] [|r rs] H1 H2; simpl in *; try lia; [done|].
  by rewrite IH by lia.
Qed.

Lemma zip3_lookup vs es rs x :
  x ∈ zip3 vs es rs → ∃ i, vs !! i = Some x.1.1 ∧ es !! i = Some x.1.2 ∧ rs !! i = Some x.2.
Proof.
  unfold zip3. revert es rs. induction vs as [|v vs IH]; intros [|e es] [|r rs]; simpl;
    try by intros ?%elem_of_nil.
  intros [-> | (i & H)%IH]%elem_of_cons; [by exists 0%nat | by exists (S i)].
Qed.

(** The verdicts a tally counts, oldest first. *)
Definition votes (gate : Gate) (p : GateVerifyPolicy) (author : Actor) (bundleUID : string)
    (deadline : option Time) : list GateVerdict :=
  last_votes gate p author bundleUID deadline (sort_by verdict_less (g_Verdicts gate)).

Section tally.
Context (gate : Gate) (p : GateVerifyPolicy) (author : Actor) (bundleUID : string)
  (deadline : option Time) (now : Time).
Hypothesis HP : VerifyPolicyOf gate = Some p.

Abbreviation t := (TallyVerdicts gate author bundleUID deadline now).
Abbreviation vs := (votes gate p author bundleUID deadline).

Lemma tally_fields :
  Policy t = Some p ∧ Required t = v_Required p ∧ MaxFailures t = v_MaxFailures p ∧
  Held t = tally_held p (Z.of_nat (length (g_Verdicts gate))) author ∧
  Outcome t = Some (tally_outcome t deadline now).
Proof.
  unfold TallyVerdicts. rewrite HP. simpl.
  match goal with |- context [foldl (count_step p ?h) ?t0 ?xs] =>
    destruct (count_fold_const p h xs t0) as (H1 & H2 & H3 & H4 & _) end.
  rewrite H1, H2, H3, H4. repeat split. unfold tally_outcome. simpl. by rewrite H2, H3, H4.
Qed.

Lemma tally_counts :
  if decide (Held t = NotHeld) then
    Passed t = (vlabel <$> filter (λ v, passes v = true) vs) ∧
    Failed t = ((λ v, (vlabel v, vd_Summary v)) <$> filter (λ v, fails p v = true) vs) ∧
    Inconclusive t = Z.of_nat (length (filter (λ v, passes v = false ∧ fails p v = false) vs))
  else Passed t = [] ∧ Failed t = [] ∧ Inconclusive t = 0.
Proof.
  destruct tally_fields as (_ & _ & _ & -> & _). unfold TallyVerdicts. rewrite HP. simpl.
  set (l := sort_by _ _). pose proof (votes_inv_fold gate p author bundleUID deadline l) as I.
  set (s := foldl _ _ l) in *. destruct (decide _) as [-> | Hh].
  - match goal with |- context [foldl (count_step p NotHeld) ?t0 ?xs] =>
      destruct (count_fold p xs t0) as (-> & -> & ->) end. simpl.
    rewrite zip3_votes by (first [apply (vi_length _ _ _ _ _ _ _ I) | apply (vi_recs_length _ _ _ _ _ _ _ I)]).
    by rewrite (selected_last gate p author bundleUID deadline l (eligible s)) by apply I.
  - match goal with |- context [foldl (count_step p ?h) ?t0 ?xs] =>
      by destruct (count_fold_held p h xs t0 Hh) as (-> & -> & ->) end.
Qed.

Lemma tally_records :
  vs_Name <$> Records t ≡ₚ vd_Name <$> g_Verdicts gate ∧ Forall explained (Records t) ∧
  counted (Records t) = (length (Passed t) + length (Failed t))%nat.
Proof.
  unfold TallyVerdicts. rewrite HP. simpl.
  set (l := sort_by verdict_less _). pose proof (votes_inv_fold gate p author bundleUID deadline l) as I.
  set (s := foldl _ _ l) in *.
  match goal with |- context [foldl (count_step p ?h) ?t0 ?xs] =>
    destruct (count_fold_records p h xs t0) as (HN & HF & HC) end.
  { intros x (i & H1 & H2 & H3)%zip3_lookup. by eapply I. }
  { constructor. }
  { done. }
  split_and!.
  - rewrite sort_by_perm, HN. simpl. rewrite zip3_names by (first [apply (vi_length _ _ _ _ _ _ _ I) | apply (vi_recs_length _ _ _ _ _ _ _ I)]).
    unfold l. by rewrite sort_by_perm.
  - eapply Permutation_Forall; [symmetry; apply sort_by_perm | done].
  - rewrite <- HC. apply Permutation_length, filter_Permutation; auto with kardinal.
Qed.

End tally.

(** ** The properties *)

(** C32. A verify gate counts the last vote of each voter and nothing else:
    unless it is held (more than 100 verdicts, or an author nobody verified
    while excludeAuthor is on) its passing and failing votes are those of the
    latest votes.  It is Verified exactly when the failures are within
    maxFailures and the passes reach required, Failed exactly when there are
    more failures than tolerated (whatever the passes and the clock), TimedOut
    exactly when neither holds and the deadline has passed; and it stops
    blocking exactly when it is verified, or timed out with onTimeout: allow. *)
Theorem verdict_outcome gate p author bundleUID deadline now :
  VerifyPolicyOf gate = Some p →
  let t := TallyVerdicts gate author bundleUID deadline now in
  let vs := votes gate p author bundleUID deadline in
  let passed := filter (λ v, passes v = true) vs in
  let failed := filter (λ v, fails p v = true) vs in
  let nfailed := Z.of_nat (length failed) in
  let npassed := Z.of_nat (length passed) in
  (Held t = NotHeld ↔ Z.of_nat (length (g_Verdicts gate)) ≤ 100 ∧ (Principal author ≠ "" ∨ excludes p = false)) ∧
  (Held t = NotHeld → Passed t = (vlabel <$> passed) ∧ Failed t = (λ v, (vlabel v, vd_Summary v)) <$> failed ∧
     Inconclusive t = Z.of_nat (length vs) - npassed - nfailed) ∧
  (Outcome t = Some VerifyVerified ↔ Held t = NotHeld ∧ nfailed ≤ v_MaxFailures p ∧ v_Required p ≤ npassed) ∧
  (Outcome t = Some VerifyFailed ↔ Held t = NotHeld ∧ v_MaxFailures p < nfailed) ∧
  (Outcome t = Some VerifyTimedOut ↔ Held t = NotHeld ∧ nfailed ≤ v_MaxFailures p ∧ npassed < v_Required p ∧
     ∃ d, deadline = Some d ∧ d < now) ∧
  (Blocked t = NotBlocked ↔
     Outcome t = Some VerifyVerified ∨ (Outcome t = Some VerifyTimedOut ∧ OnTimeout p = "allow")).
Proof.
  intros HP t vs passed failed nfailed npassed.
  pose proof (tally_fields gate p author bundleUID deadline now HP) as (H1 & H2 & H3 & H4 & H5).
  pose proof (tally_counts gate p author bundleUID deadline now HP) as HC.
  fold t in H1, H2, H3, H4, H5, HC. fold vs passed failed in HC.
  assert (Held t = NotHeld → Outcome t = Some
    (if v_MaxFailures p <? nfailed then VerifyFailed else if v_Required p <=? npassed then VerifyVerified
     else match deadline with Some d => if d <? now then VerifyTimedOut else VerifyWaiting | None => VerifyWaiting end)) as HO.
  { intros Hh. rewrite H5. unfold tally_outcome. rewrite bool_decide_eq_true_2 by done. simpl.
    rewrite decide_True in HC by done. destruct HC as (-> & -> & _). rewrite !length_fmap, H2, H3. done. }
  assert (Held t ≠ NotHeld → Outcome t = Some VerifyWaiting) as HW.
  { intros Hh. rewrite H5. unfold tally_outcome. by rewrite bool_decide_eq_false_2. }
  split_and!.
  - rewrite H4. unfold tally_held, MaxGateVerdicts. case_bool_decide; destruct (excludes p), (100 <? _) eqn:E; simpl; naive_solver lia.
  - intros Hh. rewrite decide_True in HC by done. destruct HC as (-> & -> & ->). split_and!; [done..|].
    unfold npassed, nfailed, passed, failed. rewrite (votes_split p vs). lia.
  - destruct (decide (Held t = NotHeld)) as [Hh|Hh]; [rewrite (HO Hh) | rewrite (HW Hh)];
      repeat case_match; naive_solver lia.
  - destruct (decide (Held t = NotHeld)) as [Hh|Hh]; [rewrite (HO Hh) | rewrite (HW Hh)];
      repeat case_match; naive_solver lia.
  - destruct (decide (Held t = NotHeld)) as [Hh|Hh]; [rewrite (HO Hh) | rewrite (HW Hh)];
      repeat case_match; naive_solver lia.
  - unfold Blocked. rewrite H1. destruct (decide (Held t = NotHeld)) as [Hh|Hh].
    + rewrite bool_decide_eq_true_2 by done. simpl. destruct (Outcome t) as [[]|]; repeat case_match;
        repeat case_bool_decide; naive_solver.
    + rewrite bool_decide_eq_false_2, (HW Hh) by done. simpl. naive_solver.
Qed.

(** Nobody votes twice and nobody votes on their own work: the counted
    votes come from distinct voters (runs or parties), each is for this Bundle
    and this check, was written in time by someone the policy lists, and, when
    the author is excluded or the verifier is an agent, by another party than
    the author's.  Whether a verdict of a verifier would be a vote is what
    [VerdictStandingOf] told them.  Every verdict has one record, and one that
    does not count says why. *)
Theorem verdict_votes_fair gate p author bundleUID deadline now :
  VerifyPolicyOf gate = Some p →
  let t := TallyVerdicts gate author bundleUID deadline now in
  let vs := votes gate p author bundleUID deadline in
  NoDup (voter <$> vs) ∧
  (∀ v, v ∈ vs →
     v ∈ g_Verdicts gate ∧ vd_BundleUID v = bundleUID ∧ vd_Check v = Check_ p ∧
     VerdictStandingOf gate author (VerifierActor v) (vd_Groups v) = true ∧
     (Principal author ≠ "" → excludes p = true ∨ Kind (VerifierActor v) = ActorAgent →
        SameParty author (VerifierActor v) = false) ∧
     (∀ d c, deadline = Some d → vd_CreatedAt v = Some c → c ≤ d)) ∧
  (vs_Name <$> Records t ≡ₚ vd_Name <$> g_Verdicts gate) ∧
  Forall explained (Records t) ∧ counted (Records t) = (length (Passed t) + length (Failed t))%nat.
Proof.
  intros HP t vs. split; [apply last_votes_voters|].
  split; [|by apply (tally_records gate p author bundleUID deadline now)].
  intros v [Hin (HU & HK & HA & HB & HT)%is_vote_true]%last_votes_elem.
  autorewrite with kardinal in Hin. split_and!; try done.
  - unfold VerdictStandingOf. by rewrite HP, HA, HB.
  - by apply VerdictPartyBlock_ok.
Qed.

(** ** A gate with an agent that changes its mind, the author and a late voter *)

Definition ex_policy : GateVerifyPolicy :=
  mkVerify "security" "prod" 2 0 ["scan"] ["alice"; "bob"; "carol"] [] None "" "" "1h" 0 None.

Definition ex_author : Actor := mkActor ActorHuman "carol" "" "" "" None.

Definition ex_verdict (name by_ result : string) (at_ : Time) (a : option Actor) : GateVerdict :=
  mkVerdict name (Some at_) "b1" "uid1" "prod" "security" result "" "" 0 0 by_ [] a None.

Definition ex_scan : Actor := mkActor ActorAgent "sa" "scan" "dora" "" None.

Definition ex_gate : Gate := mkGate "b1" (Some ex_policy)
  [ ex_verdict "v3" "sa" "pass" 30 (Some ex_scan);
    ex_verdict "v1" "sa" "fail" 10 (Some ex_scan);
    ex_verdict "v2" "carol" "fail" 20 (Some ex_author);
    ex_verdict "v4" "alice" "pass" 40 (Some (mkActor ActorHuman "alice" "" "" "" None));
    ex_verdict "v5" "bob" "fail" 500 (Some (mkActor ActorHuman "bob" "" "" "" None)) ].

(** The agent's second verdict supersedes its first, the author's and the late
    one do not count: verified. *)
Lemma verdict_outcome_witness :
  VerifyPolicyOf ex_gate = Some (with_defaults ex_policy) ∧
  Passed (TallyVerdicts ex_gate ex_author "uid1" (Some 100) 50) = ["scan"; "alice"] ∧
  Outcome (TallyVerdicts ex_gate ex_author "uid1" (Some 100) 50) = Some VerifyVerified.
Proof.
  split; [reflexivity|]. split; [vm_compute; reflexivity|].
  apply (verdict_outcome ex_gate (with_defaults ex_policy) ex_author "uid1" (Some 100) 50 eq_refl).
  split; [vm_compute; reflexivity|]. vm_compute. split; discriminate.
Defined.

Lemma verdict_votes_fair_witness :
  VerifyPolicyOf ex_gate = Some (with_defaults ex_policy) ∧
  counted (Records (TallyVerdicts ex_gate ex_author "uid1" (Some 100) 50)) = 2%nat ∧
  SameParty ex_author ex_scan = false.
Proof.
  pose proof (verdict_votes_fair ex_gate (with_defaults ex_policy) ex_author "uid1" (Some 100) 50 eq_refl)
    as (_ & Hv & _ & _ & Hc).
  split; [reflexivity|]. split; [rewrite Hc; vm_compute; reflexivity|].
  apply (Hv (ex_verdict "v3" "sa" "pass" 30 (Some ex_scan)));
    [vm_compute; left | discriminate | left; reflexivity].
Defined.

End VerdictTally.
