(* ===== verification/ChangeWindow.v ===== *)
(** * ChangeWindow: when a window blocks, and when it opens

    Model of src/pkg/reconciler/changewindow/window.go: the evaluation of
    blackout and recurring windows, the next boundary, and the walk over the
    boundaries that finds when a window opens.

    The timezone database is a parameter: [LoadLocation] gives a location, which
    is its name and its offset from UTC at each instant.  [time.Date] is Go's:
    it looks the offset up at the wall-clock time taken as UTC, and again at the
    instant that gives.  The civil date of [t.Date()] is kept as its day number
    (days since the Unix epoch), on which [d+day] is addition.  The reasons are
    values; their formatting is not modelled. *)

From stdpp Require Import base gmap strings list sorting.
From Stdlib Require Import Ascii Lia ZArith.
From S2P Require Import Prelude.

Open Scope Z_scope.

Module ChangeWindow.

Definition minute_ns : Z := 60 * second.
Definition hour_ns : Z := 3600 * second.
Definition day_ns : Z := 86400 * second.

(** ** Locations and wall clocks *)

Record Location := mkLoc { loc_name : string; offset : Time → Duration }.

Definition UTC : Location := mkLoc "UTC" (λ _, 0).

Definition IsZero (t : Time) : bool := t =? zeroTime.

Definition local (l : Location) (t : Time) : Z := t + offset l t.

Definition day_of (l : Location) (t : Time) : Z := local l t / day_ns.

Definition Hour (l : Location) (t : Time) : Z := (local l t mod day_ns) / hour_ns.

Definition Minute (l : Location) (t : Time) : Z := (local l t mod hour_ns) / minute_ns.

(** Sunday is 0; January 1, 1970 was a Thursday. *)
Definition weekday_of_day (d : Z) : Z := (d + 4) mod 7.

Definition Weekday (l : Location) (t : Time) : Z := weekday_of_day (day_of l t).

(** [time.Date(y, m, d, hour, min, 0, 0, loc)] on the day numbered [d]. *)
Definition Date (l : Location) (d hour min : Z) : Time :=
  let unix := d * day_ns + hour * hour_ns + min * minute_ns in
  unix - offset l (unix - offset l unix).

(** ** The spec *)

Record ChangeWindowSchedule := mkSched { Timezone : string; AllowedDays : list string; AllowedHours : string }.

(** What [Evaluate] reads of a ChangeWindowSpec; [has_Freeze] is
    [spec.freeze != nil]. *)
Record WindowSpec := mkSpec {
  Type_ : string; Start : Time; End_ : Time; Schedule : option ChangeWindowSchedule; has_Freeze : bool
}.

Inductive window_error :=
  | UnknownType (t : string) | NeedsStartEnd | EndNotAfterStart (e s : Time) | NeedsSchedule
  | LocalTimezone | UnknownTimezone (name : string) | BadDay (name : string)
  | BadHours (hours : string) | EqualHours (hours : string).

Inductive window_reason :=
  | Invalid (e : window_error)
  | FreezeStarts (t : Time) | FrozenSince (t : Time)
  | BlackoutStarts (t : Time) | BlackoutUntil (t : Time) | BlackoutEnded (t : Time)
  | Inside (desc : string) | Outside (desc : string).

Record Result := mkResult { Active : bool; Reason : window_reason; Next : Time; Err : option window_error }.

Definition invalid (e : window_error) : Result := mkResult true (Invalid e) zeroTime (Some e).

Definition evaluateBlackout (spec : WindowSpec) (now : Time) : Result :=
  let start := Start spec in
  let end_ := End_ spec in
  if negb (IsZero start) && IsZero end_ && has_Freeze spec then
    if now <? start then mkResult false (FreezeStarts start) start None
    else mkResult true (FrozenSince start) zeroTime None
  else if IsZero start || IsZero end_ then invalid NeedsStartEnd
  else if negb (start <? end_) then invalid (EndNotAfterStart end_ start)
  else if now <? start then mkResult false (BlackoutStarts start) start None
  else if now <? end_ then mkResult true (BlackoutUntil end_) end_ None
  else mkResult false (BlackoutEnded end_) zeroTime None.

(** ** Schedules *)

Record schedule := mkSchedule { loc : Location; days : gset Z; start : Z; end_ : Z; desc : string }.

(** [parseDay]: "Mon" or "Monday", in any case. *)
Definition day_names : list string :=
  ["sunday"; "monday"; "tuesday"; "wednesday"; "thursday"; "friday"; "saturday"].

Definition parseDay (name : string) : option Z :=
  let key := ToLower (TrimSpace name) in
  (λ x, Z.of_nat x.1) <$>
  list_find (λ full, key = full ∨ key = String.substring 0 3 full) day_names.

(** [parseClock]: "HH:MM" in minutes after midnight, 24:00 only as an end. *)
Definition parseClock (s : string) (isEnd : bool) : option Z :=
  match Cut ":"%char s with
  | None => None
  | Some (hh, mm) =>
      if negb (str_length hh =? 2)%nat || negb (str_length mm =? 2)%nat then None
      else match ParseInt64 hh, ParseInt64 mm with
           | Some h, Some m =>
               if (h <? 0) || (m <? 0) || (59 <? m) then None
               else if (h =? 24) && (m =? 0) && isEnd then Some (24 * 60)
               else if 23 <? h then None
               else Some (h * 60 + m)
           | _, _ => None
           end
  end.

(** The hours of a schedule. *)
Definition parse_hours (hours : string) : window_error + (Z * Z) :=
  if bool_decide (hours = "") then inr (0, 24 * 60)
  else match Cut "-"%char hours with
       | None => inl (BadHours hours)
       | Some (from, to) =>
           match parseClock (TrimSpace from) false with
           | None => inl (BadHours hours)
           | Some s =>
               match parseClock (TrimSpace to) true with
               | None => inl (BadHours hours)
               | Some e => if s =? e then inl (EqualHours hours) else inr (s, e)
               end
           end
       end.

(** The days of a schedule, or the first name that is no day. *)
Fixpoint parse_days (names : list string) (acc : gset Z) : window_error + gset Z :=
  match names with
  | [] => inr acc
  | n :: ns => match parseDay n with None => inl (BadDay n) | Some d => parse_days ns ({[d]} ∪ acc) end
  end.

Definition every_day : gset Z := list_to_set [0; 1; 2; 3; 4; 5; 6].

Section location.
Context (LoadLocation : string → option Location).

Definition loadTimezone (name : string) : window_error + Location :=
  if bool_decide (name = "Local") then inl LocalTimezone
  else match LoadLocation name with None => inl (UnknownTimezone name) | Some l => inr l end.

Definition parseSchedule (s : option ChangeWindowSchedule) : window_error + schedule :=
  match s with
  | None => inl NeedsSchedule
  | Some s =>
      match (if bool_decide (Timezone s = "") then inr UTC else loadTimezone (Timezone s)) with
      | inl e => inl e
      | inr l =>
          match parse_days (AllowedDays s) (if bool_decide (AllowedDays s = []) then every_day else ∅) with
          | inl e => inl e
          | inr ds =>
              match parse_hours (AllowedHours s) with
              | inl e => inl e
              | inr (st, en) =>
                  let days := if bool_decide (AllowedDays s = []) then "every day" else Join (AllowedDays s) "," in
                  let hours := if bool_decide (AllowedHours s = "") then "all day" else AllowedHours s in
                  inr (mkSchedule l ds st en (days +:+ " " +:+ hours +:+ " " +:+ loc_name l))
              end
          end
      end
  end.

(** [allowed]: an overnight range belongs to the day it starts on. *)
Definition allowed (s : schedule) (t : Time) : bool :=
  let minute := Hour (loc s) t * 60 + Minute (loc s) t in
  let wd := Weekday (loc s) t in
  if start s <? end_ s then bool_decide (wd ∈ days s) && (start s <=? minute) && (minute <? end_ s)
  else if start s <=? minute then bool_decide (wd ∈ days s)
  else if minute <? end_ s then bool_decide ((wd + 6) mod 7 ∈ days s)
  else false.

(** [next]: the first candidate boundary after [t], over nine days. *)
Definition day_candidates (s : schedule) (d : Z) : list Time :=
  (λ m, Date (loc s) d (m / 60) (m mod 60)) <$> [0; start s; end_ s].

Definition candidates (s : schedule) (t : Time) : list Time :=
  flat_map (λ k, day_candidates s (day_of (loc s) t + k)) (seqZ 0 9).

Definition better (t best c : Time) : Time :=
  if (t <? c) && (IsZero best || (c <? best)) then c else best.

Definition next (s : schedule) (t : Time) : Time := foldl (better t) zeroTime (candidates s t).

Definition evaluateRecurring (spec : option ChangeWindowSchedule) (now : Time) : Result :=
  match parseSchedule spec with
  | inl e => invalid e
  | inr s =>
      if allowed s now then mkResult false (Inside (desc s)) (next s now) None
      else mkResult true (Outside (desc s)) (next s now) None
  end.

Definition Evaluate (spec : WindowSpec) (now : Time) : Result :=
  if bool_decide (Type_ spec = "blackout") then evaluateBlackout spec now
  else if bool_decide (Type_ spec = "recurring") then evaluateRecurring (Schedule spec) now
  else invalid (UnknownType (Type_ spec)).

Definition maxTransitions : nat := 64.

(** The loop of [OpensAt]. *)
Fixpoint opens (spec : WindowSpec) (n : nat) (t : Time) : option Time :=
  match n with
  | O => None
  | S n =>
      let r := Evaluate spec t in
      if negb (Active r) then Some t
      else if IsZero (Next r) then None
      else opens spec n (Next r)
  end.

Definition OpensAt (spec : WindowSpec) (now : Time) : option Time := opens spec maxTransitions now.

(** The loop of [Transitions]. *)
Fixpoint transitions (spec : WindowSpec) (until : Time) (n : nat) (t : Time) : list Time :=
  match n with
  | O => []
  | S n =>
      let nx := Next (Evaluate spec t) in
      if IsZero nx || (until <? nx) then [] else nx :: transitions spec until n nx
  end.

Definition Transitions (spec : WindowSpec) (from until : Time) : list Time :=
  transitions spec until maxTransitions from.

End location.

(** ** Wall-clock arithmetic *)

Ltac ns := unfold day_ns, hour_ns, minute_ns, second in *.

(** [t.Hour()*60 + t.Minute()] is the minute of the day. *)
Lemma minute_of_day l t : Hour l t * 60 + Minute l t = (local l t mod day_ns) / minute_ns.
Proof.
  unfold Hour, Minute. set (L := local l t).
  assert (L mod hour_ns = (L mod day_ns) mod hour_ns) as ->.
  { symmetry. apply Z.mod_mod_divide. exists 24. ns. lia. }
  set (x := L mod day_ns). rewrite (Z.div_mod x hour_ns) at 3 by (ns; lia).
  replace (hour_ns * (x / hour_ns)) with (x / hour_ns * 60 * minute_ns) by (ns; lia).
  rewrite Z.div_add_l by (ns; lia). done.
Qed.

Lemma day_bounds l t : day_of l t * day_ns ≤ local l t < (day_of l t + 1) * day_ns.
Proof.
  unfold day_of. pose proof (Z.div_mod (local l t) day_ns ltac:(ns; lia)).
  pose proof (Z.mod_pos_bound (local l t) day_ns ltac:(ns; lia)). lia.
Qed.

Lemma day_of_unique l t d : d * day_ns ≤ local l t < (d + 1) * day_ns → day_of l t = d.
Proof. intros H. unfold day_of. symmetry. apply Z.div_unique with (local l t - d * day_ns); lia. Qed.

Lemma minute_ge l t k :
  k ≤ Hour l t * 60 + Minute l t ↔ day_of l t * day_ns + k * minute_ns ≤ local l t.
Proof.
  rewrite minute_of_day. unfold day_of. pose proof (Z.div_mod (local l t) day_ns ltac:(ns; lia)) as E.
  set (x := local l t mod day_ns) in *.
  assert (k ≤ x / minute_ns ↔ k * minute_ns ≤ x) as ->; [|lia].
  pose proof (Z.div_mod x minute_ns ltac:(ns; lia)). pose proof (Z.mod_pos_bound x minute_ns ltac:(ns; lia)).
  split; [|intros; apply Z.div_le_lower_bound]; ns; lia.
Qed.

(** ** What a schedule allows

    The allowed times are the intervals that start on an allowed day; an
    overnight interval reaches into the next day. *)
Definition in_interval (s : schedule) (t : Time) (d : Z) : Prop :=
  weekday_of_day d ∈ days s ∧
  d * day_ns + start s * minute_ns ≤ local (loc s) t <
  d * day_ns + (end_ s + if start s <? end_ s then 0 else 1440) * minute_ns.

Definition hours_ok (s : schedule) : Prop :=
  0 ≤ start s < 1440 ∧ 0 ≤ end_ s ≤ 1440 ∧ start s ≠ end_ s.

Lemma weekday_prev d : (weekday_of_day d + 6) mod 7 = weekday_of_day (d - 1).
Proof.
  unfold weekday_of_day. rewrite Zplus_mod_idemp_l.
  replace (d + 4 + 6) with (d - 1 + 4 + 1 * 7) by lia. by rewrite Z.mod_add.
Qed.

Lemma allowed_intervals s t : hours_ok s → allowed s t = true ↔ ∃ d, in_interval s t d.
Proof.
  intros (Hs & He & Hne). pose proof (day_bounds (loc s) t) as HB.
  pose proof (minute_ge (loc s) t (start s)) as H1. pose proof (minute_ge (loc s) t (end_ s)) as H2.
  unfold allowed, in_interval, Weekday. rewrite weekday_prev.
  set (m := Hour _ _ * 60 + _) in *. set (d := day_of _ _) in *.
  destruct (start s <? end_ s) eqn:E.
  - rewrite !andb_true_iff, bool_decide_eq_true. split.
    + intros [[Hd ?] ?]. exists d. split; [done|]. ns. lia.
    + intros (d' & Hd & Hb). assert (d' = d) as -> by (ns; lia). split; [split; [done|]|]; ns; lia.
  - destruct (start s <=? m) eqn:E1; [|destruct (m <? end_ s) eqn:E2]; rewrite ?bool_decide_eq_true.
    + split; [intros Hd; exists d; split; [done|ns; lia]|].
      intros (d' & Hd & Hb). assert (d' = d) as -> by (ns; lia). done.
    + split; [intros Hd; exists (d - 1); split; [done|ns; lia]|].
      intros (d' & Hd & Hb). assert (d' = d - 1) as -> by (ns; lia). done.
    + split; [done|]. intros (d' & Hd & Hb). exfalso. assert (d' = d ∨ d' = d - 1) as [-> | ->]; ns; lia.
Qed.

(** Parsed schedules have hours in range and a day. *)
Lemma parseClock_range str isEnd m :
  parseClock str isEnd = Some m → 0 ≤ m ∧ (m < 1440 ∨ (isEnd = true ∧ m = 1440)).
Proof.
  unfold parseClock. intros H. destruct (Cut _ _) as [[hh mm]|]; [|done]. destruct (_ || _); [done|].
  destruct (ParseInt64 hh) as [h|]; [|done]. destruct (ParseInt64 mm) as [mi|]; [|done].
  destruct ((h <? 0) || _ || _) eqn:E1; [done|]. destruct ((h =? 24) && _ && _) eqn:E2.
  - bools. simplify_eq. split; [lia|]. right. split; [done|lia].
  - destruct (23 <? h) eqn:E3; [done|]. simplify_eq. bools. lia.
Qed.

Lemma parse_days_elem names acc ds :
  parse_days names acc = inr ds → (names ≠ [] ∨ (∃ d, d ∈ acc)) → (∀ d, d ∈ acc → 0 ≤ d < 7) →
  (∃ d, d ∈ ds) ∧ ∀ d, d ∈ ds → 0 ≤ d < 7.
Proof.
  revert acc. induction names as [|n ns IH]; intros acc; simpl; [intros [= ->] [?|?]; naive_solver|].
  unfold parseDay. destruct (list_find _ _) as [[k f]|] eqn:E; simpl; [|done]. intros H _ Hacc.
  apply list_find_Some in E as (Hk & _ & _). apply lookup_lt_Some in Hk. simpl in Hk.
  eapply IH; [exact H|right; exists (Z.of_nat k); set_solver|]. intros d. set_unfold. intros [-> | Hd]; [lia|auto].
Qed.

Lemma parseSchedule_ok LoadLocation spec s :
  parseSchedule LoadLocation spec = inr s →
  hours_ok s ∧ (∃ d, d ∈ days s ∧ 0 ≤ d < 7).
Proof.
  unfold parseSchedule. destruct spec as [sp|]; [|done].
  destruct (if bool_decide (Timezone sp = "") then _ else _) as [e|l]; [done|].
  destruct (parse_days _ _) as [e|ds] eqn:HD; [done|].
  destruct (parse_hours _) as [e|[st en]] eqn:HH; [done|]. intros [= <-]. split.
  - unfold hours_ok. simpl. unfold parse_hours in HH. case_bool_decide; [simplify_eq; lia|].
    destruct (Cut _ _) as [[from to]|]; [|done].
    destruct (parseClock _ false) as [a|] eqn:H1; [|done]. destruct (parseClock _ true) as [b|] eqn:H2; [|done].
    destruct (a =? b) eqn:H3; [done|]. simplify_eq.
    apply parseClock_range in H1, H2. naive_solver lia.
  - simpl. destruct (parse_days_elem _ _ _ HD) as [(d & Hd) Hr]; [..|by eauto].
    + case_bool_decide; [right; by exists 0 | by left].
    + intros d. case_bool_decide; [|set_solver]. unfold every_day. rewrite elem_of_list_to_set.
      intros ?. set_unfold. lia.
Qed.

(** ** The next boundary *)

(** The fold keeps the least candidate after [t]. *)
Lemma better_fold t cs best :
  zeroTime ≤ t → (best = zeroTime ∨ t < best) →
  let b := foldl (better t) best cs in
  (b = best ∨ b ∈ cs) ∧ (b = zeroTime ∨ t < b) ∧
  (best ≠ zeroTime → b ≠ zeroTime ∧ b ≤ best) ∧ (∀ c, c ∈ cs → t < c → b ≠ zeroTime ∧ b ≤ c).
Proof.
  intros Hz. revert best. induction cs as [|c cs IH]; intros best Hb; simpl.
  - split_and!; [by left|done|lia|by intros ? ?%elem_of_nil].
  - specialize (IH (better t best c)).
    destruct ((t <? c) && ((best =? zeroTime) || (c <? best))) eqn:E.
    + assert (better t best c = c) as Ec by (unfold better, IsZero; by rewrite E). rewrite Ec in *.
      bools. destruct IH as (H1 & H2 & H3 & H4); [right; lia|].
      split_and!; [set_unfold; naive_solver|done|lia|].
      intros x [-> | Hx]%elem_of_cons Ht; [lia|by apply H4].
    + assert (better t best c = best) as Ec by (unfold better, IsZero; by rewrite E). rewrite Ec in *.
      destruct IH as (H1 & H2 & H3 & H4); [done|].
      split_and!; [set_unfold; naive_solver|done|done|].
      intros x [-> | Hx]%elem_of_cons Ht; [lia|by apply H4].
Qed.

Lemma candidates_elem s t c :
  c ∈ candidates s t ↔ ∃ k m, 0 ≤ k < 9 ∧ m ∈ [0; start s; end_ s] ∧
    c = Date (loc s) (day_of (loc s) t + k) (m / 60) (m mod 60).
Proof.
  unfold candidates, day_candidates. rewrite list_elem_of_In, in_flat_map. setoid_rewrite <- list_elem_of_In.
  setoid_rewrite elem_of_seqZ. setoid_rewrite list_elem_of_fmap. naive_solver lia.
Qed.

(** The zones whose offset never changes, such as UTC. *)
Definition fixed (l : Location) (o : Duration) : Prop := ∀ t, offset l t = o.

Section fixed_zone.
Context (s : schedule) (o : Duration).
Hypothesis Hfix : fixed (loc s) o.
Hypothesis Hok : hours_ok s.

Abbreviation D t := (day_of (loc s) t).

Lemma Date_fixed d m : Date (loc s) d (m / 60) (m mod 60) = d * day_ns + m * minute_ns - o.
Proof. unfold Date. rewrite !Hfix. pose proof (Z.div_mod m 60 ltac:(lia)). ns. lia. Qed.

Lemma local_fixed t : local (loc s) t = t + o.
Proof. unfold local. by rewrite Hfix. Qed.

(** A boundary: midnight, start or end on day [d]. *)
Definition boundary (d : Z) (c : Time) : Prop :=
  ∃ m, m ∈ [0; start s; end_ s] ∧ c = d * day_ns + m * minute_ns - o.

Lemma boundary_bounds d c : boundary d c → d * day_ns - o ≤ c ≤ (d + 1) * day_ns - o.
Proof.
  destruct Hok as (? & ? & ?). intros (m & Hm & ->).
  assert (0 ≤ m ≤ 1440) by (set_unfold; naive_solver lia). ns. lia.
Qed.

(** [next]: a boundary after [t], before every other one, and at the next
    midnight at the latest. *)
Lemma next_fixed t :
  zeroTime ≤ t →
  t < next s t ∧ next s t ≤ (D t + 1) * day_ns - o ∧
  (∃ d, D t ≤ d ∧ boundary d (next s t)) ∧
  (∀ c, boundary (D t) c → t < c → next s t ≤ c).
Proof.
  intros Hz. unfold next. pose proof (better_fold t (candidates s t) zeroTime Hz ltac:(by left)) as (H1 & H2 & _ & H4).
  generalize dependent (foldl (better t) zeroTime (candidates s t)). intros b H1 H2 H4.
  pose proof (day_bounds (loc s) t) as HB. rewrite local_fixed in HB.
  assert (∀ k c, 0 ≤ k < 9 → boundary (D t + k) c → c ∈ candidates s t) as Hin.
  { intros k c Hk (m & Hm & ->). apply candidates_elem. exists k, m. by rewrite Date_fixed. }
  assert (b ≠ zeroTime ∧ b ≤ (D t + 1) * day_ns - o) as [Hb0 Hb1].
  { apply H4; [apply (Hin 1); [lia|]; exists 0; split; [set_solver|lia] | lia]. }
  destruct H2 as [|H2]; [done|]. destruct H1 as [|H1]; [done|]. split_and!; [done|done| |].
  - apply candidates_elem in H1 as (k & m & Hk & Hm & E). rewrite Date_fixed in E.
    exists (D t + k). split; [lia|]. by exists m.
  - intros c Hc Htc. apply H4; [|done]. apply (Hin 0); [lia|]. by rewrite Z.add_0_r.
Qed.

(** Before the next boundary nothing changes. *)
Lemma next_unchanged t t' :
  zeroTime ≤ t → t ≤ t' < next s t → allowed s t' = allowed s t.
Proof.
  intros Hz Ht. destruct (next_fixed t Hz) as (_ & Hmid & _ & Hmin).
  pose proof (day_bounds (loc s) t) as HB. rewrite local_fixed in HB.
  assert (D t' = D t) as HD by (apply day_of_unique; rewrite local_fixed; lia).
  assert (∀ m, m ∈ [0; start s; end_ s] →
    (m <=? Hour (loc s) t' * 60 + Minute (loc s) t') = (m <=? Hour (loc s) t * 60 + Minute (loc s) t)) as Hm.
  { intros m Hm. apply eq_bool_prop_intro. rewrite !Is_true_true, !Z.leb_le, !minute_ge, HD, !local_fixed.
    specialize (Hmin (D t * day_ns + m * minute_ns - o) ltac:(by exists m)). lia. }
  unfold allowed, Weekday. rewrite HD, (Hm (start s)), !Z.ltb_antisym, (Hm (end_ s)) by set_solver. done.
Qed.

(** ** Progress: three boundaries take at least a day *)

Definition iter_next (n : nat) (t : Time) : Time := Nat.iter n (next s) t.

Lemma iter_next_add n k t : iter_next (n + k) t = iter_next n (iter_next k t).
Proof. apply Nat.iter_add. Qed.

Lemma iter_next_succ n t : iter_next (S n) t = iter_next n (next s t).
Proof. symmetry. apply Nat.iter_swap. Qed.

Lemma day_of_mono t t' : t ≤ t' → D t ≤ D t'.
Proof. intros H. unfold day_of. rewrite !local_fixed. apply Z.div_le_mono; ns; lia. Qed.

(** A boundary of the same day is its start or its end. *)
Lemma next_same_day t :
  zeroTime ≤ t → next s t < (D t + 1) * day_ns - o →
  D (next s t) = D t ∧
  (next s t = D t * day_ns + start s * minute_ns - o ∨ next s t = D t * day_ns + end_ s * minute_ns - o).
Proof.
  intros Hz Hlt. destruct (next_fixed t Hz) as (Hgt & _ & (d & Hd & Hb) & _).
  pose proof (boundary_bounds _ _ Hb). pose proof (day_bounds (loc s) t) as HB. rewrite local_fixed in HB.
  assert (d = D t) as -> by (ns; lia). split; [apply day_of_unique; rewrite local_fixed; lia|].
  destruct Hb as (m & Hm & E). set_unfold. destruct Hm as [-> | [-> | [-> | []]]]; [lia|auto|auto].
Qed.

Lemma three_steps_a_day t : zeroTime ≤ t → t ≤ iter_next 3 t ∧ D t + 1 ≤ D (iter_next 3 t).
Proof.
  intros Hz. rewrite !iter_next_succ. unfold iter_next, Nat.iter, nat_rect.
  destruct (next_fixed t Hz) as (H1 & _). set (t1 := next s t) in *.
  destruct (next_fixed t1 ltac:(lia)) as (H2 & _). set (t2 := next s t1) in *.
  destruct (next_fixed t2 ltac:(lia)) as (H3 & _). set (t3 := next s t2) in *.
  split; [lia|]. destruct (decide (D t + 1 ≤ D t3)) as [|Hn]; [done|exfalso].
  assert (t3 < (D t + 1) * day_ns - o) as Hlt.
  { pose proof (day_bounds (loc s) t3) as HB. rewrite local_fixed in HB.
    assert ((D t3 + 1) * day_ns ≤ (D t + 1) * day_ns) by (apply Z.mul_le_mono_nonneg_r; ns; lia). lia. }
  destruct (next_same_day t Hz ltac:(subst t1; lia)) as [E1 C1]. fold t1 in E1, C1.
  destruct (next_same_day t1 ltac:(lia) ltac:(rewrite E1; subst t2; lia)) as [E2 C2]. fold t2 in E2, C2.
  destruct (next_same_day t2 ltac:(lia) ltac:(rewrite E2, E1; subst t3; lia)) as [_ C3]. fold t3 in C3.
  rewrite E2, E1 in C3. rewrite E1 in C2. clearbody t1 t2 t3. lia.
Qed.

Lemma days_pass k t :
  zeroTime ≤ t → t ≤ iter_next (3 * k) t ∧ D t + Z.of_nat k ≤ D (iter_next (3 * k) t).
Proof.
  intros Hz. induction k as [|k [IH1 IH2]]; [simpl; lia|].
  replace (3 * S k)%nat with (3 + 3 * k)%nat by lia. rewrite iter_next_add.
  destruct (three_steps_a_day (iter_next (3 * k) t) ltac:(lia)) as [H1 H2]. lia.
Qed.

(** Some instant of the week after [t]'s day is allowed. *)
Lemma allowed_within_week t wd :
  wd ∈ days s → 0 ≤ wd < 7 →
  ∃ t', t ≤ t' ∧ D t' ≤ D t + 7 ∧ allowed s t' = true.
Proof.
  intros Hwd Hr. destruct Hok as (Hs & He & Hne).
  set (k := (wd - weekday_of_day (D t + 1)) mod 7).
  pose proof (Z.mod_pos_bound (wd - weekday_of_day (D t + 1)) 7 ltac:(lia)) as Hk. fold k in Hk.
  exists ((D t + 1 + k) * day_ns + start s * minute_ns - o).
  assert (day_of (loc s) ((D t + 1 + k) * day_ns + start s * minute_ns - o) = D t + 1 + k) as HD.
  { apply day_of_unique. rewrite local_fixed. ns. lia. }
  pose proof (day_bounds (loc s) t) as HB. rewrite local_fixed in HB.
  split; [ns; lia|]. split; [lia|]. apply allowed_intervals; [done|]. exists (D t + 1 + k). split.
  - replace (weekday_of_day (D t + 1 + k)) with wd; [done|]. unfold weekday_of_day in *.
    replace (D t + 1 + k + 4) with (k + (D t + 1 + 4)) by lia. unfold k.
    rewrite Zplus_mod_idemp_l, <- Zplus_mod_idemp_r. symmetry.
    replace (wd - (D t + 1 + 4) mod 7 + (D t + 1 + 4) mod 7) with wd by lia. by apply Z.mod_small.
  - rewrite local_fixed. destruct (start s <? end_ s) eqn:E; ns; lia.
Qed.

End fixed_zone.

(** ** The walk over the boundaries *)

Section walk.
Context (LoadLocation : string → option Location).

Abbreviation eval := (Evaluate LoadLocation).

Lemma Evaluate_recurring spec s t :
  Type_ spec = "recurring" → parseSchedule LoadLocation (Schedule spec) = inr s →
  Active (eval spec t) = negb (allowed s t) ∧ Next (eval spec t) = next s t ∧ Err (eval spec t) = None.
Proof.
  intros HT HS. unfold Evaluate, evaluateRecurring. rewrite HT, HS. simpl. by destruct (allowed s t).
Qed.

Lemma Evaluate_invalid spec t e :
  Err (eval spec t) = Some e → ∀ t', eval spec t' = invalid e.
Proof.
  unfold Evaluate, evaluateBlackout, evaluateRecurring, invalid. intros H t'.
  repeat case_match; simpl in *; by simplify_eq.
Qed.

Lemma opens_recurring spec s o n t :
  Type_ spec = "recurring" → parseSchedule LoadLocation (Schedule spec) = inr s → fixed (loc s) o → zeroTime ≤ t →
  match opens LoadLocation spec n t with
  | Some u => t ≤ u ∧ allowed s u = true ∧ ∀ t', t ≤ t' < u → allowed s t' = false
  | None => ∀ t', t ≤ t' < iter_next s n t → allowed s t' = false
  end.
Proof.
  intros HT HS Hf. destruct (parseSchedule_ok _ _ _ HS) as [Hok _]. revert t.
  induction n as [|n IH]; intros t Hz; [simpl; unfold iter_next, Nat.iter, nat_rect; lia|].
  rewrite iter_next_succ. cbn [opens].
  destruct (Evaluate_recurring spec s t HT HS) as (-> & -> & _). rewrite negb_involutive.
  destruct (next_fixed s o Hf Hok t Hz) as (Hgt & _).
  destruct (allowed s t) eqn:Ha; [split_and!; [lia|done|lia]|].
  unfold IsZero. destruct (next s t =? zeroTime) eqn:E; [lia|].
  specialize (IH (next s t) ltac:(lia)).
  assert (∀ t', t ≤ t' < next s t → allowed s t' = false) as Hsame.
  { intros t' Ht'. rewrite <- Ha. by apply (next_unchanged s o Hf Hok). }
  destruct (opens _ _ _ _) as [u|].
  - destruct IH as (H1 & H2 & H3). split_and!; [lia|done|]. intros t' Ht'.
    destruct (decide (t' < next s t)); [apply Hsame; lia | apply H3; lia].
  - intros t' Ht'. destruct (decide (t' < next s t)); [apply Hsame; lia | apply IH; lia].
Qed.

(** 64 boundaries are more than a week: a recurring window opens. *)
Lemma OpensAt_recurring spec s o t :
  Type_ spec = "recurring" → parseSchedule LoadLocation (Schedule spec) = inr s → fixed (loc s) o → zeroTime ≤ t →
  ∃ u, OpensAt LoadLocation spec t = Some u.
Proof.
  intros HT HS Hf Hz. destruct (parseSchedule_ok _ _ _ HS) as [Hok (wd & Hwd & Hr)].
  pose proof (opens_recurring spec s o maxTransitions t HT HS Hf Hz) as Ho. unfold OpensAt.
  destruct (opens _ _ _ _) as [u|]; [by exists u|exfalso].
  destruct (allowed_within_week s o Hf Hok t wd Hwd Hr) as (t' & Ht & HD & Ha).
  assert (t' < iter_next s maxTransitions t).
  { change maxTransitions with (1 + 3 * 21)%nat. rewrite iter_next_add.
    destruct (days_pass s o Hf Hok 21 t Hz) as [H1 H2]. set (w := iter_next s (3 * 21) t) in *.
    destruct (next_fixed s o Hf Hok w ltac:(lia)) as (Hw & _). unfold iter_next, Nat.iter, nat_rect.
    destruct (decide (t' < w)); [lia|]. pose proof (day_of_mono s o Hf w t' ltac:(lia)). lia. }
  rewrite Ho in Ha by lia. done.
Qed.

(** The other windows: a blackout opens at its end, a freeze without end and an
    invalid spec never do. *)
Lemma evaluateBlackout_cases spec :
  (∀ t, Active (evaluateBlackout spec t) = true ∧ Next (evaluateBlackout spec t) = zeroTime) ∨
  (∀ t, Active (evaluateBlackout spec t) = (Start spec <=? t) ∧
        (Active (evaluateBlackout spec t) = true → Next (evaluateBlackout spec t) = zeroTime)) ∨
  (End_ spec ≠ zeroTime ∧ Start spec < End_ spec ∧
   ∀ t, Active (evaluateBlackout spec t) = (Start spec <=? t) && (t <? End_ spec) ∧
        (Active (evaluateBlackout spec t) = true → Next (evaluateBlackout spec t) = End_ spec)).
Proof.
  unfold evaluateBlackout, IsZero.
  destruct (negb _ && _ && _) eqn:E1; [right; left; intros t; rewrite Z.leb_antisym; by destruct (t <? Start spec)|].
  destruct (_ || _) eqn:E2; [by left|]. destruct (Start spec <? End_ spec) eqn:E3; [|by left].
  right; right. bools. split_and!; [lia|lia|]. intros t. rewrite Z.leb_antisym. simpl.
  by destruct (t <? Start spec), (t <? End_ spec).
Qed.

Lemma opens_two spec n t :
  opens LoadLocation spec (S (S n)) t =
  if negb (Active (eval spec t)) then Some t
  else if IsZero (Next (eval spec t)) then None
  else if negb (Active (eval spec (Next (eval spec t)))) then Some (Next (eval spec t))
  else if IsZero (Next (eval spec (Next (eval spec t)))) then None
  else opens LoadLocation spec n (Next (eval spec (Next (eval spec t)))).
Proof. done. Qed.

(** What [OpensAt] promises: the first opening, or that there is none. *)
Definition first_opening (spec : WindowSpec) (now : Time) (r : option Time) : Prop :=
  match r with
  | Some u => now ≤ u ∧ Active (eval spec u) = false ∧ ∀ t, now ≤ t < u → Active (eval spec t) = true
  | None => ∀ t, now ≤ t → Active (eval spec t) = true
  end.

Lemma OpensAt_blackout spec now :
  Type_ spec = "blackout" → first_opening spec now (OpensAt LoadLocation spec now).
Proof.
  intros HT. assert (∀ t, eval spec t = evaluateBlackout spec t) as HE by (intros; unfold Evaluate; by rewrite HT).
  unfold OpensAt. change maxTransitions with (S (S 62)). rewrite opens_two. unfold first_opening, IsZero. rewrite !HE.
  destruct (evaluateBlackout_cases spec) as [H|[H|(Hz & Hlt & H)]].
  - destruct (H now) as [-> ->]. simpl. intros t _. rewrite HE. apply H.
  - destruct (H now) as [HA HN]. destruct (Active _) eqn:EA; simpl.
    + rewrite HN by done. simpl. intros t Ht. rewrite HE. destruct (H t) as [-> _]. lia.
    + rewrite HE. split_and!; [lia|done|lia].
  - destruct (H now) as [HA HN]. destruct (Active (evaluateBlackout spec now)) eqn:EA; simpl.
    + rewrite HN by done. destruct (End_ spec =? zeroTime) eqn:Ez; [lia|].
      destruct (H (End_ spec)) as [HA' _]. assert (Active (evaluateBlackout spec (End_ spec)) = false) as Hend by (rewrite HA'; lia).
      rewrite Hend. simpl. rewrite HE. split_and!; [lia|done|]. intros t Ht. rewrite HE.
      destruct (H t) as [-> _]. lia.
    + rewrite HE. split_and!; [lia|done|lia].
Qed.

Lemma OpensAt_invalid spec now :
  (∀ t, eval spec t = eval spec now) → Active (eval spec now) = true → Next (eval spec now) = zeroTime →
  first_opening spec now (OpensAt LoadLocation spec now).
Proof.
  intros HC HA HN. unfold OpensAt. change maxTransitions with (S (S 62)). rewrite opens_two, HA, HN. simpl.
  intros t _. by rewrite HC.
Qed.

End walk.

(** ** The properties *)

(** When a window blocks.  A recurring window that can be evaluated is open
    exactly while the local clock is in an interval that starts on an allowed
    day (an overnight interval belongs to the day it starts on, in any
    timezone); a blackout blocks exactly from its start (inclusive) to its end
    (exclusive), a freeze without end from its start on; and every spec that
    cannot be evaluated blocks, at every instant, without a next boundary. *)
Theorem window_blocks_iff LoadLocation spec now :
  let r := Evaluate LoadLocation spec now in
  (∀ s, Type_ spec = "recurring" → parseSchedule LoadLocation (Schedule spec) = inr s →
     Active r = false ↔ ∃ d, in_interval s now d) ∧
  (Type_ spec = "blackout" → Err r = None →
     Active r = true ↔ Start spec ≤ now ∧ (now < End_ spec ∨ (has_Freeze spec = true ∧ End_ spec = zeroTime))) ∧
  (∀ e, Err r = Some e → ∀ t, Active (Evaluate LoadLocation spec t) = true ∧ Next (Evaluate LoadLocation spec t) = zeroTime) ∧
  (Err r = None ↔
     (Type_ spec = "recurring" ∧ ∃ s, parseSchedule LoadLocation (Schedule spec) = inr s) ∨
     (Type_ spec = "blackout" ∧ Start spec ≠ zeroTime ∧
        ((End_ spec = zeroTime ∧ has_Freeze spec = true) ∨ (End_ spec ≠ zeroTime ∧ Start spec < End_ spec)))).
Proof.
  intros r. split_and!.
  - intros s HT HS. destruct (Evaluate_recurring LoadLocation spec s now HT HS) as (HA & _). unfold r. rewrite HA.
    rewrite negb_false_iff. apply allowed_intervals. by apply parseSchedule_ok in HS as [? _].
  - intros HT. unfold r, Evaluate. rewrite HT. simpl. unfold evaluateBlackout, IsZero.
    destruct (has_Freeze spec); repeat case_match; simpl in *; try done; intros _; bools; simplify_eq; naive_solver lia.
  - intros e He t. by rewrite (Evaluate_invalid LoadLocation spec now e He t).
  - unfold r, Evaluate. case_bool_decide as HT; [|case_bool_decide as HT2].
    + rewrite HT. unfold evaluateBlackout, IsZero.
      destruct (has_Freeze spec); repeat case_match; simpl in *; bools; simplify_eq; naive_solver lia.
    + unfold evaluateRecurring. rewrite HT2. destruct (parseSchedule _ _) as [e|s]; simpl; [naive_solver|].
      destruct (allowed s now); naive_solver.
    + simpl. naive_solver.
Qed.

(** [OpensAt] answers the first instant from [now] on at which the window
    does not block, and answers no only when the window blocks for good: the
    walk skips no opening, and its 64 boundaries are enough, in every timezone
    whose offset does not change (UTC, the default, is one). *)
Theorem OpensAt_first LoadLocation spec now :
  zeroTime ≤ now →
  (∀ s, parseSchedule LoadLocation (Schedule spec) = inr s → ∃ o, fixed (loc s) o) →
  first_opening LoadLocation spec now (OpensAt LoadLocation spec now) ∧
  (∀ s, Type_ spec = "recurring" → parseSchedule LoadLocation (Schedule spec) = inr s →
     ∃ u, OpensAt LoadLocation spec now = Some u).
Proof.
  intros Hz Hfix. split.
  - destruct (decide (Type_ spec = "blackout")) as [HB|HB]; [by apply OpensAt_blackout|].
    destruct (decide (Type_ spec = "recurring")) as [HR|HR].
    + destruct (parseSchedule LoadLocation (Schedule spec)) as [e|s] eqn:HS.
      * apply OpensAt_invalid; unfold Evaluate, evaluateRecurring; rewrite HR, HS; done.
      * destruct (Hfix s eq_refl) as [o Ho].
        pose proof (opens_recurring LoadLocation spec s o maxTransitions now HR HS Ho Hz) as H1.
        destruct (OpensAt_recurring LoadLocation spec s o now HR HS Ho Hz) as [u Hu]. rewrite Hu.
        unfold OpensAt in Hu. rewrite Hu in H1. destruct H1 as (H1 & H2 & H3). unfold first_opening.
        assert (∀ t, Active (Evaluate LoadLocation spec t) = negb (allowed s t)) as HE
          by (intros; by apply Evaluate_recurring).
        split_and!; [done|by rewrite HE, H2|]. intros t Ht. by rewrite HE, H3.
    + apply OpensAt_invalid; unfold Evaluate; by rewrite !bool_decide_eq_false_2.
  - intros s HR HS. destruct (Hfix s HS) as [o Ho]. by apply (OpensAt_recurring LoadLocation spec s o).
Qed.

(** A window of Friday nights in a zone two hours ahead of UTC. *)
Definition plus_two (name : string) : option Location :=
  if bool_decide (name = "Etc/GMT-2") then Some (mkLoc name (λ _, 2 * hour_ns)) else None.

Definition ex_nights : WindowSpec :=
  mkSpec "recurring" zeroTime zeroTime (Some (mkSched "Etc/GMT-2" ["Fri"] "22:00-02:00")) false.

Definition ex_schedule : schedule :=
  mkSchedule (mkLoc "Etc/GMT-2" (λ _, 2 * hour_ns)) {[5]} 1320 120 "Fri 22:00-02:00 Etc/GMT-2".

Lemma ex_schedule_parsed : parseSchedule plus_two (Schedule ex_nights) = inr ex_schedule.
Proof. vm_compute. reflexivity. Qed.

(** Saturday, January 3, 1970, 01:00 local time: open, since Friday 22:00. *)
Lemma window_blocks_iff_witness :
  parseSchedule plus_two (Schedule ex_nights) = inr ex_schedule ∧
  Active (Evaluate plus_two ex_nights (day_ns * 2 - hour_ns)) = false.
Proof.
  split; [apply ex_schedule_parsed|].
  apply (proj1 (window_blocks_iff plus_two ex_nights (day_ns * 2 - hour_ns)) ex_schedule eq_refl ex_schedule_parsed).
  exists 1. split; [vm_compute; reflexivity|]. vm_compute. split; [discriminate | reflexivity].
Defined.

(** From Thursday, January 1, 1970, it opens on Friday at 22:00 (20:00 UTC). *)
Lemma OpensAt_first_witness :
  zeroTime ≤ 0 ∧ OpensAt plus_two ex_nights 0 = Some (day_ns + 20 * hour_ns) ∧
  Active (Evaluate plus_two ex_nights (day_ns + 19 * hour_ns)) = true.
Proof.
  assert (zeroTime ≤ 0) as H0 by (vm_compute; discriminate).
  assert (OpensAt plus_two ex_nights 0 = Some (day_ns + 20 * hour_ns)) as HO by (vm_compute; reflexivity).
  assert (∀ s, parseSchedule plus_two (Schedule ex_nights) = inr s → ∃ o, fixed (loc s) o) as HF.
  { intros s. rewrite ex_schedule_parsed. intros [= <-]. exists (2 * hour_ns). intros t. reflexivity. }
  split; [exact H0|]. split; [exact HO|].
  pose proof (proj1 (OpensAt_first plus_two ex_nights 0 H0 HF)) as HP. rewrite HO in HP.
  apply HP. vm_compute. split; [discriminate | reflexivity].
Defined.

(** ** A clock change

    New York on March 8, 2026: the offset goes from -5 to -4 hours at 07:00 UTC
    (02:00 local time becomes 03:00). *)
Definition spring_forward : Time := 1772953200 * second.

Definition new_york (name : string) : option Location :=
  if bool_decide (name = "America/New_York")
  then Some (mkLoc name (λ t, if t <? spring_forward then -5 * hour_ns else -4 * hour_ns)) else None.

Definition ex_sunday : WindowSpec :=
  mkSpec "recurring" zeroTime zeroTime (Some (mkSched "America/New_York" ["Sun"] "02:30-05:00")) false.

(** On a day whose clock jumps over the start of the allowed hours the state
    changes at the jump, which is no candidate of [next]: at 01:45 the window
    blocks and its next boundary is 05:00, but it is open from 03:00 on, and
    [OpensAt] answers the Sunday after. *)
Theorem clock_change_skips_opening :
  let t := spring_forward - 15 * minute_ns in
  Active (Evaluate new_york ex_sunday t) = true ∧
  Next (Evaluate new_york ex_sunday t) = spring_forward + 2 * hour_ns ∧
  Active (Evaluate new_york ex_sunday spring_forward) = false ∧
  OpensAt new_york ex_sunday t = Some (spring_forward + 7 * day_ns - 30 * minute_ns).
Proof. vm_compute. repeat split. Qed.

End ChangeWindow.
