(* ===== verification/Freeze.v ===== *)
(** * Freeze: change windows that hold promotions by themselves

    Model of src/pkg/reconciler/changewindow/freeze.go (which freezes hold a
    promotion, and the exemptions from them) and of the status write of
    src/pkg/reconciler/changewindow/reconciler.go (what is active, which
    exemptions are in effect and until when).

    [ExemptionKey], a truncated SHA-256 of the entry's JSON, is a parameter; no
    property of it is assumed.  The audit records (freeze_audit.go) are API
    writes and not modelled: [reconcile_live] is the reconcile of a window that
    is not being deleted, with the retry time of the audit as an argument. *)

From stdpp Require Import base gmap strings list sorting.
From Stdlib Require Import Lia ZArith.
From S2P Require Import Prelude Actor ChangeWindow.

Open Scope Z_scope.

Module Freeze.
Import Actor ChangeWindow.

Record FreezeExemption := mkExemption {
  x_Namespace : string; x_Pipeline : string; x_Environment : string; x_Bundle : string;
  x_Reason : string; ExpiresAt : Time; x_CreatedBy : string; x_Actor : option Actor
}.

#[export] Instance FreezeExemption_eq_dec : EqDecision FreezeExemption.
Proof. solve_decision. Defined.

Record FreezeExemptionRecord := mkRecord { Key : string; FirstSeen : Time; Until : Time }.

Record ChangeWindowFreeze := mkFreeze {
  Actors : string; Namespaces : list string; CreatedBy : string; Exemptions : list FreezeExemption
}.

(** [s_Valid] is the Valid condition: its error, if it is False, and the
    generation it was found at; [s_Ignored] counts the entries the
    ExemptionIgnored condition names, 0 without the condition. *)
Record ChangeWindowStatus := mkStatus {
  s_Active : bool; s_Reason : option window_reason; ObservedGeneration : Z; NextTransition : option Time;
  s_Exemptions : list FreezeExemption; ExemptionRecords : list FreezeExemptionRecord;
  s_Valid : option (option window_error * Z); s_Ignored : Z
}.

Record ChangeWindow_ := mkWindow {
  w_Name : string; Generation : Z; DeletionTimestamp : option Time;
  w_Type : string; w_Start : Time; w_End : Time; w_Schedule : option ChangeWindowSchedule;
  w_Freeze : option ChangeWindowFreeze; Status : ChangeWindowStatus
}.

Definition spec_of (w : ChangeWindow_) : WindowSpec :=
  mkSpec (w_Type w) (w_Start w) (w_End w) (w_Schedule w) (bool_decide (w_Freeze w ≠ None)).

Record FreezeTarget := mkTarget {
  t_Namespace : string; t_Pipeline : string; t_Environment : string; t_Bundle : string; Author : Actor
}.

Record FreezeMatch := mkMatch {
  Window : ChangeWindow_; Exemption : option FreezeExemption; Since : Time; m_Until : Time
}.

Definition exemptionByAgent (e : FreezeExemption) : bool :=
  match x_Actor e with Some a => bool_decide (Kind a = ActorAgent) | None => false end.

Definition FreezeSelects (f : option ChangeWindowFreeze) (t : FreezeTarget) : bool :=
  match f with
  | None => false
  | Some f =>
      if negb (bool_decide (Namespaces f = [])) && negb (Matches (Namespaces f) (t_Namespace t)) then false
      else if bool_decide (Actors f = "everyone") then true
      else if bool_decide (Actors f = "agents") then bool_decide (Kind (Author t) = ActorAgent)
      else true
  end.

Definition statusBehind (w : ChangeWindow_) : bool :=
  (ObservedGeneration (Status w) =? 0) || negb (ObservedGeneration (Status w) =? Generation w).

Definition FreezeLifting (w : ChangeWindow_) : bool :=
  bool_decide (w_Freeze w ≠ None) && bool_decide (DeletionTimestamp w ≠ None).

Definition FreezeActive (w : ChangeWindow_) : bool :=
  bool_decide (w_Freeze w ≠ None) && negb (FreezeLifting w) && (statusBehind w || s_Active (Status w)).

(** Whether entry [e] covers [t]. *)
Definition covers (e : FreezeExemption) (t : FreezeTarget) : bool :=
  bool_decide (x_Namespace e = t_Namespace t) && bool_decide (x_Pipeline e = t_Pipeline t) &&
  (bool_decide (x_Environment e = "") || bool_decide (x_Environment e = t_Environment t)) &&
  (bool_decide (x_Bundle e = "") || bool_decide (x_Bundle e = t_Bundle t)).

Section key.
Context (ExemptionKey : FreezeExemption → string).

(** The last record of the entry says until when it counts. *)
Definition record_until (recs : list FreezeExemptionRecord) (e : FreezeExemption) : Time :=
  foldl (λ u r, if bool_decide (Key r = ExemptionKey e) then Until r else u) (ExpiresAt e) recs.

Fixpoint exemption_loop (w : ChangeWindow_) (t : FreezeTarget) (es : list FreezeExemption)
  : option FreezeExemption * Time :=
  match es with
  | [] => (None, zeroTime)
  | e :: es =>
      if negb (covers e t) || exemptionByAgent e then exemption_loop w t es
      else if negb (bool_decide (e ∈ from_option Exemptions [] (w_Freeze w))) then exemption_loop w t es
      else (Some e, record_until (ExemptionRecords (Status w)) e)
  end.

Definition exemptionFor (w : ChangeWindow_) (t : FreezeTarget) : option FreezeExemption * Time :=
  if statusBehind w then (None, zeroTime) else exemption_loop w t (s_Exemptions (Status w)).

Definition FreezesFor (windows : list ChangeWindow_) (t : FreezeTarget) : list FreezeMatch :=
  let out := omap (λ w,
    if negb (FreezeActive w) || negb (FreezeSelects (w_Freeze w) t) then None
    else let '(e, until) := exemptionFor w t in Some (mkMatch w e (w_Start w) until)) windows in
  sort_by (λ a b, str_ltb (w_Name (Window a)) (w_Name (Window b))) out.

Definition Holding (matches : list FreezeMatch) : list FreezeMatch :=
  filter (λ m, Exemption m = None) matches.

(** ** The status write *)

Record exemptionState := mkEx {
  inEffect : list FreezeExemption; ends : list Time; records : list FreezeExemptionRecord; byAgents : Z
}.

(** [t.Truncate(time.Second)]. *)
Definition Truncate (t : Time) : Time := t - t mod second.

Definition seen_of (old : list FreezeExemptionRecord) : gmap string FreezeExemptionRecord :=
  foldl (λ m r, <[Key r := r]> m) ∅ old.

(** When entry [e] was first seen, and until when it counts. *)
Definition first_seen (old : list FreezeExemptionRecord) (now : Time) (e : FreezeExemption) : Time :=
  from_option FirstSeen (Truncate now) (seen_of old !! ExemptionKey e).

Definition until_of (old : list FreezeExemptionRecord) (now : Time) (cap : Duration) (e : FreezeExemption) : Time :=
  let capEnd := first_seen old now e + cap in
  if capEnd <? ExpiresAt e then capEnd else ExpiresAt e.

(** One entry of the loop. *)
Definition exemption_step (old : list FreezeExemptionRecord) (now : Time) (cap : Duration)
    (s : exemptionState) (e : FreezeExemption) : exemptionState :=
  let key := ExemptionKey e in
  let until := until_of old now cap e in
  let recs := if existsb (λ r, bool_decide (Key r = key)) (records s) then records s
              else records s ++ [mkRecord key (first_seen old now e) until] in
  if exemptionByAgent e then mkEx (inEffect s) (ends s) recs (byAgents s + 1)
  else if now <? until then mkEx (inEffect s ++ [e]) (ends s ++ [until]) recs (byAgents s)
  else mkEx (inEffect s) (ends s) recs (byAgents s).

Definition freezeExemptions (f : option ChangeWindowFreeze) (old : list FreezeExemptionRecord)
    (now : Time) (cap : Duration) : exemptionState :=
  match f with
  | None => mkEx [] [] [] 0
  | Some f => foldl (exemption_step old now cap) (mkEx [] [] [] 0) (Exemptions f)
  end.

Definition DefaultMaxExemption : Duration := 24 * hour_ns.

Definition maxExemption (m : Duration) : Duration := if 0 <? m then m else DefaultMaxExemption.

Definition invalidAt (w : ChangeWindow_) (generation : Z) : bool :=
  match s_Valid (Status w) with
  | Some (Some _, g) => g =? generation
  | _ => false
  end.

(** The earliest of the boundary and the ends of the exemptions. *)
Definition earliest (next : Time) (us : list Time) : Time :=
  foldl (λ nx u, if IsZero nx || (u <? nx) then u else nx) next us.

Definition maxRequeue : Duration := hour_ns.
Definition boundarySlack : Duration := second.

Definition requeue (next now : Time) (auditRetry : Duration) : Duration :=
  if IsZero next then auditRetry
  else let wait := next - now + boundarySlack in
       let wait := if (0 <? auditRetry) && (auditRetry <? wait) then auditRetry else wait in
       if maxRequeue <? wait then maxRequeue else wait.

Definition with_status (w : ChangeWindow_) (st : ChangeWindowStatus) : ChangeWindow_ :=
  mkWindow (w_Name w) (Generation w) (DeletionTimestamp w) (w_Type w) (w_Start w) (w_End w) (w_Schedule w)
    (w_Freeze w) st.

(** What the reconcile of a live window at [now] writes, whether it reports the
    spec as newly invalid, and when it runs again. *)
Definition reconcile_live (LoadLocation : string → option Location) (m : Duration) (auditRetry : Duration)
    (now : Time) (w : ChangeWindow_) : ChangeWindow_ * bool * Duration :=
  let res := Evaluate LoadLocation (spec_of w) now in
  let newlyInvalid := bool_decide (Err res ≠ None) && negb (invalidAt w (Generation w)) in
  let ex := freezeExemptions (w_Freeze w) (ExemptionRecords (Status w)) now (maxExemption m) in
  let next := earliest (Next res) (ends ex) in
  (with_status w (mkStatus (Active res) (Some (Reason res)) (Generation w)
     (if IsZero next then None else Some next) (inEffect ex) (records ex)
     (Some (Err res, Generation w)) (byAgents ex)),
   newlyInvalid, requeue next now auditRetry).

End key.

(** [FreezeScope]: whom and where a freeze holds. *)
Definition FreezeScope (f : ChangeWindowFreeze) : string :=
  let who := if bool_decide (Actors f = "agents") then "agents" else "everyone" in
  let where_ := if bool_decide (Namespaces f = []) then "every namespace"
                else "namespaces " +:+ Join (Namespaces f) ", " in
  who +:+ ", " +:+ where_.

(** ** Which freezes hold *)

Section holding.
Context (ExemptionKey : FreezeExemption → string).

Abbreviation loop := (exemption_loop ExemptionKey).

(** An entry that lets [t] through window [w]. *)
Definition lets_through (w : ChangeWindow_) (t : FreezeTarget) (e : FreezeExemption) : Prop :=
  covers e t = true ∧ exemptionByAgent e = false ∧ e ∈ from_option Exemptions [] (w_Freeze w).

Lemma loop_cons w t e es :
  (lets_through w t e ∧ loop w t (e :: es) = (Some e, record_until ExemptionKey (ExemptionRecords (Status w)) e)) ∨
  (¬ lets_through w t e ∧ loop w t (e :: es) = loop w t es).
Proof.
  unfold lets_through. simpl. destruct (covers e t); simpl; [|right; naive_solver].
  destruct (exemptionByAgent e); simpl; [right; naive_solver|].
  case_bool_decide; simpl; [left|right]; naive_solver.
Qed.

Lemma loop_None w t es : (loop w t es).1 = None ↔ ∀ e, e ∈ es → ¬ lets_through w t e.
Proof.
  induction es as [|e es IH]; [split; [intros _ e He; by apply elem_of_nil in He | done]|].
  setoid_rewrite elem_of_cons. destruct (loop_cons w t e es) as [[H ->] | [H ->]]; simpl.
  - split; [done|]. intros Hn. destruct (Hn e (or_introl eq_refl) H).
  - rewrite IH. split; [intros Hn x [-> | Hx]; auto | auto].
Qed.

Lemma loop_Some w t es e : (loop w t es).1 = Some e → e ∈ es ∧ lets_through w t e.
Proof.
  induction es as [|x es IH]; [done|]. rewrite elem_of_cons.
  destruct (loop_cons w t x es) as [[H ->] | [_ ->]]; simpl; [intros [= <-]; auto|].
  intros [? ?]%IH. auto.
Qed.

Lemma Holding_nil_iff ws t :
  Holding (FreezesFor ExemptionKey ws t) = [] ↔
  ∀ w, w ∈ ws → FreezeActive w = true → FreezeSelects (w_Freeze w) t = true → (exemptionFor ExemptionKey w t).1 ≠ None.
Proof.
  unfold Holding, FreezesFor. set (f := λ w, _). split.
  - intros Hnil w Hw HA HS HN. destruct (exemptionFor ExemptionKey w t) as [e u] eqn:E. simpl in HN. subst.
    apply (elem_of_nil (mkMatch w None (w_Start w) u)). rewrite <- Hnil. apply list_elem_of_filter. split; [done|].
    apply sort_by_elem, list_elem_of_omap. exists w. split; [done|]. unfold f. by rewrite HA, HS, E.
  - intros H. apply elem_of_nil_inv. intros m [HN Hm]%list_elem_of_filter. apply sort_by_elem, list_elem_of_omap in Hm as (w & Hw & Hf).
    unfold f in Hf. destruct (FreezeActive w) eqn:HA, (FreezeSelects (w_Freeze w) t) eqn:HS; try done.
    destruct (exemptionFor ExemptionKey w t) as [e u] eqn:E. simpl in Hf. simplify_eq.
    apply (H w Hw HA HS). by rewrite E.
Qed.

(** ** The exemptions in effect *)

Abbreviation step := (exemption_step ExemptionKey).

Definition in_effect (old : list FreezeExemptionRecord) (now : Time) (cap : Duration) (e : FreezeExemption) : Prop :=
  exemptionByAgent e = false ∧ now < ExpiresAt e ∧ now < first_seen ExemptionKey old now e + cap.

Lemma in_effect_until old now cap e :
  in_effect old now cap e ↔ exemptionByAgent e = false ∧ now < until_of ExemptionKey old now cap e.
Proof. unfold in_effect, until_of. case_match; naive_solver lia. Qed.

#[local] Instance in_effect_dec old now cap e : Decision (in_effect old now cap e).
Proof. unfold in_effect. apply _. Defined.

Lemma step_effect old now cap s0 x :
  inEffect (step old now cap s0 x) = if decide (in_effect old now cap x) then inEffect s0 ++ [x] else inEffect s0.
Proof.
  unfold exemption_step. case_decide as H; rewrite in_effect_until in H.
  - destruct H as [-> H]. by rewrite (proj2 (Z.ltb_lt _ _) H).
  - destruct (exemptionByAgent x); [done|]. destruct (now <? _) eqn:E; [|done]. destruct H. split; [done|lia].
Qed.

Lemma step_effect_elem old now cap es s0 e :
  e ∈ inEffect (foldl (step old now cap) s0 es) ↔ e ∈ inEffect s0 ∨ (e ∈ es ∧ in_effect old now cap e).
Proof.
  revert s0. induction es as [|x es IH]; intros s0; simpl; [set_solver|].
  rewrite IH, elem_of_cons, (step_effect old now cap s0 x).
  destruct (decide (in_effect old now cap x)) as [Hx|Hx]; rewrite ?elem_of_app, ?list_elem_of_singleton; split;
    intuition (subst; auto; congruence).
Qed.

(** The record an entry gets. *)
Definition new_record (old : list FreezeExemptionRecord) (now : Time) (cap : Duration) (e : FreezeExemption)
  : FreezeExemptionRecord :=
  mkRecord (ExemptionKey e) (first_seen ExemptionKey old now e) (until_of ExemptionKey old now cap e).

Lemma step_records_eq old now cap s0 e :
  records (step old now cap s0 e) =
  if decide (ExemptionKey e ∈ Key <$> records s0) then records s0 else records s0 ++ [new_record old now cap e].
Proof.
  unfold exemption_step. assert (existsb (λ r, bool_decide (Key r = ExemptionKey e)) (records s0) =
    bool_decide (ExemptionKey e ∈ Key <$> records s0)) as ->.
  { apply eq_bool_prop_intro. rewrite bool_decide_spec, Is_true_true, existsb_exists, list_elem_of_fmap.
    setoid_rewrite bool_decide_eq_true. setoid_rewrite list_elem_of_In. naive_solver. }
  destruct (exemptionByAgent e); [|destruct (now <? until_of ExemptionKey old now cap e)]; simpl;
    case_bool_decide; by case_decide.
Qed.

Lemma step_records old now cap es s0 :
  NoDup (Key <$> records s0) → (∀ r, r ∈ records s0 → ∃ e, r = new_record old now cap e) →
  let rs := records (foldl (step old now cap) s0 es) in
  NoDup (Key <$> rs) ∧ (∀ r, r ∈ rs → ∃ e, r = new_record old now cap e) ∧
  (∀ e, ExemptionKey e ∈ Key <$> records s0 ∨ e ∈ es → ExemptionKey e ∈ Key <$> rs).
Proof.
  revert s0. induction es as [|x es IH]; intros s0 HN HR; simpl.
  - split_and!; [done|done|]. intros e [He|He%elem_of_nil]; done.
  - pose proof (step_records_eq old now cap s0 x) as E.
    destruct (IH (step old now cap s0 x)) as (H1 & H2 & H3).
    + rewrite E. case_decide as Hk; [done|]. rewrite fmap_app. apply NoDup_app. split_and!; [done| |].
      * intros k Hk'. simpl. rewrite list_elem_of_singleton. congruence.
      * apply NoDup_singleton.
    + rewrite E. case_decide; [done|]. intros r [Hr|Hr%list_elem_of_singleton]%elem_of_app; eauto.
    + split_and!; [done|done|]. intros e He. apply H3. rewrite E, elem_of_cons in *.
      case_decide; rewrite ?fmap_app, ?elem_of_app; simpl; rewrite ?list_elem_of_singleton; naive_solver.
Qed.

Lemma seen_of_snoc l r : seen_of (l ++ [r]) = <[Key r := r]> (seen_of l).
Proof. unfold seen_of. by rewrite foldl_app. Qed.

Lemma seen_of_lookup l k r : seen_of l !! k = Some r → r ∈ l ∧ Key r = k.
Proof.
  induction l as [|x l IH] using rev_ind; [done|]. rewrite seen_of_snoc, elem_of_app, list_elem_of_singleton.
  rewrite lookup_insert_Some. naive_solver.
Qed.

Lemma seen_of_is_Some l k : k ∈ Key <$> l → is_Some (seen_of l !! k).
Proof.
  induction l as [|x l IH] using rev_ind; [by intros ?%elem_of_nil|].
  rewrite seen_of_snoc, fmap_app, elem_of_app. simpl. rewrite list_elem_of_singleton.
  destruct (decide (Key x = k)) as [<- | Hne]; [by rewrite lookup_insert_eq|].
  rewrite lookup_insert_ne by done. naive_solver.
Qed.

Lemma Truncate_le t : Truncate t ≤ t.
Proof. unfold Truncate. pose proof (Z.mod_pos_bound t second ltac:(unfold second; lia)). lia. Qed.

(** Recording keeps the time an entry was first seen. *)
Lemma first_seen_kept f old now cap e now' :
  e ∈ Exemptions f →
  first_seen ExemptionKey (records (freezeExemptions ExemptionKey (Some f) old now cap)) now' e =
  first_seen ExemptionKey old now e.
Proof.
  intros He. unfold freezeExemptions.
  destruct (step_records old now cap (Exemptions f) (mkEx [] [] [] 0)) as (_ & H2 & H3).
  { constructor. } { by intros r ?%elem_of_nil. }
  destruct (seen_of_is_Some _ _ (H3 e (or_intror He))) as [r Hr].
  unfold first_seen at 1. rewrite Hr. simpl. apply seen_of_lookup in Hr as [Hin Hk].
  destruct (H2 r Hin) as [e' ->]. simpl in Hk |- *. unfold first_seen. by rewrite Hk.
Qed.

(** ** The reconciled status *)

Section reconciled.
Context (LoadLocation : string → option Location) (m auditRetry : Duration).

Abbreviation written now w := ((reconcile_live ExemptionKey LoadLocation m auditRetry now w).1.1).

Lemma written_current now w : Generation w ≠ 0 → statusBehind (written now w) = false.
Proof. intros H. unfold statusBehind. simpl. destruct (Generation w =? 0) eqn:E; [lia|]. by rewrite Z.eqb_refl. Qed.

Lemma written_active now w :
  Generation w ≠ 0 →
  FreezeActive (written now w) = true ↔
  w_Freeze w ≠ None ∧ DeletionTimestamp w = None ∧ Active (Evaluate LoadLocation (spec_of w) now) = true.
Proof.
  intros H. unfold FreezeActive, FreezeLifting. rewrite written_current by done. simpl.
  rewrite !andb_true_iff, negb_true_iff, bool_decide_eq_true, andb_false_iff, !bool_decide_eq_false.
  destruct (w_Freeze w), (DeletionTimestamp w); naive_solver.
Qed.

Lemma written_exempt now w t :
  Generation w ≠ 0 →
  (exemptionFor ExemptionKey (written now w) t).1 ≠ None ↔
  ∃ e, e ∈ from_option Exemptions [] (w_Freeze w) ∧ covers e t = true ∧
    in_effect (ExemptionRecords (Status w)) now (maxExemption m) e.
Proof.
  intros H. unfold exemptionFor. rewrite written_current by done.
  assert (∀ e, e ∈ s_Exemptions (Status (written now w)) ↔
    e ∈ from_option Exemptions [] (w_Freeze w) ∧ in_effect (ExemptionRecords (Status w)) now (maxExemption m) e) as Hin.
  { intros e. simpl. destruct (w_Freeze w) as [f|]; simpl; [|split; [by intros ?%elem_of_nil|by intros [?%elem_of_nil _]]].
    rewrite step_effect_elem. simpl. rewrite elem_of_nil. naive_solver. }
  pose proof (loop_None (written now w) t (s_Exemptions (Status (written now w)))) as HL.
  setoid_rewrite Hin in HL. unfold lets_through in HL. simpl w_Freeze in HL.
  destruct (decide ((loop (written now w) t (s_Exemptions (Status (written now w)))).1 = None)) as [E|E].
  - split; [done|]. intros (e & He & Hc & Hi). destruct (proj1 HL E e (conj He Hi)). split_and!; [done|apply Hi|done].
  - split; [intros _|done]. destruct (loop _ _ _).1 as [e|] eqn:Ee; [|done].
    apply loop_Some in Ee as [Hi (Hc & _ & He)]. apply Hin in Hi as [_ Hi]. by exists e.
Qed.

End reconciled.

End holding.

(** ** The properties *)

(** C33. A freeze holds what it selects and fails closed.  After the status of
    each window was written, a promotion is let through exactly when every
    window that is a freeze, is not being lifted, is active and selects it has
    an exemption for it in its spec, not made by an agent, not past its
    expiry and not past the cap counted from when it was first seen; and a
    freeze whose status does not describe its spec yet holds everything it
    selects, whatever its exemptions. *)
Theorem freeze_holds_iff ExemptionKey LoadLocation m auditRetry (ws : list (ChangeWindow_ * Time)) t :
  (∀ x, x ∈ ws → Generation x.1 ≠ 0) →
  let written := (λ x, (reconcile_live ExemptionKey LoadLocation m auditRetry x.2 x.1).1.1) <$> ws in
  (Holding (FreezesFor ExemptionKey written t) = [] ↔
   ∀ w now, (w, now) ∈ ws → w_Freeze w ≠ None → DeletionTimestamp w = None →
     Active (Evaluate LoadLocation (spec_of w) now) = true → FreezeSelects (w_Freeze w) t = true →
     ∃ e, e ∈ from_option Exemptions [] (w_Freeze w) ∧ covers e t = true ∧ exemptionByAgent e = false ∧
       now < ExpiresAt e ∧
       now < first_seen ExemptionKey (ExemptionRecords (Status w)) now e + maxExemption m) ∧
  (∀ behind w, w ∈ behind → statusBehind w = true → w_Freeze w ≠ None → DeletionTimestamp w = None →
     FreezeSelects (w_Freeze w) t = true → Holding (FreezesFor ExemptionKey behind t) ≠ []).
Proof.
  intros HG written. split.
  - unfold written. rewrite Holding_nil_iff. split.
    + intros H w now Hw HF HD HA HS. pose proof (HG _ Hw) as Hg. simpl in Hg.
      apply (written_exempt ExemptionKey LoadLocation m auditRetry now w t Hg).
      assert ((reconcile_live ExemptionKey LoadLocation m auditRetry now w).1.1 ∈
        ((λ x, (reconcile_live ExemptionKey LoadLocation m auditRetry x.2 x.1).1.1) <$> ws)) as Hin.
      { apply list_elem_of_fmap. by exists (w, now). }
      exact (H _ Hin (proj2 (written_active ExemptionKey LoadLocation m auditRetry now w Hg) (conj HF (conj HD HA))) HS).
    + intros H w' ([w now] & -> & Hw)%list_elem_of_fmap HA HS. pose proof (HG _ Hw) as Hg. simpl in Hg.
      pose proof (proj1 (written_active ExemptionKey LoadLocation m auditRetry now w Hg) HA) as (HF & HD & HA').
      apply (written_exempt ExemptionKey LoadLocation m auditRetry now w t Hg). by apply H.
  - intros behind w Hw HB HF HD HS. rewrite Holding_nil_iff. intros H.
    apply (H w Hw); [|done|unfold exemptionFor; by rewrite HB].
    unfold FreezeActive, FreezeLifting. rewrite HB, HD. by rewrite bool_decide_eq_true_2.
Qed.

(** The statuses a window goes through: its spec may be edited in between. *)
Definition reconcile_seq ExemptionKey LoadLocation (m : Duration) (st : ChangeWindowStatus)
    (l : list (ChangeWindow_ * Time)) : ChangeWindowStatus :=
  foldl (λ st x, Status (reconcile_live ExemptionKey LoadLocation m 0 x.2 (with_status x.1 st)).1.1) st l.

Lemma reconcile_seq_keeps ExemptionKey LoadLocation m e t0 l st :
  (∀ x, x ∈ l → e ∈ from_option Exemptions [] (w_Freeze x.1)) →
  (∀ now, first_seen ExemptionKey (ExemptionRecords st) now e ≤ t0) →
  ∀ now, first_seen ExemptionKey (ExemptionRecords (reconcile_seq ExemptionKey LoadLocation m st l)) now e ≤ t0.
Proof.
  revert st. induction l as [|[w now] l IH]; intros st Hin Hseen; [done|]. simpl. apply IH; [intros; apply Hin; by right|].
  intros n. pose proof (Hin (w, now) ltac:(left)) as He. simpl in He |- *.
  destruct (w_Freeze w) as [f|]; simpl in He; [|by apply elem_of_nil in He]. by rewrite first_seen_kept.
Qed.

(** An exemption is bounded.  However often the window is reconciled and
    its spec edited, an entry that stays in the spec is let through neither
    past its expiry nor longer than the cap after the first time the controller
    saw it, and never when an agent made it. *)
Theorem exemption_capped ExemptionKey LoadLocation m e st0 w0 t0 rest wn tn :
  (∀ r, r ∈ ExemptionRecords st0 → FirstSeen r ≤ t0) →
  (∀ x, x ∈ (w0, t0) :: rest ++ [(wn, tn)] → e ∈ from_option Exemptions [] (w_Freeze x.1)) →
  e ∈ s_Exemptions (reconcile_seq ExemptionKey LoadLocation m st0 ((w0, t0) :: rest ++ [(wn, tn)])) →
  exemptionByAgent e = false ∧ tn < ExpiresAt e ∧ tn < t0 + maxExemption m.
Proof.
  intros Hold Hin. set (l := (w0, t0) :: rest). change (_ :: _) with (l ++ [(wn, tn)]).
  unfold reconcile_seq. rewrite foldl_app. fold (reconcile_seq ExemptionKey LoadLocation m st0 l).
  set (st := reconcile_seq _ _ _ _ l). simpl.
  pose proof (Hin (wn, tn)) as Hn. simpl in Hn. rewrite elem_of_cons, elem_of_app, list_elem_of_singleton in Hn.
  destruct (w_Freeze wn) as [f|]; simpl in *; [|intros Hx; by apply elem_of_nil in Hx].
  rewrite step_effect_elem. simpl. intros [?%elem_of_nil | (_ & Ha & Hx & Hc)]; [done|].
  split_and!; [done|done|].
  assert (first_seen ExemptionKey (ExemptionRecords st) tn e ≤ t0); [|lia].
  unfold st, l. simpl. apply reconcile_seq_keeps; [intros; apply Hin; set_solver|].
  intros n. pose proof (Hin (w0, t0) ltac:(left)) as H0. simpl in H0 |- *.
  destruct (w_Freeze w0) as [f0|]; simpl in H0; [|by apply elem_of_nil in H0]. rewrite first_seen_kept by done.
  unfold first_seen. destruct (seen_of _ !! _) as [r|] eqn:Er; simpl; [|apply Truncate_le].
  apply Hold. by apply seen_of_lookup in Er as [? _].
Qed.

(** ** A freeze of agents in the payments namespaces, with one exemption *)

Definition ex_exemption : FreezeExemption :=
  mkExemption "pay-eu" "checkout" "" "" "hotfix" (100 * hour_ns) "alice" (Some (mkActor ActorHuman "alice" "" "" "" None)).

Definition ex_no_status : ChangeWindowStatus := mkStatus false None 0 None [] [] None 0.

Definition ex_window : ChangeWindow_ :=
  mkWindow "agents-off" 1 None "blackout" second zeroTime None
    (Some (mkFreeze "agents" ["pay-*"] "bob" [ex_exemption])) ex_no_status.

Definition ex_target (pipeline : string) : FreezeTarget :=
  mkTarget "pay-eu" pipeline "prod" "b1" (mkActor ActorAgent "sa" "bot" "carol" "" None).

(** The exemption lets checkout through, and only checkout. *)
Lemma freeze_holds_iff_witness :
  let written := [(reconcile_live x_Reason (λ _, None) 0 0 hour_ns ex_window).1.1] in
  (∀ x, x ∈ [(ex_window, hour_ns)] → Generation x.1 ≠ 0) ∧
  w_Name <$> (Window <$> Holding (FreezesFor x_Reason written (ex_target "billing"))) = ["agents-off"] ∧
  (∃ e, e ∈ [ex_exemption] ∧ covers e (ex_target "checkout") = true ∧ exemptionByAgent e = false ∧
     hour_ns < ExpiresAt e ∧ hour_ns < first_seen x_Reason [] hour_ns e + maxExemption 0) ∧
  Holding (FreezesFor x_Reason [ex_window] (ex_target "checkout")) ≠ [].
Proof.
  assert (∀ x, x ∈ [(ex_window, hour_ns)] → Generation x.1 ≠ 0) as HG.
  { intros x ->%list_elem_of_singleton. discriminate. }
  pose proof (freeze_holds_iff x_Reason (λ _, None) 0 0 [(ex_window, hour_ns)] (ex_target "checkout") HG) as [H1 H2].
  split; [exact HG|]. split; [vm_compute; reflexivity|]. split.
  - apply (proj1 H1 ltac:(vm_compute; reflexivity) ex_window hour_ns); [left | discriminate | reflexivity.. ].
  - apply (H2 [ex_window] ex_window); [left | reflexivity | discriminate | reflexivity | reflexivity].
Defined.

(** Seen at 0:00, in effect an hour later, and for 24 hours at most. *)
Lemma exemption_capped_witness :
  (∀ x, x ∈ [(ex_window, 0); (ex_window, hour_ns)] → ex_exemption ∈ from_option Exemptions [] (w_Freeze x.1)) ∧
  ex_exemption ∈ s_Exemptions (reconcile_seq x_Reason (λ _, None) 0 ex_no_status [(ex_window, 0); (ex_window, hour_ns)]) ∧
  hour_ns < 0 + maxExemption 0.
Proof.
  assert (∀ x, x ∈ [(ex_window, 0); (ex_window, hour_ns)] → ex_exemption ∈ from_option Exemptions [] (w_Freeze x.1)) as HI.
  { intros x [-> | ->%list_elem_of_singleton]%elem_of_cons; simpl; left. }
  assert (ex_exemption ∈ s_Exemptions (reconcile_seq x_Reason (λ _, None) 0 ex_no_status
    ([(ex_window, 0)] ++ [(ex_window, hour_ns)]))) as HE by (vm_compute; left).
  split; [exact HI|]. split; [exact HE|].
  apply (exemption_capped x_Reason (λ _, None) 0 ex_exemption ex_no_status ex_window 0 [] ex_window hour_ns);
    [by intros r ?%elem_of_nil | exact HI | exact HE].
Defined.

End Freeze.
