(* ===== verification/Engine.v ===== *)
(** * Engine: running a promotion's steps

    Model of src/pkg/steps (engine.go, defaults.go, permanent.go, registry.go):
    the sequence of steps a promotion runs, and the engine that runs it,
    restarts it when the base branch moved, and stops on a pending or failed
    step.  The steps themselves (git, code hosts, files) are a parameter: a
    function of the world and of the outputs so far. *)

From stdpp Require Import base gmap strings list pretty.
From Stdlib Require Import Lia ZArith.
From S2P Require Import Prelude.

Module Engine.

(** ** Errors (permanent.go)

    A Go error with what [errors.Is] looks for: [Wrap] is [fmt.Errorf] with %w,
    [permanentError] the error [Permanent] makes. *)
Inductive go_error :=
  | Err (msg : string)
  | ErrContended
  | permanentError (e : go_error)
  | Wrap (prefix : string) (e : go_error).

Definition Permanent (e : option go_error) : option go_error := permanentError <$> e.

(** [errors.Is(err, ErrPermanent)] and [errors.Is(err, ErrContended)]. *)
Fixpoint IsPermanent (e : go_error) : bool :=
  match e with
  | Err _ | ErrContended => false
  | permanentError _ => true
  | Wrap _ e => IsPermanent e
  end.

Fixpoint IsContended (e : go_error) : bool :=
  match e with
  | Err _ => false
  | ErrContended => true
  | permanentError e | Wrap _ e => IsContended e
  end.

(** The text of an error. *)
Fixpoint Error (e : go_error) : string :=
  match e with
  | Err msg => msg
  | ErrContended => "contended"
  | permanentError e => Error e
  | Wrap prefix e => prefix +:+ ": " +:+ Error e
  end.

(** The verb %q, for text without characters that need escaping. *)
Definition quoted (s : string) : string :=
  let q := String (Ascii.ascii_of_nat 34) "" in q +:+ s +:+ q.

(** ** Results (step.go) *)

Inductive StepStatus := StepSuccess | StepFailed | StepPending | StepRestart | UnknownStatus (s : string).

#[export] Instance StepStatus_eq_dec : EqDecision StepStatus.
Proof. solve_decision. Defined.

Record StepResult := mkResult {
  Status : StepStatus;
  Message : string;
  Outputs : gmap string string;
  RequeueAfter : Z
}.

Record StepTiming := mkTiming { Started : Time; Finished : Time }.

(** ** Sequences (defaults.go) *)

Definition RenderStepName : string := "render".
Definition OpenPRStepName : string := "open-pr".

Definition RenderJobSequence (bundleType updateStrategy : string) : list string :=
  let seq := ["git-clone"] in
  let seq :=
    if negb (bool_decide (bundleType = "config")) then
      seq ++ [if bool_decide (updateStrategy = "helm") then "helm-set-image"
              else if bool_decide (updateStrategy = "yaml") then "yaml-update" else "kustomize-set-image"]
    else seq in
  seq ++ ["render-manifests"; "git-commit"; "git-push"].

Definition update_steps (bundleType updateStrategy : string) : list string :=
  let steps := if bool_decide (bundleType = "config") || bool_decide (bundleType = "mixed") then ["config-merge"] else [] in
  if bool_decide (bundleType = "config") then steps
  else if bool_decide (updateStrategy = "helm") || bool_decide (bundleType = "chart") then steps ++ ["helm-set-image"]
  else if bool_decide (updateStrategy = "yaml") then steps ++ ["yaml-update"]
  else steps ++ ["kustomize-set-image"].

Definition DefaultSequenceForBundle (approvalMode bundleType updateStrategy layout : string) : list string :=
  if bool_decide (updateStrategy = "argocd") then ["argocd-set-image"; "health-check"]
  else if bool_decide (layout = "branch") then
    let seq := [RenderStepName] in
    let seq := if bool_decide (approvalMode = "pr-review") then seq ++ [OpenPRStepName; "wait-for-merge"] else seq in
    seq ++ ["health-check"]
  else
    let base := ["git-clone"] ++ update_steps bundleType updateStrategy in
    let base := base ++ ["git-commit"; "git-push"] in
    let base := if bool_decide (approvalMode = "pr-review") then base ++ [OpenPRStepName; "wait-for-merge"] else base in
    base ++ ["health-check"].

(** ** The engine *)

Definition MaxSequenceRestarts : nat := 3.

Section engine.
(** The world the steps act on, its clock, and the registered steps.  A step
    gets its timeout in seconds, if it has one, and the outputs so far. *)
Context {World : Type}.
Variable now : World → Time.

Abbreviation Step := (option Z → gmap string string → World → StepResult * option go_error * World).

Variable registry : gmap string Step.

Definition Lookup (name : string) : Step + go_error :=
  if bool_decide (name = "") then inr (permanentError (Err "empty step name"))
  else match registry !! name with
       | Some s => inl s
       | None => inr (permanentError (Err ("unknown step " +:+ quoted name)))
       end.

Definition executeStep (s : Step) (StepTimeoutSeconds : Z) (outputs : gmap string string) (w : World) :
  StepResult * option go_error * World :=
  if StepTimeoutSeconds <=? 0 then s None outputs w else s (Some StepTimeoutSeconds) outputs w.

(** What one call of [ExecuteFrom] changes: the world, the accumulated outputs,
    the timings, the calls of [OnStepDone].  [ran] is a ghost: the steps that
    were executed, with their results, in order. *)
Record state := mkState {
  world : World;
  outs : gmap string string;
  timings : gmap nat StepTiming;
  done_calls : list (nat * string);
  ran : list (nat * StepResult * option go_error)
}.

Variable steps : list string.
Variable StepTimeoutSeconds : Z.

(** Running step [i]: its result, and the state with its timing. *)
Definition run_step (i : nat) (s : Step) (st : state) : StepResult * option go_error * state :=
  let '(result, err, w) := executeStep s StepTimeoutSeconds (outs st) (world st) in
  (result, err,
   mkState w (outs st) (<[i := mkTiming (now (world st)) (now w)]> (timings st)) (done_calls st)
     (ran st ++ [(i, result, err)])).

(** Outputs of a step override earlier ones. *)
Definition merge_outputs (result : StepResult) (st : state) : state :=
  mkState (world st) (Outputs result ∪ outs st) (timings st) (done_calls st) (ran st).

Definition on_step_done (i : nat) (name : string) (st : state) : state :=
  mkState (world st) (outs st) (timings st) (done_calls st ++ [(i, name)]) (ran st).

(** [fmt.Sprintf("%s (gave up after %d restarts in this reconcile)", ...)]. *)
Definition gave_up (result : StepResult) (restarts : nat) : StepResult :=
  mkResult StepFailed (Message result +:+ " (gave up after " +:+ pretty restarts +:+ " restarts in this reconcile)")
    (Outputs result) (RequeueAfter result).

Definition all_complete : StepResult := mkResult StepSuccess "all steps complete" ∅ 0.

(** What an iteration of the loop does: go on with a number of restarts and an
    index, or return. *)
Inductive next :=
  | Continue (restarts i : nat) (st : state)
  | Return (nextIndex : nat) (result : StepResult) (err : option go_error) (st : state).

(** The body of the loop at a step of the sequence. *)
Definition iteration (restarts i : nat) (name : string) (st : state) : next :=
  match Lookup name with
  | inr e => Return i (mkResult StepFailed (Error e) ∅ 0) (Some (Wrap ("step " +:+ pretty i +:+ " lookup") e)) st
  | inl s =>
      let '(result, err, st) := run_step i s st in
      match err with
      | Some e => Return i result (Some (Wrap ("step " +:+ name) e)) st
      | None =>
          let st := merge_outputs result st in
          match Status result with
          | StepPending => Return i result None st
          | StepFailed => Return i result (Some (Err ("step " +:+ name +:+ ": " +:+ Message result))) st
          | StepRestart =>
              if (MaxSequenceRestarts <=? restarts)%nat then
                let result := gave_up result restarts in
                Return i result (Some (Wrap ("step " +:+ name +:+ ": " +:+ Message result) ErrContended)) st
              else Continue (S restarts) 0 st
          | StepSuccess => Continue restarts (S i) (on_step_done i name st)
          | UnknownStatus s =>
              Return i result (Some (Err ("step " +:+ name +:+ ": unknown status " +:+ quoted s))) st
          end
      end
  end.

(** The loop; [None] is running out of fuel. *)
Fixpoint exec_loop (fuel restarts i : nat) (st : state) : option (nat * StepResult * option go_error * state) :=
  match fuel with
  | 0%nat => None
  | S fuel =>
      match steps !! i with
      | None => Some (length steps, all_complete, None, st)
      | Some name =>
          match iteration restarts i name st with
          | Continue restarts i st => exec_loop fuel restarts i st
          | Return n result err st => Some (n, result, err, st)
          end
      end
  end.

(** Enough for every run: each restart costs one pass over the sequence. *)
Definition engine_fuel : nat := S MaxSequenceRestarts * S (length steps).

Definition ExecuteFrom (startIndex : nat) (w : World) (outputs : gmap string string) :
  option (nat * StepResult * option go_error * state) :=
  exec_loop engine_fuel 0 startIndex (mkState w outputs ∅ [] []).

(** ** Reasoning about the loop *)

(** An iteration that goes on ran a step: with success, or with a restart. *)
Lemma iteration_Continue r i name st r' i' st' :
  iteration r i name st = Continue r' i' st' →
  ∃ res, ran st' = ran st ++ [(i, res, None)] ∧ outs st' = Outputs res ∪ outs st ∧
    ((Status res = StepSuccess ∧ r' = r ∧ i' = S i ∧ done_calls st' = done_calls st ++ [(i, name)]) ∨
     (Status res = StepRestart ∧ (r < MaxSequenceRestarts)%nat ∧ r' = S r ∧ i' = 0%nat ∧ done_calls st' = done_calls st)).
Proof.
  unfold iteration, run_step. destruct (Lookup name) as [s|]; [|done].
  destruct (executeStep _ _ _ _) as [[res err] w]. destruct err as [e|]; [done|].
  destruct (Status res) eqn:E; try done.
  - intros [= <- <- <-]. exists res. simpl. split_and!; [done..|]. by left.
  - destruct (Nat.leb_spec MaxSequenceRestarts r) as [|Hlt]; [done|]. intros [= <- <- <-]. exists res. simpl.
    split_and!; [done..|]. right. done.
Qed.

(** The restarts of a run. *)
Definition restarted (x : nat * StepResult * option go_error) : Prop :=
  x.2 = None ∧ Status x.1.2 = StepRestart.

#[export] Instance restarted_dec x : Decision (restarted x).
Proof. unfold restarted. apply _. Defined.

(** How an iteration returns: what it says of the step it ran. *)
Inductive returned (r n : nat) (st0 st : state) : StepResult → option go_error → Prop :=
  | ret_lookup name le res :
      steps !! n = Some name → Lookup name = inr le → ran st = ran st0 → Status res = StepFailed →
      returned r n st0 st res (Some (Wrap ("step " +:+ pretty n +:+ " lookup") le))
  | ret_error name res e :
      ran st = ran st0 ++ [(n, res, Some e)] → returned r n st0 st res (Some (Wrap ("step " +:+ name) e))
  | ret_failed msg res :
      ran st = ran st0 ++ [(n, res, None)] → Status res ∉ [StepSuccess; StepPending; StepRestart] →
      returned r n st0 st res (Some (Err msg))
  | ret_contended prefix rr res :
      ran st = ran st0 ++ [(n, rr, None)] → Status rr = StepRestart → Status res = StepFailed →
      (MaxSequenceRestarts ≤ r)%nat → returned r n st0 st res (Some (Wrap prefix ErrContended))
  | ret_pending res :
      ran st = ran st0 ++ [(n, res, None)] → Status res = StepPending → returned r n st0 st res None.

Lemma iteration_Return r i name st n res err st' :
  steps !! i = Some name → iteration r i name st = Return n res err st' →
  n = i ∧ returned r n st st' res err ∧ done_calls st' = done_calls st.
Proof.
  intros Hi. unfold iteration, run_step. destruct (Lookup name) as [s|le] eqn:El.
  2:{ intros [= <- <- <- <-]. split_and!; [done|by eapply ret_lookup|done]. }
  destruct (executeStep _ _ _ _) as [[r0 err0] w]. destruct err0 as [e|].
  { intros [= <- <- <- <-]. split_and!; [done|by apply ret_error|done]. }
  destruct (Status r0) eqn:E; try done.
  - intros [= <- <- <- <-]. split_and!; [done|apply ret_failed; [done|rewrite E; set_solver]|done].
  - intros [= <- <- <- <-]. split_and!; [done|by apply ret_pending|done].
  - destruct (Nat.leb_spec MaxSequenceRestarts r) as [Hle|]; [|done].
    intros [= <- <- <- <-]. split_and!; [done|by eapply ret_contended|done].
  - intros [= <- <- <- <-]. split_and!; [done|apply ret_failed; [done|rewrite E; set_solver]|done].
Qed.

Lemma returned_ran r n st0 st res err :
  returned r n st0 st res err → ∃ l, ran st = ran st0 ++ l ∧ (length l ≤ 1)%nat.
Proof.
  destruct 1; [exists []; rewrite app_nil_r; split; [done|simpl; lia]|eexists; split; [eassumption|simpl; lia]..].
Qed.

(** A rule for the loop: an invariant kept by the iterations that go on. *)
Lemma exec_loop_rule (I : nat → nat → state → Prop) fuel r i st out :
  (∀ r i name st r' i' st', I r i st → steps !! i = Some name →
     iteration r i name st = Continue r' i' st' → I r' i' st') →
  I r i st → exec_loop fuel r i st = Some out →
  ∃ r i st, I r i st ∧
    ((steps !! i = None ∧ out = (length steps, all_complete, None, st)) ∨
     ∃ name n res err st', steps !! i = Some name ∧ iteration r i name st = Return n res err st' ∧
       out = (n, res, err, st')).
Proof.
  intros HI. revert r i st. induction fuel as [|fuel IH]; intros r i st Hr; simpl; [done|].
  destruct (steps !! i) as [name|] eqn:Ei.
  - destruct (iteration r i name st) as [r' i' st'|n res err st'] eqn:Et.
    + apply IH. by eapply HI.
    + intros [= <-]. exists r, i, st. split; [done|]. right. by exists name, n, res, err, st'.
  - intros [= <-]. exists r, i, st. split; [done|]. by left.
Qed.

(** The loop returns when the fuel is the work that may remain. *)
Lemma exec_loop_returns fuel r i st :
  ((length steps - i) + (MaxSequenceRestarts - r) * S (length steps) < fuel)%nat →
  is_Some (exec_loop fuel r i st).
Proof.
  revert r i st. induction fuel as [|fuel IH]; intros r i st Hf; [by apply Nat.nlt_0_r in Hf|]. simpl.
  destruct (steps !! i) as [name|] eqn:Ei; [|done]. apply lookup_lt_Some in Ei.
  destruct (iteration r i name st) as [r' i' st'|] eqn:Et; [|done]. apply IH.
  apply iteration_Continue in Et as (res & _ & _ & [(_ & -> & -> & _)|(_ & Hr & -> & -> & _)]); [lia|].
  replace (MaxSequenceRestarts - r)%nat with (S (MaxSequenceRestarts - S r))%nat in Hf by lia. lia.
Qed.

Lemma ExecuteFrom_returns start w outputs : is_Some (ExecuteFrom start w outputs).
Proof. apply exec_loop_returns. unfold engine_fuel, MaxSequenceRestarts. lia. Qed.

(** The last pass: the steps from [s] to before [n], each successful. *)
Definition clean_pass (s n : nat) (l : list (nat * StepResult * option go_error)) : Prop :=
  (s ≤ n)%nat ∧ length l = (n - s)%nat ∧
  ∀ k x, l !! k = Some x → x.1.1 = (s + k)%nat ∧ x.2 = None ∧ Status x.1.2 = StepSuccess.

Lemma clean_pass_snoc s n l res :
  clean_pass s n l → Status res = StepSuccess → clean_pass s (S n) (l ++ [(n, res, None)]).
Proof.
  intros (Hs & Hl & Hc) Hr. split_and!; [lia|rewrite length_app; simpl; lia|].
  intros k x Hx. apply lookup_app_Some in Hx as [Hx|[Hk Hx]]; [auto|].
  apply list_lookup_singleton_Some in Hx as [Hk' <-]. simpl. split_and!; [lia|done..].
Qed.

(** What the loop keeps: the steps it ran are earlier attempts, each ended by a
    restart, then a clean pass; there were as many restarts as it counts, and
    each of them cost at most one pass. *)
Definition loop_inv (start r i : nat) (st : state) : Prop :=
  ∃ pre pass s, ran st = pre ++ pass ∧ clean_pass s i pass ∧
    (pre = [] ∧ s = start ∨ s = 0%nat ∧ ∃ j rr, last pre = Some (j, rr, None) ∧ Status rr = StepRestart) ∧
    length (filter restarted (ran st)) = r ∧ (r ≤ MaxSequenceRestarts)%nat ∧ (i ≤ length steps)%nat ∧
    (length (ran st) ≤ i + r * length steps)%nat.

Lemma iteration_inv start r i name st r' i' st' :
  loop_inv start r i st → steps !! i = Some name → iteration r i name st = Continue r' i' st' →
  loop_inv start r' i' st'.
Proof.
  intros (pre & pass & s & Hran & Hp & Hs & Hr & Hmax & Hi & Hlen) Ei Et.
  apply lookup_lt_Some in Ei.
  apply iteration_Continue in Et as (res & Hran' & _ & [(Hres & -> & -> & _)|(Hres & Hlt & -> & -> & _)]);
    unfold loop_inv; rewrite Hran', filter_app, !length_app, Hr; simpl.
  - exists pre, (pass ++ [(i, res, None)]), s. rewrite Hran, app_assoc. split_and!; [done|by apply clean_pass_snoc|done|..].
    + rewrite filter_cons_False by (unfold restarted; simpl; rewrite Hres; naive_solver). simpl. lia.
    + done.
    + lia.
    + rewrite <-Hran. lia.
  - exists (ran st ++ [(i, res, None)]), [], 0%nat. rewrite app_nil_r. split_and!; [done|done|..].
    + right. split; [done|]. exists i, res. by rewrite last_snoc.
    + rewrite filter_cons_True by done. simpl. lia.
    + lia.
    + lia.
    + lia.
Qed.

Lemma ExecuteFrom_inv start w outputs out :
  (start ≤ length steps)%nat → ExecuteFrom start w outputs = Some out →
  ∃ r i st, loop_inv start r i st ∧
    ((steps !! i = None ∧ out = (length steps, all_complete, None, st)) ∨
     ∃ name n res err st', steps !! i = Some name ∧ iteration r i name st = Return n res err st' ∧
       out = (n, res, err, st')).
Proof.
  intros Hs. apply (exec_loop_rule (loop_inv start)); [intros; by eapply iteration_inv|].
  exists [], [], start. unfold clean_pass, MaxSequenceRestarts. simpl.
  split_and!; first [done | by left | lia].
Qed.

(** What a run without an error means: either every step of the sequence is
    done, or the returned index is a step that is still pending.  The steps
    before it succeeded in order, in one pass from where the engine started or,
    after a restart, from the first step. *)
Theorem engine_clean_pass start w outputs n res st :
  (start ≤ length steps)%nat → ExecuteFrom start w outputs = Some (n, res, None, st) →
  ∃ pre pass s,
    clean_pass s n pass ∧
    (pre = [] ∧ s = start ∨ s = 0%nat ∧ ∃ j rr, last pre = Some (j, rr, None) ∧ Status rr = StepRestart) ∧
    (n = length steps ∧ Status res = StepSuccess ∧ ran st = pre ++ pass ∨
     (n < length steps)%nat ∧ Status res = StepPending ∧ ran st = pre ++ pass ++ [(n, res, None)]).
Proof.
  intros Hs H. destruct (ExecuteFrom_inv _ _ _ _ Hs H)
    as (r & i & st0 & (pre & pass & s & Hran & Hp & Hst & _ & _ & Hi & _) & [[Ei Ho]|(name & n' & res' & err & st' & Ei & Et & Ho)]);
    [injection Ho as -> -> ->|injection Ho as <- <- <- <-].
  - apply lookup_ge_None in Ei. assert (i = length steps) as -> by lia.
    exists pre, pass, s. split_and!; [done..|]. by left.
  - destruct (iteration_Return _ _ _ _ _ _ _ _ Ei Et) as (-> & Hret & _). apply lookup_lt_Some in Ei.
    exists pre, pass, s. split_and!; [done..|]. right.
    inversion Hret as [| | | |? Hr Hp']; subst. split_and!; [done..|]. by rewrite Hr, Hran, app_assoc.
Qed.

(** C38. Every call returns, after at most four passes over the sequence, and with
    an index of the sequence or its end. *)
Theorem engine_terminates start w outputs :
  (start ≤ length steps)%nat →
  ∃ n res err st, ExecuteFrom start w outputs = Some (n, res, err, st) ∧ (n ≤ length steps)%nat ∧
    (length (ran st) ≤ S MaxSequenceRestarts * length steps)%nat ∧
    (length (filter restarted (ran st)) ≤ S MaxSequenceRestarts)%nat.
Proof.
  intros Hs. destruct (ExecuteFrom_returns start w outputs) as [[[[n res] err] st] H].
  exists n, res, err, st. split; [done|].
  destruct (ExecuteFrom_inv _ _ _ _ Hs H)
    as (r & i & st0 & (pre & pass & s & Hran & Hp & Hst & Hr & Hmax & Hi & Hlen) & [[Ei Ho]|(name & n' & res' & err' & st' & Ei & Et & Ho)]);
    [injection Ho as -> -> -> ->|injection Ho as <- <- <- <-].
  - unfold MaxSequenceRestarts in *. split_and!; nia.
  - destruct (iteration_Return _ _ _ _ _ _ _ _ Ei Et) as (-> & Hret & _). apply lookup_lt_Some in Ei.
    assert (∃ l, ran st = ran st0 ++ l ∧ (length l ≤ 1)%nat) as (l & -> & Hl).
    { by eapply returned_ran. }
    rewrite filter_app, !length_app. pose proof (length_filter restarted l).
    unfold MaxSequenceRestarts in *. split_and!; nia.
Qed.

(** What an error of the engine means.  It names the step it stopped at, and
    is one of four: the step is not registered (permanent); the step's own
    error, as permanent or contended as the step made it; a failed or unknown
    status (neither); or a fourth restart, reported as failed and contended,
    so that the step is retried. *)
Theorem engine_errors start w outputs n res e st :
  (start ≤ length steps)%nat → ExecuteFrom start w outputs = Some (n, res, Some e, st) →
  (n < length steps)%nat ∧
  ((∃ name le, steps !! n = Some name ∧ Lookup name = inr le ∧ Status res = StepFailed ∧
      IsPermanent e = true ∧ IsContended e = false) ∨
   (∃ e', last (ran st) = Some (n, res, Some e') ∧ IsPermanent e = IsPermanent e' ∧ IsContended e = IsContended e') ∨
   (last (ran st) = Some (n, res, None) ∧ (Status res ∉ [StepSuccess; StepPending; StepRestart]) ∧
      IsPermanent e = false ∧ IsContended e = false) ∨
   (Status res = StepFailed ∧ IsPermanent e = false ∧ IsContended e = true ∧
      length (filter restarted (ran st)) = S MaxSequenceRestarts)).
Proof.
  intros Hs H.
  destruct (ExecuteFrom_inv _ _ _ _ Hs H)
    as (r & i & st0 & (pre & pass & s & Hran & Hp & Hst & Hr & Hmax & Hi & Hlen) & [[Ei Ho]|(name & n' & res' & err' & st' & Ei & Et & Ho)]);
    [done|injection Ho as <- <- <- <-].
  destruct (iteration_Return _ _ _ _ _ _ _ _ Ei Et) as (-> & Hret & _). split; [by apply lookup_lt_Some in Ei|].
  inversion Hret as [nm le ? Hn Hlk Hrn Hf|? ? e' Hrn|? ? Hrn Hns|? rr ? Hrn Hre Hf Hm|]; subst.
  - left. exists nm, le. split_and!; try done; unfold Lookup in Hlk; repeat case_match; by simplify_eq.
  - right; left. exists e'. by rewrite Hrn, last_snoc.
  - do 2 right; left. by rewrite Hrn, last_snoc.
  - do 3 right. split_and!; try done. rewrite Hrn, filter_app, length_app, filter_cons_True by done. simpl. lia.
Qed.

End engine.

(** ** A sequence whose push meets a moved branch once *)

Definition ok : StepResult := mkResult StepSuccess "" ∅ 0.

(** The world counts the pushes; the first one asks for a restart. *)
Definition demo_steps : gmap string (option Z → gmap string string → nat → StepResult * option go_error * nat) :=
  <["git-clone" := (λ _ _ w, (ok, None, w))]>
  (<["git-push" := (λ _ _ w, ((if decide (w = 0%nat) then mkResult StepRestart "base moved" ∅ 0 else ok), None, S w))]> ∅).

Abbreviation demo_run := (ExecuteFrom (λ _ : nat, 0) demo_steps ["git-clone"; "git-push"] 0 0%nat 0%nat ∅).

Lemma engine_clean_pass_witness :
  ∃ st, demo_run = Some (2%nat, all_complete, None, st) ∧ length (ran st) = 4%nat ∧
    ∃ pass s, clean_pass s 2 pass.
Proof.
  eexists. split; [vm_compute; reflexivity|]. split; [reflexivity|].
  destruct (engine_clean_pass (λ _ : nat, 0) demo_steps ["git-clone"; "git-push"] 0 0%nat 0%nat ∅ 2%nat all_complete
    _ ltac:(simpl; lia) ltac:(vm_compute; reflexivity)) as (pre & pass & s & Hc & _).
  exists pass, s. exact Hc.
Defined.

Lemma engine_terminates_witness :
  ∃ n res err st, demo_run = Some (n, res, err, st) ∧ (n ≤ 2)%nat.
Proof.
  destruct (engine_terminates (λ _ : nat, 0) demo_steps ["git-clone"; "git-push"] 0 0%nat 0%nat ∅ ltac:(simpl; lia))
    as (n & res & err & st & H1 & H2 & _).
  exists n, res, err, st. split; assumption.
Defined.

(** A push that never lands is contended after the third restart. *)
Definition moved_steps : gmap string (option Z → gmap string string → nat → StepResult * option go_error * nat) :=
  {["git-push" := (λ _ _ w, (mkResult StepRestart "base moved" ∅ 0, None, S w))]}.

Lemma engine_errors_witness :
  ∃ res e st, ExecuteFrom (λ _ : nat, 0) moved_steps ["git-push"] 0 0%nat 0%nat ∅ = Some (0%nat, res, Some e, st) ∧
    IsContended e = true ∧ world st = 4%nat ∧ (0 < 1)%nat.
Proof.
  do 3 eexists. split; [vm_compute; reflexivity|]. split; [reflexivity|]. split; [reflexivity|].
  eapply (engine_errors (λ _ : nat, 0) moved_steps ["git-push"] 0 0%nat 0%nat ∅ 0%nat);
    [simpl; lia|vm_compute; reflexivity].
Defined.

(** ** The sequences *)

(** Every default sequence ends with the health check and repeats no step; it
    opens a pull request exactly under pr-review on a git path, and then ends by
    opening it, waiting for its merge and checking health; one that pushes clones
    first and commits right before the push. *)
Theorem DefaultSequence_shape approvalMode bundleType updateStrategy layout :
  let seq := DefaultSequenceForBundle approvalMode bundleType updateStrategy layout in
  last seq = Some "health-check" ∧ NoDup seq ∧
  (OpenPRStepName ∈ seq ↔ approvalMode = "pr-review" ∧ updateStrategy ≠ "argocd") ∧
  (OpenPRStepName ∈ seq → ∃ pre, seq = pre ++ [OpenPRStepName; "wait-for-merge"; "health-check"]) ∧
  ("git-push" ∈ seq → ∃ mid rest, seq = ["git-clone"] ++ mid ++ ["git-commit"; "git-push"] ++ rest).
Proof.
  unfold DefaultSequenceForBundle, update_steps.
  repeat case_bool_decide; simplify_eq; simpl;
    (split_and!;
     [done|compute_done|
      split; [intros Hin; first [done | exfalso; revert Hin; compute_done]|intros [? ?]; first [done | compute_done]]|
      intros Hin; first [by eexists [] | by eexists [_] | by eexists [_; _; _; _] | by eexists [_; _; _; _; _] |
                         by eexists [_; _; _] | exfalso; revert Hin; compute_done]|
      intros Hin; first [by eexists [], _ | by eexists [_], _ | by eexists [_; _], _ | exfalso; revert Hin; compute_done]]).
Qed.

End Engine.
