(* ===== verification/StepStatus.v ===== *)
(** * StepStatus: the record of a promotion's steps

    Model of the entries of status.steps in
    src/pkg/reconciler/promotionstep: [initStepStatuses], [updateStepStatuses],
    [closeStep] and the readers of the entries (reconciler.go),
    [closeStepStatuses] (transition.go).  The step engine's timings come from
    [Engine]; the entries are closed by it while it runs and by the state
    machine of [Promotion] afterwards. *)

From stdpp Require Import base gmap strings list.
From Stdlib Require Import Lia ZArith.
From S2P Require Import Prelude Engine.
Import Engine.Engine.

Module StepStatus.

(** The states of a PromotionStep.  [StatePending] is the empty string,
    [StateOther] a string the reconciler does not know. *)
Inductive State :=
  | StatePending | StatePendingExplicit | StatePromoting | StateWaitingForMerge | StateHealthChecking
  | StateVerifying | StateVerified | StateFailed | StateAbortedByAlarm | StateRollingBack | StateSuperseded
  | StateOther (s : string).

#[export] Instance State_eq_dec : EqDecision State.
Proof. solve_decision. Defined.

Inductive StepExecutionState :=
  | StepExecutionPending | StepExecutionInProgress | StepExecutionCompleted | StepExecutionFailed.

#[export] Instance StepExecutionState_eq_dec : EqDecision StepExecutionState.
Proof. solve_decision. Defined.

Record StepStatus := mkStep {
  s_Name : string;
  s_State : StepExecutionState;
  StartedAt : option Time;
  CompletedAt : option Time;
  DurationMs : Z;
  s_Message : string
}.

#[export] Instance StepStatus_eq_dec : EqDecision StepStatus.
Proof. solve_decision. Defined.

Record stepObservation := mkObs { step : string; duration : Z }.

Definition healthCheckStep : string := "health-check".

Definition initStepStatuses (seq : list string) : list StepStatus :=
  (λ name, mkStep name StepExecutionPending None None 0 "") <$> seq.

Definition recordedSequence (ss : list StepStatus) : list string := s_Name <$> ss.

(** [time.Time.IsZero]. *)
Definition IsZero (t : Time) : bool := t =? zeroTime.

Definition closeStep (s : StepStatus) (state : StepExecutionState) (started finished : Time) (observe : bool) :
  StepStatus * list stepObservation :=
  let known := bool_decide (is_Some (StartedAt s)) || negb (IsZero started) in
  let start := match StartedAt s with
               | Some t => t
               | None => if IsZero started then finished else started
               end in
  let d := Z.max (sub_time finished start) 0 in
  (mkStep (s_Name s) state (Some start) (Some finished) (Z.quot d millisecond) (s_Message s),
   if observe && known then [mkObs (s_Name s) d] else []).

Definition with_message (msg : string) (s : StepStatus) : StepStatus :=
  mkStep (s_Name s) (s_State s) (StartedAt s) (CompletedAt s) (DurationMs s) msg.

Section update.
Variable now : Time.
Variable currentIdx : Z.
Variable failed : bool.
Variable failMessage : string.
Variable timings : gmap nat StepTiming.

(** The closure [finish]. *)
Definition finish (i : nat) (s : StepStatus) (state : StepExecutionState) : StepStatus * list stepObservation :=
  let '(started, finished) :=
    match timings !! i with
    | Some t => (Started t, Finished t)
    | None => (zeroTime, from_option id now (CompletedAt s))
    end in
  closeStep s state started finished (negb (bool_decide (s_Name s = healthCheckStep))).

(** The body of the loop at entry [i]. *)
Definition update_entry (i : nat) (s : StepStatus) : StepStatus * list stepObservation :=
  if Z.of_nat i <? currentIdx then
    if negb (bool_decide (s_State s = StepExecutionCompleted)) then finish i s StepExecutionCompleted else (s, [])
  else if (Z.of_nat i =? currentIdx) && failed then
    if negb (bool_decide (s_State s = StepExecutionFailed)) then
      let '(s, o) := finish i s StepExecutionFailed in (with_message failMessage s, o)
    else (s, [])
  else if Z.of_nat i =? currentIdx then
    if bool_decide (s_State s = StepExecutionPending) then
      let started := from_option Started zeroTime (timings !! i) in
      let started := if IsZero started then now else started in
      (mkStep (s_Name s) StepExecutionInProgress (Some started) (CompletedAt s) (DurationMs s) (s_Message s), [])
    else (s, [])
  else (s, []).

Definition updateStepStatuses (ss : list StepStatus) (stepNames : list string) :
  list StepStatus * list stepObservation :=
  let ss := if bool_decide (ss = []) then initStepStatuses stepNames else ss in
  let r := imap update_entry ss in
  (fst <$> r, mjoin (snd <$> r)).
End update.

(** The closure [complete] of [closeStepStatuses]. *)
Definition complete (now : Time) (s : StepStatus) : StepStatus * list stepObservation :=
  if negb (bool_decide (s_State s = StepExecutionCompleted)) then closeStep s StepExecutionCompleted zeroTime now true
  else (s, []).

(** The loop of entering HealthChecking. *)
Fixpoint close_before_health (now : Time) (ss : list StepStatus) : list StepStatus * list stepObservation :=
  match ss with
  | [] => ([], [])
  | s :: ss =>
      if bool_decide (s_Name s = healthCheckStep) then
        (if negb (bool_decide (s_State s = StepExecutionInProgress)) then
           mkStep (s_Name s) StepExecutionInProgress (Some now) None 0 (s_Message s) :: ss
         else s :: ss, [])
      else
        let '(s, o) := complete now s in
        let '(ss, os) := close_before_health now ss in
        (s :: ss, o ++ os)
  end.

(** The loop of entering a failure state. *)
Fixpoint fail_first_open (now : Time) (msg : string) (ss : list StepStatus) : list StepStatus * list stepObservation :=
  match ss with
  | [] => ([], [])
  | s :: ss =>
      match s_State s with
      | StepExecutionFailed => (s :: ss, [])
      | StepExecutionCompleted => let '(ss, o) := fail_first_open now msg ss in (s :: ss, o)
      | _ => let '(s, o) := closeStep s StepExecutionFailed zeroTime now true in (with_message msg s :: ss, o)
      end
  end.

(** [msg] is the status message the step has been given. *)
Definition closeStepStatuses (now : Time) (msg : string) (state : State) (ss : list StepStatus) :
  list StepStatus * list stepObservation :=
  match state with
  | StateHealthChecking => close_before_health now ss
  | StateVerifying | StateVerified => let r := complete now <$> ss in (fst <$> r, mjoin (snd <$> r))
  | StateFailed | StateAbortedByAlarm | StateRollingBack | StateSuperseded => fail_first_open now msg ss
  | _ => (ss, [])
  end.

(** ** Readers of the entries *)

Definition prOpenedAt (ss : list StepStatus) : option Time :=
  match list_find (λ s, s_Name s = OpenPRStepName ∧ is_Some (CompletedAt s)) ss with
  | Some (_, s) => CompletedAt s
  | None =>
      match list_find (λ s, s_Name s = "wait-for-merge" ∧ is_Some (StartedAt s)) ss with
      | Some (_, s) => StartedAt s
      | None => None
      end
  end.

Definition started_of (name : string) (ss : list StepStatus) : Time :=
  match list_find (λ s, s_Name s = name ∧ is_Some (StartedAt s)) ss with
  | Some (_, s) => from_option id zeroTime (StartedAt s)
  | None => zeroTime
  end.

Definition healthCheckStart (outputs : gmap string string) (ss : list StepStatus) : Time :=
  if bool_decide (outputs !! "noChanges" = Some "true") then zeroTime else started_of "health-check" ss.

Definition changeReachedGitAfter (outputs : gmap string string) (ss : list StepStatus) : Time :=
  if bool_decide (outputs !! "noChanges" = Some "true") then zeroTime
  else match prOpenedAt ss with
       | Some t => t
       | None => started_of "git-push" ss
       end.

(** ** What the entries always say *)

(** A closed entry has both times and their duration; a running one has a start
    and no end; a pending one has neither. *)
Definition entry_ok (s : StepStatus) : Prop :=
  match s_State s with
  | StepExecutionPending => StartedAt s = None ∧ CompletedAt s = None ∧ DurationMs s = 0
  | StepExecutionInProgress => is_Some (StartedAt s) ∧ CompletedAt s = None ∧ DurationMs s = 0
  | StepExecutionCompleted | StepExecutionFailed =>
      ∃ t0 t1, StartedAt s = Some t0 ∧ CompletedAt s = Some t1 ∧
        DurationMs s = Z.quot (Z.max (sub_time t1 t0) 0) millisecond
  end.

(** The entry is closed. *)
Definition closed (s : StepStatus) : Prop :=
  s_State s = StepExecutionCompleted ∨ s_State s = StepExecutionFailed.

(** One entry rewritten, with what is observed of it: the name stays, the entry
    stays well formed, and it is observed at most once, when this rewriting
    closed it. *)
Definition rewrites (s s' : StepStatus) (o : list stepObservation) : Prop :=
  s_Name s' = s_Name s ∧ (entry_ok s → entry_ok s') ∧
  (o = [] ∨ ∃ d, o = [mkObs (s_Name s) d] ∧ 0 ≤ d ∧ closed s' ∧ s_State s' ≠ s_State s).

Lemma rewrites_refl s : rewrites s s [].
Proof. split_and!; auto. Qed.

Lemma closeStep_rewrites s state started finished observe msg :
  state = StepExecutionCompleted ∨ state = StepExecutionFailed → s_State s ≠ state →
  rewrites s (closeStep s state started finished observe).1 (closeStep s state started finished observe).2 ∧
  rewrites s (with_message msg (closeStep s state started finished observe).1) (closeStep s state started finished observe).2.
Proof.
  intros Hst Hne. unfold closeStep, rewrites, closed, entry_ok. simpl.
  split; (split_and!; [done|destruct Hst as [-> | ->]; eauto|]);
    (destruct (observe && _); [right; eexists; split_and!; [done|lia|done|done]|by left]).
Qed.

Lemma finish_rewrites now timings i s state msg :
  state = StepExecutionCompleted ∨ state = StepExecutionFailed → s_State s ≠ state →
  rewrites s (finish now timings i s state).1 (finish now timings i s state).2 ∧
  rewrites s (with_message msg (finish now timings i s state).1) (finish now timings i s state).2.
Proof. intros. unfold finish. destruct (timings !! i); by apply closeStep_rewrites. Qed.

Lemma update_entry_rewrites now idx failed msg timings i s :
  rewrites s (update_entry now idx failed msg timings i s).1 (update_entry now idx failed msg timings i s).2.
Proof.
  unfold update_entry.
  destruct (_ <? _); [case_bool_decide; [apply rewrites_refl|by apply (finish_rewrites _ _ _ _ _ ""); [left|]]|].
  destruct (_ && _).
  { case_bool_decide; [apply rewrites_refl|]. destruct (finish _ _ _ _ _) as [s' o] eqn:E.
    destruct (finish_rewrites now timings i s StepExecutionFailed msg) as [_ Hfin]; [by right|done|]. by rewrite E in Hfin. }
  destruct (_ =? _); [|apply rewrites_refl]. case_bool_decide as Hp; [|apply rewrites_refl].
  split_and!; [done| |by left]. unfold entry_ok. simpl. rewrite Hp. naive_solver.
Qed.

Lemma complete_rewrites now s : rewrites s (complete now s).1 (complete now s).2.
Proof. unfold complete. case_bool_decide; [apply rewrites_refl|apply (closeStep_rewrites _ _ _ _ _ ""); auto]. Qed.

(** A list of entries rewritten, each with its own observations, in order. *)
Definition rewrites_all (ss ss' : list StepStatus) (os : list stepObservation) : Prop :=
  ∃ oss, os = mjoin oss ∧ Forall3 rewrites ss ss' oss.

Lemma rewrites_all_refl ss : rewrites_all ss ss [].
Proof.
  exists ((λ _, []) <$> ss). split; [by induction ss|]. induction ss; constructor; auto using rewrites_refl.
Qed.

Lemma rewrites_all_cons s s' o ss ss' os :
  rewrites s s' o → rewrites_all ss ss' os → rewrites_all (s :: ss) (s' :: ss') (o ++ os).
Proof. intros H (oss & -> & Hf). exists (o :: oss). split; [done|by constructor]. Qed.

Lemma rewrites_all_imap (f : nat → StepStatus → StepStatus * list stepObservation) ss :
  (∀ i s, rewrites s (f i s).1 (f i s).2) → rewrites_all ss (fst <$> imap f ss) (mjoin (snd <$> imap f ss)).
Proof.
  revert f. induction ss as [|s ss IH]; intros f Hf; simpl; [apply rewrites_all_refl|].
  apply rewrites_all_cons; [done|]. apply (IH (f ∘ S)). intros. apply Hf.
Qed.

Lemma closeStepStatuses_rewrites now msg state ss :
  rewrites_all ss (closeStepStatuses now msg state ss).1 (closeStepStatuses now msg state ss).2.
Proof.
  assert (rewrites_all ss (close_before_health now ss).1 (close_before_health now ss).2) as Hh.
  { induction ss as [|s ss IH]; simpl; [apply rewrites_all_refl|]. case_bool_decide.
    - simpl. case_bool_decide; simpl; [apply rewrites_all_refl|].
      apply (rewrites_all_cons _ _ []); [|apply rewrites_all_refl]. split_and!; [done| |by left].
      unfold entry_ok. simpl. eauto.
    - pose proof (complete_rewrites now s). destruct (complete now s), (close_before_health now ss).
      by apply rewrites_all_cons. }
  assert (rewrites_all ss (fail_first_open now msg ss).1 (fail_first_open now msg ss).2) as Hf.
  { clear Hh. induction ss as [|s ss IH]; simpl; [apply rewrites_all_refl|].
    assert (s_State s ≠ StepExecutionFailed → rewrites_all (s :: ss)
      (with_message msg (closeStep s StepExecutionFailed zeroTime now true).1 :: ss)
      (closeStep s StepExecutionFailed zeroTime now true).2) as Hc.
    { intros Hne. rewrite <-(app_nil_r (closeStep _ _ _ _ _).2).
      apply rewrites_all_cons; [|apply rewrites_all_refl]. apply closeStep_rewrites; auto. }
    destruct (s_State s) eqn:E; simpl; [by apply Hc|by apply Hc| |apply rewrites_all_refl].
    destruct (fail_first_open now msg ss). apply (rewrites_all_cons _ _ []); [apply rewrites_refl|done]. }
  destruct state; simpl; try apply rewrites_all_refl; try done;
    rewrite <-(imap_const (complete now) ss); apply rewrites_all_imap; intros; apply complete_rewrites.
Qed.

Lemma updateStepStatuses_rewrites now idx failed msg timings ss names :
  ss ≠ [] → rewrites_all ss (updateStepStatuses now idx failed msg timings ss names).1
                             (updateStepStatuses now idx failed msg timings ss names).2.
Proof.
  intros Hne. unfold updateStepStatuses. rewrite bool_decide_false by done. simpl.
  apply rewrites_all_imap. intros. apply update_entry_rewrites.
Qed.

Lemma rewrites_all_ok ss ss' os :
  rewrites_all ss ss' os → s_Name <$> ss' = s_Name <$> ss ∧ (Forall entry_ok ss → Forall entry_ok ss').
Proof.
  intros (oss & -> & Hf). induction Hf as [|s s' o ss ss' oss (Hn & Hok & _) Hf [IHn IHok]]; [done|].
  split; [by rewrite !fmap_cons, Hn, IHn|]. rewrite !Forall_cons. naive_solver.
Qed.

Lemma rewrites_all_observed ss ss' os x :
  rewrites_all ss ss' os → x ∈ os →
  0 ≤ duration x ∧ ∃ i s s', ss !! i = Some s ∧ ss' !! i = Some s' ∧ step x = s_Name s ∧
    closed s' ∧ s_State s' ≠ s_State s.
Proof.
  intros (oss & -> & Hf) Hx. induction Hf as [|s s' o ss ss' oss (_ & _ & Ho) Hf IH]; simpl in Hx; [set_solver|].
  apply elem_of_app in Hx as [Hx|Hx].
  - destruct Ho as [->|(d & -> & Hd & Hc & Hne)]; [set_solver|].
    apply list_elem_of_singleton in Hx as ->. split; [done|]. by exists 0%nat, s, s'.
  - destruct (IH Hx) as (Hd & i & H). split; [done|]. by exists (S i).
Qed.

(** The histories of status.steps: recorded when the step starts, updated after
    each run of the engine, closed at each change of state. *)
Inductive recorded (seq : list string) : list StepStatus → Prop :=
  | rec_init : recorded seq (initStepStatuses seq)
  | rec_update now idx failed msg timings ss :
      recorded seq ss → recorded seq (updateStepStatuses now idx failed msg timings ss seq).1
  | rec_close now msg state ss :
      recorded seq ss → recorded seq (closeStepStatuses now msg state ss).1.

Lemma initStepStatuses_ok seq : s_Name <$> initStepStatuses seq = seq ∧ Forall entry_ok (initStepStatuses seq).
Proof.
  unfold initStepStatuses. split.
  - rewrite <-list_fmap_compose. induction seq as [|x seq IH]; [done|]. rewrite fmap_cons. by rewrite IH.
  - apply Forall_fmap, Forall_true. intros. by split_and!.
Qed.

(** C40. Whatever the engine and the state machine do to status.steps, the
    recorded sequence stays the one the step started with, and every entry stays
    well formed: closed entries have both times and a duration that is their
    non-negative difference, running ones a start and no end, pending ones
    neither. *)
Theorem recorded_entries_ok seq ss :
  recorded seq ss → recordedSequence ss = seq ∧ Forall entry_ok ss.
Proof.
  induction 1 as [|now idx failed msg timings ss H [IHn IHok]|now msg state ss H [IHn IHok]].
  - apply initStepStatuses_ok.
  - destruct (decide (ss = [])) as [->|Hne].
    + unfold updateStepStatuses. simpl. 
      destruct (initStepStatuses_ok seq) as [Hn Hok].
      destruct (rewrites_all_ok (initStepStatuses seq) _ _ (rewrites_all_imap (update_entry now idx failed msg timings)
        (initStepStatuses seq) (update_entry_rewrites now idx failed msg timings))) as [Hn' Hok'].
      unfold recordedSequence. rewrite Hn'. auto.
    + destruct (rewrites_all_ok _ _ _ (updateStepStatuses_rewrites now idx failed msg timings ss seq Hne)) as [Hn' Hok'].
      unfold recordedSequence. rewrite Hn'. auto.
  - destruct (rewrites_all_ok _ _ _ (closeStepStatuses_rewrites now msg state ss)) as [Hn' Hok'].
    unfold recordedSequence. rewrite Hn'. auto.
Qed.

Lemma recorded_entries_ok_witness :
  recordedSequence (closeStepStatuses 50 "" StateVerified
    (updateStepStatuses 9 1 false "" (<[0%nat := mkTiming 1 5]> ∅) (initStepStatuses ["git-push"; "health-check"])
       ["git-push"; "health-check"]).1).1 = ["git-push"; "health-check"].
Proof.
  eapply (recorded_entries_ok ["git-push"; "health-check"]). do 2 constructor. apply rec_init.
Defined.

(** After a run of the engine that returned index [idx], the entries before it
    are Completed and the later ones are as they were; the entry at it is Failed
    when the run failed, and otherwise no longer Pending.  Only entries this call
    closed are observed, with a duration that is not negative, and never the
    engine's placeholder health check. *)
Theorem update_marks now idx failed msg timings ss names i s :
  ss !! i = Some s →
  let '(ss', os) := updateStepStatuses now idx failed msg timings ss names in
  ∃ s', ss' !! i = Some s' ∧
    (Z.of_nat i < idx → s_State s' = StepExecutionCompleted) ∧
    (Z.of_nat i = idx → if failed then s_State s' = StepExecutionFailed else s_State s' ≠ StepExecutionPending) ∧
    (idx < Z.of_nat i → s' = s) ∧
    ∀ x, x ∈ os → 0 ≤ duration x ∧ step x ≠ healthCheckStep ∧
      ∃ j t t', ss !! j = Some t ∧ ss' !! j = Some t' ∧ step x = s_Name t ∧ closed t' ∧ s_State t' ≠ s_State t.
Proof.
  intros Hi. assert (ss ≠ []) as Hne by by intros ->.
  pose proof (updateStepStatuses_rewrites now idx failed msg timings ss names Hne) as Hr.
  destruct (updateStepStatuses now idx failed msg timings ss names) as [ss' os] eqn:E.
  unfold updateStepStatuses in E. rewrite bool_decide_false in E by done. injection E as <- <-.
  exists (update_entry now idx failed msg timings i s).1. split_and!.
  - by rewrite list_lookup_fmap, list_lookup_imap, Hi.
  - intros Hlt. unfold update_entry. rewrite (proj2 (Z.ltb_lt _ _)) by done.
    case_bool_decide; [done|]. simpl. unfold finish. by case_match.
  - intros Heq. unfold update_entry. rewrite (proj2 (Z.ltb_ge _ _)), (proj2 (Z.eqb_eq _ _)) by lia.
    destruct failed; simpl; case_bool_decide as Hp; simpl; try done.
    destruct (finish _ _ _ _ _) eqn:Ef. simpl. unfold finish in Ef. case_match; injection Ef as <- _; done.
  - intros Hlt. unfold update_entry. rewrite (proj2 (Z.ltb_ge _ _)), (proj2 (Z.eqb_neq _ _)) by lia. done.
  - intros x Hx. destruct (rewrites_all_observed _ _ _ _ Hr Hx) as (Hd & H). split_and!; [done| |done].
    apply list_elem_of_join in Hx as (o & Hx & Ho). apply list_elem_of_fmap in Ho as ([s' o'] & -> & Ho).
    apply elem_of_lookup_imap in Ho as (j & t & Ho & Ht). simpl in Hx. clear - Ho Hx. unfold update_entry, finish, closeStep in Ho.
    repeat case_match; simplify_eq; simpl in *; try set_solver; bools; apply list_elem_of_singleton in Hx as ->; simpl; 
      repeat match goal with H : _ && _ = true |- _ => apply andb_true_iff in H as [? ?] end; bools; done.
Qed.

Lemma update_marks_witness :
  ∃ s', (updateStepStatuses 9 1 true "boom" ∅ (initStepStatuses ["git-clone"; "git-push"]) []).1 !! 1%nat = Some s' ∧
    s_State s' = StepExecutionFailed.
Proof.
  pose proof (update_marks 9 1 true "boom" ∅ (initStepStatuses ["git-clone"; "git-push"]) [] 1%nat
    (mkStep "git-push" StepExecutionPending None None 0 "") eq_refl) as H.
  destruct (updateStepStatuses 9 1 true "boom" ∅ (initStepStatuses ["git-clone"; "git-push"]) []) as [ss os].
  destruct H as (s' & H1 & _ & H2 & _). exists s'. split; [exact H1|]. apply H2. reflexivity.
Defined.

Abbreviation completed s := (s_State s = StepExecutionCompleted).

Lemma complete_completed now s : completed (complete now s).1.
Proof. unfold complete. by case_bool_decide. Qed.

Lemma close_before_health_marks now pre h post :
  s_Name h = healthCheckStep → healthCheckStep ∉ s_Name <$> pre →
  ∃ pre' h', (close_before_health now (pre ++ h :: post)).1 = pre' ++ h' :: post ∧ length pre' = length pre ∧
    Forall (λ s, completed s) pre' ∧ s_State h' = StepExecutionInProgress.
Proof.
  intros Hh. induction pre as [|s pre IH]; intros Hn; simpl.
  - rewrite bool_decide_true by done. case_bool_decide; simpl; eexists [], _; done.
  - rewrite fmap_cons, not_elem_of_cons in Hn. destruct Hn as [Hs Hn]. rewrite bool_decide_false by done.
    destruct (IH Hn) as (pre' & h' & E & Hl & Hf & Hst).
    pose proof (complete_completed now s). destruct (complete now s) as [s' o], (close_before_health _ _) as [ss os].
    simpl in *. subst ss. exists (s' :: pre'), h'. split_and!; simpl; [done|lia|by constructor|done].
Qed.

Lemma fail_first_open_marks now msg ss :
  let ss' := (fail_first_open now msg ss).1 in
  (Forall (λ s, completed s) ss ∧ ss' = ss) ∨
  ∃ pre f f' post, ss = pre ++ f :: post ∧ ss' = pre ++ f' :: post ∧ Forall (λ s, completed s) pre ∧
    s_State f' = StepExecutionFailed.
Proof.
  induction ss as [|s ss IH]; simpl; [by left|]. destruct (s_State s) eqn:E; simpl.
  - right. by exists [], s, (with_message msg (closeStep s StepExecutionFailed zeroTime now true).1), ss.
  - right. by exists [], s, (with_message msg (closeStep s StepExecutionFailed zeroTime now true).1), ss.
  - destruct (fail_first_open now msg ss) as [ss' o]. simpl in *. destruct IH as [[Hf ->]|(pre & f & f' & post & -> & -> & Hf & Hst)].
    + left. by rewrite Forall_cons.
    + right. exists (s :: pre), f, f', post. by rewrite Forall_cons.
  - right. by exists [], s, s, ss.
Qed.

(** What status.steps says once the step is in a state: in Verifying and
    Verified every entry is Completed; in HealthChecking every entry before the
    health check is, and the health check runs; in a failure state the first
    entry that is not Completed is Failed, if there is one, and no other entry
    changes. *)
Theorem close_marks now msg state ss :
  let ss' := (closeStepStatuses now msg state ss).1 in
  match state with
  | StateVerifying | StateVerified => Forall (λ s, completed s) ss'
  | StateHealthChecking =>
      ∀ pre h post, ss = pre ++ h :: post → s_Name h = healthCheckStep → healthCheckStep ∉ s_Name <$> pre →
        ∃ pre' h', ss' = pre' ++ h' :: post ∧ length pre' = length pre ∧ Forall (λ s, completed s) pre' ∧
          s_State h' = StepExecutionInProgress
  | StateFailed | StateAbortedByAlarm | StateRollingBack | StateSuperseded =>
      (Forall (λ s, completed s) ss ∧ ss' = ss) ∨
      ∃ pre f f' post, ss = pre ++ f :: post ∧ ss' = pre ++ f' :: post ∧ Forall (λ s, completed s) pre ∧
        s_State f' = StepExecutionFailed
  | _ => ss' = ss
  end.
Proof.
  destruct state; simpl; try done; try apply fail_first_open_marks.
  - intros pre h post -> Hh Hn. by apply close_before_health_marks.
  - rewrite <-list_fmap_compose. apply Forall_fmap, Forall_true. intros. apply complete_completed.
  - rewrite <-list_fmap_compose. apply Forall_fmap, Forall_true. intros. apply complete_completed.
Qed.

End StepStatus.
