(* ===== verification/Hooks.v ===== *)
(** * Hooks: hooks, analyses and verified images of a promotion step

    Model of src/pkg/reconciler/promotionstep/hooks.go and of the verdict of
    verifying.go: what the mirrored HookRuns and AnalysisRuns say of a step, the
    step's own record of the hooks that ran, and the comparison of a Bundle's
    images with the verified ones.  [Promotion] acts on these verdicts. *)

From stdpp Require Import base gmap strings list.
From Stdlib Require Import Ascii Lia ZArith.
From S2P Require Import Prelude.

Module Hooks.

(** ** Hooks *)

Definition HookRunRunning : string := "Running".
Definition HookRunSucceeded : string := "Succeeded".
Definition HookRunFailed : string := "Failed".
Definition HookRunSkipped : string := "Skipped".
Definition HookRunSkippedAddedLate : string := "not run: the hook was added to the Pipeline after ".

Record LiveHookRun := mkLiveHook {
  h_Name : string;
  h_Hook : string;
  h_Phase : string;
  h_Result : string;
  h_Message : string;
  h_SpecHash : string
}.

(** [hookRef]: a HookRun name and its mirror, if there is one. *)
Record hookRef := mkRef { run : string; live : option LiveHookRun }.

Record hookVerdict := mkVerdict { failed : option hookRef; waiting : option hookRef }.

Definition succeeded (v : hookVerdict) : bool :=
  bool_decide (failed v = None) && bool_decide (waiting v = None).

#[export] Instance LiveHookRun_eq_dec : EqDecision LiveHookRun.
Proof. solve_decision. Defined.

#[export] Instance hookRef_eq_dec : EqDecision hookRef.
Proof. solve_decision. Defined.

(** The map of the mirror: of two entries with a name the later one counts. *)
Definition live_map (hs : list LiveHookRun) : gmap string LiveHookRun :=
  foldl (λ m h, <[h_Name h := h]> m) ∅ hs.

Definition hook_failed (h : option LiveHookRun) : bool :=
  match h with Some h => bool_decide (h_Result h = HookRunFailed) | None => false end.

Definition hook_done (h : option LiveHookRun) : bool :=
  match h with
  | Some h => bool_decide (h_Result h = HookRunSucceeded) || bool_decide (h_Result h = HookRunSkipped)
  | None => false
  end.

Definition hook_step (m : gmap string LiveHookRun) (v : hookVerdict) (name : string) : hookVerdict :=
  let ref := mkRef name (m !! name) in
  if hook_failed (m !! name) then
    match failed v with None => mkVerdict (Some ref) (waiting v) | Some _ => v end
  else if hook_done (m !! name) then v
  else match waiting v with None => mkVerdict (failed v) (Some ref) | Some _ => v end.

Definition hookResults (hs : list LiveHookRun) (names : list string) : hookVerdict :=
  foldl (hook_step (live_map hs)) (mkVerdict None None) names.

(** ** The step's own record of hooks *)

Record HookRecord := mkRecord {
  r_Hook : string;
  r_Phase : string;
  r_SpecHash : string;
  r_Result : string;
  r_Message : string
}.

#[export] Instance HookRecord_eq_dec : EqDecision HookRecord.
Proof. solve_decision. Defined.

Definition finalHookResult (r : string) : bool :=
  bool_decide (r = HookRunSucceeded) || bool_decide (r = HookRunFailed).

Definition recordable (h : LiveHookRun) : bool :=
  (bool_decide (h_Result h = HookRunRunning) || bool_decide (h_Result h = HookRunSucceeded) ||
   bool_decide (h_Result h = HookRunFailed)) &&
  negb (bool_decide (h_SpecHash h = "") || bool_decide (h_Hook h = "")).

Definition record_hook (s : list HookRecord * bool) (h : LiveHookRun) : list HookRecord * bool :=
  let '(rs, changed) := s in
  if recordable h then
    let rec := mkRecord (h_Hook h) (h_Phase h) (h_SpecHash h) (h_Result h) (h_Message h) in
    match list_find (λ r, r_Hook r = h_Hook h ∧ r_Phase r = h_Phase h) rs with
    | None => (rs ++ [rec], true)
    | Some (i, r) =>
        if bool_decide (r = rec) then (rs, changed)
        else if bool_decide (r_SpecHash r = r_SpecHash rec) && finalHookResult (r_Result r) then (rs, changed)
        else (<[i := rec]> rs, true)
    end
  else (rs, changed).

(** [hs] is [None] when the step has no mirror. *)
Definition recordHookRuns (hs : option (list LiveHookRun)) (rs : list HookRecord) : list HookRecord * bool :=
  match hs with
  | None => (rs, false)
  | Some hs => foldl record_hook (rs, false) hs
  end.

(** The hooks [recordSkippedHooks] names in its condition. *)
Definition skipped_hooks (hs : list LiveHookRun) : list (string * string) :=
  omap (λ h, if bool_decide (h_Result h = HookRunSkipped) && HasPrefix (h_Message h) HookRunSkippedAddedLate
             then Some (h_Phase h, if bool_decide (h_Hook h = "") then h_Name h else h_Hook h) else None) hs.

(** ** Analyses *)

Definition analysisSuccessful : string := "Successful".
Definition analysisFailed : string := "Failed".
Definition analysisError : string := "Error".
Definition analysisInconclusive : string := "Inconclusive".

Record LiveAnalysisRun := mkAnalysis {
  a_Name : string;
  a_Created : string;
  a_Template : string;
  a_Phase : string;
  a_Message : string
}.

Record analysisVerdict := mkAnalysisVerdict {
  an_failed : option LiveAnalysisRun;
  an_waiting : option LiveAnalysisRun;
  replaced : list string
}.

(** [a] replaces [cur] as the newest run of their template. *)
Definition newer (a cur : LiveAnalysisRun) : bool :=
  str_ltb (a_Created cur) (a_Created a) ||
  (bool_decide (a_Created a = a_Created cur) && str_ltb (a_Name cur) (a_Name a)).

Definition newest_step (m : gmap string LiveAnalysisRun) (a : LiveAnalysisRun) : gmap string LiveAnalysisRun :=
  match m !! a_Template a with
  | None => <[a_Template a := a]> m
  | Some cur => if newer a cur then <[a_Template a := a]> m else m
  end.

Definition newest (runs : list LiveAnalysisRun) : gmap string LiveAnalysisRun := foldl newest_step ∅ runs.

Definition count_of (runs : list LiveAnalysisRun) (t : string) : nat :=
  length (filter (λ a, a_Template a = t) runs).

Section analyses.
(** [labelvalue.Fit], whose hash is outside the model. *)
Variable Fit : string → string.
Variable inconclusivePasses : bool.

Definition phase_passes (p : string) : bool :=
  bool_decide (p = analysisSuccessful) || (bool_decide (p = analysisInconclusive) && inconclusivePasses).

Definition phase_fails (p : string) : bool :=
  bool_decide (p = analysisFailed) || bool_decide (p = analysisError) || bool_decide (p = analysisInconclusive).

Definition analysis_step (runs : list LiveAnalysisRun) (v : analysisVerdict) (tmpl : string) : analysisVerdict :=
  let v := if (1 <? count_of runs (Fit tmpl))%nat
           then mkAnalysisVerdict (an_failed v) (an_waiting v) (replaced v ++ [tmpl]) else v in
  let named a := mkAnalysis (a_Name a) (a_Created a) tmpl (a_Phase a) (a_Message a) in
  let wait a := match an_waiting v with
                | None => mkAnalysisVerdict (an_failed v) (Some a) (replaced v)
                | Some _ => v
                end in
  match newest runs !! Fit tmpl with
  | Some a =>
      if phase_passes (a_Phase a) then v
      else if phase_fails (a_Phase a) then
        match an_failed v with
        | None => mkAnalysisVerdict (Some (named a)) (an_waiting v) (replaced v)
        | Some _ => v
        end
      else wait (named a)
  | None => wait (mkAnalysis "" "" tmpl "" "")
  end.

Definition analysisResults (runs : list LiveAnalysisRun) (templates : list string) : analysisVerdict :=
  foldl (analysis_step runs) (mkAnalysisVerdict None None []) templates.
End analyses.

(** ** Verified images *)

Record ImageRef := mkImage { Repository : string; Digest : string }.

Inductive image_difference :=
  | VerifiedWithoutDigest (image : string)
  | BadRepository (repository : string)
  | OtherDigest (repo have want : string)
  | NotInBundle.

Section images.
(** [graph.NormalizeRepository]: the reference parser is outside the model. *)
Variable NormalizeRepository : string → option string.

Fixpoint want_images (verified : list string) (want : gmap string string) : image_difference + gmap string string :=
  match verified with
  | [] => inr want
  | v :: verified =>
      match Cut "@" v with
      | None => inl (VerifiedWithoutDigest v)
      | Some (repo, digest) => want_images verified (<[repo := digest]> want)
      end
  end.

Fixpoint have_images (want : gmap string string) (images : list ImageRef) (have : gmap string string) :
  image_difference + gmap string string :=
  match images with
  | [] => inr have
  | img :: images =>
      match NormalizeRepository (Repository img) with
      | None => inl (BadRepository (Repository img))
      | Some repo =>
          match want !! repo with
          | Some d => if bool_decide (Digest img = d) then have_images want images (<[repo := Digest img]> have)
                      else inl (OtherDigest repo (Digest img) d)
          | None => have_images want images (<[repo := Digest img]> have)
          end
      end
  end.

(** Nothing when the images are the verified ones.  A repository that is not in
    [have] reads as the empty string there. *)
Definition verifiedImagesDiffer (images : list ImageRef) (verified : list string) : option image_difference :=
  match want_images verified ∅ with
  | inl e => Some e
  | inr want =>
      match have_images want images ∅ with
      | inl e => Some e
      | inr have =>
          if forallb (λ p, bool_decide (default "" (have !! p.1) = p.2)) (map_to_list want) then None else Some NotInBundle
      end
  end.
End images.

(** ** What the verdicts mean *)

(** The mirror of a HookRun is its last entry. *)
Lemma live_map_last hs n : live_map hs !! n = last (filter (λ h, h_Name h = n) hs).
Proof.
  induction hs as [|h hs IH] using rev_ind; [done|].
  unfold live_map in *. rewrite foldl_snoc, filter_app, filter_cons, filter_nil. case_decide as E.
  - rewrite last_snoc. subst n. apply lookup_insert_eq.
  - rewrite app_nil_r, lookup_insert_ne by done. apply IH.
Qed.

(** The first name of a list whose mirror satisfies a test. *)
Definition first_ref (m : gmap string LiveHookRun) (P : option LiveHookRun → bool) (names : list string) : option hookRef :=
  (λ n, mkRef n (m !! n)) <$> head (filter (λ n, P (m !! n) = true) names).

Definition hook_pending (h : option LiveHookRun) : bool := negb (hook_failed h) && negb (hook_done h).

Lemma first_ref_cons m P n names :
  first_ref m P (n :: names) = if P (m !! n) then Some (mkRef n (m !! n)) else first_ref m P names.
Proof. unfold first_ref. rewrite filter_cons. case_decide as E; destruct (P (m !! n)); done. Qed.

Lemma hook_fold m names v :
  foldl (hook_step m) v names =
  mkVerdict (match failed v with Some r => Some r | None => first_ref m hook_failed names end)
            (match waiting v with Some r => Some r | None => first_ref m hook_pending names end).
Proof.
  revert v. induction names as [|n names IH]; intros [f w]; [by destruct f, w|].
  rewrite !first_ref_cons. simpl foldl. rewrite IH. unfold hook_step, hook_pending.
  destruct (hook_failed (m !! n)), (hook_done (m !! n)), f, w; done.
Qed.

(** The verdict on a step's hooks: the hook reported as failed is the first
    listed one whose run failed, the one waited for the first that neither
    failed nor finished, and the step passes exactly when every listed hook
    succeeded or was skipped (a hook without a run is waited for). *)
Theorem hooks_verdict hs names :
  failed (hookResults hs names) = first_ref (live_map hs) hook_failed names ∧
  waiting (hookResults hs names) = first_ref (live_map hs) hook_pending names ∧
  (succeeded (hookResults hs names) = true ↔
   ∀ n, n ∈ names → ∃ h, last (filter (λ h, h_Name h = n) hs) = Some h ∧
     (h_Result h = HookRunSucceeded ∨ h_Result h = HookRunSkipped)).
Proof.
  unfold hookResults, succeeded. rewrite hook_fold. simpl. split_and!; [done..|].
  rewrite andb_true_iff, !bool_decide_eq_true. unfold first_ref. rewrite !fmap_None.
  assert (∀ P, head (filter (λ n, P (live_map hs !! n) = true) names) = None ↔
               ∀ n, n ∈ names → P (live_map hs !! n) = false) as Hh.
  { intros P. rewrite head_None. split.
    - intros H n Hn. destruct (P (live_map hs !! n)) eqn:E; [|done]. exfalso.
      apply (filter_nil_not_elem_of (λ n, P (live_map hs !! n) = true) names n); done.
    - intros H. destruct (filter _ names) as [|n l] eqn:E; [done|]. exfalso.
      assert (n ∈ filter (λ n, P (live_map hs !! n) = true) names) as Hn by (rewrite E; left).
      apply list_elem_of_filter in Hn as [Hp Hn]. rewrite H in Hp; done. }
  rewrite !Hh. setoid_rewrite live_map_last. unfold hook_pending, hook_failed, hook_done.
  split.
  - intros [H1 H2] n Hn. specialize (H1 n Hn). specialize (H2 n Hn). destruct (last _) as [h|]; [|done].
    rewrite H1 in H2. simpl in H2. exists h. split; [done|].
    apply negb_false_iff, orb_true_iff in H2. by rewrite !bool_decide_eq_true in H2.
  - intros H. split; intros n Hn; destruct (H n Hn) as (h & -> & Hr).
    + apply bool_decide_eq_false. destruct Hr as [-> | ->]; done.
    + apply andb_false_iff. right. apply negb_false_iff, orb_true_iff. by rewrite !bool_decide_eq_true.
Qed.

(** ** The newest run of a template *)

Lemma newer_irrefl a : newer a a = false.
Proof. unfold newer. rewrite !str_ltb_irrefl, andb_false_r. done. Qed.

Lemma newer_trans a b c : newer a b = true → newer b c = true → newer a c = true.
Proof.
  unfold newer. rewrite !orb_true_iff, !andb_true_iff, !bool_decide_eq_true.
  intros [H1|[H1 H1']] [H2|[H2 H2']].
  - left. by eapply str_ltb_trans.
  - left. by rewrite <-H2.
  - left. by rewrite H1.
  - right. split; [congruence|by eapply str_ltb_trans].
Qed.

(** [a] is the newest of the runs: none of its template is newer. *)
Definition is_newest (runs : list LiveAnalysisRun) (t : string) (a : LiveAnalysisRun) : Prop :=
  a ∈ runs ∧ a_Template a = t ∧ ∀ b, b ∈ runs → a_Template b = t → newer b a = false.

Lemma newest_spec runs t :
  match newest runs !! t with
  | Some a => is_newest runs t a
  | None => ∀ a, a ∈ runs → a_Template a ≠ t
  end.
Proof.
  induction runs as [|a runs IH] using rev_ind; [set_solver|].
  unfold newest in *. rewrite foldl_snoc. unfold newest_step at 1.
  set (m := foldl newest_step ∅ runs) in *.
  destruct (decide (t = a_Template a)) as [->|Ht].
  - destruct (m !! a_Template a) as [cur|] eqn:Em.
    + destruct IH as (Hin & Ht & Hn). destruct (newer a cur) eqn:En.
      * rewrite lookup_insert_eq. split_and!; [set_solver|done|]. intros b Hb Hbt.
        apply elem_of_app in Hb as [Hb|Hb].
        -- destruct (newer b a) eqn:Eb; [|done]. rewrite <-(Hn b Hb Hbt). symmetry. by eapply newer_trans.
        -- apply list_elem_of_singleton in Hb as ->. apply newer_irrefl.
      * rewrite Em. split_and!; [set_solver|done|]. intros b Hb Hbt.
        apply elem_of_app in Hb as [Hb|Hb]; [by apply Hn|]. by apply list_elem_of_singleton in Hb as ->.
    + rewrite lookup_insert_eq. split_and!; [set_solver|done|]. intros b Hb Hbt.
      apply elem_of_app in Hb as [Hb|Hb]; [by destruct (IH b Hb)|].
      apply list_elem_of_singleton in Hb as ->. apply newer_irrefl.
  - assert (match m !! a_Template a with
            | Some cur => if newer a cur then <[a_Template a:=a]> m else m
            | None => <[a_Template a:=a]> m end !! t = m !! t) as ->.
    { repeat case_match; try done; by rewrite lookup_insert_ne. }
    destruct (m !! t) as [x|].
    + destruct IH as (Hin & Hxt & Hn). split_and!; [set_solver|done|]. intros b Hb Hbt.
      apply elem_of_app in Hb as [Hb|Hb]; [by apply Hn|]. by apply list_elem_of_singleton in Hb as ->.
    + intros b Hb. apply elem_of_app in Hb as [Hb|Hb]; [by apply IH|]. apply list_elem_of_singleton in Hb as ->. done.
Qed.

Section analyses_proofs.
Variable Fit : string → string.
Variable inconclusivePasses : bool.
Abbreviation analysis_step := (analysis_step Fit inconclusivePasses).
Abbreviation passes runs tmpl :=
  (from_option (λ a, phase_passes inconclusivePasses (a_Phase a)) false (newest runs !! Fit tmpl)).
Abbreviation fails runs tmpl :=
  (from_option (λ a, negb (phase_passes inconclusivePasses (a_Phase a)) && phase_fails (a_Phase a)) false
     (newest runs !! Fit tmpl)).

Lemma analysis_fold runs templates v :
  let v' := foldl (analysis_step runs) v templates in
  (is_Some (an_failed v') ↔ is_Some (an_failed v) ∨ ∃ t, t ∈ templates ∧ fails runs t = true) ∧
  (is_Some (an_waiting v') ↔ is_Some (an_waiting v) ∨ ∃ t, t ∈ templates ∧ passes runs t = false ∧ fails runs t = false).
Proof.
  revert v. induction templates as [|t ts IH]; intros v; simpl; [set_solver|].
  destruct (IH (analysis_step runs v t)) as [IHf IHw]. rewrite IHf, IHw. clear IH IHf IHw.
  assert ((is_Some (an_failed (analysis_step runs v t)) ↔ is_Some (an_failed v) ∨ fails runs t = true) ∧
          (is_Some (an_waiting (analysis_step runs v t)) ↔
           is_Some (an_waiting v) ∨ passes runs t = false ∧ fails runs t = false)) as [-> ->].
  { unfold Hooks.analysis_step. destruct (1 <? _)%nat, v as [f w r]; simpl;
      destruct (newest runs !! Fit t) as [a|]; simpl;
      try (destruct (phase_passes _ (a_Phase a)), (phase_fails (a_Phase a)); simpl);
      destruct f, w; simpl; rewrite ?is_Some_alt; naive_solver. }
  setoid_rewrite elem_of_cons. split; naive_solver.
Qed.

(** The verdict on a step's analyses follows the newest run of each template
    alone: the step waits for nothing and nothing failed exactly when the newest
    run of every listed template passed (or was inconclusive where that
    passes), and it fails exactly when some newest run ended otherwise. *)
Theorem analyses_verdict runs templates :
  let v := analysisResults Fit inconclusivePasses runs templates in
  let passed a := phase_passes inconclusivePasses (a_Phase a) = true in
  (an_failed v = None ∧ an_waiting v = None ↔
   ∀ t, t ∈ templates → ∃ a, newest runs !! Fit t = Some a ∧ is_newest runs (Fit t) a ∧ passed a) ∧
  (is_Some (an_failed v) ↔
   ∃ t a, t ∈ templates ∧ newest runs !! Fit t = Some a ∧ is_newest runs (Fit t) a ∧
     ¬ passed a ∧ phase_fails (a_Phase a) = true).
Proof.
  unfold analysisResults. destruct (analysis_fold runs templates (mkAnalysisVerdict None None [])) as [Hf Hw].
  simpl in *. split.
  - rewrite !eq_None_not_Some, Hf, Hw. split.
    + intros [H1 H2] t Ht. pose proof (newest_spec runs (Fit t)) as Hn.
      destruct (newest runs !! Fit t) as [a|] eqn:E.
      * exists a. split_and!; [done..|]. destruct (phase_passes _ _) eqn:Ep; [done|]. exfalso.
        destruct (phase_fails (a_Phase a)) eqn:Ef.
        -- apply H1. right. exists t. rewrite E. simpl. by rewrite Ep, Ef.
        -- apply H2. right. exists t. rewrite E. simpl. by rewrite Ep, Ef.
      * exfalso. apply H2. right. exists t. by rewrite E.
    + intros H. split; (intros [[? [=]]|(t & Ht & Hx)]; destruct (H t Ht) as (a & E & _ & Hp);
        rewrite E in Hx; simpl in Hx; rewrite Hp in Hx; naive_solver).
  - rewrite Hf. split.
    + intros [[? [=]]|(t & Ht & Hx)]. pose proof (newest_spec runs (Fit t)) as Hn.
      destruct (newest runs !! Fit t) as [a|] eqn:E; [|done]. simpl in Hx. bools.
      exists t, a. split_and!; try done. congruence.
    + intros (t & a & Ht & E & _ & Hp & Hx). right. exists t. split; [done|]. rewrite E. simpl.
      rewrite Hx. apply not_true_is_false in Hp. by rewrite Hp.
Qed.
End analyses_proofs.

(** ** The verified images *)

Section images_proofs.
Variable NormalizeRepository : string → option string.

Lemma want_images_lookup verified want0 want :
  want_images verified want0 = inr want →
  (∀ v, v ∈ verified → is_Some (Cut "@" v)) ∧
  ∀ r d, want0 !! r = Some d ∨ (∃ v, v ∈ verified ∧ Cut "@" v = Some (r, d)) → is_Some (want !! r).
Proof.
  revert want0. induction verified as [|v vs IH]; intros want0; simpl.
  - intros [= ->]. split; [set_solver|]. intros r d [->|(v & Hv & _)]; [done|set_solver].
  - destruct (Cut "@" v) as [[r d]|] eqn:E; [|done]. intros H. destruct (IH _ H) as [H1 H2]. split.
    + intros v' Hv. apply elem_of_cons in Hv as [->|Hv]; [by rewrite E|auto].
    + intros r' d' Hr. destruct (decide (r' = r)) as [->|Hne].
      * apply (H2 r d). left. apply lookup_insert_eq.
      * apply (H2 r' d'). destruct Hr as [Hr|(v' & Hv & Hc)].
        -- left. by rewrite lookup_insert_ne.
        -- apply elem_of_cons in Hv as [->|Hv]; [congruence|]. right. eauto.
Qed.

Lemma have_images_spec want images have0 have :
  have_images NormalizeRepository want images have0 = inr have →
  (∀ img, img ∈ images → ∃ repo, NormalizeRepository (Repository img) = Some repo ∧
     ∀ d, want !! repo = Some d → Digest img = d) ∧
  (∀ r d, have !! r = Some d → have0 !! r = Some d ∨
     ∃ img, img ∈ images ∧ NormalizeRepository (Repository img) = Some r ∧ Digest img = d).
Proof.
  revert have0. induction images as [|img images IH]; intros have0; simpl.
  - intros [= ->]. split; [set_solver|]. auto.
  - destruct (NormalizeRepository (Repository img)) as [repo|] eqn:En; [|done].
    intros H.
    assert (have_images NormalizeRepository want images (<[repo := Digest img]> have0) = inr have ∧
            ∀ d, want !! repo = Some d → Digest img = d) as [H1 H2].
    { destruct (want !! repo) as [d|]; [|done]. case_bool_decide; [|done]. split; [done|]. by intros ? [= <-]. }
    destruct (IH _ H1) as [IH1 IH2]. split.
    + intros i Hi. apply elem_of_cons in Hi as [->|Hi]; [eauto|auto].
    + intros r d Hr. destruct (IH2 r d Hr) as [Hl|(i & Hi & ? & ?)].
      * destruct (decide (r = repo)) as [->|Hne].
        -- rewrite lookup_insert_eq in Hl. injection Hl as <-. right. exists img. split; [by left|done].
        -- rewrite lookup_insert_ne in Hl by done. by left.
      * right. exists i. split; [by right|done].
Qed.

(** A Bundle passes the comparison with the verified images only when every
    verified image names a digest, each verified repository with a digest is an
    image of the Bundle, and every image of the Bundle in a verified repository
    has exactly the digest that was verified there. *)
Theorem images_are_verified images verified :
  verifiedImagesDiffer NormalizeRepository images verified = None →
  ∃ want, want_images verified ∅ = inr want ∧
    (∀ v, v ∈ verified → ∃ r d, Cut "@" v = Some (r, d) ∧ is_Some (want !! r)) ∧
    (∀ r d, want !! r = Some d → d ≠ "" →
       ∃ img, img ∈ images ∧ NormalizeRepository (Repository img) = Some r ∧ Digest img = d) ∧
    (∀ img, img ∈ images → ∃ r, NormalizeRepository (Repository img) = Some r ∧
       ∀ d, want !! r = Some d → Digest img = d).
Proof.
  unfold verifiedImagesDiffer. destruct (want_images verified ∅) as [|want] eqn:Ew; [done|].
  destruct (have_images NormalizeRepository want images ∅) as [|have] eqn:Eh; [done|].
  destruct (forallb _ _) eqn:Ef; [|done]. intros _.
  destruct (want_images_lookup _ _ _ Ew) as [Hw1 Hw2]. destruct (have_images_spec _ _ _ _ Eh) as [Hh1 Hh2].
  exists want. split_and!; [done| | |done].
  - intros v Hv. destruct (Hw1 v Hv) as [[r d] E]. exists r, d. split; [done|]. eapply Hw2. right. eauto.
  - intros r d Hr Hd. rewrite forallb_forall in Ef. specialize (Ef (r, d)).
    assert (default "" (have !! r) = d) as Hdef.
    { apply (bool_decide_eq_true_1 (default "" (have !! r) = d)), Ef, list_elem_of_In, elem_of_map_to_list, Hr. }
    destruct (have !! r) as [d'|] eqn:E; simpl in Hdef; [|congruence]. subst d'.
    destruct (Hh2 r d E) as [Hl|]; [|done]. by rewrite lookup_empty in Hl.
Qed.
End images_proofs.

Lemma images_are_verified_witness :
  ∃ want, want_images ["ghcr.io/app@sha256:1"] ∅ = inr want ∧
    ∀ r d, want !! r = Some d → d ≠ "" →
      ∃ img, img ∈ [mkImage "ghcr.io/app" "sha256:1"] ∧ Some (Repository img) = Some r ∧ Digest img = d.
Proof.
  destruct (images_are_verified Some [mkImage "ghcr.io/app" "sha256:1"] ["ghcr.io/app@sha256:1"])
    as (want & H1 & _ & H2 & _); [vm_compute; reflexivity|].
  exists want. split; [exact H1|exact H2].
Defined.

(** ** The step's own record of hooks *)

Definition record_key (r : HookRecord) : string * string := (r_Hook r, r_Phase r).

Definition live_key (h : LiveHookRun) : string * string := (h_Hook h, h_Phase h).

Lemma record_hook_fold hs rs :
  NoDup (live_key <$> hs) → NoDup (record_key <$> rs) →
  let '(rs', changed) := foldl record_hook (rs, false) hs in
  NoDup (record_key <$> rs') ∧ (changed = false → rs' = rs) ∧
  ∀ i r, rs !! i = Some r → ∃ r', rs' !! i = Some r' ∧ record_key r' = record_key r ∧
    (r' = r ∨ record_key r ∈ live_key <$> hs ∧ (r_SpecHash r' ≠ r_SpecHash r ∨ finalHookResult (r_Result r) = false)).
Proof.
  intros Hh Hr. induction hs as [|h hs IH] using rev_ind; [simpl; split_and!; eauto|].
  rewrite fmap_app in Hh. apply NoDup_app in Hh as (Hh & Hnew & _). specialize (IH Hh).
  rewrite foldl_snoc. destruct (foldl record_hook (rs, false) hs) as [rs1 ch]. destruct IH as (IHd & IHc & IHr).
  assert (live_key h ∉ live_key <$> hs) as Hk by (intros Hin; apply (Hnew _ Hin); by left).
  assert (∀ i r, rs !! i = Some r → ∃ r', rs1 !! i = Some r' ∧ record_key r' = record_key r ∧
    (r' = r ∨ record_key r ∈ live_key <$> (hs ++ [h]) ∧
       (r_SpecHash r' ≠ r_SpecHash r ∨ finalHookResult (r_Result r) = false))) as Hkeep.
  { intros i r Hi. destruct (IHr i r Hi) as (r' & H1 & H2 & [->|[H3 H4]]); [by exists r; auto|].
    exists r'. split_and!; [done..|]. right. split; [|done]. rewrite fmap_app. set_solver. }
  unfold record_hook. destruct (recordable h); [|done].
  set (rec := mkRecord (h_Hook h) (h_Phase h) (h_SpecHash h) (h_Result h) (h_Message h)).
  destruct (list_find _ rs1) as [[j rj]|] eqn:Ef.
  - apply list_find_Some in Ef as (Hj & [Hjh Hjp] & _).
    case_bool_decide; [done|]. destruct (bool_decide _ && _) eqn:Eb; [done|].
    apply andb_false_iff in Eb. rewrite bool_decide_eq_false in Eb.
    assert (record_key rj = live_key h) as Hjk by (unfold record_key, live_key; congruence).
    split_and!; [|done|].
    + rewrite list_fmap_insert, list_insert_id; [done|]. rewrite list_lookup_fmap, Hj. simpl. by rewrite Hjk.
    + intros i r Hi. destruct (decide (i = j)) as [->|Hne].
      * destruct (IHr j r Hi) as (r' & H1 & H2 & H3). assert (r' = rj) as -> by congruence.
        assert (rj = r) as ->.
        { destruct H3 as [|[H3 _]]; [done|]. destruct Hk. by rewrite <-H2, Hjk in H3. }
        exists rec. rewrite list_lookup_insert_eq by (by eapply lookup_lt_Some). split_and!; [done|by rewrite Hjk|].
        right. rewrite fmap_app, Hjk. split; [set_solver|]. simpl in *. naive_solver.
      * rewrite list_lookup_insert_ne by done. auto.
  - apply list_find_None in Ef. rewrite Forall_forall in Ef. split_and!; [|done|].
    + rewrite fmap_app. apply NoDup_app. split_and!; [done| |apply NoDup_singleton].
      intros k Hin Hs. apply list_elem_of_singleton in Hs as ->. apply list_elem_of_fmap in Hin as (r & Hkr & Hin).
      injection Hkr as Hk1 Hk2. by apply (Ef r Hin).
    + intros i r Hi. destruct (Hkeep i r Hi) as (r' & H1 & H2). exists r'. split; [|done].
      by apply lookup_app_l_Some.
Qed.

(** The step's record of its hooks keeps one entry per hook and phase, in the
    order they first ran, and replaces a final result (Succeeded or Failed) only
    when the hook's job is another one; nothing is reported as changed unless an
    entry is. *)
Theorem recorded_results_final hs rs :
  NoDup (live_key <$> hs) → NoDup (record_key <$> rs) →
  let '(rs', changed) := recordHookRuns (Some hs) rs in
  NoDup (record_key <$> rs') ∧ (changed = false → rs' = rs) ∧
  ∀ i r, rs !! i = Some r → ∃ r', rs' !! i = Some r' ∧ record_key r' = record_key r ∧
    (finalHookResult (r_Result r) = true → r' = r ∨ r_SpecHash r' ≠ r_SpecHash r).
Proof.
  intros Hh Hr. pose proof (record_hook_fold hs rs Hh Hr) as H. simpl.
  destruct (foldl record_hook (rs, false) hs) as [rs' ch]. destruct H as (H1 & H2 & H3). split_and!; [done..|].
  intros i r Hi. destruct (H3 i r Hi) as (r' & Hi' & Hk & Hc). exists r'. split_and!; [done..|].
  intros Hf. destruct Hc as [|[_ [|]]]; [by left|by right|congruence].
Qed.

Definition demo_live : LiveHookRun := mkLiveHook "run-1" "smoke" "post" HookRunRunning "" "h1".
Definition demo_record : HookRecord := mkRecord "smoke" "post" "h1" HookRunSucceeded "".

Lemma recorded_results_final_witness :
  (recordHookRuns (Some [demo_live]) [demo_record]).1 = [demo_record] ∧
  (recordHookRuns (Some [demo_live]) [demo_record]).2 = false ∧ NoDup (record_key <$> [demo_record]).
Proof.
  pose proof (recorded_results_final [demo_live] [demo_record] ltac:(compute_done) ltac:(compute_done)) as H.
  split; [vm_compute; reflexivity|]. split; [vm_compute; reflexivity|].
  destruct (recordHookRuns (Some [demo_live]) [demo_record]) as [rs ch] eqn:E. vm_compute in E.
  injection E as <- <-. apply H.
Defined.

End Hooks.
