(* ===== verification/Outbox.v ===== *)
(** * Outbox: audit records that survive a failed write

    Model of src/pkg/audit/outbox.go and of flushAudit
    (src/pkg/reconciler/promotionstep/audit.go): the records of a state change
    are stored in the status that changes, in the same patch, and written as
    AuditEvents afterwards, as often as it takes.  [Transition] enqueues the
    records of a promotion step. *)

From stdpp Require Import base gmap strings list.
From Stdlib Require Import Lia ZArith.
From S2P Require Import Prelude.

Module Outbox.

(** [PendingAuditEvent]; [e_Body] stands for the labels, the message, the actor
    and the times, which are stored and copied only. *)
Record Entry := mkEntry {
  e_Name : string;
  e_Action : string;
  e_Outcome : string;
  e_Merged : Z;
  e_Body : string
}.

#[export] Instance Entry_eq_dec : EqDecision Entry.
Proof. solve_decision. Defined.

Definition MaxPendingAuditEvents : nat := 32.

(** [int32]. *)
Definition i32 (z : Z) : Z := (z + 2 ^ 31) mod 2 ^ 32 - 2 ^ 31.

Definition mergedCount (e : Entry) : Z := Z.max (e_Merged e) 1.

Definition set_merged (n : Z) (e : Entry) : Entry := mkEntry (e_Name e) (e_Action e) (e_Outcome e) n (e_Body e).

Section outbox.
(** [Validate] (its name and label grammars are a library's), and the coalescers
    registered by action. *)
Variable Validate : Entry → bool.
Variable coalescers : gmap string (Entry → Entry → option Entry).

(** The inner loop of [coalesceOldest]: the first later entry that merges, with
    its index. *)
Fixpoint coalesce_with (fn : Entry → Entry → option Entry) (x : Entry) (j : nat) (l : list Entry) : option (nat * Entry) :=
  match l with
  | [] => None
  | y :: l =>
      if negb (bool_decide (e_Action y = e_Action x)) then coalesce_with fn x (S j) l
      else match fn x y with
           | None => coalesce_with fn x (S j) l
           | Some merged =>
               let merged := set_merged (i32 (mergedCount x + mergedCount y)) merged in
               if Validate merged then Some (j, merged) else coalesce_with fn x (S j) l
           end
  end.

(** The merged entry takes the newer one's place and the older is removed. *)
Fixpoint coalesceOldest (pending : list Entry) : option (list Entry) :=
  match pending with
  | [] => None
  | x :: l =>
      match coalescers !! e_Action x with
      | Some fn =>
          match coalesce_with fn x 0 l with
          | Some (j, merged) => Some (<[j := merged]> l)
          | None => cons x <$> coalesceOldest l
          end
      | None => cons x <$> coalesceOldest l
      end
  end.

(** The loop of [Enqueue], with the entries it drops; each turn shortens the
    outbox by one. *)
Fixpoint shrink (fuel : nat) (pending dropped : list Entry) : list Entry * list Entry :=
  match fuel with
  | 0%nat => (pending, dropped)
  | S fuel =>
      if (length pending <=? MaxPendingAuditEvents)%nat then (pending, dropped)
      else match coalesceOldest pending with
           | Some merged => shrink fuel merged dropped
           | None => shrink fuel (drop 1 pending) (dropped ++ take 1 pending)
           end
  end.

(** [Enqueue], with the entries the overflow dropped. *)
Definition Enqueue (pending : list Entry) (e : Entry) : list Entry * list Entry :=
  if negb (Validate e) then (pending, [])
  else if bool_decide (e_Name e ∈ e_Name <$> pending) then (pending, [])
  else shrink (S (length pending)) (pending ++ [e]) [].

(** ** Writing the records *)

(** What the create of an AuditEvent answers.  [AlreadyExists] is a success. *)
Inductive create_result := Created | AlreadyExists | NamespaceTerminating | Rejected | CreateError.

#[export] Instance create_result_eq_dec : EqDecision create_result.
Proof. solve_decision. Defined.

Definition written (r : create_result) : bool :=
  match r with Created | AlreadyExists => true | _ => false end.

Definition kept (r : create_result) : bool := match r with CreateError => true | _ => false end.

(** [Flush]: the entries still unwritten, in order, and whether there was an
    error; [create] is the answer for each entry. *)
Definition Flush (create : Entry → create_result) (pending : list Entry) : list Entry * bool :=
  let remaining := filter (λ p, kept (create p) = true) pending in
  (remaining, negb (bool_decide (remaining = []))).

(** [flushAudit]: the entries in status afterwards ([patched] is whether the
    patch that removes them landed), and whether the reconcile is retried. *)
Definition flushAudit (create : Entry → create_result) (patched : bool) (pending : list Entry) : list Entry * bool :=
  if bool_decide (pending = []) then (pending, false)
  else
    let '(remaining, ferr) := Flush create pending in
    if negb (bool_decide (length remaining = length pending)) then
      if patched then (remaining, ferr) else (pending, true)
    else (pending, ferr).

(** [Pending]: an update added entries. *)
Definition Pending (oldPending newPending : list Entry) : bool :=
  if bool_decide (newPending = []) then false
  else if negb (bool_decide (length newPending = length oldPending)) then true
  else negb (bool_decide (e_Name <$> newPending = e_Name <$> oldPending)).

(** ** Nothing is lost unaccounted *)

(** How many records a list of entries stands for. *)
Definition records (l : list Entry) : Z := foldr (λ e n, mergedCount e + n) 0 l.

Lemma records_app l k : records (l ++ k) = records l + records k.
Proof. induction l as [|e l IH]; simpl; lia. Qed.

Lemma mergedCount_pos e : 1 ≤ mergedCount e.
Proof. unfold mergedCount. lia. Qed.

Lemma records_nonneg l : 0 ≤ records l.
Proof. induction l as [|e l IH]; simpl; [lia|]. pose proof (mergedCount_pos e). lia. Qed.

Lemma records_insert l j x y : l !! j = Some y → records (<[j := x]> l) = records l - mergedCount y + mergedCount x.
Proof.
  revert j. induction l as [|e l IH]; intros [|j]; simpl; [done..| |].
  - intros [= ->]. lia.
  - intros H. rewrite (IH _ H). lia.
Qed.

Lemma records_lookup l j y : l !! j = Some y → mergedCount y ≤ records l.
Proof.
  revert j. induction l as [|e l IH]; intros [|j]; simpl; [done..| |].
  - intros [= ->]. pose proof (records_nonneg l). lia.
  - intros H. pose proof (IH _ H). pose proof (mergedCount_pos e). lia.
Qed.

Lemma coalesce_with_Some fn x j l i m :
  coalesce_with fn x j l = Some (i, m) →
  ∃ k y, i = (j + k)%nat ∧ l !! k = Some y ∧ e_Merged m = i32 (mergedCount x + mergedCount y).
Proof.
  revert j. induction l as [|y l IH]; intros j; simpl; [done|].
  assert (coalesce_with fn x (S j) l = Some (i, m) →
    ∃ k z, i = (j + k)%nat ∧ (y :: l) !! k = Some z ∧ e_Merged m = i32 (mergedCount x + mergedCount z)) as Hrec.
  { intros H. destruct (IH _ H) as (k & z & -> & Hk & Hm). exists (S k), z. split_and!; [lia|done..]. }
  case_bool_decide; simpl; [|apply Hrec]. destruct (fn x y) as [m'|]; [|apply Hrec].
  destruct (Validate _); [|apply Hrec]. intros [= <- <-]. exists 0%nat, y. split_and!; [lia|done..].
Qed.

Lemma coalesceOldest_Some l l' :
  coalesceOldest l = Some l' → records l < 2 ^ 31 → length l = S (length l') ∧ records l' = records l.
Proof.
  revert l'. induction l as [|x l IH]; intros l'; simpl; [done|].
  assert (∀ l', cons x <$> coalesceOldest l = Some l' → mergedCount x + records l < 2 ^ 31 →
    S (length l) = S (length l') ∧ records l' = mergedCount x + records l) as Hrec.
  { intros k H Hlt. apply fmap_Some in H as (k' & H & ->). pose proof (mergedCount_pos x).
    destruct (IH _ H ltac:(lia)) as [IH1 IH2]. simpl. lia. }
  destruct (coalescers !! e_Action x) as [fn|]; [|apply Hrec].
  destruct (coalesce_with fn x 0 l) as [[j m]|] eqn:E; [|apply Hrec]. intros [= <-] Hlt.
  apply coalesce_with_Some in E as (k & y & -> & Hk & Hm). simpl in *.
  rewrite length_insert, (records_insert _ _ _ _ Hk). split; [done|].
  pose proof (records_lookup _ _ _ Hk). pose proof (mergedCount_pos x). pose proof (mergedCount_pos y).
  assert (i32 (mergedCount x + mergedCount y) = mergedCount x + mergedCount y) as Hi.
  { unfold i32. rewrite Z.mod_small; lia. }
  rewrite Hi in Hm. assert (mergedCount m = mergedCount x + mergedCount y) as -> by (unfold mergedCount at 1; rewrite Hm; lia). lia.
Qed.

Lemma shrink_spec fuel pending dropped :
  (length pending ≤ fuel + MaxPendingAuditEvents)%nat → records pending < 2 ^ 31 →
  let '(p, d) := shrink fuel pending dropped in
  (length p ≤ MaxPendingAuditEvents)%nat ∧ records p + records d = records pending + records dropped.
Proof.
  revert pending dropped. induction fuel as [|fuel IH]; intros pending dropped Hl Hr; simpl; [lia|].
  destruct (Nat.leb_spec (length pending) MaxPendingAuditEvents); [lia|].
  destruct (coalesceOldest pending) as [p|] eqn:E.
  - destruct (coalesceOldest_Some _ _ E Hr) as [H1 H2].
    specialize (IH p dropped ltac:(lia) ltac:(lia)). destruct (shrink fuel p dropped). lia.
  - destruct pending as [|x pending]; [simpl in *; lia|]. simpl in Hl, Hr. pose proof (mergedCount_pos x).
    rewrite skipn_cons, firstn_cons, skipn_O, firstn_O.
    specialize (IH pending (dropped ++ [x]) ltac:(lia) ltac:(lia)).
    destruct (shrink fuel pending (dropped ++ [x])) as [p d]. rewrite records_app in IH. simpl in *. lia.
Qed.

(** The outbox stays within its bound, and every record is accounted for: an
    accepted record is in the outbox, merged into another entry's count, or
    among the entries the overflow dropped; below the bound it is simply
    appended. *)
Theorem outbox_accounts pending e :
  (length pending ≤ MaxPendingAuditEvents)%nat → records pending + mergedCount e < 2 ^ 31 →
  let '(p, d) := Enqueue pending e in
  (length p ≤ MaxPendingAuditEvents)%nat ∧
  (Validate e = true → e_Name e ∉ e_Name <$> pending →
   records p + records d = records pending + mergedCount e ∧
   ((length pending < MaxPendingAuditEvents)%nat → p = pending ++ [e] ∧ d = [])) ∧
  (Validate e = false ∨ e_Name e ∈ e_Name <$> pending → p = pending ∧ d = []).
Proof.
  intros Hl Hr. unfold Enqueue. destruct (Validate e) eqn:Ev; cbn [negb]; [|by split_and!].
  case_bool_decide as Hin; [by split_and!|].
  pose proof (shrink_spec (S (length pending)) (pending ++ [e]) []) as H.
  assert (records (pending ++ [e]) = records pending + mergedCount e) as Hre by (rewrite records_app; simpl; lia).
  specialize (H ltac:(rewrite length_app; simpl; lia) ltac:(lia)). rewrite Hre in H.
  destruct (shrink (S (length pending)) (pending ++ [e]) []) as [p d] eqn:E. change (records []) with 0 in H.
  split_and!; [lia| |by intros [|]].
  intros _ _. split; [lia|]. intros Hlt. simpl in E.
  rewrite length_app in E. simpl in E. rewrite (proj2 (Nat.leb_le _ _)) in E by lia. by injection E as <- <-.
Qed.
End outbox.

(** ** A record is written once, and not forgotten before *)

Section history.
Variable Validate : Entry → bool.
Variable coalescers : gmap string (Entry → Entry → option Entry).

(** The outbox in status, the AuditEvents of the API server, the entries it
    refused, and those the overflow dropped. *)
Record sys := mkSys { pend : list Entry; store : gmap string Entry; refused : list Entry; overflow : list Entry }.

(** Enqueueing in a status patch, or a flush: [fault] is an answer the API server
    gives before it looks at the name, [patched] whether the patch that removes
    the written entries landed. *)
Inductive api_fault := FTerminating | FRejected | FError.

Inductive op := OEnqueue (e : Entry) | OFlush (fault : Entry → option api_fault) (patched : bool).

Definition answer (s : sys) (fault : Entry → option api_fault) (e : Entry) : create_result :=
  match fault e with
  | Some FTerminating => NamespaceTerminating
  | Some FRejected => Rejected
  | Some FError => CreateError
  | None => if bool_decide (is_Some (store s !! e_Name e)) then AlreadyExists else Created
  end.

Definition created (s : sys) (fault : Entry → option api_fault) : list Entry :=
  filter (λ e, answer s fault e = Created) (pend s).

Definition run_op (s : sys) (o : op) : sys :=
  match o with
  | OEnqueue e =>
      let '(p, d) := Enqueue Validate coalescers (pend s) e in mkSys p (store s) (refused s) (overflow s ++ d)
  | OFlush fault patched =>
      let '(p, _) := flushAudit (answer s fault) patched (pend s) in
      mkSys p (foldr (λ e m, <[e_Name e := e]> m) (store s) (created s fault))
        (refused s ++ filter (λ e, answer s fault e = NamespaceTerminating ∨ answer s fault e = Rejected) (pend s))
        (overflow s)
  end.

Definition run (ops : list op) : sys := foldl run_op (mkSys [] ∅ [] []) ops.

(** [m] is a record that the coalescer of the action made of [x] and another record, and
    it counts both. *)
Definition absorbed (x m : Entry) : Prop :=
  ∃ fn y m0, coalescers !! e_Action x = Some fn ∧ e_Action y = e_Action x ∧ (fn x y = Some m0 ∨ fn y x = Some m0) ∧
    m = set_merged (i32 (mergedCount x + mergedCount y)) m0 ∧ Validate m = true.

(** [m] is [x], or a record it was merged into, perhaps more than once. *)
Definition stands_for (m x : Entry) : Prop := rtc absorbed x m.

(** Every entry of [l] is, merged or not, in [l']. *)
Definition carried (l l' : list Entry) : Prop := ∀ x, x ∈ l → ∃ m, m ∈ l' ∧ stands_for m x.

(** Every entry of [l'] comes from one of [l]. *)
Definition made_of (l l' : list Entry) : Prop := ∀ m, m ∈ l' → ∃ x, x ∈ l ∧ stands_for m x.

Lemma stands_trans x y m : stands_for y x → stands_for m y → stands_for m x.
Proof. unfold stands_for. intros H1 H2. by etrans. Qed.

Lemma carried_trans l1 l2 l3 : carried l1 l2 → carried l2 l3 → carried l1 l3.
Proof. intros H1 H2 x (m & Hm & Hx)%H1. destruct (H2 m Hm) as (m' & Hm' & Hm''). exists m'. split; [done|]. by eapply stands_trans. Qed.

Lemma made_of_trans l1 l2 l3 : made_of l1 l2 → made_of l2 l3 → made_of l1 l3.
Proof. intros H1 H2 m (x & Hx & Hm)%H2. destruct (H1 x Hx) as (x' & Hx' & H'). exists x'. split; [done|]. by eapply stands_trans. Qed.

Lemma carried_sub l l' : l ⊆ l' → carried l l'.
Proof. intros H x Hx. exists x. split; [by apply H|apply rtc_refl]. Qed.

Lemma made_of_sub l l' : l' ⊆ l → made_of l l'.
Proof. intros H m Hm. exists m. split; [by apply H|apply rtc_refl]. Qed.

Lemma coalesce_with_absorbs fn x j l i m :
  coalescers !! e_Action x = Some fn → coalesce_with Validate fn x j l = Some (i, m) →
  ∃ k y, i = (j + k)%nat ∧ l !! k = Some y ∧ absorbed x m ∧ absorbed y m.
Proof.
  intros Hfn. revert j. induction l as [|y l IH]; intros j; simpl; [done|].
  assert (coalesce_with Validate fn x (S j) l = Some (i, m) →
    ∃ k z, i = (j + k)%nat ∧ (y :: l) !! k = Some z ∧ absorbed x m ∧ absorbed z m) as Hrec.
  { intros H. destruct (IH _ H) as (k & z & -> & Hk & Hm). exists (S k), z. split_and!; [lia|done|apply Hm..]. }
  case_bool_decide as Ea; simpl; [|apply Hrec]. destruct (fn x y) as [m'|] eqn:Em; [|apply Hrec].
  destruct (Validate _) eqn:Ev; [|apply Hrec]. intros [= <- <-]. exists 0%nat, y. split_and!; [lia|done| |].
  - exists fn, y, m'. auto.
  - exists fn, x, m'. rewrite Ea. split_and!; auto. by rewrite Z.add_comm.
Qed.

Lemma insert_carried l k y m : l !! k = Some y → absorbed y m → carried l (<[k := m]> l) ∧ m ∈ <[k := m]> l.
Proof.
  intros Hk Hy. pose proof (lookup_lt_Some _ _ _ Hk) as Hlt.
  assert (m ∈ <[k := m]> l) as Hm by (by apply list_elem_of_insert). split; [|done].
  intros z (i & Hi)%list_elem_of_lookup. destruct (decide (i = k)) as [->|Hne].
  - simplify_eq. exists m. split; [done|]. by apply rtc_once.
  - exists z. split; [|apply rtc_refl]. apply list_elem_of_lookup. exists i. by rewrite list_lookup_insert_ne.
Qed.

(** Merging loses nothing, and invents nothing. *)
Lemma coalesceOldest_carries l l' : coalesceOldest Validate coalescers l = Some l' → carried l l' ∧ made_of l l'.
Proof.
  revert l'. induction l as [|x l IH]; intros l'; simpl; [done|].
  assert (∀ l', cons x <$> coalesceOldest Validate coalescers l = Some l' → carried (x :: l) l' ∧ made_of (x :: l) l') as Hrec.
  { intros k (k' & H & ->)%fmap_Some. destruct (IH _ H) as [IH1 IH2]. split.
    - intros z [->|Hz]%elem_of_cons; [exists x; split; [by left|apply rtc_refl]|].
      destruct (IH1 z Hz) as (m & ? & ?). exists m. split; [by right|done].
    - intros m [->|Hm]%elem_of_cons; [exists x; split; [by left|apply rtc_refl]|].
      destruct (IH2 m Hm) as (z & ? & ?). exists z. split; [by right|done]. }
  destruct (coalescers !! e_Action x) as [fn|] eqn:Hfn; [|apply Hrec].
  destruct (coalesce_with Validate fn x 0 l) as [[j m]|] eqn:E; [|apply Hrec]. intros [= <-].
  apply (coalesce_with_absorbs _ _ _ _ _ _ Hfn) in E as (k & y & -> & Hk & Hx & Hy).
  destruct (insert_carried _ _ _ _ Hk Hy) as [Hc Hm]. split.
  - intros z [->|Hz]%elem_of_cons; [|by apply Hc]. exists m. split; [done|by apply rtc_once].
  - intros z Hz. destruct (decide (z = m)) as [->|Hne]; [exists x; split; [by left|by apply rtc_once]|].
    exists z. split; [|apply rtc_refl]. right. apply list_elem_of_lookup in Hz as [i Hi].
    destruct (decide (i = k)) as [->|Hik]; [|rewrite list_lookup_insert_ne in Hi by done; by eapply list_elem_of_lookup_2].
    rewrite list_lookup_insert_eq in Hi by (by eapply lookup_lt_Some). congruence.
Qed.

(** The overflow: what leaves the outbox was merged into what stays, or dropped. *)
Lemma shrink_carries fuel p d :
  let '(p', d') := shrink Validate coalescers fuel p d in carried (d ++ p) (d' ++ p') ∧ made_of (d ++ p) (d' ++ p').
Proof.
  revert p d. induction fuel as [|fuel IH]; intros p d; simpl; [by split; [apply carried_sub|apply made_of_sub]|].
  destruct (_ <=? _)%nat; [by split; [apply carried_sub|apply made_of_sub]|].
  destruct (coalesceOldest Validate coalescers p) as [p1|] eqn:E.
  - apply coalesceOldest_carries in E as [E1 E2]. specialize (IH p1 d). destruct (shrink _ _ _ _ _) as [p' d']. destruct IH as [IH1 IH2]. split.
    + eapply carried_trans; [|exact IH1]. intros x [Hx|Hx]%elem_of_app; [exists x; split; [set_solver|apply rtc_refl]|].
      destruct (E1 x Hx) as (m & ? & ?). exists m. split; [set_solver|done].
    + eapply made_of_trans; [|exact IH2]. intros x [Hx|Hx]%elem_of_app; [exists x; split; [set_solver|apply rtc_refl]|].
      destruct (E2 x Hx) as (m & ? & ?). exists m. split; [set_solver|done].
  - specialize (IH (drop 1 p) (d ++ take 1 p)). destruct (shrink _ _ _ _ _) as [p' d']. by rewrite <- app_assoc, take_drop in IH.
Qed.

Lemma Enqueue_cases p e :
  let '(p', d') := Enqueue Validate coalescers p e in
  (p' = p ∧ d' = [] ∧ (Validate e = false ∨ e_Name e ∈ e_Name <$> p)) ∨
  ((e_Name e ∉ e_Name <$> p) ∧ carried (p ++ [e]) (d' ++ p') ∧ made_of (p ++ [e]) (d' ++ p')).
Proof.
  unfold Enqueue. destruct (Validate e); cbn [negb]; [|auto]. case_bool_decide as Hin; [auto|].
  pose proof (shrink_carries (S (length p)) (p ++ [e]) []) as H. destruct (shrink _ _ _ _ _) as [p' d']. right. auto.
Qed.

(** Without a coalescer for the actions in the outbox the loop only drops entries. *)
Lemma coalesceOldest_none l : (∀ x, x ∈ l → coalescers !! e_Action x = None) → coalesceOldest Validate coalescers l = None.
Proof.
  induction l as [|x l IH]; intros H; simpl; [done|]. rewrite (H x) by (by left). rewrite IH; [done|]. intros y Hy. apply H. by right.
Qed.

Lemma shrink_drops fuel p d :
  (∀ x, x ∈ p → coalescers !! e_Action x = None) → ∃ k, shrink Validate coalescers fuel p d = (drop k p, d ++ take k p).
Proof.
  revert p d. induction fuel as [|fuel IH]; intros p d H; simpl; [exists 0%nat; by rewrite drop_0, take_0, app_nil_r|].
  destruct (_ <=? _)%nat; [exists 0%nat; by rewrite drop_0, take_0, app_nil_r|].
  rewrite (coalesceOldest_none _ H). destruct (IH (drop 1 p) (d ++ take 1 p)) as [k ->].
  { intros x Hx. apply H. rewrite <- (take_drop 1 p). set_solver. }
  exists (S k). destruct p as [|x p]; simpl; [by rewrite drop_nil, take_nil, !app_nil_r|].
  by rewrite drop_0, take_0, <-app_assoc.
Qed.

Lemma Enqueue_names p e :
  (∀ x, x ∈ p ++ [e] → coalescers !! e_Action x = None) → NoDup (e_Name <$> p) → NoDup (e_Name <$> (Enqueue Validate coalescers p e).1).
Proof.
  intros H Hn. unfold Enqueue. destruct (Validate e); cbn [negb]; [|done]. case_bool_decide as Hin; [done|].
  destruct (shrink_drops (S (length p)) (p ++ [e]) [] H) as [k ->]. cbn [fst].
  assert (NoDup (e_Name <$> p ++ [e])) as Hd.
  { rewrite fmap_app. apply NoDup_app. split_and!; [done|set_solver|apply NoDup_singleton]. }
  rewrite <- (take_drop k (p ++ [e])), fmap_app in Hd. by apply NoDup_app in Hd as (_ & _ & ?).
Qed.

(** Where a record is. *)
Definition located (s : sys) (m : Entry) : Prop :=
  m ∈ pend s ∨ is_Some (store s !! e_Name m) ∨ m ∈ refused s ∨ m ∈ overflow s.

(** [m] is a record that was enqueued, or merged from ones that were. *)
Definition genuine (ops : list op) (m : Entry) : Prop := ∃ x, OEnqueue x ∈ ops ∧ stands_for m x.

(** A record of the name, or one it was merged into, is somewhere. *)
Definition accounted (ops : list op) (s : sys) (n : string) : Prop :=
  ∃ x m, genuine ops x ∧ e_Name x = n ∧ stands_for m x ∧ located s m.

Record sys_inv (ops : list op) (s : sys) : Prop := {
  si_names : (∀ e, OEnqueue e ∈ ops → coalescers !! e_Action e = None) → NoDup (e_Name <$> pend s) ∧ ∀ m, m ∈ pend s → OEnqueue m ∈ ops;
  si_pend m : m ∈ pend s → genuine ops m;
  si_store n m : store s !! n = Some m → e_Name m = n ∧ genuine ops m;
  si_all e : OEnqueue e ∈ ops → Validate e = true → accounted ops s (e_Name e)
}.

Lemma genuine_more ops o m : genuine ops m → genuine (ops ++ [o]) m.
Proof. intros (x & ? & ?). exists x. split; [set_solver|done]. Qed.

Lemma created_store s fault n :
  foldr (λ e m, <[e_Name e := e]> m) (store s) (created s fault) !! n =
  match list_find (λ e, e_Name e = n) (created s fault) with
  | Some (_, e) => Some e
  | None => store s !! n
  end.
Proof.
  induction (created s fault) as [|e l IH]; simpl; [done|]. case_decide as E.
  - subst n. apply lookup_insert_eq.
  - rewrite lookup_insert_ne, IH by done. by destruct (list_find _ l) as [[]|].
Qed.

(** What happens to what is located when an entry is enqueued. *)
Lemma enqueue_located s e p d m :
  carried (pend s ++ [e]) (d ++ p) → located s m ∨ m = e →
  ∃ m', stands_for m' m ∧ located (mkSys p (store s) (refused s) (overflow s ++ d)) m'.
Proof.
  intros Hc H.
  assert (m ∈ pend s ++ [e] ∨ is_Some (store s !! e_Name m) ∨ m ∈ refused s ∨ m ∈ overflow s) as [Hm|[Hm|[Hm|Hm]]].
  { destruct H as [[H|[H|[H|H]]]| ->]; set_solver. }
  - destruct (Hc m Hm) as (m' & Hm' & Hs). exists m'. split; [done|]. unfold located. simpl. set_solver.
  - exists m. split; [apply rtc_refl|]. right. by left.
  - exists m. split; [apply rtc_refl|]. right. right. by left.
  - exists m. split; [apply rtc_refl|]. unfold located. simpl. set_solver.
Qed.

Lemma enqueue_inv ops s e : sys_inv ops s → sys_inv (ops ++ [OEnqueue e]) (run_op s (OEnqueue e)).
Proof.
  intros [Hn Hp Hs Ha]. simpl. pose proof (Enqueue_names (pend s) e) as Hnames. pose proof (Enqueue_cases (pend s) e) as Hc.
  destruct (Enqueue Validate coalescers (pend s) e) as [p d] eqn:Eq. cbn [fst] in Hnames.
  assert ((∀ x, OEnqueue x ∈ ops ++ [OEnqueue e] → coalescers !! e_Action x = None) → NoDup (e_Name <$> p) ∧ ∀ m, m ∈ p → OEnqueue m ∈ ops ++ [OEnqueue e]) as HN.
  { intros H. destruct Hn as [Hn1 Hn2]; [intros x Hx; apply H; set_solver|]. split.
    - apply Hnames; [|done]. intros x [Hx|Hx]%elem_of_app; apply H; [apply elem_of_app; left; by apply Hn2|set_solver].
    - intros m Hm. destruct Hc as [(-> & _)|(_ & _ & Hmade)]; [set_solver|].
      unfold Enqueue in Eq. destruct (Validate e); cbn [negb] in Eq; [|simplify_eq; set_solver]. case_bool_decide; [simplify_eq; set_solver|].
      destruct (shrink_drops (S (length (pend s))) (pend s ++ [e]) []) as [k Ek].
      { intros x [Hx|Hx]%elem_of_app; apply H; [apply elem_of_app; left; by apply Hn2|set_solver]. }
      rewrite Ek in Eq. injection Eq as <- _. assert (m ∈ pend s ++ [e]) as [Hm'|Hm']%elem_of_app
        by (rewrite <- (take_drop k (pend s ++ [e])); set_solver); [apply elem_of_app; left; by apply Hn2|set_solver]. }
  destruct Hc as [(-> & -> & Hc)|(Hnew & Hcar & Hmade)].
  - rewrite app_nil_r. split; simpl; [done|intros m Hm; by apply genuine_more, Hp| |].
    { intros n m Hm. destruct (Hs _ _ Hm). split; [done|]. by apply genuine_more. }
    intros x [Hx|Hx]%elem_of_app Hv.
    + destruct (Ha x Hx Hv) as (y & m & Hy & ? & ? & ?). exists y, m. split_and!; [by apply genuine_more|done..].
    + apply list_elem_of_singleton in Hx as [= ->]. destruct Hc as [|Hc]; [congruence|].
      apply list_elem_of_fmap in Hc as (y & -> & Hy). exists y, y. split_and!; [by apply genuine_more, Hp|done|apply rtc_refl|by left].
  - assert (∀ m, m ∈ d ++ p → genuine (ops ++ [OEnqueue e]) m) as Hg.
    { intros m (x & [Hx|Hx]%elem_of_app & Hm)%Hmade.
      - destruct (Hp x Hx) as (z & ? & ?). exists z. split; [set_solver|by eapply stands_trans].
      - apply list_elem_of_singleton in Hx as ->. exists e. split; [set_solver|done]. }
    split; simpl; [done|intros m Hm; apply Hg; set_solver| |].
    { intros n m Hm. destruct (Hs _ _ Hm). split; [done|]. by apply genuine_more. }
    intros x [Hx|Hx]%elem_of_app Hv.
    + destruct (Ha x Hx Hv) as (y & m & Hy & Hn' & Hym & Hl). destruct (enqueue_located s e p d m Hcar (or_introl Hl)) as (m' & Hm' & Hl').
      exists y, m'. split_and!; [by apply genuine_more|done|by eapply stands_trans|done].
    + apply list_elem_of_singleton in Hx as [= ->]. destruct (enqueue_located s e p d e Hcar (or_intror eq_refl)) as (m' & Hm' & Hl').
      exists e, m'. split_and!; [|done..]. exists e. split; [set_solver|apply rtc_refl].
Qed.

Lemma flush_pending s fault patched e :
  e ∈ pend s → e ∈ (flushAudit (answer s fault) patched (pend s)).1 ∨ kept (answer s fault e) = false.
Proof.
  intros He. unfold flushAudit, Flush. case_bool_decide; [by left|].
  case_bool_decide; simpl; [by left|]. destruct patched; simpl; [|by left].
  destruct (kept (answer s fault e)) eqn:E; [left|by right]. by apply list_elem_of_filter.
Qed.

Lemma flush_sublist s fault patched : (flushAudit (answer s fault) patched (pend s)).1 `sublist_of` pend s.
Proof.
  unfold flushAudit, Flush. case_bool_decide; [done|]. case_bool_decide; simpl; [done|].
  destruct patched; simpl; [apply sublist_filter|done].
Qed.

Lemma flush_located s fault patched m :
  located s m → located (run_op s (OFlush fault patched)) m.
Proof.
  intros H. simpl. pose proof (flush_pending s fault patched m) as Hkeep.
  destruct (flushAudit (answer s fault) patched (pend s)) as [p err]. simpl in Hkeep. unfold located. simpl.
  assert (is_Some (store s !! e_Name m) →
    is_Some (foldr (λ e m, <[e_Name e := e]> m) (store s) (created s fault) !! e_Name m)) as Hgrow.
  { intros Hx. rewrite created_store. destruct (list_find _ _) as [[]|]; [done|done]. }
  rewrite elem_of_app. destruct H as [Hin|[|[|]]]; [|by auto..].
  destruct (Hkeep Hin) as [|Hk]; [by left|]. destruct (answer s fault m) eqn:E; simpl in Hk; try done.
  - right; left. rewrite created_store. destruct (list_find _ _) as [[]|] eqn:Ef; [done|].
    apply list_find_None in Ef. rewrite Forall_forall in Ef. destruct (Ef m); [|done]. by apply list_elem_of_filter.
  - right; left. apply Hgrow. unfold answer in E. repeat case_match; try done. by bools.
  - do 2 right; left. right. apply list_elem_of_filter. auto.
  - do 2 right; left. right. apply list_elem_of_filter. auto.
Qed.

Lemma flush_inv ops s fault patched :
  sys_inv ops s → sys_inv (ops ++ [OFlush fault patched]) (run_op s (OFlush fault patched)).
Proof.
  intros [Hn Hp Hs Ha]. pose proof (flush_sublist s fault patched) as Hsub. pose proof (flush_located s fault patched) as Hloc.
  simpl in *. destruct (flushAudit (answer s fault) patched (pend s)) as [p err]. simpl in *.
  assert (∀ m, m ∈ p → m ∈ pend s) as Hin by (intros m Hm; by eapply elem_of_sublist).
  split; simpl.
  - intros H. destruct Hn as [Hn1 Hn2]; [intros e He; apply H; set_solver|]. split; [|intros m Hm; apply elem_of_app; left; by apply Hn2, Hin].
    apply (sublist_NoDup (e_Name <$> p) (e_Name <$> pend s)); [done|by apply fmap_sublist].
  - intros m Hm. by apply genuine_more, Hp, Hin.
  - intros n e. rewrite created_store. destruct (list_find _ _) as [[i x]|] eqn:Ef.
    + intros [= <-]. apply list_find_Some in Ef as (Hi & Hx & _). apply list_elem_of_lookup_2 in Hi.
      apply list_elem_of_filter in Hi as [_ Hi]. split; [done|]. by apply genuine_more, Hp.
    + intros Hx. destruct (Hs _ _ Hx). split; [done|]. by apply genuine_more.
  - intros e He Hv. assert (OEnqueue e ∈ ops) as He' by set_solver.
    destruct (Ha e He' Hv) as (x & m & ? & ? & ? & Hl). exists x, m. split_and!; [by apply genuine_more|done|done|by apply Hloc].
Qed.

(** Enqueueing in an empty outbox, and a flush of one entry without a fault. *)
Lemma enqueue_one e st r o :
  Validate e = true → run_op (mkSys [] st r o) (OEnqueue e) = mkSys [e] st r o.
Proof. intros Hv. simpl. unfold Enqueue. rewrite Hv. simpl. by rewrite app_nil_r. Qed.

Lemma flush_one e st r o :
  run_op (mkSys [e] st r o) (OFlush (λ _, None) true) =
  mkSys [] (match st !! e_Name e with Some _ => st | None => <[e_Name e := e]> st end) r o.
Proof.
  simpl. unfold flushAudit, Flush, created, answer. simpl.
  destruct (st !! e_Name e) as [x|] eqn:E.
  - assert (bool_decide (is_Some (st !! e_Name e)) = true) as B by (apply bool_decide_eq_true; by rewrite E).
    rewrite !filter_cons, B. simpl. by rewrite app_nil_r.
  - assert (bool_decide (is_Some (st !! e_Name e)) = false) as B.
    { apply bool_decide_eq_false. rewrite E. by intros [? [=]]. }
    rewrite !filter_cons, B. simpl. by rewrite app_nil_r.
Qed.

End history.

(** A full outbox merges: with a coalescer that keeps the newer record, 33 records of
    one action leave 32 entries, of which one counts two. *)
Definition demo_coalescers : gmap string (Entry → Entry → option Entry) := {["GateChanged" := λ _ y, Some y]}.

Definition demo_names : list string :=
  (λ i, String (Ascii.ascii_of_nat (65 + i)) EmptyString) <$> seq 0 33.

Definition demo_ops : list op := (λ n, OEnqueue (mkEntry n "GateChanged" "Success" 0 "")) <$> demo_names.


Lemma outbox_accounts_witness :
  let e := mkEntry "s-started" "PromotionStarted" "Pending" 0 "" in
  (Enqueue (λ _, true) ∅ [] e).1 = [e] ∧ (length (Enqueue (λ _, true) ∅ [] e).1 ≤ MaxPendingAuditEvents)%nat.
Proof.
  intros e. pose proof (outbox_accounts (λ _, true) ∅ [] e ltac:(simpl; lia) ltac:(vm_compute; reflexivity)) as H.
  split; [vm_compute; reflexivity|]. destruct (Enqueue (λ _, true) ∅ [] e) as [p d]. apply H.
Defined.

End Outbox.
