(* ===== verification/Bake.v ===== *)
(** * Bake: the contiguous healthy window

    Model of handleBake, bakeDeadline, bakeMaxDuration and pastBakeDeadline of
    src/pkg/reconciler/promotionstep/reconciler.go: with a bake, a step is
    verified once its checks have been healthy for a number of minutes without
    a break; an alarm restarts or fails the window, and a window that keeps being
    stopped is bounded in time.  [Promotion] calls it from the health check. *)

From stdpp Require Import base strings list.
From Stdlib Require Import Lia ZArith.
From S2P Require Import Prelude.

Module Bake.

Definition minute : Duration := 60 * second.

(** [BakeSpec] of an environment. *)
Record BakeSpec := mkBake { Minutes : Z; Policy : string; MaxDuration : string }.

(** [health.HealthStatus], as far as it is read. *)
Record HealthStatus := mkHealth {
  Healthy : bool;
  Progressing : bool;
  Terminal : bool;
  NotFound : bool;
  TargetUpdated : bool
}.

(** The fields of the step's status that the health check keeps. *)
Record Health := mkHealthFields {
  HealthCheckExpiry : option Time;
  LastHealthCheckAt : option Time;
  ConsecutiveHealthFailures : Z;
  TargetUpdatedAt : option Time;
  BakeStartedAt : option Time;
  BakeFirstStartedAt : option Time;
  BakeElapsedMinutes : Z;
  BakeResets : Z
}.

Definition count_failure (h : Health) : Health :=
  mkHealthFields (HealthCheckExpiry h) (LastHealthCheckAt h) (i64 (ConsecutiveHealthFailures h + 1)) (TargetUpdatedAt h)
    (BakeStartedAt h) (BakeFirstStartedAt h) (BakeElapsedMinutes h) (BakeResets h).

Definition set_first (t : option Time) (h : Health) : Health :=
  mkHealthFields (HealthCheckExpiry h) (LastHealthCheckAt h) (ConsecutiveHealthFailures h) (TargetUpdatedAt h)
    (BakeStartedAt h) t (BakeElapsedMinutes h) (BakeResets h).

Definition count_reset (h : Health) : Health :=
  mkHealthFields (HealthCheckExpiry h) (LastHealthCheckAt h) (ConsecutiveHealthFailures h) (TargetUpdatedAt h)
    (BakeStartedAt h) (BakeFirstStartedAt h) (BakeElapsedMinutes h) (i64 (BakeResets h + 1)).

(** What the caller does: wait for the next check, pass the health check, or
    apply onHealthFailure ([deadline] says which message). *)
Inductive bake_outcome := BakeWait | BakePass | BakeAlarm (deadline : bool).

#[export] Instance bake_outcome_eq_dec : EqDecision bake_outcome.
Proof. solve_decision. Defined.

Section bake.
(** [time.ParseDuration]. *)
Variable ParseDuration : string → option Duration.

Definition bakeMaxDuration (b : BakeSpec) (timeout : Duration) : Duration :=
  let window := i64 (Minutes b * minute) in
  match (if bool_decide (MaxDuration b = "") then None else ParseDuration (MaxDuration b)) with
  | Some d => if 0 <? d then Z.max d window else i64 (window + timeout)
  | None => i64 (window + timeout)
  end.

Definition bakeDeadline (b : option BakeSpec) (timeout : Duration) (h : Health) : option Time :=
  match b with
  | None => None
  | Some b =>
      match (match BakeFirstStartedAt h with Some t => Some t | None => BakeStartedAt h end) with
      | Some first => Some (first + bakeMaxDuration b timeout)
      | None => None
      end
  end.

Definition pastBakeDeadline (b : option BakeSpec) (timeout : Duration) (now : Time) (h : Health) : bool :=
  match bakeDeadline b timeout h with Some d => negb (now <? d) | None => false end.

(** The closure [stopWindow]. *)
Definition stopWindow (b : BakeSpec) (timeout : Duration) (now : Time) (h : Health) : Health :=
  let expiry := now + timeout in
  let expiry := match bakeDeadline (Some b) timeout h with
                | Some d => if d <? expiry then d else expiry
                | None => expiry
                end in
  mkHealthFields (Some expiry) (LastHealthCheckAt h) (ConsecutiveHealthFailures h) (TargetUpdatedAt h)
    None (BakeFirstStartedAt h) 0 (BakeResets h).

(** A healthy result: the window starts, or its elapsed minutes are counted at
    [clock], read after [now].  [int64(d.Minutes())] is exact below 2^18 minutes,
    where the float64 is. *)
Definition healthy_window (now clock : Time) (h : Health) : Health :=
  match BakeStartedAt h with
  | None =>
      mkHealthFields (HealthCheckExpiry h) (LastHealthCheckAt h) 0 (TargetUpdatedAt h) (Some now)
        (match BakeFirstStartedAt h with None => Some now | f => f end) 0 (BakeResets h)
  | Some t =>
      mkHealthFields (HealthCheckExpiry h) (LastHealthCheckAt h) 0 (TargetUpdatedAt h) (Some t)
        (BakeFirstStartedAt h) (Z.quot (sub_time clock t) minute) (BakeResets h)
  end.

Definition handleBake (b : BakeSpec) (timeout : Duration) (now clock : Time) (result : HealthStatus) (h : Health) :
  bake_outcome * Health :=
  let h := if negb (Progressing result) && negb (Healthy result) then count_failure h else h in
  let h := match BakeFirstStartedAt h, BakeStartedAt h with
           | None, Some t => set_first (Some t) h
           | _, _ => h
           end in
  let running := bool_decide (is_Some (BakeStartedAt h)) in
  let policy := if bool_decide (Policy b = "") then "reset-on-alarm" else Policy b in
  if negb (Healthy result) && negb (Progressing result) && negb running && bool_decide (policy = "fail-on-alarm") &&
     (negb (NotFound result) || bool_decide (is_Some (BakeFirstStartedAt h)))
  then (BakeAlarm false, h)
  else if negb (Healthy result) && negb running then (BakeWait, h)
  else if Progressing result then
    let h := stopWindow b timeout now h in
    if pastBakeDeadline (Some b) timeout now h then (BakeAlarm true, count_failure h) else (BakeWait, h)
  else if negb (Healthy result) then
    if negb (bool_decide (policy = "reset-on-alarm")) then (BakeAlarm false, h)
    else
      let h := count_reset (stopWindow b timeout now h) in
      if pastBakeDeadline (Some b) timeout now h then (BakeAlarm true, h) else (BakeWait, h)
  else
    let h := healthy_window now clock h in
    if Minutes b <=? BakeElapsedMinutes h then (BakePass, h) else (BakeWait, h).

(** ** Histories of checks *)

Record check := mkCheck { c_now : Time; c_clock : Time; c_result : HealthStatus }.

(** A check that counts towards the window. *)
Definition healthy (c : check) : Prop := Healthy (c_result c) = true ∧ Progressing (c_result c) = false.

Variable b : BakeSpec.
Variable timeout : Duration.
Abbreviation bake c h := (handleBake b timeout (c_now c) (c_clock c) (c_result c) h).

(** The checks of a step that has not started to bake, none of which ended it.
    Between two checks the reconciler sets other fields, and an expiry that was
    not set. *)
Inductive baking : list check → Health → Prop :=
  | baking_start h : BakeStartedAt h = None → BakeFirstStartedAt h = None → baking [] h
  | baking_check cs h c h' : baking cs h → bake c h = (BakeWait, h') → baking (cs ++ [c]) h'
  | baking_other cs h h' :
      baking cs h → BakeStartedAt h' = BakeStartedAt h → BakeFirstStartedAt h' = BakeFirstStartedAt h →
      (HealthCheckExpiry h ≠ None → HealthCheckExpiry h' = HealthCheckExpiry h) → baking cs h'.

(** Recording the first start where an older controller did not. *)
Definition with_first (h : Health) : option Time :=
  match BakeFirstStartedAt h with None => BakeStartedAt h | f => f end.

(** What a check that does not end the bake does to the window. *)
Lemma bake_wait c h h' :
  bake c h = (BakeWait, h') →
  (healthy c ∧ BakeFirstStartedAt h' = (match with_first h with None => Some (c_now c) | f => f end) ∧
   BakeStartedAt h' = (match BakeStartedAt h with None => Some (c_now c) | t => t end)) ∨
  (BakeStartedAt h' = None ∧ BakeFirstStartedAt h' = with_first h ∧
   ((BakeStartedAt h = None ∧ HealthCheckExpiry h' = HealthCheckExpiry h) ∨
    ∃ e, HealthCheckExpiry h' = Some e ∧ e ≤ c_now c + timeout ∧
      ∀ f, with_first h = Some f → e ≤ f + bakeMaxDuration b timeout ∧ c_now c < f + bakeMaxDuration b timeout)).
Proof.
  unfold handleBake, with_first, healthy. destruct (c_result c) as [hl pr tm nf tu], h as [ex la cf tu' st fi el rs]. simpl.
  destruct hl, pr, st as [st|], fi as [fi|]; simpl; intros H;
    repeat (case_bool_decide; simpl in H); unfold pastBakeDeadline, bakeDeadline in H; simpl in H;
    repeat match type of H with
    | context [if ?x then _ else _] => destruct x eqn:?; simpl in H; try done
    end;
    try done; try (injection H as <-; simpl); try (left; done);
    right; (split_and!; [done|done|]);
    try (left; done);
    right; unfold bakeDeadline; simpl; (eexists; split_and!; [done| |intros f [= <-]]);
    repeat match goal with
    | H : (_ <? _) = true |- _ => apply Z.ltb_lt in H
    | H : (_ <? _) = false |- _ => apply Z.ltb_ge in H
    | H : negb _ = false |- _ => apply negb_false_iff in H
    | |- context [if ?x then _ else _] => destruct x eqn:?
    end; lia.
Qed.

(** A list of checks, run. *)
Fixpoint all_wait (h : Health) (cs : list check) : bool :=
  match cs with
  | [] => true
  | c :: cs => bool_decide ((bake c h).1 = BakeWait) && all_wait (bake c h).2 cs
  end.

Lemma baking_run cs0 h cs :
  baking cs0 h → all_wait h cs = true → baking (cs0 ++ cs) (foldl (λ h c, (bake c h).2) h cs).
Proof.
  revert cs0 h. induction cs as [|c cs IH]; intros cs0 h Hb Hw; simpl in *; [by rewrite app_nil_r|]. bools.
  change (c :: cs) with ([c] ++ cs). rewrite app_assoc. apply IH; [|done].
  apply baking_check with h; [done|]. destruct (bake c h); simpl in *; by subst.
Qed.

(** The running window starts at a check, and every check since was healthy. *)
Lemma baking_window cs h t :
  baking cs h → BakeStartedAt h = Some t →
  ∃ pre c rest, cs = pre ++ c :: rest ∧ c_now c = t ∧ Forall healthy (c :: rest).
Proof.
  intros Hb. revert t. induction Hb as [h Hs|cs h c h' Hb IH Hc|cs h h' Hb IH Hs Hf He]; intros t Ht; [congruence| |].
  - destruct (bake_wait _ _ _ Hc) as [(Hh & _ & Hs)|(Hs & _)]; [|congruence].
    rewrite Hs in Ht. destruct (BakeStartedAt h) as [t'|].
    + injection Ht as ->. destruct (IH t eq_refl) as (pre & c0 & rest & -> & Hn & Hr).
      exists pre, c0, (rest ++ [c]). split_and!; [by rewrite <-app_assoc|done|].
      rewrite app_comm_cons. apply Forall_app. split; [done|by constructor].
    + injection Ht as <-. exists cs, c, []. split_and!; [done..|by constructor].
  - rewrite Hs in Ht. by apply IH.
Qed.

Lemma quot_minutes n d : 0 < n → n <= Z.quot d minute → n * minute ≤ d.
Proof.
  intros Hn Hq. assert (0 < minute) as Hm by done. destruct (Z.le_gt_cases d 0) as [Hd|Hd].
  - assert (Z.quot d minute ≤ 0); [|lia]. rewrite <-(Z.quot_0_l minute) by lia. by apply Z.quot_le_mono.
  - rewrite Z.quot_div_nonneg in Hq by lia. pose proof (Z.mul_div_le d minute). nia.
Qed.

(** A bake passes only after its whole window: when a check verifies the step,
    that check and all checks since some earlier one were healthy, and at least
    bake.minutes passed between the two. *)
Theorem bake_contiguous cs h c h' :
  0 < Minutes b → baking cs h → bake c h = (BakePass, h') →
  healthy c ∧ ∃ pre c0 rest, cs = pre ++ c0 :: rest ∧ Forall healthy (c0 :: rest) ∧
    Minutes b * minute ≤ c_clock c - c_now c0.
Proof.
  intros Hm Hb Hc.
  assert (healthy c ∧ ∃ t, BakeStartedAt h = Some t ∧ Minutes b ≤ Z.quot (sub_time (c_clock c) t) minute) as (Hh & t & Ht & Hq).
  { unfold handleBake in Hc. unfold healthy. destruct (c_result c) as [hl pr tm nf tu], h as [ex la cf tu' st fi el rs].
    simpl in *. destruct hl, pr, st as [st|], fi as [fi|]; simpl in Hc;
      repeat (case_bool_decide; simpl in Hc); unfold pastBakeDeadline, bakeDeadline in Hc; simpl in Hc;
      repeat match type of Hc with context [if ?x then _ else _] => destruct x eqn:?; simpl in Hc; try done end;
      try done; try (rewrite Z.leb_le in *; by eauto); rewrite Z.leb_le in *; lia. }
  split; [done|]. destruct (baking_window _ _ _ Hb Ht) as (pre & c0 & rest & -> & <- & Hr).
  exists pre, c0, rest. split_and!; [done..|]. apply quot_minutes in Hq; [|done].
  unfold sub_time in Hq. assert (0 < minute) by done. nia.
Qed.

(** Flapping ends: once a window has started, the step is either inside a
    window that is healthy so far, or its health check expires no later than
    bakeMaxDuration after the first healthy check; and a check that breaks a
    window at or after that deadline is never waited out. *)
Theorem flapping_bounded cs h f :
  baking cs h → BakeFirstStartedAt h = Some f →
  (BakeStartedAt h = None → ∃ e, HealthCheckExpiry h = Some e ∧ e ≤ f + bakeMaxDuration b timeout) ∧
  ∀ c, BakeStartedAt h ≠ None → Healthy (c_result c) = false → f + bakeMaxDuration b timeout ≤ c_now c →
    (bake c h).1 ≠ BakeWait.
Proof.
  intros Hb Hf. split.
  - revert f Hf. induction Hb as [h Hs Hf0|cs h c h' Hb IH Hc|cs h h' Hb IH Hs Hff He]; intros f Hf Hst; [congruence| |].
    + destruct (bake_wait _ _ _ Hc) as [(_ & _ & Hs)|(_ & Hff & Hcase)].
      * rewrite Hs in Hst. by destruct (BakeStartedAt h).
      * rewrite Hf in Hff. destruct Hcase as [[Hs He]|(e & He & _ & Hd)].
        -- rewrite He. apply IH; [|done]. unfold with_first in Hff. by destruct (BakeFirstStartedAt h); congruence.
        -- exists e. split; [done|]. by apply Hd.
    + rewrite Hff in Hf. rewrite Hs in Hst. destruct (IH f Hf Hst) as (e & He' & Hle).
      exists e. rewrite He by congruence. done.
  - intros c Hst Hun Hd. destruct (bake c h) as [o h'] eqn:E. simpl. intros ->.
    destruct (bake_wait _ _ _ E) as [[[Hh _] _]|(_ & _ & [[? _]|(e & _ & _ & Hlt)])]; [congruence|done|].
    specialize (Hlt f). unfold with_first in Hlt. rewrite Hf in Hlt. specialize (Hlt eq_refl). lia.
Qed.
End bake.

(** ** A bake of ten minutes *)

Definition demo_bake : BakeSpec := mkBake 10 "" "".
Definition good : HealthStatus := mkHealth true false false false false.
Definition bad : HealthStatus := mkHealth false false false false false.
Definition at_minute (n : Z) (r : HealthStatus) : check := mkCheck (n * minute) (n * minute) r.
Definition fresh : Health := mkHealthFields (Some (100 * minute)) None 0 None None None 0 0.

Abbreviation demo c h := (handleBake (λ _, None) demo_bake (5 * minute) (c_now c) (c_clock c) (c_result c) h).

(** Healthy at minutes 0 and 5, an alarm at 6, healthy from 7: verified at 17. *)
Definition demo_checks : list check := [at_minute 0 good; at_minute 5 good; at_minute 6 bad; at_minute 7 good; at_minute 12 good].

Definition demo_health : Health := foldl (λ h c, (demo c h).2) fresh demo_checks.

Lemma demo_history : baking (λ _, None) demo_bake (5 * minute) demo_checks demo_health.
Proof. apply (baking_run _ _ _ [] fresh demo_checks); [by apply baking_start|vm_compute; reflexivity]. Qed.

Lemma bake_contiguous_witness :
  (demo (at_minute 17 good) demo_health).1 = BakePass ∧
  ∃ c0, c0 ∈ demo_checks ∧ 10 * minute ≤ 17 * minute - c_now c0.
Proof.
  split; [vm_compute; reflexivity|].
  destruct (bake_contiguous (λ _, None) demo_bake (5 * minute) demo_checks demo_health (at_minute 17 good)
    (demo (at_minute 17 good) demo_health).2 ltac:(done) demo_history ltac:(vm_compute; reflexivity))
    as (_ & pre & c0 & rest & E & _ & Hle).
  exists c0. split; [rewrite E; apply elem_of_app; right; left|exact Hle].
Defined.

Lemma flapping_bounded_witness :
  BakeFirstStartedAt demo_health = Some 0 ∧ (demo (at_minute 15 bad) demo_health).1 ≠ BakeWait.
Proof.
  split; [vm_compute; reflexivity|].
  apply (flapping_bounded (λ _, None) demo_bake (5 * minute) demo_checks demo_health 0 demo_history
    ltac:(vm_compute; reflexivity)); [vm_compute; discriminate|reflexivity|vm_compute; discriminate].
Defined.

End Bake.
