(* ===== verification/Transition.v ===== *)
(** * Transition: the status of a promotion step and how it changes state

    Model of src/pkg/reconciler/promotionstep/transition.go (patchState,
    auditEntries, transitionClosing, cancelUnstarted), of the names of the audit
    records (audit.go), of the backoff and of the waits for the code host
    (reconciler.go, scm_wait.go).  [Promotion]'s handlers change state only
    through [transition]. *)

From stdpp Require Import base gmap strings list pretty.
From Stdlib Require Import Ascii Lia ZArith.
From S2P Require Import Prelude Freeze StepStatus Outbox Bake.
Import Freeze.Freeze StepStatus.StepStatus Outbox.Outbox Bake.Bake.

Module Transition.

(** [StepFreezeExemption]: an exemption the step was let through by. *)
Record StepFreezeExemption := mkStepExemption {
  fe_Freeze : string;
  fe_Actors : string;
  fe_Exemption : FreezeExemption;
  fe_Until : Time
}.

(** [StepFreeze]: the freeze that holds the step, and since when. *)
Record StepFreeze := mkStepFreeze { sf_Name : string; sf_Since : Time }.

#[export] Instance StepFreeze_eq_dec : EqDecision StepFreeze.
Proof. solve_decision. Defined.

(** The retries of a step; [GitCredentialMissing] is whether that condition is
    True. *)
Record Retry := mkRetry {
  RetryCount : Z;
  GitCredentialRetries : Z;
  GitCredentialMissing : bool;
  ContendedRetries : Z;
  NextRetryAt : option Time;
  SCMWaitSince : option Time
}.

Definition set_RetryCount (v : Z) (s : Retry) : Retry :=
  mkRetry v (GitCredentialRetries s) (GitCredentialMissing s) (ContendedRetries s) (NextRetryAt s) (SCMWaitSince s).

Definition set_GitCredentialRetries (v : Z) (s : Retry) : Retry :=
  mkRetry (RetryCount s) v (GitCredentialMissing s) (ContendedRetries s) (NextRetryAt s) (SCMWaitSince s).

Definition set_GitCredentialMissing (v : bool) (s : Retry) : Retry :=
  mkRetry (RetryCount s) (GitCredentialRetries s) v (ContendedRetries s) (NextRetryAt s) (SCMWaitSince s).

Definition set_ContendedRetries (v : Z) (s : Retry) : Retry :=
  mkRetry (RetryCount s) (GitCredentialRetries s) (GitCredentialMissing s) v (NextRetryAt s) (SCMWaitSince s).

Definition set_NextRetryAt (v : option Time) (s : Retry) : Retry :=
  mkRetry (RetryCount s) (GitCredentialRetries s) (GitCredentialMissing s) (ContendedRetries s) v (SCMWaitSince s).

Definition set_SCMWaitSince (v : option Time) (s : Retry) : Retry :=
  mkRetry (RetryCount s) (GitCredentialRetries s) (GitCredentialMissing s) (ContendedRetries s) (NextRetryAt s) v.

(** The receipt outbox: a receipt to write, one that is written, or the reason why
    there is none. *)
Record ReceiptStatus := mkReceipt {
  PendingReceipt : bool;
  Receipt : bool;
  ReceiptError : bool
}.

Definition set_PendingReceipt (v : bool) (s : ReceiptStatus) : ReceiptStatus :=
  mkReceipt v (Receipt s) (ReceiptError s).

Definition set_Receipt (v : bool) (s : ReceiptStatus) : ReceiptStatus :=
  mkReceipt (PendingReceipt s) v (ReceiptError s).

Definition set_ReceiptError (v : bool) (s : ReceiptStatus) : ReceiptStatus :=
  mkReceipt (PendingReceipt s) (Receipt s) v.

(** [PromotionStepStatus].  [Message] is a tag that stands for the message: the
    wording is not modelled.  [FreezeExempted] is the message of that condition,
    [CloseFailed] whether SupersededCloseFailed is True, [VerifiedBecause] the
    reason of the Verified condition. *)
Record Status := mkStatus {
  State_ : State;
  Message : string;
  StateTransitionTime : option Time;
  Steps : list StepStatus;
  CurrentStepIndex : nat;
  Outputs_ : gmap string string;
  PRURL : string;
  retry : Retry;
  health : Health;
  WaitForMergeExpiry : option Time;
  VerificationStartedAt : option Time;
  RenderRequestedAt : option Time;
  FrozenBy : option StepFreeze;
  FreezeExemptions : list StepFreezeExemption;
  FreezeExempted : option string;
  CloseFailed : bool;
  VerifiedBecause : option string;
  PendingAudit : list Entry;
  receipt : ReceiptStatus
}.

Definition set_State (v : State) (s : Status) : Status :=
  mkStatus v (Message s) (StateTransitionTime s) (Steps s) (CurrentStepIndex s) (Outputs_ s) (PRURL s) (retry s)
    (health s) (WaitForMergeExpiry s) (VerificationStartedAt s) (RenderRequestedAt s) (FrozenBy s)
    (FreezeExemptions s) (FreezeExempted s) (CloseFailed s) (VerifiedBecause s) (PendingAudit s) (receipt s).

Definition set_Message (v : string) (s : Status) : Status :=
  mkStatus (State_ s) v (StateTransitionTime s) (Steps s) (CurrentStepIndex s) (Outputs_ s) (PRURL s) (retry s)
    (health s) (WaitForMergeExpiry s) (VerificationStartedAt s) (RenderRequestedAt s) (FrozenBy s)
    (FreezeExemptions s) (FreezeExempted s) (CloseFailed s) (VerifiedBecause s) (PendingAudit s) (receipt s).

Definition set_StateTransitionTime (v : option Time) (s : Status) : Status :=
  mkStatus (State_ s) (Message s) v (Steps s) (CurrentStepIndex s) (Outputs_ s) (PRURL s) (retry s) (health s)
    (WaitForMergeExpiry s) (VerificationStartedAt s) (RenderRequestedAt s) (FrozenBy s) (FreezeExemptions s)
    (FreezeExempted s) (CloseFailed s) (VerifiedBecause s) (PendingAudit s) (receipt s).

Definition set_Steps (v : list StepStatus) (s : Status) : Status :=
  mkStatus (State_ s) (Message s) (StateTransitionTime s) v (CurrentStepIndex s) (Outputs_ s) (PRURL s)
    (retry s) (health s) (WaitForMergeExpiry s) (VerificationStartedAt s) (RenderRequestedAt s) (FrozenBy s)
    (FreezeExemptions s) (FreezeExempted s) (CloseFailed s) (VerifiedBecause s) (PendingAudit s) (receipt s).

Definition set_CurrentStepIndex (v : nat) (s : Status) : Status :=
  mkStatus (State_ s) (Message s) (StateTransitionTime s) (Steps s) v (Outputs_ s) (PRURL s) (retry s)
    (health s) (WaitForMergeExpiry s) (VerificationStartedAt s) (RenderRequestedAt s) (FrozenBy s)
    (FreezeExemptions s) (FreezeExempted s) (CloseFailed s) (VerifiedBecause s) (PendingAudit s) (receipt s).

Definition set_Outputs (v : gmap string string) (s : Status) : Status :=
  mkStatus (State_ s) (Message s) (StateTransitionTime s) (Steps s) (CurrentStepIndex s) v (PRURL s) (retry s)
    (health s) (WaitForMergeExpiry s) (VerificationStartedAt s) (RenderRequestedAt s) (FrozenBy s)
    (FreezeExemptions s) (FreezeExempted s) (CloseFailed s) (VerifiedBecause s) (PendingAudit s) (receipt s).

Definition set_PRURL (v : string) (s : Status) : Status :=
  mkStatus (State_ s) (Message s) (StateTransitionTime s) (Steps s) (CurrentStepIndex s) (Outputs_ s) v
    (retry s) (health s) (WaitForMergeExpiry s) (VerificationStartedAt s) (RenderRequestedAt s) (FrozenBy s)
    (FreezeExemptions s) (FreezeExempted s) (CloseFailed s) (VerifiedBecause s) (PendingAudit s) (receipt s).

Definition set_retry (v : Retry) (s : Status) : Status :=
  mkStatus (State_ s) (Message s) (StateTransitionTime s) (Steps s) (CurrentStepIndex s) (Outputs_ s) (PRURL s)
    v (health s) (WaitForMergeExpiry s) (VerificationStartedAt s) (RenderRequestedAt s) (FrozenBy s)
    (FreezeExemptions s) (FreezeExempted s) (CloseFailed s) (VerifiedBecause s) (PendingAudit s) (receipt s).

Definition set_health (v : Health) (s : Status) : Status :=
  mkStatus (State_ s) (Message s) (StateTransitionTime s) (Steps s) (CurrentStepIndex s) (Outputs_ s) (PRURL s)
    (retry s) v (WaitForMergeExpiry s) (VerificationStartedAt s) (RenderRequestedAt s) (FrozenBy s)
    (FreezeExemptions s) (FreezeExempted s) (CloseFailed s) (VerifiedBecause s) (PendingAudit s) (receipt s).

Definition set_WaitForMergeExpiry (v : option Time) (s : Status) : Status :=
  mkStatus (State_ s) (Message s) (StateTransitionTime s) (Steps s) (CurrentStepIndex s) (Outputs_ s) (PRURL s)
    (retry s) (health s) v (VerificationStartedAt s) (RenderRequestedAt s) (FrozenBy s) (FreezeExemptions s)
    (FreezeExempted s) (CloseFailed s) (VerifiedBecause s) (PendingAudit s) (receipt s).

Definition set_VerificationStartedAt (v : option Time) (s : Status) : Status :=
  mkStatus (State_ s) (Message s) (StateTransitionTime s) (Steps s) (CurrentStepIndex s) (Outputs_ s) (PRURL s)
    (retry s) (health s) (WaitForMergeExpiry s) v (RenderRequestedAt s) (FrozenBy s) (FreezeExemptions s)
    (FreezeExempted s) (CloseFailed s) (VerifiedBecause s) (PendingAudit s) (receipt s).

Definition set_RenderRequestedAt (v : option Time) (s : Status) : Status :=
  mkStatus (State_ s) (Message s) (StateTransitionTime s) (Steps s) (CurrentStepIndex s) (Outputs_ s) (PRURL s)
    (retry s) (health s) (WaitForMergeExpiry s) (VerificationStartedAt s) v (FrozenBy s) (FreezeExemptions s)
    (FreezeExempted s) (CloseFailed s) (VerifiedBecause s) (PendingAudit s) (receipt s).

Definition set_FrozenBy (v : option StepFreeze) (s : Status) : Status :=
  mkStatus (State_ s) (Message s) (StateTransitionTime s) (Steps s) (CurrentStepIndex s) (Outputs_ s) (PRURL s)
    (retry s) (health s) (WaitForMergeExpiry s) (VerificationStartedAt s) (RenderRequestedAt s) v
    (FreezeExemptions s) (FreezeExempted s) (CloseFailed s) (VerifiedBecause s) (PendingAudit s) (receipt s).

Definition set_FreezeExemptions (v : list StepFreezeExemption) (s : Status) : Status :=
  mkStatus (State_ s) (Message s) (StateTransitionTime s) (Steps s) (CurrentStepIndex s) (Outputs_ s) (PRURL s)
    (retry s) (health s) (WaitForMergeExpiry s) (VerificationStartedAt s) (RenderRequestedAt s) (FrozenBy s) v
    (FreezeExempted s) (CloseFailed s) (VerifiedBecause s) (PendingAudit s) (receipt s).

Definition set_FreezeExempted (v : option string) (s : Status) : Status :=
  mkStatus (State_ s) (Message s) (StateTransitionTime s) (Steps s) (CurrentStepIndex s) (Outputs_ s) (PRURL s)
    (retry s) (health s) (WaitForMergeExpiry s) (VerificationStartedAt s) (RenderRequestedAt s) (FrozenBy s)
    (FreezeExemptions s) v (CloseFailed s) (VerifiedBecause s) (PendingAudit s) (receipt s).

Definition set_CloseFailed (v : bool) (s : Status) : Status :=
  mkStatus (State_ s) (Message s) (StateTransitionTime s) (Steps s) (CurrentStepIndex s) (Outputs_ s) (PRURL s)
    (retry s) (health s) (WaitForMergeExpiry s) (VerificationStartedAt s) (RenderRequestedAt s) (FrozenBy s)
    (FreezeExemptions s) (FreezeExempted s) v (VerifiedBecause s) (PendingAudit s) (receipt s).

Definition set_VerifiedBecause (v : option string) (s : Status) : Status :=
  mkStatus (State_ s) (Message s) (StateTransitionTime s) (Steps s) (CurrentStepIndex s) (Outputs_ s) (PRURL s)
    (retry s) (health s) (WaitForMergeExpiry s) (VerificationStartedAt s) (RenderRequestedAt s) (FrozenBy s)
    (FreezeExemptions s) (FreezeExempted s) (CloseFailed s) v (PendingAudit s) (receipt s).

Definition set_PendingAudit (v : list Entry) (s : Status) : Status :=
  mkStatus (State_ s) (Message s) (StateTransitionTime s) (Steps s) (CurrentStepIndex s) (Outputs_ s) (PRURL s)
    (retry s) (health s) (WaitForMergeExpiry s) (VerificationStartedAt s) (RenderRequestedAt s) (FrozenBy s)
    (FreezeExemptions s) (FreezeExempted s) (CloseFailed s) (VerifiedBecause s) v (receipt s).

Definition set_receipt (v : ReceiptStatus) (s : Status) : Status :=
  mkStatus (State_ s) (Message s) (StateTransitionTime s) (Steps s) (CurrentStepIndex s) (Outputs_ s) (PRURL s)
    (retry s) (health s) (WaitForMergeExpiry s) (VerificationStartedAt s) (RenderRequestedAt s) (FrozenBy s)
    (FreezeExemptions s) (FreezeExempted s) (CloseFailed s) (VerifiedBecause s) (PendingAudit s) v.

(** ** Audit records (audit.go) *)

Definition AuditActionPromotionStarted : string := "PromotionStarted".
Definition AuditActionPromotionSucceeded : string := "PromotionSucceeded".
Definition AuditActionPromotionFailed : string := "PromotionFailed".
Definition AuditActionPromotionSuperseded : string := "PromotionSuperseded".
Definition AuditActionPromotionRejected : string := "PromotionRejected".
Definition AuditActionRollbackStarted : string := "RollbackStarted".
Definition AuditActionRollbackSucceeded : string := "RollbackSucceeded".
Definition AuditActionPRMerged : string := "PRMerged".
Definition AuditActionReceiptFailed : string := "ReceiptFailed".
Definition AuditOutcomeSuccess : string := "Success".
Definition AuditOutcomeFailure : string := "Failure".
Definition AuditOutcomePending : string := "Pending".

Definition slugifyAction (action : string) : string :=
  if bool_decide (action = AuditActionPromotionStarted) then "started"
  else if bool_decide (action = AuditActionPromotionSucceeded) then "succeeded"
  else if bool_decide (action = AuditActionPromotionFailed) then "failed"
  else if bool_decide (action = AuditActionPromotionSuperseded) then "superseded"
  else if bool_decide (action = AuditActionPromotionRejected) then "rejected"
  else if bool_decide (action = AuditActionRollbackStarted) then "rollback-started"
  else if bool_decide (action = AuditActionRollbackSucceeded) then "rollback-succeeded"
  else "event".

(** One byte of [sanitizeK8sName]. *)
Definition sanitize_byte (c : ascii) : ascii :=
  let n := nat_of_ascii c in
  if ((65 <=? n) && (n <=? 90))%nat then ascii_of_nat (n + 32)
  else if ((97 <=? n) && (n <=? 122) || (48 <=? n) && (n <=? 57))%nat || Ascii.eqb c "-" || Ascii.eqb c "." then c
  else "-"%char.

Fixpoint sanitize_bytes (s : string) : string :=
  match s with EmptyString => EmptyString | String c s => String (sanitize_byte c) (sanitize_bytes s) end.

Fixpoint trim_hyphens (s : string) : string :=
  match s with String "-"%char s => trim_hyphens s | _ => s end.

Fixpoint trim_hyphens_right (s : string) : string :=
  match s with
  | EmptyString => EmptyString
  | String c s =>
      match trim_hyphens_right s with
      | EmptyString => if Ascii.eqb c "-" then EmptyString else String c EmptyString
      | t => String c t
      end
  end.

Definition sanitizeK8sName (s : string) : string :=
  let s := if (253 <? str_length s)%nat then String.substring 0 253 s else s in
  trim_hyphens_right (trim_hyphens (sanitize_bytes s)).

(** What of the step's metadata the records need: its name and its pipeline and
    bundle labels. *)
Record StepMeta := mkMeta { ps_Name : string; l_Pipeline : string; l_Bundle : string }.

(** [auditEntry]; [body] stands for the message, the actor and the time. *)
Definition auditEntry (m : StepMeta) (action outcome body : string) : option Entry :=
  if bool_decide (l_Pipeline m = "") || bool_decide (l_Bundle m = "") then None
  else Some (mkEntry (sanitizeK8sName (ps_Name m +:+ "-" +:+ slugifyAction action)) action outcome 0 body).

(** [auditEntries]; [rollback] is [rollbackSucceededMessage]: an error, or whether
    the step promoted a rollback. *)
Definition auditEntries (m : StepMeta) (rollback : option bool) (state : State) (message auditAction : string) :
  option (list Entry) :=
  let add action outcome := option_list (auditEntry m action outcome message) in
  match state with
  | StatePromoting => Some (add AuditActionPromotionStarted AuditOutcomePending)
  | StateVerified =>
      match rollback with
      | None => None
      | Some rb => Some (add AuditActionPromotionSucceeded AuditOutcomeSuccess ++
                         (if rb then add AuditActionRollbackSucceeded AuditOutcomeSuccess else []))
      end
  | StateFailed | StateAbortedByAlarm =>
      Some (add (if bool_decide (auditAction = "") then AuditActionPromotionFailed else auditAction) AuditOutcomeFailure)
  | StateRollingBack => Some (add AuditActionRollbackStarted AuditOutcomePending)
  | StateSuperseded => Some (if bool_decide (auditAction = "") then [] else add auditAction AuditOutcomeFailure)
  | StateHealthChecking =>
      Some (if bool_decide (auditAction = AuditActionPRMerged) then add AuditActionPRMerged AuditOutcomeSuccess else [])
  | _ => Some []
  end.

(** ** Changing state (transition.go) *)

(** What building a receipt answers: receipts are off, it is built, it can never
    be built, or a read failed that may succeed later. *)
Inductive receipt_build := ReceiptsOff | ReceiptBuilt | ReceiptNever | ReceiptRetry.

#[export] Instance receipt_build_eq_dec : EqDecision receipt_build.
Proof. solve_decision. Defined.

(** What one reconcile reads besides the step: [now] is the reconciler's clock and
    [clock] time.Now. *)
Record Context_ := mkContext {
  now : Time;
  clock : Time;
  meta : StepMeta;
  rollback : option bool;
  build : receipt_build;
  valid : Entry → bool
}.

Section transition.
Variable cx : Context_.

(** [audit.Enqueue] for the entries of a step, whose actions have no coalescer. *)
Definition enqueue (e : Entry) (s : Status) : Status :=
  set_PendingAudit (Enqueue (valid cx) ∅ (PendingAudit s) e).1 s.

Definition enqueue_all (es : list Entry) (s : Status) : Status := foldl (λ s e, enqueue e s) s es.

(** The receipt of a step that becomes Verified; [None] is the error that retries
    the transition. *)
Definition decide_receipt (s : Status) : option Status :=
  let r := receipt s in
  if bool_decide (build cx = ReceiptsOff) || PendingReceipt r || Receipt r || ReceiptError r then Some s
  else match build cx with
       | ReceiptBuilt => Some (set_receipt (mkReceipt true false false) s)
       | ReceiptNever =>
           let s := set_receipt (mkReceipt false false true) s in
           Some (match auditEntry (meta cx) AuditActionReceiptFailed AuditOutcomeFailure "no promotion receipt" with
                 | Some e => enqueue e s
                 | None => s
                 end)
       | _ => None
       end.

(** [patchState]: the status the patch writes and the durations it observes, or
    [None] when a read fails first.  [base] is the state before this reconcile. *)
Definition patchState (base : State) (state : State) (message : string) (closed : list stepObservation)
  (entries : list Entry) (s : Status) : option (Status * list stepObservation) :=
  let s := set_Message message (set_State state s) in
  let s := if negb (bool_decide (state = StatePendingExplicit)) && negb (bool_decide (state = StatePromoting))
           then set_FrozenBy None s else s in
  if bool_decide (base = state) then Some (s, closed)
  else
    let s := set_StateTransitionTime (Some (Truncate (now cx))) s in
    let '(steps, closed') := closeStepStatuses (clock cx) message state (Steps s) in
    let s := set_Steps steps s in
    let s := set_retry (set_GitCredentialRetries 0 (set_RetryCount 0 (retry s))) s in
    let s := enqueue_all entries s in
    match (if bool_decide (state = StateVerified) then decide_receipt s else Some s) with
    | Some s => Some (s, closed ++ closed')
    | None => None
    end.

(** [transitionClosing] up to the patch: the audit records are read first, and a
    step that keeps its state writes none. *)
Definition transitionClosing (base state : State) (message auditAction : string) (closed : list stepObservation)
  (s : Status) : option (Status * list stepObservation) :=
  if bool_decide (base = state) then patchState base state message closed [] s
  else match auditEntries (meta cx) (rollback cx) state message auditAction with
       | None => None
       | Some entries => patchState base state message closed entries s
       end.

Definition transition (base state : State) (message : string) (s : Status) : option Status :=
  fst <$> transitionClosing base state message "" [] s.

Definition transitionAudit (base state : State) (message auditAction : string) (s : Status) : option Status :=
  fst <$> transitionClosing base state message auditAction [] s.

(** [cancelUnstarted]: no audit record. *)
Definition cancelUnstarted (base : State) (message : string) (s : Status) : option Status :=
  fst <$> patchState base StateFailed message [] [] s.
End transition.

(** ** Backoff (reconciler.go) and waits for the code host (scm_wait.go) *)

Definition maxStepRetries : Z := 5.
Definition retryBaseDelay : Duration := 10 * second.
Definition retryMaxDelay : Duration := 2 * minute.

(** The loop of [retryDelay], for the turns 1 to n-1. *)
Fixpoint double_delay (turns : nat) (d : Duration) : Duration :=
  match turns with
  | 0%nat => d
  | S turns => if d <? retryMaxDelay then double_delay turns (i64 (d * 2)) else d
  end.

Definition retryDelay (n : Z) : Duration :=
  let d := double_delay (Z.to_nat (n - 1)) retryBaseDelay in
  if retryMaxDelay <? d then retryMaxDelay else d.

(** [rnd] is rand.Int64N(d), in [0, d). *)
Definition contendedDelay (d rnd : Duration) : Duration :=
  if d <=? 0 then d else Z.min (Z.quot d 2 + rnd) retryMaxDelay.

(** [circuitWait]: [open] is the RetryAfter of the open circuit of the code host, if
    the error has one; [rnd] is rand.Int64N(wait/5+1). *)
Definition circuitWait (open : option Time) (t : Time) (rnd : Duration) : option Duration :=
  match open with
  | None => None
  | Some retryAfter =>
      let wait := sub_time retryAfter t in
      let wait := if wait <? second then second else wait in
      let wait := if retryMaxDelay <? wait then retryMaxDelay else wait in
      Some (wait + rnd)
  end.

Definition DefaultSCMWaitTimeout : Duration := 30 * minute.

Definition scmWaitBound (SCMWaitTimeout stepTimeoutSeconds : Z) : Duration :=
  if 0 <? stepTimeoutSeconds then i64 (stepTimeoutSeconds * second)
  else if 0 <? SCMWaitTimeout then SCMWaitTimeout else DefaultSCMWaitTimeout.

(** [startSCMWait]: how long the step has waited, and whether the wait starts. *)
Definition startSCMWait (t : Time) (r : Retry) : Retry * Duration * bool :=
  match SCMWaitSince r with
  | None => (set_SCMWaitSince (Some t) r, sub_time t t, true)
  | Some since => (r, sub_time t since, false)
  end.

(** [clearSCMWait] and [endSCMWaitTimedOut] differ in the condition they write. *)
Definition clearSCMWait (r : Retry) : Retry := set_SCMWaitSince None r.
Definition endSCMWaitTimedOut (r : Retry) : Retry := set_SCMWaitSince None r.

Inductive result := Stop | Requeue | RequeueAfter (d : Duration) | Error_.

Definition auditRetryDelay : Duration := 5 * second.

(** [retryAudit]: a reconcile that did not fail, with [pending] records still in
    the outbox. *)
Definition retryAudit (res : result) (auditErr : bool) (pending : Z) : result :=
  if negb auditErr && (pending =? 0) then res
  else match res with
       | RequeueAfter d => if (d =? 0) || (auditRetryDelay <? d) then RequeueAfter auditRetryDelay else res
       | _ => RequeueAfter auditRetryDelay
       end.

(** ** What a reconcile does *)

(** One effect of a reconcile: a status patch, or a call that changes something
    outside of the step. *)
Inductive effect :=
  | Patch (s : Status)
  | RunSteps
  | ClosePR
  | MarkClosed
  | CommentPR
  | DeleteBranch
  | PatchPRStatus
  | WritePRBranch
  | CreateRollback
  | DeleteStep.

(** The effects of a reconcile in order, and how it is requeued.  An API call that
    fails ends the reconcile, so what happened may be any prefix of them. *)
Record outcome := mkOut { effects : list effect; res : result }.

Definition quiet (r : result) : outcome := mkOut [] r.

(** The status stored after [es]. *)
Definition apply_effect (s : Status) (e : effect) : Status := match e with Patch s' => s' | _ => s end.
Definition stored (s : Status) (es : list effect) : Status := foldl apply_effect s es.

(** A patch that may fail before it is made, then [r]. *)
Definition patched (p : option Status) (r : result) : outcome :=
  match p with Some s => mkOut [Patch s] r | None => mkOut [] Error_ end.

Definition after (es : list effect) (o : outcome) : outcome := mkOut (es ++ effects o) (res o).

(** The statuses [es] may leave stored: any prefix of the effects may be all that
    happened. *)
Definition leaves (s : Status) (es : list effect) (s' : Status) : Prop := ∃ k, s' = stored s (take k es).

Lemma leaves_cases s es s' : leaves s es s' → s' = s ∨ Patch s' ∈ es.
Proof.
  intros [k ->]. revert s k. induction es as [|e es IH]; intros s [|k]; simpl; try by left.
  destruct (IH (apply_effect s e) k) as [Heq|Hin]; [|right; set_solver].
  unfold stored in *. rewrite Heq. destruct e; simpl; first [by left | right; set_solver].
Qed.

(** ** What a change of state writes *)

Section effects.
Variable cx : Context_.

Lemma enqueue_all_fields es s :
  let s' := enqueue_all cx es s in
  State_ s' = State_ s ∧ StateTransitionTime s' = StateTransitionTime s ∧ Steps s' = Steps s ∧ retry s' = retry s ∧
  receipt s' = receipt s ∧ FrozenBy s' = FrozenBy s ∧ health s' = health s ∧ Outputs_ s' = Outputs_ s.
Proof.
  unfold enqueue_all. revert s. induction es as [|e es IH]; intros s; simpl; [done|].
  destruct (IH (enqueue cx e s)) as (-> & -> & -> & -> & -> & -> & -> & ->). done.
Qed.

(** What no change of state touches. *)
Definition kept (s s' : Status) : Prop :=
  CurrentStepIndex s' = CurrentStepIndex s ∧ Outputs_ s' = Outputs_ s ∧ PRURL s' = PRURL s ∧ health s' = health s ∧
  WaitForMergeExpiry s' = WaitForMergeExpiry s ∧ VerificationStartedAt s' = VerificationStartedAt s ∧
  FreezeExemptions s' = FreezeExemptions s ∧ CloseFailed s' = CloseFailed s ∧ VerifiedBecause s' = VerifiedBecause s ∧
  ContendedRetries (retry s') = ContendedRetries (retry s) ∧ NextRetryAt (retry s') = NextRetryAt (retry s) ∧
  SCMWaitSince (retry s') = SCMWaitSince (retry s).

Lemma enqueue_all_kept es s : kept s (enqueue_all cx es s).
Proof.
  unfold enqueue_all. revert s. induction es as [|e es IH]; intros s; simpl; [by repeat split|].
  specialize (IH (enqueue cx e s)). unfold kept in *. by destruct_and!; split_and!.
Qed.

Lemma decide_receipt_kept s s' : decide_receipt cx s = Some s' → kept s s'.
Proof.
  unfold decide_receipt. destruct (_ || _); [intros [= <-]; by repeat split|].
  destruct (build cx); try done; [intros [= <-]; by repeat split|].
  destruct (auditEntry _ _ _ _); intros [= <-]; by repeat split.
Qed.

Lemma kept_trans s1 s2 s3 : kept s1 s2 → kept s2 s3 → kept s1 s3.
Proof. unfold kept. intros H1 H2. destruct_and!. split_and!; congruence. Qed.

(** A patch writes the state it is asked for. *)
Lemma patchState_state base state message closed entries s s' obs :
  patchState cx base state message closed entries s = Some (s', obs) → State_ s' = state ∧ kept s s'.
Proof.
  unfold patchState. set (s0 := if negb _ && negb _ then _ else _).
  assert (State_ s0 = state ∧ kept s s0) as [H0 Hk0] by (unfold s0; destruct (negb _ && negb _); by repeat split).
  clearbody s0. case_bool_decide; [by intros [= <- <-]|].
  destruct (closeStepStatuses _ _ _ _) as [steps cl]. set (s1 := set_retry _ _).
  assert (State_ s1 = state ∧ kept s0 s1) as [H1 Hk1] by (unfold s1; simpl; by repeat split).
  clearbody s1. pose proof (enqueue_all_kept entries s1) as Hk2. destruct (enqueue_all_fields entries s1) as (F & _).
  pose proof (kept_trans _ _ _ (kept_trans _ _ _ Hk0 Hk1) Hk2) as Hk.
  case_bool_decide.
  - destruct (decide_receipt cx _) as [s3|] eqn:Ed; [|done]. intros [= <- <-].
    split; [|by eapply kept_trans, decide_receipt_kept].
    unfold decide_receipt in Ed. destruct (_ || _); [injection Ed as <-; congruence|].
    destruct (build cx); try done; [injection Ed as <-; simpl; congruence|].
    destruct (auditEntry _ _ _ _); injection Ed as <-; simpl; congruence.
  - intros [= <- <-]. split; [congruence|done].
Qed.

Lemma patchState_total base state message closed entries s :
  state ≠ StateVerified → is_Some (patchState cx base state message closed entries s).
Proof.
  intros Hv. unfold patchState. set (s0 := if negb _ && negb _ then _ else _). clearbody s0.
  case_bool_decide; [done|]. destruct (closeStepStatuses _ _ _ _). rewrite (bool_decide_false (state = StateVerified)) by done.
  done.
Qed.

Lemma auditEntries_total m rb state message action :
  state ≠ StateVerified → is_Some (auditEntries m rb state message action).
Proof. by destruct state. Qed.

(** Only a step that becomes Verified reads anything that can fail. *)
Lemma transitionClosing_total base state message action closed s :
  state ≠ StateVerified → is_Some (transitionClosing cx base state message action closed s).
Proof.
  intros Hv. unfold transitionClosing. case_bool_decide; [by apply patchState_total|].
  destruct (auditEntries_total (meta cx) (rollback cx) state message action Hv) as [es ->]. by apply patchState_total.
Qed.

Lemma transitionClosing_state base state message action closed s s' obs :
  transitionClosing cx base state message action closed s = Some (s', obs) → State_ s' = state ∧ kept s s'.
Proof.
  unfold transitionClosing. case_bool_decide; [by apply patchState_state|].
  destruct (auditEntries _ _ _ _ _); [|done]. by apply patchState_state.
Qed.

Lemma transitionAudit_state base state message action s s' :
  transitionAudit cx base state message action s = Some s' → State_ s' = state ∧ kept s s'.
Proof.
  unfold transitionAudit. destruct (transitionClosing _ _ _ _ _ _ _) as [[s0 obs]|] eqn:E; [|done].
  intros [= <-]. by eapply transitionClosing_state.
Qed.

Lemma transitionAudit_total base state message action s :
  state ≠ StateVerified → is_Some (transitionAudit cx base state message action s).
Proof. intros Hv. unfold transitionAudit. by destruct (transitionClosing_total base state message action [] s Hv) as [[] ->]. Qed.

Lemma transition_total base state message s :
  state ≠ StateVerified → ∃ p, transition cx base state message s = Some p ∧ State_ p = state ∧ kept s p.
Proof.
  intros Hv. destruct (transitionAudit_total base state message "" s Hv) as [p E].
  exists p. split; [exact E|]. by eapply transitionAudit_state.
Qed.

Lemma cancelUnstarted_spec base message s :
  ∃ s', cancelUnstarted cx base message s = Some s' ∧ State_ s' = StateFailed ∧ kept s s'.
Proof.
  unfold cancelUnstarted. destruct (patchState_total base StateFailed message [] [] s ltac:(done)) as [[s' o] E].
  rewrite E. exists s'. split; [done|]. by eapply patchState_state.
Qed.

Lemma Enqueue_keeps v p e x : (length p < MaxPendingAuditEvents)%nat → x ∈ p → x ∈ (Enqueue v ∅ p e).1.
Proof.
  intros Hl Hx. unfold Enqueue. destruct (v e); cbn [negb]; [|done]. case_bool_decide; [done|].
  simpl. rewrite length_app. simpl. rewrite (proj2 (Nat.leb_le _ _)) by lia. simpl. set_solver.
Qed.

Lemma Enqueue_length v p e : (length p < MaxPendingAuditEvents)%nat → (length (Enqueue v ∅ p e).1 ≤ S (length p))%nat.
Proof.
  intros Hl. unfold Enqueue. destruct (v e); cbn [negb]; [|simpl; lia]. case_bool_decide; [simpl; lia|].
  simpl. rewrite length_app. simpl. rewrite (proj2 (Nat.leb_le _ _)) by lia. simpl. rewrite length_app. simpl. lia.
Qed.

Lemma Enqueue_adds v p e :
  (length p < MaxPendingAuditEvents)%nat → v e = true → e_Name e ∈ e_Name <$> (Enqueue v ∅ p e).1.
Proof.
  intros Hl Hv. unfold Enqueue. rewrite Hv. cbn [negb]. case_bool_decide; [done|].
  simpl. rewrite length_app. simpl. rewrite (proj2 (Nat.leb_le _ _)) by lia. simpl. rewrite fmap_app. set_solver.
Qed.

Lemma enqueue_all_audit es s :
  (length (PendingAudit s) + length es ≤ MaxPendingAuditEvents)%nat →
  (∀ e, e ∈ PendingAudit s → e ∈ PendingAudit (enqueue_all cx es s)) ∧
  (∀ e, e ∈ es → valid cx e = true → e_Name e ∈ e_Name <$> PendingAudit (enqueue_all cx es s)) ∧
  (length (PendingAudit (enqueue_all cx es s)) ≤ length (PendingAudit s) + length es)%nat.
Proof.
  unfold enqueue_all. revert s. induction es as [|e es IH]; intros s Hl; simpl in *; [split_and!; [done|set_solver|lia]|].
  pose proof (Enqueue_length (valid cx) (PendingAudit s) e ltac:(lia)) as Hlen.
  destruct (IH (enqueue cx e s)) as (IH1 & IH2 & IH3); [simpl; lia|]. simpl in *. split_and!.
  - intros x Hx. apply IH1, Enqueue_keeps; [lia|done].
  - intros x Hx Hv. apply elem_of_cons in Hx as [->|Hx]; [|by apply IH2].
    pose proof (Enqueue_adds (valid cx) (PendingAudit s) e ltac:(lia) Hv) as Ha.
    apply list_elem_of_fmap in Ha as (y & -> & Hy). apply list_elem_of_fmap_2. by apply IH1.
  - lia.
Qed.

Lemma decide_receipt_fields s s' :
  decide_receipt cx s = Some s' →
  State_ s' = State_ s ∧ StateTransitionTime s' = StateTransitionTime s ∧ Steps s' = Steps s ∧ retry s' = retry s ∧
  FrozenBy s' = FrozenBy s ∧ health s' = health s ∧ Outputs_ s' = Outputs_ s ∧
  (build cx ≠ ReceiptsOff → PendingReceipt (receipt s') || Receipt (receipt s') || ReceiptError (receipt s') = true) ∧
  (PendingAudit s' = PendingAudit s ∨ ∃ e, PendingAudit s' = (Enqueue (valid cx) ∅ (PendingAudit s) e).1).
Proof.
  unfold decide_receipt. destruct (bool_decide _ || _ || _ || _) eqn:E.
  - intros [= <-]. split_and!; try done; [|by left]. intros Hb. apply orb_true_iff in E as [E|E].
    + apply orb_true_iff in E as [E|E]; [|by rewrite E, orb_true_r]. apply orb_true_iff in E as [E|E]; [|by rewrite E].
      by bools.
    + by rewrite E, orb_true_r.
  - destruct (build cx) eqn:Eb; try done.
    + intros [= <-]. split_and!; try done. by left.
    + intros [= <-]. destruct (auditEntry _ _ _ _); split_and!; try done; eauto.
Qed.

Lemma transitionClosing_effects base state message action closed s s' obs :
  base ≠ state → transitionClosing cx base state message action closed s = Some (s', obs) →
  State_ s' = state ∧ StateTransitionTime s' = Some (Truncate (now cx)) ∧
  Steps s' = (closeStepStatuses (clock cx) message state (Steps s)).1 ∧
  RetryCount (retry s') = 0 ∧ GitCredentialRetries (retry s') = 0 ∧
  (state = StateVerified → build cx ≠ ReceiptsOff →
     PendingReceipt (receipt s') || Receipt (receipt s') || ReceiptError (receipt s') = true) ∧
  ∃ es, auditEntries (meta cx) (rollback cx) state message action = Some es ∧
    ((length (PendingAudit s) + length es < MaxPendingAuditEvents)%nat →
     ∀ e, e ∈ es → valid cx e = true → e_Name e ∈ e_Name <$> PendingAudit s').
Proof.
  intros Hne. unfold transitionClosing. rewrite bool_decide_false by done.
  destruct (auditEntries _ _ _ _ _) as [es|] eqn:Ea; [|done]. unfold patchState. rewrite bool_decide_false by done.
  set (s0 := if negb _ && negb _ then _ else _).
  assert (State_ s0 = state ∧ Steps s0 = Steps s ∧ PendingAudit s0 = PendingAudit s ∧ retry s0 = retry s)
    as (H0 & H1 & H2 & H3) by (unfold s0; destruct (negb _ && negb _); done).
  clearbody s0. cbn [Steps set_StateTransitionTime]. rewrite H1.
  destruct (closeStepStatuses (clock cx) message state (Steps s)) as [steps cl].
  set (s1 := set_retry _ _).
  assert (State_ s1 = state ∧ StateTransitionTime s1 = Some (Truncate (now cx)) ∧ Steps s1 = steps ∧
          RetryCount (retry s1) = 0 ∧ GitCredentialRetries (retry s1) = 0 ∧ PendingAudit s1 = PendingAudit s)
    as (E1 & E2 & E3 & E4 & E5 & E6) by (unfold s1; simpl; by rewrite ?H0, ?H2).
  clearbody s1. destruct (enqueue_all_fields es s1) as (F1 & F2 & F3 & F4 & F5 & _).
  pose proof (enqueue_all_audit es s1) as Hau. rewrite E6 in Hau.
  set (s2 := enqueue_all cx es s1) in *. clearbody s2.
  case_bool_decide as Hv.
  - destruct (decide_receipt cx s2) as [s3|] eqn:Ed; [|done]. intros [= <- <-].
    destruct (decide_receipt_fields _ _ Ed) as (G1 & G2 & G3 & G4 & _ & _ & _ & G5 & G6).
    rewrite G1, G2, G3, G4, F1, F2, F3, F4. split_and!; try done.
    exists es. split; [done|]. intros Hl e He Hva. destruct (Hau ltac:(lia)) as (_ & Ha & Hlen).
    specialize (Ha e He Hva). destruct G6 as [->|(x & ->)]; [done|].
    apply list_elem_of_fmap in Ha as (y & -> & Hy). apply list_elem_of_fmap_2. apply Enqueue_keeps; [lia|done].
  - intros [= <- <-]. rewrite F1, F2, F3, F4. split_and!; try done.
    exists es. split; [done|]. intros Hl e He Hva. by apply Hau; [lia|..].
Qed.
End effects.

(** One patch carries everything a change of state means: the state and when
    it changed, status.steps closed for it, the retry counters at zero, and the
    audit records of the change (while the outbox has room), so the state cannot
    change without them; a step that becomes Verified with receipts on has a
    receipt to write, one written, or the reason there is none. *)
Theorem transition_effects cx base state message action closed s s' obs :
  base ≠ state → transitionClosing cx base state message action closed s = Some (s', obs) →
  State_ s' = state ∧ StateTransitionTime s' = Some (Truncate (now cx)) ∧
  Steps s' = (closeStepStatuses (clock cx) message state (Steps s)).1 ∧
  RetryCount (retry s') = 0 ∧ GitCredentialRetries (retry s') = 0 ∧
  (state = StateVerified → build cx ≠ ReceiptsOff →
     PendingReceipt (receipt s') || Receipt (receipt s') || ReceiptError (receipt s') = true) ∧
  ∃ es, auditEntries (meta cx) (rollback cx) state message action = Some es ∧
    ((length (PendingAudit s) + length es < MaxPendingAuditEvents)%nat →
     ∀ e, e ∈ es → valid cx e = true → e_Name e ∈ e_Name <$> PendingAudit s').
Proof. apply transitionClosing_effects. Qed.

Definition demo_cx (t : Time) : Context_ := mkContext t t (mkMeta "step" "pl" "v1") (Some true) ReceiptBuilt (λ _, true).

Definition demo_retry : Retry := mkRetry 0 0 false 0 None None.

Definition demo_status (st : State) : Status :=
  mkStatus st "" None (initStepStatuses ["git-push"; "health-check"]) 0 ∅ "" demo_retry
    (mkHealthFields None None 0 None None None 0 0) None None None None [] None false None [] (mkReceipt false false false).

Lemma transition_effects_witness :
  ∃ s' obs, transitionClosing (demo_cx (90 * second)) StateHealthChecking StateVerified "ok" "" []
      (demo_status StateHealthChecking) = Some (s', obs) ∧
    State_ s' = StateVerified ∧ PendingReceipt (receipt s') || Receipt (receipt s') || ReceiptError (receipt s') = true.
Proof.
  destruct (transitionClosing (demo_cx (90 * second)) StateHealthChecking StateVerified "ok" "" []
      (demo_status StateHealthChecking)) as [[s' obs]|] eqn:E; [|by vm_compute in E].
  destruct (transition_effects (demo_cx (90 * second)) StateHealthChecking StateVerified "ok" "" []
      (demo_status StateHealthChecking) s' obs ltac:(done) E) as (H1 & _ & _ & _ & _ & H2 & _).
  exists s', obs. split_and!; [reflexivity|exact H1|]. apply H2; [reflexivity|done].
Defined.

(** ** Backoff *)

Lemma double_delay_bounds turns d :
  retryBaseDelay ≤ d ≤ 2 * retryMaxDelay → retryBaseDelay ≤ double_delay turns d ≤ 2 * retryMaxDelay.
Proof.
  revert d. induction turns as [|turns IH]; intros d Hd; simpl; [done|].
  destruct (Z.ltb_spec d retryMaxDelay) as [Hlt|]; [|done]. apply IH.
  unfold retryBaseDelay, retryMaxDelay, minute, second in *. rewrite i64_small; lia.
Qed.

Lemma retryDelay_bounds n : retryBaseDelay ≤ retryDelay n ≤ retryMaxDelay.
Proof.
  unfold retryDelay.
  pose proof (double_delay_bounds (Z.to_nat (n - 1)) retryBaseDelay ltac:(unfold retryMaxDelay, retryBaseDelay, minute, second; lia)).
  destruct (Z.ltb_spec retryMaxDelay (double_delay (Z.to_nat (n - 1)) retryBaseDelay)); [|lia].
  unfold retryMaxDelay, retryBaseDelay, minute, second; lia.
Qed.

Lemma retryDelay_pos n : 0 < retryDelay n.
Proof. pose proof (retryDelay_bounds n). unfold retryBaseDelay, second in *. lia. Qed.

Lemma circuitWait_pos open t rnd w : 0 ≤ rnd → circuitWait open t rnd = Some w → 0 < w.
Proof.
  intros Hr. unfold circuitWait. destruct open; [|done]. intros [= <-].
  repeat match goal with |- context [if ?a <? ?b then _ else _] => destruct (Z.ltb_spec a b) end;
    unfold retryMaxDelay, minute, second in *; lia.
Qed.

(** The waits between retries: 10, 20, 40, 80 and 120 seconds, 270 in all; any
    later one stays within 10 seconds and two minutes, a contended one within half
    the delay and two minutes, and a wait for the code host within one second and
    two minutes plus its jitter of a fifth. *)
Theorem retry_backoff n rnd open t :
  ((retryDelay <$> [1; 2; 3; 4; 5]) = (λ k, k * second) <$> [10; 20; 40; 80; 120]) ∧
  foldr Z.add 0 (retryDelay <$> [1; 2; 3; 4; 5]) = 270 * second ∧
  retryBaseDelay ≤ retryDelay n ≤ retryMaxDelay ∧
  (0 ≤ rnd < retryDelay n → Z.quot (retryDelay n) 2 ≤ contendedDelay (retryDelay n) rnd ≤ retryMaxDelay) ∧
  (∀ w, 0 ≤ rnd ≤ retryMaxDelay / 5 → circuitWait open t rnd = Some w → second ≤ w ≤ retryMaxDelay + retryMaxDelay / 5).
Proof.
  pose proof (retryDelay_bounds n) as Hb.
  split_and!; [vm_compute; reflexivity|vm_compute; reflexivity|lia|lia|..].
  - intros Hr. unfold contendedDelay. destruct (Z.leb_spec (retryDelay n) 0); [lia|].
    assert (0 ≤ Z.quot (retryDelay n) 2 ≤ retryDelay n) as Hq.
    { rewrite Z.quot_div_nonneg by lia. split; [apply Z.div_pos; lia|apply Z.div_le_upper_bound; lia]. }
    unfold retryBaseDelay, retryMaxDelay, minute, second in *. lia.
  - intros w Hr. unfold circuitWait. destruct open as [o|]; [|done]. intros [= <-].
    unfold retryMaxDelay, minute, second in *. 
    repeat match goal with |- context [if ?a <? ?b then _ else _] => destruct (Z.ltb_spec a b) end; lia.
Qed.

(** ** Two records with one name *)

(** The records of a merge and of a receipt that cannot be built have the same
    name, so the second is never written: a step that merged its pull request and
    then has no receipt keeps its PRMerged record only. *)
Theorem receipt_record_collides m b1 b2 e1 e2 v :
  auditEntry m AuditActionPRMerged AuditOutcomeSuccess b1 = Some e1 →
  auditEntry m AuditActionReceiptFailed AuditOutcomeFailure b2 = Some e2 →
  v e1 = true → v e2 = true →
  let s := run v ∅ [OEnqueue e1; OFlush (λ _, None) true; OEnqueue e2; OFlush (λ _, None) true] in
  pend s = [] ∧ refused s = [] ∧ overflow s = [] ∧ store s = {[e_Name e1 := e1]} ∧ e_Action e1 ≠ e_Action e2.
Proof.
  intros H1 H2 Hv1 Hv2.
  assert (e_Name e2 = e_Name e1 ∧ e_Action e1 ≠ e_Action e2) as [Hn Ha].
  { unfold auditEntry in *. destruct (_ || _); [done|]. injection H1 as <-. injection H2 as <-. done. }
  clear H1 H2. destruct e1 as [n a1 o1 k1 c1], e2 as [n2 a2 o2 k2 c2]. simpl in Hn, Ha. subst n2.
  unfold run. cbn [foldl]. rewrite enqueue_one, flush_one by done. rewrite lookup_empty.
  rewrite enqueue_one, flush_one by done. cbn [e_Name]. rewrite lookup_insert_eq.
  cbn [pend refused overflow store]. split_and!; try done.
Qed.

End Transition.
