(* ===== verification/Cancel.v ===== *)
(** * Cancel: closing a step's pull request and cancelling the step

    Model of src/pkg/reconciler/promotionstep: haltOf and cancels, the close of a
    step's pull request (closeStepPRMerged, closeStepPRWithSCM, pr_branch.go) and
    cancelStep (reconciler.go).  What the API and the code host answer are fields
    of [Host]; [ParsePRURL] and [RepoFromURL] of pkg/scm and the hash of a
    namespace are parameters. *)

From stdpp Require Import base gmap strings list.
From Stdlib Require Import Lia ZArith.
From S2P Require Import Prelude Engine StepStatus Outbox Bake Transition.
Import StepStatus.StepStatus Transition.Transition.

Module Cancel.

(** ** What is read *)

(** An API read: the object, that there is none, or an error. *)
Inductive read (A : Type) := Got (a : A) | Missing | ReadError.
Arguments Got {A} _.
Arguments Missing {A}.
Arguments ReadError {A}.

(** What an error of the code host is asked: whether its circuit is open (with the
    time of the next call), and the errors that are told apart. *)
Inductive scm_error := CircuitOpen (retryAfter : Time) | RepositoryNotAllowed | NamespaceNotAllowed | ProviderGone | OtherError.

#[export] Instance scm_error_eq_dec : EqDecision scm_error.
Proof. solve_decision. Defined.

Definition open_circuit (e : scm_error) : option Time := match e with CircuitOpen t => Some t | _ => None end.

(** The spec of a PRStatus, and the object with its status.  [pr_ClosedBy] is the
    annotation kardinal.io/closed-by-kardinal (the empty string without one). *)
Record PRStatusSpec := mkPRSpec { PRURL_ : string; PRNumber : Z; Repo : string }.

Record PRStatus := mkPR {
  pr_Spec : PRStatusSpec;
  pr_Generation : Z;
  pr_ObservedGeneration : Z;
  pr_Merged : bool;
  pr_Open : bool;
  pr_LastCheckedAt : option Time;
  pr_ClosedAt : option Time;
  pr_ClosedFinal : bool;
  pr_MergedVia : string;
  pr_MergedBy : string;
  pr_MergedByUnavailable : bool;
  pr_MergeCommitSHA : string;
  pr_PollError : string;
  pr_MergeCommitUnavailable : bool;
  pr_Approved : bool;
  pr_ApprovalCount : Z;
  pr_ClosedBy : string
}.

(** The spec of the step, as far as closing reads it. *)
Record StepRef := mkRef { r_Namespace : string; r_Bundle : string; r_Environment : string; r_PRStatusRef : string }.

(** What the environment configures, as far as deleting a branch reads it. *)
Record EnvSequence := mkEnvSeq { es_Approval : string; es_Strategy : string; es_Layout : string }.

(** [h_provider]: scmFor's error, no provider, or one that can delete branches or
    not.  [h_repoOk]: the Pipeline's Git URL names a repository. *)
Record Host := mkHost {
  h_prstatus : read PRStatus;
  h_provider : scm_error + option bool;
  h_status : scm_error + bool * bool;
  h_close : option scm_error;
  h_delete : option scm_error;
  h_pipeline : read EnvSequence;
  h_repoOk : bool;
  h_markable : bool
}.

Definition out (outs : gmap string string) (k : string) : string := default "" (outs !! k).

Section close.
Variable ParsePRURL : string → option (string * Z).
Variable RepoFromURL : string → option string.
Variable hash : string → string.

Definition extractPRNumber (prURL : string) : Z := match ParsePRURL prURL with Some (_, n) => n | None => 0 end.

Definition extractRepo (url : string) : string :=
  match ParsePRURL url with Some (r, _) => r | None => default "" (RepoFromURL url) end.

Definition prSpecFromOutputs (outs : gmap string string) : option PRStatusSpec :=
  let prURL := out outs "prURL" in
  if bool_decide (prURL = "") then None
  else
    let prNum := match ParseInt64 (out outs "prNumber") with
                 | None | Some 0 => extractPRNumber prURL
                 | Some n => n
                 end in
    Some (mkPRSpec prURL prNum (extractRepo prURL)).

Definition specNamesPR (spec want : PRStatusSpec) : bool :=
  (PRNumber spec =? PRNumber want) && (bool_decide (PRURL_ spec = "") || bool_decide (PRURL_ spec = PRURL_ want)).

Definition DescribesSpec (p : PRStatus) : bool :=
  (pr_ObservedGeneration p =? 0) || (pr_ObservedGeneration p =? pr_Generation p).

Definition prStatusOfStepPR (p : PRStatus) (outs : gmap string string) : bool :=
  match prSpecFromOutputs outs with
  | None => true
  | Some want => specNamesPR (pr_Spec p) want
  end && DescribesSpec p.

(** ** The branch of a pull request (pr_branch.go) *)

Definition PRBranchPrefix : string := "kardinal/".

Definition PRBranch (namespace bundle env : string) : string :=
  if bool_decide (namespace = "") then PRBranchPrefix +:+ bundle +:+ "/" +:+ env
  else PRBranchPrefix +:+ hash namespace +:+ "/" +:+ bundle +:+ "/" +:+ env.

Definition prHeadBranch (r : StepRef) (outs : gmap string string) : string :=
  let branch := out outs "branch" in
  let branch := if bool_decide (branch = "") && negb (bool_decide (r_Bundle r = "")) && negb (bool_decide (r_Environment r = ""))
                then PRBranch (r_Namespace r) (r_Bundle r) (r_Environment r) else branch in
  if negb (HasPrefix branch PRBranchPrefix) || (str_length branch =? str_length PRBranchPrefix)%nat then "" else branch.

Definition opensPR (ss : list StepStatus) : bool := bool_decide (Engine.OpenPRStepName ∈ s_Name <$> ss).

Variable r : StepRef.
Variable host : Host.

Definition deletePRBranch (s : Status) : list effect * option scm_error :=
  match h_provider host with
  | inl e => ([], Some e)
  | inr p =>
      if bool_decide (prHeadBranch r (Outputs_ s) = "") || negb (default false p) then ([], None)
      else match h_delete host with Some e => ([], Some e) | None => ([DeleteBranch], None) end
  end.

Definition closedPRBranch (keep : bool) (s : Status) : list effect * option scm_error :=
  if keep then ([], None) else deletePRBranch s.

Definition deleteBranchWithoutPR (s : Status) : list effect * option scm_error :=
  match h_provider host with
  | inl e => ([], Some e)
  | inr p =>
      let started := (0 <? length (Steps s))%nat in
      if bool_decide (prHeadBranch r (Outputs_ s) = "") || negb (default false p) || (started && negb (opensPR (Steps s)))
      then ([], None)
      else match h_pipeline host with
           | Missing => ([], None)
           | ReadError => ([], Some OtherError)
           | Got env =>
               if negb started &&
                  negb (bool_decide (Engine.OpenPRStepName ∈
                    Engine.DefaultSequenceForBundle (es_Approval env) "" (es_Strategy env) (es_Layout env)))
               then ([], None)
               else if negb (h_repoOk host) then ([], Some OtherError)
               else match h_delete host with Some e => ([], Some e) | None => ([DeleteBranch], None) end
           end
  end.

(** ** Closing a pull request *)

(** The number of the PR the outputs of the step name. *)
Definition outputNumber (s : Status) : Z :=
  let prURL := out (Outputs_ s) "prURL" in
  let prURL := if bool_decide (prURL = "") then PRURL s else prURL in
  match ParseInt64 (out (Outputs_ s) "prNumber") with Some n => n | None => extractPRNumber prURL end.

(** [closeStepPRWithSCM] once the number of the PR is known. *)
Definition closeNumber (num : Z) (keepBranch : bool) (s : Status) : list effect * (scm_error + bool) :=
  let from (es : list effect) (x : list effect * option scm_error) :=
    (es ++ fst x, match snd x with Some e => inl e | None => inr false end) in
  if num <=? 0 then (if keepBranch then ([], inr false) else from [] (deleteBranchWithoutPR s))
  else match h_provider host with
       | inl e => ([], inl e)
       | inr None => ([], inl OtherError)
       | inr (Some _) =>
           match h_status host with
           | inl e => ([], inl e)
           | inr (merged, open) =>
               if negb open then (if merged then ([], inr true) else from [] (closedPRBranch keepBranch s))
               else match h_close host with
                    | Some e => ([], inl e)
                    | None =>
                        from ([ClosePR] ++ (if h_markable host then [MarkClosed] else []) ++ [CommentPR])
                          (closedPRBranch keepBranch s)
                    end
           end
       end.

Definition closeStepPRWithSCM (keepBranch : bool) (s : Status) : list effect * (scm_error + bool) :=
  let by_outputs := closeNumber (outputNumber s) keepBranch s in
  if bool_decide (r_PRStatusRef r = "") then by_outputs
  else match h_prstatus host with
       | ReadError => ([], inl OtherError)
       | Missing => by_outputs
       | Got prs =>
           if prStatusOfStepPR prs (Outputs_ s) then
             if pr_Merged prs then ([], inr true)
             else if PRNumber (pr_Spec prs) =? 0 then by_outputs
             else closeNumber (PRNumber (pr_Spec prs)) keepBranch s
           else by_outputs
       end.

Definition closeStepPRMerged (keepBranch : bool) (s : Status) : list effect * (scm_error + bool) :=
  match closeStepPRWithSCM keepBranch s with
  | (es, inl RepositoryNotAllowed) => (es, inr false)
  | x => x
  end.

(** ** Why steps are cancelled *)

Record halt := mkHalt { verb : string; auditAction : string; healthChecking : bool; mergedIsLive : bool }.

(** The Bundle, as far as [haltOf] reads it. *)
Record HaltView := mkHaltView { b_Rejected : bool; b_Phase : string }.

Definition haltOf (b : HaltView) : option halt :=
  if b_Rejected b || bool_decide (b_Phase b = "Rejected") then
    Some (mkHalt "rejected" AuditActionPromotionRejected false true)
  else if bool_decide (b_Phase b = "Superseded") then
    Some (mkHalt "superseded" AuditActionPromotionSuperseded true false)
  else None.

Definition isCancellable (state : State) : bool :=
  match state with
  | StatePending | StatePendingExplicit | StatePromoting | StateWaitingForMerge | StateHealthChecking | StateVerifying => true
  | _ => false
  end.

Definition cancels (h : halt) (state : State) : bool :=
  if bool_decide (state = StateHealthChecking) then healthChecking h else isCancellable state.

(** ** Cancelling a step *)

Definition map_retry (f : Retry → Retry) (s : Status) : Status := set_retry (f (retry s)) s.

Variable cx : Context_.
(** [rnd] is the jitter of a wait for the code host, [SCMWaitTimeout] the
    reconciler's setting. *)
Variable rnd : Duration.
Variable SCMWaitTimeout : Duration.

Definition unstarted (state : State) : bool :=
  match state with StatePending | StatePendingExplicit => true | _ => false end.

(** The close failed and its retries are spent, or it succeeded: the step fails. *)
Definition cancelled (base : State) (why action : string) (s : Status) : outcome :=
  patched (if unstarted base then cancelUnstarted cx base (why +:+ " before this step started") s
           else transitionAudit cx base StateFailed (why +:+ ": promotion cancelled") action s) Stop.

(** One of the close's retries is spent, or there is none left. *)
Definition retry_close (base : State) (why action : string) (s : Status) : outcome :=
  if RetryCount (retry s) <? maxStepRetries then
    let s := map_retry (set_RetryCount (RetryCount (retry s) + 1)) s in
    let delay := retryDelay (RetryCount (retry s)) in
    let s := map_retry (set_NextRetryAt (Some (now cx + delay))) s in
    patched (Some (set_Message (why +:+ "; closing its PR failed, retrying") s)) (RequeueAfter delay)
  else cancelled base (why +:+ "; closing its PR failed") action (map_retry endSCMWaitTimedOut s).

(** The close failed with [e]: wait for the code host, retry, or give up. *)
Definition close_failed (base : State) (closing : bool) (why action : string) (e : scm_error) (s : Status) : outcome :=
  let s := if closing then s else map_retry (set_RetryCount 0) s in
  let wait := circuitWait (open_circuit e) (now cx) rnd in
  let '(s, wait) :=
    match wait with
    | Some w =>
        let '(r, waited, _) := startSCMWait (now cx) (retry s) in
        (set_retry r s, if scmWaitBound SCMWaitTimeout 0 <=? waited then None else Some w)
    | None => (map_retry clearSCMWait s, None)
    end in
  let s := set_CloseFailed true s in
  match wait with
  | Some w =>
      let s := map_retry (set_NextRetryAt (Some (now cx + w))) s in
      patched (Some (set_Message "closing the PR waits for the code host" s)) (RequeueAfter w)
  | None => retry_close base why action s
  end.

(** [cancelStep]: the outcome, and the status in memory of a step that is left to
    its handler. *)
Definition cancelStep (why action : string) (mergedIsLive : bool) (s : Status) : outcome * option Status :=
  let closing := CloseFailed s in
  let wait := match NextRetryAt (retry s) with Some t => sub_time t (now cx) | None => 0 end in
  if closing && (0 <? wait) then (quiet (RequeueAfter wait), None)
  else
    let s' := map_retry (set_NextRetryAt None) s in
    let '(es, closed) := closeStepPRMerged false s' in
    match closed with
    | inr merged =>
        if merged && mergedIsLive then (mkOut es Stop, Some s')
        else (after es (cancelled (State_ s) why action (set_CloseFailed false s')), None)
    | inl e => (after es (close_failed (State_ s) closing why action e s'), None)
    end.

Definition handleSuperseded (h : halt) (s : Status) : outcome * option Status :=
  cancelStep ("bundle " +:+ r_Bundle r +:+ " was " +:+ verb h) (auditAction h) (mergedIsLive h) s.

(** ** What closing touches *)

Lemma prHeadBranch_own outs :
  prHeadBranch r outs ≠ "" → HasPrefix (prHeadBranch r outs) PRBranchPrefix = true.
Proof.
  unfold prHeadBranch. match goal with |- context [HasPrefix ?b PRBranchPrefix] => destruct (HasPrefix b PRBranchPrefix) eqn:E end; simpl; [|done].
  destruct (_ =? _)%nat; done.
Qed.

Lemma deletePRBranch_effects s es x :
  deletePRBranch s = (es, x) →
  (es = [] ∨ es = [DeleteBranch]) ∧ (es = [DeleteBranch] → prHeadBranch r (Outputs_ s) ≠ "").
Proof.
  unfold deletePRBranch. destruct (h_provider host) as [e|p]; [intros [= <- <-]; split; [by left|done]|].
  destruct (bool_decide _) eqn:E; simpl; [intros [= <- <-]; split; [by left|done]|].
  destruct (negb _); [intros [= <- <-]; split; [by left|done]|].
  apply bool_decide_eq_false in E. destruct (h_delete host); intros [= <- <-]; split; auto; done.
Qed.

Lemma deleteBranchWithoutPR_effects s es x :
  deleteBranchWithoutPR s = (es, x) →
  (es = [] ∨ es = [DeleteBranch]) ∧ (es = [DeleteBranch] → prHeadBranch r (Outputs_ s) ≠ "").
Proof.
  unfold deleteBranchWithoutPR. destruct (h_provider host) as [e|p]; [intros [= <- <-]; split; [by left|done]|].
  destruct (bool_decide (prHeadBranch _ _ = _)) eqn:E; simpl; [intros [= <- <-]; split; [by left|done]|].
  apply bool_decide_eq_false in E.
  repeat case_match; intros [= <- <-]; split; auto; done.
Qed.

(** The effects of a close: on a pull request that is open, or only its branch. *)
Inductive close_effects (keep : bool) (s : Status) : list effect → Prop :=
  | close_none : close_effects keep s []
  | close_branch : keep = false → prHeadBranch r (Outputs_ s) ≠ "" → close_effects keep s [DeleteBranch]
  | close_open m mark es :
      h_status host = inr (m, true) → h_close host = None →
      close_effects keep s es → (es = [] ∨ es = [DeleteBranch]) →
      close_effects keep s ([ClosePR] ++ (if mark : bool then [MarkClosed] else []) ++ [CommentPR] ++ es).

Lemma closedPRBranch_effects keep s es x :
  closedPRBranch keep s = (es, x) → close_effects keep s es ∧ (es = [] ∨ es = [DeleteBranch]).
Proof.
  unfold closedPRBranch. destruct keep; [intros [= <- <-]; split; [constructor|by left]|].
  intros [[-> | ->] Hb]%deletePRBranch_effects; split; auto; constructor; auto.
Qed.

Lemma closeNumber_effects num keep s es x :
  closeNumber num keep s = (es, x) →
  close_effects keep s es ∧ (x = inr true → es = []) ∧
  (0 < num → DeleteBranch ∈ es → h_status host = inr (false, false) ∨ ∃ m, h_status host = inr (m, true)).
Proof.
  unfold closeNumber. destruct (Z.leb_spec num 0).
  - destruct keep; [intros [= <- <-]; split_and!; [constructor|done|set_solver]|].
    destruct (deleteBranchWithoutPR s) as [es0 x0] eqn:E. cbn [fst snd app]. intros [= <- <-].
    destruct (deleteBranchWithoutPR_effects _ _ _ E) as [[-> | ->] Hb]; split_and!;
      [constructor|by destruct x0|set_solver|constructor; auto|by destruct x0|intros; lia].
  - destruct (h_provider host) as [e|[d|]]; [intros [= <- <-]; split_and!; [constructor|done|set_solver]| |
      intros [= <- <-]; split_and!; [constructor|done|set_solver]].
    destruct (h_status host) as [e|[m o]] eqn:Es; [intros [= <- <-]; split_and!; [constructor|done|set_solver]|].
    destruct o; simpl.
    + destruct (h_close host) eqn:Ec; [intros [= <- <-]; split_and!; [constructor|done|set_solver]|].
      destruct (closedPRBranch keep s) as [es0 x0] eqn:E. cbn [fst snd app]. intros [= <- <-].
      destruct (closedPRBranch_effects _ _ _ _ E) as [Hc Hes]. split_and!.
      * pose proof (close_open keep s m (h_markable host) es0 Es Ec Hc Hes). by destruct (h_markable host).
      * by destruct x0.
      * intros _ _. right. by exists m.
    + destruct m; [intros [= <- <-]; split_and!; [constructor|done|set_solver]|].
      destruct (closedPRBranch keep s) as [es0 x0] eqn:E. cbn [fst snd app]. intros [= <- <-].
      destruct (closedPRBranch_effects _ _ _ _ E) as [Hc Hes]. split_and!; [done|by destruct x0|auto].
Qed.

(** The step's own PRStatus says its pull request is merged. *)
Definition known_merged (s : Status) : Prop :=
  r_PRStatusRef r ≠ "" ∧
  ∃ prs, h_prstatus host = Got prs ∧ prStatusOfStepPR prs (Outputs_ s) = true ∧ pr_Merged prs = true.

Lemma closeStepPRMerged_effects keep s es x :
  closeStepPRMerged keep s = (es, x) →
  close_effects keep s es ∧ (x = inr true → es = []) ∧ (known_merged s → es = [] ∧ x = inr true).
Proof.
  assert (∀ es x, closeStepPRWithSCM keep s = (es, x) →
    close_effects keep s es ∧ (x = inr true → es = []) ∧ (known_merged s → es = [] ∧ x = inr true)) as Hscm.
  { clear es x. intros es x. unfold closeStepPRWithSCM. case_bool_decide as Hr.
    { intros (H1 & H2 & _)%closeNumber_effects. split_and!; try done. by intros [? _]. }
    destruct (h_prstatus host) as [prs| |] eqn:Ep.
    - destruct (prStatusOfStepPR prs _) eqn:Eo.
      + destruct (pr_Merged prs) eqn:Em; [intros [= <- <-]; split_and!; [constructor|done|done]|].
        assert (¬ known_merged s) by (intros (_ & ? & [= <-]%(eq_trans (eq_sym Ep)) & _ & ?); congruence).
        case_match; intros (H1 & H2 & _)%closeNumber_effects; split_and!; done.
      + assert (¬ known_merged s) by (intros (_ & ? & [= <-]%(eq_trans (eq_sym Ep)) & ? & _); congruence).
        intros (H1 & H2 & _)%closeNumber_effects; split_and!; done.
    - assert (¬ known_merged s) by (intros (_ & ? & ? & _); congruence).
      intros (H1 & H2 & _)%closeNumber_effects; split_and!; done.
    - assert (¬ known_merged s) by (intros (_ & ? & ? & _); congruence).
      intros [= <- <-]. split_and!; [constructor|done|done]. }
  unfold closeStepPRMerged. destruct (closeStepPRWithSCM keep s) as [es0 x0] eqn:E. specialize (Hscm _ _ eq_refl).
  destruct x0 as [[]|]; intros [= <- <-]; try done. destruct Hscm as (H1 & H2 & H3).
  split_and!; try done. intros Hk. by destruct (H3 Hk).
Qed.

(** Closing a step's pull request touches only what is the step's and only
    while it can still be undone.  A pull request is closed and commented on only
    when the code host says it is open; one that merged is left alone, with its
    branch, and one the step's PRStatus reports merged is not even asked about; a
    branch is deleted only when it is kardinal's own (under kardinal/) and not to
    be kept; and the close comes before its comment and the branch. *)
Theorem close_spares_merged keep s :
  let es := (closeStepPRMerged keep s).1 in
  let x := (closeStepPRMerged keep s).2 in
  (known_merged s → es = [] ∧ x = inr true) ∧
  (x = inr true → es = []) ∧
  (ClosePR ∈ es ∨ CommentPR ∈ es → ∃ m, h_status host = inr (m, true)) ∧
  (DeleteBranch ∈ es → keep = false ∧ HasPrefix (prHeadBranch r (Outputs_ s)) PRBranchPrefix = true) ∧
  (∀ i j, es !! i = Some ClosePR → es !! j = Some CommentPR ∨ es !! j = Some DeleteBranch → (i < j)%nat).
Proof.
  destruct (closeStepPRMerged keep s) as [es x] eqn:E. simpl.
  destruct (closeStepPRMerged_effects _ _ _ _ E) as (Hc & Hx & Hk). split_and!; try done.
  - destruct Hc; intros [?|?]; [set_solver..| |]; eauto.
  - assert (prHeadBranch r (Outputs_ s) ≠ "" → HasPrefix (prHeadBranch r (Outputs_ s)) PRBranchPrefix = true)
      by apply prHeadBranch_own.
    destruct Hc as [|Hkeep Hb|m mark es' _ _ Hc' Hes]; [set_solver|by auto|]. destruct Hes as [->| ->].
    + destruct mark; set_solver.
    + inversion Hc'; subst; auto.
  - intros [|i] [|j]; destruct Hc as [|Hkeep Hb|m mark es' _ _ _ Hes]; try (by simpl; intros; naive_solver); try lia.
    simpl. intros Hi. exfalso. destruct mark, Hes as [->| ->]; simpl in Hi; repeat (destruct i as [|i]; [done|simpl in Hi]); done.
Qed.

(** ** What cancelling writes *)

Lemma cancelled_spec base why action s :
  ∃ p, cancelled base why action s = mkOut [Patch p] Stop ∧ State_ p = StateFailed ∧ kept s p.
Proof.
  unfold cancelled. destruct (unstarted base).
  - destruct (cancelUnstarted_spec cx base (why +:+ " before this step started") s) as (p & -> & H). by exists p.
  - destruct (transitionAudit_total cx base StateFailed (why +:+ ": promotion cancelled") action s) as [p E]; [done|].
    rewrite E. exists p. split; [done|]. by eapply transitionAudit_state.
Qed.

Lemma retry_close_spec base why action s :
  0 ≤ RetryCount (retry s) ≤ maxStepRetries → State_ s = base → CloseFailed s = true →
  ∃ p x, retry_close base why action s = mkOut [Patch p] x ∧
    (RetryCount (retry s) = maxStepRetries ∧ State_ p = StateFailed ∨
     State_ p = base ∧ CloseFailed p = true ∧ 0 ≤ RetryCount (retry p) ≤ maxStepRetries ∧
     RetryCount (retry p) = RetryCount (retry s) + 1 ∧
     ∃ d, 0 < d ≤ retryMaxDelay ∧ x = RequeueAfter d ∧ NextRetryAt (retry p) = Some (now cx + d)).
Proof.
  intros Hc Hb Hf. unfold retry_close. destruct (Z.ltb_spec (RetryCount (retry s)) maxStepRetries).
  - eexists _, _. split; [done|]. right. simpl. split_and!; try done; [lia|lia|]. eexists.
    pose proof (retryDelay_bounds (RetryCount (retry s) + 1)). pose proof (retryDelay_pos (RetryCount (retry s) + 1)).
    split_and!; [done|lia|done|done].
  - destruct (cancelled_spec base (why +:+ "; closing its PR failed") action (map_retry endSCMWaitTimedOut s)) as (p & -> & Hp & _).
    exists p, Stop. split; [done|]. left. split; [lia|done].
Qed.

(** A close that fails leaves the step as it was, with a time to try again and at
    most [maxStepRetries] retries, or fails it. *)
Lemma close_failed_spec base closing why action e s :
  0 ≤ RetryCount (retry s) ≤ maxStepRetries → State_ s = base →
  0 ≤ rnd → ∃ p x, close_failed base closing why action e s = mkOut [Patch p] x ∧
    (State_ p = StateFailed ∨
     State_ p = base ∧ CloseFailed p = true ∧ 0 ≤ RetryCount (retry p) ≤ maxStepRetries ∧
     ∃ d, 0 < d ∧ x = RequeueAfter d ∧ NextRetryAt (retry p) = Some (now cx + d)).
Proof.
  intros Hc Hb Hr. unfold close_failed.
  set (s1 := if closing then s else _).
  assert (0 ≤ RetryCount (retry s1) ≤ maxStepRetries ∧ State_ s1 = base) as [Hc1 Hb1]
    by (unfold s1; destruct closing; simpl; [done|split; [unfold maxStepRetries; lia|done]]).
  clearbody s1.
  assert (∀ s2, 0 ≤ RetryCount (retry s2) ≤ maxStepRetries → State_ s2 = base → CloseFailed s2 = true →
    ∃ p x, retry_close base why action s2 = mkOut [Patch p] x ∧
    (State_ p = StateFailed ∨
     State_ p = base ∧ CloseFailed p = true ∧ 0 ≤ RetryCount (retry p) ≤ maxStepRetries ∧
     ∃ d, 0 < d ∧ x = RequeueAfter d ∧ NextRetryAt (retry p) = Some (now cx + d))) as Hlast.
  { intros s2 ???. destruct (retry_close_spec base why action s2) as (p & x & E & H2); [done..|].
    exists p, x. split; [done|]. destruct H2 as [[_ ?]|(? & ? & ? & _ & d & ? & ? & ?)]; [by left|right].
    split_and!; try done; [lia|lia|]. exists d. split_and!; [lia|done|done]. }
  destruct (circuitWait (open_circuit e) (now cx) rnd) as [w|] eqn:Ew; [|by apply Hlast].
  pose proof (circuitWait_pos _ _ _ _ Hr Ew) as Hw.
  destruct (startSCMWait (now cx) (retry s1)) as [[rt waited] st] eqn:Est.
  assert (RetryCount rt = RetryCount (retry s1)) as Hrt
    by (unfold startSCMWait in Est; destruct (SCMWaitSince (retry s1)); injection Est as <- _ _; done).
  destruct (scmWaitBound SCMWaitTimeout 0 <=? waited).
  - apply Hlast; [by simpl; rewrite Hrt|done|done].
  - eexists _, _. split; [done|]. right. simpl. rewrite Hrt. split_and!; try done; [lia|lia|]. by exists w.
Qed.

Lemma effects_no_patch keep s es : close_effects keep s es → ∀ p, Patch p ∉ es.
Proof. induction 1 as [| |m mark es' _ _ Hc IH _]; intros p; [set_solver..|]. specialize (IH p). destruct mark; set_solver. Qed.

(** One call of cancelStep: the step waits, is left to its handler (a rejection that
    came after the merge), is failed, or keeps its state and retries the close. *)
Lemma cancelStep_cases why action live s o l :
  0 ≤ RetryCount (retry s) ≤ maxStepRetries → 0 ≤ rnd →
  cancelStep why action live s = (o, l) →
  (∀ s', l = Some s' → live = true ∧ effects o = [] ∧ s' = map_retry (set_NextRetryAt None) s ∧
     (closeStepPRMerged false s').2 = inr true) ∧
  (∀ p, Patch p ∈ effects o →
     State_ p = StateFailed ∨
     State_ p = State_ s ∧ CloseFailed p = true ∧ 0 ≤ RetryCount (retry p) ≤ maxStepRetries ∧
     ∃ d, 0 < d ∧ res o = RequeueAfter d ∧ NextRetryAt (retry p) = Some (now cx + d)).
Proof.
  intros Hc Hr. unfold cancelStep. destruct (_ && (0 <? _)); [intros [= <- <-]; simpl; set_solver|].
  destruct (closeStepPRMerged false (map_retry (set_NextRetryAt None) s)) as [es x] eqn:E.
  destruct (closeStepPRMerged_effects _ _ _ _ E) as (Hce & Hx & _). pose proof (effects_no_patch _ _ _ Hce) as Hnp.
  destruct x as [e|m].
  - intros [= <- <-]. split; [done|]. destruct (close_failed_spec (State_ s) (CloseFailed s) why action e
      (map_retry (set_NextRetryAt None) s)) as (p & x & -> & Hp); [done|done|done|].
    intros q. simpl. rewrite elem_of_app, list_elem_of_singleton. intros [Hq|[= ->]]; [by destruct (Hnp q)|done].
  - destruct (m && live) eqn:Em.
    + apply andb_prop in Em as [-> ->]. intros [= <- <-]. simpl. split; [|intros p Hp; by destruct (Hnp p)].
      intros s' [= <-]. rewrite E. auto.
    + intros [= <- <-]. split; [done|].
      destruct (cancelled_spec (State_ s) why action (set_CloseFailed false (map_retry (set_NextRetryAt None) s))) as (p & -> & Hp & _).
      intros q. simpl. rewrite elem_of_app, list_elem_of_singleton. intros [Hq|[= ->]]; [by destruct (Hnp q)|auto].
Qed.

(** Whatever the counters, a cancelled step keeps its state or fails. *)
Lemma retry_close_states base why action s p :
  State_ s = base → Patch p ∈ effects (retry_close base why action s) → State_ p = base ∨ State_ p = StateFailed.
Proof.
  intros Hb. unfold retry_close. destruct (_ <? _).
  - simpl. intros [= ->]%list_elem_of_singleton. by left.
  - destruct (cancelled_spec base (why +:+ "; closing its PR failed") action (map_retry endSCMWaitTimedOut s)) as (q & -> & Hq & _).
    intros [= ->]%list_elem_of_singleton. by right.
Qed.

Lemma close_failed_states base closing why action e s p :
  State_ s = base → Patch p ∈ effects (close_failed base closing why action e s) → State_ p = base ∨ State_ p = StateFailed.
Proof.
  intros Hb. unfold close_failed. set (s1 := if closing then s else _).
  assert (State_ s1 = base) as Hb1 by (unfold s1; by destruct closing). clearbody s1.
  destruct (circuitWait _ _ _) as [w|]; [|by apply retry_close_states].
  destruct (startSCMWait _ _) as [[rt waited] st]. destruct (_ <=? _); [by apply retry_close_states|].
  simpl. intros [= ->]%list_elem_of_singleton. by left.
Qed.

Lemma cancelStep_states why action live s p :
  Patch p ∈ effects (cancelStep why action live s).1 → State_ p = State_ s ∨ State_ p = StateFailed.
Proof.
  unfold cancelStep. destruct (_ && (0 <? _)); [by intros ?%elem_of_nil|].
  destruct (closeStepPRMerged false _) as [es x] eqn:E.
  destruct (closeStepPRMerged_effects _ _ _ _ E) as (Hce & _ & _). pose proof (effects_no_patch _ _ _ Hce p) as Hnp.
  destruct x as [e|m]; [|destruct (m && live)]; cbn [fst after effects].
  - intros [?|Hp]%elem_of_app; [done|]. by apply close_failed_states in Hp.
  - done.
  - intros [?|Hp]%elem_of_app; [done|].
    destruct (cancelled_spec (State_ s) why action (set_CloseFailed false (map_retry (set_NextRetryAt None) s))) as (q & E' & Hq & _).
    rewrite E' in Hp. apply list_elem_of_singleton in Hp as [= ->]. by right.
Qed.

(** A due close that the code host refuses, not for an open circuit, spends one
    retry, or fails the step when none is left. *)
Lemma cancelStep_refused why action live s e :
  0 ≤ RetryCount (retry s) ≤ maxStepRetries →
  (CloseFailed s = true → ∃ t, NextRetryAt (retry s) = Some t ∧ t ≤ now cx) →
  (closeStepPRMerged false (map_retry (set_NextRetryAt None) s)).2 = inl e → open_circuit e = None →
  let n := if CloseFailed s then RetryCount (retry s) else 0 in
  let p := stored s (effects (cancelStep why action live s).1) in
  if n <? maxStepRetries then
    State_ p = State_ s ∧ CloseFailed p = true ∧ RetryCount (retry p) = n + 1 ∧
    ∃ t, NextRetryAt (retry p) = Some t ∧ t ≤ now cx + retryMaxDelay
  else State_ p = StateFailed.
Proof.
  intros Hc Hdue Hcl He n. unfold cancelStep.
  assert ((CloseFailed s && (0 <? match NextRetryAt (retry s) with Some t => sub_time t (now cx) | None => 0 end)) = false) as ->.
  { destruct (CloseFailed s); [|done]. destruct (Hdue eq_refl) as (t & -> & Ht). rewrite sub_time_pos. simpl. by apply Z.ltb_ge. }
  destruct (closeStepPRMerged false _) as [es x]. simpl in Hcl. subst x. cbn [fst].
  unfold after. cbn [effects]. unfold close_failed. rewrite He. cbn [circuitWait].
  set (s2 := set_CloseFailed true _).
  assert (RetryCount (retry s2) = n ∧ State_ s2 = State_ s ∧ 0 ≤ n ≤ maxStepRetries) as (Hn & Hs & Hb)
    by (unfold s2, n; destruct (CloseFailed s); simpl; split_and!; try done; unfold maxStepRetries in *; lia).
  destruct (retry_close_spec (State_ s) why action s2) as (p & x & -> & Hp); [lia|done|done|].
  assert (stored s (es ++ effects (mkOut [Patch p] x)) = p) as -> by (unfold stored; by rewrite foldl_app).
  destruct (Z.ltb_spec n maxStepRetries).
  - destruct Hp as [[? _]|(H1 & H2 & _ & H3 & d & Hd & _ & H4)]; [lia|]. split_and!; [done|done|lia|].
    eexists. split; [done|]. lia.
  - destruct Hp as [[_ ?]|(_ & _ & ? & ? & _)]; [done|lia].
Qed.
End close.

(** ** Cancelling ends *)

(** One reconcile that cancels the step: the code host then, the clock, the
    jitter. *)
Record attempt := mkAttempt { a_host : Host; a_cx : Context_; a_rnd : Duration }.

Section gives_up.
Variable ParsePRURL : string → option (string * Z).
Variable RepoFromURL : string → option string.
Variable hash : string → string.
Variable r : StepRef.
Variable SCMWaitTimeout : Duration.
Variables why action : string.
Variable live : bool.

Definition attempt_once (s : Status) (a : attempt) : Status :=
  stored s (effects (cancelStep ParsePRURL RepoFromURL hash r (a_host a) (a_cx a) (a_rnd a) SCMWaitTimeout why action live s).1).

(** The close fails whatever the step, and not for an open circuit. *)
Definition refuses (a : attempt) : Prop :=
  ∀ s, ∃ e, (closeStepPRMerged ParsePRURL RepoFromURL hash r (a_host a) false s).2 = inl e ∧ open_circuit e = None.

(** Attempts at least [retryMaxDelay] apart, from [t] on. *)
Fixpoint spaced (t : Time) (l : list attempt) : Prop :=
  match l with [] => True | a :: l => t ≤ now (a_cx a) ∧ spaced (now (a_cx a) + retryMaxDelay) l end.

Lemma spaced_take t l k : spaced t l → spaced t (take k l).
Proof. revert t k. induction l as [|a l IH]; intros t [|k]; simpl; try done. intros [? ?]. split; [done|by apply IH]. Qed.

Lemma attempts_count l s t n :
  0 < n → n + Z.of_nat (length l) ≤ maxStepRetries + 1 →
  CloseFailed s = true → RetryCount (retry s) = n → (∃ u, NextRetryAt (retry s) = Some u ∧ u ≤ t) →
  spaced t l → Forall refuses l →
  State_ (foldl attempt_once s l) =
    if (n + Z.of_nat (length l) =? maxStepRetries + 1) && negb (length l =? 0)%nat then StateFailed else State_ s.
Proof.
  revert s t n. induction l as [|a l IH]; intros s t n Hn Hl Hf Hc (u & Hu & Hut) Hsp Hall; simpl.
  { by rewrite andb_false_r. }
  destruct Hsp as [Ht Hsp]. apply Forall_cons in Hall as [Ha Hall].
  destruct (Ha (map_retry (set_NextRetryAt None) s)) as (e & He & Ho).
  pose proof (cancelStep_refused ParsePRURL RepoFromURL hash r (a_host a) (a_cx a) (a_rnd a) SCMWaitTimeout why action live s e) as H.
  simpl in Hl. rewrite Hf, Hc in H.
  specialize (H ltac:(lia) ltac:(intros _; exists u; split; [done|lia]) He Ho).
  cbv beta iota zeta in H. fold (attempt_once s a) in H. rewrite andb_true_r.
  destruct (Z.ltb_spec n maxStepRetries).
  - destruct H as (H1 & H2 & H3 & u' & H4 & H5).
    rewrite (IH _ (now (a_cx a) + retryMaxDelay) (n + 1)); [|lia|lia|done|lia|eauto|done|done].
    rewrite H1. destruct l as [|b l]; simpl.
    + rewrite andb_false_r. destruct (_ =? _) eqn:E; [apply Z.eqb_eq in E; unfold maxStepRetries in *; lia|done].
    + rewrite andb_true_r. match goal with |- (if ?a then _ else _) = (if ?b then _ else _) => assert (a = b) as ->; [apply eq_true_iff_eq; rewrite !Z.eqb_eq; lia|done] end.
  - destruct l; simpl in Hl |- *; [|lia].
    destruct (_ =? _) eqn:E; [exact H|apply Z.eqb_neq in E; unfold maxStepRetries in *; lia].
Qed.

(** Cancelling a step ends.  When the code host refuses every attempt to close
    its pull request, the step keeps its state for five retries, each at least the
    backoff apart, and the sixth attempt fails it all the same: a superseded or
    rejected promotion is never left running because of its pull request. *)
Theorem cancel_gives_up l s t :
  length l = 6%nat → CloseFailed s = false → 0 ≤ RetryCount (retry s) ≤ maxStepRetries →
  spaced t l → Forall refuses l →
  State_ (foldl attempt_once s l) = StateFailed ∧
  ∀ k, (k ≤ 5)%nat → State_ (foldl attempt_once s (take k l)) = State_ s.
Proof.
  intros Hl Hf Hc Hsp Hall. destruct l as [|a l]; [done|]. destruct Hsp as [_ Hsp]. apply Forall_cons in Hall as [Ha Hall].
  destruct (Ha (map_retry (set_NextRetryAt None) s)) as (e & He & Ho).
  pose proof (cancelStep_refused ParsePRURL RepoFromURL hash r (a_host a) (a_cx a) (a_rnd a) SCMWaitTimeout why action live s e) as H.
  rewrite Hf in H. specialize (H Hc ltac:(done) He Ho). cbv beta iota zeta in H. fold (attempt_once s a) in H.
  destruct H as (H1 & H2 & H3 & u & H4 & H5). simpl in Hl. injection Hl as Hl.
  assert (∀ k, (k ≤ 5)%nat → State_ (foldl attempt_once (attempt_once s a) (take k l)) =
    if (k =? 5)%nat then StateFailed else State_ s) as Hk.
  { intros k Hk. rewrite (attempts_count (take k l) (attempt_once s a) (now (a_cx a) + retryMaxDelay) 1);
      rewrite ?length_take, ?Hl; unfold maxStepRetries; [|lia|lia|done|lia|eauto| |by apply Forall_take].
    - rewrite H1. replace (k `min` 5)%nat with k by lia.
      destruct (Nat.eqb_spec k 5) as [->|]; [done|]. by destruct (Z.eqb_spec (1 + Z.of_nat k) (5 + 1)); [lia|].
    - by apply spaced_take. }
  simpl. split.
  - rewrite <- (firstn_all l), Hl. by apply (Hk 5%nat).
  - intros [|k] Hle; [done|]. simpl. rewrite Hk by lia. by destruct (Nat.eqb_spec k 5); [lia|].
Qed.
End gives_up.

Definition demo_host : Host := mkHost Missing (inl OtherError) (inl OtherError) None None Missing true true.
Definition demo_ref : StepRef := mkRef "team" "v1" "prod" "".
Definition demo_attempts : list attempt :=
  (λ k, mkAttempt demo_host (demo_cx (k * 5 * 60 * second)) 0) <$> [1; 2; 3; 4; 5; 6].

Lemma cancel_gives_up_witness :
  let once := attempt_once (λ _, None) (λ _, None) (λ _, "0123abcd") demo_ref 0 "bundle v1 was superseded"
                AuditActionPromotionSuperseded false in
  State_ (foldl once (demo_status StateWaitingForMerge) demo_attempts) = StateFailed.
Proof.
  intros once. unfold once. refine (proj1 (cancel_gives_up (λ _, None) (λ _, None) (λ _, "0123abcd") demo_ref 0
    "bundle v1 was superseded" AuditActionPromotionSuperseded false demo_attempts (demo_status StateWaitingForMerge) 0 _ _ _ _ _)).
  - reflexivity.
  - reflexivity.
  - vm_compute. split; discriminate.
  - vm_compute. repeat split; discriminate.
  - unfold demo_attempts. apply Forall_fmap, Forall_forall. intros k _ s. exists OtherError. split; [|reflexivity].
    unfold closeStepPRMerged, closeStepPRWithSCM, closeNumber. simpl. by destruct (_ <=? 0).
Defined.
End Cancel.
