(* ===== verification/Pending.v ===== *)
(** * Pending: what holds a promotion step, and how it starts

    Model of src/pkg/reconciler/promotionstep: the holds (lifecycle.go, freeze.go,
    hooks.go, with the environment holds of src/pkg/lifecycle/hold.go),
    checkRequiredGates and handlePending (reconciler.go).  What a handler reads
    is a field of [Reads]: an API read that fails is [None] or [ReadError]. *)

From stdpp Require Import base gmap strings list.
From Stdlib Require Import Lia ZArith.
From S2P Require Import Prelude Actor Freeze Engine StepStatus Hooks Outbox Bake Transition Cancel.
Import Freeze.Freeze StepStatus.StepStatus Outbox.Outbox Transition.Transition Cancel.Cancel.

Module Pending.

(** ** What is read *)

Record EnvironmentHold := mkHold { hd_Environment : string; hd_Bundle : string; hd_ExpiresAt : option Time }.

(** The Pipeline as far as a step reads it: its holds, the fleet of the step's
    environment ("" without one), and what the environment configures
    ([p_Sequence]: approval, update strategy and effective layout). *)
Record Pipeline := mkPipeline { p_Holds : list EnvironmentHold; p_Fleet : string; p_Sequence : EnvSequence }.

Record Bundle := mkBundle { b_Type : string; b_Images : list Hooks.ImageRef; b_WaitingForSlot : bool }.

(** The status of a PolicyGate. *)
Record Gate := mkGate { g_Ready : bool; g_LastEvaluatedAt : option Time }.

Record LiveImageVerification := mkLiveImage { i_Name : string; i_Phase : string; i_Images : list string }.

(** The step's spec, with the mirror of what it waits for (spec.live). *)
Record Spec := mkSpec {
  s_Namespace : string;
  s_Pipeline : string;
  s_Bundle : string;
  s_Environment : string;
  s_Admitted : option bool;
  s_RequiredGates : list string;
  s_PreHooks : list string;
  s_ImageVerification : string;
  s_LiveHooks : list Hooks.LiveHookRun;
  s_LiveImage : option LiveImageVerification;
  s_CreatedAt : Time
}.

(** The decision snapshot: receipts are off, its reads fail, it is too large, or it
    is recorded. *)
Inductive snapshot := NoReceipts | SnapshotError | SnapshotTooLarge | SnapshotRecorded.

#[export] Instance snapshot_eq_dec : EqDecision snapshot.
Proof. solve_decision. Defined.

(** [rd_author] is the author of the Bundle, [rd_unsupported] whether
    unsupportedConfig has a message, [rd_refused] repositoryNotAllowed. *)
Record Reads := mkReads {
  rd_pipeline : option Pipeline;
  rd_paused : option bool;
  rd_windows : option (list ChangeWindow_);
  rd_author : option Actor.Actor;
  rd_bundle : read Bundle;
  rd_unsupported : bool;
  rd_refused : option bool;
  rd_gates : string → read Gate;
  rd_snapshot : snapshot
}.

Definition minute : Duration := 60 * second.
Definition requeuePaused : Duration := minute.
Definition requeueSlotHold : Duration := 30 * second.
Definition requeueGateWait : Duration := 30 * second.
Definition unresolvedRecheck : Duration := 30 * second.
Definition MaxStepFreezeExemptions : nat := 8.
Definition ImageVerificationVerified : string := "Verified".
Definition ImageVerificationFailed : string := "Failed".

(** A hold that only says why: the message is written when it changes. *)
Definition wait_for (msg : string) (r : result) (s : Status) : outcome :=
  if bool_decide (Message s = msg) then quiet r else mkOut [Patch (set_Message msg s)] r.

(** ** Environment holds (hold.go) *)

Definition Expired (t : Time) (h : EnvironmentHold) : bool :=
  match hd_ExpiresAt h with Some e => negb (t <? e) | None => false end.

Definition exactHold (t : Time) (p : Pipeline) (env : string) : option EnvironmentHold :=
  head (filter (λ h, hd_Environment h = env ∧ Expired t h = false) (p_Holds p)).

Definition HoldOf (t : Time) (p : Pipeline) (env : string) : option EnvironmentHold :=
  match exactHold t p env with
  | Some h => Some h
  | None => if bool_decide (p_Fleet p = "") then None else exactHold t p (p_Fleet p)
  end.

Definition HeldFrom (t : Time) (p : Pipeline) (env bundle : string) : option EnvironmentHold :=
  match HoldOf t p env with
  | Some h => if bool_decide (hd_Bundle h = bundle) then None else Some h
  | None => None
  end.

Definition UntilExpiry (t : Time) (h : EnvironmentHold) (fallback : Duration) : Duration :=
  match hd_ExpiresAt h with
  | None => fallback
  | Some e =>
      let d := sub_time e t in
      if d <? fallback then (if d <? second then second else d) else fallback
  end.

Section pending.
(** The hash that names a freeze exemption, the wording of its message and of the
    record's name, and the parser of image references. *)
Variable ExemptionKey : FreezeExemption → string.
Variable exemptionMessage : FreezeMatch → string.
Variable exemptionSuffix : FreezeMatch → string.
Variable NormalizeRepository : string → option string.

Variable cx : Context_.
Variable sp : Spec.
Variable rd : Reads.

Definition holdIfPaused (s : Status) : option outcome :=
  match rd_paused rd with
  | None => Some (quiet Error_)
  | Some false => None
  | Some true =>
      Some (if negb (bool_decide (Message s = "paused")) || negb (bool_decide (FrozenBy s = None))
            then mkOut [Patch (set_FrozenBy None (set_Message "paused" s))] (RequeueAfter requeuePaused)
            else quiet (RequeueAfter requeuePaused))
  end.

(** ** Freezes (freeze.go) *)

Definition needsAuthor (ws : list ChangeWindow_) : bool :=
  existsb (λ w, match w_Freeze w with Some f => negb (bool_decide (Actors f = "everyone")) | None => false end) ws.

(** The author is read only for an agent freeze: no other freeze looks at it. *)
Definition freezesFor : option (list FreezeMatch) :=
  match rd_windows rd with
  | None => None
  | Some ws =>
      let target a := mkTarget (s_Namespace sp) (s_Pipeline sp) (s_Environment sp) (s_Bundle sp) a in
      if needsAuthor ws then (λ a, FreezesFor ExemptionKey ws (target a)) <$> rd_author rd
      else Some (FreezesFor ExemptionKey ws (target (Actor.Controller "" "")))
  end.

(** The exemption of [m] as the step records it. *)
Definition step_exemption (m : FreezeMatch) : option StepFreezeExemption :=
  match Exemption m with
  | None => None
  | Some e =>
      let until := if IsZero (m_Until m) then ExpiresAt e else m_Until m in
      Some (mkStepExemption (w_Name (Window m)) (from_option Actors "" (w_Freeze (Window m))) e until)
  end.

Definition same_exemption (a b : StepFreezeExemption) : bool :=
  bool_decide (fe_Freeze a = fe_Freeze b) && bool_decide (ExemptionKey (fe_Exemption a) = ExemptionKey (fe_Exemption b)).

Definition record_exemption (out : list StepFreezeExemption) (m : FreezeMatch) : list StepFreezeExemption :=
  match step_exemption m with
  | None => out
  | Some e =>
      if negb (existsb (λ h, same_exemption h e) out) && (length out <? MaxStepFreezeExemptions)%nat then out ++ [e] else out
  end.

Definition recordedExemptions (have : list StepFreezeExemption) (ms : list FreezeMatch) : list StepFreezeExemption :=
  foldl record_exemption have ms.

Definition AuditActionFreezeExempted : string := "FreezeExempted".

Definition freezeAuditEntry (m : FreezeMatch) : option Entry :=
  let suffix := "-freeze-exempted-" +:+ exemptionSuffix m in
  let limit := (253 - str_length suffix)%nat in
  let base := ps_Name (meta cx) in
  let base := if (limit <? str_length base)%nat then String.substring 0 limit base else base in
  (λ e, mkEntry (sanitizeK8sName (base +:+ suffix)) (e_Action e) (e_Outcome e) (e_Merged e) (e_Body e)) <$>
    auditEntry (meta cx) AuditActionFreezeExempted AuditOutcomeSuccess (exemptionMessage m).

(** [recordFreezeExemption]: the status it writes, unless it is recorded. *)
Definition recordFreezeExemption (ms : list FreezeMatch) (s : Status) : option Status :=
  let msg := Join (exemptionMessage <$> ms) "; " in
  let recorded := recordedExemptions (FreezeExemptions s) ms in
  if bool_decide (FreezeExempted s = Some msg) && (length recorded =? length (FreezeExemptions s))%nat then None
  else Some (enqueue_all cx (omap freezeAuditEntry ms) (set_FreezeExemptions recorded (set_FreezeExempted (Some msg) s))).

Definition StepFreezeOf (m : FreezeMatch) : StepFreeze := mkStepFreeze (w_Name (Window m)) (Truncate (Since m)).

Definition holdIfFrozen (s : Status) : option outcome :=
  match freezesFor with
  | None => Some (quiet Error_)
  | Some ms =>
      match Holding ms with
      | [] =>
          if negb (bool_decide (FrozenBy s = None)) then Some (mkOut [Patch (set_FrozenBy None s)] (RequeueAfter second))
          else if bool_decide (length ms = 0%nat) then None
          else match recordFreezeExemption ms s with
               | Some s' => Some (mkOut [Patch s'] (RequeueAfter second))
               | None => None
               end
      | m :: _ =>
          let msg := "frozen by " +:+ w_Name (Window m) in
          Some (if negb (bool_decide (Message s = msg)) || negb (bool_decide (FrozenBy s = Some (StepFreezeOf m)))
                then mkOut [Patch (set_FrozenBy (Some (StepFreezeOf m)) (set_Message msg s))] (RequeueAfter requeuePaused)
                else quiet (RequeueAfter requeuePaused))
      end
  end.

Definition holdIfEnvironmentHeld (p : Pipeline) (s : Status) : option outcome :=
  match HeldFrom (clock cx) p (s_Environment sp) (s_Bundle sp) with
  | None => None
  | Some h =>
      Some (wait_for ("environment held on " +:+ hd_Bundle h) (RequeueAfter (UntilExpiry (clock cx) h requeuePaused)) s)
  end.

Definition holdForSlot (s : Status) : option outcome :=
  match rd_bundle rd with
  | Missing => None
  | ReadError => Some (quiet Error_)
  | Got b =>
      if b_WaitingForSlot b then Some (wait_for "the Bundle waits for a slot" (RequeueAfter requeueSlotHold) s) else None
  end.

(** ** Image verification and pre-deploy hooks (hooks.go) *)

Definition holdForImageVerification (s : Status) : option outcome :=
  if bool_decide (s_ImageVerification sp = "") then None
  else
    let live := default (mkLiveImage "" "" []) (s_LiveImage sp) in
    let stale := negb (bool_decide (i_Name live = "")) && negb (bool_decide (i_Name live = s_ImageVerification sp)) in
    let live := if stale then mkLiveImage "" "" [] else live in
    if negb stale && bool_decide (i_Phase live = ImageVerificationVerified) then
      match rd_bundle rd with
      | Got b =>
          match Hooks.verifiedImagesDiffer NormalizeRepository (b_Images b) (i_Images live) with
          | Some _ => Some (patched (transition cx (State_ s) StateFailed "refusing to promote: not the verified images" s) Stop)
          | None => None
          end
      | _ => Some (quiet Error_)
      end
    else if bool_decide (i_Phase live = ImageVerificationFailed) then
      Some (patched (transition cx (State_ s) StateFailed "image verification failed" s) Stop)
    else Some (wait_for "waiting for image verification" (RequeueAfter requeueGateWait) s).

Definition holdForPreHooks (s : Status) : option outcome :=
  if bool_decide (s_PreHooks sp = []) then None
  else
    let v := Hooks.hookResults (s_LiveHooks sp) (s_PreHooks sp) in
    if Hooks.succeeded v then None
    else if bool_decide (Hooks.failed v = None) then Some (wait_for "waiting for a pre-deploy hook" (RequeueAfter requeueGateWait) s)
    else Some (patched (transition cx (State_ s) StateFailed "a pre-deploy hook failed" s) Stop).

(** ** Required gates *)

Inductive gate_check := GatesReady | GateWait (msg : string) | GateError.

Fixpoint checkRequiredGates (names : list string) : gate_check :=
  match names with
  | [] => GatesReady
  | name :: names =>
      match rd_gates rd name with
      | Missing => GateWait ("waiting for gate " +:+ name)
      | ReadError => GateError
      | Got g =>
          if negb (g_Ready g) then GateWait ("waiting for gate " +:+ name)
          else match g_LastEvaluatedAt g with
               | None => GateWait ("waiting for gate " +:+ name +:+ " to be re-evaluated")
               | Some t => if t <? s_CreatedAt sp then GateWait ("waiting for gate " +:+ name +:+ " to be re-evaluated")
                           else checkRequiredGates names
               end
      end
  end.

Definition holdForGates (s : Status) : option outcome :=
  match checkRequiredGates (s_RequiredGates sp) with
  | GatesReady => None
  | GateError => Some (quiet (RequeueAfter requeueGateWait))
  | GateWait msg => Some (wait_for msg (RequeueAfter requeueGateWait) s)
  end.

(** ** Starting *)

Definition stepSequence (p : Pipeline) (b : Bundle) : list string :=
  let e := p_Sequence p in Engine.DefaultSequenceForBundle (es_Approval e) (b_Type b) (es_Strategy e) (es_Layout e).

(** The status a step starts with, and the step started. *)
Definition start (seq : list string) (s : Status) : outcome :=
  let s' := set_Steps (initStepStatuses seq) (set_CurrentStepIndex 0 s) in
  let s' := if bool_decide (rd_snapshot rd = SnapshotTooLarge)
            then set_receipt (set_ReceiptError true (receipt s')) s' else s' in
  if bool_decide (rd_snapshot rd = SnapshotError) then quiet Error_
  else patched (transition cx (State_ s) StatePromoting "initialized" s') Requeue.

(** A hold, or what comes after it. *)
Definition or_else (h : option outcome) (k : outcome) : outcome := match h with Some o => o | None => k end.

Definition holdForAdmission (s : Status) : option outcome :=
  if bool_decide (s_Admitted sp = Some false) then Some (wait_for "waiting for admission" (RequeueAfter unresolvedRecheck) s)
  else None.

(** The configuration and the repository: a refusal fails the step. *)
Definition holdForConfig (s : Status) : option outcome :=
  if rd_unsupported rd then Some (patched (transition cx (State_ s) StateFailed "unsupported configuration" s) Stop)
  else match rd_refused rd with
       | None => Some (quiet Error_)
       | Some true => Some (patched (transition cx (State_ s) StateFailed "repository not allowed" s) Stop)
       | Some false => None
       end.

Definition handlePending (s : Status) : outcome :=
  match rd_pipeline rd with
  | None => quiet Error_
  | Some p =>
      or_else (holdForAdmission s) (
      or_else (holdIfPaused s) (
      or_else (holdIfFrozen s) (
      or_else (holdIfEnvironmentHeld p s) (
      or_else (holdForSlot s) (
      or_else (holdForConfig s) (
      or_else (holdForImageVerification s) (
      or_else (holdForPreHooks s) (
      or_else (holdForGates s) (
        match rd_bundle rd with
        | Got b => start (stepSequence p b) s
        | _ => quiet Error_
        end)))))))))
  end.

(** ** What each hold lets through *)

(** [o] makes status patches only, that keep the state of [s] or fail the step. *)
Definition holds_back (s : Status) (o : outcome) : Prop :=
  ∀ e, e ∈ effects o → ∃ p, e = Patch p ∧ (State_ p = State_ s ∨ State_ p = StateFailed).

Lemma holds_patch s o p : holds_back s o → Patch p ∈ effects o → State_ p = State_ s ∨ State_ p = StateFailed.
Proof. intros H Hp. by destruct (H _ Hp) as (? & [= <-] & ?). Qed.

Lemma holds_quiet s r : holds_back s (quiet r).
Proof. intros p. simpl. set_solver. Qed.

Lemma holds_one s p r : State_ p = State_ s ∨ State_ p = StateFailed → holds_back s (mkOut [Patch p] r).
Proof. intros H q. simpl. intros ->%list_elem_of_singleton. eauto. Qed.

Lemma holds_wait s msg r : holds_back s (wait_for msg r s).
Proof. unfold wait_for. case_bool_decide; [apply holds_quiet|apply holds_one; by left]. Qed.

Lemma holds_fail s base msg r : holds_back s (patched (transition cx base StateFailed msg s) r).
Proof.
  unfold patched. destruct (transition _ _ _ _ _) as [p|] eqn:E; [|apply holds_quiet].
  apply holds_one. right. by eapply transitionAudit_state.
Qed.

Hint Resolve holds_quiet holds_wait holds_one holds_fail : kardinal.

Definition let_through (p : Pipeline) (s : Status) : Prop :=
  rd_paused rd = Some false ∧
  (∃ ms, freezesFor = Some ms ∧ Holding ms = [] ∧ FrozenBy s = None ∧ (ms = [] ∨ recordFreezeExemption ms s = None)) ∧
  HeldFrom (clock cx) p (s_Environment sp) (s_Bundle sp) = None.

Lemma holdIfPaused_spec s :
  (holdIfPaused s = None ↔ rd_paused rd = Some false) ∧ ∀ o, holdIfPaused s = Some o → holds_back s o.
Proof.
  unfold holdIfPaused. destruct (rd_paused rd) as [[]|]; split; try done.
  - intros o [= <-]. destruct (_ || _); auto with kardinal.
  - intros o [= <-]. auto with kardinal.
Qed.

Lemma recordFreezeExemption_state ms s s' :
  recordFreezeExemption ms s = Some s' → State_ s' = State_ s ∧ FrozenBy s' = FrozenBy s.
Proof.
  unfold recordFreezeExemption. destruct (_ && _); [done|]. intros [= <-].
  by destruct (enqueue_all_fields cx (omap freezeAuditEntry ms) (set_FreezeExemptions (recordedExemptions (FreezeExemptions s) ms)
    (set_FreezeExempted (Some (Join (exemptionMessage <$> ms) "; ")) s))) as (-> & _ & _ & _ & _ & -> & _).
Qed.

Lemma holdIfFrozen_spec s :
  (holdIfFrozen s = None ↔
   ∃ ms, freezesFor = Some ms ∧ Holding ms = [] ∧ FrozenBy s = None ∧ (ms = [] ∨ recordFreezeExemption ms s = None)) ∧
  ∀ o, holdIfFrozen s = Some o → holds_back s o.
Proof.
  unfold holdIfFrozen. destruct freezesFor as [ms|].
  2:{ split; [split; [done|by intros (? & ? & _)]|]. intros o [= <-]. auto with kardinal. }
  destruct (Holding ms) as [|m ms'] eqn:Eh.
  - destruct (negb (bool_decide (FrozenBy s = None))) eqn:Ef.
    { apply negb_true_iff, bool_decide_eq_false in Ef. split; [split; [done|by intros (? & _ & _ & ? & _)]|].
      intros o [= <-]. auto with kardinal. }
    apply negb_false_iff, bool_decide_eq_true in Ef. case_bool_decide as El.
    { destruct ms; [|done]. split; [|done]. split; [intros _; exists []; auto|done]. }
    destruct (recordFreezeExemption ms s) as [s'|] eqn:Er.
    + split; [split; [done|]|].
      * intros (? & [= <-] & _ & _ & [-> | ?]); [done|congruence].
      * intros o [= <-]. apply recordFreezeExemption_state in Er as [Er _]. auto with kardinal.
    + split; [|done]. split; [|done]. intros _. exists ms. auto.
  - split; [split; [done|intros (? & [= <-] & ? & _); congruence]|]. intros o [= <-]. destruct (_ || _); auto with kardinal.
Qed.

Lemma holdIfEnvironmentHeld_spec p s :
  (holdIfEnvironmentHeld p s = None ↔ HeldFrom (clock cx) p (s_Environment sp) (s_Bundle sp) = None) ∧
  ∀ o, holdIfEnvironmentHeld p s = Some o → holds_back s o.
Proof. unfold holdIfEnvironmentHeld. destruct (HeldFrom _ _ _ _); split; try done. intros o [= <-]. auto with kardinal. Qed.

Lemma holdForSlot_spec s :
  (holdForSlot s = None ↔ rd_bundle rd = Missing ∨ ∃ b, rd_bundle rd = Got b ∧ b_WaitingForSlot b = false) ∧
  ∀ o, holdForSlot s = Some o → holds_back s o.
Proof.
  unfold holdForSlot. destruct (rd_bundle rd) as [b| |].
  - destruct (b_WaitingForSlot b) eqn:E; split; try done.
    + split; [done|]. intros [?|(? & [= <-] & ?)]; congruence.
    + intros o [= <-]. auto with kardinal.
    + split; [|done]. intros _. right. eauto.
  - split; [|done]. split; auto with kardinal.
  - split; [split; [done|by intros [?|(? & ? & _)]]|]. intros o [= <-]. auto with kardinal.
Qed.

Lemma holdForConfig_spec s :
  (holdForConfig s = None ↔ rd_unsupported rd = false ∧ rd_refused rd = Some false) ∧
  ∀ o, holdForConfig s = Some o → holds_back s o.
Proof.
  unfold holdForConfig. destruct (rd_unsupported rd), (rd_refused rd) as [[]|]; (split; [naive_solver|]); intros o [= <-]; auto with kardinal.
Qed.

(** The images of the Bundle are the verified ones, if any have to be. *)
Definition images_verified : Prop :=
  s_ImageVerification sp = "" ∨
  ∃ live b, s_LiveImage sp = Some live ∧ i_Phase live = ImageVerificationVerified ∧
    (i_Name live = "" ∨ i_Name live = s_ImageVerification sp) ∧ rd_bundle rd = Got b ∧
    Hooks.verifiedImagesDiffer NormalizeRepository (b_Images b) (i_Images live) = None.

Lemma holdForImageVerification_spec s :
  (holdForImageVerification s = None ↔ images_verified) ∧ ∀ o, holdForImageVerification s = Some o → holds_back s o.
Proof.
  unfold holdForImageVerification, images_verified. case_bool_decide as E; [split; [split; auto|done]|].
  destruct (s_LiveImage sp) as [live|] eqn:El; cbv [from_option id].
  2:{ change (bool_decide (i_Name (mkLiveImage "" "" []) = "")) with true. cbn [negb andb i_Phase].
      rewrite !bool_decide_false by done. split; [|intros o [= <-]; auto with kardinal]. split; [done|]. by intros [?|(? & ? & ? & _)]. }
  destruct (negb (bool_decide (i_Name live = "")) && negb (bool_decide (i_Name live = s_ImageVerification sp))) eqn:Es; cbn [negb andb].
  { cbn [i_Phase]. rewrite (bool_decide_false ("" = ImageVerificationFailed)) by done.
    bools. split; [|intros o [= <-]; auto with kardinal]. split; [done|]. intros [?|(? & ? & [= <-] & _ & Hn & _)]; naive_solver. }
  assert (i_Name live = "" ∨ i_Name live = s_ImageVerification sp) as Hn.
  { apply andb_false_iff in Es as [Es|Es]; apply negb_false_iff, bool_decide_eq_true in Es; auto with kardinal. }
  destruct (bool_decide (i_Phase live = ImageVerificationVerified)) eqn:Ev;
    [apply bool_decide_eq_true in Ev|apply bool_decide_eq_false in Ev].
  - destruct (rd_bundle rd) as [b| |]; [destruct (Hooks.verifiedImagesDiffer _ _ _) eqn:Ed|..];
      (split; [|first [done | intros o [= <-]; auto with kardinal]]); split; try done.
    + intros [?|(? & ? & [= <-] & _ & _ & [= <-] & ?)]; congruence.
    + intros _. right. exists live, b. auto.
    + by intros [?|(? & ? & _ & _ & _ & ? & _)].
    + by intros [?|(? & ? & _ & _ & _ & ? & _)].
  - destruct (bool_decide (i_Phase live = ImageVerificationFailed)); (split; [|intros o [= <-]; auto with kardinal]); split; try done;
      intros [?|(? & ? & [= <-] & ? & _)]; congruence.
Qed.

(** Every pre-deploy hook succeeded or was skipped. *)
Definition hooks_passed : Prop :=
  ∀ n, n ∈ s_PreHooks sp → ∃ h, last (filter (λ h, Hooks.h_Name h = n) (s_LiveHooks sp)) = Some h ∧
    (Hooks.h_Result h = Hooks.HookRunSucceeded ∨ Hooks.h_Result h = Hooks.HookRunSkipped).

Lemma holdForPreHooks_spec s :
  (holdForPreHooks s = None ↔ hooks_passed) ∧ ∀ o, holdForPreHooks s = Some o → holds_back s o.
Proof.
  destruct (Hooks.hooks_verdict (s_LiveHooks sp) (s_PreHooks sp)) as (_ & _ & Hv). fold hooks_passed in Hv.
  unfold holdForPreHooks. case_bool_decide as E.
  { split; [|done]. split; [|done]. intros _ n. rewrite E. set_solver. }
  destruct (Hooks.succeeded _); [split; [tauto|done]|].
  split; [|intros o; destruct (bool_decide _); intros [= <-]; auto with kardinal].
  split; [by destruct (bool_decide _)|]. intros H. by apply Hv in H.
Qed.

(** Every required gate is there, ready, and evaluated since the step was
    created. *)
Definition gates_open (names : list string) : Prop :=
  ∀ n, n ∈ names → ∃ g t, rd_gates rd n = Got g ∧ g_Ready g = true ∧ g_LastEvaluatedAt g = Some t ∧ s_CreatedAt sp ≤ t.

Lemma checkRequiredGates_spec names : checkRequiredGates names = GatesReady ↔ gates_open names.
Proof.
  induction names as [|n names IH]; simpl; [split; [intros _ n; set_solver|done]|].
  assert (gates_open (n :: names) ↔
    (∃ g t, rd_gates rd n = Got g ∧ g_Ready g = true ∧ g_LastEvaluatedAt g = Some t ∧ s_CreatedAt sp ≤ t) ∧ gates_open names) as ->.
  { unfold gates_open. setoid_rewrite elem_of_cons. naive_solver. }
  destruct (rd_gates rd n) as [g| |]; [|split; [done|by intros [(? & ? & ? & _) _]]..].
  destruct (g_Ready g) eqn:Eg; simpl; [|split; [done|intros [(? & ? & [= <-] & ? & _) _]; congruence]].
  destruct (g_LastEvaluatedAt g) as [t|] eqn:Et; [|split; [done|intros [(? & ? & [= <-] & _ & ? & _) _]; congruence]].
  destruct (Z.ltb_spec t (s_CreatedAt sp)); [split; [done|]; intros [(? & ? & [= <-] & _ & Ht & ?) _]; simplify_eq; lia|].
  rewrite IH. split; [intros H'; split; [|done]; exists g, t; auto|by intros [_ ?]].
Qed.

Lemma holdForGates_spec s :
  (holdForGates s = None ↔ gates_open (s_RequiredGates sp)) ∧ ∀ o, holdForGates s = Some o → holds_back s o.
Proof.
  unfold holdForGates. rewrite <- checkRequiredGates_spec.
  destruct (checkRequiredGates _); (split; [done|]); intros o [= <-]; auto with kardinal.
Qed.

Lemma holdForAdmission_spec s :
  (holdForAdmission s = None ↔ s_Admitted sp ≠ Some false) ∧ ∀ o, holdForAdmission s = Some o → holds_back s o.
Proof. unfold holdForAdmission. case_bool_decide; split; try done; intros o [= <-]; auto with kardinal. Qed.

(** ** When a step starts *)

Definition starts (o : outcome) : Prop := ∃ p, Patch p ∈ effects o ∧ State_ p = StatePromoting.

Lemma starts_or_else s h k :
  State_ s ≠ StatePromoting → (∀ o, h = Some o → holds_back s o) → starts (or_else h k) ↔ h = None ∧ starts k.
Proof.
  intros Hs Hh. destruct h as [o|]; simpl; [|tauto]. split; [|by intros [? _]].
  intros (p & Hp & Hpr). destruct (holds_patch _ _ _ (Hh o eq_refl) Hp); congruence.
Qed.

Lemma start_spec seq s :
  State_ s ≠ StatePromoting →
  (rd_snapshot rd = SnapshotError ∧ start seq s = quiet Error_) ∨
  (rd_snapshot rd ≠ SnapshotError ∧ ∃ p, start seq s = mkOut [Patch p] Requeue ∧ State_ p = StatePromoting ∧
     CurrentStepIndex p = 0%nat ∧ Steps p = initStepStatuses seq).
Proof.
  intros Hs. unfold start. set (s' := if bool_decide (rd_snapshot rd = SnapshotTooLarge) then _ else _).
  assert (CurrentStepIndex s' = 0%nat ∧ Steps s' = initStepStatuses seq) as [H1 H2]
    by (unfold s'; destruct (bool_decide _); done).
  clearbody s'. case_bool_decide as E; [by left|right]. split; [done|].
  unfold transition. destruct (transitionClosing_total cx (State_ s) StatePromoting "initialized" "" [] s' ltac:(done)) as [[p obs] Et].
  rewrite Et. exists p. split; [done|].
  destruct (transitionClosing_state _ _ _ _ _ _ _ _ _ Et) as [Hp Hk].
  destruct (transitionClosing_effects _ _ _ _ _ _ _ _ _ Hs Et) as (_ & _ & Hst & _).
  split_and!; [done|by rewrite (proj1 Hk)|by rewrite Hst].
Qed.

Lemma handlePending_starts s :
  State_ s ≠ StatePromoting →
  (starts (handlePending s) ↔
   ∃ pl b, rd_pipeline rd = Some pl ∧ rd_bundle rd = Got b ∧ s_Admitted sp ≠ Some false ∧ let_through pl s ∧
     b_WaitingForSlot b = false ∧ rd_unsupported rd = false ∧ rd_refused rd = Some false ∧
     images_verified ∧ hooks_passed ∧ gates_open (s_RequiredGates sp) ∧ rd_snapshot rd ≠ SnapshotError) ∧
  (∀ p, Patch p ∈ effects (handlePending s) → State_ p = StatePromoting →
   ∃ pl b, rd_pipeline rd = Some pl ∧ rd_bundle rd = Got b ∧ CurrentStepIndex p = 0%nat ∧
     Steps p = initStepStatuses (stepSequence pl b)).
Proof.
  intros Hs. unfold handlePending. destruct (rd_pipeline rd) as [pl|].
  2:{ split; [split; [by intros (p & Hp%elem_of_nil & _)|by intros (? & ? & ? & _)]|]. by intros p Hp%elem_of_nil. }
  pose proof (holdForAdmission_spec s) as [H1 B1]. pose proof (holdIfPaused_spec s) as [H2 B2].
  pose proof (holdIfFrozen_spec s) as [H3 B3]. pose proof (holdIfEnvironmentHeld_spec pl s) as [H4 B4].
  pose proof (holdForSlot_spec s) as [H5 B5]. pose proof (holdForConfig_spec s) as [H6 B6].
  pose proof (holdForImageVerification_spec s) as [H7 B7]. pose proof (holdForPreHooks_spec s) as [H8 B8].
  pose proof (holdForGates_spec s) as [H9 B9].
  set (k := match rd_bundle rd with Got b => start (stepSequence pl b) s | _ => quiet Error_ end).
  assert (starts k ↔ ∃ b, rd_bundle rd = Got b ∧ rd_snapshot rd ≠ SnapshotError) as Hk.
  { unfold k. destruct (rd_bundle rd) as [b| |];
      [|split; [by intros (p & Hp%elem_of_nil & _)|by intros (? & ? & _)]..].
    destruct (start_spec (stepSequence pl b) s Hs) as [[E1 ->]|(E1 & p & -> & Hp & _)].
    - split; [by intros (p & Hp%elem_of_nil & _)|by intros (? & _ & ?)].
    - split; [eauto|]. intros _. exists p. simpl. split; [set_solver|done]. }
  split.
  - rewrite !(starts_or_else s) by done. rewrite H1, H2, H3, H4, H5, H6, H7, H8, H9, Hk.
    unfold let_through. split.
    + intros (A1 & A2 & A3 & A4 & A5 & [A6 A6'] & A7 & A8 & A9 & b & Hb & Hsn). exists pl, b. split_and!; try done.
      destruct A5 as [?|(b' & Hb' & ?)]; congruence.
    + intros (pl' & b & [= <-] & Hb & A1 & (A2 & A3 & A4) & A5 & A6 & A6' & A7 & A8 & A9 & Hsn). split_and!; try done; eauto.
  - intros p Hp Hpr.
    assert (∀ h o, (∀ o', h = Some o' → holds_back s o') → Patch p ∈ effects (or_else h o) → Patch p ∈ effects o) as Hor.
    { intros [o'|] o Hb; simpl; [|done]. intros Hin. destruct (holds_patch _ _ _ (Hb o' eq_refl) Hin); congruence. }
    do 9 (apply Hor in Hp; [|done]). unfold k in Hp.
    destruct (rd_bundle rd) as [b| |]; [|by apply elem_of_nil in Hp..].
    destruct (start_spec (stepSequence pl b) s Hs) as [[_ E]|(_ & q & E & _ & Hq)]; rewrite E in Hp; [by apply elem_of_nil in Hp|].
    apply list_elem_of_singleton in Hp as [= ->]. exists pl, b. naive_solver.
Qed.

(** C25. When a Pending step starts: exactly when its Pipeline and Bundle can be
    read, it is admitted, nothing holds it (a pause, a freeze without an exemption
    that is recorded, a hold of the environment on another Bundle, a wait for a
    slot, an unsupported configuration, a repository that is not allowed), the
    images of its Bundle are the verified ones, every pre-deploy hook succeeded or
    was skipped, and every required gate is ready and was evaluated since the step
    was created.  A read that fails never starts it.  It then starts at the first
    step of the sequence of its environment and Bundle. *)
Theorem pending_starts_iff s :
  State_ s ≠ StatePromoting →
  (starts (handlePending s) ↔
   ∃ pl b, rd_pipeline rd = Some pl ∧ rd_bundle rd = Got b ∧ s_Admitted sp ≠ Some false ∧ let_through pl s ∧
     b_WaitingForSlot b = false ∧ rd_unsupported rd = false ∧ rd_refused rd = Some false ∧
     images_verified ∧ hooks_passed ∧ gates_open (s_RequiredGates sp) ∧ rd_snapshot rd ≠ SnapshotError) ∧
  (∀ p, Patch p ∈ effects (handlePending s) → State_ p = StatePromoting →
   ∃ pl b, rd_pipeline rd = Some pl ∧ rd_bundle rd = Got b ∧ CurrentStepIndex p = 0%nat ∧
     Steps p = initStepStatuses (stepSequence pl b)).
Proof. apply handlePending_starts. Qed.

Lemma handlePending_states s p :
  State_ s ≠ StatePromoting → Patch p ∈ effects (handlePending s) →
  State_ p = State_ s ∨ State_ p = StateFailed ∨ State_ p = StatePromoting.
Proof.
  intros Hs. unfold handlePending. destruct (rd_pipeline rd) as [pl|]; [|set_solver].
  assert (∀ h o, (∀ o', h = Some o' → holds_back s o') → Patch p ∈ effects (or_else h o) →
    (State_ p = State_ s ∨ State_ p = StateFailed) ∨ Patch p ∈ effects o) as Hor.
  { intros [o'|] o Hb; simpl; [|auto]. intros Hin. left. eapply holds_patch; [by apply Hb|done]. }
  intros Hp.
  repeat (apply Hor in Hp as [Hp|Hp]; [tauto| |by first [apply holdForAdmission_spec|apply holdIfPaused_spec|apply holdIfFrozen_spec
    |apply holdIfEnvironmentHeld_spec|apply holdForSlot_spec|apply holdForConfig_spec|apply holdForImageVerification_spec
    |apply holdForPreHooks_spec|apply holdForGates_spec]]).
  destruct (rd_bundle rd) as [b| |]; [|by apply elem_of_nil in Hp..].
  destruct (start_spec (stepSequence pl b) s Hs) as [[_ E]|(_ & q & E & Hq & _)]; rewrite E in Hp; [by apply elem_of_nil in Hp|].
  apply list_elem_of_singleton in Hp as [= ->]. auto.
Qed.
End pending.

(** A step with a hook, verified images and a gate, in an environment held on an
    expired hold. *)
Definition demo_spec : Spec :=
  mkSpec "team" "shop" "v1" "prod" (Some true) ["gate"] ["hook"] "iv" [Hooks.mkLiveHook "hook" "smoke" "pre" Hooks.HookRunSucceeded "" ""]
    (Some (mkLiveImage "iv" "Verified" ["repo/app@sha256:1"])) (100 * second).

Definition demo_bundle : Bundle := mkBundle "image" [Hooks.mkImage "repo/app" "sha256:1"] false.

Definition demo_pipeline : Pipeline :=
  mkPipeline [mkHold "prod" "v0" (Some (110 * second))] "" (mkEnvSeq "pr-review" "kustomize" "directory").

Definition demo_reads : Reads :=
  mkReads (Some demo_pipeline) (Some false) (Some []) None (Got demo_bundle) false (Some false)
    (λ _, Got (mkGate true (Some (105 * second)))) NoReceipts.

Lemma pending_starts_iff_witness :
  starts (handlePending (λ _, "") (λ _, "") (λ _, "") Some (demo_cx (120 * second)) demo_spec demo_reads
            (demo_status StatePendingExplicit)).
Proof.
  apply (pending_starts_iff (λ _, "") (λ _, "") (λ _, "") Some (demo_cx (120 * second)) demo_spec demo_reads
           (demo_status StatePendingExplicit)); [done|].
  exists demo_pipeline, demo_bundle. split_and!; try done.
  - split_and!; [done| |vm_compute; reflexivity]. exists []. split_and!; try done. by left.
  - right. exists (mkLiveImage "iv" "Verified" ["repo/app@sha256:1"]), demo_bundle.
    split_and!; [reflexivity|reflexivity|by right|reflexivity|vm_compute; reflexivity].
  - intros n Hn. apply list_elem_of_singleton in Hn as ->. eexists. split; [vm_compute; reflexivity|by left].
  - intros n _. exists (mkGate true (Some (105 * second))), (105 * second). split_and!; done.
Defined.
End Pending.
