(* ===== verification/Promoting.v ===== *)
(** * Promoting: running the step engine, and what its errors mean

    Model of handlePromoting and handleStepError
    (src/pkg/reconciler/promotionstep/reconciler.go), with waitForBranchTurn
    (branch_queue.go) and the git credential (git_credential.go).  A run of the
    engine ([Engine.ExecuteFrom]) is a field of [PromotingReads], with what the
    handler asks of its error; the status writes of the push guard during the run
    (status.outputs) are not modelled. *)

From stdpp Require Import base gmap strings list.
From Stdlib Require Import Lia ZArith.
From S2P Require Import Prelude Actor Freeze Engine StepStatus Hooks Outbox Bake Transition Cancel Pending.
Import Freeze.Freeze StepStatus.StepStatus Outbox.Outbox Transition.Transition Cancel.Cancel Pending.Pending.

Module Promoting.

(** ** The git credential *)

Inductive cred_reason :=
  | CredentialFound | SecretRefNotSet | SecretNotFound | SecretHasNoToken | SecretUnreadable | GitHubAppTokenFailed
  | SecretNotReferenceable.

#[export] Instance cred_reason_eq_dec : EqDecision cred_reason.
Proof. solve_decision. Defined.

Definition waitsForSecret (c : cred_reason) : bool :=
  match c with SecretRefNotSet | SecretNotFound | SecretHasNoToken | SecretNotReferenceable => true | _ => false end.

(** Whether [note] is not empty. *)
Definition has_note (c : cred_reason) (step : string) : bool :=
  bool_decide (step ∈ ["git-clone"; "git-push"]) && negb (bool_decide (c = CredentialFound)).

Definition clearGitCredentialMissing (c : cred_reason) (r : Retry) : Retry :=
  if negb (bool_decide (c = CredentialFound)) || negb (GitCredentialMissing r) then r
  else set_GitCredentialMissing false (set_GitCredentialRetries 0 r).

(** ** A run of the engine *)

(** How the write of the push intent failed. *)
Inductive push_intent := IntentGone | IntentConflict | IntentOther.

#[export] Instance push_intent_eq_dec : EqDecision push_intent.
Proof. solve_decision. Defined.

(** What ExecuteFrom returned: [x_intent] is errPushIntent, [x_newerPushed]
    ErrNewerPushed, [x_stalePush] ErrStalePush, [x_auth] isGitAuthError,
    [x_circuit] the open circuit and [x_foreign] the foreign head in its error. *)
Record Execution := mkExecution {
  x_next : nat;
  x_result : Engine.StepResult;
  x_err : option Engine.go_error;
  x_outputs : gmap string string;
  x_timings : gmap nat Engine.StepTiming;
  x_intent : option push_intent;
  x_newerPushed : bool;
  x_stalePush : bool;
  x_auth : bool;
  x_circuit : option Time;
  x_foreign : option string
}.

(** [q_turn]: how long to wait for the branch's turn, if it is not the step's;
    [q_behind]: cacheBehind; [q_rnd] and [q_jitter]: the random parts of the
    waits. *)
Record PromotingReads := mkPromotingReads {
  q_refused : bool;
  q_cred : cred_reason;
  q_provider : option scm_error;
  q_turn : option Duration;
  q_behind : option bool;
  q_exec : Execution;
  q_pushedCommit : string;
  q_stepTimeoutSeconds : Z;
  q_rnd : Duration;
  q_jitter : Duration
}.

Definition requeueWaitForMerge : Duration := 30 * second.
Definition notReferenceableRecheck : Duration := 30 * second.
Definition OutputPRForeignHead : string := "prForeignHead".
Definition OutputRenderRequested : string := "renderRequested".
Definition OutputPRAutoMerge : string := "prAutoMerge".

(** [errors.Unwrap(e) != nil]: Permanent's error unwraps to a list. *)
Definition wraps (e : Engine.go_error) : bool := match e with Engine.Wrap _ _ => true | _ => false end.

Definition retryable (e : Engine.go_error) : bool := wraps e && negb (Engine.IsPermanent e).

(** The commit on the PR branch: recorded in the outputs of a step that pushed
    one. *)
Definition recordPRHead (outs : gmap string string) : gmap string string :=
  if bool_decide (out outs "noChanges" = "true") || bool_decide (out outs "branch" = "") then outs
  else if bool_decide (out outs "pushedSHA" = "") then outs
  else <["prHeadSHA" := out outs "pushedSHA"]> outs.

Section promoting.
Variable ExemptionKey : FreezeExemption → string.
Variable exemptionMessage : FreezeMatch → string.
Variable exemptionSuffix : FreezeMatch → string.
Variable NormalizeRepository : string → option string.
Variable ParsePRURL : string → option (string * Z).
Variable RepoFromURL : string → option string.
Variable hash : string → string.

Variable cx : Context_.
Variable sp : Spec.
Variable ref : StepRef.
Variable rd : Reads.
Variable host : Host.
Variable q : PromotingReads.
Variable SCMWaitTimeout : Duration.

Abbreviation x := (q_exec q).

(** ** Errors of the engine *)

Definition update (idx : nat) (failed : bool) (msg : string) (s : Status) : Status * list stepObservation :=
  let '(steps, o) := updateStepStatuses (clock cx) (Z.of_nat idx) failed msg (x_timings x) (Steps s) (recordedSequence (Steps s)) in
  (set_Steps steps s, o).

(** Which counter a retry of [e] uses. *)
Definition count_retry (waitForSecret contended : bool) (r : Retry) : Retry :=
  if waitForSecret then set_GitCredentialRetries (GitCredentialRetries r + 1) r
  else if contended then set_ContendedRetries (ContendedRetries r + 1) r
  else set_RetryCount (RetryCount r + 1) r.

(** The step fails for good: its own PR is closed, best-effort. *)
Definition fail_step (base : State) (closed : list stepObservation) (msg : string) (s : Status) : outcome :=
  let '(s, o) := update (CurrentStepIndex s) true msg s in
  let '(es, _) := closeStepPRMerged ParsePRURL RepoFromURL hash ref host false s in
  after es (patched (fst <$> transitionClosing cx base StateFailed msg "" (closed ++ o) s) Stop).

(** What is left of an error that is not a wait for the code host. *)
Definition retry_or_fail (base : State) (e : Engine.go_error) (can_retry waitForSecret : bool)
  (closed : list stepObservation) (s : Status) : outcome :=
  let contended := can_retry && Engine.IsContended e in
  if can_retry && (waitForSecret || contended || (RetryCount (retry s) <? maxStepRetries)) then
    let s := map_retry (count_retry waitForSecret contended) s in
    let delay := retryDelay (RetryCount (retry s) + GitCredentialRetries (retry s) + ContendedRetries (retry s)) in
    let delay := if contended then contendedDelay delay (q_jitter q) else delay in
    let s := set_Message "retrying" (map_retry (set_NextRetryAt (Some (now cx + delay))) s) in
    patched (Some (fst (update (CurrentStepIndex s) false "" s))) (RequeueAfter delay)
  else fail_step base closed (if x_stalePush x then "stale promotion cancelled" else Engine.Error e) s.

Definition handleStepError (base : State) (e : Engine.go_error) (closed : list stepObservation) (s : Status) : outcome :=
  let s := match x_foreign x with
           | Some head => set_Outputs (<[OutputPRForeignHead := head]> (Outputs_ s)) s
           | None => s
           end in
  let step := default "" (recordedSequence (Steps s) !! CurrentStepIndex s) in
  let note := retryable e && x_auth x && has_note (q_cred q) step in
  let s := if note then map_retry (set_GitCredentialMissing true) s else s in
  let waitForSecret := note && waitsForSecret (q_cred q) in
  match circuitWait (x_circuit x) (now cx) (q_rnd q) with
  | Some wait =>
      if retryable e then
        let bound := scmWaitBound SCMWaitTimeout (q_stepTimeoutSeconds q) in
        let '(r, waited, _) := startSCMWait (now cx) (retry s) in
        let s := set_retry r s in
        if waited <? bound then
          let s := set_Message "waiting for the code host" (map_retry (set_NextRetryAt (Some (now cx + wait))) s) in
          patched (Some (fst (update (CurrentStepIndex s) false "" s))) (RequeueAfter wait)
        else retry_or_fail base e false waitForSecret closed (map_retry endSCMWaitTimedOut s)
      else retry_or_fail base e false waitForSecret closed s
  | None => retry_or_fail base e (retryable e) waitForSecret closed s
  end.

(** ** Running the steps *)

(** The status after a run from index [prev]: the outputs are kept whatever the
    result, and progress resets the retries. *)
Definition after_run (prev : nat) (s : Status) : Status :=
  let outs := x_outputs x in
  let s := set_CurrentStepIndex (x_next x) (set_Outputs outs s) in
  let s := if bool_decide (out outs OutputRenderRequested = "true") && bool_decide (RenderRequestedAt s = None)
           then set_RenderRequestedAt (Some (now cx)) s else s in
  let s := if (prev <? x_next x)%nat
           then map_retry (λ r, set_RetryCount 0 (set_GitCredentialRetries 0 (set_ContendedRetries 0 r))) s else s in
  let s := if bool_decide (out outs "prURL" = "") then s else set_PRURL (out outs "prURL") s in
  let s := map_retry (clearGitCredentialMissing (q_cred q)) s in
  match circuitWait (x_circuit x) (now cx) (q_rnd q) with Some _ => s | None => map_retry clearSCMWait s end.

(** [recordPushedCommit], the commit read from the checkout being [q_pushedCommit];
    [target] is whether the pushed branch is the target branch. *)
Definition recordPushedCommit (target : bool) (s : Status) : Status :=
  let outs := Outputs_ s in
  if negb (bool_decide (out outs "commitSHA" = "")) then s
  else if negb (bool_decide (out outs "noChanges" = "true")) && (opensPR (Steps s) || bool_decide (out outs "branch" = "") || negb target)
  then s
  else if bool_decide (q_pushedCommit q = "") then s
  else set_Outputs (<["commitSHA" := q_pushedCommit q]> outs) s.

Variable pushed_target : bool.

(** What follows a run that returned no error. *)
Definition run_done (base : State) (s : Status) : outcome :=
  let '(s, closed) := update (x_next x) false "" s in
  let outs := x_outputs x in
  let hasPR := negb (bool_decide (out outs "prURL" = "")) in
  let patchSpec := if bool_decide (r_PRStatusRef ref = "") then [] else [PatchPRStatus] in
  match Engine.Status (x_result x) with
  | Engine.StepPending =>
      if hasPR then
        let s := set_Outputs (recordPRHead (Outputs_ s)) s in
        match transitionClosing cx base StateWaitingForMerge (Engine.Message (x_result x)) "" closed s with
        | None => quiet Error_
        | Some (p, _) =>
            mkOut (Patch p :: patchSpec)
              (RequeueAfter (if bool_decide (out outs OutputPRAutoMerge = "") then requeueWaitForMerge else second))
        end
      else
        patched (Some (set_Message (Engine.Message (x_result x)) s))
          (if Engine.RequeueAfter (x_result x) =? 0 then Requeue else RequeueAfter (Engine.RequeueAfter (x_result x)))
  | Engine.StepSuccess =>
      if (length (recordedSequence (Steps s)) <=? x_next x)%nat then
        let s := recordPushedCommit pushed_target s in
        after (if hasPR then patchSpec else [])
          (patched (fst <$> transitionClosing cx base StateHealthChecking "all steps complete" "" closed s) Requeue)
      else patched (Some (set_Message "completed a step" s)) Requeue
  | _ => handleStepError base (Engine.Err "unknown status") closed s
  end.

Definition run_steps (s : Status) : outcome :=
  let base := State_ s in
  let s := after_run (CurrentStepIndex s) s in
  after [RunSteps]
    (match x_err x with
     | None => run_done base s
     | Some e =>
         if bool_decide (x_intent x = Some IntentGone) then quiet Stop
         else if x_newerPushed x then
           let '(s, closed) := update (x_next x) false "" s in
           patched (fst <$> transitionClosing cx base StateSuperseded "a newer bundle was pushed" "" closed s) Stop
         else if bool_decide (x_intent x = Some IntentConflict) then quiet Requeue
         else handleStepError base e [] s
     end).

(** ** The handler *)

(** The images must still be the verified ones before every git write. *)
Definition holdForImages (b : Bundle) (s : Status) : option outcome :=
  if bool_decide (s_ImageVerification sp = "") then None
  else match Hooks.verifiedImagesDiffer NormalizeRepository (b_Images b) (from_option i_Images [] (s_LiveImage sp)) with
       | Some _ => Some (patched (transition cx (State_ s) StateFailed "refusing to promote: not the verified images" s) Stop)
       | None => None
       end.

Definition holdForCredential (s : Status) : option outcome :=
  if q_refused q then Some (patched (transition cx (State_ s) StateFailed "git credential refused" s) Stop)
  else if bool_decide (q_cred q = SecretNotReferenceable) then
    Some (patched (Some (set_Message "waiting for the git Secret" (map_retry (set_GitCredentialMissing true) s)))
           (RequeueAfter notReferenceableRecheck))
  else match q_provider q with
       | Some (ProviderGone | RepositoryNotAllowed | NamespaceNotAllowed) => Some (patched (transition cx (State_ s) StateFailed "no code host" s) Stop)
       | Some _ => Some (quiet Error_)
       | None => None
       end.

Definition holdForTurn (s : Status) : option outcome :=
  match q_turn q with
  | Some wait => Some (wait_for "waiting for the branch's turn" (RequeueAfter wait) s)
  | None =>
      match q_behind q with
      | None => Some (quiet Error_)
      | Some true => Some (quiet (RequeueAfter second))
      | Some false => None
      end
  end.

Definition holdForRetry (s : Status) : option outcome :=
  match NextRetryAt (retry s) with
  | Some t => let wait := sub_time t (now cx) in if 0 <? wait then Some (quiet (RequeueAfter wait)) else None
  | None => None
  end.

(** The pause, the freeze and the hold patch the status they read; everything after
    them writes one whose nextRetryAt is cleared. *)
Definition handlePromoting (s : Status) : outcome :=
  let s' := map_retry (set_NextRetryAt None) s in
  or_else (holdForRetry s) (
  match rd_pipeline rd with
  | None => quiet Error_
  | Some p =>
      or_else (holdIfPaused rd s) (
      or_else (holdIfFrozen ExemptionKey exemptionMessage exemptionSuffix cx sp rd s) (
      or_else (holdIfEnvironmentHeld cx sp p s) (
      match rd_bundle rd with
      | Got b =>
          or_else (holdForImages b s') (
          or_else (holdForConfig cx rd s') (
          if bool_decide (recordedSequence (Steps s') = []) then
            patched (Some (set_Steps (initStepStatuses (stepSequence p b)) s')) Requeue
          else
            or_else (holdForCredential s') (
            or_else (holdForTurn s') (
            run_steps s'))))
      | _ => quiet Error_
      end)))
  end).

(** ** When the steps run *)

Hint Resolve holds_quiet holds_wait holds_one holds_fail : kardinal.

Lemma holdForRetry_spec s :
  (holdForRetry s = None ↔ ∀ t, NextRetryAt (retry s) = Some t → t ≤ now cx) ∧
  ∀ o, holdForRetry s = Some o → holds_back s o.
Proof.
  unfold holdForRetry. destruct (NextRetryAt (retry s)) as [t|]; [|split; [split; [by intros _ ?|done]|done]].
  rewrite sub_time_pos. destruct (Z.ltb_spec (now cx) t).
  - split; [split; [done|intros H'; specialize (H' t eq_refl); lia]|]. intros o [= <-]. auto with kardinal.
  - split; [|done]. split; [by intros _ ? [= <-]|done].
Qed.

Lemma holdForImages_spec b s :
  (holdForImages b s = None ↔ s_ImageVerification sp = "" ∨
     Hooks.verifiedImagesDiffer NormalizeRepository (b_Images b) (from_option i_Images [] (s_LiveImage sp)) = None) ∧
  ∀ o, holdForImages b s = Some o → holds_back s o.
Proof.
  unfold holdForImages. case_bool_decide; [split; [tauto|done]|].
  destruct (Hooks.verifiedImagesDiffer _ _ _); (split; [naive_solver|]); intros o [= <-]; auto with kardinal.
Qed.

Lemma holdForCredential_spec s :
  (holdForCredential s = None ↔ q_refused q = false ∧ q_cred q ≠ SecretNotReferenceable ∧ q_provider q = None) ∧
  ∀ o, holdForCredential s = Some o → holds_back s o.
Proof.
  unfold holdForCredential. destruct (q_refused q).
  { split; [naive_solver|]. intros o [= <-]; auto with kardinal. }
  case_bool_decide.
  { split; [naive_solver|]. intros o [= <-]. apply holds_one. by left. }
  destruct (q_provider q) as [[]|]; (split; [naive_solver|]); intros o [= <-]; auto with kardinal.
Qed.

Lemma holdForTurn_spec s :
  (holdForTurn s = None ↔ q_turn q = None ∧ q_behind q = Some false) ∧ ∀ o, holdForTurn s = Some o → holds_back s o.
Proof.
  unfold holdForTurn. destruct (q_turn q), (q_behind q) as [[]|]; (split; [naive_solver|]); intros o [= <-]; auto with kardinal.
Qed.

(** An effect of a hold or of what follows it. *)
Lemma or_else_effects s h k e :
  (∀ o, h = Some o → holds_back s o) → e ∈ effects (or_else h k) →
  (∃ p, e = Patch p ∧ (State_ p = State_ s ∨ State_ p = StateFailed)) ∨ h = None ∧ e ∈ effects k.
Proof. intros Hh. destruct h as [o|]; simpl; [|auto]. intros He. left. by apply (Hh o). Qed.

Lemma runs_or_else s h k :
  (∀ o, h = Some o → holds_back s o) → RunSteps ∈ effects (or_else h k) ↔ h = None ∧ RunSteps ∈ effects k.
Proof.
  intros Hh. split.
  - intros [(p & ? & _)|?]%(or_else_effects s); done.
  - by intros [-> ?].
Qed.

Lemma handlePromoting_runs s :
  RunSteps ∈ effects (handlePromoting s) ↔
  (∀ t, NextRetryAt (retry s) = Some t → t ≤ now cx) ∧
  ∃ pl b, rd_pipeline rd = Some pl ∧ rd_bundle rd = Got b ∧
    let_through ExemptionKey exemptionMessage exemptionSuffix cx sp rd pl s ∧
    (s_ImageVerification sp = "" ∨
     Hooks.verifiedImagesDiffer NormalizeRepository (b_Images b) (from_option i_Images [] (s_LiveImage sp)) = None) ∧
    rd_unsupported rd = false ∧ rd_refused rd = Some false ∧ Steps s ≠ [] ∧
    q_refused q = false ∧ q_cred q ≠ SecretNotReferenceable ∧ q_provider q = None ∧
    q_turn q = None ∧ q_behind q = Some false.
Proof.
  unfold handlePromoting. set (s' := map_retry _ s). pose proof (holdForRetry_spec s) as [H0 B0].
  rewrite (runs_or_else s) by done. rewrite H0. apply and_iff_compat_l.
  destruct (rd_pipeline rd) as [pl|]; [|split; [simpl; set_solver|by intros (? & ? & ? & _)]].
  pose proof (holdIfPaused_spec rd s) as [H1 B1].
  pose proof (holdIfFrozen_spec ExemptionKey exemptionMessage exemptionSuffix cx sp rd s) as [H2 B2].
  pose proof (holdIfEnvironmentHeld_spec cx sp pl s) as [H3 B3].
  rewrite !(runs_or_else s) by done. rewrite H1, H2, H3. unfold let_through.
  destruct (rd_bundle rd) as [b| |];
    [|split; [intros (_ & _ & _ & []%elem_of_nil)|by intros (? & ? & _ & ? & _)]..].
  pose proof (holdForImages_spec b s') as [H4 B4]. pose proof (holdForConfig_spec cx rd s') as [H5 B5].
  rewrite !(runs_or_else s') by done. rewrite H4, H5.
  pose proof (holdForCredential_spec s') as [H6 B6]. pose proof (holdForTurn_spec s') as [H7 B7].
  assert (RunSteps ∈ effects (if bool_decide (recordedSequence (Steps s') = [])
            then patched (Some (set_Steps (initStepStatuses (stepSequence pl b)) s')) Requeue
            else or_else (holdForCredential s') (or_else (holdForTurn s') (run_steps s'))) ↔
          Steps s ≠ [] ∧ (q_refused q = false ∧ q_cred q ≠ SecretNotReferenceable ∧ q_provider q = None) ∧
          q_turn q = None ∧ q_behind q = Some false) as ->.
  { change (Steps s') with (Steps s). unfold recordedSequence. case_bool_decide as E.
    - apply fmap_nil_inv in E. split; [|by intros [? _]]. simpl. by intros ?%list_elem_of_singleton.
    - rewrite !(runs_or_else s') by done. rewrite H6, H7. split; [|simpl; set_solver].
      intros (? & ? & _). split; [|done]. intros E'. by rewrite E' in E. }
  split.
  - intros (? & ? & ? & ? & (? & ?) & ? & (? & ? & ?) & ? & ?). exists pl, b. by split_and!.
  - intros (? & ? & [= <-] & [= <-] & (? & ? & ?) & ? & ? & ? & ? & ? & ? & ? & ? & ?). by split_and!.
Qed.

(** C26. When the steps of a Promoting step run, so anything is written to git or
    to Argo CD: exactly when its backoff is over, its Pipeline and Bundle can be
    read, it is not paused, frozen or held, its images are still the verified ones,
    its configuration is supported and its repository allowed, its sequence is
    recorded, its git credential and its code host can be had, it has the branch's
    turn, and its status is not behind the stored one. *)
Theorem steps_run_iff s :
  RunSteps ∈ effects (handlePromoting s) ↔
  (∀ t, NextRetryAt (retry s) = Some t → t ≤ now cx) ∧
  ∃ pl b, rd_pipeline rd = Some pl ∧ rd_bundle rd = Got b ∧
    let_through ExemptionKey exemptionMessage exemptionSuffix cx sp rd pl s ∧
    (s_ImageVerification sp = "" ∨
     Hooks.verifiedImagesDiffer NormalizeRepository (b_Images b) (from_option i_Images [] (s_LiveImage sp)) = None) ∧
    rd_unsupported rd = false ∧ rd_refused rd = Some false ∧ Steps s ≠ [] ∧
    q_refused q = false ∧ q_cred q ≠ SecretNotReferenceable ∧ q_provider q = None ∧
    q_turn q = None ∧ q_behind q = Some false.
Proof. apply handlePromoting_runs. Qed.

(** ** What an error of the engine leads to *)

(** The step fails, after the close of its pull request. *)
Definition fails (o : outcome) : Prop :=
  ∃ s p, effects o = (closeStepPRMerged ParsePRURL RepoFromURL hash ref host false s).1 ++ [Patch p] ∧
    State_ p = StateFailed ∧ res o = Stop.

(** The step keeps its state and is tried again in [d], with the retries [r]. *)
Definition tries_again (s : Status) (o : outcome) (d : Duration) (r : Retry) : Prop :=
  ∃ p, effects o = [Patch p] ∧ res o = RequeueAfter d ∧ State_ p = State_ s ∧
    retry p = set_NextRetryAt (Some (now cx + d)) r.

Lemma update_fields idx failed msg s :
  let s' := (update idx failed msg s).1 in
  State_ s' = State_ s ∧ retry s' = retry s ∧ Outputs_ s' = Outputs_ s ∧ PRURL s' = PRURL s ∧
  CurrentStepIndex s' = CurrentStepIndex s.
Proof. unfold update. by destruct (updateStepStatuses _ _ _ _ _ _ _). Qed.

Lemma fail_step_fails base closed msg s : fails (fail_step base closed msg s).
Proof.
  unfold fail_step. destruct (update _ _ _ _) as [s' o]. destruct (closeStepPRMerged _ _ _ _ _ _ s') as [es c] eqn:E.
  destruct (transitionClosing_total cx base StateFailed msg "" (closed ++ o) s' ltac:(done)) as [[p obs] Ep].
  rewrite Ep. exists s', p. rewrite E. simpl. split_and!; try done. by eapply transitionClosing_state.
Qed.

Lemma tries_again_intro s0 s d msg :
  State_ s = State_ s0 →
  tries_again s0 (patched (Some (update (CurrentStepIndex (set_Message msg (map_retry (set_NextRetryAt (Some (now cx + d))) s)))
    false "" (set_Message msg (map_retry (set_NextRetryAt (Some (now cx + d))) s))).1) (RequeueAfter d)) d (retry s).
Proof.
  intros Hs. destruct (update_fields (CurrentStepIndex (set_Message msg (map_retry (set_NextRetryAt (Some (now cx + d))) s)))
    false "" (set_Message msg (map_retry (set_NextRetryAt (Some (now cx + d))) s))) as (H1 & H2 & _).
  eexists. split_and!; [done|done|by rewrite H1|by rewrite H2].
Qed.

(** The git credential is missing and a Secret would give it. *)
Definition waits_for_secret (e : Engine.go_error) (s : Status) : bool :=
  retryable e && x_auth x && has_note (q_cred q) (default "" (recordedSequence (Steps s) !! CurrentStepIndex s)) &&
  waitsForSecret (q_cred q).

(** The delay before the next try: all kinds of retry back off together, and a
    contended one has jitter. *)
Definition backoff (e : Engine.go_error) (r : Retry) : Duration :=
  let d := retryDelay (RetryCount r + GitCredentialRetries r + ContendedRetries r) in
  if Engine.IsContended e then contendedDelay d (q_jitter q) else d.

(** What a retry leaves of the counters, but for the condition of the
    credential. *)
Definition counted (e : Engine.go_error) (s : Status) (r : Retry) : Prop :=
  ∃ m, r = count_retry (waits_for_secret e s) (Engine.IsContended e) (set_GitCredentialMissing m (retry s)).

Lemma handleStepError_spec base e closed s :
  let o := handleStepError base e closed s in
  (retryable e = false → fails o) ∧
  (retryable e = true → circuitWait (x_circuit x) (now cx) (q_rnd q) = None →
   if waits_for_secret e s || Engine.IsContended e || (RetryCount (retry s) <? maxStepRetries)
   then ∃ r, counted e s r ∧ tries_again s o (backoff e r) r
   else fails o) ∧
  (∀ w, retryable e = true → circuitWait (x_circuit x) (now cx) (q_rnd q) = Some w →
   let '(r, waited, _) := startSCMWait (now cx) (retry s) in
   if waited <? scmWaitBound SCMWaitTimeout (q_stepTimeoutSeconds q)
   then ∃ m, tries_again s o w (set_GitCredentialMissing m r)
   else fails o).
Proof.
  cbv zeta. unfold handleStepError.
  set (s1 := match x_foreign x with Some _ => _ | None => s end).
  assert (State_ s1 = State_ s ∧ retry s1 = retry s ∧ Steps s1 = Steps s ∧ CurrentStepIndex s1 = CurrentStepIndex s)
    as (Hst & Hr & Hss & Hi) by (unfold s1; by destruct (x_foreign x)).
  clearbody s1. unfold counted, waits_for_secret. rewrite Hss, Hi.
  set (note := retryable e && x_auth x && _).
  set (s2 := if note then _ else s1).
  assert (State_ s2 = State_ s ∧ ∃ m, retry s2 = set_GitCredentialMissing m (retry s)) as (Hst2 & m & Hr2).
  { unfold s2. destruct note; simpl; rewrite ?Hr; split; eauto.
    exists (GitCredentialMissing (retry s)). by destruct (retry s). }
  clearbody s2. set (w := note && waitsForSecret (q_cred q)). clearbody w.
  assert (∀ b s' closed', fails (retry_or_fail base e false b closed' s')) as Hno.
  { intros b s' closed'. unfold retry_or_fail. apply fail_step_fails. }
  assert (RetryCount (retry s2) = RetryCount (retry s)) as Hrc by by rewrite Hr2.
  split_and!.
  - intros Hn. rewrite Hn. destruct (circuitWait _ _ _); apply Hno.
  - intros Hn Hc. rewrite Hc, Hn. unfold retry_or_fail. rewrite Hrc. cbn [andb].
    destruct (w || Engine.IsContended e || _); [|apply fail_step_fails].
    exists (retry (map_retry (count_retry w (Engine.IsContended e)) s2)). split; [exists m; by rewrite <- Hr2|].
    apply (tries_again_intro s (map_retry (count_retry w (Engine.IsContended e)) s2)). done.
  - intros v Hn Hc. rewrite Hc, Hn. rewrite Hr2.
    assert (startSCMWait (now cx) (set_GitCredentialMissing m (retry s)) =
      let '(r, d, b) := startSCMWait (now cx) (retry s) in (set_GitCredentialMissing m r, d, b)) as ->
      by (unfold startSCMWait; by destruct (retry s) as [? ? ? ? ? []]).
    destruct (startSCMWait (now cx) (retry s)) as [[r waited] b]. destruct (waited <? _); [|apply Hno].
    exists m. by apply (tries_again_intro s (set_retry (set_GitCredentialMissing m r) s2)).
Qed.

(** What an error of the step engine means.  One that is not transient (the
    step said so, or failed without an error) fails the promotion at once, closing
    its pull request.  A transient one is tried again: with no limit while git
    waits for a Secret or the step loses to other writers, and otherwise at most
    five times, the sixth failing it; the counters it uses are no others, and the
    delay is the backoff of all retries so far.  With the circuit of the code host
    open the step waits, spending nothing, until the bound of the wait has passed,
    and then fails. *)
Theorem step_error_verdict base e closed s :
  let o := handleStepError base e closed s in
  (retryable e = false → fails o) ∧
  (retryable e = true → circuitWait (x_circuit x) (now cx) (q_rnd q) = None →
   if waits_for_secret e s || Engine.IsContended e || (RetryCount (retry s) <? maxStepRetries)
   then ∃ r, counted e s r ∧ tries_again s o (backoff e r) r
   else fails o) ∧
  (∀ w, retryable e = true → circuitWait (x_circuit x) (now cx) (q_rnd q) = Some w →
   let '(r, waited, _) := startSCMWait (now cx) (retry s) in
   if waited <? scmWaitBound SCMWaitTimeout (q_stepTimeoutSeconds q)
   then ∃ m, tries_again s o w (set_GitCredentialMissing m r)
   else fails o).
Proof. apply handleStepError_spec. Qed.

(** ** Where a Promoting step goes *)

Lemma fails_patch o p : fails o → Patch p ∈ effects o → State_ p = StateFailed.
Proof.
  intros (s & p' & -> & Hp & _) Hin. apply elem_of_app in Hin as [Hin|[= ->]%list_elem_of_singleton]; [|done].
  destruct (closeStepPRMerged _ _ _ _ _ _ _) as [es c] eqn:E. apply closeStepPRMerged_effects in E as (Hc & _).
  by destruct (effects_no_patch _ _ _ _ _ _ Hc p).
Qed.

Lemma tries_again_patch s o d r p : tries_again s o d r → Patch p ∈ effects o → State_ p = State_ s.
Proof. intros (p' & -> & _ & Hp & _) [= ->]%list_elem_of_singleton. done. Qed.

Lemma handleStepError_states base e closed s p :
  Patch p ∈ effects (handleStepError base e closed s) → State_ p = State_ s ∨ State_ p = StateFailed.
Proof.
  destruct (handleStepError_spec base e closed s) as (H1 & H2 & H3). cbv zeta in *.
  destruct (retryable e); [|intros Hp; right; by eapply fails_patch; [apply H1|]].
  destruct (circuitWait _ _ _) as [w|].
  - specialize (H3 w eq_refl eq_refl). destruct (startSCMWait _ _) as [[r waited] b].
    destruct (waited <? _); [destruct H3 as (m & H3)|]; intros Hp; [left; by eapply tries_again_patch|right; by eapply fails_patch].
  - specialize (H2 eq_refl eq_refl). destruct (_ || _ || _); [destruct H2 as (r & _ & H2)|]; intros Hp;
      [left; by eapply tries_again_patch|right; by eapply fails_patch].
Qed.

Lemma after_run_state prev s : State_ (after_run prev s) = State_ s ∧ Steps (after_run prev s) = Steps s.
Proof.
  unfold after_run. destruct (circuitWait _ _ _), (bool_decide (out _ "prURL" = "")), (prev <? _)%nat, (_ && _); done.
Qed.

Lemma update_length idx failed msg s : Steps s ≠ [] → length (Steps (update idx failed msg s).1) = length (Steps s).
Proof.
  intros Hne. unfold update.
  pose proof (updateStepStatuses_rewrites (clock cx) (Z.of_nat idx) failed msg (x_timings x) (Steps s)
    (recordedSequence (Steps s)) Hne) as H.
  destruct (updateStepStatuses _ _ _ _ _ _ _) as [steps o]. apply rewrites_all_ok in H as [H _]. simpl in *.
  by rewrite <- (length_fmap s_Name steps), H, length_fmap.
Qed.

Lemma patched_closing base state msg closed s r p :
  Patch p ∈ effects (patched (fst <$> transitionClosing cx base state msg "" closed s) r) → State_ p = state.
Proof.
  destruct (transitionClosing _ _ _ _ _ _ _) as [[p' obs]|] eqn:E; simpl; [|set_solver].
  intros [= ->]%list_elem_of_singleton. by eapply transitionClosing_state.
Qed.

Definition run_leads (s : Status) (st : State) : Prop :=
  (st = StateWaitingForMerge ∧ x_err x = None ∧ Engine.Status (x_result x) = Engine.StepPending ∧ out (x_outputs x) "prURL" ≠ "") ∨
  (st = StateHealthChecking ∧ x_err x = None ∧ Engine.Status (x_result x) = Engine.StepSuccess ∧ (length (Steps s) ≤ x_next x)%nat) ∨
  (st = StateSuperseded ∧ x_err x ≠ None ∧ x_newerPushed x = true).

Lemma run_done_states base s p :
  Steps s ≠ [] → x_err x = None → Patch p ∈ effects (run_done base s) →
  State_ p = State_ s ∨ State_ p = StateFailed ∨ run_leads s (State_ p).
Proof.
  intros Hne Hx. unfold run_done. pose proof (update_length (x_next x) false "" s Hne) as Hlen.
  destruct (update_fields (x_next x) false "" s) as (Hst & _).
  destruct (update _ _ _ _) as [s' closed]. simpl in Hst, Hlen. unfold run_leads.
  destruct (Engine.Status (x_result x)) eqn:Er.
  - destruct (length (recordedSequence (Steps s')) <=? x_next x)%nat eqn:El.
    + apply Nat.leb_le in El. unfold recordedSequence in El. rewrite length_fmap, Hlen in El.
      simpl. rewrite elem_of_app. intros [Hp|Hp%patched_closing].
      * repeat case_match; set_solver.
      * right. right. auto 10.
    + simpl. intros [= ->]%list_elem_of_singleton. left. done.
  - intros Hp%handleStepError_states. rewrite Hst in Hp. tauto.
  - case_bool_decide as Eu; simpl.
    + intros [= ->]%list_elem_of_singleton. by left.
    + destruct (transitionClosing _ _ _ _ _ _ _) as [[p' obs]|] eqn:Et; [|simpl; set_solver].
      intros [[= ->]|Hp]%elem_of_cons; [|case_bool_decide; set_solver].
      apply transitionClosing_state in Et as [Et _]. auto 10.
  - intros Hp%handleStepError_states. rewrite Hst in Hp. tauto.
  - intros Hp%handleStepError_states. rewrite Hst in Hp. tauto.
Qed.

(** A patch of a Promoting step keeps it Promoting, fails it, or follows from the
    run of the steps. *)
Lemma handlePromoting_states s p :
  Patch p ∈ effects (handlePromoting s) →
  State_ p = State_ s ∨ State_ p = StateFailed ∨ (RunSteps ∈ effects (handlePromoting s) ∧ run_leads s (State_ p)).
Proof.
  intros Hp. assert (∀ h k, (∀ o, h = Some o → holds_back s o) → Patch p ∈ effects (or_else h k) →
    (RunSteps ∈ effects (or_else h k) ↔ h = None ∧ RunSteps ∈ effects k) ∧
    (State_ p = State_ s ∨ State_ p = StateFailed ∨ h = None ∧ Patch p ∈ effects k)) as Hor.
  { intros h k Hh Hin. split; [by apply (runs_or_else s)|].
    apply (or_else_effects s) in Hin as [(? & [= <-] & ?)|?]; [tauto|tauto|done]. }
  revert Hp. unfold handlePromoting. set (s' := map_retry _ s).
  intros Hp. apply Hor in Hp as [-> [?|[?|[E0 Hp]]]]; [tauto|tauto| |apply holdForRetry_spec].
  destruct (rd_pipeline rd) as [pl|]; [|by apply elem_of_nil in Hp].
  apply Hor in Hp as [-> [?|[?|[E1 Hp]]]]; [tauto|tauto| |apply holdIfPaused_spec].
  apply Hor in Hp as [-> [?|[?|[E2 Hp]]]]; [tauto|tauto| |apply holdIfFrozen_spec].
  apply Hor in Hp as [-> [?|[?|[E3 Hp]]]]; [tauto|tauto| |apply holdIfEnvironmentHeld_spec].
  destruct (rd_bundle rd) as [b| |]; [|by apply elem_of_nil in Hp..].
  apply Hor in Hp as [-> [?|[?|[E4 Hp]]]]; [tauto|tauto| |apply (holdForImages_spec b s')].
  apply Hor in Hp as [-> [?|[?|[E5 Hp]]]]; [tauto|tauto| |apply (holdForConfig_spec cx rd s')].
  case_bool_decide as Eseq.
  { simpl in Hp. apply list_elem_of_singleton in Hp as [= ->]. by left. }
  apply Hor in Hp as [-> [?|[?|[E6 Hp]]]]; [tauto|tauto| |apply (holdForCredential_spec s')].
  apply Hor in Hp as [-> [?|[?|[E7 Hp]]]]; [tauto|tauto| |apply (holdForTurn_spec s')].
  assert (Steps s' ≠ []) as Hne by (intros E; by rewrite E in Eseq).
  unfold run_steps, after in Hp |- *. cbn [effects app] in Hp |- *. rewrite elem_of_cons in Hp. destruct Hp as [|Hp]; [done|].
  destruct (after_run_state (CurrentStepIndex s') s') as [Ha1 Ha2].
  assert (State_ p = State_ s ∨ State_ p = StateFailed ∨ run_leads s (State_ p)) as Hgoal.
  { destruct (x_err x) as [e|] eqn:Ex.
    - destruct (bool_decide (x_intent x = Some IntentGone)); [by apply elem_of_nil in Hp|].
      destruct (x_newerPushed x) eqn:En.
      + destruct (update _ _ _ _) as [s2 closed]. apply patched_closing in Hp. right. right. unfold run_leads.
        rewrite Ex, En. auto 10.
      + destruct (bool_decide _); [by apply elem_of_nil in Hp|].
        apply handleStepError_states in Hp. rewrite Ha1 in Hp. change (State_ s') with (State_ s) in Hp. tauto.
    - apply run_done_states in Hp; [|by rewrite Ha2|done]. rewrite Ha1 in Hp. unfold run_leads in *. rewrite Ha2 in Hp. done. }
  destruct Hgoal as [?|[?|?]]; [tauto|tauto|]. right. right. split; [|done]. rewrite elem_of_cons. tauto.
Qed.
End promoting.
End Promoting.
