(* ===== verification/Merge.v ===== *)
(** * Merge: waiting for the pull request of a step

    Model of handleWaitingForMerge (src/pkg/reconciler/promotionstep/
    reconciler.go), with stepPRMerged and mergerPending, and of IsClosed and
    IsClosedFinal (src/pkg/reconciler/prstatus/reconciler.go).  What the rebuild
    of the PR branch, the gates commit status and auto-merge write into the step's
    outputs are fields of [MergeReads]. *)

From stdpp Require Import base gmap strings list.
From Stdlib Require Import Lia ZArith.
From S2P Require Import Prelude Actor Freeze Engine StepStatus Hooks Outbox Bake Transition Cancel Pending Promoting.
Import Freeze.Freeze StepStatus.StepStatus Outbox.Outbox Transition.Transition Cancel.Cancel Pending.Pending.

Module Merge.

(** [m_refresh]: refreshPRBranch fails, writes nothing, or writes a message and
    outputs, having pushed the branch or not.  [m_gates]: the outputs syncGatesStatus writes.  [m_autoMerge]: the
    outputs syncAutoMerge changes, and its wait (the pair is read only for a step
    with auto-merge whose PR is named, [m_named]).  [m_blocked]: the gate that
    blocks, if any. *)
Record MergeReads := mkMergeReads {
  m_pipelinePaused : bool;
  m_WaitForMergeTimeout : string;
  m_prstatus : read PRStatus;
  m_blocked : option string;
  m_refresh : option (option (bool * string * gmap string string));
  m_gates : option (gmap string string);
  m_named : bool;
  m_autoMerge : option (gmap string string) * Duration;
  m_rnd : Duration
}.

Definition IsClosed (p : PRStatus) : bool :=
  negb (pr_Merged p) && bool_decide (is_Some (pr_LastCheckedAt p)) && negb (pr_Open p).

Definition IsClosedFinal (p : PRStatus) : bool :=
  if pr_Merged p then false
  else pr_ClosedFinal p || (IsClosed p && bool_decide (pr_ClosedAt p = None)).

Definition mergerPending (p : PRStatus) : bool :=
  negb (bool_decide (pr_MergedVia p = "")) && bool_decide (pr_MergedBy p = "") && negb (pr_MergedByUnavailable p).

(** An output set when the value is not empty. *)
Definition set_output (k v : string) (s : Status) : Status :=
  if bool_decide (v = "") then s else set_Outputs (<[k := v]> (Outputs_ s)) s.

Section merge.
Variable ParseDuration : string → option Duration.
Variable ParsePRURL : string → option (string * Z).
Variable RepoFromURL : string → option string.
Variable hash : string → string.

Variable cx : Context_.
Variable sp : Spec.
Variable ref : StepRef.
Variable rd : Reads.
Variable host : Host.
Variable m : MergeReads.
Variable SCMWaitTimeout : Duration.

Definition stepPRMerged (s : Status) : bool :=
  if bool_decide (r_PRStatusRef ref = "") then false
  else match m_prstatus m with
       | Got p => prStatusOfStepPR ParsePRURL RepoFromURL p (Outputs_ s) && pr_Merged p
       | _ => false
       end.

(** [waitForMergeTimeout] of the environment, when it is set and positive. *)
Definition merge_timeout : option Duration :=
  if bool_decide (m_WaitForMergeTimeout m = "") then None
  else match ParseDuration (m_WaitForMergeTimeout m) with
       | Some d => if 0 <? d then Some d else None
       | None => None
       end.

Definition fail_with (msg : string) (s : Status) : outcome :=
  patched (transition cx (State_ s) StateFailed msg (set_WaitForMergeExpiry None s)) Stop.

(** The pull request merged. *)
Definition on_merged (p : PRStatus) (s : Status) : outcome :=
  let s' := match m_blocked m with Some g => set_Outputs (<["mergedWhileBlocked" := g]> (Outputs_ s)) s | None => s end in
  let s' := set_output "mergeCommitSHA" (pr_MergeCommitSHA p) s' in
  let s' := set_output "prMergedBy" (pr_MergedBy p) s' in
  let s' := set_output "prMergedVia" (pr_MergedVia p) s' in
  patched (transitionAudit cx (State_ s) StateHealthChecking "PR merged" AuditActionPRMerged (set_WaitForMergeExpiry None s')) Requeue.

(** The pull request is open, or closed in its grace window: the gates status and
    auto-merge are kept up to date, and the message follows. *)
Definition keep_waiting (p : PRStatus) (s : Status) : outcome :=
  let '(es, s) := match (if IsClosed p then None else m_gates m) with
                  | Some outs => ([Patch (set_Outputs outs s)], set_Outputs outs s)
                  | None => ([], s)
                  end in
  let auto := negb (bool_decide (out (Outputs_ s) Promoting.OutputPRAutoMerge = "")) in
  let '(changed, wait) := if negb (IsClosed p) && auto && m_named m then m_autoMerge m else (None, 0) in
  let s' := match changed with Some outs => set_Outputs outs s | None => s end in
  let requeue := if (0 <? wait) && (wait <? Promoting.requeueWaitForMerge) then wait else Promoting.requeueWaitForMerge in
  let closedMsg := "PR is closed" in
  let msg := if IsClosed p then closedMsg
             else if bool_decide (Message s' = closedMsg) ||
                     negb (bool_decide (out (Outputs_ s') Promoting.OutputPRAutoMerge = ""))
             then "PR is open, waiting for merge" else Message s' in
  after es (if negb (bool_decide (msg = Message s')) || bool_decide (is_Some changed)
            then mkOut [Patch (set_Message msg s')] (RequeueAfter requeue) else quiet (RequeueAfter requeue)).

(** What the PRStatus of the step's own pull request says. *)
Definition by_status (p : PRStatus) (s : Status) : outcome :=
  if pr_Merged p then
    if mergerPending p then wait_for "PR merged; waiting for the merger" (RequeueAfter Promoting.requeueWaitForMerge) s
    else on_merged p s
  else if IsClosedFinal p then fail_with "PR was closed without merging" s
  else if negb (bool_decide (pr_PollError p = "")) then fail_with "PR cannot be polled" s
  else match (if pr_Open p && negb (m_pipelinePaused m) then m_refresh m else Some None) with
       | None => quiet Error_
       | Some (Some (pushed, msg, outs)) =>
           mkOut ((if pushed : bool then [WritePRBranch] else []) ++ [Patch (set_Message msg (set_Outputs outs s))]) (RequeueAfter Promoting.requeueWaitForMerge)
       | Some None => keep_waiting p s
       end.

(** The rest of the handler, once the deadline is checked. *)
Definition read_status (s : Status) : outcome :=
  if bool_decide (r_PRStatusRef ref = "") then
    patched (transition cx (State_ s) StateFailed "spec.prStatusRef is empty" s) Stop
  else match m_prstatus m with
       | Missing => wait_for "waiting for the PRStatus" (RequeueAfter Promoting.requeueWaitForMerge) s
       | ReadError => quiet Error_
       | Got p =>
           if negb (prStatusOfStepPR ParsePRURL RepoFromURL p (Outputs_ s))
           then mkOut [PatchPRStatus] (RequeueAfter Promoting.requeueWaitForMerge)
           else by_status p s
       end.

(** The deadline passed: the pull request is closed, best-effort, and the step
    fails. *)
Definition past_deadline (s : Status) : outcome :=
  let '(es, _) := closeStepPRMerged ParsePRURL RepoFromURL hash ref host false s in
  after es (fail_with "wait-for-merge timeout" s).

Definition handleWaitingForMerge (s : Status) : outcome :=
  match rd_pipeline rd with
  | None => quiet Error_
  | Some pl =>
      let merged := stepPRMerged s in
      match HeldFrom (clock cx) pl (s_Environment sp) (s_Bundle sp) with
      | Some h =>
          if negb merged then
            (cancelStep ParsePRURL RepoFromURL hash ref host cx (m_rnd m) SCMWaitTimeout
               ("environment held on " +:+ hd_Bundle h) AuditActionPromotionFailed false s).1
          else read_status s
      | None =>
          match (if merged then None else merge_timeout) with
          | None => read_status s
          | Some d =>
              match WaitForMergeExpiry s with
              | None =>
                  let s := set_WaitForMergeExpiry (Some (now cx + d)) s in
                  after [Patch s] (if now cx + d <? now cx then past_deadline s else read_status s)
              | Some e => if e <? now cx then past_deadline s else read_status s
              end
          end
      end
  end.

(** ** What a merge means *)

Lemma stepPRMerged_spec s :
  stepPRMerged s = true ↔ r_PRStatusRef ref ≠ "" ∧
    ∃ p, m_prstatus m = Got p ∧ prStatusOfStepPR ParsePRURL RepoFromURL p (Outputs_ s) = true ∧ pr_Merged p = true.
Proof.
  unfold stepPRMerged. case_bool_decide; [split; [done|by intros [? _]]|].
  destruct (m_prstatus m) as [p| |]; [|split; [done|by intros (_ & ? & ? & _)]..].
  rewrite andb_true_iff. split; [intros [? ?]; split; [done|by exists p]|by intros (_ & ? & [= <-] & ?)].
Qed.

(** Each patch keeps the state of [s], or moves it to one of [sts]. *)
Definition moves (s : Status) (sts : list State) (o : outcome) : Prop :=
  ∀ p, Patch p ∈ effects o → State_ p = State_ s ∨ State_ p ∈ sts.

Lemma moves_one s sts p r : State_ p = State_ s ∨ State_ p ∈ sts → moves s sts (mkOut [Patch p] r).
Proof. intros H q. simpl. by intros [= ->]%list_elem_of_singleton. Qed.

Lemma moves_quiet s sts r : moves s sts (quiet r).
Proof. intros p Hp. by apply elem_of_nil in Hp. Qed.

Lemma moves_wait s sts msg r : moves s sts (wait_for msg r s).
Proof. unfold wait_for. case_bool_decide; [apply moves_quiet|apply moves_one; by left]. Qed.

Lemma moves_fail s s' sts msg r base : StateFailed ∈ sts → moves s sts (patched (transition cx base StateFailed msg s') r).
Proof.
  intros H. destruct (transition _ _ _ _ _) as [p|] eqn:E; [|apply moves_quiet]. apply moves_one. right.
  by apply transitionAudit_state in E as [-> _].
Qed.

Lemma moves_after s s' sts es o :
  (∀ p, Patch p ∈ es → State_ p = State_ s ∨ State_ p ∈ sts) → State_ s' = State_ s → moves s' sts o → moves s sts (after es o).
Proof. intros He Hs Ho p. simpl. rewrite elem_of_app. intros [?|Hp]; [by apply He|]. rewrite <- Hs. by apply Ho. Qed.

Lemma moves_mono s sts sts' o : sts ⊆ sts' → moves s sts o → moves s sts' o.
Proof. intros H Ho p Hp. destruct (Ho p Hp); [by left|right; by apply H]. Qed.

Lemma keep_waiting_moves p s : moves s [] (keep_waiting p s).
Proof.
  unfold keep_waiting. destruct (if IsClosed p then None else m_gates m) as [outs|].
  - match goal with |- context [let '(_, _) := ?x in _] => destruct x as [changed wait] end. eapply (moves_after s (set_Outputs outs s)); [|done|].
    + intros q [= ->]%list_elem_of_singleton. by left.
    + case_match; [|apply moves_quiet]. apply moves_one. left. by destruct changed.
  - match goal with |- context [let '(_, _) := ?x in _] => destruct x as [changed wait] end. eapply (moves_after s s); [set_solver|done|].
    case_match; [|apply moves_quiet]. apply moves_one. left. by destruct changed.
Qed.

Lemma on_merged_spec p s :
  ∃ p', on_merged p s = mkOut [Patch p'] Requeue ∧ State_ p' = StateHealthChecking.
Proof.
  unfold on_merged. match goal with |- context [transitionAudit cx ?b ?st ?msg ?a ?x] =>
    destruct (transitionAudit_total cx b st msg a x ltac:(done)) as [p' E] end.
  rewrite E. exists p'. split; [done|]. by eapply transitionAudit_state.
Qed.

Lemma read_status_moves s :
  moves s (if stepPRMerged s then [StateHealthChecking] else [StateFailed]) (read_status s) ∧
  (stepPRMerged s = true → ∀ e, e ∈ effects (read_status s) → ∃ p, e = Patch p).
Proof.
  unfold read_status. case_bool_decide as Er.
  { assert (stepPRMerged s = false) as -> by (unfold stepPRMerged; by rewrite bool_decide_true).
    split; [apply moves_fail; set_solver|done]. }
  destruct (m_prstatus m) as [p| |] eqn:Ep.
  2:{ assert (stepPRMerged s = false) as -> by (unfold stepPRMerged; by rewrite bool_decide_false, Ep by done).
      split; [apply moves_wait|done]. }
  2:{ assert (stepPRMerged s = false) as -> by (unfold stepPRMerged; by rewrite bool_decide_false, Ep by done).
      split; [apply moves_quiet|done]. }
  assert (stepPRMerged s = prStatusOfStepPR ParsePRURL RepoFromURL p (Outputs_ s) && pr_Merged p) as ->
    by (unfold stepPRMerged; by rewrite bool_decide_false, Ep by done).
  destruct (prStatusOfStepPR _ _ _ _); cbn [negb andb]; [|split; [intros q; simpl; set_solver|done]].
  unfold by_status. destruct (pr_Merged p).
  - destruct (mergerPending p).
    + split; [apply moves_wait|]. intros _ e. unfold wait_for. case_bool_decide; simpl; set_solver.
    + destruct (on_merged_spec p s) as (p' & -> & Hp'). split; [apply moves_one; set_solver|]. simpl. set_solver.
  - split; [|done]. destruct (IsClosedFinal p); [apply (moves_fail s); set_solver|].
    destruct (negb _); [apply (moves_fail s); set_solver|].
    destruct (if pr_Open p && negb (m_pipelinePaused m) then m_refresh m else Some None) as [[[[pushed msg] outs]|]|];
      [| |apply moves_quiet].
    + intros q. simpl. rewrite elem_of_app. intros [Hq|[= ->]%list_elem_of_singleton]; [destruct pushed; set_solver|by left].
    + eapply moves_mono, keep_waiting_moves. set_solver.
Qed.

Lemma past_deadline_spec s :
  ∃ p, past_deadline s = mkOut ((closeStepPRMerged ParsePRURL RepoFromURL hash ref host false s).1 ++ [Patch p]) Stop ∧
    State_ p = StateFailed.
Proof.
  unfold past_deadline, fail_with. destruct (closeStepPRMerged _ _ _ _ _ _ s) as [es c].
  destruct (transition_total cx (State_ s) StateFailed "wait-for-merge timeout" (set_WaitForMergeExpiry None s) ltac:(done))
    as (p & -> & Hp & _).
  by exists p.
Qed.

Lemma past_deadline_moves s : moves s [StateFailed] (past_deadline s).
Proof.
  destruct (past_deadline_spec s) as (p & -> & Hp). intros q. simpl.
  intros [Hq|[= ->]%list_elem_of_singleton]%elem_of_app; [|set_solver].
  destruct (closeStepPRMerged _ _ _ _ _ _ _) as [es c] eqn:E. apply closeStepPRMerged_effects in E as (Hc & _).
  by destruct (effects_no_patch _ _ _ _ _ _ Hc q).
Qed.

Lemma handleWaitingForMerge_moves s :
  moves s (if stepPRMerged s then [StateHealthChecking] else [StateFailed]) (handleWaitingForMerge s).
Proof.
  unfold handleWaitingForMerge. destruct (rd_pipeline rd) as [pl|]; [|apply moves_quiet].
  destruct (HeldFrom _ _ _ _) as [h|].
  { destruct (stepPRMerged s) eqn:Em; cbn [negb]; [pose proof (read_status_moves s) as [H _]; by rewrite Em in H|].
    intros p [->|Hp]%cancelStep_states; [by left|right; set_solver]. }
  destruct (if stepPRMerged s then None else merge_timeout) as [d|] eqn:Ed; [|apply read_status_moves].
  destruct (stepPRMerged s) eqn:Em; [done|].
  assert (∀ s', State_ s' = State_ s → Outputs_ s' = Outputs_ s → moves s' [StateFailed] (read_status s')) as Hread.
  { intros s' Hs Ho. pose proof (read_status_moves s') as [H _]. unfold stepPRMerged in H, Em. rewrite Ho, Em in H. done. }
  destruct (WaitForMergeExpiry s) as [e|].
  - destruct (e <? now cx); [apply past_deadline_moves|by apply Hread].
  - eapply (moves_after s (set_WaitForMergeExpiry (Some (now cx + d)) s)); [|done|].
    + intros p [= ->]%list_elem_of_singleton. by left.
    + destruct (_ <? _); [apply past_deadline_moves|by apply Hread].
Qed.

(** What a step waiting for its merge does.  A pull request its own PRStatus
    reports merged is past every hold and deadline: the step is never failed and
    its pull request never touched, and it goes on to its health check as soon as
    the merger is known.  Without such a report it never does: it waits, or fails.
    Past waitForMergeTimeout it fails, its pull request closed first. *)
Theorem merge_verdict s pl :
  rd_pipeline rd = Some pl →
  (stepPRMerged s = true →
     (∀ e, e ∈ effects (handleWaitingForMerge s) → ∃ p, e = Patch p ∧ (State_ p = State_ s ∨ State_ p = StateHealthChecking)) ∧
     ((∀ p, m_prstatus m = Got p → mergerPending p = false) →
      ∃ p, effects (handleWaitingForMerge s) = [Patch p] ∧ State_ p = StateHealthChecking)) ∧
  (stepPRMerged s = false → ∀ p, Patch p ∈ effects (handleWaitingForMerge s) → State_ p = State_ s ∨ State_ p = StateFailed) ∧
  (∀ d e, stepPRMerged s = false → HeldFrom (clock cx) pl (s_Environment sp) (s_Bundle sp) = None →
     merge_timeout = Some d → WaitForMergeExpiry s = Some e → e < now cx →
     ∃ p, effects (handleWaitingForMerge s) = (closeStepPRMerged ParsePRURL RepoFromURL hash ref host false s).1 ++ [Patch p] ∧
       State_ p = StateFailed).
Proof.
  intros Hpl. pose proof (handleWaitingForMerge_moves s) as Hm. split_and!.
  - intros Em. rewrite Em in Hm.
    assert (handleWaitingForMerge s = read_status s) as Heq.
    { unfold handleWaitingForMerge. rewrite Hpl, Em. by destruct (HeldFrom _ _ _ _). }
    rewrite Heq in *. pose proof (read_status_moves s) as [_ Honly]. split.
    + intros e He. destruct (Honly Em e He) as [p ->]. exists p. split; [done|]. destruct (Hm p He); [by left|right; set_solver].
    + intros Hk. apply stepPRMerged_spec in Em as (Hr & p & Hp & Ho & Hmg).
      unfold read_status. rewrite bool_decide_false, Hp, Ho by done. cbn [negb]. unfold by_status. rewrite Hmg, (Hk p Hp).
      destruct (on_merged_spec p s) as (p' & -> & Hp'). by exists p'.
  - intros Em p Hp. rewrite Em in Hm. destruct (Hm p Hp); [by left|right; set_solver].
  - intros d e Em Hh Hd He Hlt. unfold handleWaitingForMerge. rewrite Hpl, Hh, Em, Hd, He.
    rewrite (proj2 (Z.ltb_lt _ _) Hlt). destruct (past_deadline_spec s) as (p & -> & Hp). by exists p.
Qed.
End merge.

(** A merged pull request in an environment that is held on another Bundle. *)
Definition demo_merged : PRStatus :=
  mkPR (mkPRSpec "" 7 "") 1 1 true false None None false "api" "alice" false "abc" "" false false 0 "".

Definition demo_held : Reads :=
  mkReads (Some (mkPipeline [mkHold "prod" "v0" None] "" (mkEnvSeq "pr-review" "" ""))) (Some false) (Some []) None Missing
    false (Some false) (λ _, Missing) NoReceipts.

Definition demo_merge : MergeReads :=
  mkMergeReads false "" (Got demo_merged) None (Some None) None false (None, 0) 0.

Definition demo_pr_ref : StepRef := mkRef "team" "v1" "prod" "pr".

Lemma merge_verdict_witness :
  ∃ p, effects (handleWaitingForMerge (λ _, None) (λ _, None) (λ _, None) (λ _, "0123abcd") (demo_cx (90 * second)) demo_spec
      demo_pr_ref demo_held demo_host demo_merge 0 (demo_status StateWaitingForMerge)) = [Patch p] ∧ State_ p = StateHealthChecking.
Proof.
  refine (proj2 (proj1 (merge_verdict (λ _, None) (λ _, None) (λ _, None) (λ _, "0123abcd") (demo_cx (90 * second)) demo_spec
    demo_pr_ref demo_held demo_host demo_merge 0 (demo_status StateWaitingForMerge)
    (mkPipeline [mkHold "prod" "v0" None] "" (mkEnvSeq "pr-review" "" "")) _) _) _).
  - reflexivity.
  - vm_compute. reflexivity.
  - intros p [= <-]. reflexivity.
Defined.
End Merge.
