(* ===== verification/PRPoll.v ===== *)
(** * PRPoll: following a pull request on its code host

    Model of the PRStatus reconciler (src/pkg/reconciler/prstatus/reconciler.go)
    and of the merge webhook (markPRStatusMerged and mergeConfirmed of
    src/cmd/kardinal-controller/webhook.go), which write the PRStatus that [Merge]
    waits for.  Several writers patch one object from copies that may be old, so a
    status write is modelled as the JSON merge patch it is: only the fields that
    differ from the copy read are written ([merge_patch]).  A [World] is the stored
    object with all its versions and what the code host was heard to say. *)

From stdpp Require Import base gmap strings list pretty.
From Stdlib Require Import Ascii Lia ZArith.
From S2P Require Import Prelude Actor Freeze Engine StepStatus Hooks Outbox Bake Transition Cancel Pending Promoting Merge.
Import Transition.Transition Cancel.Cancel Merge.Merge.

Module PRPoll.

Definition requeuePollInterval : Duration := 30 * second.
Definition lastCheckedRefresh : Duration := 5 * Pending.Pending.minute.
Definition mergeCommitWindow : Duration := 5 * Pending.Pending.minute.
Definition permanentErrorInterval : Duration := 5 * Pending.Pending.minute.
Definition maxPollErrorLen : nat := 512.
Definition ClosedGracePeriod : Duration := 5 * Pending.Pending.minute.
Definition maxMergerLength : nat := 253.

Definition PRMergedViaWebhook : string := "webhook".
Definition PRMergedViaPoll : string := "poll".

(** ** What is read *)

(** [scmFor]: a provider, none, an error a retry cannot fix (the provider is gone,
    the repository or the namespace is not allowed), or another error. *)
Inductive provider := HasProvider | NoProvider | ProviderRefused (msg : string) | ProviderFails.

(** [GetPRStatus]. *)
Inductive poll_answer :=
  | PollPermanent (msg : string)
  | PollCircuit (retryAfter : Time)
  | PollTransient
  | PollOk (merged open : bool).

(** A lookup of the merge commit or of the merger: [scmFor] failed, the provider
    has no such lookup, it failed (for good or not), or it answered. *)
Inductive lookup := LookupNoProvider | LookupUnsupported | LookupError (permanent : bool) | LookupOk (v : string).

(** [in_clock] is read before the poll, [in_now] after it.  [in_reviews] is
    GetPRReviewStatus, [None] when it fails. *)
Record PollInputs := mkPoll {
  in_clock : Time;
  in_now : Time;
  in_provider : provider;
  in_answer : poll_answer;
  in_reviews : option (bool * Z);
  in_commit : lookup;
  in_merger : lookup
}.

(** What a reconcile does: the answers it gets from the code host about the PR it
    asks for, its patches (from the copy read to the new status), its comment. *)
Inductive action :=
  | Answered (merged open : bool)
  | PatchStatus (base new : PRStatus)
  | PatchLocked (base new : PRStatus)
  | CommentStopped.

(** ** Status updates *)

Definition with_observed (p : PRStatus) : PRStatus :=
  mkPR (pr_Spec p) (pr_Generation p) (pr_Generation p) (pr_Merged p) (pr_Open p) (pr_LastCheckedAt p) (pr_ClosedAt p)
    (pr_ClosedFinal p) (pr_MergedVia p) (pr_MergedBy p) (pr_MergedByUnavailable p) (pr_MergeCommitSHA p) (pr_PollError p)
    (pr_MergeCommitUnavailable p) (pr_Approved p) (pr_ApprovalCount p) (pr_ClosedBy p).

(** The zero status of a spec and generation, for which it is observed. *)
Definition cleared (observed : Z) (p : PRStatus) : PRStatus :=
  mkPR (pr_Spec p) (pr_Generation p) observed false false None None false "" "" false "" "" false false 0 (pr_ClosedBy p).

Definition with_pollError (msg : string) (p : PRStatus) : PRStatus :=
  mkPR (pr_Spec p) (pr_Generation p) (pr_Generation p) (pr_Merged p) (pr_Open p) (pr_LastCheckedAt p) (pr_ClosedAt p)
    (pr_ClosedFinal p) (pr_MergedVia p) (pr_MergedBy p) (pr_MergedByUnavailable p) (pr_MergeCommitSHA p) msg
    (pr_MergeCommitUnavailable p) (pr_Approved p) (pr_ApprovalCount p) (pr_ClosedBy p).

Definition with_merger (by_ : string) (p : PRStatus) : PRStatus :=
  mkPR (pr_Spec p) (pr_Generation p) (pr_ObservedGeneration p) (pr_Merged p) (pr_Open p) (pr_LastCheckedAt p) (pr_ClosedAt p)
    (pr_ClosedFinal p) (pr_MergedVia p) by_ (pr_MergedByUnavailable p) (pr_MergeCommitSHA p) (pr_PollError p)
    (pr_MergeCommitUnavailable p) (pr_Approved p) (pr_ApprovalCount p) (pr_ClosedBy p).

Definition with_merge_facts (sha by_ : string) (p : PRStatus) : PRStatus :=
  mkPR (pr_Spec p) (pr_Generation p) (pr_Generation p) (pr_Merged p) (pr_Open p) (pr_LastCheckedAt p) (pr_ClosedAt p)
    (pr_ClosedFinal p) (pr_MergedVia p) by_ (bool_decide (by_ = "")) sha (pr_PollError p)
    (bool_decide (sha = "")) (pr_Approved p) (pr_ApprovalCount p) (pr_ClosedBy p).

(** ** The merge commit and the merger *)

(** [utf8.RuneStart]. *)
Definition RuneStart (c : ascii) : bool := negb (Z.land (Z.of_N (N_of_ascii c)) 192 =? 128).

Fixpoint clip_from (s : string) (cut : nat) : nat :=
  match cut with
  | O => O
  | S cut' => match String.get cut s with
              | Some c => if RuneStart c then cut else clip_from s cut'
              | None => cut
              end
  end.

Definition clipMerger (s : string) : string :=
  if Nat.leb (String.length s) maxMergerLength then s else String.substring 0 (clip_from s maxMergerLength) s.

Definition fetchMergeCommit (a : lookup) (p : PRStatus) : string * bool :=
  match a with
  | LookupNoProvider => ("", true)
  | LookupUnsupported => ("", false)
  | LookupError permanent => if PRNumber (pr_Spec p) =? 0 then ("", false) else ("", negb permanent)
  | LookupOk sha => if PRNumber (pr_Spec p) =? 0 then ("", false) else (sha, false)
  end.

Definition fetchMerger (a : lookup) (p : PRStatus) : string * bool :=
  match a with
  | LookupOk by_ => fetchMergeCommit (LookupOk (clipMerger by_)) p
  | a => fetchMergeCommit a p
  end.

(** ** The reconciler *)

Definition adoptLegacyStatus (p : PRStatus) : list action :=
  if pr_ObservedGeneration p =? pr_Generation p then [] else [PatchStatus p (with_observed p)].

Definition clearForNewPR (p : PRStatus) : list action * result :=
  ([PatchLocked p (cleared (pr_Generation p) p)], Requeue).

Definition recordPollError (err : string) (p : PRStatus) : list action * result :=
  let msg := if Nat.ltb maxPollErrorLen (String.length err) then String.substring 0 maxPollErrorLen err +:+ "..." else err in
  (if negb (bool_decide (pr_PollError p = msg)) || negb (pr_ObservedGeneration p =? pr_Generation p)
   then [PatchStatus p (with_pollError msg p)] else [],
   RequeueAfter permanentErrorInterval).

Definition needSHA (p : PRStatus) : bool := bool_decide (pr_MergeCommitSHA p = "") && negb (pr_MergeCommitUnavailable p).

Definition needMerger (p : PRStatus) : bool :=
  negb (bool_decide (pr_MergedVia p = "")) && bool_decide (pr_MergedBy p = "") && negb (pr_MergedByUnavailable p).

Definition recordMergeCommit (i : PollInputs) (p : PRStatus) : list action * result :=
  if negb (needSHA p) && negb (needMerger p) then (adoptLegacyStatus p, Stop)
  else
    let late := match pr_LastCheckedAt p with
                | Some last => mergeCommitWindow <? sub_time (in_clock i) last
                | None => false
                end in
    let '(sha, retry) := if negb late && needSHA p then fetchMergeCommit (in_commit i) p else (pr_MergeCommitSHA p, false) in
    let '(by_, retryMerger) := if negb late && needMerger p then fetchMerger (in_merger i) p else (pr_MergedBy p, false) in
    if retry || retryMerger then
      (if needMerger p && negb (bool_decide (by_ = "")) then [PatchStatus p (with_merger by_ p)] else [],
       RequeueAfter requeuePollInterval)
    else ([PatchStatus p (with_merge_facts sha by_ p)], Stop).

Definition closedState (p : PRStatus) (merged open : bool) (now : Time) : option Time * bool :=
  if merged || open then (None, false)
  else match pr_ClosedAt p with
       | None => (Some now, false)
       | Some t => (Some t, negb (now <? t + ClosedGracePeriod))
       end.

Definition ClosedByKardinal (p : PRStatus) : bool :=
  (0 <? PRNumber (pr_Spec p)) && bool_decide (pr_ClosedBy p = pretty (PRNumber (pr_Spec p))).

(** [d.Round(time.Second)]: halfway values away from zero. *)
Definition round_second (d : Duration) : Duration :=
  let r := Z.rem d second in
  if d <? 0 then (if - r + - r <? second then d - r else d - second - r)
  else if r + r <? second then d - r else Z.min (d + second - r) (2 ^ 63 - 1).

Definition circuit_wait (retryAfter : Time) (now : Time) : Duration :=
  let wait := round_second (sub_time retryAfter now) in
  let wait := if wait <? second then second else wait in
  if requeuePollInterval <? wait then requeuePollInterval else wait.

(** The status a poll leaves. *)
Definition polled (p : PRStatus) (merged open approved : bool) (count : Z) (sha : string) (shaGone : bool)
  (by_ : string) (byGone : bool) (via : string) (closedAt : option Time) (final : bool) (now : Time) : PRStatus :=
  mkPR (pr_Spec p) (pr_Generation p) (pr_Generation p) merged open (Some now) closedAt final via by_ byGone sha "" shaGone
    approved count (pr_ClosedBy p).

(** The code host answered: the status is written when a value changed or the last
    write is old. *)
Definition record_poll (i : PollInputs) (merged open : bool) (p : PRStatus) : list action * result :=
  let '(approved, count) := match in_reviews i with Some r => r | None => (pr_Approved p, pr_ApprovalCount p) end in
  let '(sha, retry) := if merged && needSHA p then fetchMergeCommit (in_commit i) p else (pr_MergeCommitSHA p, false) in
  let shaGone := if merged && needSHA p then bool_decide (sha = "") && negb retry else pr_MergeCommitUnavailable p in
  let via := if merged && negb (pr_Merged p) && bool_decide (pr_MergedVia p = "") then PRMergedViaPoll else pr_MergedVia p in
  let askMerger := merged && bool_decide (pr_MergedBy p = "") && negb (pr_MergedByUnavailable p) in
  let '(by_, retryMerger) := if askMerger then fetchMerger (in_merger i) p else (pr_MergedBy p, false) in
  let byGone := if askMerger then bool_decide (by_ = "") && negb retryMerger else pr_MergedByUnavailable p in
  let '(closedAt, final) := closedState p merged open (in_now i) in
  let changed :=
    negb (Bool.eqb merged (pr_Merged p)) || negb (Bool.eqb open (pr_Open p)) || negb (Bool.eqb approved (pr_Approved p)) ||
    negb (count =? pr_ApprovalCount p) || negb (bool_decide (sha = pr_MergeCommitSHA p)) ||
    negb (Bool.eqb shaGone (pr_MergeCommitUnavailable p)) || negb (bool_decide (by_ = pr_MergedBy p)) ||
    negb (Bool.eqb byGone (pr_MergedByUnavailable p)) || negb (bool_decide (via = pr_MergedVia p)) ||
    negb (bool_decide (pr_PollError p = "")) || negb (bool_decide (closedAt = pr_ClosedAt p)) ||
    negb (Bool.eqb final (pr_ClosedFinal p)) || negb (pr_ObservedGeneration p =? pr_Generation p) in
  let stale := match pr_LastCheckedAt p with
               | None => true
               | Some last => lastCheckedRefresh <=? sub_time (in_now i) last
               end in
  ((if changed || stale
    then [PatchStatus p (polled p merged open approved count sha shaGone by_ byGone via closedAt final (in_now i))] else []) ++
   (if final && negb (pr_ClosedFinal p) && negb (ClosedByKardinal p) then [CommentStopped] else []),
   if merged then (if retry || retryMerger then RequeueAfter requeuePollInterval else Stop)
   else if final then Stop
   else if negb open then
     let remaining := match closedAt with Some t => sub_time (t + ClosedGracePeriod) (in_now i) | None => 0 end in
     RequeueAfter (Z.min requeuePollInterval (Z.max remaining second))
   else RequeueAfter requeuePollInterval).

(** A reconcile within the poll interval of the last recorded poll waits for the
    rest of it. *)
Definition throttled (i : PollInputs) (p : PRStatus) : option Duration :=
  match pr_LastCheckedAt p with
  | None => None
  | Some last =>
      let wait := i64 (requeuePollInterval - sub_time (in_clock i) last) in
      if 0 <? wait then Some wait else None
  end.

Definition reconcile (i : PollInputs) (p : PRStatus) : list action * result :=
  if negb (DescribesSpec p) then clearForNewPR p
  else if pr_Merged p then recordMergeCommit i p
  else if IsClosedFinal p then (adoptLegacyStatus p, Stop)
  else if PRNumber (pr_Spec p) =? 0 then ([], Stop)
  else match in_provider i with
       | ProviderRefused msg => recordPollError msg p
       | ProviderFails | NoProvider => ([], RequeueAfter requeuePollInterval)
       | HasProvider =>
           match throttled i p with
           | Some wait => ([], RequeueAfter wait)
           | None =>
               match in_answer i with
               | PollPermanent msg => recordPollError msg p
               | PollCircuit retryAfter => ([], RequeueAfter (circuit_wait retryAfter (in_clock i)))
               | PollTransient => ([], RequeueAfter requeuePollInterval)
               | PollOk merged open =>
                   let '(acts, res) := record_poll i merged open p in (Answered merged open :: acts, res)
               end
           end
       end.

(** ** The webhook

    An event of a merged pull request marks the PRStatuses that name it, once the
    code host confirms the merge of the first of them. *)

Record WebhookEvent := mkEvent { ev_PRNumber : Z; ev_RepoFullName : string }.

Section webhook.
(** [scm.SameRepo] of the controller's provider, and [webhookScope.matches]. *)
Variable SameRepo : string → string → bool.
Variable matches : PRStatus → bool.

Definition marks (ev : WebhookEvent) (p : PRStatus) : bool :=
  (PRNumber (pr_Spec p) =? ev_PRNumber ev) && matches p &&
  negb (bool_decide (Repo (pr_Spec p) = "")) && SameRepo (Repo (pr_Spec p)) (ev_RepoFullName ev) &&
  negb (DescribesSpec p && pr_Merged p).

(** The status the webhook writes. *)
Definition marked (now : Time) (p : PRStatus) : PRStatus :=
  let q := with_observed (if DescribesSpec p then p else cleared 0 p) in
  if pr_Merged q then q
  else mkPR (pr_Spec q) (pr_Generation q) (pr_ObservedGeneration q) true false (Some now) (pr_ClosedAt q)
         (pr_ClosedFinal q) PRMergedViaWebhook (pr_MergedBy q) (pr_MergedByUnavailable q) (pr_MergeCommitSHA q) (pr_PollError q)
         (pr_MergeCommitUnavailable q) (pr_Approved q) (pr_ApprovalCount q) (pr_ClosedBy q).

(** [mergeConfirmed]: the answer about the first PR to mark ([None] for an error). *)
Definition mergeConfirmed (answer : PRStatus → option (bool * bool)) (p : PRStatus) : bool :=
  match answer p with Some (merged, _) => merged | None => false end.

(** The pull request the code host is asked about, if any, and the patches. *)
Definition markPRStatusMerged (answer : PRStatus → option (bool * bool)) (now : Time) (ev : WebhookEvent) (items : list PRStatus) :
  option PRStatus * list action :=
  if (ev_PRNumber ev <=? 0) || bool_decide (ev_RepoFullName ev = "") then (None, [])
  else match List.filter (marks ev) items with
       | [] => (None, [])
       | (p :: _) as toMark =>
           (Some p, if negb (mergeConfirmed answer p) then [] else (λ q, PatchStatus q (marked now q)) <$> toMark)
       end.
End webhook.

(** ** One object, several writers *)

#[export] Instance PRStatusSpec_eq_dec : EqDecision PRStatusSpec.
Proof. solve_decision. Defined.
#[export] Instance PRStatus_eq_dec : EqDecision PRStatus.
Proof. solve_decision. Defined.

Definition diff {A} `{EqDecision A} (base new stored : A) : A := if decide (base = new) then stored else new.

(** A merge patch of the status: the fields that differ from the copy read. *)
Definition merge_patch (b n s : PRStatus) : PRStatus :=
  mkPR (pr_Spec s) (pr_Generation s) (diff (pr_ObservedGeneration b) (pr_ObservedGeneration n) (pr_ObservedGeneration s))
    (diff (pr_Merged b) (pr_Merged n) (pr_Merged s)) (diff (pr_Open b) (pr_Open n) (pr_Open s))
    (diff (pr_LastCheckedAt b) (pr_LastCheckedAt n) (pr_LastCheckedAt s))
    (diff (pr_ClosedAt b) (pr_ClosedAt n) (pr_ClosedAt s)) (diff (pr_ClosedFinal b) (pr_ClosedFinal n) (pr_ClosedFinal s))
    (diff (pr_MergedVia b) (pr_MergedVia n) (pr_MergedVia s)) (diff (pr_MergedBy b) (pr_MergedBy n) (pr_MergedBy s))
    (diff (pr_MergedByUnavailable b) (pr_MergedByUnavailable n) (pr_MergedByUnavailable s))
    (diff (pr_MergeCommitSHA b) (pr_MergeCommitSHA n) (pr_MergeCommitSHA s))
    (diff (pr_PollError b) (pr_PollError n) (pr_PollError s))
    (diff (pr_MergeCommitUnavailable b) (pr_MergeCommitUnavailable n) (pr_MergeCommitUnavailable s))
    (diff (pr_Approved b) (pr_Approved n) (pr_Approved s)) (diff (pr_ApprovalCount b) (pr_ApprovalCount n) (pr_ApprovalCount s))
    (pr_ClosedBy s).

Lemma merge_patch_fresh b n :
  pr_Spec n = pr_Spec b → pr_Generation n = pr_Generation b → pr_ClosedBy n = pr_ClosedBy b → merge_patch b n b = n.
Proof.
  intros H1 H2 H3. unfold merge_patch, diff. destruct n; simpl in *; subst.
  f_equal; by case_decide.
Qed.

(** [stored] is the object, [versions] all it has been (what a cache may show),
    [heard] the pull requests the code host said are merged, [overtaken] the
    generations at which a patch landed whose copy was of an older generation: the
    spec had changed between the read and the write. *)
Record World := mkWorld { stored : PRStatus; versions : list PRStatus; heard : list PRStatusSpec; overtaken : list Z }.

Definition store (p : PRStatus) (w : World) : World := mkWorld p (p :: versions w) (heard w) (overtaken w).
Definition hear (x : PRStatusSpec) (w : World) : World := mkWorld (stored w) (versions w) (x :: heard w) (overtaken w).

(** A status patch carries no resource version: the API server applies it to
    whatever is stored. *)
Definition land (b n : PRStatus) (w : World) : World :=
  let p := merge_patch b n (stored w) in
  mkWorld p (p :: versions w) (heard w)
    (if pr_Generation b =? pr_Generation (stored w) then overtaken w else pr_Generation (stored w) :: overtaken w).

(** What the code host says to a webhook that asks about [p]. *)
Definition hear_answer (answer : PRStatus → option (bool * bool)) (asked : option PRStatus) (w : World) : World :=
  match asked with
  | Some p => match answer p with Some (true, _) => hear (pr_Spec p) w | _ => w end
  | None => w
  end.

(** An action of a writer that read [c].  A locked patch of an old copy conflicts. *)
Definition exec (c : PRStatus) (w : World) (a : action) : World :=
  match a with
  | Answered merged _ => if merged then hear (pr_Spec c) w else w
  | PatchStatus b n => land b n w
  | PatchLocked b n => if decide (stored w = b) then store n w else w
  | CommentStopped => w
  end.

(** The step points the spec at another pull request ([patchPRStatusSpec]): the API
    server counts the generation up. *)
Definition respec (x : PRStatusSpec) (p : PRStatus) : PRStatus :=
  mkPR x (pr_Generation p + 1) (pr_ObservedGeneration p) (pr_Merged p) (pr_Open p) (pr_LastCheckedAt p) (pr_ClosedAt p)
    (pr_ClosedFinal p) (pr_MergedVia p) (pr_MergedBy p) (pr_MergedByUnavailable p) (pr_MergeCommitSHA p) (pr_PollError p)
    (pr_MergeCommitUnavailable p) (pr_Approved p) (pr_ApprovalCount p) (pr_ClosedBy p).

Definition annotate (v : string) (p : PRStatus) : PRStatus :=
  mkPR (pr_Spec p) (pr_Generation p) (pr_ObservedGeneration p) (pr_Merged p) (pr_Open p) (pr_LastCheckedAt p) (pr_ClosedAt p)
    (pr_ClosedFinal p) (pr_MergedVia p) (pr_MergedBy p) (pr_MergedByUnavailable p) (pr_MergeCommitSHA p) (pr_PollError p)
    (pr_MergeCommitUnavailable p) (pr_Approved p) (pr_ApprovalCount p) v.

Section world.
Variable SameRepo : string → string → bool.

(** The writers.  A copy [c] is any version the object has had, of this spec or of an
    earlier one.  A writer may stop after any of its actions. *)
Inductive wstep : World → World → Prop :=
  | step_reconcile w c i k :
      c ∈ versions w →
      wstep w (foldl (exec c) w (take k (reconcile i c).1))
  | step_webhook w c matches answer now ev items asked acts n :
      c ∈ versions w →
      markPRStatusMerged SameRepo matches answer now ev items = (asked, acts) →
      PatchStatus c n ∈ acts →
      wstep w (exec c (hear_answer answer asked w) (PatchStatus c n))
  | step_respec w x : wstep w (store (respec x (stored w)) w)
  | step_annotate w v : wstep w (store (annotate v (stored w)) w).

(** The Graph creates a placeholder. *)
Inductive reachable : World → Prop :=
  | reach_placeholder p : 0 < pr_Generation p → p = cleared 0 p → reachable (mkWorld p [p] [] [])
  | reach_step w w' : reachable w → wstep w w' → reachable w'.

(** The code host said that the pull request of [x] is merged: it was asked about
    it, or about one of the same number whose repository the webhook's event names
    too. *)
Definition confirmed (h : list PRStatusSpec) (x : PRStatusSpec) : Prop :=
  ∃ y, y ∈ h ∧ PRNumber y = PRNumber x ∧
    (y = x ∨ ∃ r, SameRepo (Repo y) r = true ∧ SameRepo (Repo x) r = true).

Lemma confirmed_mono h h' x : h ⊆ h' → confirmed h x → confirmed h' x.
Proof. intros Hs (y & Hy & H). exists y. split; [by apply Hs|done]. Qed.

(** *** The actions of a reconcile *)

(** A patch that says nothing new about the merge. *)
Definition keeps (c n : PRStatus) : Prop :=
  DescribesSpec c = true ∧ pr_Merged n = pr_Merged c ∧
  (pr_ObservedGeneration n = pr_ObservedGeneration c ∨ pr_ObservedGeneration n = pr_Generation c).

Inductive acts_of (c : PRStatus) : list action → Prop :=
  | acts_clear : DescribesSpec c = false → acts_of c [PatchLocked c (cleared (pr_Generation c) c)]
  | acts_none : acts_of c []
  | acts_keep n : keeps c n → acts_of c [PatchStatus c n]
  | acts_poll m o l l' :
      DescribesSpec c = true → pr_Merged c = false →
      l = [] ∨ (∃ n, l = [PatchStatus c n] ∧ pr_Merged n = m ∧ pr_ObservedGeneration n = pr_Generation c) →
      l' = [] ∨ l' = [CommentStopped] → acts_of c (Answered m o :: l ++ l').

Lemma adoptLegacyStatus_acts c : DescribesSpec c = true → acts_of c (adoptLegacyStatus c).
Proof. unfold adoptLegacyStatus. intros H. case_match; [apply acts_none|apply acts_keep]; split_and!; [done..|by right]. Qed.

Lemma recordPollError_acts e c : DescribesSpec c = true → acts_of c (recordPollError e c).1.
Proof. unfold recordPollError. intros H. simpl. case_match; [apply acts_keep|apply acts_none]; split_and!; [done..|by right]. Qed.

Lemma recordMergeCommit_acts i c : DescribesSpec c = true → acts_of c (recordMergeCommit i c).1.
Proof.
  intros H. unfold recordMergeCommit. destruct (negb (needSHA c) && _); [by apply adoptLegacyStatus_acts|].
  do 2 match goal with |- context [let '(_, _) := ?x in _] => destruct x end.
  destruct (_ || _); [destruct (_ && _)|]; simpl; [apply acts_keep|apply acts_none|apply acts_keep]; split_and!;
    first [done | by left | by right].
Qed.

Lemma record_poll_acts i m o c :
  DescribesSpec c = true → pr_Merged c = false → acts_of c (Answered m o :: (record_poll i m o c).1).
Proof.
  intros H1 H2. unfold record_poll.
  do 4 match goal with |- context [let '(_, _) := ?x in _] => destruct x end.
  cbn [fst]. constructor; [done..| |].
  - destruct (_ || _); [right|by left]. eexists. split; [reflexivity|done].
  - destruct (_ && _); [by right|by left].
Qed.

Lemma reconcile_acts i c : acts_of c (reconcile i c).1.
Proof.
  unfold reconcile. destruct (DescribesSpec c) eqn:Hd; [|by apply acts_clear]. cbn [negb].
  destruct (pr_Merged c) eqn:Hm; [by apply recordMergeCommit_acts|].
  destruct (IsClosedFinal c); [by apply adoptLegacyStatus_acts|]. destruct (_ =? 0); [constructor|].
  destruct (in_provider i); try constructor; [|by apply recordPollError_acts].
  destruct (throttled i c); [constructor|]. destruct (in_answer i); try constructor; [by apply recordPollError_acts|].
  pose proof (record_poll_acts i merged open c Hd Hm) as Hp. by destruct (record_poll i merged open c).
Qed.

(** *** The invariant *)

(** A merge is recorded in [w] for [v] only if the code host confirmed one of the pull
    requests the object has named so far, and for a generation that no patch of an
    older one reached, the pull request of [v] itself. *)
Definition merge_known (w : World) (v : PRStatus) : Prop :=
  pr_ObservedGeneration v ≠ 0 ∧
  (∃ u, u ∈ versions w ∧ pr_Generation u ≤ pr_Generation v ∧ confirmed (heard w) (pr_Spec u)) ∧
  (pr_Generation v ∉ overtaken w → pr_ObservedGeneration v = pr_Generation v → confirmed (heard w) (pr_Spec v)).

Record Inv (w : World) : Prop := {
  inv_stored : stored w ∈ versions w;
  inv_gen v : v ∈ versions w → 0 < pr_Generation v ≤ pr_Generation (stored w);
  inv_spec v : v ∈ versions w → pr_Generation v = pr_Generation (stored w) → pr_Spec v = pr_Spec (stored w);
  inv_obs v : v ∈ versions w → 0 ≤ pr_ObservedGeneration v ≤ pr_Generation v;
  inv_zero v : v ∈ versions w → pr_ObservedGeneration v ≠ 0 → pr_ObservedGeneration (stored w) ≠ 0;
  inv_fresh v : v ∈ versions w → pr_Generation v = pr_Generation (stored w) → pr_ObservedGeneration v = 0 →
    pr_ObservedGeneration (stored w) = 0 ∨ pr_ObservedGeneration (stored w) = pr_Generation (stored w) ∨
    pr_Generation (stored w) ∈ overtaken w;
  inv_merged v : v ∈ versions w → pr_Merged v = true → merge_known w v
}.

Lemma merge_known_mono w w' v :
  versions w ⊆ versions w' → heard w ⊆ heard w' → overtaken w ⊆ overtaken w' → merge_known w v → merge_known w' v.
Proof.
  intros Hv Hh Ho (H1 & (u & Hu & Hg & Hc) & H3). split_and!; [done| |].
  - exists u. split_and!; [by apply Hv|done|by apply (confirmed_mono (heard w))].
  - intros Hn E. apply (confirmed_mono (heard w)); [done|]. apply H3; [|done]. intros ?. by apply Hn, Ho.
Qed.

Lemma Inv_hear w x : Inv w → Inv (hear x w).
Proof.
  intros [Hst Hgen Hspec Hobs Hz Hf Hmg]. split; simpl; try done. intros v Hv Hm.
  apply (merge_known_mono w); [done|by apply list_subseteq_cons|done|by apply Hmg].
Qed.

(** The object is written at its generation. *)
Lemma Inv_store w p o :
  Inv w → overtaken w ⊆ o → pr_Spec p = pr_Spec (stored w) → pr_Generation p = pr_Generation (stored w) →
  pr_ObservedGeneration p = pr_ObservedGeneration (stored w) ∨ pr_ObservedGeneration p = pr_Generation (stored w) ∨
    (pr_Generation (stored w) ∈ o ∧ 0 < pr_ObservedGeneration p ≤ pr_Generation (stored w)) →
  (pr_Merged p = true → merge_known (mkWorld p (p :: versions w) (heard w) o) p) →
  Inv (mkWorld p (p :: versions w) (heard w) o).
Proof.
  intros Hi Hov Hs Hg Ho Hm. pose proof Hi as [Hst Hgen Hspec Hobs Hz Hf Hmg]. pose proof (Hgen _ Hst). pose proof (Hobs _ Hst).
  split; simpl.
  - by left.
  - intros v [->|Hv]%elem_of_cons; [lia|]. pose proof (Hgen v Hv). lia.
  - intros v [->|Hv]%elem_of_cons; [done|]. rewrite Hg, Hs. by apply Hspec.
  - intros v [->|Hv]%elem_of_cons; [lia|by apply Hobs].
  - intros v [->|Hv]%elem_of_cons; [done|]. intros E. pose proof (Hz v Hv E). lia.
  - rewrite Hg. intros v [->|Hv]%elem_of_cons; [lia|]. intros E1 E2.
    destruct (Hf v Hv E1 E2) as [?|[?|Hin]]; [destruct Ho as [?|[?|[? _]]]; auto; lia..|]. right. right. by apply Hov.
  - intros v [->|Hv]%elem_of_cons; [done|]. intros Hvm.
    apply (merge_known_mono w); [by apply list_subseteq_cons|done|done|by apply Hmg].
Qed.

Lemma overtaken_land b n w : overtaken w ⊆ overtaken (land b n w).
Proof. simpl. case_match; [done|by apply list_subseteq_cons]. Qed.

(** A patch, from a copy of any age. *)
Lemma Inv_patch w c n :
  Inv w → c ∈ versions w → keeps c n ∨ (confirmed (heard w) (pr_Spec c) ∧ pr_ObservedGeneration n = pr_Generation c) →
  Inv (land c n w).
Proof.
  intros Hi Hc Hk. pose proof Hi as [Hst Hgen Hspec Hobs Hz Hf Hmg]. pose proof (Hgen _ Hst). pose proof (Hobs _ Hst).
  pose proof (Hgen _ Hc). pose proof (Hobs _ Hc).
  assert (pr_ObservedGeneration n = pr_ObservedGeneration c ∨ pr_ObservedGeneration n = pr_Generation c) as Hon
    by (destruct Hk as [(_ & _ & ?)|[_ ?]]; auto).
  assert (pr_Generation c = pr_Generation (stored w) ∨ pr_Generation (stored w) ∈ overtaken (land c n w)) as Hage.
  { simpl. destruct (Z.eqb_spec (pr_Generation c) (pr_Generation (stored w))); [by left|right; by left]. }
  apply Inv_store; [done|exact (overtaken_land c n w)|done|done|..]; simpl; unfold diff.
  { case_decide; [by left|right]. destruct Hage; [left; lia|right]. split; [done|lia]. }
  intros Hm. unfold merge_known. destruct Hk as [(Hd & Em & Ho)|[Hconf Ho]].
  - simpl in Hm. rewrite decide_True in Hm by done. destruct (Hmg _ Hst Hm) as (Hnz & (u & Hu & Hgu & Hcu) & Hconf).
    split_and!; simpl; unfold diff; [case_decide; lia|exists u; split_and!; [by right|done|done]|].
    intros Hno Eo. apply Hconf; [by intros ?%(overtaken_land c n w)|]. destruct Hage as [Hg|?]; [|done].
    revert Eo. case_decide as Ed; [done|]. intros _.
    assert (pr_ObservedGeneration c = 0) as Hc0.
    { unfold DescribesSpec in Hd. apply orb_true_iff in Hd as [Hd|Hd]; apply Z.eqb_eq in Hd; lia. }
    destruct (Hf c Hc Hg Hc0) as [?|[?|?%(overtaken_land c n w)]]; [lia|lia|done].
  - clear Hm. split_and!; simpl; unfold diff.
    + case_decide; [|lia]. apply (Hz c Hc). lia.
    + exists c. split_and!; [by right|lia|done].
    + intros Hno _. destruct Hage as [Hg|?]; [|done]. by rewrite <- (Hspec c Hc Hg).
Qed.

Lemma Inv_respec w x : Inv w → Inv (store (respec x (stored w)) w).
Proof.
  intros [Hst Hgen Hspec Hobs Hz Hf Hmg]. pose proof (Hgen _ Hst). pose proof (Hobs _ Hst). split; simpl.
  - by left.
  - intros v [->|Hv]%elem_of_cons; simpl; [lia|]. pose proof (Hgen v Hv). lia.
  - intros v [->|Hv]%elem_of_cons; [done|]. pose proof (Hgen v Hv). lia.
  - intros v [->|Hv]%elem_of_cons; simpl; [lia|by apply Hobs].
  - intros v [->|Hv]%elem_of_cons; [done|by apply Hz].
  - intros v [->|Hv]%elem_of_cons; simpl; [lia|]. pose proof (Hgen v Hv). lia.
  - intros v Hv Hm. apply (merge_known_mono w); [by apply list_subseteq_cons|done|done|].
    apply elem_of_cons in Hv as [->|Hv]; [|by apply Hmg]. destruct (Hmg _ Hst Hm) as (? & (u & ? & ? & ?) & _).
    split_and!; simpl in *; [done|exists u; split_and!; [done|lia|done]|lia].
Qed.

Lemma Inv_hear_answer answer asked w : Inv w → Inv (hear_answer answer asked w).
Proof. intros H. unfold hear_answer. repeat case_match; by try apply Inv_hear. Qed.

Lemma hear_answer_stored answer asked w :
  stored (hear_answer answer asked w) = stored w ∧ versions (hear_answer answer asked w) = versions w.
Proof. unfold hear_answer. by repeat case_match. Qed.

(** A patch of the webhook: the merge it records was confirmed. *)
Lemma webhook_patch matches answer now ev items asked acts c n w :
  markPRStatusMerged SameRepo matches answer now ev items = (asked, acts) → PatchStatus c n ∈ acts →
  confirmed (heard (hear_answer answer asked w)) (pr_Spec c) ∧ pr_ObservedGeneration n = pr_Generation c ∧ pr_Merged n = true.
Proof.
  unfold markPRStatusMerged. destruct (_ || _); [by intros [= <- <-] ?%elem_of_nil|].
  destruct (List.filter _ items) as [|p l] eqn:El; [by intros [= <- <-] ?%elem_of_nil|]. intros [= <- <-].
  unfold mergeConfirmed, hear_answer. destruct (answer p) as [[[] ?]|]; cbn [negb]; [|by intros ?%elem_of_nil..]. intros Hin.
  assert (∀ q, q ∈ p :: l → marks SameRepo matches ev q = true) as Hmk.
  { intros q Hq. rewrite <- El in Hq. apply list_elem_of_In, filter_In in Hq. tauto. }
  change (PatchStatus c n ∈ (λ q, PatchStatus q (marked now q)) <$> (p :: l)) in Hin.
  apply list_elem_of_fmap in Hin as (q & [= -> ->] & Hq).
  pose proof (Hmk p (list_elem_of_here _ _)) as Hp. apply Hmk in Hq. unfold marks in Hp, Hq. bools.
  split_and!.
  - exists (pr_Spec p). split; [by left|]. split; [lia|]. right. by exists (ev_RepoFullName ev).
  - unfold marked. destruct (DescribesSpec q); simpl; [|done]. by destruct (pr_Merged q).
  - unfold marked. destruct (DescribesSpec q); simpl in *; [|done]. destruct (pr_Merged q) eqn:E; simpl; [by rewrite E|done].
Qed.

Lemma foldl_exec_acts w c k acts :
  acts_of c acts → Inv w → c ∈ versions w →
  Inv (foldl (exec c) w (take k acts)).
Proof.
  intros Ha Hi Hc. destruct Ha as [Hd| |n Hk|m o l l' Hd Hm Hl Hl'].
  - destruct k; [done|]. cbn [take]. rewrite take_nil. simpl. case_decide as E; [|done]. apply Inv_store; try done; simpl; rewrite E; auto.
  - by rewrite take_nil.
  - destruct k; [done|]. cbn [take]. rewrite take_nil. simpl. apply Inv_patch; auto.
  - set (w1 := exec c w (Answered m o)).
    assert (Inv w1 ∧ versions w1 = versions w ∧ stored w1 = stored w ∧ (m = true → confirmed (heard w1) (pr_Spec c))) as (Hi1 & Ev & Es & Hm1).
    { subst w1. simpl. destruct m; [|by split_and!]. split_and!; try done; [by apply Inv_hear|]. intros _.
      exists (pr_Spec c). split; [by left|]. split; [done|by left]. }
    destruct k; [done|]. cbn [take foldl]. fold w1. rewrite take_app, foldl_app.
    assert (Inv (foldl (exec c) w1 (take k l))) as Hl1.
    { destruct Hl as [->|(n & -> & En & Eo)]; [by rewrite take_nil|]. destruct k; [done|]. cbn [take]. rewrite take_nil. simpl.
      apply Inv_patch; [done|by rewrite Ev|]. destruct m; [right; auto|left].
      split_and!; [done|by rewrite En|by right]. }
    destruct Hl' as [->| ->]; [by rewrite take_nil|]. destruct (k - length l)%nat; cbn [take]; by rewrite ?take_nil.
Qed.

Lemma reachable_inv w : reachable w → Inv w.
Proof.
  induction 1 as [p Hp E|w w' _ IH Hw].
  - assert (pr_ObservedGeneration p = 0 ∧ pr_Merged p = false) as [E1 E2] by (rewrite E; done).
    split; simpl; try by left. all: intros v ->%list_elem_of_singleton; try lia; try done. congruence.
  - destruct Hw as [w c i k Hc|w c mt an now ev items asked acts n Hc Hm Hin|w x|w v].
    + by apply foldl_exec_acts; [apply reconcile_acts|..].
    + destruct (webhook_patch _ _ _ _ _ _ _ _ _ w Hm Hin) as (Hcf & Ho & _). destruct (hear_answer_stored an asked w) as [Es Ev].
      apply Inv_patch; [by apply Inv_hear_answer|by rewrite Ev|by right].
    + by apply Inv_respec.
    + pose proof IH as [Hst _ _ _ _ _ Hmg]. apply Inv_store; try done; simpl; [by left|]. intros Hm.
      by apply (merge_known_mono w); [by apply list_subseteq_cons|done|done|apply (Hmg _ Hst Hm)].
Qed.

(** *** A merge is recorded only when the code host said so, and stays recorded *)

(** The status says that the pull request its spec names is merged. *)
Definition says_merged (p : PRStatus) : Prop := DescribesSpec p = true ∧ pr_Merged p = true.

Lemma says_merged_known w v : reachable w → v ∈ versions w → says_merged v →
  (∃ u, u ∈ versions w ∧ pr_Generation u ≤ pr_Generation v ∧ confirmed (heard w) (pr_Spec u)) ∧
  (pr_Generation v ∉ overtaken w → confirmed (heard w) (pr_Spec v)).
Proof.
  intros Hr%reachable_inv Hv [Hd Hm]. destruct (inv_merged _ Hr v Hv Hm) as (Hnz & Hu & Hc). split; [done|].
  intros Hn. apply Hc; [done|]. unfold DescribesSpec in Hd. apply orb_true_iff in Hd as [Hd|Hd]; apply Z.eqb_eq in Hd; lia.
Qed.

Lemma merge_patch_sticks w c n :
  Inv w → c ∈ versions w → pr_Generation c = pr_Generation (stored w) → says_merged (stored w) →
  pr_Merged n = pr_Merged c ∨ pr_Merged n = true →
  pr_ObservedGeneration n = pr_ObservedGeneration c ∨ pr_ObservedGeneration n = pr_Generation c →
  says_merged (merge_patch c n (stored w)).
Proof.
  intros Hi Hc Hg [Hd Hm] Hn Ho. unfold says_merged, DescribesSpec, merge_patch, diff in *. simpl. rewrite Hm. split.
  - case_decide; [done|]. apply orb_true_iff. right. apply Z.eqb_eq. lia.
  - case_decide; [done|]. destruct Hn; congruence.
Qed.

Lemma acts_stick w c k acts :
  acts_of c acts → Inv w → c ∈ versions w → pr_Generation c = pr_Generation (stored w) → says_merged (stored w) →
  says_merged (stored (foldl (exec c) w (take k acts))).
Proof.
  intros Ha Hi Hc Hg Hs. destruct Ha as [Hd| |n (Hd & Hm & Ho)|m o l l' Hd Hm Hl Hl'].
  - destruct k; [done|]. cbn [take]. rewrite take_nil. simpl. case_decide as E; [|done]. destruct Hs as [Hs _]. congruence.
  - by rewrite take_nil.
  - destruct k; [done|]. cbn [take]. rewrite take_nil. simpl. apply merge_patch_sticks; auto.
  - destruct k; [done|]. cbn [take foldl]. rewrite take_app, foldl_app.
    assert (stored (exec c w (Answered m o)) = stored w) as Es by (by destruct m).
    assert (says_merged (stored (foldl (exec c) (exec c w (Answered m o)) (take k l)))) as Hl1.
    { destruct Hl as [->|(n & -> & En & Eo)]; [rewrite take_nil; cbn [foldl]; by rewrite Es|].
      destruct k; [cbn [take foldl]; by rewrite Es|]. cbn [take]. rewrite take_nil. cbn [foldl]. change (says_merged (merge_patch c n (stored (exec c w (Answered m o))))). rewrite Es.
      apply merge_patch_sticks; auto. destruct m; [by right|left; congruence]. }
    destruct Hl' as [->| ->]; [by rewrite take_nil|]. destruct (k - length l)%nat; cbn [take]; by rewrite ?take_nil.
Qed.

(** A writer with a copy of another generation changes nothing, or its patch is counted. *)
Lemma acts_overtake w c k acts :
  acts_of c acts → pr_Generation c ≠ pr_Generation (stored w) →
  let w' := foldl (exec c) w (take k acts) in
  stored w' = stored w ∨ pr_Generation (stored w) ∈ overtaken w'.
Proof.
  intros Ha Hg. assert (∀ u n, stored u = stored w → pr_Generation (stored w) ∈ overtaken (land c n u)) as Hl.
  { intros u n Eu. simpl. rewrite Eu, (proj2 (Z.eqb_neq _ _) Hg). by left. }
  destruct Ha as [Hd| |n (Hd & Hm & Ho)|m o l l' Hd Hm Hls Hl'].
  - left. destruct k; [done|]. cbn [take]. rewrite take_nil. simpl. case_decide as E; [|done]. by rewrite E in Hg.
  - left. by rewrite take_nil.
  - destruct k; [by left|]. cbn [take]. rewrite take_nil. right. by apply Hl.
  - destruct k; [by left|]. cbn [take foldl]. rewrite take_app, foldl_app.
    assert (∀ u j, foldl (exec c) u (take j l') = u) as El'.
    { intros u j. destruct Hl' as [->| ->]; destruct j; cbn [take]; by rewrite ?take_nil. }
    rewrite El'. assert (stored (exec c w (Answered m o)) = stored w) as Es by (by destruct m).
    destruct Hls as [->|(n & -> & _)]; [left; by rewrite take_nil|].
    destruct k; [by left|]. cbn [take]. rewrite take_nil. right. by apply Hl.
Qed.

Lemma wstep_sticks w w' :
  Inv w → wstep w w' → says_merged (stored w) → pr_Generation (stored w') = pr_Generation (stored w) →
  pr_Generation (stored w) ∉ overtaken w' → says_merged (stored w').
Proof.
  intros Hi Hw. destruct Hw as [w c i k Hc|w c mt an now ev items asked acts n Hc Hm Hin|w x|w v]; intros Hs; [| | |done].
  - intros _ Hn. destruct (decide (pr_Generation c = pr_Generation (stored w))) as [Hg|Hg].
    + by apply acts_stick; [apply reconcile_acts|..].
    + by destruct (acts_overtake w c k _ (reconcile_acts i c) Hg) as [->|?].
  - intros _. destruct (webhook_patch _ _ _ _ _ _ _ _ _ w Hm Hin) as (_ & Ho & Hmg).
    destruct (hear_answer_stored an asked w) as [Es Ev]. simpl. rewrite Es.
    destruct (Z.eqb_spec (pr_Generation c) (pr_Generation (stored w))) as [Hg|Hg]; intros Hn.
    + apply merge_patch_sticks; auto.
    + destruct Hn. by left.
  - simpl. lia.
Qed.

(** C28. A PRStatus says merged only when the code host said so.  Whatever the
    interleaving of polls, webhook events, changes of the spec and crashes, and however
    old the copies of the object they work on, a version that says its pull request is
    merged was preceded by an answer of the code host that confirms the merge of a pull
    request this object has named, of this spec or of an earlier one.  It is the one the
    version itself names, unless a patch from a copy of an older spec landed on its
    generation: status patches carry no resource version, and
    [overtaken_patch_says_merged] is a run in which such a patch reports a merge of a
    pull request nobody confirmed.  Likewise a recorded merge stays recorded, step after
    step, until the spec names another pull request or such a patch lands. *)
Theorem merge_recorded w :
  reachable w →
  (∀ v, v ∈ versions w → says_merged v →
     (∃ u, u ∈ versions w ∧ pr_Generation u ≤ pr_Generation v ∧ confirmed (heard w) (pr_Spec u)) ∧
     (pr_Generation v ∉ overtaken w → confirmed (heard w) (pr_Spec v))) ∧
  (∀ w', wstep w w' → says_merged (stored w) → pr_Generation (stored w') = pr_Generation (stored w) →
     pr_Generation (stored w) ∉ overtaken w' → says_merged (stored w')).
Proof.
  intros Hr. split; [intros v; by apply says_merged_known|]. intros w' Hw. by apply wstep_sticks; [apply reachable_inv|].
Qed.
End world.

(** ** With the promotion step *)

Section step.
Variable SameRepo : string → string → bool.
Variable ParseDuration : string → option Duration.
Variable ParsePRURL : string → option (string * Z).
Variable RepoFromURL : string → option string.
Variable hash : string → string.

(** A step goes on past its pull request only when the code host said it is
    merged: if a step in WaitingForMerge moves to its health check, with whatever
    version of its PRStatus it read, that PRStatus names the pull request of the
    step's outputs, and the code host confirmed the merge of that pull request unless a
    patch from a copy of an older spec landed on this one. *)
Theorem advance_needs_merge cx sp ref rd host m wait w p s q :
  reachable SameRepo w → m_prstatus m = Got p → p ∈ versions w → State_ s = StepStatus.StepStatus.StateWaitingForMerge →
  Patch q ∈ effects (handleWaitingForMerge ParseDuration ParsePRURL RepoFromURL hash cx sp ref rd host m wait s) →
  State_ q = StepStatus.StepStatus.StateHealthChecking →
  prStatusOfStepPR ParsePRURL RepoFromURL p (Outputs_ s) = true ∧
  (pr_Generation p ∉ overtaken w → confirmed SameRepo (heard w) (pr_Spec p)).
Proof.
  intros Hr Hm Hp Hs Hq Eq.
  assert (stepPRMerged ParsePRURL RepoFromURL ref m s = true) as Hmg.
  { pose proof (handleWaitingForMerge_moves ParseDuration ParsePRURL RepoFromURL hash cx sp ref rd host m wait s q Hq) as Hmv.
    destruct (stepPRMerged _ _ _ _ _); [done|]. rewrite Hs, Eq in Hmv. destruct Hmv as [?|Hin]; [done|].
    by apply list_elem_of_singleton in Hin. }
  apply stepPRMerged_spec in Hmg as (_ & p' & Hp' & Ho & Hmm). rewrite Hm in Hp'. injection Hp' as <-.
  split; [done|]. apply says_merged_known; [done..|]. split; [|done].
  unfold prStatusOfStepPR in Ho. by apply andb_true_iff in Ho as [_ ?].
Qed.
End step.

(** ** One writer at a time

    The status a reconcile leaves when no other writer comes between. *)
Definition apply_acts (p : PRStatus) (acts : list action) : PRStatus :=
  foldl (λ p a, match a with PatchStatus _ n | PatchLocked _ n => n | _ => p end) p acts.

Definition next (i : PollInputs) (p : PRStatus) : PRStatus := apply_acts p (reconcile i p).1.

(** The answer of the code host a reconcile got, with its time. *)
Definition answer_of (i : PollInputs) (p : PRStatus) : list (Time * bool * bool) :=
  List.flat_map (λ a, match a with Answered m o => [(in_now i, m, o)] | _ => [] end) (reconcile i p).1.

(** The life of a PRStatus with the answers about its pull request, oldest first. *)
Inductive watched : list (Time * bool * bool) → PRStatus → Prop :=
  | watched_placeholder p : p = cleared 0 p → watched [] p
  | watched_poll l p i : watched l p → watched (l ++ answer_of i p) (next i p)
  | watched_webhook l p now : watched l p → watched l (marked now p)
  | watched_respec l p x : watched l p → watched l (respec x p)
  | watched_annotate l p v : watched l p → watched l (annotate v p).

Definition closed_answer (a : Time * bool * bool) : Prop := a.1.2 = false ∧ a.2 = false.

(** Closed at [t] and at every answer since. *)
Definition closed_since (t : Time) (l : list (Time * bool * bool)) : Prop :=
  ∃ before since, l = before ++ (t, false, false) :: since ∧ Forall closed_answer since.

(** Seen closed, and never otherwise until it was still closed a grace period later. *)
Definition closed_for_good (l : list (Time * bool * bool)) : Prop :=
  ∃ before t since t' after, l = before ++ (t, false, false) :: since ++ (t', false, false) :: after ∧
    Forall closed_answer since ∧ t + ClosedGracePeriod ≤ t'.

Lemma closed_for_good_app l l' : closed_for_good l → closed_for_good (l ++ l').
Proof.
  intros (b & t & s & t' & a & -> & H). exists b, t, s, t', (a ++ l'). split; [|done].
  by rewrite <- !app_assoc; simpl; rewrite <- app_assoc.
Qed.

(** What a reconcile does to the fields about closing. *)
Definition closing (l : list (Time * bool * bool)) (p : PRStatus) : Prop :=
  (pr_ClosedFinal p = true → closed_for_good l) ∧
  (∀ t, pr_ClosedAt p = Some t → closed_for_good l ∨ closed_since t l) ∧
  (pr_Merged p = false → is_Some (pr_LastCheckedAt p) → pr_Open p = false → is_Some (pr_ClosedAt p)).

(** The fields about closing and merging of a status that is not from a poll. *)
Definition same_closing (p n : PRStatus) : Prop :=
  pr_ClosedFinal n = pr_ClosedFinal p ∧ pr_ClosedAt n = pr_ClosedAt p ∧ pr_LastCheckedAt n = pr_LastCheckedAt p ∧
  pr_Open n = pr_Open p ∧ pr_Merged n = pr_Merged p.

Lemma closing_same l p n : same_closing p n → closing l p → closing l n.
Proof. intros (H1 & H2 & H3 & H4 & H5). unfold closing. by rewrite H1, H2, H3, H4, H5. Qed.

Lemma closing_cleared l o p : closing l (cleared o p).
Proof. split_and!; [done|done|]. by intros _ [? [=]]. Qed.

Lemma answer_of_none i p : (∀ m o, Answered m o ∉ (reconcile i p).1) → answer_of i p = [].
Proof.
  unfold answer_of. induction (reconcile i p).1 as [|a l IH]; [done|]. intros H. simpl.
  rewrite IH by (intros m o Hin; by apply (H m o), list_elem_of_further).
  destruct a; try done. destruct (H merged open). by left.
Qed.

(** Whatever the poll writes, the status then says what the code host answered. *)
Lemma record_poll_next i m o p :
  let n := apply_acts p (record_poll i m o p).1 in
  pr_Merged n = m ∧ pr_Open n = o ∧ pr_ClosedAt n = (closedState p m o (in_now i)).1 ∧
  pr_ClosedFinal n = (closedState p m o (in_now i)).2 ∧ is_Some (pr_LastCheckedAt n).
Proof.
  unfold record_poll.
  do 4 match goal with |- context [let '(_, _) := ?x in _] => destruct x end.
  cbn [fst]. destruct (_ || match pr_LastCheckedAt p with _ => _ end) eqn:Ec.
  - destruct (_ && negb (ClosedByKardinal p)); simpl; split_and!; first [done | by eexists].
  - assert (∀ l : list action, l = [] ∨ l = [CommentStopped] → apply_acts p ([] ++ l) = p) as Ha by (by intros l [->| ->]).
    rewrite Ha by (destruct (_ && negb (ClosedByKardinal p)); auto). apply orb_false_iff in Ec as [Ec El].
    repeat match type of Ec with _ || _ = false => let H := fresh in apply orb_false_iff in Ec as [Ec H] end.
    bools. repeat match goal with H : Bool.eqb _ _ = true |- _ => apply Bool.eqb_prop in H end.
    destruct (pr_LastCheckedAt p); [|done]. split_and!; first [done | by eexists].
Qed.

Lemma quiet_next i p acts :
  (reconcile i p).1 = acts → acts = [] ∨ (∃ n, acts = [PatchStatus p n] ∧ same_closing p n) →
  answer_of i p = [] ∧ same_closing p (next i p).
Proof.
  unfold next. intros E Ha. split.
  - apply answer_of_none. rewrite E. intros m o Hin. destruct Ha as [->|(n & -> & _)]; [by apply elem_of_nil in Hin|].
    by apply list_elem_of_singleton in Hin.
  - rewrite E. destruct Ha as [->|(n & -> & H)]; done.
Qed.

Lemma adopt_quiet p : adoptLegacyStatus p = [] ∨ (∃ n, adoptLegacyStatus p = [PatchStatus p n] ∧ same_closing p n).
Proof. unfold adoptLegacyStatus. case_match; [by left|right]. by eexists. Qed.

Lemma recordPollError_quiet e p :
  (recordPollError e p).1 = [] ∨ (∃ n, (recordPollError e p).1 = [PatchStatus p n] ∧ same_closing p n).
Proof. unfold recordPollError. simpl. case_match; [right|by left]. by eexists. Qed.

Lemma recordMergeCommit_quiet i p :
  (recordMergeCommit i p).1 = [] ∨ (∃ n, (recordMergeCommit i p).1 = [PatchStatus p n] ∧ same_closing p n).
Proof.
  unfold recordMergeCommit. destruct (negb (needSHA p) && _); [apply adopt_quiet|].
  do 2 match goal with |- context [let '(_, _) := ?x in _] => destruct x end.
  destruct (_ || _); [destruct (_ && _)|]; simpl; [right|by left|right]; by eexists.
Qed.

(** A reconcile clears the status of another pull request, leaves what the status
    says about this one, or records the answer of the code host. *)
Lemma reconcile_next i p :
  (answer_of i p = [] ∧ (next i p = cleared (pr_Generation p) p ∨ same_closing p (next i p))) ∨
  (∃ m o, answer_of i p = [(in_now i, m, o)] ∧ pr_Merged p = false ∧ IsClosedFinal p = false ∧
     (reconcile i p).2 = (record_poll i m o p).2 ∧ next i p = apply_acts p (record_poll i m o p).1).
Proof.
  assert (∀ acts, (reconcile i p).1 = acts → acts = [] ∨ (∃ n, acts = [PatchStatus p n] ∧ same_closing p n) →
    answer_of i p = [] ∧ (next i p = cleared (pr_Generation p) p ∨ same_closing p (next i p))) as Hq.
  { intros acts E Ha. destruct (quiet_next i p acts E Ha). auto. }
  destruct (DescribesSpec p) eqn:Hd.
  2: { left. unfold answer_of, next, reconcile. rewrite Hd. split; [done|by left]. }
  unfold reconcile in *. rewrite Hd in *. cbn [negb] in *.
  destruct (pr_Merged p) eqn:Hm; [left; apply (Hq _ eq_refl), recordMergeCommit_quiet|].
  destruct (IsClosedFinal p) eqn:Hf; [left; apply (Hq _ eq_refl), adopt_quiet|].
  destruct (_ =? 0) eqn:Hn; [left; apply (Hq _ eq_refl); by left|].
  destruct (in_provider i) eqn:Hp; try (left; apply (Hq _ eq_refl); by left); [|left; apply (Hq _ eq_refl), recordPollError_quiet].
  destruct (throttled i p) eqn:Ht; [left; apply (Hq _ eq_refl); by left|].
  destruct (in_answer i) as [e|t| |m o] eqn:Ha; try (left; apply (Hq _ eq_refl); by left);
    [left; apply (Hq _ eq_refl), recordPollError_quiet|].
  right. exists m, o. unfold answer_of, next, reconcile. rewrite Hd, Hm, Hf, Hn, Hp, Ht, Ha. cbn [negb].
  pose proof (record_poll_acts i m o p Hd Hm) as Hacts. destruct (record_poll i m o p) as [acts res] eqn:E. simpl.
  split_and!; try done. f_equal. inversion Hacts as [| | |? ? l l' _ _ Hl Hl' Heq]. subst.
  destruct Hl as [->|(? & -> & _)], Hl' as [->| ->]; done.
Qed.

Lemma closing_poll l i m o p :
  IsClosedFinal p = false → pr_Merged p = false → closing l p →
  closing (l ++ [(in_now i, m, o)]) (apply_acts p (record_poll i m o p).1).
Proof.
  intros Hf Hm (_ & Ha & _). destruct (record_poll_next i m o p) as (E1 & E2 & E3 & E4 & _).
  unfold closing. rewrite E1, E2, E3, E4. unfold closedState. destruct (m || o) eqn:Hmo.
  { simpl. split_and!; [done|done|]. intros -> _ ->. done. }
  apply orb_false_iff in Hmo as [-> ->]. destruct (pr_ClosedAt p) as [t|] eqn:Et; simpl.
  - destruct (Ha t eq_refl) as [Hg|(b & s & -> & Hs)].
    { split_and!; [intros _; by apply closed_for_good_app|intros t' _; left; by apply closed_for_good_app|by eexists]. }
    split_and!; [|intros t' [= <-]|by eexists].
    + intros Hge%negb_true_iff%Z.ltb_ge. exists b, t, s, (in_now i), []. split; [by rewrite <- app_assoc|done].
    + right. exists b, (s ++ [(in_now i, false, false)]). split; [by rewrite <- app_assoc|].
      apply Forall_app. split; [done|]. by repeat constructor.
  - split_and!; [done|intros t [= <-]; right; by exists l, []|by eexists].
Qed.

Lemma closing_marked l now p : closing l p → closing l (marked now p).
Proof.
  intros (Hf & Ha & Hm). unfold marked. destruct (DescribesSpec p); simpl.
  - destruct (pr_Merged p) eqn:E; [split_and!; simpl; [done|done|congruence]|]. by split_and!.
  - by split_and!.
Qed.

Lemma watched_closing l p : watched l p → closing l p.
Proof.
  induction 1 as [p ->|l p i _ IH|l p now _ IH|l p x _ IH|l p v _ IH].
  - apply closing_cleared.
  - destruct (reconcile_next i p) as [[-> Hn]|(m & o & -> & Hm & Hf & _ & ->)]; [|by apply closing_poll].
    rewrite app_nil_r. destruct Hn as [->|Hs]; [apply closing_cleared|by apply (closing_same l p)].
  - by apply closing_marked.
  - by apply (closing_same l p).
  - by apply (closing_same l p).
Qed.

(** A promotion is given up because its pull request is closed only after the
    grace period: the code host had said that it is closed, and said nothing else
    until it was still closed five minutes later, at the least.  A reopening in
    between starts the period again. *)
Theorem closed_after_grace l p : watched l p → IsClosedFinal p = true → closed_for_good l.
Proof.
  intros (Hf & Ha & Hm)%watched_closing. unfold IsClosedFinal, IsClosed.
  destruct (pr_Merged p) eqn:Em; [done|]. intros [Hc|Hc]%orb_true_iff; [by apply Hf|]. bools.
  destruct (Hm eq_refl) as [? ?]; [done|done|congruence].
Qed.

(** ** What is known of a merge *)

(** Nothing is asked any more: the merge commit is known or given up, and so is the
    merger of a merge whose way is recorded. *)
Definition settled (p : PRStatus) : Prop := needSHA p = false ∧ needMerger p = false.

Fixpoint run (l : list PollInputs) (p : PRStatus) : PRStatus :=
  match l with [] => p | i :: l => run l (next i p) end.

Lemma settled_facts sha by_ p : settled (with_merge_facts sha by_ p).
Proof.
  unfold settled, needSHA, needMerger. simpl. split; [by destruct (bool_decide (sha = ""))|].
  by destruct (bool_decide (by_ = "")), (bool_decide (pr_MergedVia p = "")).
Qed.

Lemma window_open c t : (mergeCommitWindow <? sub_time c t) = false → c ≤ t + mergeCommitWindow.
Proof. intros H%Z.ltb_ge. unfold sub_time, mergeCommitWindow, Pending.Pending.minute, second in *. lia. Qed.

Lemma recordMergeCommit_next i p t :
  pr_LastCheckedAt p = Some t →
  let n := apply_acts p (recordMergeCommit i p).1 in
  (settled n ∧ (recordMergeCommit i p).2 = Stop) ∨
  ((recordMergeCommit i p).2 = RequeueAfter requeuePollInterval ∧ in_clock i ≤ t + mergeCommitWindow ∧ ¬ settled p).
Proof.
  intros Ht. unfold recordMergeCommit. rewrite Ht.
  destruct (negb (needSHA p) && negb (needMerger p)) eqn:En.
  { left. bools. split; [|done]. unfold adoptLegacyStatus. by case_match. }
  destruct (mergeCommitWindow <? sub_time (in_clock i) t) eqn:Hl; cbn [negb andb].
  { left. split; [apply settled_facts|done]. }
  do 2 match goal with |- context [let '(_, _) := ?x in _] => destruct x end.
  destruct (_ || _); [right|left; split; [apply settled_facts|done]].
  split_and!; [done|by apply window_open|]. intros [E1 E2]. by rewrite E1, E2 in En.
Qed.

Lemma reconcile_merged i p : says_merged p → reconcile i p = recordMergeCommit i p.
Proof. intros [Hd Hm]. unfold reconcile. by rewrite Hd, Hm. Qed.

Lemma recordMergeCommit_gen i p n : (recordMergeCommit i p).1 = [PatchStatus p n] → pr_Generation n = pr_Generation p.
Proof.
  unfold recordMergeCommit, adoptLegacyStatus.
  destruct (negb (needSHA p) && _); [destruct (_ =? _); simpl; first [by intros [= <-] | by intros [=]]|].
  do 2 match goal with |- context [let '(_, _) := ?x in _] => destruct x end.
  destruct (_ || _); [destruct (_ && _)|]; simpl; first [by intros [= <-] | by intros [=]].
Qed.

(** A merged status stays one, with the time of its merge. *)
Lemma next_merged i p : says_merged p → says_merged (next i p) ∧ pr_LastCheckedAt (next i p) = pr_LastCheckedAt p.
Proof.
  intros H. pose proof H as [Hd Hm]. unfold next. rewrite reconcile_merged by done.
  pose proof (recordMergeCommit_acts i p Hd) as Ha. destruct (recordMergeCommit_quiet i p) as [E|(n & E & _ & _ & Hl & _ & En)].
  { by rewrite E. }
  rewrite E in *. simpl. split; [|done]. inversion Ha as [| |? (_ & _ & Ho) En'|]. subst.
  split; [|congruence]. unfold DescribesSpec in *.
  rewrite (recordMergeCommit_gen i p n E).
  destruct Ho as [-> | ->]; [done|]. by rewrite Z.eqb_refl, orb_true_r.
Qed.

Lemma settled_next i p : says_merged p → settled p → settled (next i p).
Proof.
  intros H [E1 E2]. unfold next. rewrite reconcile_merged by done. unfold recordMergeCommit. rewrite E1, E2. simpl.
  unfold adoptLegacyStatus. by case_match.
Qed.

Lemma settled_run l p : says_merged p → settled p → settled (run l p).
Proof.
  revert p. induction l as [|i l IH]; [done|]. intros p Hp Hs. simpl. apply IH; [by apply next_merged|by apply settled_next].
Qed.

Lemma run_merged l p : says_merged p → says_merged (run l p) ∧ pr_LastCheckedAt (run l p) = pr_LastCheckedAt p.
Proof.
  revert p. induction l as [|i l IH]; [done|]. intros p Hp. simpl. destruct (next_merged i p Hp) as [H1 H2].
  rewrite <- H2. by apply IH.
Qed.

(** What is known of a merge is decided within the merge-commit window.  From a
    recorded merge on, every reconcile either asks to be called again in thirty
    seconds or leaves the merge commit and the merger decided (known, or recorded as
    unavailable) and stops; and a reconcile more than five minutes after the merge
    always decides them, so the step does not wait for the merger any longer. *)
Theorem merge_facts_settle p t :
  says_merged p → pr_LastCheckedAt p = Some t →
  (∀ l i, (reconcile i (run l p)).2 = RequeueAfter requeuePollInterval ∨
     ((reconcile i (run l p)).2 = Stop ∧ settled (next i (run l p)))) ∧
  (∀ l i l', t + mergeCommitWindow < in_clock i →
     settled (run (l ++ i :: l') p) ∧ mergerPending (run (l ++ i :: l') p) = false).
Proof.
  intros Hp Ht. split; intros l i.
  - destruct (run_merged l p Hp) as [Hl Hlt]. rewrite Ht in Hlt. unfold next. rewrite reconcile_merged by done.
    destruct (recordMergeCommit_next i _ t Hlt) as [[? ?]|[? _]]; auto.
  - intros l' Hi. assert (settled (run (l ++ i :: l') p)) as Hs; [|split; [done|apply Hs]].
    revert p Hp Ht. induction l as [|j l IH]; intros p Hp Ht; simpl.
    + apply settled_run; [by apply next_merged|]. unfold next. rewrite reconcile_merged by done.
      destruct (recordMergeCommit_next i _ t Ht) as [[? _]|(_ & ? & _)]; [done|lia].
    + destruct (next_merged j p Hp) as [H1 H2]. apply IH; [done|]. by rewrite H2.
Qed.

(** ** A pull request is followed until it is decided *)

(** A poll that found the merge and needs no retry decides it. *)
Lemma record_poll_settled i o p :
  pr_Merged p = false → (record_poll i true o p).2 = Stop → settled (apply_acts p (record_poll i true o p).1).
Proof.
  intros Hm. unfold record_poll. rewrite Hm. cbn [andb negb Bool.eqb orb].
  match goal with |- context [let '(_, _) := ?x in _] => destruct x as [ap ct] end.
  destruct (if needSHA p then _ else _) as [sha retry] eqn:Es.
  set (via := if bool_decide (pr_MergedVia p = "") then PRMergedViaPoll else pr_MergedVia p).
  assert (∀ gone by_ byGone t, (gone = if needSHA p then bool_decide (sha = "") && negb false else pr_MergeCommitUnavailable p) →
    retry = false → bool_decide (by_ = "") && negb byGone = false →
    settled (polled p true o ap ct sha gone by_ byGone via None false t)) as Hset.
  { intros gone by_ byGone t Hgone -> Hb. split; [|unfold needMerger; simpl; by rewrite <- andb_assoc, Hb, andb_false_r].
    destruct (needSHA p) eqn:En; unfold needSHA in *; simpl; subst gone; [by destruct (bool_decide (sha = ""))|].
    by injection Es as <-. }
  unfold closedState. cbn [orb andb].
  destruct (bool_decide (pr_MergedBy p = "") && negb (pr_MergedByUnavailable p)) eqn:Ea.
  - destruct (fetchMerger (in_merger i) p) as [by_ retryM]. destruct retry, retryM; cbn [orb snd]; try done.
    intros _. apply Hset; [done..|]. by destruct (bool_decide (by_ = "")).
  - destruct retry; cbn [orb snd]; try done. intros _. by apply Hset.
Qed.

Lemma record_poll_stop i m o p :
  pr_Merged p = false → (record_poll i m o p).2 = Stop →
  let n := apply_acts p (record_poll i m o p).1 in
  IsClosedFinal n = true ∨ (pr_Merged n = true ∧ settled n).
Proof.
  intros Hp Hs n. destruct (record_poll_next i m o p) as (E1 & _ & _ & E4 & _). fold n in E1, E4.
  destruct m; [right; split; [done|by apply record_poll_settled]|left].
  unfold IsClosedFinal. rewrite E1, E4. revert Hs. unfold record_poll.
  do 4 match goal with |- context [let '(_, _) := ?x in _] => destruct x as [? ?] eqn:? end.
  simpl. by destruct b2; [|destruct o].
Qed.

Lemma circuit_wait_pos t now : 0 < circuit_wait t now.
Proof.
  unfold circuit_wait. destruct (Z.ltb_spec (round_second (sub_time t now)) second);
    match goal with |- context [if ?a <? ?b then _ else _] => destruct (Z.ltb_spec a b) end;
    unfold requeuePollInterval, second in *; lia.
Qed.

Lemma record_poll_wait i m o p d : (record_poll i m o p).2 = RequeueAfter d → 0 < d.
Proof.
  unfold record_poll. do 4 match goal with |- context [let '(_, _) := ?x in _] => destruct x as [? ?] end.
  simpl. destruct m; [destruct (_ || _)|]; [intros [= <-]; done|done|].
  destruct b2; [done|]. destruct o; simpl; [intros [= <-]; done|]. intros [= <-]. unfold requeuePollInterval, second. lia.
Qed.

(** Without a poll a reconcile stops only for a status that is decided. *)
Lemma recordMergeCommit_result i p :
  ((recordMergeCommit i p).2 = Stop ∧ settled (apply_acts p (recordMergeCommit i p).1)) ∨
  (recordMergeCommit i p).2 = RequeueAfter requeuePollInterval.
Proof.
  unfold recordMergeCommit. destruct (negb (needSHA p) && negb (needMerger p)) eqn:En.
  { left. bools. split; [done|]. unfold adoptLegacyStatus. by case_match. }
  do 2 match goal with |- context [let '(_, _) := ?x in _] => destruct x end.
  destruct (_ || _); [by right|left; split; [done|apply settled_facts]].
Qed.

Lemma adopt_final p : IsClosedFinal p = true → IsClosedFinal (apply_acts p (adoptLegacyStatus p)) = true.
Proof. unfold adoptLegacyStatus. by case_match. Qed.

(** A pull request is followed until it is decided.  A reconcile of a PRStatus
    that names one is not the last before the code host said that it is merged, with
    the merge commit and the merger decided, or that it stayed closed; every wait it
    asks for is positive. *)
Theorem followed_until_decided i p :
  DescribesSpec p = true → PRNumber (pr_Spec p) ≠ 0 →
  ((reconcile i p).2 = Stop → IsClosedFinal (next i p) = true ∨ (pr_Merged (next i p) = true ∧ settled (next i p))) ∧
  (∀ d, (reconcile i p).2 = RequeueAfter d → 0 < d).
Proof.
  intros Hd Hn. destruct (pr_Merged p) eqn:Hm.
  { assert (says_merged p) as Hs by done. unfold next. rewrite reconcile_merged by done.
    destruct (recordMergeCommit_result i p) as [[-> ?]|E].
    - split; [|done]. intros _. right. split; [|done]. destruct (next_merged i p Hs) as [[_ Hx] _].
      unfold next in Hx. by rewrite reconcile_merged in Hx.
    - rewrite E. split; [done|]. by intros d [= <-]. }
  destruct (IsClosedFinal p) eqn:Hf.
  { unfold next, reconcile. rewrite Hd, Hm, Hf. cbn [negb fst snd]. split; [|done]. intros _. left. by apply adopt_final. }
  unfold next, reconcile. rewrite Hd, Hm, Hf. cbn [negb]. rewrite (proj2 (Z.eqb_neq _ _) Hn).
  destruct (in_provider i); try (split; [done|by intros d [= <-]]).
  destruct (throttled i p) as [w|] eqn:Ht.
  { split; [done|]. intros d [= <-]. unfold throttled in Ht. destruct (pr_LastCheckedAt p); [|done].
    destruct (0 <? _) eqn:E; [|done]. injection Ht as <-. by apply Z.ltb_lt. }
  destruct (in_answer i) as [e|t| |m o]; try (split; [done|by intros d [= <-]]).
  { split; [done|]. intros d [= <-]. apply circuit_wait_pos. }
  pose proof (record_poll_stop i m o p Hm) as Hs. pose proof (record_poll_wait i m o p) as Hw.
  destruct (record_poll i m o p) as [acts res]. by split.
Qed.

(** ** Examples *)

Definition demo_placeholder : PRStatus := cleared 0 (mkPR (mkPRSpec "" 0 "") 1 0 false false None None false "" "" false "" "" false false 0 "").

Definition demo_pr (n : Z) : PRStatusSpec := mkPRSpec "" n "acme/app".

(** A poll at [t] whose answers about the merge are final. *)
Definition demo_poll (t : Time) (merged open : bool) : PollInputs :=
  mkPoll t t HasProvider (PollOk merged open) None (LookupOk "abc") (LookupOk "alice").

Definition demo_same (a b : string) : bool := bool_decide (a = b).

Definition demo_open : PRStatus := respec (demo_pr 7) demo_placeholder.

Definition demo_merged_pr : PRStatus := next (demo_poll second true false) demo_open.

Definition demo_world : World := mkWorld demo_merged_pr [demo_merged_pr; demo_open; demo_placeholder] [demo_pr 7] [].

Lemma demo_reachable : reachable demo_same demo_world.
Proof.
  set (w0 := mkWorld demo_placeholder [demo_placeholder] [] []).
  set (w1 := store (respec (demo_pr 7) (stored w0)) w0).
  assert (reachable demo_same w1) as H1.
  { eapply reach_step; [apply (reach_placeholder _ demo_placeholder); reflexivity|]. apply step_respec. }
  eapply reach_step; [exact H1|].
  pose proof (step_reconcile demo_same w1 demo_open (demo_poll second true false) 3 (list_elem_of_here _ _)) as H.
  vm_compute in H. vm_compute. exact H.
Qed.

Lemma merge_recorded_witness : confirmed demo_same (heard demo_world) (demo_pr 7).
Proof.
  refine (proj2 (proj1 (merge_recorded demo_same demo_world demo_reachable) demo_merged_pr _ _) _);
    [by left|split; reflexivity|apply not_elem_of_nil].
Defined.

Definition demo_merge_reads : MergeReads :=
  mkMergeReads false "" (Got demo_merged_pr) None (Some None) None false (None, 0) 0.

Lemma advance_needs_merge_witness : confirmed demo_same (heard demo_world) (pr_Spec demo_merged_pr).
Proof.
  refine (proj2 (advance_needs_merge demo_same (λ _, None) (λ _, None) (λ _, None) (λ _, "0123abcd") (demo_cx (90 * second))
    Pending.Pending.demo_spec demo_pr_ref demo_held demo_host demo_merge_reads 0 demo_world demo_merged_pr
    (demo_status StepStatus.StepStatus.StateWaitingForMerge) _ demo_reachable eq_refl _ eq_refl _ _) _).
  - by left.
  - vm_compute. left.
  - vm_compute. reflexivity.
  - apply not_elem_of_nil.
Defined.

(** Closed at one second, still closed six minutes later. *)
Lemma closed_after_grace_witness :
  closed_for_good [(second, false, false); (361 * second, false, false)].
Proof.
  refine (closed_after_grace _ (next (demo_poll (361 * second) false false) (next (demo_poll second false false) demo_open)) _ _);
    [|vm_compute; reflexivity].
  pose proof (watched_poll _ _ (demo_poll (361 * second) false false) (watched_poll _ _ (demo_poll second false false)
    (watched_respec _ _ (demo_pr 7) (watched_placeholder demo_placeholder eq_refl)))) as H.
  vm_compute in H. vm_compute. exact H.
Defined.

(** The merge is known, and the code host does not say more for six minutes. *)
Definition demo_silent (t : Time) : PollInputs :=
  mkPoll t t HasProvider PollTransient None (LookupError false) (LookupError false).

Definition demo_unsettled : PRStatus :=
  next (mkPoll second second HasProvider (PollOk true false) None (LookupError false) (LookupError false)) demo_open.

Lemma merge_facts_settle_witness :
  needMerger demo_unsettled = true ∧ mergerPending (run [demo_silent (31 * second); demo_silent (361 * second)] demo_unsettled) = false.
Proof.
  split; [reflexivity|].
  refine (proj2 (proj2 (merge_facts_settle demo_unsettled second _ _) [demo_silent (31 * second)] (demo_silent (361 * second)) [] _)).
  - split; reflexivity.
  - reflexivity.
  - reflexivity.
Defined.

Lemma followed_until_decided_witness :
  (reconcile (demo_poll second true false) demo_open).2 = Stop ∧
  (IsClosedFinal demo_merged_pr = true ∨ (pr_Merged demo_merged_pr = true ∧ settled demo_merged_pr)).
Proof.
  split; [reflexivity|]. refine (proj1 (followed_until_decided (demo_poll second true false) demo_open _ _) _); [reflexivity|done|reflexivity].
Defined.

(** The minimum time between two polls is kept only against the last poll that was
    written: from half a minute after it on, a poll that changes nothing writes
    nothing, and the next event polls again at once. *)
Theorem polls_not_spaced :
  let p := next (demo_poll 0 false true) demo_open in
  let i := demo_poll (40 * second) false true in
  let i' := demo_poll (40 * second + 1) false true in
  length (answer_of i p) = 1%nat ∧ next i p = p ∧ length (answer_of i' (next i p)) = 1%nat.
Proof. by vm_compute. Qed.

(** A merge event can close the pull request it is about.  The status still says that
    the pull request of an earlier spec is merged; the reconciler clears it; a webhook
    that read the status before the clear writes the fields that differ from its copy,
    among which is the time of the check but not [merged].  The status then says that
    the pull request is closed for good, and nothing polls it again. *)
Theorem stale_webhook_closes :
  let old := respec (demo_pr 8) demo_merged_pr in
  let w := mkWorld old [old] [] [] in
  let w1 := foldl (exec old) w (reconcile (demo_poll 0 false true) old).1 in
  let ev := mkEvent 8 "acme/app" in
  let '(asked, acts) := markPRStatusMerged demo_same (λ _, true) (λ _, Some (true, false)) (9 * second) ev [old] in
  let w2 := foldl (exec old) w1 acts in
  asked = Some old ∧ DescribesSpec (stored w2) = true ∧ pr_Merged (stored w2) = false ∧ IsClosedFinal (stored w2) = true.
Proof. by vm_compute. Qed.
(** The spec of a PRStatus moves from pull request 7 to pull request 8 while a webhook
    event about the merge of 7 is handled, and the reconciler clears the status for 8.
    The event's patch, made from the copy of 7, holds the fields that differ from that
    copy: [merged], and not the observed generation, which the copy already had.  It
    lands on the status of 8. *)
Definition demo_raced : World :=
  let w7 := store demo_open (mkWorld demo_placeholder [demo_placeholder] [] []) in
  let seen7 := foldl (exec demo_open) w7 (reconcile (demo_poll 0 false true) demo_open).1 in
  let w8 := store (respec (demo_pr 8) (stored seen7)) seen7 in
  let clear8 := foldl (exec (stored w8)) w8 (reconcile (demo_poll 0 false true) (stored w8)).1 in
  let acts := (markPRStatusMerged demo_same (λ _, true) (λ _, Some (true, false)) (9 * second) (mkEvent 7 "acme/app")
    [stored seen7]).2 in
  foldl (exec (stored seen7)) (hear_answer (λ _, Some (true, false)) (Some (stored seen7)) clear8) acts.

Lemma demo_raced_reachable : reachable demo_same demo_raced.
Proof.
  set (w0 := mkWorld demo_placeholder [demo_placeholder] [] []).
  assert (reachable demo_same (store demo_open w0)) as H1.
  { eapply reach_step; [apply (reach_placeholder _ demo_placeholder); reflexivity|]. apply step_respec. }
  set (w7 := store demo_open w0) in *.
  pose proof (reach_step _ _ _ H1 (step_reconcile demo_same w7 demo_open (demo_poll 0 false true) 9 (list_elem_of_here _ _))) as H2.
  set (seen7 := foldl _ _ _) in H2.
  pose proof (reach_step _ _ _ H2 (step_respec demo_same seen7 (demo_pr 8))) as H3.
  set (w8 := store _ _) in H3.
  pose proof (reach_step _ _ _ H3 (step_reconcile demo_same w8 (stored w8) (demo_poll 0 false true) 9 (list_elem_of_here _ _))) as H4.
  set (clear8 := foldl _ _ _) in H4.
  refine (reach_step _ _ _ H4 _).
  change demo_raced with (exec (stored seen7) (hear_answer (λ _, Some (true, false)) (Some (stored seen7)) clear8)
    (PatchStatus (stored seen7) (marked (9 * second) (stored seen7)))).
  eapply (step_webhook demo_same clear8 (stored seen7) (λ _, true) (λ _, Some (true, false)) (9 * second) (mkEvent 7 "acme/app")
    [stored seen7]).
  - vm_compute. right. right. left.
  - reflexivity.
  - vm_compute. left.
Qed.

Theorem overtaken_patch_says_merged :
  reachable demo_same demo_raced ∧ says_merged (stored demo_raced) ∧ pr_Spec (stored demo_raced) = demo_pr 8 ∧
  ¬ confirmed demo_same (heard demo_raced) (demo_pr 8) ∧ overtaken demo_raced = [pr_Generation (stored demo_raced)].
Proof.
  split_and!; [exact demo_raced_reachable|split; reflexivity|reflexivity| |reflexivity].
  intros (y & Hy & En & _). vm_compute in Hy. apply list_elem_of_singleton in Hy as ->. by vm_compute in En.
Qed.
End PRPoll.
