(* ===== verification/HealthCheck.v ===== *)
(** * HealthCheck: the health check of a step, and its verification

    Model of handleHealthChecking, expectedRevision, recordMergeCommit,
    applyHealthFailurePolicy and clusterUnreachable (src/pkg/reconciler/
    promotionstep/reconciler.go) and of passHealth and handleVerifying
    (verifying.go).  The bake window is [Bake], the verdicts on hooks and analyses
    are [Hooks].  What the health adapters, the API and the git host answer are
    fields of [HealthReads]. *)

From stdpp Require Import base gmap strings list.
From Stdlib Require Import Lia ZArith.
From S2P Require Import Prelude Actor Freeze Engine StepStatus Hooks Outbox Bake Transition Cancel Pending Promoting Merge.
Import Freeze.Freeze StepStatus.StepStatus Outbox.Outbox Bake.Bake Transition.Transition Cancel.Cancel Pending.Pending Merge.Merge.

Module HealthCheck.

(** The cluster to check: there is no detector or adapter for it, it cannot be
    reached, or its adapter, and whether the cluster is a remote one. *)
Inductive cluster := NoAdapter | Unreachable | Adapter (name : string) (remote : bool).

(** What createAutoRollback answers. *)
Inductive rollback_answer := RollbackError | RollbackRefused | RollbackCreated.

(** [hr_detector]: the reconciler has a health detector.  [hr_refresh] and
    [hr_noChangesRefresh]: no refresh is wanted (Some false), it is requested, or
    its patch fails.  [hr_check]: the adapter's answer, or its error.  [hr_newer] and
    [hr_newerMoved]: newerPushed; [hr_moved]: stepMoved has a reason. *)
Record HealthReads := mkHealthReads {
  hr_detector : bool;
  hr_Timeout : string;
  hr_Bake : option BakeSpec;
  hr_OnHealthFailure : string;
  hr_prstatus : read PRStatus;
  hr_cluster : cluster;
  hr_refresh : option bool;
  hr_check : option HealthStatus;
  hr_noChangesRefresh : option bool;
  hr_newer : option bool;
  hr_moved : bool;
  hr_newerMoved : option bool;
  hr_isRollback : option bool;
  hr_rollback : rollback_answer;
  hr_PostHooks : list string;
  hr_Analyses : list string;
  hr_inconclusivePasses : bool;
  hr_LiveAnalyses : list Hooks.LiveAnalysisRun;
  hr_AnalysisTimeout : option Duration
}.

Definition requeueHealthCheck : Duration := 10 * second.
Definition defaultHealthTimeout : Duration := 10 * Pending.minute.
Definition DefaultAnalysisTimeout : Duration := 30 * Pending.minute.

Definition map_health (f : Health → Health) (s : Status) : Status := set_health (f (health s)) s.

Definition set_expiry (v : option Time) (h : Health) : Health :=
  mkHealthFields v (LastHealthCheckAt h) (ConsecutiveHealthFailures h) (TargetUpdatedAt h) (BakeStartedAt h)
    (BakeFirstStartedAt h) (BakeElapsedMinutes h) (BakeResets h).

Definition set_checked (v : option Time) (h : Health) : Health :=
  mkHealthFields (HealthCheckExpiry h) v (ConsecutiveHealthFailures h) (TargetUpdatedAt h) (BakeStartedAt h)
    (BakeFirstStartedAt h) (BakeElapsedMinutes h) (BakeResets h).

Definition set_target_updated (v : option Time) (h : Health) : Health :=
  mkHealthFields (HealthCheckExpiry h) (LastHealthCheckAt h) (ConsecutiveHealthFailures h) v (BakeStartedAt h)
    (BakeFirstStartedAt h) (BakeElapsedMinutes h) (BakeResets h).

Definition reset_failures (h : Health) : Health :=
  mkHealthFields (HealthCheckExpiry h) (LastHealthCheckAt h) 0 (TargetUpdatedAt h) (BakeStartedAt h)
    (BakeFirstStartedAt h) (BakeElapsedMinutes h) (BakeResets h).

Section health.
Variable ParseDuration : string → option Duration.
Variable ParsePRURL : string → option (string * Z).
Variable RepoFromURL : string → option string.
Variable Fit : string → string.

Variable cx : Context_.
Variable sp : Spec.
Variable ref : StepRef.
Variable rd : Reads.
Variable hr : HealthReads.

(** ** The commit the environment must run *)

Definition expectedRevision (s : Status) : string * bool :=
  let outs := Outputs_ s in
  if negb (bool_decide (out outs "commitSHA" = "")) then (out outs "commitSHA", false)
  else if negb (bool_decide (out outs "mergeCommitSHA" = "")) then (out outs "mergeCommitSHA", false)
  else if bool_decide (r_PRStatusRef ref = "") then ("", false)
  else match hr_prstatus hr with
       | Missing => ("", false)
       | ReadError => ("", true)
       | Got p =>
           if negb (prStatusOfStepPR ParsePRURL RepoFromURL p outs) || negb (pr_Merged p) then ("", false)
           else if negb (bool_decide (pr_MergeCommitSHA p = "")) then (pr_MergeCommitSHA p, false)
           else ("", negb (pr_MergeCommitUnavailable p))
       end.

Definition recordMergeCommit (rev : string) (s : Status) : Status :=
  if bool_decide (rev = "") || negb (bool_decide (out (Outputs_ s) "commitSHA" = "")) ||
     negb (bool_decide (out (Outputs_ s) "mergeCommitSHA" = "")) then s
  else set_Outputs (<["mergeCommitSHA" := rev]> (Outputs_ s)) s.

(** ** Passing and failing *)

Definition verify (base : State) (reason message : string) (s : Status) : outcome :=
  patched (transition cx base StateVerified message (set_VerifiedBecause (Some reason) s)) Stop.

Definition verifies : bool := negb (bool_decide (hr_PostHooks hr = [])) || negb (bool_decide (hr_Analyses hr = [])).

Definition passHealth (base : State) (reason message : string) (s : Status) : outcome :=
  if negb verifies then verify base reason message s
  else
    let s := match VerificationStartedAt s with None => set_VerificationStartedAt (Some (now cx)) s | Some _ => s end in
    patched (transition cx base StateVerifying message s) Stop.

(** A rollback Bundle is created, or found, before the step says so. *)
Definition applyHealthFailurePolicy (base : State) (reason : string) (s : Status) : outcome :=
  if bool_decide (hr_OnHealthFailure hr = "abort") then patched (transition cx base StateAbortedByAlarm reason s) Stop
  else if bool_decide (hr_OnHealthFailure hr = "rollback") then
    match hr_isRollback hr with
    | None => quiet Error_
    | Some true => patched (transition cx base StateAbortedByAlarm reason s) Stop
    | Some false =>
        match hr_rollback hr with
        | RollbackError => quiet Error_
        | RollbackRefused => patched (transition cx base StateAbortedByAlarm reason s) Stop
        | RollbackCreated => after [CreateRollback] (patched (transition cx base StateRollingBack reason s) Stop)
        end
    end
  else patched (transition cx base StateFailed reason s) Stop.

(** [handleBake] with the patch of its result. *)
Definition bake (b : BakeSpec) (timeout : Duration) (result : HealthStatus) (s : Status) : outcome :=
  let '(o, h) := handleBake ParseDuration b timeout (now cx) (clock cx) result (health s) in
  let s' := set_health h s in
  match o with
  | BakeWait => mkOut [Patch (set_Message "baking" s')] (RequeueAfter requeueHealthCheck)
  | BakePass => passHealth (State_ s) "BakeComplete" "bake complete" s'
  | BakeAlarm _ => applyHealthFailurePolicy (State_ s) "bake alarm" s'
  end.

Definition clusterUnreachable (timeout : Duration) (s : Status) : outcome :=
  let s := map_health (set_checked (Some (now cx))) s in
  match hr_Bake hr with
  | Some b => bake b timeout (mkHealth false true false false false) s
  | None => mkOut [Patch (set_Message "waiting: ClusterUnreachable" s)] (RequeueAfter requeueHealthCheck)
  end.

Definition timedOut (s : Status) : outcome :=
  applyHealthFailurePolicy (State_ s) "health check timeout" (map_health count_failure s).

Definition superseded (s : Status) : outcome :=
  patched (transitionAudit cx (State_ s) StateSuperseded "newer bundle pushed" AuditActionPromotionSuperseded s) Stop.

(** ** The health check *)

Definition health_timeout : Duration :=
  if bool_decide (hr_Timeout hr = "") then defaultHealthTimeout
  else match ParseDuration (hr_Timeout hr) with
       | Some d => if 0 <? d then d else defaultHealthTimeout
       | None => defaultHealthTimeout
       end.

Definition expired (s : Status) : bool :=
  bool_decide (BakeStartedAt (health s) = None) &&
  match HealthCheckExpiry (health s) with Some e => e <? now cx | None => false end.

(** What follows a result that is neither terminal nor superseded. *)
Definition by_result (timeout : Duration) (late : bool) (result : HealthStatus) (s : Status) : outcome :=
  if late && negb (Healthy result) then timedOut s
  else match hr_Bake hr with
       | Some b => bake b timeout result s
       | None =>
           if Healthy result then passHealth (State_ s) "Verified" "health check passed" (map_health reset_failures s)
           else if Progressing result then mkOut [Patch (set_Message "waiting" s)] (RequeueAfter requeueHealthCheck)
           else mkOut [Patch (set_Message "unhealthy" (map_health count_failure s))] (RequeueAfter requeueHealthCheck)
       end.

(** A healthy or late result of a step over which a newer Bundle was pushed. *)
Definition check_newer (timeout : Duration) (late : bool) (adapter rev : string) (result : HealthStatus) (s : Status) : outcome :=
  match (if Healthy result || late then hr_newer hr else Some false) with
  | None => quiet Error_
  | Some true => superseded s
  | Some false =>
      if Healthy result && bool_decide (adapter = "resource") && negb (TargetUpdated result) &&
         negb (bool_decide (rev = "")) && hr_moved hr
      then match hr_newerMoved hr with
           | None => quiet Error_
           | Some true => superseded s
           | Some false => by_result timeout late (mkHealth false true false false false) s
           end
      else by_result timeout late result s
  end.

(** The adapter answered. *)
Definition on_result (timeout : Duration) (late : bool) (adapter rev : string) (result : HealthStatus) (s : Status) : outcome :=
  let s := map_health (set_checked (Some (now cx))) s in
  let s := if TargetUpdated result && bool_decide (TargetUpdatedAt (health s) = None)
           then map_health (set_target_updated (Some (now cx))) s else s in
  let k := if Terminal result then applyHealthFailurePolicy (State_ s) "terminal" (map_health count_failure s)
           else check_newer timeout late adapter rev result s in
  match hr_noChangesRefresh hr with
  | None => quiet Error_
  | Some true => after [Patch s] k
  | Some false => k
  end.

(** The check of a cluster that is not reached, fails, or answers. *)
Definition run_check (timeout : Duration) (late : bool) (s : Status) : outcome :=
  let '(rev, pending) := expectedRevision s in
  let s := recordMergeCommit rev s in
  match hr_cluster hr with
  | NoAdapter => patched (transition cx (State_ s) StateFailed "no health adapter" s) Stop
  | Unreachable => clusterUnreachable timeout s
  | Adapter name remote =>
      let noMergeCommit := bool_decide (rev = "") && opensPR (Steps s) && negb (bool_decide (out (Outputs_ s) "noChanges" = "true")) in
      let k :=
        if noMergeCommit && (bool_decide (name = "flux") || (pending && bool_decide (name = "argocd")))
        then on_result timeout late name rev (mkHealth false true false false false) s
        else match hr_check hr with
             | Some result => on_result timeout late name rev result s
             | None =>
                 if remote then clusterUnreachable timeout s
                 else if late then
                   match LastHealthCheckAt (health s), HealthCheckExpiry (health s) with
                   | Some last, Some e =>
                       if e <? last then timedOut s
                       else mkOut [Patch (map_health (set_checked (Some (now cx))) s)] (RequeueAfter requeueHealthCheck)
                   | _, _ => mkOut [Patch (map_health (set_checked (Some (now cx))) s)] (RequeueAfter requeueHealthCheck)
                   end
                 else quiet (RequeueAfter requeueHealthCheck)
             end in
      match hr_refresh hr with
      | None => quiet Error_
      | Some true => after [Patch s] k
      | Some false => k
      end
  end.

(** Once the deadline of the check is set. *)
Definition check_health (timeout : Duration) (s : Status) : outcome :=
  let late := expired s in
  if late && bool_decide (is_Some (hr_Bake hr)) && pastBakeDeadline ParseDuration (hr_Bake hr) timeout (now cx) (health s)
  then timedOut s
  else
    let wait := match LastHealthCheckAt (health s) with Some t => requeueHealthCheck - sub_time (now cx) t | None => 0 end in
    if negb late && (0 <? wait) then quiet (RequeueAfter wait)
    else run_check timeout late s.

Definition handleHealthChecking (s : Status) : outcome :=
  match rd_pipeline rd, rd_bundle rd with
  | Some _, Got _ =>
      or_else (holdForConfig cx rd s) (
      if negb (hr_detector hr) then passHealth (State_ s) "Verified" "health check skipped" s
      else
        let timeout := health_timeout in
        match HealthCheckExpiry (health s) with
        | None =>
            let s := map_health (set_expiry (Some (now cx + timeout))) s in
            after [Patch s] (check_health timeout s)
        | Some _ => check_health timeout s
        end)
  | _, _ => quiet Error_
  end.

(** ** Verification *)

Definition handleVerifying (s : Status) : outcome :=
  let hooks := Hooks.hookResults (s_LiveHooks sp) (hr_PostHooks hr) in
  let an := Hooks.analysisResults Fit (hr_inconclusivePasses hr) (hr_LiveAnalyses hr) (hr_Analyses hr) in
  let hooks_failed := bool_decide (is_Some (Hooks.failed hooks)) in
  let an_failed := bool_decide (is_Some (Hooks.an_failed an)) in
  let an_waiting := bool_decide (is_Some (Hooks.an_waiting an)) in
  if (hooks_failed || an_failed || an_waiting) && bool_decide (rd_pipeline rd = None) then quiet Error_
  else if hooks_failed then applyHealthFailurePolicy (State_ s) "a post-deploy hook failed" s
  else if an_failed then applyHealthFailurePolicy (State_ s) "an analysis did not pass" s
  else if Hooks.succeeded hooks && negb an_waiting then
    verify (State_ s) (if bool_decide (hr_Analyses hr = []) then "PostHooksSucceeded" else "VerificationSucceeded")
      "verification passed" s
  else
    let left := match VerificationStartedAt s with
                | Some t => if an_waiting
                            then Some (sub_time (t + default DefaultAnalysisTimeout (hr_AnalysisTimeout hr)) (now cx))
                            else None
                | None => None
                end in
    match left with
    | Some d =>
        if d <=? 0 then applyHealthFailurePolicy (State_ s) "an analysis did not finish" s
        else wait_for "waiting for verification" (RequeueAfter (if d <? requeueGateWait then d else requeueGateWait)) s
    | None => wait_for "waiting for verification" (RequeueAfter requeueGateWait) s
    end.

(** ** What onHealthFailure does *)

(** The state onHealthFailure leads to, unless a read it needs fails. *)
Definition policy_state : option State :=
  if bool_decide (hr_OnHealthFailure hr = "abort") then Some StateAbortedByAlarm
  else if bool_decide (hr_OnHealthFailure hr = "rollback") then
    match hr_isRollback hr, hr_rollback hr with
    | None, _ | Some false, RollbackError => None
    | Some true, _ | Some false, RollbackRefused => Some StateAbortedByAlarm
    | Some false, RollbackCreated => Some StateRollingBack
    end
  else Some StateFailed.

(** The effects of a failure: the rollback Bundle before the state that names it. *)
Definition failed_health (o : outcome) : Prop :=
  match policy_state with
  | None => effects o = []
  | Some st => ∃ p, State_ p = st ∧
      effects o = (if bool_decide (st = StateRollingBack) then [CreateRollback] else []) ++ [Patch p]
  end.

Lemma applyHealthFailurePolicy_spec base reason s : failed_health (applyHealthFailurePolicy base reason s).
Proof.
  assert (∀ st, st ≠ StateVerified → ∃ p, patched (transition cx base st reason s) Stop = mkOut [Patch p] Stop ∧ State_ p = st) as Ht.
  { intros st Hst. destruct (transition_total cx base st reason s Hst) as (p & -> & Hp & _). by exists p. }
  unfold failed_health, policy_state, applyHealthFailurePolicy.
  destruct (bool_decide (hr_OnHealthFailure hr = "abort")); [destruct (Ht StateAbortedByAlarm) as (p & -> & Hp); [done|by exists p]|].
  destruct (bool_decide (hr_OnHealthFailure hr = "rollback")); [|destruct (Ht StateFailed) as (p & -> & Hp); [done|by exists p]].
  destruct (hr_isRollback hr) as [[]|]; [destruct (Ht StateAbortedByAlarm) as (p & -> & Hp); [done|by exists p]| |done].
  destruct (hr_rollback hr); [done|destruct (Ht StateAbortedByAlarm) as (p & -> & Hp); [done|by exists p]|].
  destruct (Ht StateRollingBack) as (p & -> & Hp); [done|by exists p].
Qed.

Lemma policy_patch base reason s p :
  Patch p ∈ effects (applyHealthFailurePolicy base reason s) → policy_state = Some (State_ p).
Proof.
  pose proof (applyHealthFailurePolicy_spec base reason s) as H. unfold failed_health in H.
  destruct policy_state as [st|]; [|rewrite H; by intros ?%elem_of_nil].
  destruct H as (q & Hq & ->). intros Hp. apply elem_of_app in Hp as [Hp|[= ->]%list_elem_of_singleton]; [|by rewrite Hq].
  case_bool_decide; [by apply list_elem_of_singleton in Hp|by apply elem_of_nil in Hp].
Qed.

Lemma policy_state_cases st :
  policy_state = Some st →
  st = StateFailed ∨
  st = StateAbortedByAlarm ∧ (hr_OnHealthFailure hr = "abort" ∨ hr_OnHealthFailure hr = "rollback") ∨
  st = StateRollingBack ∧ hr_OnHealthFailure hr = "rollback" ∧ hr_isRollback hr = Some false ∧ hr_rollback hr = RollbackCreated.
Proof.
  unfold policy_state. case_bool_decide; [intros [= <-]; auto|]. case_bool_decide; [|intros [= <-]; auto].
  destruct (hr_isRollback hr) as [[]|]; [intros [= <-]; auto| |done]. destruct (hr_rollback hr); [done|intros [= <-]; auto..].
  intros. right. right. auto.
Qed.

(** ** What a Verified step went through *)

(** The adapter of the environment answered that it is healthy, and no newer
    Bundle was pushed over it. *)
Definition healthy_answer : Prop :=
  ∃ name remote r, hr_cluster hr = Adapter name remote ∧ hr_check hr = Some r ∧ Healthy r = true ∧ Terminal r = false ∧
    hr_newer hr = Some false.

Definition passed (p : Status) : Prop :=
  State_ p = (if verifies then StateVerifying else StateVerified) ∧
  (hr_detector hr = false ∨
   healthy_answer ∧ ∀ b, hr_Bake hr = Some b → Minutes b ≤ BakeElapsedMinutes (health p)).

(** Where a patch of the health check may leave a step. *)
Definition health_goal (st : State) (p : Status) : Prop :=
  State_ p = st ∨ policy_state = Some (State_ p) ∨ State_ p = StateFailed ∨
  (State_ p = StateSuperseded ∧ (hr_newer hr = Some true ∨ hr_newerMoved hr = Some true)) ∨ passed p.

Definition all_patches (Q : Status → Prop) (o : outcome) : Prop := ∀ p, Patch p ∈ effects o → Q p.

Lemma all_one Q p r : Q p → all_patches Q (mkOut [Patch p] r).
Proof. intros H q. simpl. by intros [= ->]%list_elem_of_singleton. Qed.

Lemma all_quiet Q r : all_patches Q (quiet r).
Proof. intros p Hp. by apply elem_of_nil in Hp. Qed.

Lemma all_after Q s o : Q s → all_patches Q o → all_patches Q (after [Patch s] o).
Proof. intros Hs Ho p. simpl. intros [[= ->]|Hp]%elem_of_cons; [done|by apply Ho]. Qed.

Lemma all_policy st base reason s : all_patches (health_goal st) (applyHealthFailurePolicy base reason s).
Proof. intros p Hp%policy_patch. right. by left. Qed.

Lemma passHealth_spec base reason msg s p :
  Patch p ∈ effects (passHealth base reason msg s) →
  State_ p = (if verifies then StateVerifying else StateVerified) ∧ health p = health s.
Proof.
  assert (∀ st s', health s' = health s → Patch p ∈ effects (patched (transition cx base st msg s') Stop) →
    State_ p = st ∧ health p = health s) as Ht.
  { intros st s' Hh. destruct (transition _ _ _ _ s') as [q|] eqn:E; simpl; [|by intros ?%elem_of_nil].
    intros [= ->]%list_elem_of_singleton. apply transitionAudit_state in E as [Hq Hk]. split; [done|].
    rewrite <- Hh. by destruct Hk as (_ & _ & _ & ? & _). }
  unfold passHealth. destruct verifies; cbn [negb].
  - apply Ht. by destruct (VerificationStartedAt s).
  - apply Ht. done.
Qed.

Lemma bake_pass b timeout result h :
  (handleBake ParseDuration b timeout (now cx) (clock cx) result h).1 = BakePass →
  Healthy result = true ∧
  Minutes b ≤ BakeElapsedMinutes (handleBake ParseDuration b timeout (now cx) (clock cx) result h).2.
Proof.
  unfold handleBake. set (h1 := if negb (Progressing result) && _ then _ else h).
  set (h2 := match BakeFirstStartedAt h1 with None => _ | _ => h1 end). clearbody h2.
  destruct (Healthy result) eqn:Eh; simpl.
  - destruct (Progressing result); [case_match; done|]. 
    destruct (Z.leb_spec (Minutes b) (BakeElapsedMinutes (healthy_window (now cx) (clock cx) h2))); simpl; [|done]. auto.
  - repeat case_match; done.
Qed.

Lemma bake_goal st b timeout result s :
  State_ s = st → hr_Bake hr = Some b → (Healthy result = true → healthy_answer) →
  all_patches (health_goal st) (bake b timeout result s).
Proof.
  intros Hst Hb Hr. unfold bake.
  pose proof (bake_pass b timeout result (health s)) as Hp.
  destruct (handleBake _ _ _ _ _ _ _) as [o h]. simpl in Hp. destruct o.
  - apply all_one. by left.
  - destruct (Hp eq_refl) as [Hh Hm]. intros p [Hs Hhp]%passHealth_spec. do 4 right. split; [done|]. right.
    split; [by apply Hr|]. intros b' [= <-]%(eq_trans (eq_sym Hb)). rewrite Hhp. done.
  - apply all_policy.
Qed.

Lemma by_result_goal st timeout late result s :
  State_ s = st → (Healthy result = true → healthy_answer) → all_patches (health_goal st) (by_result timeout late result s).
Proof.
  intros Hst Hr. unfold by_result. destruct (late && _); [apply all_policy|].
  destruct (hr_Bake hr) as [b|] eqn:Eb; [by apply bake_goal|].
  destruct (Healthy result); [|destruct (Progressing result); apply all_one; by left].
  intros p [Hs Hhp]%passHealth_spec. do 4 right. split; [done|]. right. split; [by apply Hr|]. by rewrite Eb.
Qed.

Lemma superseded_goal st s : hr_newer hr = Some true ∨ hr_newerMoved hr = Some true → all_patches (health_goal st) (superseded s).
Proof.
  intros Hn. unfold superseded. destruct (transitionAudit _ _ _ _ _ _) as [q|] eqn:E; [|apply all_quiet].
  apply all_one. apply transitionAudit_state in E as [Hq _]. right. right. right. by left.
Qed.

Lemma on_result_goal st timeout late adapter rev result s :
  State_ s = st → (Healthy result = true → Terminal result = false → hr_newer hr = Some false → healthy_answer) →
  all_patches (health_goal st) (on_result timeout late adapter rev result s).
Proof.
  intros Hst Hr. unfold on_result. set (s1 := map_health (set_checked _) s).
  set (s2 := if TargetUpdated result && _ then _ else s1).
  assert (State_ s2 = st) as Hst2 by (unfold s2; by destruct (TargetUpdated result && _)). clearbody s2.
  assert (all_patches (health_goal st) (if Terminal result then applyHealthFailurePolicy (State_ s2) "terminal" (map_health count_failure s2)
           else check_newer timeout late adapter rev result s2)) as Hk.
  { destruct (Terminal result) eqn:Et; [apply all_policy|]. unfold check_newer.
    destruct (if Healthy result || late then hr_newer hr else Some false) as [[]|] eqn:En; [| |apply all_quiet].
    - apply superseded_goal. left. by destruct (Healthy result || late).
    - destruct (_ && hr_moved hr).
      + destruct (hr_newerMoved hr) as [[]|] eqn:Em; [apply superseded_goal; by right| |apply all_quiet].
        apply by_result_goal; done.
      + apply by_result_goal; [done|]. intros Hh. apply Hr; try done. by rewrite Hh in En. }
  destruct (hr_noChangesRefresh hr) as [[]|]; [|done|apply all_quiet]. apply all_after; [by left|done].
Qed.

Lemma clusterUnreachable_goal st timeout s :
  State_ s = st → all_patches (health_goal st) (clusterUnreachable timeout s).
Proof.
  intros Hst. unfold clusterUnreachable. destruct (hr_Bake hr) as [b|] eqn:Eb; [by apply bake_goal|apply all_one; by left].
Qed.

Lemma recordMergeCommit_state rev s : State_ (recordMergeCommit rev s) = State_ s ∧ health (recordMergeCommit rev s) = health s.
Proof. unfold recordMergeCommit. by destruct (_ || _ || _). Qed.

Lemma run_check_goal st timeout late s : State_ s = st → all_patches (health_goal st) (run_check timeout late s).
Proof.
  intros Hst. unfold run_check. destruct (expectedRevision s) as [rev pending].
  destruct (recordMergeCommit_state rev s) as [Hs _]. rewrite Hst in Hs.
  set (s1 := recordMergeCommit rev s) in *. clearbody s1.
  destruct (hr_cluster hr) as [| |name remote] eqn:Ec.
  - destruct (transition_total cx (State_ s1) StateFailed "no health adapter" s1) as (p & -> & Hp & _); [done|].
    apply all_one. right. right. by left.
  - by apply clusterUnreachable_goal.
  - match goal with |- context [after [Patch s1] ?k] => set (K := k) end.
    assert (all_patches (health_goal st) K) as HK.
    { unfold K. case_match; [by apply on_result_goal|].
      destruct (hr_check hr) as [r|] eqn:Er; [apply on_result_goal; [done|]; intros; unfold healthy_answer; by eauto 10|].
      destruct remote; [by apply clusterUnreachable_goal|]. destruct late; [|apply all_quiet].
      destruct (LastHealthCheckAt (health s1)); [|apply all_one; by left].
      destruct (HealthCheckExpiry (health s1)); [|apply all_one; by left].
      destruct (_ <? _); [apply all_policy|apply all_one; by left]. }
    destruct (hr_refresh hr) as [[]|]; [|done|apply all_quiet]. apply all_after; [by left|done].
Qed.

(** Every patch of a health check keeps the step HealthChecking, applies
    onHealthFailure, fails or supersedes the step, or passes it. *)
Lemma handleHealthChecking_goal s : all_patches (health_goal (State_ s)) (handleHealthChecking s).
Proof.
  unfold handleHealthChecking. destruct (rd_pipeline rd) as [pl|]; [|apply all_quiet].
  destruct (rd_bundle rd) as [b| |]; [|apply all_quiet..].
  pose proof (holdForConfig_spec cx rd s) as [_ Hb]. destruct (holdForConfig cx rd s) as [o|]; cbn [or_else].
  { intros p Hp. destruct (holds_patch _ _ _ (Hb o eq_refl) Hp); [by left|right; right; by left]. }
  destruct (hr_detector hr) eqn:Ed; cbn [negb].
  2:{ intros p [Hs _]%passHealth_spec. do 4 right. split; [done|by left]. }
  assert (∀ timeout s', State_ s' = State_ s → all_patches (health_goal (State_ s)) (check_health timeout s')) as Hc.
  { intros timeout s' Hs. unfold check_health. destruct (_ && _ && _); [apply all_policy|].
    destruct (_ && _); [apply all_quiet|by apply run_check_goal]. }
  destruct (HealthCheckExpiry (health s)); [by apply Hc|]. apply all_after; [by left|by apply Hc].
Qed.

(** C27. A step leaves its health check for Verified (or for Verifying, when it has
    post-deploy hooks or analyses) only if the controller has no health adapter, or
    the adapter of its environment answered healthy, no newer Bundle was pushed
    over it, and its bake window, if it has one, has run for all its minutes.  It
    rolls back only with onHealthFailure=rollback, for a Bundle that is not itself
    a rollback, and with the rollback Bundle there. *)
Theorem verified_only_healthy s p :
  State_ s = StateHealthChecking → Patch p ∈ effects (handleHealthChecking s) →
  (State_ p = StateVerified ∨ State_ p = StateVerifying → passed p) ∧
  (State_ p = StateRollingBack →
     hr_OnHealthFailure hr = "rollback" ∧ hr_isRollback hr = Some false ∧ hr_rollback hr = RollbackCreated).
Proof.
  intros Hs Hp. pose proof (handleHealthChecking_goal s p Hp) as Hg. rewrite Hs in Hg.
  destruct Hg as [Hg|[Hg|[Hg|[[Hg _]|Hg]]]].
  - rewrite Hg. split; [intros [?|?]|intros ?]; done.
  - apply policy_state_cases in Hg. split.
    + intros [E|E]; rewrite E in Hg; destruct Hg as [Hg|[[Hg _]|[Hg _]]]; done.
    + intros E. rewrite E in Hg. destruct Hg as [Hg|[[Hg _]|(_ & ?)]]; done.
  - rewrite Hg. split; [intros [?|?]|intros ?]; done.
  - rewrite Hg. split; [intros [?|?]|intros ?]; done.
  - split; [done|]. destruct Hg as [Hg _]. rewrite Hg. by destruct verifies.
Qed.

(** ** What ends a health check *)

(** Status patches of a step that keep its state, then [o]. *)
Definition ends_with (st : State) (o o' : outcome) : Prop :=
  ∃ es, effects o = es ++ effects o' ∧ ∀ e, e ∈ es → ∃ p, e = Patch p ∧ State_ p = st.

Lemma ends_refl st o : ends_with st o o.
Proof. exists []. split; [done|]. by intros e ?%elem_of_nil. Qed.

Lemma ends_after st s o o' : State_ s = st → ends_with st o o' → ends_with st (after [Patch s] o) o'.
Proof.
  intros Hs (es & He & Hes). exists (Patch s :: es). split; [by simpl; rewrite He|].
  intros e [->|?]%elem_of_cons; [by exists s|by apply Hes].
Qed.

Lemma on_result_fails timeout adapter rev result s :
  Healthy result = false → hr_noChangesRefresh hr ≠ None → hr_newer hr = Some false →
  ∃ o, failed_health o ∧ ends_with (State_ s) (on_result timeout true adapter rev result s) o.
Proof.
  intros Hh Hn Hnew. unfold on_result. set (s1 := map_health (set_checked _) s).
  set (s2 := if TargetUpdated result && _ then _ else s1).
  assert (State_ s2 = State_ s) as Hst2 by (unfold s2; by destruct (TargetUpdated result && _)). clearbody s2.
  set (k := if Terminal result then _ else _).
  assert (failed_health k) as Hk.
  { unfold k. destruct (Terminal result); [apply applyHealthFailurePolicy_spec|]. unfold check_newer.
    rewrite orb_true_r, Hnew, Hh. cbn [andb]. unfold by_result. rewrite Hh. apply applyHealthFailurePolicy_spec. }
  exists k. split; [done|]. destruct (hr_noChangesRefresh hr) as [[]|]; [|apply ends_refl|done].
  apply ends_after; [done|apply ends_refl].
Qed.

(** A health check ends.  Once its deadline has passed (and no bake window
    runs), a check that answers anything but healthy, with no newer Bundle pushed,
    applies onHealthFailure: the step is Failed, AbortedByAlarm, or RollingBack with
    its rollback Bundle created first, and stays HealthChecking only if a read the
    policy needs fails. *)
Theorem health_timeout_applies s e pl b name remote r :
  rd_pipeline rd = Some pl → rd_bundle rd = Got b → rd_unsupported rd = false → rd_refused rd = Some false →
  hr_detector hr = true → HealthCheckExpiry (health s) = Some e → BakeStartedAt (health s) = None → e < now cx →
  hr_cluster hr = Adapter name remote → hr_refresh hr ≠ None → hr_noChangesRefresh hr ≠ None →
  hr_check hr = Some r → Healthy r = false → hr_newer hr = Some false →
  ∃ o, failed_health o ∧ ends_with (State_ s) (handleHealthChecking s) o.
Proof.
  intros Hpl Hb Hu Hr Hd He Hbs Hlt Hc Hrf Hncr Hck Hh Hnew. unfold handleHealthChecking. rewrite Hpl, Hb.
  rewrite (proj2 (proj1 (holdForConfig_spec cx rd s)) (conj Hu Hr)), Hd, He. cbn [or_else negb].
  assert (expired s = true) as Hex.
  { unfold expired. rewrite Hbs, He, bool_decide_true by done. by apply Z.ltb_lt. }
  unfold check_health. rewrite Hex. cbn [andb negb].
  destruct (_ && _).
  { eexists. split; [apply applyHealthFailurePolicy_spec|apply ends_refl]. }
  unfold run_check. destruct (expectedRevision s) as [rev pending]. rewrite Hc.
  destruct (recordMergeCommit_state rev s) as [Hs _]. set (s1 := recordMergeCommit rev s) in *. clearbody s1.
  match goal with |- context [after [Patch s1] ?k] => set (K := k) end.
  assert (∃ o, failed_health o ∧ ends_with (State_ s) K o) as (o & Ho & Hk).
  { unfold K. rewrite Hck. rewrite <- Hs. destruct (_ && (_ || _)); by apply on_result_fails. }
  exists o. split; [done|]. destruct (hr_refresh hr) as [[]|]; [|done|done]. by apply ends_after.
Qed.

(** ** Verification *)

Definition post_hooks_passed : Prop :=
  ∀ n, n ∈ hr_PostHooks hr → ∃ h, last (filter (λ h, Hooks.h_Name h = n) (s_LiveHooks sp)) = Some h ∧
    (Hooks.h_Result h = Hooks.HookRunSucceeded ∨ Hooks.h_Result h = Hooks.HookRunSkipped).

Definition analyses_passed : Prop :=
  ∀ t, t ∈ hr_Analyses hr → ∃ a, Hooks.newest (hr_LiveAnalyses hr) !! Fit t = Some a ∧
    Hooks.is_newest (hr_LiveAnalyses hr) (Fit t) a ∧ Hooks.phase_passes (hr_inconclusivePasses hr) (Hooks.a_Phase a) = true.

(** Where a Verifying step may be left. *)
Lemma handleVerifying_states s p :
  Patch p ∈ effects (handleVerifying s) →
  State_ p = State_ s ∨ policy_state = Some (State_ p) ∨
  (State_ p = StateVerified ∧ post_hooks_passed ∧ analyses_passed).
Proof.
  unfold handleVerifying. set (hooks := Hooks.hookResults _ _). set (an := Hooks.analysisResults _ _ _ _).
  destruct (Hooks.hooks_verdict (s_LiveHooks sp) (hr_PostHooks hr)) as (_ & _ & Hh). fold hooks post_hooks_passed in Hh.
  destruct (Hooks.analyses_verdict Fit (hr_inconclusivePasses hr) (hr_LiveAnalyses hr) (hr_Analyses hr)) as (Ha & _).
  fold an analyses_passed in Ha. clearbody hooks an.
  assert (∀ msg r, Patch p ∈ effects (wait_for msg r s) → State_ p = State_ s) as Hw.
  { intros msg r. unfold wait_for. case_bool_decide; [by intros ?%elem_of_nil|by intros [= ->]%list_elem_of_singleton]. }
  destruct (_ && bool_decide (rd_pipeline rd = None)); [by intros ?%elem_of_nil|].
  case_bool_decide as E1; [intros Hp%policy_patch; auto|]. case_bool_decide as E2; [intros Hp%policy_patch; auto|].
  destruct (Hooks.succeeded hooks && negb _) eqn:E3.
  - apply andb_true_iff in E3 as [E3 E4%negb_true_iff%bool_decide_eq_false]. unfold verify.
    destruct (transition _ _ _ _ _) as [q|] eqn:Et; simpl; [|by intros ?%elem_of_nil].
    intros [= ->]%list_elem_of_singleton. apply transitionAudit_state in Et as [Hq _]. right. right.
    split_and!; [done|by apply Hh|]. apply Ha. by rewrite !eq_None_not_Some.
  - match goal with |- context [match ?l with Some d => _ | None => _ end] => destruct l as [d|] end; [|intros ?%Hw; auto].
    destruct (d <=? 0); [intros Hp%policy_patch; auto|intros ?%Hw; auto].
Qed.

(** A Verifying step becomes Verified only when every post-deploy hook
    succeeded or was skipped and the newest run of every analysis passed, and then
    it does, unless the reads of the change fail.  A hook or an analysis that
    failed applies onHealthFailure (when the Pipeline can be read). *)
Theorem verification_verdict s :
  State_ s = StateVerifying →
  (∀ p, Patch p ∈ effects (handleVerifying s) → State_ p = StateVerified → post_hooks_passed ∧ analyses_passed) ∧
  (post_hooks_passed → analyses_passed → ∃ reason, handleVerifying s = verify StateVerifying reason "verification passed" s) ∧
  (rd_pipeline rd ≠ None →
   is_Some (Hooks.failed (Hooks.hookResults (s_LiveHooks sp) (hr_PostHooks hr))) ∨
   is_Some (Hooks.an_failed (Hooks.analysisResults Fit (hr_inconclusivePasses hr) (hr_LiveAnalyses hr) (hr_Analyses hr))) →
   failed_health (handleVerifying s)).
Proof.
  intros Hs. split_and!.
  - intros p Hp Hv. apply handleVerifying_states in Hp as [Hp|[Hp|(_ & ?)]]; [congruence| |done].
    apply policy_state_cases in Hp. rewrite Hv in Hp. destruct Hp as [Hp|[[Hp _]|[Hp _]]]; done.
  - intros Hh Ha. unfold handleVerifying. set (hooks := Hooks.hookResults _ _). set (an := Hooks.analysisResults _ _ _ _).
    destruct (Hooks.hooks_verdict (s_LiveHooks sp) (hr_PostHooks hr)) as (_ & _ & Hv). apply Hv in Hh. fold hooks in Hh.
    destruct (Hooks.analyses_verdict Fit (hr_inconclusivePasses hr) (hr_LiveAnalyses hr) (hr_Analyses hr)) as (Hav & _).
    apply Hav in Ha as [Ha1 Ha2]. fold an in Ha1, Ha2. rewrite Ha1, Ha2, Hh, Hs.
    assert (Hooks.failed hooks = None) as ->.
    { unfold Hooks.succeeded in Hh. by apply andb_true_iff in Hh as [?%bool_decide_eq_true _]. }
    rewrite !(bool_decide_false (is_Some None)) by (by intros []). cbn [orb andb negb]. eauto.
  - intros Hpl Hf. unfold handleVerifying. set (hooks := Hooks.hookResults _ _) in *. set (an := Hooks.analysisResults _ _ _ _) in *.
    rewrite (bool_decide_false (rd_pipeline rd = None)) by done. rewrite andb_false_r.
    case_bool_decide; [apply applyHealthFailurePolicy_spec|]. case_bool_decide; [apply applyHealthFailurePolicy_spec|].
    by destruct Hf.
Qed.

(** A check that cannot reach the cluster, without a bake window, keeps the
    state. *)
Lemma unreachable_stays s p :
  rd_unsupported rd = false → rd_refused rd = Some false → hr_detector hr = true → hr_Bake hr = None → hr_cluster hr = Unreachable →
  Patch p ∈ effects (handleHealthChecking s) → State_ p = State_ s.
Proof.
  intros Hu Hr Hd Hb Hc. unfold handleHealthChecking.
  destruct (rd_pipeline rd) as [pl|]; [|by intros ?%elem_of_nil]. destruct (rd_bundle rd) as [bd| |]; [|by intros ?%elem_of_nil..].
  rewrite (proj2 (proj1 (holdForConfig_spec cx rd s)) (conj Hu Hr)), Hd. cbn [or_else negb].
  assert (∀ timeout s', State_ s' = State_ s → Patch p ∈ effects (check_health timeout s') → State_ p = State_ s) as Hck.
  { intros timeout s' Hs. unfold check_health. rewrite Hb, (bool_decide_false (is_Some None)) by (by intros []).
    rewrite andb_false_r. cbn [andb]. destruct (_ && _); [by intros ?%elem_of_nil|].
    unfold run_check. destruct (expectedRevision s') as [rev pending]. rewrite Hc. unfold clusterUnreachable. rewrite Hb.
    simpl. intros [= ->]%list_elem_of_singleton. simpl. by rewrite (proj1 (recordMergeCommit_state rev s')). }
  destruct (HealthCheckExpiry (health s)); [by apply Hck|]. simpl. intros [[= ->]|Hp]%elem_of_cons; [done|]. eapply Hck, Hp. done.
Qed.
End health.

(** ** A cluster that stays unreachable *)

Section unreachable.
Variable ParseDuration : string → option Duration.
Variable ParsePRURL : string → option (string * Z).
Variable RepoFromURL : string → option string.
Variable ref : StepRef.

(** One reconcile of the step: the clock, the reads, the answer of the check. *)
Record look := mkLook { l_cx : Context_; l_rd : Reads; l_hr : HealthReads }.

Definition health_once (s : Status) (l : look) : Status :=
  stored s (effects (handleHealthChecking ParseDuration ParsePRURL RepoFromURL (l_cx l) ref (l_rd l) (l_hr l) s)).

(** A look that cannot reach the cluster, of an environment without a bake
    window. *)
Definition out_of_reach (l : look) : Prop :=
  rd_unsupported (l_rd l) = false ∧ rd_refused (l_rd l) = Some false ∧ hr_detector (l_hr l) = true ∧
  hr_Bake (l_hr l) = None ∧ hr_cluster (l_hr l) = Unreachable.

(** While its remote cluster cannot be reached, a step without a bake window
    keeps its state however long that lasts: health.timeout is not applied, and
    nor is onHealthFailure. *)
Theorem unreachable_never_times_out s ls :
  Forall out_of_reach ls → State_ (foldl health_once s ls) = State_ s.
Proof.
  revert s. induction ls as [|l ls IH]; intros s; [done|]. intros [(Hu & Hr & Hd & Hb & Hc) Hls]%Forall_cons.
  simpl. rewrite IH by done. unfold health_once.
  destruct (leaves_cases s (effects (handleHealthChecking ParseDuration ParsePRURL RepoFromURL (l_cx l) ref (l_rd l) (l_hr l) s))
    (stored s (effects (handleHealthChecking ParseDuration ParsePRURL RepoFromURL (l_cx l) ref (l_rd l) (l_hr l) s)))) as [->|Hp].
  - eexists. by rewrite firstn_all.
  - done.
  - by eapply unreachable_stays.
Qed.
End unreachable.

(** ** Examples *)

Definition demo_healthy : HealthReads :=
  mkHealthReads true "" None "rollback" Missing (Adapter "argocd" false) (Some false)
    (Some (mkHealth true false false false false)) (Some false) (Some false) false (Some false) (Some false) RollbackCreated
    [] [] false [] None.

Definition demo_unhealthy : HealthReads :=
  mkHealthReads true "5m" None "rollback" Missing (Adapter "argocd" false) (Some false)
    (Some (mkHealth false true false false false)) (Some false) (Some false) false (Some false) (Some false) RollbackCreated
    [] [] false [] None.

Definition demo_lost : HealthReads :=
  mkHealthReads true "5m" None "rollback" Missing Unreachable (Some false) None (Some false) (Some false) false (Some false)
    (Some false) RollbackCreated [] [] false [] None.

(** A step whose health check is due by minute ten. *)
Definition demo_checking : Status :=
  set_health (mkHealthFields (Some (600 * second)) None 0 None None None 0 0) (demo_status StateHealthChecking).

Abbreviation demo_handle t hr := (handleHealthChecking (λ _, None) (λ _, None) (λ _, None) (demo_cx (t * second)) demo_ref demo_reads hr).

Definition demo_verified : Status := stored demo_checking (effects (demo_handle 300 demo_healthy demo_checking)).

Lemma verified_only_healthy_witness :
  State_ demo_verified = StateVerified ∧ passed demo_healthy demo_verified.
Proof.
  split; [vm_compute; reflexivity|].
  refine (proj1 (verified_only_healthy (λ _, None) (λ _, None) (λ _, None) (demo_cx (300 * second)) demo_ref demo_reads
    demo_healthy demo_checking demo_verified _ _) _).
  - reflexivity.
  - vm_compute. left.
  - left. vm_compute. reflexivity.
Defined.

Lemma health_timeout_applies_witness :
  ∃ o, failed_health demo_unhealthy o ∧ ends_with StateHealthChecking (demo_handle 601 demo_unhealthy demo_checking) o.
Proof.
  refine (health_timeout_applies (λ _, None) (λ _, None) (λ _, None) (demo_cx (601 * second)) demo_ref demo_reads
    demo_unhealthy demo_checking (600 * second) demo_pipeline demo_bundle "argocd" false (mkHealth false true false false false)
    _ _ _ _ _ _ _ _ _ _ _ _ _ _); try reflexivity; try done.
Defined.

Lemma verification_verdict_witness :
  ∃ reason, handleVerifying (λ t, t) (demo_cx (601 * second)) demo_spec demo_reads demo_healthy (demo_status StateVerifying) =
    verify (demo_cx (601 * second)) StateVerifying reason "verification passed" (demo_status StateVerifying).
Proof.
  refine (proj1 (proj2 (verification_verdict (λ t, t) (demo_cx (601 * second)) demo_spec demo_reads demo_healthy
    (demo_status StateVerifying) _)) _ _); [reflexivity|intros n Hn; by apply elem_of_nil in Hn..].
Defined.

Lemma unreachable_never_times_out_witness :
  State_ (foldl (health_once (λ _, None) (λ _, None) (λ _, None) demo_ref) demo_checking
    ((λ t, mkLook (demo_cx (t * second)) demo_reads demo_lost) <$> [601; 3601; 86401])) = StateHealthChecking.
Proof.
  rewrite (unreachable_never_times_out (λ _, None) (λ _, None) (λ _, None) demo_ref demo_checking
    ((λ t, mkLook (demo_cx (t * second)) demo_reads demo_lost) <$> [601; 3601; 86401])); [reflexivity|].
  apply Forall_fmap, Forall_forall. intros t _. by split_and!.
Defined.
End HealthCheck.
