(* ===== verification/Promotion.v ===== *)
(** * Promotion: the state machine of a promotion step

    Model of reconcileState (src/pkg/reconciler/promotionstep/reconciler.go): the
    orphan guard, the guard that cancels the steps of a superseded or rejected
    Bundle, holdUnresolvedEnvironment, and the handler of each state ([Pending],
    [Promoting], [Merge], [HealthCheck]), and of the reconcile around it ([reconcile]):
    flushing the audit and receipt outboxes, syncing the finalizer, what is recorded of
    hooks, and a deleted step.  What a reconcile reads is its [Inputs], and what the
    reconcile around it reads and is answered its [Outer]; the theorems hold for all
    of them.

    A history is any sequence of reconciles, each of which may stop after any of
    its effects (a call fails, the controller restarts).  The cached copy of the
    step is taken to be the stored one: from an older copy the patch of a state is
    refused by the API server's optimistic lock, and the guard reads the step
    again. *)

From stdpp Require Import base gmap strings list.
From Stdlib Require Import Lia ZArith.
From S2P Require Import Prelude Actor Freeze Engine StepStatus Hooks Outbox Bake Transition Cancel Pending Promoting Merge HealthCheck.
Import Freeze.Freeze StepStatus.StepStatus Outbox.Outbox Transition.Transition Cancel.Cancel Pending.Pending Merge.Merge
  HealthCheck.HealthCheck.

Module Promotion.

(** [in_parent]: the Bundle of the step.  [in_fresh]: the step read again from the
    API server, and whether it is being deleted.  [in_unresolved]: the environment
    of the step is not one of its Pipeline. *)
Record Inputs := mkInputs {
  in_cx : Context_;
  in_spec : Spec;
  in_ref : StepRef;
  in_reads : Reads;
  in_host : Host;
  in_promoting : Promoting.PromotingReads;
  in_target : bool;
  in_merge : MergeReads;
  in_health : HealthReads;
  in_rnd : Duration;
  in_parent : read HaltView;
  in_fresh : read bool;
  in_unresolved : bool
}.

Section promotion.
Variable ExemptionKey : FreezeExemption → string.
Variable exemptionMessage : FreezeMatch → string.
Variable exemptionSuffix : FreezeMatch → string.
Variable NormalizeRepository : string → option string.
Variable ParseDuration : string → option Duration.
Variable ParsePRURL : string → option (string * Z).
Variable RepoFromURL : string → option string.
Variable hash : string → string.
Variable Fit : string → string.
Variable SCMWaitTimeout : Duration.

Definition holdUnresolvedEnvironment (i : Inputs) (s : Status) : option outcome :=
  if in_unresolved i then Some (wait_for "environment cannot be resolved" (RequeueAfter unresolvedRecheck) s) else None.

(** The handler of the step's state. *)
Definition dispatch (i : Inputs) (s : Status) : outcome :=
  match State_ s with
  | StatePending | StatePendingExplicit =>
      or_else (holdUnresolvedEnvironment i s)
        (handlePending ExemptionKey exemptionMessage exemptionSuffix NormalizeRepository (in_cx i) (in_spec i) (in_reads i) s)
  | StatePromoting =>
      or_else (holdUnresolvedEnvironment i s)
        (Promoting.handlePromoting ExemptionKey exemptionMessage exemptionSuffix NormalizeRepository ParsePRURL RepoFromURL hash
           (in_cx i) (in_spec i) (in_ref i) (in_reads i) (in_host i) (in_promoting i) SCMWaitTimeout (in_target i) s)
  | StateWaitingForMerge =>
      or_else (holdUnresolvedEnvironment i s)
        (handleWaitingForMerge ParseDuration ParsePRURL RepoFromURL hash (in_cx i) (in_spec i) (in_ref i) (in_reads i)
           (in_host i) (in_merge i) SCMWaitTimeout s)
  | StateHealthChecking =>
      or_else (holdUnresolvedEnvironment i s)
        (handleHealthChecking ParseDuration ParsePRURL RepoFromURL (in_cx i) (in_ref i) (in_reads i) (in_health i) s)
  | StateVerifying =>
      or_else (holdUnresolvedEnvironment i s)
        (handleVerifying Fit (in_cx i) (in_spec i) (in_reads i) (in_health i) s)
  | StateVerified | StateFailed | StateSuperseded | StateAbortedByAlarm | StateRollingBack => quiet Stop
  | StateOther _ => patched (transition (in_cx i) (State_ s) StatePendingExplicit "" s) Requeue
  end.

Definition reconcileState (i : Inputs) (s : Status) : outcome :=
  if bool_decide (s_Bundle (in_spec i) = "") then dispatch i s
  else match in_parent i with
       | Missing => mkOut [DeleteStep] Stop
       | ReadError => quiet Error_
       | Got b =>
           match haltOf b with
           | None => dispatch i s
           | Some h =>
               if negb (cancels h (State_ s)) then dispatch i s
               else match in_fresh i with
                    | ReadError => quiet Error_
                    | Missing => quiet Stop
                    | Got true => quiet Stop
                    | Got false =>
                        let '(o, live) := handleSuperseded ParsePRURL RepoFromURL hash (in_ref i) (in_host i) (in_cx i)
                                            (in_rnd i) SCMWaitTimeout h s in
                        match live with
                        | None => o
                        | Some s' => after (effects o) (dispatch i s')
                        end
                    end
           end
       end.

(** ** The edges of the state machine *)

Definition terminal (st : State) : bool :=
  match st with
  | StateVerified | StateFailed | StateSuperseded | StateAbortedByAlarm | StateRollingBack => true
  | _ => false
  end.

(** The states a reconcile may move a step to. *)
Definition next_states (st : State) : list State :=
  match st with
  | StatePending | StatePendingExplicit => [StatePromoting; StateFailed]
  | StatePromoting => [StateWaitingForMerge; StateHealthChecking; StateSuperseded; StateFailed]
  | StateWaitingForMerge => [StateHealthChecking; StateFailed]
  | StateHealthChecking => [StateVerified; StateVerifying; StateSuperseded; StateFailed; StateAbortedByAlarm; StateRollingBack]
  | StateVerifying => [StateVerified; StateFailed; StateAbortedByAlarm; StateRollingBack]
  | StateOther _ => [StatePendingExplicit]
  | StateVerified | StateFailed | StateSuperseded | StateAbortedByAlarm | StateRollingBack => []
  end.

Lemma policy_state_next hr st : policy_state hr = Some st → st ∈ [StateFailed; StateAbortedByAlarm; StateRollingBack].
Proof. intros [->|[[-> _]|[-> _]]]%policy_state_cases; set_solver. Qed.

(** The adapter of the environment said it is healthy, or there is none. *)
Definition saw_healthy (i : Inputs) : Prop :=
  hr_detector (in_health i) = false ∨ healthy_answer (in_health i).

(** Why a reconcile may move the step [s] to a state. *)
Definition because (i : Inputs) (s : Status) (st : State) : Prop :=
  match st with
  | StatePromoting =>
      starts (handlePending ExemptionKey exemptionMessage exemptionSuffix NormalizeRepository (in_cx i) (in_spec i) (in_reads i) s)
  | StateWaitingForMerge => Promoting.run_leads (in_promoting i) s StateWaitingForMerge
  | StateHealthChecking =>
      if bool_decide (State_ s = StatePromoting) then Promoting.run_leads (in_promoting i) s StateHealthChecking
      else stepPRMerged ParsePRURL RepoFromURL (in_ref i) (in_merge i) s = true
  | StateVerifying => saw_healthy i
  | StateVerified =>
      if bool_decide (State_ s = StateVerifying)
      then post_hooks_passed (in_spec i) (in_health i) ∧ analyses_passed Fit (in_health i)
      else saw_healthy i
  | _ => True
  end.

Lemma or_else_unresolved i s k p :
  Patch p ∈ effects (or_else (holdUnresolvedEnvironment i s) k) → State_ p = State_ s ∨ Patch p ∈ effects k.
Proof.
  unfold holdUnresolvedEnvironment. destruct (in_unresolved i); simpl; [|auto].
  unfold wait_for. case_bool_decide; [by intros ?%elem_of_nil|intros [= ->]%list_elem_of_singleton; by left].
Qed.

Lemma pending_edge i s p :
  let o := handlePending ExemptionKey exemptionMessage exemptionSuffix NormalizeRepository (in_cx i) (in_spec i) (in_reads i) s in
  State_ s ≠ StatePromoting → Patch p ∈ effects o →
  State_ p = State_ s ∨ State_ p = StateFailed ∨ (State_ p = StatePromoting ∧ starts o).
Proof.
  intros o Hne Hp. pose proof Hp as Hp'. apply handlePending_states in Hp as [Hp|[Hp|Hp]]; [by left|right; by left| |done].
  right. right. split; [done|]. by exists p.
Qed.

Lemma dispatch_edges i s p :
  Patch p ∈ effects (dispatch i s) → State_ p = State_ s ∨ (State_ p ∈ next_states (State_ s) ∧ because i s (State_ p)).
Proof.
  unfold dispatch, because. destruct (State_ s) eqn:Es; cbn [next_states]; try (by intros ?%elem_of_nil).
  - intros [Hp|Hp]%or_else_unresolved; [left; congruence|].
    apply pending_edge in Hp as [Hp|[Hp|[Hp Hst]]]; [left; congruence|right; rewrite Hp; split; [set_solver|done]..|congruence].
  - intros [Hp|Hp]%or_else_unresolved; [left; congruence|].
    apply pending_edge in Hp as [Hp|[Hp|[Hp Hst]]]; [left; congruence|right; rewrite Hp; split; [set_solver|done]..|congruence].
  - intros [Hp|Hp]%or_else_unresolved; [left; congruence|].
    apply Promoting.handlePromoting_states in Hp as [Hp|[Hp|[_ Hp]]]; [left; congruence|right; rewrite Hp; split; [set_solver|done]|].
    right. destruct Hp as [Hp|[Hp|Hp]]; pose proof Hp as [E _]; rewrite E; (split; [set_solver|]); try done.
    + left. split; [done|apply Hp].
    + right. left. split; [done|apply Hp].
  - intros [Hp|Hp]%or_else_unresolved; [left; congruence|].
    pose proof (handleWaitingForMerge_moves ParseDuration ParsePRURL RepoFromURL hash (in_cx i) (in_spec i) (in_ref i) (in_reads i)
      (in_host i) (in_merge i) SCMWaitTimeout s p Hp) as Hm.
    destruct Hm as [Hm|Hm]; [left; congruence|right].
    destruct (stepPRMerged _ _ _ _ s) eqn:Em; apply list_elem_of_singleton in Hm; rewrite Hm; (split; [set_solver|done]).
  - intros [Hp|Hp]%or_else_unresolved; [left; congruence|].
    destruct (handleHealthChecking_goal ParseDuration ParsePRURL RepoFromURL (in_cx i) (in_ref i) (in_reads i) (in_health i) s p Hp)
      as [Hg|[Hg|[Hg|[[Hg _]|[Hg Hh]]]]]; [left; congruence|right..].
    + apply policy_state_next in Hg. destruct (State_ p); try set_solver; (split; [set_solver|done]).
    + rewrite Hg. split; [set_solver|done].
    + rewrite Hg. split; [set_solver|done].
    + assert (saw_healthy i) by (destruct Hh as [?|[? _]]; [by left|by right]).
      rewrite Hg. destruct (verifies _); (split; [set_solver|done]).
  - intros [Hp|Hp]%or_else_unresolved; [left; congruence|].
    apply handleVerifying_states in Hp as [Hp|[Hp|[Hp Hv]]]; [left; congruence|right..].
    + apply policy_state_next in Hp. destruct (State_ p); try set_solver; (split; [set_solver|done]).
    + rewrite Hp. split; [set_solver|done].
  - destruct (transition_total (in_cx i) (StateOther s0) StatePendingExplicit "" s) as (q & -> & Hq & _); [done|].
    intros [= ->]%list_elem_of_singleton. right. rewrite Hq. split; [set_solver|done].
Qed.

(** Only the nextRetryAt of a step that is left to its handler is cleared first. *)
Definition unretried (s : Status) : Status := map_retry (set_NextRetryAt None) s.

Lemma handleSuperseded_live i h s o s' :
  handleSuperseded ParsePRURL RepoFromURL hash (in_ref i) (in_host i) (in_cx i) (in_rnd i) SCMWaitTimeout h s = (o, Some s') →
  effects o = [] ∧ s' = unretried s ∧ mergedIsLive h = true.
Proof.
  unfold handleSuperseded, cancelStep. destruct (_ && (0 <? _)); [done|].
  destruct (closeStepPRMerged _ _ _ _ _ _ _) as [es x] eqn:E. destruct (closeStepPRMerged_effects _ _ _ _ _ _ _ _ _ E) as (_ & Hx & _).
  destruct x as [e|m]; [done|]. destruct (m && mergedIsLive h) eqn:Em; [|done]. apply andb_true_iff in Em as [-> Em].
  intros [= <- <-]. split_and!; [by apply Hx|done|done].
Qed.

(** The status the handler starts from: the step's, or one whose backoff is
    over. *)
Lemma reconcileState_edges i s p :
  Patch p ∈ effects (reconcileState i s) →
  State_ p = State_ s ∨ (isCancellable (State_ s) = true ∧ State_ p = StateFailed) ∨
  ∃ s', (s' = s ∨ s' = unretried s) ∧ State_ p ∈ next_states (State_ s) ∧ because i s' (State_ p).
Proof.
  assert (Patch p ∈ effects (dispatch i s) →
    State_ p = State_ s ∨ (isCancellable (State_ s) = true ∧ State_ p = StateFailed) ∨
    ∃ s', (s' = s ∨ s' = unretried s) ∧ State_ p ∈ next_states (State_ s) ∧ because i s' (State_ p)) as Hd.
  { intros [Hp|[Hp Hb]]%dispatch_edges; [by left|]. right. right. exists s. auto. }
  unfold reconcileState. destruct (bool_decide _); [done|].
  destruct (in_parent i) as [b| |]; [|simpl; intros ?%list_elem_of_singleton; done|by intros ?%elem_of_nil].
  destruct (haltOf b) as [h|]; [|done]. destruct (cancels h (State_ s)) eqn:Ec; cbn [negb]; [|done].
  assert (isCancellable (State_ s) = true) as Ht.
  { unfold cancels in Ec. case_bool_decide as E; [by rewrite E|done]. }
  destruct (in_fresh i) as [[]| |]; [by intros ?%elem_of_nil| |by intros ?%elem_of_nil..].
  destruct (handleSuperseded _ _ _ _ _ _ _ _ h s) as [o [s'|]] eqn:E.
  - apply handleSuperseded_live in E as (Ee & -> & _). simpl. rewrite Ee. cbn [app].
    intros [Hp|[Hp Hb]]%dispatch_edges; [by left|]. right. right. exists (unretried s). auto.
  - intros Hp. assert (Patch p ∈ effects (handleSuperseded ParsePRURL RepoFromURL hash (in_ref i) (in_host i) (in_cx i) (in_rnd i)
      SCMWaitTimeout h s).1) as Hp' by (by rewrite E).
    apply cancelStep_states in Hp' as [?|?]; auto.
Qed.

Lemma reconcile_leaves i s s' :
  leaves s (effects (reconcileState i s)) s' →
  s' = s ∨ State_ s' = State_ s ∨ (isCancellable (State_ s) = true ∧ State_ s' = StateFailed) ∨
  ∃ s0, (s0 = s ∨ s0 = unretried s) ∧ State_ s' ∈ next_states (State_ s) ∧ because i s0 (State_ s').
Proof. intros [->|Hp]%leaves_cases; [by left|right]. by apply reconcileState_edges. Qed.

(** What the handlers do: a step keeps its state or moves along an edge, and nothing is
    done for one in a terminal state but deleting it once its Bundle is gone. *)
Lemma handlers_state_machine i s s' :
  leaves s (effects (reconcileState i s)) s' →
  (State_ s' = State_ s ∨ State_ s' ∈ next_states (State_ s)) ∧
  (terminal (State_ s) = true → s' = s ∧ ∀ e, e ∈ effects (reconcileState i s) → e = DeleteStep).
Proof.
  intros Hl. split.
  - destruct (reconcile_leaves _ _ _ Hl) as [->|[?|[[Ht ->]|(s0 & _ & ? & _)]]]; [by left|by left| |by right].
    destruct (State_ s); try done; right; set_solver.
  - intros Ht. assert (∀ e, e ∈ effects (reconcileState i s) → e = DeleteStep) as He.
    { unfold reconcileState, dispatch. case_bool_decide; [by destruct (State_ s); simpl; set_solver|].
      destruct (in_parent i) as [b| |]; [|simpl; set_solver|simpl; set_solver].
      destruct (haltOf b) as [h|]; [|by destruct (State_ s); simpl; set_solver].
      assert (cancels h (State_ s) = false) as -> by (unfold cancels; case_bool_decide as E; [by rewrite E in Ht|by destruct (State_ s)]).
      simpl. by destruct (State_ s); simpl; set_solver. }
    split; [|done]. destruct (leaves_cases _ _ _ Hl) as [?|Hp]; [done|]. by apply He in Hp.
Qed.

(** ** The whole reconcile *)

(** The stored step: its status, status.hookRecords and the hooks its condition
    HooksSkipped names. *)
Record StepObject := mkObject { ob_status : Status; ob_hooks : list Hooks.Hooks.HookRecord; ob_skipped : option (list (string * string)) }.

Definition set_status (o : StepObject) (s : Status) : StepObject := mkObject s (ob_hooks o) (ob_skipped o).

(** What the create of a receipt and the read of one that exists answer. *)
Inductive receipt_answer := ReceiptOurs | ReceiptOthers | ReceiptFailed.

(** [flushReceipt]: the receipt outbox afterwards, and whether it is tried again. *)
Definition flushReceipt (answer : receipt_answer) (patched : bool) (r : ReceiptStatus) : ReceiptStatus * bool :=
  if negb (PendingReceipt r) then (r, false)
  else match answer with
       | ReceiptFailed => (r, true)
       | ReceiptOurs => if patched then (mkReceipt false true (ReceiptError r), false) else (r, true)
       | ReceiptOthers => if patched then (mkReceipt false false true, false) else (r, true)
       end.

(** [recordSkippedHooks]: the condition, and whether it changed. *)
Definition recordSkippedHooks (hs : option (list Hooks.Hooks.LiveHookRun)) (c : option (list (string * string))) : option (list (string * string)) * bool :=
  match hs with
  | None => (c, false)
  | Some hs =>
      let skipped := Hooks.Hooks.skipped_hooks hs in
      if bool_decide (skipped = []) then (c, false)
      else if bool_decide (c = Some skipped) then (c, false) else (Some skipped, true)
  end.

(** How a locked patch ends. *)
Inductive write_answer := WriteDone | WriteConflict | WriteGone | WriteError.

(** What the reconcile reads and is answered before the handlers: [ou_live] is the mirror
    of the hooks. *)
Record Outer := mkOuter {
  ou_create : Entry → create_result;
  ou_auditPatched : bool;
  ou_receipt : receipt_answer;
  ou_receiptPatched : bool;
  ou_deleted : bool;
  ou_finalizer : write_answer;
  ou_live : option (list Hooks.Hooks.LiveHookRun);
  ou_hooksPatched : write_answer;
  ou_finalizerAfter : write_answer
}.

(** A write of the step, of its finalizer, what handleDeleted does (it closes the pull
    request and writes no status), or an effect of a handler. *)
Inductive object_effect := PatchObject (o : StepObject) | SyncFinalizer | HandleDeleted | Handler (e : effect).

Definition syncFailed (w : write_answer) : option result :=
  match w with WriteConflict => Some (RequeueAfter second) | WriteError => Some Error_ | WriteDone | WriteGone => None end.

Definition flushed (ou : Outer) (o : StepObject) : list object_effect * StepObject * bool :=
  let s := ob_status o in
  let '(p, aerr) := flushAudit (ou_create ou) (ou_auditPatched ou) (PendingAudit s) in
  let o1 := set_status o (set_PendingAudit p s) in
  let '(r, rerr) := flushReceipt (ou_receipt ou) (ou_receiptPatched ou) (receipt s) in
  let o2 := set_status o (set_receipt r (set_PendingAudit p s)) in
  ((if bool_decide (length p = length (PendingAudit s)) then [] else [PatchObject o1]) ++
   (if bool_decide (PendingReceipt r = PendingReceipt (receipt s)) then [] else [PatchObject o2]), o2, aerr || rerr).

(** The hooks recorded on the step, and whether that changed it. *)
Definition hooks_recorded (ou : Outer) (o : StepObject) : StepObject * bool :=
  let '(c, skipped) := recordSkippedHooks (ou_live ou) (ob_skipped o) in
  let '(rs, recorded) := Hooks.Hooks.recordHookRuns (ou_live ou) (ob_hooks o) in
  (mkObject (ob_status o) rs c, skipped || recorded).

(** The handlers, and what follows them. *)
Definition handled (ou : Outer) (i : Inputs) (o : StepObject) (auditErr : bool) : list object_effect * result :=
  let out := reconcileState i (ob_status o) in
  let s' := stored (ob_status o) (effects out) in
  match res out with
  | Error_ => (Handler <$> effects out, Error_)
  | r =>
      ((Handler <$> effects out) ++ [SyncFinalizer],
       match syncFailed (ou_finalizerAfter ou) with
       | Some f => f
       | None => retryAudit r auditErr (Z.of_nat (length (PendingAudit s')) + (if PendingReceipt (receipt s') then 1 else 0))
       end)
  end.

Definition reconcile (ou : Outer) (i : Inputs) (o : StepObject) : list object_effect * result :=
  let '(es, o1, auditErr) := flushed ou o in
  if ou_deleted ou then (es ++ [HandleDeleted], Stop)
  else match syncFailed (ou_finalizer ou) with
       | Some f => (es ++ [SyncFinalizer], f)
       | None =>
           let '(o2, changed) := hooks_recorded ou o1 in
           match changed, ou_hooksPatched ou with
           | true, WriteConflict => (es ++ [SyncFinalizer], RequeueAfter second)
           | true, WriteError => (es ++ [SyncFinalizer], Error_)
           | true, WriteDone =>
               let '(es', r) := handled ou i o2 auditErr in (es ++ SyncFinalizer :: PatchObject o2 :: es', r)
           | _, _ => let '(es', r) := handled ou i o2 auditErr in (es ++ SyncFinalizer :: es', r)
           end
       end.

Definition apply_object (o : StepObject) (e : object_effect) : StepObject :=
  match e with
  | PatchObject o' => o'
  | Handler (Patch s) => set_status o s
  | _ => o
  end.

Definition object_leaves (o : StepObject) (es : list object_effect) (o' : StepObject) : Prop :=
  ∃ k, o' = foldl apply_object o (take k es).

(** [o'] is [o] but for the outboxes, which only lose what was written, and what is said of
    hooks. *)
Definition bookkeeping (o o' : StepObject) : Prop :=
  ∃ p r, ob_status o' = set_receipt r (set_PendingAudit p (ob_status o)) ∧ p `sublist_of` PendingAudit (ob_status o) ∧
    (r = receipt (ob_status o) ∨ (PendingReceipt (receipt (ob_status o)) = true ∧ PendingReceipt r = false)).

Lemma bookkeeping_refl o : bookkeeping o o.
Proof. exists (PendingAudit (ob_status o)), (receipt (ob_status o)). split_and!; [by destruct o as [[] ? ?]|done|by left]. Qed.

Lemma bookkeeping_state o o' : bookkeeping o o' → State_ (ob_status o') = State_ (ob_status o).
Proof. by intros (p & r & -> & _). Qed.

Lemma flushAudit_sublist create patched l : (flushAudit create patched l).1 `sublist_of` l.
Proof.
  unfold flushAudit, Flush. case_bool_decide; [done|]. case_bool_decide; simpl; [done|]. destruct patched; simpl; [apply sublist_filter|done].
Qed.

Lemma sublist_same_length {A} (q l : list A) : q `sublist_of` l → length q = length l → q = l.
Proof.
  induction 1 as [|x q l Hq IH|x q l Hq IH]; simpl; intros E; [done|f_equal; auto|]. apply sublist_length in Hq. lia.
Qed.

Lemma flushed_bookkeeping ou o es o' err :
  flushed ou o = (es, o', err) →
  foldl apply_object o es = o' ∧ bookkeeping o o' ∧ ∀ e, e ∈ es → ∃ x, e = PatchObject x ∧ bookkeeping o x.
Proof.
  unfold flushed. pose proof (flushAudit_sublist (ou_create ou) (ou_auditPatched ou) (PendingAudit (ob_status o))) as Hp.
  assert (∀ q, q `sublist_of` PendingAudit (ob_status o) → length q = length (PendingAudit (ob_status o)) → q = PendingAudit (ob_status o)) as Hlen.
  { intros q. apply sublist_same_length. }
  destruct (flushAudit _ _ _) as [p aerr]. cbn [fst] in Hp.
  destruct (flushReceipt _ _ _) as [r rerr] eqn:Er. intros [= <- <- _].
  assert (r = receipt (ob_status o) ∨ (PendingReceipt (receipt (ob_status o)) = true ∧ PendingReceipt r = false)) as Hr.
  { revert Er. unfold flushReceipt. destruct (PendingReceipt (receipt (ob_status o))); cbn [negb]; [|intros [= <- _]; by left].
    destruct (ou_receipt ou), (ou_receiptPatched ou); intros [= <- _]; auto. }
  assert (bookkeeping o (set_status o (set_receipt r (set_PendingAudit p (ob_status o))))) as H2 by (by exists p, r).
  assert (bookkeeping o (set_status o (set_PendingAudit p (ob_status o)))) as H1.
  { exists p, (receipt (ob_status o)). split_and!; [by destruct o as [[] ? ?]|done|by left]. }
  split_and!; [|done|intros e; rewrite elem_of_app; repeat case_bool_decide; set_solver].
  assert (PendingReceipt r = PendingReceipt (receipt (ob_status o)) → r = receipt (ob_status o)) as Hre by (destruct Hr as [?|[-> ->]]; done).
  case_bool_decide as E1; [rewrite (Hlen p Hp E1)|]; (case_bool_decide as E2; [rewrite (Hre E2)|]); by destruct o as [[] ? ?].
Qed.

Lemma hooks_recorded_status ou o o' ch : hooks_recorded ou o = (o', ch) → ob_status o' = ob_status o.
Proof. unfold hooks_recorded. destruct (recordSkippedHooks _ _), (Hooks.Hooks.recordHookRuns _ _). by intros [= <- _]. Qed.

(** The effects of the handlers, seen from the stored step. *)
Lemma handlers_leave es o k :
  foldl apply_object o (take k (Handler <$> es)) = set_status o (stored (ob_status o) (take k es)).
Proof.
  revert o k. induction es as [|e es IH]; intros o [|k]; try (by destruct o). csimpl. rewrite IH. destruct e; try done.
Qed.

(** What a run of the handlers leaves of a step [x] with the status they read. *)
Lemma handled_leaves ou i o x err k :
  ob_status x = ob_status o →
  leaves (ob_status o) (effects (reconcileState i (ob_status o))) (ob_status (foldl apply_object x (take k (handled ou i o err).1))).
Proof.
  intros Hx. exists k. unfold handled. rewrite <- Hx. destruct (res (reconcileState i (ob_status x))).
  4: { cbn [fst]. by rewrite handlers_leave. }
  all: cbn [fst]; rewrite take_app, foldl_app, handlers_leave; by destruct (k - _)%nat as [|[|n]].
Qed.

Lemma handled_effects ou i o err e :
  e ∈ (handled ou i o err).1 → e = SyncFinalizer ∨ ∃ h, e = Handler h ∧ h ∈ effects (reconcileState i (ob_status o)).
Proof.
  assert (e ∈ Handler <$> effects (reconcileState i (ob_status o)) → ∃ h, e = Handler h ∧ h ∈ effects (reconcileState i (ob_status o))) as H
    by (by intros (h & -> & ?)%list_elem_of_fmap; exists h).
  unfold handled. destruct (res _); cbn [fst]; rewrite ?elem_of_app, ?list_elem_of_singleton; naive_solver.
Qed.

(** The reconcile is bookkeeping ([es1]) and then, perhaps, a run of the handlers from a
    status that differs from the stored one only by it. *)
Lemma reconcile_split ou i o :
  ∃ es1 es2 o1, (reconcile ou i o).1 = es1 ++ es2 ∧ bookkeeping o o1 ∧
    (∀ e, e ∈ es1 → e = SyncFinalizer ∨ e = HandleDeleted ∨ ∃ x, e = PatchObject x ∧ bookkeeping o x) ∧
    (es2 = [] ∨ (es2 = (handled ou i o1 (flushed ou o).2).1 ∧ ob_status (foldl apply_object o es1) = ob_status o1)).
Proof.
  unfold reconcile. destruct (flushed ou o) as [[es o1] err] eqn:Ef. destruct (flushed_bookkeeping _ _ _ _ _ Ef) as (Hst & Hb & He).
  destruct (hooks_recorded ou o1) as [o2 ch] eqn:Eh. pose proof (hooks_recorded_status _ _ _ _ Eh) as Hs. cbn [snd].
  assert (bookkeeping o o2) as Hb2 by (destruct Hb as (p & r & E & ? & ?); exists p, r; by rewrite Hs).
  assert (∀ l, (∀ e, e ∈ l → e = SyncFinalizer ∨ e = HandleDeleted ∨ e = PatchObject o2) →
    ∀ e, e ∈ es ++ l → e = SyncFinalizer ∨ e = HandleDeleted ∨ ∃ x, e = PatchObject x ∧ bookkeeping o x) as Hall.
  { intros l Hl e [Hin|Hin]%elem_of_app; [right; right; by apply He|]. destruct (Hl e Hin) as [?|[?|?]]; eauto. }
  destruct (ou_deleted ou).
  { exists (es ++ [HandleDeleted]), [], o2. rewrite app_nil_r. split_and!; [done|done|apply Hall; set_solver|by left]. }
  destruct (syncFailed (ou_finalizer ou)).
  { exists (es ++ [SyncFinalizer]), [], o2. rewrite app_nil_r. split_and!; [done|done|apply Hall; set_solver|by left]. }
  assert (∀ r, (let '(es', r') := handled ou i o2 err in (es ++ SyncFinalizer :: es', r')) = r →
    ∃ es1 es2 o1, r.1 = es1 ++ es2 ∧ bookkeeping o o1 ∧
    (∀ e, e ∈ es1 → e = SyncFinalizer ∨ e = HandleDeleted ∨ ∃ x, e = PatchObject x ∧ bookkeeping o x) ∧
    (es2 = [] ∨ (es2 = (handled ou i o1 err).1 ∧ ob_status (foldl apply_object o es1) = ob_status o1))) as Hrun.
  { intros r0 <-. exists (es ++ [SyncFinalizer]), (handled ou i o2 err).1, o2. destruct (handled ou i o2 err) as [es' r'].
    split_and!; [by rewrite <- app_assoc|done|apply Hall; set_solver|]. right. split; [done|]. by rewrite foldl_app, Hst. }
  destruct ch; [|by apply Hrun]. destruct (ou_hooksPatched ou); [| |by apply Hrun|].
  - exists (es ++ [SyncFinalizer; PatchObject o2]), (handled ou i o2 err).1, o2. destruct (handled ou i o2 err) as [es' r'].
    split_and!; [by rewrite <- app_assoc|done|apply Hall; set_solver|]. right. split; [done|]. by rewrite foldl_app.
  - exists (es ++ [SyncFinalizer]), [], o2. rewrite app_nil_r. split_and!; [done|done|apply Hall; set_solver|by left].
  - exists (es ++ [SyncFinalizer]), [], o2. rewrite app_nil_r. split_and!; [done|done|apply Hall; set_solver|by left].
Qed.

Lemma bookkeeping_fold o l x :
  bookkeeping o x → (∀ e, e ∈ l → e = SyncFinalizer ∨ e = HandleDeleted ∨ ∃ x, e = PatchObject x ∧ bookkeeping o x) →
  bookkeeping o (foldl apply_object x l).
Proof.
  revert x. induction l as [|e l IH]; intros x Hx Hl; [done|]. cbn [foldl]. apply IH; [|intros y Hy; apply Hl; by right].
  destruct (Hl e (list_elem_of_here _ _)) as [->|[->|(y & -> & Hy)]]; done.
Qed.


(** ** Histories *)

(** A step from its creation, and the inputs of the reconciles so far: each may
    stop after any of its effects. *)
Inductive history : list Inputs → Status → Prop :=
  | history_start s : unstarted (State_ s) = true → history [] s
  | history_step l s i s' : history l s → leaves s (effects (reconcileState i s)) s' → history (l ++ [i]) s'.

(** What a reconcile saw when it started the step: no pause, its images verified,
    its hooks passed and its gates ready and fresh. *)
Definition saw_start (i : Inputs) : Prop :=
  rd_paused (in_reads i) = Some false ∧ images_verified NormalizeRepository (in_spec i) (in_reads i) ∧
  hooks_passed (in_spec i) ∧ gates_open (in_spec i) (in_reads i) (s_RequiredGates (in_spec i)).

(** What a reconcile saw when it sent the step to its health check, or to wait for
    its merge. *)
Definition saw_run (i : Inputs) : Prop :=
  ∃ s, Promoting.run_leads (in_promoting i) s StateWaitingForMerge ∨ Promoting.run_leads (in_promoting i) s StateHealthChecking.

(** How far a step in a state has come. *)
Definition progress (st : State) : nat :=
  match st with
  | StatePromoting => 1
  | StateWaitingForMerge | StateHealthChecking => 2
  | StateVerifying | StateVerified => 3
  | _ => 0
  end.

(** The reconciles a step in a state must have gone through, in order. *)
Definition came_through (l : list Inputs) (st : State) : Prop :=
  match progress st with
  | 1%nat => ∃ a, [a] `sublist_of` l ∧ saw_start a
  | 2%nat => ∃ a b, [a; b] `sublist_of` l ∧ saw_start a ∧ saw_run b
  | 3%nat => ∃ a b c, [a; b; c] `sublist_of` l ∧ saw_start a ∧ saw_run b ∧ saw_healthy c
  | _ => True
  end.

Lemma came_through_mono l i st st' : progress st' = progress st → came_through l st → came_through (l ++ [i]) st'.
Proof.
  unfold came_through. intros ->. destruct (progress st) as [|[|[|[|]]]]; try done.
  - intros (a & ? & ?). exists a. split; [by apply sublist_inserts_r|done].
  - intros (a & b & ? & ? & ?). exists a, b. split_and!; [by apply sublist_inserts_r|done..].
  - intros (a & b & c & ? & ? & ? & ?). exists a, b, c. split_and!; [by apply sublist_inserts_r|done..].
Qed.

Lemma sublist_snoc {A} (k l : list A) x : k `sublist_of` l → (k ++ [x]) `sublist_of` (l ++ [x]).
Proof. intros H. by apply sublist_app. Qed.

Lemma starts_saw i s :
  State_ s ≠ StatePromoting →
  starts (handlePending ExemptionKey exemptionMessage exemptionSuffix NormalizeRepository (in_cx i) (in_spec i) (in_reads i) s) →
  saw_start i.
Proof.
  intros Hs Hst. apply (handlePending_starts ExemptionKey exemptionMessage exemptionSuffix NormalizeRepository (in_cx i)
    (in_spec i) (in_reads i) s Hs) in Hst as (pl & b & _ & _ & _ & (Hp & _) & _ & _ & _ & Hi & Hh & Hg & _).
  by split_and!.
Qed.

Lemma history_came_through l s : history l s → came_through l (State_ s).
Proof.
  induction 1 as [s Hs|l s i s' Hh IH Hl]; [unfold came_through; by destruct (State_ s)|].
  destruct (reconcile_leaves _ _ _ Hl) as [->|[Hk|[[_ Hf]|(s0 & Hs0 & Hn & Hb)]]].
  - by apply (came_through_mono l i (State_ s)).
  - rewrite Hk. by apply (came_through_mono l i (State_ s)).
  - rewrite Hf. done.
  - assert (State_ s0 = State_ s) as Es by (by destruct Hs0 as [-> | ->]). unfold because in Hb. rewrite Es in Hb.
    destruct (State_ s) eqn:E; cbn [next_states] in Hn;
      repeat (apply elem_of_cons in Hn as [Hn|Hn]; [rewrite Hn in Hb |- *; try done|]); try by apply elem_of_nil in Hn.
    + exists i. split; [apply (sublist_inserts_l l), sublist_skip, sublist_nil|]. apply (starts_saw _ s0); [congruence|done].
    + exists i. split; [apply (sublist_inserts_l l), sublist_skip, sublist_nil|]. apply (starts_saw _ s0); [congruence|done].
    + destruct IH as (a & Ha & Hsa). exists a, i. split_and!; [by apply (sublist_snoc [a])|done|exists s0; by left].
    + destruct IH as (a & Ha & Hsa). exists a, i. split_and!; [by apply (sublist_snoc [a])|done|].
      exists s0. right. rewrite bool_decide_true in Hb by done. done.
    + by apply (came_through_mono l i StateWaitingForMerge).
    + destruct IH as (a & b & Ha & Hsa & Hsb). exists a, b, i. split_and!; [by apply (sublist_snoc [a; b])|done..].
    + destruct IH as (a & b & Ha & Hsa & Hsb). exists a, b, i. split_and!; [by apply (sublist_snoc [a; b])|done..].
    + by apply (came_through_mono l i StateVerifying).
Qed.

(** C1. What a Verified step went through.  In every history of a step, with any
    reads, failures and restarts, a step that is Verified (or Verifying) was
    started by a reconcile that saw no pause, the verified images, every pre-deploy
    hook passed and every required gate ready and evaluated since the step was
    created; later its steps ran to the end, or to an open pull request; and later
    still its health check found it healthy (or the controller has no adapter). *)
Theorem verified_history l s :
  history l s → State_ s = StateVerified ∨ State_ s = StateVerifying →
  ∃ a b c, [a; b; c] `sublist_of` l ∧ saw_start a ∧ saw_run b ∧ saw_healthy c.
Proof. intros H%history_came_through [E|E]; by rewrite E in H. Qed.
End promotion.

(** ** A promotion from start to end *)

Definition demo_execution : Promoting.Execution :=
  Promoting.mkExecution 8 (Engine.mkResult Engine.StepSuccess "all steps complete" ∅ 0) None ∅ ∅ None false false false None None.

Definition demo_promoting : Promoting.PromotingReads :=
  Promoting.mkPromotingReads false Promoting.CredentialFound None None (Some false) demo_execution "" 0 0 0.

Definition demo_inputs (parent : HaltView) : Inputs :=
  mkInputs (demo_cx (120 * second)) demo_spec demo_ref demo_reads demo_host demo_promoting true demo_merge demo_healthy 0
    (Got parent) (Got false) false.

Abbreviation demo_reconcile i :=
  (reconcileState (λ _, "") (λ _, "") (λ _, "") Some (λ _, None) (λ _, None) (λ _, None) (λ _, "0123abcd") (λ t, t) 0 i).
Abbreviation demo_history :=
  (history (λ _, "") (λ _, "") (λ _, "") Some (λ _, None) (λ _, None) (λ _, None) (λ _, "0123abcd") (λ t, t) 0).

Definition demo_go : Inputs := demo_inputs (mkHaltView false "Promoting").
Definition demo_next (s : Status) : Status := stored s (effects (demo_reconcile demo_go s)).

Lemma demo_history_next l s : demo_history l s → demo_history (l ++ [demo_go]) (demo_next s).
Proof. intros H. eapply history_step; [exact H|]. eexists. by rewrite firstn_all. Qed.

Lemma verified_history_witness :
  State_ (demo_next (demo_next (demo_next (demo_status StatePending)))) = StateVerified ∧
  ∃ a b c, [a; b; c] `sublist_of` [demo_go; demo_go; demo_go] ∧ saw_start Some a ∧ saw_run b ∧ saw_healthy c.
Proof.
  assert (State_ (demo_next (demo_next (demo_next (demo_status StatePending)))) = StateVerified) as E by (vm_compute; reflexivity).
  split; [exact E|].
  apply (verified_history (λ _, "") (λ _, "") (λ _, "") Some (λ _, None) (λ _, None) (λ _, None) (λ _, "0123abcd") (λ t, t) 0
    [demo_go; demo_go; demo_go] (demo_next (demo_next (demo_next (demo_status StatePending))))); [|by left].
  apply (demo_history_next [demo_go; demo_go]), (demo_history_next [demo_go]), (demo_history_next []), history_start. reflexivity.
Defined.

Definition demo_outer : Outer := mkOuter (λ _, Created) true ReceiptOurs true false WriteDone None WriteDone WriteDone.

Abbreviation demo_outer_reconcile i o :=
  (reconcile (λ _, "") (λ _, "") (λ _, "") Some (λ _, None) (λ _, None) (λ _, None) (λ _, "0123abcd") (λ t, t) 0 demo_outer i o).

End Promotion.
