(* ===== verification/History.v ===== *)
(** * History: what an environment ran

    Model of the environment history of src/pkg/lifecycle/rollback.go and deployed.go
    (envHistory: historyOf, deployed, verifiedNewestFirst, verifiedIn, landedIn,
    inFlight, stepLanded, newerStep, verifiedAt), on which [Rollback] decides.  A Go
    map is iterated in any order; both results are determined by total orders on the
    steps and on the entries, so the order of [map_to_list] stands for any. *)

From stdpp Require Import base gmap strings list sorting.
From Stdlib Require Import Lia ZArith.
From S2P Require Import Prelude StepStatus.
Import StepStatus.StepStatus.

Module History.

(** A PromotionStep as far as the history reads it.  [st_VerifiedTime] is the time of
    its Verified=True condition ([VerifiedTime]), [st_HealthStarted] whether
    status.healthCheckExpiry is set. *)
Record Step := mkStepOf {
  st_Name : string;
  st_Bundle : string;
  st_Pipeline : string;
  st_Environment : string;
  st_State : State;
  st_Created : Time;
  st_VerifiedTime : option Time;
  st_HealthStarted : bool
}.

(** [byBundle]. *)
Abbreviation envHistory := (gmap string (list Step)).

Definition history_step (pipeline env : string) (h : envHistory) (s : Step) : envHistory :=
  if bool_decide (st_Pipeline s = pipeline) && bool_decide (st_Environment s = env) && negb (bool_decide (st_Bundle s = ""))
  then <[st_Bundle s := default [] (h !! st_Bundle s) ++ [s]]> h else h.

Definition historyOf (steps : list Step) (pipeline env : string) : envHistory :=
  foldl (history_step pipeline env) ∅ steps.

Definition stepLanded (s : Step) : bool :=
  match st_State s with
  | StateHealthChecking | StateVerifying | StateVerified | StateAbortedByAlarm | StateRollingBack => true
  | StateFailed => st_HealthStarted s
  | _ => false
  end.

Definition newerStep (a b : Step) : bool :=
  if negb (st_Created a =? st_Created b) then st_Created b <? st_Created a else str_ltb (st_Name b) (st_Name a).

Definition newest_landed (n : option Step) (s : Step) : option Step :=
  if negb (stepLanded s) then n
  else match n with
       | None => Some s
       | Some n => if newerStep s n then Some s else Some n
       end.

Definition all_steps (h : envHistory) : list Step := mjoin (snd <$> map_to_list h).

Definition deployed (h : envHistory) : string :=
  match foldl newest_landed None (all_steps h) with
  | None => ""
  | Some s => st_Bundle s
  end.

Definition verifiedAt (s : Step) : Time := default (st_Created s) (st_VerifiedTime s).

Definition is_verified (s : Step) : bool := bool_decide (st_State s = StateVerified).

Definition verified_entry (e : string * list Step) : option (string * Time) :=
  if negb (bool_decide (e.2 = [])) && forallb is_verified e.2
  then Some (e.1, foldl (λ at_ s, if at_ <? verifiedAt s then verifiedAt s else at_) zeroTime e.2)
  else None.

(** Most recently verified first, then by name. *)
Definition entry_before (a b : string * Time) : bool :=
  if negb (a.2 =? b.2) then b.2 <? a.2 else str_ltb b.1 a.1.

Definition verifiedNewestFirst (h : envHistory) : list string :=
  fst <$> sort_by entry_before (omap verified_entry (map_to_list h)).

Definition verifiedIn (h : envHistory) (bundle : string) : bool :=
  let steps := default [] (h !! bundle) in
  negb (bool_decide (steps = [])) && forallb is_verified steps.

Definition landedIn (h : envHistory) (bundle : string) : bool := existsb stepLanded (default [] (h !! bundle)).

Definition inFlight (h : envHistory) (bundle : string) : bool :=
  existsb (λ s, match st_State s with
                | StatePending | StatePendingExplicit | StatePromoting | StateWaitingForMerge | StateHealthChecking | StateVerifying => true
                | _ => false
                end) (default [] (h !! bundle)).

(** ** What the history says *)

Lemma verifiedNewestFirst_elem h name : name ∈ verifiedNewestFirst h ↔ verifiedIn h name = true.
Proof.
  unfold verifiedNewestFirst, verifiedIn. rewrite list_elem_of_fmap. setoid_rewrite sort_by_elem. setoid_rewrite list_elem_of_omap.
  setoid_rewrite elem_of_map_to_list'. unfold verified_entry. split.
  - intros ([n t] & -> & [k l] & Hl & He). simpl in *. destruct (negb _ && _) eqn:E; [|done]. injection He as -> _. by rewrite Hl.
  - intros H. destruct (h !! name) as [l|] eqn:El; simpl in H; [|done].
    eexists (name, _). split; [done|]. exists (name, l). simpl. rewrite El, H. done.
Qed.

Lemma entries_NoDup h : NoDup (fst <$> omap verified_entry (map_to_list h)).
Proof.
  assert (∀ l : list (string * list Step), NoDup (fst <$> l) → NoDup (fst <$> omap verified_entry l)) as H.
  { induction l as [|e l IH]; [done|]. rewrite fmap_cons. intros [Hn Hd]%NoDup_cons. csimpl.
    destruct (verified_entry e) as [[n t]|] eqn:E; [|by apply IH]. rewrite fmap_cons. apply NoDup_cons. split; [|by apply IH].
    unfold verified_entry in E. destruct (_ && _); [|done]. injection E as <- _. simpl.
    intros ([n' t'] & Hx & (e' & He' & Ee)%list_elem_of_omap)%list_elem_of_fmap. simpl in Hx. subst n'.
    unfold verified_entry in Ee. destruct (_ && _); [|done]. injection Ee as E1 _. apply Hn. rewrite <- E1.
    by apply list_elem_of_fmap_2. }
  apply H, NoDup_fst_map_to_list.
Qed.

Lemma verifiedNewestFirst_NoDup h : NoDup (verifiedNewestFirst h).
Proof. unfold verifiedNewestFirst. rewrite sort_by_perm. apply entries_NoDup. Qed.

(** When the last step of a Bundle in the environment was verified. *)
Definition last_verified (h : envHistory) (n : string) : Time := foldr Z.max zeroTime (verifiedAt <$> default [] (h !! n)).

(** The Bundle was verified more recently: later, or at the same time with a name that
    sorts after. *)
Definition more_recent (h : envHistory) (n m : string) : Prop :=
  last_verified h m < last_verified h n ∨ (last_verified h n = last_verified h m ∧ str_ltb m n = true).

#[export] Instance entry_before_weak : StrictWeak entry_before.
Proof.
  assert (∀ a b : string, str_ltb a b = true → str_ltb b a = false) as Hasym.
  { intros a b H. destruct (str_ltb b a) eqn:E; [|done]. by rewrite <- (str_ltb_irrefl a), (str_ltb_trans a b a H E). }
  assert (∀ a b c : string, str_ltb a b = false → str_ltb b c = false → str_ltb a c = false) as Hneg.
  { intros a b c H1 H2. destruct (str_ltb a c) eqn:E; [|done].
    destruct (str_ltb_total a b) as [->|[?|Hba]]; [congruence|congruence|]. by rewrite (str_ltb_trans b a c Hba E) in H2. }
  split; intros [] []; [|intros []]; unfold entry_before; simpl.
  all: repeat match goal with |- context [?x =? ?y] => destruct (Z.eqb_spec x y); simpl end; subst.
  all: rewrite ?Z.ltb_lt, ?Z.ltb_ge; try done; try lia; eauto.
Qed.

Lemma verified_entry_time h n t :
  (n, t) ∈ omap verified_entry (map_to_list h) → t = last_verified h n.
Proof.
  intros ([k l] & Hl%elem_of_map_to_list & He)%list_elem_of_omap. unfold verified_entry in He. destruct (_ && _); [|done]. injection He as -> <-.
  unfold last_verified. simpl in Hl. rewrite Hl. simpl. clear Hl.
  assert (∀ z, foldl (λ at_ s, if at_ <? verifiedAt s then verifiedAt s else at_) z l = Z.max z (foldr Z.max zeroTime (verifiedAt <$> l)) ∨ z < zeroTime) as H.
  { induction l as [|s l IH]; intros z; csimpl; [destruct (decide (z < zeroTime)); [by right|left; lia]|].
    destruct (Z.ltb_spec z (verifiedAt s)); [destruct (IH (verifiedAt s))|destruct (IH z)]; lia. }
  assert (∀ k, zeroTime ≤ foldr Z.max zeroTime (verifiedAt <$> (k : list Step))) as H0.
  { induction k as [|s k IH]; csimpl; lia. }
  destruct (H zeroTime) as [->|]; [specialize (H0 l)|]; lia.
Qed.

(** The list is in the order of the last verification. *)
Lemma verifiedNewestFirst_before h l1 name l2 n :
  verifiedNewestFirst h = l1 ++ name :: l2 → n ∈ verifiedNewestFirst h → more_recent h n name → n ∈ l1.
Proof.
  intros El Hn Hm. rewrite El in Hn. apply elem_of_app in Hn as [?|Hn]; [done|]. exfalso. unfold verifiedNewestFirst in El.
  assert (∀ e, e ∈ sort_by entry_before (omap verified_entry (map_to_list h)) → e.2 = last_verified h e.1) as Ht.
  { intros [k t] He. apply sort_by_elem in He. by apply verified_entry_time. }
  pose proof (sort_by_sorted entry_before (omap verified_entry (map_to_list h))) as Hs. unfold sorted_by in Hs.
  apply fmap_app_inv in El as (e1 & e2 & -> & El2 & El). symmetry in El2. destruct e2 as [|e e2]; [done|]. rewrite fmap_cons in El2. injection El2 as E1 E2. subst name l2.
  apply elem_of_cons in Hn as [->|(e' & -> & He')%list_elem_of_fmap].
  - destruct Hm as [?|[_ ?]]; [lia|]. by rewrite str_ltb_irrefl in *.
  - assert (entry_before e' e = false) as Hf.
    { rewrite El in Hs. apply StronglySorted_app in Hs as (_ & _ & Hs). apply StronglySorted_cons in Hs as [Hs _]. rewrite Forall_forall in Hs. by apply Hs. }
    unfold entry_before in Hf. rewrite (Ht e'), (Ht e) in Hf; [|rewrite El; set_solver..].
    destruct Hm as [Hlt|[Heq Hl]].
    + rewrite (proj2 (Z.eqb_neq _ _)) in Hf by lia. cbn [negb] in Hf. apply Z.ltb_ge in Hf. lia.
    + rewrite (proj2 (Z.eqb_eq _ _) Heq) in Hf. cbn [negb] in Hf. congruence.
Qed.

(** The steps of a Bundle in the history are its steps in that environment. *)
Lemma historyOf_lookup steps pipeline env b :
  default [] (historyOf steps pipeline env !! b) =
  filter (λ s, st_Pipeline s = pipeline ∧ st_Environment s = env ∧ st_Bundle s = b ∧ b ≠ "") steps.
Proof.
  unfold historyOf. induction steps as [|s l IH] using rev_ind; [done|].
  rewrite foldl_app, filter_app. cbn [foldl]. rewrite <- IH. unfold history_step.
  destruct (decide (st_Pipeline s = pipeline ∧ st_Environment s = env ∧ st_Bundle s ≠ "")) as [(H1 & H2 & H3)|Hn].
  - rewrite !bool_decide_true, (bool_decide_false (_ = "")) by done. cbn [negb andb].
    destruct (decide (st_Bundle s = b)) as [<-|Hb].
    + rewrite lookup_insert_eq. simpl. by rewrite filter_cons_True.
    + rewrite lookup_insert_ne by done. rewrite filter_cons_False by tauto. by rewrite filter_nil, app_nil_r.
  - assert (bool_decide (st_Pipeline s = pipeline) && bool_decide (st_Environment s = env) && negb (bool_decide (st_Bundle s = "")) = false)
      as ->. { repeat case_bool_decide; try done. tauto. }
    rewrite filter_cons_False by naive_solver. by rewrite filter_nil, app_nil_r.
Qed.
End History.
