(* ===== verification/Rollback.v ===== *)
(** * Rollback: what an environment goes back to

    Model of the rollback planning of src/pkg/lifecycle/rollback.go (PlanRollback and
    its helpers), of the artifacts of a Bundle (lifecycle.go), of the rejected
    artifacts (rejected.go), and of what counts as a rollback (isRollbackIn,
    restoresVerified, onlyVerifiedArtifacts and sameRefsAs of hold.go, RollbackFromOf,
    IsAutoRollback and IsControllerRollback of autorollback.go).  The API is a
    snapshot: a Bundle by name is [read], a list is its items or an error. *)

From stdpp Require Import base gmap strings list sorting.
From Stdlib Require Import Lia ZArith.
From S2P Require Import Prelude Actor Engine StepStatus Hooks Outbox Bake Transition Cancel History.
Import StepStatus.StepStatus Cancel.Cancel History.History.

Module Rollback.

(** ** Bundles and their artifacts *)

Record ImageRef := mkImageRef { Repository : string; Tag : string; Digest : string }.
Record ConfigRef := mkConfigRef { GitRepo : string; CommitSHA : string }.
Record ChartRef := mkChartRef { RepoURL : string; ChartName : string; Version : string; ChartDigest : string }.

#[export] Instance ImageRef_eq_dec : EqDecision ImageRef.
Proof. solve_decision. Defined.
#[export] Instance ConfigRef_eq_dec : EqDecision ConfigRef.
Proof. solve_decision. Defined.
#[export] Instance ChartRef_eq_dec : EqDecision ChartRef.
Proof. solve_decision. Defined.

(** The part of a Bundle's spec that is deployed. *)
Record Artifacts := mkArtifacts {
  Type_ : string;
  Images : list ImageRef;
  ConfigRef_ : option ConfigRef;
  Chart : option ChartRef
}.

(** A Bundle.  [b_Rejected] is whether spec.rejected is set, [b_RejectedArtifacts] is
    status.rejectedArtifacts, [b_Actor] the kind and via of spec.actor, [b_Target]
    spec.intent.targetEnvironment (the empty string without an intent), [b_CreatedAt]
    the parsed annotation kardinal.io/created-at. *)
Record Bundle := mkBundle {
  b_Name : string;
  b_Pipeline : string;
  b_Artifacts : Artifacts;
  b_Rejected : bool;
  b_Phase : string;
  b_RejectedArtifacts : option (list ImageRef * string);
  b_RollbackLabel : bool;
  b_Actor : option (string * string);
  b_CreatedBy : string;
  b_RollbackOf : string;
  b_RollbackFrom : string;
  b_RollbackFromAnnotation : string;
  b_Target : string;
  b_Created : Time;
  b_CreatedAt : option Time
}.

Definition commit_of (a : Artifacts) : string := match ConfigRef_ a with Some c => CommitSHA c | None => "" end.

Definition has_commit (a : Artifacts) : bool := negb (bool_decide (commit_of a = "")).

Definition HasArtifacts (a : Artifacts) : bool :=
  negb (bool_decide (Images a = [])) || has_commit a ||
  match Chart a with Some c => negb (bool_decide (Version c = "")) | None => false end.

Definition imageKey (i : ImageRef) : string := Repository i +:+ ":" +:+ Tag i +:+ "@" +:+ Digest i.

Definition imageKeys (a : Artifacts) : list string := sort_by str_ltb (imageKey <$> Images a).

Definition configKey (a : Artifacts) : string :=
  match ConfigRef_ a with Some c => GitRepo c +:+ "@" +:+ CommitSHA c | None => "" end.

Definition chartKey (a : Artifacts) : string :=
  match Chart a with
  | Some c => RepoURL c +:+ "/" +:+ ChartName c +:+ ":" +:+ Version c +:+ "@" +:+ ChartDigest c
  | None => ""
  end.

Definition SameArtifacts (a b : Artifacts) : bool :=
  bool_decide (imageKeys a = imageKeys b) && bool_decide (configKey a = configKey b) && bool_decide (chartKey a = chartKey b).

Definition copyArtifacts (src : Artifacts) : Artifacts :=
  mkArtifacts (Type_ src) (Images src) (if bool_decide (Type_ src = "image") then None else ConfigRef_ src) (Chart src).

Definition deploysConfig (a : Artifacts) : bool := bool_decide (Type_ a = "config") || bool_decide (Type_ a = "mixed").

Definition deploysImages (a : Artifacts) : bool := negb (bool_decide (Type_ a = "config")) && negb (bool_decide (Type_ a = "chart")).

Definition hasRepository (l : list ImageRef) (repo : string) : bool := existsb (λ i, bool_decide (Repository i = repo)) l.

Definition asMixed (a : Artifacts) : Artifacts := mkArtifacts "mixed" (Images a) (ConfigRef_ a) (Chart a).

Definition onlyTypeOf (b cur : Artifacts) : option Artifacts :=
  if negb (bool_decide (Type_ b = "mixed")) then None
  else
    let n := if bool_decide (Type_ cur = "image") then Some (mkArtifacts (Type_ cur) (Images b) None (Chart b))
             else if bool_decide (Type_ cur = "config") then Some (mkArtifacts (Type_ cur) [] (ConfigRef_ b) (Chart b))
             else None in
    match n with Some n => if HasArtifacts n then Some n else None | None => None end.

(** ** Rejected artifacts *)

Record RejectedArtifacts := mkRejected {
  digests : gmap string string;
  tags : gmap string string;
  commits : gmap string string
}.

Definition add_image (name : string) (r : RejectedArtifacts) (i : ImageRef) : RejectedArtifacts :=
  if negb (bool_decide (Digest i = "")) then mkRejected (<[Repository i +:+ "@" +:+ Digest i := name]> (digests r)) (tags r) (commits r)
  else if negb (bool_decide (Tag i = "")) then mkRejected (digests r) (<[Repository i +:+ ":" +:+ Tag i := name]> (tags r)) (commits r)
  else r.

Definition add (r : RejectedArtifacts) (b : Bundle) : RejectedArtifacts :=
  let '(images, commit) := default (Images (b_Artifacts b), commit_of (b_Artifacts b)) (b_RejectedArtifacts b) in
  let r := foldl (add_image (b_Name b)) r images in
  if bool_decide (commit = "") then r else mkRejected (digests r) (tags r) (<[commit := b_Name b]> (commits r)).

Definition rejectedArtifactsOf (bundles : list Bundle) (pipeline : string) (recordedOnly : bool) : RejectedArtifacts :=
  foldl add (mkRejected ∅ ∅ ∅)
    (List.filter (λ b, bool_decide (b_Pipeline b = pipeline) && b_Rejected b &&
                       (negb recordedOnly || bool_decide (is_Some (b_RejectedArtifacts b)))) bundles).

Definition RejectedArtifactsOf (bundles : list Bundle) (pipeline : string) : RejectedArtifacts :=
  rejectedArtifactsOf bundles pipeline false.

Definition Rejected (b : Bundle) : bool := b_Rejected b || bool_decide (b_Phase b = "Rejected").

Definition carriesImage (r : RejectedArtifacts) (i : ImageRef) : option string :=
  match (if bool_decide (Digest i = "") then None else digests r !! (Repository i +:+ "@" +:+ Digest i)) with
  | Some n => Some n
  | None => if bool_decide (Tag i = "") then None else tags r !! (Repository i +:+ ":" +:+ Tag i)
  end.

Fixpoint carries_images (r : RejectedArtifacts) (l : list ImageRef) : option string :=
  match l with
  | [] => None
  | i :: l => match carriesImage r i with Some n => Some n | None => carries_images r l end
  end.

(** [Carries], and [rejectedArtifact]: an object's name is not empty. *)
Definition Carries (r : RejectedArtifacts) (b : Bundle) : option string :=
  if Rejected b then Some (b_Name b)
  else match carries_images r (Images (b_Artifacts b)) with
       | Some n => Some n
       | None => if has_commit (b_Artifacts b) then commits r !! commit_of (b_Artifacts b) else None
       end.

(** ** What counts as a rollback *)

Definition ActorController : string := "controller".
Definition ViaAutoRollback : string := "auto-rollback".
Definition ViaUI : string := "ui".
Definition ViaAPI : string := "api".

Section plan.
(** [graph.NormalizeRepository] ([None] for a reference that does not parse) and the
    name of the controller in kardinal.io/created-by. *)
Variable NormalizeRepository : string → option string.
Variable ControllerCreator : string.

Definition IsAutoRollback (b : Bundle) : bool :=
  match b_Actor b with
  | Some (kind, via) => bool_decide (kind = ActorController) && bool_decide (via = ViaAutoRollback) &&
                        bool_decide (b_CreatedBy b = ControllerCreator)
  | None => false
  end.

Definition IsControllerRollback (b : Bundle) : bool :=
  IsAutoRollback b ||
  (b_RollbackLabel b && match b_Actor b with
                        | Some (_, via) => bool_decide (via = ViaUI) || bool_decide (via = ViaAPI)
                        | None => false
                        end).

Definition RollbackFromOf (b : Bundle) : string :=
  if negb (bool_decide (b_RollbackFrom b = "")) then b_RollbackFrom b else b_RollbackFromAnnotation b.

Definition canonicalRepository (r : string) : string := default r (NormalizeRepository r).

Definition looseImage (a b : ImageRef) : bool :=
  if negb (bool_decide (canonicalRepository (Repository a) = canonicalRepository (Repository b))) then false
  else if negb (bool_decide (Digest a = "")) && negb (bool_decide (Digest b = "")) then bool_decide (Digest a = Digest b)
  else negb (bool_decide (Tag a = "")) && bool_decide (Tag a = Tag b).

Definition exactImage (a b : ImageRef) : bool := bool_decide (a = b).

(** The API: a Bundle by name, the labelled rollback Bundles, the Bundles of the
    pipeline ([None] for a failed list). *)
Record Snapshot := mkSnapshot {
  getBundle : string → read Bundle;
  rollbackBundles : option (list Bundle);
  pipelineBundles : option (list Bundle)
}.

Variable sn : Snapshot.

(** The artifacts of the Bundles that were verified, but for [b]'s own. *)
Definition verified_artifacts (h : envHistory) (b : Bundle) : list Artifacts :=
  omap (λ name, if bool_decide (name = b_Name b) then None
                else match getBundle sn name with Got v => Some (b_Artifacts v) | _ => None end) (verifiedNewestFirst h).

Definition onlyVerifiedArtifacts (h : envHistory) (imageMatch : ImageRef → ImageRef → bool) (b : Bundle) : bool :=
  let vs := verified_artifacts h b in
  forallb (λ i, existsb (imageMatch i) (mjoin (Images <$> vs))) (Images (b_Artifacts b)) &&
  match ConfigRef_ (b_Artifacts b) with
  | Some c => bool_decide (Some c ∈ ConfigRef_ <$> vs)
  | None => true
  end &&
  match Chart (b_Artifacts b) with
  | Some c => bool_decide (Some c ∈ Chart <$> vs)
  | None => true
  end.

Definition sameRefsAs (imageMatch : ImageRef → ImageRef → bool) (b target : Artifacts) : bool :=
  forallb (λ i, existsb (λ got, imageMatch got i) (Images b)) (Images target) &&
  (negb (has_commit target) || bool_decide (ConfigRef_ b = ConfigRef_ target)) &&
  match Chart target with Some c => bool_decide (Chart b = Some c) | None => true end.

Definition restoresVerified (h : envHistory) (imageMatch : ImageRef → ImageRef → bool) (b : Bundle) : bool :=
  if bool_decide (b_RollbackOf b = "") then false
  else if negb (verifiedIn h (b_RollbackOf b)) then false
  else match getBundle sn (b_RollbackOf b) with
       | Got t => sameRefsAs imageMatch (b_Artifacts b) (b_Artifacts t) && onlyVerifiedArtifacts h imageMatch b
       | _ => false
       end.

Definition isRollbackIn (pipeline : string) (h : envHistory) (b : Bundle) : bool :=
  IsAutoRollback b ||
  (b_RollbackLabel b && bool_decide (b_Pipeline b = pipeline) && onlyVerifiedArtifacts h looseImage b).

Definition rolledBackIn (h : envHistory) (b : Bundle) : bool :=
  IsControllerRollback b || (landedIn h (b_Name b) && restoresVerified h looseImage b).

(** The Bundles a rollback in the environment went back from. *)
Definition rolledBackFrom (pipeline env fleet : string) (h : envHistory) : option (list string) :=
  match rollbackBundles sn with
  | None => None
  | Some l =>
      Some (omap (λ b,
        let from := RollbackFromOf b in
        if bool_decide (from = "") || negb (bool_decide (b_Pipeline b = pipeline)) then None
        else if negb (bool_decide (b_Target b = "")) && negb (bool_decide (b_Target b = env)) &&
                (bool_decide (fleet = "") || negb (bool_decide (b_Target b = fleet))) then None
        else if rolledBackIn h b then Some from else None) l)
  end.

(** ** Restoring from the history *)

Inductive plan_error := ErrNotFound | ErrInvalid | ErrConflict | ErrAPI.

#[local] Instance sum_bind : MBind (sum plan_error) :=
  λ A B f x, match x with inl e => inl e | inr a => f a end.

Record restoreSources := mkSources {
  rs_pipeline : string;
  rs_verified : list string;
  rs_deployed : string;
  rs_rolledBack : list string;
  rs_rejected : RejectedArtifacts
}.

Section sources.
Variable src : restoreSources.

(** A history Bundle that may be used. *)
Definition usable (b : Bundle) : bool :=
  bool_decide (b_Pipeline b = rs_pipeline src) && bool_decide (Carries (rs_rejected src) b = None).

Definition skipped (name : string) : bool :=
  bool_decide (name = rs_deployed src) || bool_decide (name ∈ rs_rolledBack src).

Fixpoint newest_in (l : list string) (match_ : Bundle → bool) : plan_error + option Bundle :=
  match l with
  | [] => inr None
  | name :: l =>
      if skipped name then newest_in l match_
      else match getBundle sn name with
           | Missing => newest_in l match_
           | ReadError => inl ErrAPI
           | Got b => if usable b && match_ b then inr (Some b) else newest_in l match_
           end
  end.

Definition newest (match_ : Bundle → bool) : plan_error + option Bundle := newest_in (rs_verified src) match_.

Definition newestConfig : plan_error + option Bundle :=
  newest (λ b, deploysConfig (b_Artifacts b) && has_commit (b_Artifacts b)).

Definition newestImage (repo : string) : plan_error + option Bundle :=
  newest (λ b, deploysImages (b_Artifacts b) && hasRepository (Images (b_Artifacts b)) repo).

Definition restoreConfig (cur target out : Artifacts) : plan_error + Artifacts :=
  if negb (has_commit cur) then inr out
  else if negb (deploysConfig target) then
    if bool_decide (Type_ cur = "mixed") then
      prev ← newestConfig;
      match prev with
      | Some p => if bool_decide (configKey (b_Artifacts p) = configKey cur) then inr out else inl ErrInvalid
      | None => inl ErrInvalid
      end
    else inl ErrInvalid
  else if has_commit out then inr out
  else
    from ← newestConfig;
    match from with
    | None => inl ErrConflict
    | Some f => inr (mkArtifacts (Type_ out) (Images out) (ConfigRef_ (b_Artifacts f)) (Chart out))
    end.

(** The images of [cur] that differ from the newest earlier version. *)
Fixpoint changedImages (l : list ImageRef) : plan_error + list ImageRef :=
  match l with
  | [] => inr []
  | i :: l =>
      prev ← newestImage (Repository i);
      rest ← changedImages l;
      inr (match prev with
           | Some p => if bool_decide (i ∈ Images (b_Artifacts p)) then rest else i :: rest
           | None => i :: rest
           end)
  end.

Fixpoint fill_images (l out : list ImageRef) : plan_error + list ImageRef :=
  match l with
  | [] => inr out
  | i :: l =>
      if hasRepository out (Repository i) then fill_images l out
      else
        from ← newestImage (Repository i);
        match from with
        | None => inl ErrConflict
        | Some f => fill_images l (out ++ filter (λ j, Repository j = Repository i) (Images (b_Artifacts f)))
        end
  end.

Definition restoreImages (cur target out : Artifacts) : plan_error + Artifacts :=
  if bool_decide (Images cur = []) then inr out
  else if negb (deploysImages target) then
    if bool_decide (Type_ cur = "mixed") then
      changed ← changedImages (Images cur);
      if bool_decide (changed = []) then inr out else inl ErrInvalid
    else inl ErrInvalid
  else
    images ← fill_images (Images cur) (Images out);
    inr (mkArtifacts (Type_ out) images (ConfigRef_ out) (Chart out)).

Definition restore (cur : option Artifacts) (target : Artifacts) : plan_error + Artifacts :=
  let out := copyArtifacts target in
  match cur with
  | None => inr out
  | Some cur =>
      out ← (if deploysConfig cur then restoreConfig cur target out else inr out);
      if deploysImages cur then restoreImages cur target out else inr out
  end.

(** *** What the environment runs *)

Definition first_of (repo : string) (l : list ImageRef) : option ImageRef :=
  snd <$> list_find (λ i, Repository i = repo) l.

Definition deployedImage (cur : Artifacts) (repo : string) : plan_error + option ImageRef :=
  if negb (deploysImages cur) || negb (hasRepository (Images cur) repo) then
    from ← newestImage repo;
    inr (match from with Some f => first_of repo (Images (b_Artifacts f)) | None => None end)
  else inr (first_of repo (Images cur)).

Definition deployedConfig (cur : Artifacts) : plan_error + option Artifacts :=
  if deploysConfig cur && has_commit cur then inr (Some cur)
  else
    from ← newestConfig;
    inr (match from with Some f => Some (b_Artifacts f) | None => None end).

Fixpoint same_images (cur : Artifacts) (l : list ImageRef) : plan_error + bool :=
  match l with
  | [] => inr true
  | i :: l =>
      at_ ← deployedImage cur (Repository i);
      match at_ with
      | Some j => if bool_decide (imageKey j = imageKey i) then same_images cur l else inr false
      | None => inr false
      end
  end.

Definition sameDeployed (r cur : Artifacts) : plan_error + bool :=
  if bool_decide (Type_ r = "chart") then inr (bool_decide (Type_ cur = "chart") && bool_decide (chartKey r = chartKey cur))
  else
    images ← (if deploysImages r then same_images cur (Images r) else inr true);
    if negb images then inr false
    else if negb (deploysConfig r) then inr true
    else
      at_ ← deployedConfig cur;
      inr (match at_ with Some a => bool_decide (configKey a = configKey r) | None => false end).

(** The restored artifacts, when they change what the environment runs. *)
Definition restored_change (cur : option Artifacts) (r : Artifacts) : plan_error + option Artifacts :=
  match cur with
  | None => inr (Some r)
  | Some cur => same ← sameDeployed r cur; inr (if same : bool then None else Some r)
  end.
End sources.

(** ** The plan *)

Record RollbackRequest := mkRequest {
  rq_Pipeline : string;
  rq_Environment : string;
  rq_ToBundle : string;
  rq_FromBundle : string;
  rq_Automatic : bool
}.

(** [pl_Target] and the artifacts of the rollback Bundle ([buildRollbackBundle]), which
    says what it restores and what it leaves. *)
Record RollbackPlan := mkPlan {
  pl_CurrentName : string;
  pl_Current : option Bundle;
  pl_Target : Bundle;
  pl_Restored : Artifacts
}.

Section request.
Variable rq : RollbackRequest.
Variable src : restoreSources.
Variable h : envHistory.
Variable cur : option Bundle.

Abbreviation cur_artifacts := (match cur with Some b => Some (b_Artifacts b) | None => None end).

(** The plan to a named Bundle. *)
Definition plan_to (name : string) : plan_error + (Bundle * Artifacts) :=
  match getBundle sn name with
  | Missing => inl ErrNotFound
  | ReadError => inl ErrAPI
  | Got t =>
      if negb (bool_decide (b_Pipeline t = rq_Pipeline rq)) then inl ErrInvalid
      else if Rejected t then inl ErrInvalid
      else if bool_decide (is_Some (Carries (rs_rejected src) t)) then inl ErrInvalid
      else if negb (HasArtifacts (b_Artifacts t)) then inl ErrInvalid
      else if bool_decide (b_Name t = rs_deployed src) then inl ErrConflict
      else if match cur with Some c => SameArtifacts (b_Artifacts t) (b_Artifacts c) | None => false end then inl ErrConflict
      else if negb (verifiedIn h (b_Name t)) then inl ErrInvalid
      else
        r ← restore src cur_artifacts (b_Artifacts t);
        change ← restored_change src cur_artifacts r;
        match change with Some r => inr (t, r) | None => inl ErrConflict end
  end.

(** What of a candidate is restored: all of it, or the part that a deployed image or
    config Bundle is about. *)
Definition candidate_part (cand : Artifacts) : option Artifacts :=
  match cur_artifacts with
  | Some c => if negb (bool_decide (Type_ c = "mixed")) && negb (bool_decide (Type_ cand = Type_ c))
              then onlyTypeOf cand c else Some cand
  | None => Some cand
  end.

(** A candidate whose type cannot carry what a mixed Bundle changed is restored as
    part of a mixed one. *)
Definition restore_candidate (cand from : Artifacts) : plan_error + Artifacts :=
  match restore src cur_artifacts from with
  | inl ErrInvalid =>
      if match cur_artifacts with Some c => bool_decide (Type_ c = "mixed") | None => false end
      then restore src cur_artifacts (asMixed cand) else inl ErrInvalid
  | x => x
  end.

(** The newest candidate that changes something. *)
Fixpoint plan_newest (l : list string) : plan_error + (Bundle * Artifacts) :=
  match l with
  | [] => inl ErrConflict
  | name :: l =>
      if skipped src name then plan_newest l
      else match getBundle sn name with
           | Missing => plan_newest l
           | ReadError => inl ErrAPI
           | Got cand =>
               if negb (bool_decide (b_Pipeline cand = rq_Pipeline rq)) || negb (HasArtifacts (b_Artifacts cand)) ||
                  bool_decide (is_Some (Carries (rs_rejected src) cand)) then plan_newest l
               else if match cur with Some c => SameArtifacts (b_Artifacts cand) (b_Artifacts c) | None => false end
               then plan_newest l
               else match candidate_part (b_Artifacts cand) with
                    | None => plan_newest l
                    | Some from =>
                        r ← restore_candidate (b_Artifacts cand) from;
                        change ← restored_change src cur_artifacts r;
                        match change with Some r => inr (cand, r) | None => plan_newest l end
                    end
           end
  end.
End request.

(** The Bundle that is rolled back from: the one named, or what runs. *)
Definition current_of (rq : RollbackRequest) (h : envHistory) : string :=
  if bool_decide (rq_FromBundle rq = "") then deployed h else rq_FromBundle rq.

Definition read_current (current : string) : plan_error + option Bundle :=
  if bool_decide (current = "") then inr None
  else match getBundle sn current with
       | Got b => inr (Some b)
       | Missing => inr None
       | ReadError => inl ErrAPI
       end.

Definition sources_of (rq : RollbackRequest) (h : envHistory) (rolledBack : list string) (bundles : list Bundle) : restoreSources :=
  mkSources (rq_Pipeline rq) (verifiedNewestFirst h) (current_of rq h) rolledBack (RejectedArtifactsOf bundles (rq_Pipeline rq)).

(** [PlanRollback] for an environment that is not a fleet: [steps] are the steps of
    the pipeline, [fleet] the fleet the environment is a target of. *)
Definition plan_environment (rq : RollbackRequest) (steps : option (list Step)) (fleet : string) : plan_error + RollbackPlan :=
  match steps with
  | None => inl ErrAPI
  | Some steps =>
      let h := historyOf steps (rq_Pipeline rq) (rq_Environment rq) in
      let current := current_of rq h in
      cur ← read_current current;
      if rq_Automatic rq && match cur with Some b => isRollbackIn (rq_Pipeline rq) h b | None => false end then inl ErrConflict
      else match rolledBackFrom (rq_Pipeline rq) (rq_Environment rq) fleet h, pipelineBundles sn with
           | Some rolledBack, Some bundles =>
               let src := sources_of rq h rolledBack bundles in
               '(t, r) ← (if bool_decide (rq_ToBundle rq = "") then
                            if bool_decide (current = "") then inl ErrConflict
                            else plan_newest rq src cur (rs_verified src)
                          else plan_to rq src h cur (rq_ToBundle rq));
               inr (mkPlan current cur t r)
           | _, _ => inl ErrAPI
           end
  end.

(** ** What is restored *)

(** What promoting the artifacts deploys. *)
Definition dep_images (a : Artifacts) : list ImageRef := if deploysImages a then Images a else [].
Definition dep_config (a : Artifacts) : option ConfigRef := if deploysConfig a && has_commit a then ConfigRef_ a else None.

(** What the CRD validates (bundle_types.go): an image or chart Bundle has no configRef.
    It lets a config or chart Bundle name images, which its promotion ignores. *)
Definition valid_spec (a : Artifacts) : Prop := deploysConfig a = false → ConfigRef_ a = None.

(** An image the Bundle names but does not deploy. *)
Definition named_only (a : Artifacts) (i : ImageRef) : Prop := deploysImages a = false ∧ i ∈ Images a.

Section restore_facts.
Variable src : restoreSources.

(** A Bundle of the history that the rollback may take from. *)
Definition eligible (name : string) (b : Bundle) : Prop :=
  name ∈ rs_verified src ∧ skipped src name = false ∧ getBundle sn name = Got b ∧ usable src b = true.

Lemma newest_in_spec l m x :
  newest_in src l m = inr x →
  match x with
  | Some b => ∃ name, name ∈ l ∧ skipped src name = false ∧ getBundle sn name = Got b ∧ usable src b = true ∧ m b = true
  | None => ∀ name b, name ∈ l → skipped src name = false → getBundle sn name = Got b → usable src b = true → m b = false
  end.
Proof.
  induction l as [|n l IH]; simpl.
  { intros [= <-]. by intros ? ? ?%elem_of_nil. }
  assert (newest_in src l m = inr x → (∀ b, skipped src n = false → getBundle sn n = Got b → usable src b = true → m b = false) →
    match x with
    | Some b => ∃ name, name ∈ n :: l ∧ skipped src name = false ∧ getBundle sn name = Got b ∧ usable src b = true ∧ m b = true
    | None => ∀ name b, name ∈ n :: l → skipped src name = false → getBundle sn name = Got b → usable src b = true → m b = false
    end) as Hrest.
  { intros H Hn. specialize (IH H). destruct x as [b|].
    - destruct IH as (name & Hin & ?). exists name. split; [by right|done].
    - intros name b [->|Hin]%elem_of_cons; [by apply Hn|by apply IH]. }
  destruct (skipped src n) eqn:Es; [intros H; by apply Hrest|].
  destruct (getBundle sn n) as [b| |] eqn:Eg; [|intros H; by apply Hrest|done].
  destruct (usable src b && m b) eqn:Eu.
  - intros [= <-]. apply andb_true_iff in Eu as [? ?]. exists n. split_and!; try done. by left.
  - intros H. apply Hrest; [done|]. intros b' _ [= <-] Hu. by rewrite Hu in Eu.
Qed.

Lemma newest_in_history m x :
  newest src m = inr x →
  match x with
  | Some b => ∃ name, eligible name b ∧ m b = true
  | None => ∀ name b, eligible name b → m b = false
  end.
Proof.
  intros H%newest_in_spec. destruct x as [b|].
  - destruct H as (name & ? & ? & ? & ? & ?). by exists name.
  - intros name b (? & ? & ? & ?). by apply (H name b).
Qed.

(** A lookup in the history fails only when a read does. *)
Lemma newest_error m e : newest src m = inl e → e = ErrAPI.
Proof.
  unfold newest. induction (rs_verified src) as [|n l IH]; simpl; [done|].
  destruct (skipped src n); [done|]. destruct (getBundle sn n) as [b| |]; [|done|by intros [= <-]].
  by destruct (usable src b && m b).
Qed.

Lemma same_images_error cur l e : same_images src cur l = inl e → e = ErrAPI.
Proof.
  induction l as [|i l IH]; simpl; [done|]. unfold deployedImage, newestImage.
  destruct (negb (deploysImages cur) || _).
  - destruct (newest src _) as [e'|x] eqn:En; simpl; [intros [= <-]; by apply newest_error in En|].
    destruct x as [b|]; [|done]. destruct (first_of _ _); [|done]. by case_bool_decide.
  - simpl. destruct (first_of _ _); [|done]. by case_bool_decide.
Qed.

Lemma sameDeployed_error r cur e : sameDeployed src r cur = inl e → e = ErrAPI.
Proof.
  unfold sameDeployed. case_bool_decide; [done|].
  destruct (if deploysImages r then same_images src cur (Images r) else inr true) as [e'|b] eqn:Ei; simpl.
  { intros [= <-]. destruct (deploysImages r); [|done]. by apply same_images_error in Ei. }
  destruct b; simpl; [|done]. destruct (deploysConfig r); simpl; [|done]. unfold deployedConfig, newestConfig.
  destruct (deploysConfig cur && has_commit cur); simpl; [done|].
  destruct (newest src _) eqn:En; simpl; [intros [= <-]; by apply newest_error in En|done].
Qed.

(** Every image of the filled list is one of the list given, or a deployed one of an
    eligible Bundle; every repository asked for is named. *)
Lemma fill_images_spec l out r :
  fill_images src l out = inr r →
  (∀ i, i ∈ r → i ∈ out ∨ ∃ name b, eligible name b ∧ i ∈ dep_images (b_Artifacts b)) ∧
  (∀ i, i ∈ out → i ∈ r) ∧ (∀ i, i ∈ l → hasRepository r (Repository i) = true).
Proof.
  revert out. induction l as [|i l IH]; intros out; simpl.
  { intros [= <-]. split_and!; [by left|done|]. by intros ? ?%elem_of_nil. }
  destruct (hasRepository out (Repository i)) eqn:Er.
  - intros (H1 & H2 & H3)%IH. split_and!; [done|done|]. intros j [->|Hj]%elem_of_cons; [|by apply H3].
    unfold hasRepository in *. apply existsb_exists in Er as (k & Hk & Ek). apply existsb_exists. exists k. split; [|done].
    apply list_elem_of_In, H2, list_elem_of_In, Hk.
  - unfold newestImage. destruct (newest src _) as [|[f|]] eqn:En; simpl; [done| |done].
    apply newest_in_history in En as (name & He & Hm). apply andb_true_iff in Hm as [Hd Hr].
    intros (H1 & H2 & H3)%IH. split_and!.
    + intros j Hj. destruct (H1 j Hj) as [[Ho|Ho]%elem_of_app|?]; [by left| |by right].
      right. exists name, f. split; [done|]. apply list_elem_of_filter in Ho as [_ ?]. unfold dep_images. by rewrite Hd.
    + intros j Hj. apply H2. apply elem_of_app. by left.
    + intros j [->|Hj]%elem_of_cons; [|by apply H3].
      unfold hasRepository in *. apply existsb_exists in Hr as (k & Hk & Ek). apply existsb_exists. exists k. split; [|done].
      apply list_elem_of_In, H2, elem_of_app. right. apply list_elem_of_filter. split; [by apply bool_decide_eq_true in Ek|].
      by apply list_elem_of_In.
Qed.

(** The image, or the commit, is the one an eligible Bundle deployed. *)
Definition image_from_history (i : ImageRef) : Prop := ∃ name b, eligible name b ∧ i ∈ dep_images (b_Artifacts b).
Definition commit_from_history (c : option ConfigRef) : Prop :=
  ∃ name b, eligible name b ∧ is_Some (dep_config (b_Artifacts b)) ∧ c = dep_config (b_Artifacts b).

Lemma dep_config_eq a : deploysConfig a && has_commit a = true → is_Some (dep_config a) ∧ dep_config a = ConfigRef_ a.
Proof.
  intros H. unfold dep_config. rewrite H. split; [|done]. apply andb_true_iff in H as [_ H]. unfold has_commit, commit_of in H.
  destruct (ConfigRef_ a); [by eexists|done].
Qed.

Lemma newestConfig_spec x :
  newestConfig src = inr x →
  match x with
  | Some b => ∃ name, eligible name b ∧ is_Some (dep_config (b_Artifacts b)) ∧ dep_config (b_Artifacts b) = ConfigRef_ (b_Artifacts b)
  | None => ∀ name b, eligible name b → deploysConfig (b_Artifacts b) && has_commit (b_Artifacts b) = false
  end.
Proof.
  intros H%newest_in_history. destruct x as [b|]; [|done]. destruct H as (name & He & Hm%dep_config_eq). by exists name.
Qed.

Lemma has_commit_dep a : is_Some (dep_config a) → has_commit a = true.
Proof. unfold dep_config. destruct (deploysConfig a), (has_commit a); simpl; try done; by intros [? ?]. Qed.

Lemma restoreConfig_spec cur target out r :
  restoreConfig src cur target out = inr r →
  (Type_ r = Type_ out ∧ Images r = Images out ∧ Chart r = Chart out) ∧
  (ConfigRef_ r = ConfigRef_ out ∨ (deploysConfig target = true ∧ has_commit out = false ∧ commit_from_history (ConfigRef_ r))) ∧
  (has_commit cur = true →
     (deploysConfig target = true ∧ has_commit r = true) ∨
     (deploysConfig target = false ∧ Type_ cur = "mixed" ∧
      ∃ name b, eligible name b ∧ is_Some (dep_config (b_Artifacts b)) ∧ configKey (b_Artifacts b) = configKey cur)).
Proof.
  unfold restoreConfig. destruct (has_commit cur) eqn:Hc; cbn [negb]; [|intros [= <-]; split_and!; try done; by left].
  destruct (deploysConfig target) eqn:Hd; cbn [negb].
  - destruct (has_commit out) eqn:Ho; [intros [= <-]; split_and!; try done; by left|].
    destruct (newestConfig src) as [|[f|]] eqn:En; simpl; [done| |done]. intros [= <-].
    apply newestConfig_spec in En as (name & He & Hs & Eq). simpl.
    assert (has_commit (mkArtifacts (Type_ out) (Images out) (ConfigRef_ (b_Artifacts f)) (Chart out)) = true) as Hr
      by (apply has_commit_dep in Hs; done).
    split_and!; try done; [|by left]. right. split_and!; try done. exists name, f. split_and!; [done|done|]. by rewrite Eq.
  - case_bool_decide as Em; [|done]. destruct (newestConfig src) as [|[f|]] eqn:En; simpl; [done| |done].
    case_bool_decide as Ek; [|done]. intros [= <-]. apply newestConfig_spec in En as (name & He & Hs & _).
    split_and!; try done; [by left|]. intros _. right. split_and!; try done. by exists name, f.
Qed.

Lemma changedImages_nil l : changedImages src l = inr [] → ∀ i, i ∈ l → image_from_history i.
Proof.
  induction l as [|j l IH]; simpl; [by intros _ ? ?%elem_of_nil|]. unfold newestImage.
  destruct (newest src _) as [|x] eqn:En; simpl; [done|]. destruct (changedImages src l) as [|rest]; simpl; [done|].
  destruct x as [b|]; [|done]. case_bool_decide as Ej; [|done]. intros [= ->] i [->|Hi]%elem_of_cons; [|by apply IH].
  apply newest_in_history in En as (name & He & Hm). apply andb_true_iff in Hm as [Hd _]. exists name, b. split; [done|].
  unfold dep_images. by rewrite Hd.
Qed.

Lemma restoreImages_spec cur target out r :
  restoreImages src cur target out = inr r →
  (Type_ r = Type_ out ∧ ConfigRef_ r = ConfigRef_ out ∧ Chart r = Chart out) ∧
  (∀ i, i ∈ Images r → i ∈ Images out ∨ (deploysImages target = true ∧ image_from_history i)) ∧
  (∀ i, i ∈ Images cur →
     (deploysImages target = true ∧ hasRepository (Images r) (Repository i) = true) ∨
     (deploysImages target = false ∧ Type_ cur = "mixed" ∧ image_from_history i)).
Proof.
  unfold restoreImages. case_bool_decide as Ei.
  { intros [= <-]. split_and!; try done; [by left|]. rewrite Ei. by intros ? ?%elem_of_nil. }
  destruct (deploysImages target) eqn:Hd; cbn [negb].
  - destruct (fill_images src (Images cur) (Images out)) as [|imgs] eqn:Ef; simpl; [done|]. intros [= <-].
    apply fill_images_spec in Ef as (H1 & _ & H3). simpl. split_and!; try done.
    + intros i Hi. destruct (H1 i Hi) as [?|(name & b & ?)]; [by left|right]. split; [done|]. by exists name, b.
    + intros i Hi. left. auto.
  - case_bool_decide as Em; [|done]. destruct (changedImages src (Images cur)) as [|ch] eqn:Ec; simpl; [done|].
    case_bool_decide as Eh; [|done]. subst. intros [= <-]. split_and!; try done; [by left|]. intros i Hi. right.
    split_and!; try done. by apply (changedImages_nil (Images cur)).
Qed.

Lemma copy_type a : Type_ (copyArtifacts a) = Type_ a.
Proof. done. Qed.

Lemma deploysConfig_type a b : Type_ a = Type_ b → deploysConfig a = deploysConfig b.
Proof. unfold deploysConfig. by intros ->. Qed.

Lemma deploysImages_type a b : Type_ a = Type_ b → deploysImages a = deploysImages b.
Proof. unfold deploysImages. by intros ->. Qed.

(** Nothing that [cur] deployed is left in place: what it deployed is named by the
    rollback, or was not changed by it. *)
Definition covers (cur r : Artifacts) : Prop :=
  (∀ i, i ∈ dep_images cur →
     (deploysImages r = true ∧ hasRepository (Images r) (Repository i) = true) ∨
     (deploysImages r = false ∧ Type_ cur = "mixed" ∧ image_from_history i)) ∧
  (is_Some (dep_config cur) →
     (deploysConfig r = true ∧ has_commit r = true) ∨
     (deploysConfig r = false ∧ Type_ cur = "mixed" ∧
      ∃ name b, eligible name b ∧ is_Some (dep_config (b_Artifacts b)) ∧ configKey (b_Artifacts b) = configKey cur)).

Lemma restore_spec cur target r :
  restore src cur target = inr r →
  Type_ r = Type_ target ∧
  (∀ i, i ∈ Images r → i ∈ Images target ∨ (deploysImages target = true ∧ image_from_history i)) ∧
  (ConfigRef_ r = ConfigRef_ (copyArtifacts target) ∨ (deploysConfig target = true ∧ commit_from_history (ConfigRef_ r))) ∧
  (∀ c, cur = Some c → covers c r).
Proof.
  unfold restore. destruct cur as [cur|].
  2: { intros [= <-]. split_and!; try done; by left. }
  set (out := copyArtifacts target).
  destruct (if deploysConfig cur then restoreConfig src cur target out else inr out) as [|out1] eqn:E1; simpl; [done|].
  assert ((Type_ out1 = Type_ target ∧ Images out1 = Images target) ∧
    (ConfigRef_ out1 = ConfigRef_ out ∨ (deploysConfig target = true ∧ commit_from_history (ConfigRef_ out1))) ∧
    (is_Some (dep_config cur) → (deploysConfig target = true ∧ has_commit out1 = true) ∨
      (deploysConfig target = false ∧ Type_ cur = "mixed" ∧
       ∃ name b, eligible name b ∧ is_Some (dep_config (b_Artifacts b)) ∧ configKey (b_Artifacts b) = configKey cur)))
    as ((Ht & Hi) & Hc & Hcov).
  { destruct (deploysConfig cur) eqn:Hd.
    - apply restoreConfig_spec in E1 as ((? & ? & _) & Hc & Hcov). split_and!; try done.
      + destruct Hc as [?|(? & _ & ?)]; auto.
      + intros Hs. apply Hcov. by apply has_commit_dep.
    - injection E1 as <-. split_and!; try done; [by left|]. unfold dep_config. rewrite Hd. by intros [? [=]]. }
  intros E2.
  assert ((Type_ r = Type_ out1 ∧ ConfigRef_ r = ConfigRef_ out1) ∧
    (∀ i, i ∈ Images r → i ∈ Images target ∨ (deploysImages target = true ∧ image_from_history i)) ∧
    (∀ i, i ∈ dep_images cur → (deploysImages target = true ∧ hasRepository (Images r) (Repository i) = true) ∨
      (deploysImages target = false ∧ Type_ cur = "mixed" ∧ image_from_history i))) as ((Ht2 & Hc2) & Himg & Hcov2).
  { unfold dep_images. destruct (deploysImages cur) eqn:Hd.
    - apply restoreImages_spec in E2 as ((? & ? & _) & H1 & H2). rewrite Hi in H1. by split_and!.
    - injection E2 as <-. split_and!; try done; [by rewrite Hi; left|]. by intros ? ?%elem_of_nil. }
  assert (Type_ r = Type_ target) as Htr by congruence.
  split_and!; try done; [by rewrite Hc2|]. intros c [= <-]. split.
  - intros i Hin. rewrite (deploysImages_type r target) by done. by apply Hcov2.
  - rewrite (deploysConfig_type r target) by done. intros Hs. destruct (Hcov Hs) as [[? Hh]|?]; [left|by right].
    split; [done|]. revert Hh. unfold has_commit, commit_of. by rewrite Hc2.
Qed.

(** What is deployed is deployed by the target, or from the history. *)
Lemma restore_dep cur target r :
  restore src cur target = inr r →
  (∀ i, i ∈ dep_images r → i ∈ dep_images target ∨ image_from_history i) ∧
  (is_Some (dep_config r) → dep_config r = dep_config target ∨ commit_from_history (dep_config r)).
Proof.
  intros (Ht & Hi & Hc & _)%restore_spec. unfold dep_images. rewrite (deploysImages_type r target Ht). split.
  - intros i Hin. destruct (deploysImages target); [|by apply elem_of_nil in Hin]. destruct (Hi i Hin) as [?|[_ ?]]; auto.
  - unfold dep_config at 1 2 4. rewrite (deploysConfig_type r target Ht). destruct (deploysConfig target) eqn:Hd; simpl; [|by intros [? ?]].
    destruct (has_commit r) eqn:Hr; [|by intros [? ?]]. intros Hs. destruct Hc as [Hc|[_ ?]]; [left|by right].
    unfold copyArtifacts in Hc. rewrite bool_decide_false in Hc.
    2: { intros E. unfold deploysConfig in Hd. by rewrite E in Hd. }
    simpl in Hc. unfold dep_config. rewrite Hd, Hc. unfold has_commit, commit_of in *. rewrite Hc in Hr. by rewrite Hr.
Qed.

(** [from] deploys nothing that [cand] does not. *)
Definition part_of (from cand : Artifacts) : Prop :=
  (∀ i, i ∈ dep_images from → i ∈ dep_images cand) ∧ (is_Some (dep_config from) → dep_config from = dep_config cand).

(** As a mixed Bundle it also deploys the images it only names. *)
Lemma asMixed_part cand :
  valid_spec cand →
  (∀ i, i ∈ dep_images (asMixed cand) → i ∈ dep_images cand ∨ named_only cand i) ∧
  (is_Some (dep_config (asMixed cand)) → dep_config (asMixed cand) = dep_config cand).
Proof.
  intros Hc. split.
  - unfold dep_images at 1. simpl. intros i Hin. unfold dep_images, named_only. destruct (deploysImages cand); auto.
  - unfold dep_config. cbn [deploysConfig asMixed Type_]. destruct (deploysConfig cand) eqn:Hd; [done|].
    unfold has_commit, commit_of. simpl. rewrite Hc by done. by intros [? ?].
Qed.

Lemma onlyTypeOf_part cand cur from : onlyTypeOf cand cur = Some from → part_of from cand ∧ Type_ from = Type_ cur.
Proof.
  unfold onlyTypeOf. case_bool_decide as Em; cbn [negb]; [|done].
  case_bool_decide as E1; [|case_bool_decide as E2; [|done]]; simpl; case_match; try done; intros [= <-].
  all: split; [|done]; unfold part_of, dep_images, dep_config, deploysImages, deploysConfig; simpl; rewrite Em; simpl.
  - rewrite E1. simpl. split; [done|]. by intros [? ?].
  - rewrite E2. simpl. split; [by intros ? ?%elem_of_nil|done].
Qed.
End restore_facts.

(** ** Choosing the target *)

Lemma plan_to_read rq src h cur name t r : plan_to rq src h cur name = inr (t, r) → getBundle sn name = Got t.
Proof.
  unfold plan_to. destruct (getBundle sn name) as [b| |]; [|done..]. repeat (match goal with |- (if ?b then _ else _) = _ → _ => destruct b end; [done|]).
  destruct (restore _ _ _); simpl; [done|]. destruct (restored_change _ _ _) as [|[]]; simpl; [done| |done]. by intros [= <- _].
Qed.

Lemma carries_images_none r l i : carries_images r l = None → i ∈ l → carriesImage r i = None.
Proof.
  induction l as [|j l IH]; simpl; [by intros _ ?%elem_of_nil|]. destruct (carriesImage r j) eqn:E; [done|].
  intros H [->|Hi]%elem_of_cons; [done|by apply IH].
Qed.

(** An artifact of a rejected Bundle. *)
Definition clean_image (r : RejectedArtifacts) (i : ImageRef) : Prop := carriesImage r i = None.
Definition clean_commit (r : RejectedArtifacts) (c : option ConfigRef) : Prop :=
  match c with Some c => commits r !! CommitSHA c = None | None => True end.

Lemma Carries_none r b :
  Carries r b = None →
  Rejected b = false ∧ (∀ i, i ∈ Images (b_Artifacts b) → clean_image r i) ∧ clean_commit r (dep_config (b_Artifacts b)).
Proof.
  unfold Carries. destruct (Rejected b); [done|]. destruct (carries_images r _) eqn:Ei; [done|].
  intros H. split_and!; [done| |].
  - intros i Hi. by apply (carries_images_none _ _ _ Ei).
  - unfold dep_config. destruct (deploysConfig _); simpl; [|done]. destruct (has_commit _) eqn:Hc; [|done].
    unfold clean_commit, commit_of in *. by destruct (ConfigRef_ (b_Artifacts b)).
Qed.

Section choose.
Variable rq : RollbackRequest.
Variable src : restoreSources.
Variable cur : option Bundle.

Abbreviation cur_art := (match cur with Some b => Some (b_Artifacts b) | None => None end).

(** A Bundle the rollback may take as its target without being told. *)
Definition qualifies (name : string) (t : Bundle) (r : Artifacts) : Prop :=
  skipped src name = false ∧ getBundle sn name = Got t ∧ b_Pipeline t = rq_Pipeline rq ∧ HasArtifacts (b_Artifacts t) = true ∧
  Carries (rs_rejected src) t = None ∧ (∀ c, cur = Some c → SameArtifacts (b_Artifacts t) (b_Artifacts c) = false) ∧
  ∃ from, candidate_part cur (b_Artifacts t) = Some from ∧ restore_candidate src cur (b_Artifacts t) from = inr r ∧
    restored_change src cur_art r = inr (Some r).

Lemma restored_change_same r x : restored_change src cur_art r = inr x → x = Some r ∨ x = None.
Proof.
  unfold restored_change. destruct cur as [c|]; [|intros [= <-]; by left].
  destruct (sameDeployed src r (b_Artifacts c)) as [|[]]; simpl; [done|intros [= <-]; by right|intros [= <-]; by left].
Qed.

(** One candidate: an error, the plan, or the next one. *)
Lemma plan_newest_step name l :
  (∃ t r, qualifies name t r ∧ plan_newest rq src cur (name :: l) = inr (t, r)) ∨
  ((∀ t r, ¬ qualifies name t r) ∧ plan_newest rq src cur (name :: l) = plan_newest rq src cur l) ∨
  (∃ e, plan_newest rq src cur (name :: l) = inl e ∧
     (e = ErrAPI ∨ ∃ t from, skipped src name = false ∧ getBundle sn name = Got t ∧ b_Pipeline t = rq_Pipeline rq ∧
        Carries (rs_rejected src) t = None ∧ candidate_part cur (b_Artifacts t) = Some from ∧
        restore_candidate src cur (b_Artifacts t) from = inl e)).
Proof.
  simpl. destruct (skipped src name) eqn:Es.
  { right. left. split; [|done]. by intros t r (? & _); congruence. }
  destruct (getBundle sn name) as [t| |] eqn:Eg.
  2: { right. left. split; [|done]. by intros t r (_ & ? & _); congruence. }
  2: { right. right. exists ErrAPI. auto. }
  assert (∀ (P : Prop), (∀ r, ¬ qualifies name t r) → ∀ t' r', ¬ qualifies name t' r') as Hone.
  { intros _ H t' r' Hq. pose proof Hq as (_ & Eg' & _). assert (t' = t) as -> by congruence. by apply (H r'). }
  destruct (negb (bool_decide (b_Pipeline t = rq_Pipeline rq)) || negb (HasArtifacts (b_Artifacts t)) ||
            bool_decide (is_Some (Carries (rs_rejected src) t))) eqn:Ef.
  { right. left. split; [|done]. apply (Hone True). intros r (_ & _ & Hp & Ha & Hc & _).
    by rewrite bool_decide_true, Ha, Hc in Ef. }
  apply orb_false_iff in Ef as [Ef Hc]. apply orb_false_iff in Ef as [Hp Ha]. bools.
  assert (Carries (rs_rejected src) t = None) as Hcn by (by apply eq_None_not_Some).
  destruct (match cur with Some c => SameArtifacts (b_Artifacts t) (b_Artifacts c) | None => false end) eqn:Esame.
  { right. left. split; [|done]. apply (Hone True). intros r (_ & _ & _ & _ & _ & Hs & _).
    destruct cur as [c|]; [|done]. by rewrite (Hs c eq_refl) in Esame. }
  destruct (candidate_part cur (b_Artifacts t)) as [from|] eqn:Ep.
  2: { right. left. split; [|done]. apply (Hone True). intros r (_ & _ & _ & _ & _ & _ & f & Hf & _). congruence. }
  destruct (restore_candidate src cur (b_Artifacts t) from) as [e|r] eqn:Er; simpl.
  { right. right. exists e. split; [done|]. right. by exists t, from. }
  destruct (restored_change src cur_art r) as [e|x] eqn:Ex; simpl.
  { right. right. exists e. split; [done|]. left. unfold restored_change in Ex. destruct cur as [c|]; [|done].
    destruct (sameDeployed src r (b_Artifacts c)) as [e'|] eqn:Ed; simpl in Ex; [|done]. injection Ex as <-. by apply sameDeployed_error in Ed. }
  pose proof (restored_change_same r x Ex) as [-> | ->].
  - left. exists t, r. split; [|done]. split_and!; try done; [|by exists from].
    intros c ->. done.
  - right. left. split; [|done]. apply (Hone True). intros r' (_ & _ & _ & _ & _ & _ & f & Hf & Hr & Hx). congruence.
Qed.

Lemma plan_newest_found l t r :
  plan_newest rq src cur l = inr (t, r) →
  ∃ l1 name l2, l = l1 ++ name :: l2 ∧ qualifies name t r ∧ ∀ n t' r', n ∈ l1 → ¬ qualifies n t' r'.
Proof.
  induction l as [|n l IH]; [done|]. destruct (plan_newest_step n l) as [(t' & r' & Hq & ->)|[[Hn ->]|(e & -> & _)]]; [| |done].
  - intros [= <- <-]. exists [], n, l. split_and!; try done. by intros ? ? ? ?%elem_of_nil.
  - intros (l1 & name & l2 & -> & Hq & Hno)%IH. exists (n :: l1), name, l2. split_and!; try done.
    intros m t' r' [->|Hm]%elem_of_cons; [by apply Hn|by apply Hno].
Qed.

(** Something the deployed Bundle deployed has no earlier version in the history. *)
Definition missing (c : Artifacts) : Prop :=
  (is_Some (dep_config c) ∧ newestConfig src = inr None) ∨
  (∃ i, i ∈ dep_images c ∧ newestImage src (Repository i) = inr None).

Lemma fill_images_error l out e :
  fill_images src l out = inl e → e = ErrAPI ∨ (e = ErrConflict ∧ ∃ i, i ∈ l ∧ newestImage src (Repository i) = inr None).
Proof.
  revert out. induction l as [|i l IH]; intros out; simpl; [done|].
  assert (∀ out', fill_images src l out' = inl e →
    e = ErrAPI ∨ (e = ErrConflict ∧ ∃ j, j ∈ i :: l ∧ newestImage src (Repository j) = inr None)) as Hl.
  { intros out' [?|(? & j & Hj & ?)]%IH; [by left|right]. split; [done|]. exists j. split; [by right|done]. }
  destruct (hasRepository out (Repository i)); [apply Hl|].
  destruct (newestImage src (Repository i)) as [e'|[f|]] eqn:En; simpl; [|apply Hl|].
  - intros [= <-]. left. by apply newest_error in En.
  - intros [= <-]. right. split; [done|]. exists i. split; [by left|done].
Qed.

Lemma changedImages_error l e : changedImages src l = inl e → e = ErrAPI.
Proof.
  induction l as [|i l IH]; simpl; [done|]. destruct (newestImage src (Repository i)) as [e'|x] eqn:En; simpl.
  { intros [= <-]. by apply newest_error in En. }
  destruct (changedImages src l); simpl; [intros [= <-]; by apply IH|done].
Qed.

(** Why restoring fails. *)
Lemma restore_error c target e :
  restore src (Some c) target = inl e →
  e = ErrAPI ∨ (e = ErrConflict ∧ missing c) ∨
  (e = ErrInvalid ∧ ((deploysConfig c = true ∧ deploysConfig target = false) ∨ (deploysImages c = true ∧ deploysImages target = false))).
Proof.
  unfold restore. set (out := copyArtifacts target).
  destruct (if deploysConfig c then restoreConfig src c target out else inr out) as [e1|out1] eqn:E1; simpl.
  - intros [= <-]. destruct (deploysConfig c) eqn:Hd; [|done]. revert E1. unfold restoreConfig.
    destruct (has_commit c) eqn:Hc; cbn [negb]; [|done]. destruct (deploysConfig target) eqn:Ht; cbn [negb].
    + destruct (has_commit out); [done|]. destruct (newestConfig src) as [e'|[f|]] eqn:En; simpl; [|done|].
      * intros [= <-]. left. by apply newest_error in En.
      * intros [= <-]. right. left. split; [done|]. left. split; [|done]. apply dep_config_eq. by rewrite Hd, Hc.
    + case_bool_decide; [|intros [= <-]; right; right; auto].
      destruct (newestConfig src) as [e'|[f|]] eqn:En; simpl; [intros [= <-]; left; by apply newest_error in En| |].
      * case_bool_decide; [done|]. intros [= <-]. auto 6.
      * intros [= <-]. auto 6.
  - destruct (deploysImages c) eqn:Hd; [|done]. unfold restoreImages. case_bool_decide; [done|].
    destruct (deploysImages target) eqn:Ht; cbn [negb].
    + destruct (fill_images src (Images c) (Images out1)) as [e'|] eqn:Ef; simpl; [|done]. intros [= <-].
      apply fill_images_error in Ef as [?|(? & i & Hi & ?)]; [by left|]. right. left. split; [done|]. right. exists i.
      unfold dep_images. by rewrite Hd.
    + case_bool_decide; [|intros [= <-]; right; right; auto].
      destruct (changedImages src (Images c)) as [e'|ch] eqn:Ec; simpl.
      * intros [= <-]. left. by apply changedImages_error in Ec.
      * case_bool_decide; [done|]. intros [= <-]. auto 6.
Qed.

(** A candidate is refused only for what is missing from the history. *)
Lemma restore_candidate_error t from e :
  candidate_part cur t = Some from → restore_candidate src cur t from = inl e →
  e = ErrAPI ∨ (e = ErrConflict ∧ ∃ c, cur = Some c ∧ missing (b_Artifacts c)).
Proof.
  unfold candidate_part, restore_candidate. destruct cur as [c|]; [|done]. cbv beta iota.
  destruct (bool_decide (Type_ (b_Artifacts c) = "mixed")) eqn:Em; cbn [negb andb].
  - intros [= <-]. destruct (restore src (Some (b_Artifacts c)) t) as [e'|] eqn:Er; [|done].
    assert (∀ e, restore src (Some (b_Artifacts c)) (asMixed t) = inl e → e = ErrAPI ∨ (e = ErrConflict ∧ missing (b_Artifacts c))) as Hm.
    { intros e0 [?|[?|(_ & [[_ ?]|[_ ?]])]]%restore_error; auto; done. }
    apply restore_error in Er as [->|[[-> Hmis]|[-> _]]].
    + intros [= <-]. by left.
    + intros [= <-]. right. split; [done|]. by exists c.
    + intros [?|[? ?]]%Hm; [by left|right]. split; [done|]. by exists c.
  - clear Em. case_bool_decide as Et; cbn [negb].
    + intros [= <-] Hr. assert (restore src (Some (b_Artifacts c)) t = inl e) as Hr' by (destruct (restore _ _ _) as [[]|]; congruence).
      apply restore_error in Hr' as [?|[[? ?]|(_ & [[H1 H2]|[H1 H2]])]]; [by left|right; split; [done|by exists c]| |].
      * by rewrite (deploysConfig_type _ _ Et), H1 in H2.
      * by rewrite (deploysImages_type _ _ Et), H1 in H2.
    + intros [_ Ht]%onlyTypeOf_part Hr.
      assert (restore src (Some (b_Artifacts c)) from = inl e) as Hr' by (destruct (restore _ _ _) as [[]|]; congruence).
      apply restore_error in Hr' as [?|[[? ?]|(_ & [[H1 H2]|[H1 H2]])]]; [by left|right; split; [done|by exists c]| |].
      * by rewrite (deploysConfig_type _ _ Ht), H1 in H2.
      * by rewrite (deploysImages_type _ _ Ht), H1 in H2.
Qed.

(** The deployed Bundle is a mixed one. *)
Definition mixed_current : Prop := ∃ c, cur = Some c ∧ Type_ (b_Artifacts c) = "mixed".

(** What a candidate restores. *)
Lemma restore_candidate_spec t from r :
  valid_spec t → candidate_part cur t = Some from → restore_candidate src cur t from = inr r →
  (∀ i, i ∈ dep_images r → i ∈ dep_images t ∨ image_from_history src i ∨ (named_only t i ∧ mixed_current)) ∧
  (is_Some (dep_config r) → dep_config r = dep_config t ∨ commit_from_history src (dep_config r)) ∧
  (∀ c, cur = Some c → covers src (b_Artifacts c) r).
Proof.
  intros Hw Hp Hr.
  assert (∃ f, restore src cur_art f = inr r ∧ (∀ i, i ∈ dep_images f → i ∈ dep_images t ∨ (named_only t i ∧ mixed_current)) ∧
            (is_Some (dep_config f) → dep_config f = dep_config t)) as (f & Hf & Hi & Hc).
  { assert (∀ f, part_of f t → (∀ i, i ∈ dep_images f → i ∈ dep_images t ∨ (named_only t i ∧ mixed_current)) ∧
                               (is_Some (dep_config f) → dep_config f = dep_config t)) as Hpart by (intros f [H1 H2]; auto).
    revert Hp Hr. unfold candidate_part, restore_candidate, mixed_current in *. destruct cur as [c|]; cbv beta iota.
    - destruct (bool_decide (Type_ (b_Artifacts c) = "mixed")) eqn:Em; cbn [negb andb].
      + intros [= <-]. destruct (restore src (Some (b_Artifacts c)) t) as [[]|] eqn:Er; try done.
        * intros H. exists (asMixed t). split; [done|]. destruct (asMixed_part t Hw) as [H1 H2]. split; [|done].
          intros i [?|?]%H1; [by left|right]. split; [done|]. exists c. bools. done.
        * intros [= <-]. exists t. split; [done|by apply Hpart].
      + clear Em. case_bool_decide as Et; cbn [negb].
        * intros [= <-] H. exists t. split; [by destruct (restore _ _ _) as [[]|]|by apply Hpart].
        * intros [Hp _]%onlyTypeOf_part H. exists from. split; [by destruct (restore _ _ _) as [[]|]|by apply Hpart].
    - intros [= <-] H. exists t. split; [by destruct (restore _ _ _) as [[]|]|by apply Hpart]. }
  pose proof (restore_dep src _ _ _ Hf) as [Hd1 Hd2]. apply restore_spec in Hf as (_ & _ & _ & Hcov). split_and!.
  - intros i Hin. destruct (Hd1 i Hin) as [[?|?]%Hi|?]; auto.
  - intros Hs. destruct (Hd2 Hs) as [E|?]; [|by right]. left. rewrite E. apply Hc. by rewrite <- E.
  - intros c ->. by apply Hcov.
Qed.

Lemma hasRepository_elem l repo : hasRepository l repo = true ↔ ∃ i, i ∈ l ∧ Repository i = repo.
Proof.
  unfold hasRepository. rewrite existsb_exists. setoid_rewrite bool_decide_eq_true. by setoid_rewrite list_elem_of_In.
Qed.

(** When an earlier version is missing, no candidate can be restored, but one that names
    images it does not deploy. *)
Lemma missing_refuses name t r c :
  name ∈ rs_verified src → rs_pipeline src = rq_Pipeline rq → valid_spec (b_Artifacts t) → cur = Some c → missing (b_Artifacts c) →
  qualifies name t r → ∃ i, named_only (b_Artifacts t) i.
Proof.
  intros Hin Hpl Hw Hc Hm (Hs & Hg & Hp & _ & Hcar & _ & from & Hpart & Hr & _).
  assert (eligible src name t) as Hel.
  { split_and!; try done. unfold usable. by rewrite !bool_decide_true by congruence. }
  pose proof (restore_candidate_spec _ _ _ Hw Hpart Hr) as (Hi & Hcfg & Hcov). destruct (Hcov c Hc) as [Hci Hcc].
  destruct Hm as [[Hd Hn]|(i & Hd & Hn)].
  - assert (∀ n b, eligible src n b → ¬ is_Some (dep_config (b_Artifacts b))) as Hno.
    { intros n b He. pose proof (newestConfig_spec src _ Hn n b He) as E. unfold dep_config. rewrite E. by intros [? ?]. }
    destruct (Hcc Hd) as [[H1 H2]|(_ & _ & n & b & He & Hb & _)]; [|by destruct (Hno n b)].
    assert (is_Some (dep_config r)) as Hdr by (apply dep_config_eq; by rewrite H1, H2).
    destruct (Hcfg Hdr) as [E|(n & b & He & Hb & _)]; [|by destruct (Hno n b)]. destruct (Hno name t Hel). by rewrite <- E.
  - pose proof (newest_in_history src _ _ Hn) as Hno. cbn beta in Hno.
    assert (∀ j n b, eligible src n b → j ∈ dep_images (b_Artifacts b) → Repository j ≠ Repository i) as Hne.
    { intros j n b He Hj E. pose proof (Hno n b He) as Hf. unfold dep_images in Hj. destruct (deploysImages (b_Artifacts b)); [|by apply elem_of_nil in Hj].
      simpl in Hf. assert (hasRepository (Images (b_Artifacts b)) (Repository i) = true); [|congruence]. apply hasRepository_elem. by exists j. }
    destruct (Hci i Hd) as [[H1 H2]|(_ & _ & n & b & He & Hb)]; [|by destruct (Hne i n b)].
    apply hasRepository_elem in H2 as (j & Hj & E). destruct (Hi j) as [Hj'|[(n & b & He & Hb)|[? _]]].
    + unfold dep_images. by rewrite H1.
    + by destruct (Hne j name t).
    + by destruct (Hne j n b).
    + by exists j.
Qed.

Lemma plan_newest_refused l e :
  (∀ n, n ∈ l → n ∈ rs_verified src) → rs_pipeline src = rq_Pipeline rq →
  (∀ n t, getBundle sn n = Got t → valid_spec (b_Artifacts t)) →
  plan_newest rq src cur l = inl e →
  e = ErrAPI ∨ (e = ErrConflict ∧ ∀ n t r, n ∈ rs_verified src → n ∈ l → qualifies n t r → ∃ i, named_only (b_Artifacts t) i).
Proof.
  intros Hsub Hpl Hw. induction l as [|n l IH].
  { intros [= <-]. right. split; [done|]. by intros ? ? ? _ ?%elem_of_nil. }
  destruct (plan_newest_step n l) as [(t & r & _ & ->)|[[Hn ->]|(e' & -> & He)]]; [done| |].
  - intros H. destruct (IH (λ m Hm, Hsub m (list_elem_of_further _ _ _ Hm)) H) as [?|[? Hno]]; [by left|right]. split; [done|].
    intros m t r Hv [->|Hm]%elem_of_cons Hq; [by destruct (Hn _ _ Hq)|by apply (Hno m t r)].
  - intros [= <-]. destruct He as [?|(t & from & Hs & Hg & Hp & Hc & Hpart & Hr)]; [by left|].
    destruct (restore_candidate_error _ _ _ Hpart Hr) as [?|(? & c & Ec & Hm)]; [by left|right]. split; [done|].
    intros m t' r' Hv _ Hq. pose proof Hq as (_ & Hg' & _).
    by apply (missing_refuses m t' r' c Hv Hpl (Hw m t' Hg') Ec Hm).
Qed.
End choose.

(** ** The plan of an environment *)

Section environment.
Variable rq : RollbackRequest.
Variable steps : list Step.
Variable fleet : string.

Abbreviation hist := (historyOf steps (rq_Pipeline rq) (rq_Environment rq)).
Abbreviation current := (current_of rq hist).

Lemma plan_environment_ok p :
  plan_environment rq (Some steps) fleet = inr p →
  ∃ rolledBack bundles, rolledBackFrom (rq_Pipeline rq) (rq_Environment rq) fleet hist = Some rolledBack ∧
    pipelineBundles sn = Some bundles ∧ pl_CurrentName p = current ∧ read_current current = inr (pl_Current p) ∧
    (rq_Automatic rq = true → ∀ c, pl_Current p = Some c → isRollbackIn (rq_Pipeline rq) hist c = false) ∧
    ((rq_ToBundle rq ≠ "" ∧
      plan_to rq (sources_of rq hist rolledBack bundles) hist (pl_Current p) (rq_ToBundle rq) = inr (pl_Target p, pl_Restored p)) ∨
     (rq_ToBundle rq = "" ∧
      plan_newest rq (sources_of rq hist rolledBack bundles) (pl_Current p) (verifiedNewestFirst hist) = inr (pl_Target p, pl_Restored p))).
Proof.
  unfold plan_environment. destruct (read_current current) as [|cur] eqn:Ec; simpl; [done|].
  destruct (rq_Automatic rq && _) eqn:Ea; [done|].
  destruct (rolledBackFrom _ _ _ _) as [rb|]; [|done]. destruct (pipelineBundles sn) as [bs|]; [|done].
  destruct (if bool_decide (rq_ToBundle rq = "") then _ else _) as [|[t r]] eqn:Ep; simpl; [done|]. intros [= <-].
  exists rb, bs. split_and!; try done.
  - simpl. intros Hau c ->. by rewrite Hau in Ea.
  - simpl. revert Ep. case_bool_decide as Et; [|by left]. case_bool_decide; [done|]. by right.
Qed.

(** A version that is known to work in the environment and was not rejected. *)
Definition known_good (bundles : list Bundle) (b : Bundle) : Prop :=
  getBundle sn (b_Name b) = Got b ∧ b_Pipeline b = rq_Pipeline rq ∧ verifiedIn hist (b_Name b) = true ∧
  Carries (RejectedArtifactsOf bundles (rq_Pipeline rq)) b = None.

(** Reading a Bundle gives the one of that name, and the CRD validated it. *)
Definition api_ok : Prop := ∀ n b, getBundle sn n = Got b → b_Name b = n ∧ valid_spec (b_Artifacts b).

Lemma eligible_known rolledBack bundles name b :
  api_ok → eligible (sources_of rq hist rolledBack bundles) name b → known_good bundles b ∧ b_Name b ≠ current.
Proof.
  intros Hapi (Hv & Hs & Hg & Hu). destruct (Hapi name b Hg) as [<- _]. apply verifiedNewestFirst_elem in Hv.
  unfold usable in Hu. unfold skipped in Hs. simpl in *. apply orb_false_iff in Hs as [Hs _]. bools. done.
Qed.

(** The chosen target, and what its restoration deploys. *)
Lemma plan_target p rolledBack bundles :
  api_ok →
  ((rq_ToBundle rq ≠ "" ∧
    plan_to rq (sources_of rq hist rolledBack bundles) hist (pl_Current p) (rq_ToBundle rq) = inr (pl_Target p, pl_Restored p)) ∨
   (rq_ToBundle rq = "" ∧
    plan_newest rq (sources_of rq hist rolledBack bundles) (pl_Current p) (verifiedNewestFirst hist) = inr (pl_Target p, pl_Restored p))) →
  let src := sources_of rq hist rolledBack bundles in
  known_good bundles (pl_Target p) ∧ b_Name (pl_Target p) ≠ current ∧
  (∀ i, i ∈ dep_images (pl_Restored p) → i ∈ dep_images (b_Artifacts (pl_Target p)) ∨ image_from_history src i ∨
     (named_only (b_Artifacts (pl_Target p)) i ∧ mixed_current (pl_Current p))) ∧
  (is_Some (dep_config (pl_Restored p)) →
     dep_config (pl_Restored p) = dep_config (b_Artifacts (pl_Target p)) ∨ commit_from_history src (dep_config (pl_Restored p))) ∧
  (∀ c, pl_Current p = Some c → covers src (b_Artifacts c) (pl_Restored p) ∧ sameDeployed src (pl_Restored p) (b_Artifacts c) = inr false).
Proof.
  intros Hapi Hp src. set (t := pl_Target p) in *. set (r := pl_Restored p) in *. set (cur := pl_Current p) in *.
  assert (∀ x, restored_change src (match cur with Some b => Some (b_Artifacts b) | None => None end) x = inr (Some r) →
    x = r ∧ ∀ c, cur = Some c → sameDeployed src r (b_Artifacts c) = inr false) as Hchg.
  { intros x. unfold restored_change. destruct cur as [c|]; [|by intros [= ->]].
    destruct (sameDeployed src x (b_Artifacts c)) as [|[]] eqn:Es; simpl; try done. intros [= ->]. split; [done|]. by intros ? [= <-]. }
  destruct Hp as [[_ Hp]|[_ Hp]].
  - revert Hp. unfold plan_to. destruct (getBundle sn (rq_ToBundle rq)) as [b| |] eqn:Eg; [|done..].
    destruct (Hapi _ _ Eg) as [En _].
    case_bool_decide as Epl; cbn [negb]; [|done]. destruct (Rejected b); [done|]. case_bool_decide as Ecar; [done|].
    destruct (HasArtifacts _); cbn [negb]; [|done]. case_bool_decide as Ecur; [done|].
    destruct (match cur with Some c => SameArtifacts (b_Artifacts b) (b_Artifacts c) | None => false end); [done|].
    destruct (verifiedIn hist (b_Name b)) eqn:Ev; cbn [negb]; [|done].
    destruct (restore _ _ _) as [|r'] eqn:Er; simpl; [done|]. destruct (restored_change _ _ _) as [|[r''|]] eqn:Ex; simpl; [done| |done].
    intros [= <- <-]. destruct (Hchg _ Ex) as [-> Hsame].
    pose proof (restore_dep src _ _ _ Er) as [Hi Hc]. apply restore_spec in Er as (_ & _ & _ & Hcov).
    split_and!; try done.
    + split_and!; [by rewrite En|done|done|]. by apply eq_None_not_Some.
    + intros i [?|?]%Hi; auto.
    + intros c Hc'. split; [|by apply Hsame]. apply Hcov. by rewrite Hc'.
  - apply plan_newest_found in Hp as (l1 & name & l2 & El & Hq & _).
    pose proof Hq as (Hs & Hg & Hpl & _ & Hcar & _ & from & Hpart & Hr & Hx). destruct (Hapi _ _ Hg) as [En Hw].
    pose proof (restore_candidate_spec _ _ _ _ _ Hw Hpart Hr) as (Hi & Hc & Hcov). destruct (Hchg _ Hx) as [_ Hsame].
    assert (verifiedIn hist name = true) as Hv by (apply verifiedNewestFirst_elem; rewrite El; apply elem_of_app; right; by left).
    split_and!; try done.
    + split_and!; [by rewrite En|done|by rewrite En|done].
    + unfold skipped in Hs. apply orb_false_iff in Hs as [Hs _]. bools. by rewrite En.
    + intros c Hcc. split; [by apply Hcov|by apply Hsame].
Qed.

Lemma known_image bundles b i :
  known_good bundles b → i ∈ Images (b_Artifacts b) → clean_image (RejectedArtifactsOf bundles (rq_Pipeline rq)) i.
Proof. intros (_ & _ & _ & Hc) Hi. apply Carries_none in Hc as (_ & Hc & _). by apply Hc. Qed.

Lemma known_commit bundles b :
  known_good bundles b → clean_commit (RejectedArtifactsOf bundles (rq_Pipeline rq)) (dep_config (b_Artifacts b)).
Proof. intros (_ & _ & _ & Hc). by apply Carries_none in Hc as (_ & _ & Hc). Qed.

Lemma dep_images_named a i : i ∈ dep_images a → i ∈ Images a.
Proof. unfold dep_images. destruct (deploysImages a); [done|]. by intros ?%elem_of_nil. Qed.

(** C22. A rollback deploys only what is known there.  If a rollback of an environment is
    planned, its target is a Bundle of the pipeline that was Verified in that environment
    and carries nothing rejected, and is not what runs now.  Every image and config
    commit it deploys is named by such a Bundle and is no artifact of a rejected one; that
    Bundle deployed it, with one exception: a target of a type that ignores the images it
    names, restored as part of a mixed Bundle, brings those images.  An automatic
    rollback does not roll a rollback back. *)
Theorem rollback_restores_known p :
  api_ok → plan_environment rq (Some steps) fleet = inr p →
  ∃ bundles, pipelineBundles sn = Some bundles ∧
    known_good bundles (pl_Target p) ∧ b_Name (pl_Target p) ≠ pl_CurrentName p ∧
    (∀ i, i ∈ dep_images (pl_Restored p) →
       clean_image (RejectedArtifactsOf bundles (rq_Pipeline rq)) i ∧
       ((∃ b, known_good bundles b ∧ i ∈ dep_images (b_Artifacts b)) ∨
        (named_only (b_Artifacts (pl_Target p)) i ∧ mixed_current (pl_Current p)))) ∧
    (∀ c, dep_config (pl_Restored p) = Some c →
       clean_commit (RejectedArtifactsOf bundles (rq_Pipeline rq)) (Some c) ∧
       ∃ b, known_good bundles b ∧ dep_config (b_Artifacts b) = Some c) ∧
    (rq_Automatic rq = true → ∀ c, pl_Current p = Some c → isRollbackIn (rq_Pipeline rq) hist c = false).
Proof.
  intros Hapi (rb & bs & _ & Hbs & Hcn & _ & Hau & Hp)%plan_environment_ok.
  destruct (plan_target p rb bs Hapi Hp) as (Ht & Hne & Hi & Hc & _).
  exists bs. rewrite Hcn. split_and!; try done.
  - intros i Hin. destruct (Hi i Hin) as [?|[(n & b & He & ?)|[Hn Hm]]].
    + split; [by apply (known_image bs (pl_Target p)), dep_images_named|]. left. by exists (pl_Target p).
    + apply (eligible_known rb bs n b Hapi) in He as [? _]. split; [by apply (known_image bs b), dep_images_named|]. left. by exists b.
    + split; [|by right]. apply (known_image bs (pl_Target p)); [done|apply Hn].
  - intros c Ec. assert (∃ b, known_good bs b ∧ dep_config (b_Artifacts b) = Some c) as (b & Hb & Hib).
    { rewrite Ec in Hc. destruct (Hc (mk_is_Some _ _ eq_refl)) as [E|(n & b & He & _ & E)]; [by exists (pl_Target p)|].
      exists b. split; [|done]. by apply (eligible_known rb bs n b). }
    split; [|by exists b]. rewrite <- Hib. by apply known_commit.
Qed.

(** A rollback leaves nothing of the deployed Bundle in place, and changes
    something.  For every image repository and config commit the deployed Bundle
    deployed, the rollback Bundle deploys a version of its own; where its type cannot
    (a mixed Bundle rolled back to an image or a config one), the deployed Bundle had
    not changed it: an earlier Bundle that was Verified there deployed the same. *)
Theorem rollback_leaves_nothing p c :
  api_ok → plan_environment rq (Some steps) fleet = inr p → pl_Current p = Some c →
  ∃ rolledBack bundles,
    rolledBackFrom (rq_Pipeline rq) (rq_Environment rq) fleet hist = Some rolledBack ∧ pipelineBundles sn = Some bundles ∧
    sameDeployed (sources_of rq hist rolledBack bundles) (pl_Restored p) (b_Artifacts c) = inr false ∧
    (∀ i, i ∈ dep_images (b_Artifacts c) →
       (deploysImages (pl_Restored p) = true ∧ hasRepository (Images (pl_Restored p)) (Repository i) = true) ∨
       (deploysImages (pl_Restored p) = false ∧
        ∃ b, known_good bundles b ∧ b_Name b ≠ current ∧ i ∈ dep_images (b_Artifacts b))) ∧
    (is_Some (dep_config (b_Artifacts c)) →
       is_Some (dep_config (pl_Restored p)) ∨
       (deploysConfig (pl_Restored p) = false ∧
        ∃ b, known_good bundles b ∧ b_Name b ≠ current ∧ configKey (b_Artifacts b) = configKey (b_Artifacts c))).
Proof.
  intros Hapi (rb & bs & Hrb & Hbs & Hcn & _ & _ & Hp)%plan_environment_ok Hcur.
  destruct (plan_target p rb bs Hapi Hp) as (_ & _ & _ & _ & Hcov). destruct (Hcov c Hcur) as [[Hi Hc] Hsame].
  exists rb, bs. split_and!; try done.
  - intros i Hin. destruct (Hi i Hin) as [?|(? & _ & n & b & He & ?)]; [by left|right]. split; [done|]. exists b.
    destruct (eligible_known rb bs n b Hapi He). done.
  - intros Hs. destruct (Hc Hs) as [[H1 H2]|(? & _ & n & b & He & _ & ?)].
    + left. apply dep_config_eq. by rewrite H1, H2.
    + right. split; [done|]. exists b. destruct (eligible_known rb bs n b Hapi He). done.
Qed.

(** C23. Which version a rollback goes back to.  Without a Bundle named, the target was
    Verified in the environment and qualifies (it is not what runs or what an earlier
    rollback left, carries nothing rejected, and its restoration changes something), and
    no Bundle whose last verification there is more recent does.  The rollback is refused
    only because a read failed, because nothing was deployed, because the deployed Bundle
    is a rollback itself (automatic rollbacks only), or because no Bundle that was Verified
    qualifies, but perhaps one of a type that ignores the images it names: giving up at
    the first candidate that cannot be restored loses no other. *)
Theorem rollback_goes_to_newest :
  api_ok → rq_ToBundle rq = "" →
  match plan_environment rq (Some steps) fleet with
  | inr p => ∃ rb bs name, rolledBackFrom (rq_Pipeline rq) (rq_Environment rq) fleet hist = Some rb ∧ pipelineBundles sn = Some bs ∧
      verifiedIn hist name = true ∧
      qualifies rq (sources_of rq hist rb bs) (pl_Current p) name (pl_Target p) (pl_Restored p) ∧
      ∀ n t r, verifiedIn hist n = true → more_recent hist n name → ¬ qualifies rq (sources_of rq hist rb bs) (pl_Current p) n t r
  | inl ErrConflict => current = "" ∨
      (∃ cur, read_current current = inr cur ∧
         ((rq_Automatic rq = true ∧ ∃ c, cur = Some c ∧ isRollbackIn (rq_Pipeline rq) hist c = true) ∨
          ∃ rb bs, rolledBackFrom (rq_Pipeline rq) (rq_Environment rq) fleet hist = Some rb ∧ pipelineBundles sn = Some bs ∧
            ∀ n t r, verifiedIn hist n = true → qualifies rq (sources_of rq hist rb bs) cur n t r →
              ∃ i, named_only (b_Artifacts t) i))
  | inl e => e = ErrAPI
  end.
Proof.
  intros Hapi Hto. destruct (plan_environment rq (Some steps) fleet) as [e|p] eqn:Ep.
  - revert Ep. unfold plan_environment. destruct (read_current current) as [e'|cur] eqn:Ec; simpl.
    { intros [= <-]. unfold read_current in Ec. case_bool_decide; [done|]. destruct (getBundle sn current); try done. by injection Ec as <-. }
    destruct (rq_Automatic rq && _) eqn:Ea.
    { intros [= <-]. right. exists cur. split; [done|]. left. apply andb_true_iff in Ea as [? ?]. split; [done|].
      destruct cur as [c|]; [by exists c|done]. }
    destruct (rolledBackFrom _ _ _ _) as [rb|] eqn:Erb; [|by intros [= <-]]. destruct (pipelineBundles sn) as [bs|] eqn:Ebs; [|by intros [= <-]].
    rewrite bool_decide_true by done. case_bool_decide as Ecur; [intros [= <-]; by left|].
    destruct (plan_newest _ _ _ _) as [e'|[t r]] eqn:En; simpl; [|done]. intros [= <-].
    apply plan_newest_refused in En as [->|[-> Hno]]; [done| |done|done|].
    + right. exists cur. split; [done|]. right. exists rb, bs. split_and!; [done|done|]. intros n t r Hn%verifiedNewestFirst_elem. by apply Hno.
    + intros n t Hg. by apply (Hapi n t).
  - apply plan_environment_ok in Ep as (rb & bs & Hrb & Hbs & _ & _ & _ & [[? _]|[_ Hp]]); [done|].
    apply plan_newest_found in Hp as (l1 & name & l2 & El & Hq & Hno). exists rb, bs, name. split_and!; try done.
    + apply verifiedNewestFirst_elem. rewrite El. apply elem_of_app. right. by left.
    + intros n t r Hn%verifiedNewestFirst_elem Hm. apply Hno. by apply (verifiedNewestFirst_before hist l1 name l2).
Qed.
End environment.
End plan.

(** ** Examples *)

Definition demo_image (tag : string) : ImageRef := mkImageRef "acme/app" tag "".

Definition demo_bundle (name : string) (a : Artifacts) : Bundle :=
  mkBundle name "app" a false "" None false None "" "" "" "" "" 0 None.

Definition demo_step (name : string) (st : State) (t : Time) : Step :=
  mkStepOf (name +:+ "-prod") name "app" "prod" st t None true.

Definition demo_request (automatic : bool) : RollbackRequest := mkRequest "app" "prod" "" "" automatic.

(** v1 was Verified, v2 failed its health check. *)
Definition demo_v1 : Bundle := demo_bundle "v1" (mkArtifacts "image" [demo_image "1"] None None).
Definition demo_v2 : Bundle := demo_bundle "v2" (mkArtifacts "image" [demo_image "2"] None None).

Definition demo_snapshot : Snapshot :=
  mkSnapshot (λ n, if bool_decide (n = "v1") then Got demo_v1 else if bool_decide (n = "v2") then Got demo_v2 else Missing)
    (Some []) (Some [demo_v1; demo_v2]).

Definition demo_steps : list Step := [demo_step "v1" StateVerified 1; demo_step "v2" StateFailed 2].

Definition demo_plan : plan_error + RollbackPlan := plan_environment Some "kardinal" demo_snapshot (demo_request true) (Some demo_steps) "".

Definition demo_planned : RollbackPlan := mkPlan "v2" (Some demo_v2) demo_v1 (b_Artifacts demo_v1).

Lemma demo_planned_eq : demo_plan = inr demo_planned.
Proof. vm_compute. reflexivity. Qed.

Lemma demo_api_ok : api_ok demo_snapshot.
Proof.
  intros n b. simpl. case_bool_decide; [intros [= <-]; by split|]. case_bool_decide; [intros [= <-]; by split|done].
Qed.

Lemma rollback_restores_known_witness : b_Name demo_v1 ≠ "v2".
Proof.
  destruct (rollback_restores_known Some "kardinal" demo_snapshot (demo_request true) demo_steps "" demo_planned
    demo_api_ok demo_planned_eq) as (bundles & _ & _ & H & _).
  exact H.
Defined.

Lemma rollback_leaves_nothing_witness : hasRepository (Images (b_Artifacts demo_v1)) "acme/app" = true.
Proof.
  destruct (rollback_leaves_nothing Some "kardinal" demo_snapshot (demo_request true) demo_steps "" demo_planned demo_v2
    demo_api_ok demo_planned_eq eq_refl) as (rb & bs & _ & _ & _ & Hi & _).
  destruct (Hi (demo_image "2")) as [[_ H]|[H _]]; [by left|exact H|discriminate H].
Defined.

Lemma rollback_goes_to_newest_witness :
  match demo_plan with inr p => b_Name (pl_Target p) = "v1" | inl _ => False end.
Proof.
  pose proof (rollback_goes_to_newest Some "kardinal" demo_snapshot (demo_request true) demo_steps "" demo_api_ok eq_refl) as H.
  change (plan_environment Some "kardinal" demo_snapshot (demo_request true) (Some demo_steps) "") with demo_plan in H.
  rewrite demo_planned_eq in H |- *. destruct H as (rb & bs & name & _ & _ & _ & Hq & _). reflexivity.
Defined.

(** A rollback can deploy an image that was never deployed.  A config Bundle may name
    images, which its promotion ignores; rolled back to as part of a mixed Bundle, it
    deploys them. *)
Theorem config_images_revived :
  let c1 := demo_bundle "c1" (mkArtifacts "config" [demo_image "bad"] (Some (mkConfigRef "repo" "aaaa")) None) in
  let m1 := demo_bundle "m1" (mkArtifacts "mixed" [demo_image "1"] (Some (mkConfigRef "repo" "0000")) None) in
  let m2 := demo_bundle "m2" (mkArtifacts "mixed" [demo_image "2"] (Some (mkConfigRef "repo" "bbbb")) None) in
  let get n := if bool_decide (n = "m1") then Got m1 else if bool_decide (n = "c1") then Got c1
               else if bool_decide (n = "m2") then Got m2 else Missing in
  let sn := mkSnapshot get (Some []) (Some [m1; c1; m2]) in
  let steps := [demo_step "m1" StateVerified 1; demo_step "c1" StateVerified 2; demo_step "m2" StateFailed 3] in
  match plan_environment Some "kardinal" sn (demo_request true) (Some steps) "" with
  | inr p => dep_images (pl_Restored p) = [demo_image "bad"]
  | inl _ => False
  end.
Proof. vm_compute. reflexivity. Qed.
End Rollback.
