(* ===== verification/RollbackFleet.v ===== *)
(** * RollbackFleet: rolling a whole fleet back

    Model of planFleetRollback, fleetEligible, rolledBackFromByEnv,
    fleetRollbackTargets, effectiveOf and oldestRunning
    (src/pkg/lifecycle/rollback.go), of CompareCreation (lifecycle.go), and of
    PlanRollback as the choice between a fleet ([Fleet] resolves its targets) and one
    environment ([Rollback]).  Reading the history twice in one plan reads the same. *)

From stdpp Require Import base gmap strings list sorting.
From Stdlib Require Import Lia ZArith.
From S2P Require Import Prelude Topo Ordering Fleet Actor Engine StepStatus Hooks Outbox Bake Transition Cancel History Rollback.
Import StepStatus.StepStatus Cancel.Cancel History.History Rollback.Rollback.

Module RollbackFleet.

(** [CompareCreation(a, b) < 0]: the creation time, then whether there is a stamp,
    then the stamp, then the name. *)
Definition created_before (a b : Bundle) : bool :=
  if negb (b_Created a =? b_Created b) then b_Created a <? b_Created b
  else match b_CreatedAt a, b_CreatedAt b with
       | Some _, None => false
       | None, Some _ => true
       | Some ta, Some tb => if negb (ta =? tb) then ta <? tb else str_ltb (b_Name a) (b_Name b)
       | None, None => str_ltb (b_Name a) (b_Name b)
       end.

#[export] Instance created_before_weak : StrictWeak created_before.
Proof.
  assert (∀ a b : string, str_ltb a b = true → str_ltb b a = false) as Hasym.
  { intros a b H. destruct (str_ltb b a) eqn:E; [|done]. by rewrite <- (str_ltb_irrefl a), (str_ltb_trans a b a H E). }
  assert (∀ a b c : string, str_ltb a b = false → str_ltb b c = false → str_ltb a c = false) as Hneg.
  { intros a b c H1 H2. destruct (str_ltb a c) eqn:E; [|done].
    destruct (str_ltb_total a b) as [->|[?|Hba]]; [congruence|congruence|]. by rewrite (str_ltb_trans b a c Hba E) in H2. }
  split; intros [] []; [|intros []]; unfold created_before; simpl.
  all: repeat match goal with |- context [?x =? ?y] => destruct (Z.eqb_spec x y); simpl end; subst.
  all: repeat match goal with o : option Z |- _ => destruct o end.
  all: repeat match goal with |- context [?x =? ?y] => destruct (Z.eqb_spec x y); simpl end; subst.
  all: rewrite ?Z.ltb_lt, ?Z.ltb_ge; try done; try lia; eauto.
Qed.

(** What runs in each target that something landed in. *)
Definition runs_of (steps : list Step) (pipeline t : string) : string := deployed (historyOf steps pipeline t).

Section fleet.
Variable NormalizeRepository : string → option string.
Variable ControllerCreator : string.
Variable sn : Snapshot.

(** ** What a target effectively runs *)

(** A rollback counts as what it restored; at most [n] rollbacks are followed. *)
Fixpoint follow (n : nat) (b : Bundle) : plan_error + Bundle :=
  match n with
  | O => inr b
  | S n =>
      if b_RollbackLabel b && negb (bool_decide (b_RollbackOf b = "")) then
        match getBundle sn (b_RollbackOf b) with
        | Got of_ =>
            if negb (IsControllerRollback ControllerCreator b) && negb (SameArtifacts (b_Artifacts b) (b_Artifacts of_))
            then inr b else follow n of_
        | _ => inl ErrAPI
        end
      else inr b
  end.

Definition effective_bundle (name : string) : plan_error + Bundle :=
  match getBundle sn name with Got b => follow 4 b | _ => inl ErrAPI end.

(** The loop of [oldestRunning]: the effective Bundle of each one that runs, and the
    oldest so far. *)
Fixpoint oldest_loop (names : list string) (effective : gmap string Bundle) (oldest : option Bundle) :
  plan_error + (gmap string Bundle * option Bundle) :=
  match names with
  | [] => inr (effective, oldest)
  | name :: names =>
      match (match effective !! name with Some b => inr b | None => effective_bundle name end) with
      | inl e => inl e
      | inr eb =>
          oldest_loop names (<[name := eb]> effective)
            (match oldest with
             | None => Some eb
             | Some o => if created_before eb o then Some eb else Some o
             end)
      end
  end.

(** The oldest one, how many distinct ones there are, and the effective names. *)
Definition oldestRunning (names : list string) : plan_error + (string * nat * gmap string string) :=
  match oldest_loop names ∅ None with
  | inl e => inl e
  | inr (effective, oldest) =>
      inr (match oldest with Some o => b_Name o | None => "" end,
           size (list_to_set (omap (λ n, b_Name <$> effective !! n) names) : gset string),
           b_Name <$> effective)
  end.

Definition effectiveOf (effective : gmap string string) (bundle : string) : string :=
  match effective !! bundle with
  | Some e => if bool_decide (e = "") then bundle else e
  | None => bundle
  end.

(** ** The plan *)

Record FleetTargetRollback := mkFleetTarget { ft_Environment : string; ft_Runs : string; ft_Changes : bool }.

Section request.
Variable rq : RollbackRequest.
Variable steps : list Step.
Variable targets : list string.

Abbreviation runs t := (runs_of steps (rq_Pipeline rq) t).

Definition runs_already (effective : gmap string string) (t to : string) : bool :=
  bool_decide (runs t = to) || bool_decide (effectiveOf effective (runs t) = to).

Definition fleetRollbackTargets (effective : gmap string string) (target : string) : list FleetTargetRollback :=
  (λ t, mkFleetTarget t (runs t) (bool_decide (runs t = "") || negb (runs_already effective t target))) <$> targets.

(** The Bundles that a rollback in the target [t] went back from. *)
Definition rolledBackFromByEnv (rollbacks : list Bundle) (t : string) : list string :=
  omap (λ b,
    let from := RollbackFromOf b in
    if bool_decide (from = "") || negb (bool_decide (b_Pipeline b = rq_Pipeline rq)) || bool_decide (b_Target b = "") then None
    else if (if bool_decide (b_Target b = rq_Environment rq) then bool_decide (t ∈ targets) else bool_decide (b_Target b = t)) &&
            rolledBackIn NormalizeRepository ControllerCreator sn (historyOf steps (rq_Pipeline rq) t) b
    then Some from else None) rollbacks.

Definition fleet_bad (from : string → list string) (dest : string) (t : FleetTargetRollback) : bool :=
  let h := historyOf steps (rq_Pipeline rq) (ft_Environment t) in
  if negb (ft_Changes t) || bool_decide (ft_Runs t = "") then false
  else negb (verifiedIn h dest) || bool_decide (dest ∈ from (ft_Environment t)).

Definition fleetEligible (dest : string) (fleet : list FleetTargetRollback) : option plan_error :=
  match (if bool_decide (rq_ToBundle rq = "") then
           match rollbackBundles sn with Some l => Some (rolledBackFromByEnv l) | None => None end
         else Some (λ _, [])) with
  | None => Some ErrAPI
  | Some from => if existsb (fleet_bad from dest) fleet then Some ErrConflict else None
  end.

(** The first target from which the plan works. *)
Fixpoint plan_from (candidates : list string) (to : string) (last : plan_error) : plan_error + RollbackPlan :=
  match candidates with
  | [] => inl last
  | t :: l =>
      match plan_environment NormalizeRepository ControllerCreator sn
              (mkRequest (rq_Pipeline rq) t to (rq_FromBundle rq) (rq_Automatic rq)) (Some steps) (rq_Environment rq) with
      | inr p => inr p
      | inl e => plan_from l to e
      end
  end.

(** The targets something landed in. *)
Definition deployed_targets : list string := filter (λ t, runs t ≠ "") targets.

(** The version to go to (the empty string for the newest good one of the first
    target) and what the running Bundles count as; [None] when one cannot be read. *)
Definition fleet_destination : option (string * gmap string string) :=
  if bool_decide (rq_ToBundle rq = "") && bool_decide (rq_FromBundle rq = "")
  then match oldestRunning ((λ t, runs t) <$> deployed_targets) with
       | inl _ => None
       | inr (oldest, distinct, effective) => Some (if Nat.ltb 1 distinct then oldest else "", effective)
       end
  else Some (rq_ToBundle rq, ∅).

Definition fleet_candidates (to : string) (effective : gmap string string) : list string :=
  if bool_decide (to = "") then take 1 deployed_targets
  else filter (λ t, runs_already effective t to = false) deployed_targets.

Definition planFleetRollback : plan_error + (RollbackPlan * list FleetTargetRollback) :=
  if bool_decide (targets = []) then inl ErrInvalid
  else if bool_decide (deployed_targets = []) then inl ErrConflict
  else match fleet_destination with
       | None => inl ErrConflict
       | Some (to, effective) =>
           match fleet_candidates to effective with
           | [] => inl ErrConflict
           | candidates =>
               match plan_from candidates to ErrConflict with
               | inl e => inl (if negb (bool_decide (to = "")) && bool_decide (rq_ToBundle rq = "") then ErrConflict else e)
               | inr p =>
                   let fleet := fleetRollbackTargets effective (b_Name (pl_Target p)) in
                   match fleetEligible (b_Name (pl_Target p)) fleet with
                   | Some e => inl e
                   | None => inr (p, fleet)
                   end
               end
           end
       end.
End request.


(** ** The oldest version *)

Lemma follow_read n : ∀ b eb,
  api_ok sn → getBundle sn (b_Name b) = Got b → b_Name b ≠ "" → follow n b = inr eb →
  getBundle sn (b_Name eb) = Got eb ∧ b_Name eb ≠ "".
Proof.
  induction n as [|n IH]; intros b eb Hapi Hg Hn; simpl; [by intros [= <-]|].
  destruct (b_RollbackLabel b && _) eqn:El; [|by intros [= <-]]. apply andb_true_iff in El as [_ El]. bools.
  destruct (getBundle sn (b_RollbackOf b)) as [of_| |] eqn:Eo; [|done..]. destruct (Hapi _ _ Eo) as [En _].
  destruct (_ && _); [by intros [= <-]|]. apply IH; [done|by rewrite En|by rewrite En].
Qed.

Lemma effective_read name eb :
  api_ok sn → name ≠ "" → effective_bundle name = inr eb → getBundle sn (b_Name eb) = Got eb ∧ b_Name eb ≠ "".
Proof.
  intros Hapi Hn. unfold effective_bundle. destruct (getBundle sn name) as [b| |] eqn:Eb; [|done..].
  destruct (Hapi _ _ Eb) as [En _]. apply follow_read; [done|by rewrite En|by rewrite En].
Qed.

Definition older (oldest : option Bundle) (eb : Bundle) : option Bundle :=
  match oldest with
  | None => Some eb
  | Some o => if created_before eb o then Some eb else Some o
  end.

Lemma older_min oldest eb :
  ∃ o, older oldest eb = Some o ∧ (o = eb ∨ oldest = Some o) ∧ created_before eb o = false ∧
    ∀ o', oldest = Some o' → ∀ b, created_before b o' = false → created_before b o = false.
Proof.
  unfold older. destruct oldest as [o|]; [destruct (created_before eb o) eqn:E|].
  - exists eb. split_and!; [done|by left|exact (less_irrefl created_before eb)|]. intros o' [= <-] b Hb.
    apply (less_negtrans b o eb Hb). by apply less_asym.
  - exists o. split_and!; [done|by right|done|]. intros o' E'. by injection E' as <-.
  - exists eb. split_and!; [done|by left|exact (less_irrefl created_before eb)|done].
Qed.

Lemma oldest_loop_spec names : ∀ effective oldest effective' oldest',
  (∀ n b, effective !! n = Some b → effective_bundle n = inr b) →
  oldest_loop names effective oldest = inr (effective', oldest') →
  (∀ n b, effective' !! n = Some b → effective_bundle n = inr b) ∧
  (∀ n, n ∈ names ∨ is_Some (effective !! n) → is_Some (effective' !! n)) ∧
  (∀ o, oldest' = Some o → oldest = Some o ∨ ∃ n, n ∈ names ∧ effective_bundle n = inr o) ∧
  (∀ n b, n ∈ names → effective_bundle n = inr b → ∃ o, oldest' = Some o ∧ created_before b o = false) ∧
  (∀ o, oldest = Some o → ∃ o', oldest' = Some o' ∧ ∀ b, created_before b o = false → created_before b o' = false).
Proof.
  induction names as [|n names IH]; intros eff old eff' old' He; simpl.
  { intros [= <- <-]. split_and!; try done; [by intros ? [?%elem_of_nil|?]|by left|by intros ? ? ?%elem_of_nil|].
    intros o ->. by exists o. }
  assert (match eff !! n with Some b => inr b | None => effective_bundle n end = effective_bundle n) as ->.
  { destruct (eff !! n) eqn:E; [|done]. symmetry. by apply He. }
  destruct (effective_bundle n) as [|eb] eqn:Eb; [done|]. fold (older old eb). intros H.
  apply IH in H as (H1 & H2 & H3 & H4 & H5).
  2: { intros m b. rewrite lookup_insert_Some. intros [[<- <-]|[_ ?]]; [done|by apply He]. }
  destruct (older_min old eb) as (o & Eo & Hor & Hmin & Hold). destruct (H5 o Eo) as (o' & -> & Ho').
  split_and!; [done|..].
  - intros m [[->|?]%elem_of_cons|?]; apply H2; [|by left|]; right; apply lookup_insert_is_Some; [by left|].
    destruct (decide (n = m)); [by left|by right].
  - intros x Hx. destruct (H3 x Hx) as [E|(m & ? & ?)]; [|right; exists m; by rewrite elem_of_cons; auto].
    rewrite Eo in E. injection E as <-. destruct Hor as [->|?]; [right|by left]. exists n. by rewrite elem_of_cons; auto.
  - intros m b [->|Hm]%elem_of_cons; [|by apply H4]. rewrite Eb. intros [= <-]. exists o'. auto.
  - intros x Ex. exists o'. split; [done|]. intros b Hb. apply Ho'. by apply (Hold x).
Qed.

(** ** The plan of a fleet *)

Section plan.
Variable rq : RollbackRequest.
Variable steps : list Step.
Variable targets : list string.

Abbreviation runs t := (runs_of steps (rq_Pipeline rq) t).
Abbreviation request_for t to := (mkRequest (rq_Pipeline rq) t to (rq_FromBundle rq) (rq_Automatic rq)).
Abbreviation planned t to := (plan_environment NormalizeRepository ControllerCreator sn (request_for t to) (Some steps) (rq_Environment rq)).

Lemma plan_from_spec candidates to last :
  match plan_from rq steps candidates to last with
  | inr p => ∃ t, t ∈ candidates ∧ planned t to = inr p
  | inl _ => ∀ t, t ∈ candidates → ∃ e, planned t to = inl e
  end.
Proof.
  revert last. induction candidates as [|t l IH]; intros last; cbn [plan_from]; [by intros t ?%elem_of_nil|].
  destruct (planned t to) as [e|p] eqn:E; [|exists t; split; [by left|done]].
  specialize (IH e). destruct (plan_from rq steps l to e) as [e'|p].
  - intros t' [->|?]%elem_of_cons; [by exists e|by apply IH].
  - destruct IH as (t' & ? & ?). exists t'. split; [by right|done].
Qed.

Lemma fleet_candidates_elem to effective t :
  t ∈ fleet_candidates rq steps targets to effective →
  t ∈ targets ∧ runs t ≠ "" ∧ (to ≠ "" → runs_already rq steps effective t to = false).
Proof.
  assert (∀ x, x ∈ deployed_targets rq steps targets ↔ runs x ≠ "" ∧ x ∈ targets) as Hd.
  { intros x. unfold deployed_targets. by rewrite list_elem_of_filter. }
  unfold fleet_candidates. case_bool_decide as E.
  - intros Ht. assert (t ∈ deployed_targets rq steps targets) as Hin; [|by apply Hd in Hin as [? ?]].
    rewrite <- (take_drop 1 (deployed_targets rq steps targets)). by apply elem_of_app; left.
  - rewrite list_elem_of_filter. intros [Hal Hin]. by apply Hd in Hin as [? ?].
Qed.

Lemma planFleetRollback_ok p fleet :
  planFleetRollback rq steps targets = inr (p, fleet) →
  ∃ to effective t, fleet_destination rq steps targets = Some (to, effective) ∧
    t ∈ targets ∧ runs t ≠ "" ∧ (to ≠ "" → runs_already rq steps effective t to = false) ∧ planned t to = inr p ∧
    fleet = fleetRollbackTargets rq steps targets effective (b_Name (pl_Target p)) ∧
    fleetEligible rq steps targets (b_Name (pl_Target p)) fleet = None.
Proof.
  unfold planFleetRollback. case_bool_decide; [done|]. case_bool_decide; [done|].
  destruct (fleet_destination rq steps targets) as [[to effective]|]; [|done].
  destruct (fleet_candidates rq steps targets to effective) as [|c l] eqn:Ec; [done|].
  pose proof (plan_from_spec (c :: l) to ErrConflict) as Hp. destruct (plan_from _ _ _ _ _) as [|p']; [done|].
  destruct Hp as (t & Ht & Hp). rewrite <- Ec in Ht. apply fleet_candidates_elem in Ht as (? & ? & ?).
  destruct (fleetEligible _ _ _ _ _) eqn:Ee; [done|]. intros [= <- <-]. by exists to, effective, t.
Qed.

(** Every target that changes and runs something knows the version as good. *)
Lemma fleetEligible_none dest fleet f :
  fleetEligible rq steps targets dest fleet = None → f ∈ fleet → ft_Changes f = true → ft_Runs f ≠ "" →
  verifiedIn (historyOf steps (rq_Pipeline rq) (ft_Environment f)) dest = true ∧
  (rq_ToBundle rq = "" → ∃ l, rollbackBundles sn = Some l ∧ dest ∉ rolledBackFromByEnv rq steps targets l (ft_Environment f)).
Proof.
  unfold fleetEligible. destruct (if bool_decide _ then _ else _) as [from|] eqn:Ef; [|done].
  destruct (existsb _ _) eqn:Ee; [done|]. intros _ Hf Hc Hr.
  assert (fleet_bad rq steps from dest f = false) as Hb.
  { apply not_true_iff_false. intros H. apply not_true_iff_false in Ee. apply Ee, existsb_exists. exists f.
    by rewrite <- list_elem_of_In. }
  unfold fleet_bad in Hb. rewrite Hc, bool_decide_false in Hb by done. simpl in Hb. apply orb_false_iff in Hb as [H1 H2]. bools.
  split; [by destruct (verifiedIn _ _)|]. intros Hto. rewrite bool_decide_true in Ef by done.
  destruct (rollbackBundles sn) as [l|]; [|done]. injection Ef as <-. by exists l.
Qed.

Lemma oldestRunning_spec names oldest distinct effective :
  oldestRunning names = inr (oldest, distinct, effective) →
  (∀ n e, effective !! n = Some e → ∃ eb, effective_bundle n = inr eb ∧ b_Name eb = e) ∧
  (names ≠ [] → ∃ n o, n ∈ names ∧ effective_bundle n = inr o ∧ oldest = b_Name o ∧
     ∀ m, m ∈ names → ∃ eb, effective_bundle m = inr eb ∧ created_before eb o = false) ∧
  (∀ n m a b, n ∈ names → m ∈ names → effective_bundle n = inr a → effective_bundle m = inr b → b_Name a ≠ b_Name b →
     (1 < distinct)%nat).
Proof.
  unfold oldestRunning. destruct (oldest_loop names ∅ None) as [|[eff old]] eqn:El; [done|]. intros [= <- <- <-].
  apply oldest_loop_spec in El as (H1 & H2 & H3 & H4 & _); [|by intros ? ?; rewrite lookup_empty].
  assert (∀ m, m ∈ names → ∃ eb, eff !! m = Some eb ∧ effective_bundle m = inr eb) as Hall.
  { intros m Hm. destruct (H2 m (or_introl Hm)) as [eb Eeb]. exists eb. auto. }
  split_and!.
  - intros n e. rewrite lookup_fmap. intros (eb & Heb & ->)%fmap_Some. exists eb. auto.
  - intros Hne. destruct names as [|n0 l]; [done|].
    assert (n0 ∈ n0 :: l) as Hn0 by (by left). destruct (Hall n0 Hn0) as (e0 & _ & He0).
    destruct (H4 n0 e0 Hn0 He0) as (o & -> & _). destruct (H3 o eq_refl) as [?|(n & Hn & Ho)]; [done|].
    exists n, o. split_and!; try done. intros m Hm. destruct (Hall m Hm) as (eb & _ & Heb). exists eb. split; [done|].
    by destruct (H4 m eb Hm Heb) as (? & [= <-] & ?).
  - intros n m a b Hn Hm Ha Hb Hne. destruct (Hall n Hn) as (a' & Ea & Ha'). destruct (Hall m Hm) as (b' & Eb & Hb').
    assert (a' = a ∧ b' = b) as [-> ->] by (split; congruence).
    assert ({[b_Name a; b_Name b]} ⊆@{gset string} list_to_set (omap (λ n, b_Name <$> eff !! n) names)) as Hsub%subseteq_size.
    { intros x Hx. apply elem_of_list_to_set, list_elem_of_omap.
      apply elem_of_union in Hx as [->%elem_of_singleton| ->%elem_of_singleton]; [exists n|exists m]; by rewrite ?Ea, ?Eb. }
    rewrite size_union, !size_singleton in Hsub; [lia|]. by apply disjoint_singleton_l, not_elem_of_singleton.
Qed.

Lemma deployed_targets_elem t : t ∈ deployed_targets rq steps targets ↔ t ∈ targets ∧ runs t ≠ "".
Proof. unfold deployed_targets. rewrite list_elem_of_filter. tauto. Qed.

(** What a Bundle counts as is what [effective_bundle] says. *)
Lemma fleet_destination_effective to effective n e :
  fleet_destination rq steps targets = Some (to, effective) → effective !! n = Some e →
  ∃ eb, effective_bundle n = inr eb ∧ b_Name eb = e.
Proof.
  unfold fleet_destination. destruct (_ && _); [|intros [= _ <-]; by rewrite lookup_empty].
  destruct (oldestRunning _) as [|[[oldest distinct] eff]] eqn:Eo; [done|]. intros [= _ <-].
  apply oldestRunning_spec in Eo as (H & _). apply H.
Qed.

(** A rollback of a fleet only puts a version where it is known to work.  If the
    rollback of a fleet is planned, the plan is that of a target something is deployed
    to, and covers every target of the fleet; each of them runs nothing yet, or runs
    the version (or a rollback to it) already, or has Verified it before; and when the
    version was not named, no rollback of that target went back from it. *)
Theorem fleet_rollback_known p fleet :
  planFleetRollback rq steps targets = inr (p, fleet) →
  (∃ t to, t ∈ targets ∧ runs t ≠ "" ∧ planned t to = inr p) ∧
  ft_Environment <$> fleet = targets ∧
  ∀ f, f ∈ fleet →
    let dest := b_Name (pl_Target p) in
    ft_Runs f = runs (ft_Environment f) ∧
    (ft_Runs f = "" ∨
     (ft_Changes f = false ∧ (ft_Runs f = dest ∨ ∃ eb, effective_bundle (ft_Runs f) = inr eb ∧ b_Name eb = dest)) ∨
     (ft_Changes f = true ∧ verifiedIn (historyOf steps (rq_Pipeline rq) (ft_Environment f)) dest = true ∧
      (rq_ToBundle rq = "" → ∃ l, rollbackBundles sn = Some l ∧ dest ∉ rolledBackFromByEnv rq steps targets l (ft_Environment f)))).
Proof.
  intros (to & effective & t & Hd & Ht & Hr & _ & Hp & -> & He)%planFleetRollback_ok.
  split_and!; [by exists t, to|unfold fleetRollbackTargets; rewrite <- list_fmap_compose; by apply list_fmap_id|].
  intros f Hf. cbv zeta. pose proof Hf as (x & -> & Hx)%list_elem_of_fmap. cbn [ft_Environment ft_Runs ft_Changes].
  split; [done|]. destruct (decide (runs x = "")) as [|Hrx]; [by left|right].
  pose proof (fleetEligible_none _ _ _ He Hf) as Hel. cbn [ft_Environment ft_Runs ft_Changes] in Hel.
  rewrite bool_decide_false in * by done. simpl in *.
  destruct (runs_already rq steps effective x (b_Name (pl_Target p))) eqn:Er; simpl in *; [left|right; split; [done|]; by apply Hel].
  split; [done|]. unfold runs_already in Er. apply orb_true_iff in Er as [Er|Er]; bools; [by left|].
  unfold effectiveOf in Er. destruct (effective !! runs x) as [e|] eqn:Ee; [|by left].
  case_bool_decide; [by left|]. right. destruct (fleet_destination_effective _ _ _ _ Hd Ee) as (eb & ? & ?). exists eb. by subst.
Qed.

(** Where a half-rolled-out fleet goes back to.  When no version is named and the
    targets run different ones (a rollback counted as what it restored), the rollback
    goes to a version that one of them runs, and no target runs an older one: no
    target is moved forward. *)
Theorem fleet_goes_to_oldest p fleet t1 t2 e1 e2 :
  api_ok sn → rq_ToBundle rq = "" → rq_FromBundle rq = "" →
  t1 ∈ targets → t2 ∈ targets → runs t1 ≠ "" → runs t2 ≠ "" →
  effective_bundle (runs t1) = inr e1 → effective_bundle (runs t2) = inr e2 → b_Name e1 ≠ b_Name e2 →
  planFleetRollback rq steps targets = inr (p, fleet) →
  (∃ t, t ∈ targets ∧ effective_bundle (runs t) = inr (pl_Target p)) ∧
  ∀ t, t ∈ targets → runs t ≠ "" → ∃ eb, effective_bundle (runs t) = inr eb ∧ created_before eb (pl_Target p) = false.
Proof.
  intros Hapi Hto Hfrom Ht1 Ht2 Hr1 Hr2 He1 He2 Hne (to & effective & t & Hd & _ & _ & _ & Hp & _ & _)%planFleetRollback_ok.
  unfold fleet_destination in Hd. rewrite !bool_decide_true in Hd by done. cbn [andb] in Hd.
  destruct (oldestRunning _) as [|[[oldest distinct] eff]] eqn:Eo; [done|].
  assert (∀ x, x ∈ targets → runs x ≠ "" → runs x ∈ (λ t, runs t) <$> deployed_targets rq steps targets) as Hin.
  { intros x Hx Hrx. apply (list_elem_of_fmap_2 (λ t, runs t)). by apply deployed_targets_elem. }
  apply oldestRunning_spec in Eo as (_ & Ho & Hdist).
  destruct Ho as (n & o & Hn & Hno & -> & Hmin). { intros E. by apply (not_elem_of_nil (runs t1)); rewrite <- E; apply Hin. }
  rewrite (proj2 (Nat.ltb_lt 1 distinct)) in Hd.
  2: { apply (Hdist (runs t1) (runs t2) e1 e2); auto. }
  injection Hd as <- _. apply list_elem_of_fmap in Hn as (x & -> & Hx). apply deployed_targets_elem in Hx as [Hx Hrx].
  destruct (effective_read _ _ Hapi Hrx Hno) as [Hgo Hon].
  assert (pl_Target p = o) as ->.
  { apply plan_environment_ok in Hp as (rb & bs & _ & _ & _ & _ & _ & [[_ Hp]|[? _]]); [|done]. cbn [rq_ToBundle] in Hp.
    apply plan_to_read in Hp. congruence. }
  split; [by exists x|]. intros y Hy Hry. by apply Hmin, Hin.
Qed.
End plan.

(** ** [PlanRollback] *)

Section pipeline.
Context (selects : Ordering.FleetSelector → option (gmap string string → bool)).
Context (scaled : Ordering.IntOrString → Z → option Z).
Context (IsDNS1123Label : string → bool).
Context (path_Join : string → string → string).

Abbreviation members_of := (Fleet.fleetMembers selects scaled IsDNS1123Label path_Join).

Definition fleetTargets (p : Fleet.Pipeline) (env : string) : option (list string) :=
  match list_find (λ e, Ordering.Name e = env ∧ is_Some (Ordering.Fleet e)) (Fleet.Environments p) with
  | Some _ => Some (match members_of p with inl _ => [] | inr s => default [] (Fleet.byFleet s !! env) end)
  | None => None
  end.

(** The plan, with what changes in each target when it is that of a fleet. *)
Definition PlanRollback (pipeline : read Fleet.Pipeline) (steps : option (list Step)) (rq : RollbackRequest) :
  plan_error + (RollbackPlan * list FleetTargetRollback) :=
  if bool_decide (rq_Pipeline rq = "") || bool_decide (rq_Environment rq = "") then inl ErrInvalid
  else match pipeline with
       | Missing => inl ErrNotFound
       | ReadError => inl ErrAPI
       | Got p =>
           if negb (Fleet.HasEnvironment selects scaled IsDNS1123Label path_Join p (rq_Environment rq)) then inl ErrInvalid
           else match fleetTargets p (rq_Environment rq), steps with
                | Some [], _ => inl ErrInvalid
                | Some _, None => inl ErrAPI
                | Some targets, Some steps => planFleetRollback rq steps targets
                | None, _ =>
                    let fleet := if Fleet.hasFleets p then Fleet.FleetOf selects scaled IsDNS1123Label path_Join p (rq_Environment rq)
                                 else "" in
                    match plan_environment NormalizeRepository ControllerCreator sn rq steps fleet with
                    | inl e => inl e
                    | inr plan => inr (plan, [])
                    end
                end
       end.

(** A target of a fleet is planned as an environment of that fleet, which is what
    [plan_from] does for it. *)
Lemma PlanRollback_target p f ts t steps rq :
  fleetTargets p f = Some ts → t ∈ ts → rq_Pipeline rq ≠ "" → rq_Environment rq = t → t ≠ "" →
  PlanRollback (Got p) steps rq =
  match plan_environment NormalizeRepository ControllerCreator sn rq steps f with
  | inl e => inl e
  | inr plan => inr (plan, [])
  end.
Proof.
  unfold fleetTargets at 1. destruct (list_find _ _) as [[i e]|] eqn:Ef; [|done]. intros [= <-] Ht Hp He Hn.
  destruct (members_of p) as [|s] eqn:Em; [by apply elem_of_nil in Ht|].
  destruct (Fleet.byFleet s !! f) as [ts|] eqn:Eb; simpl in Ht; [|by apply elem_of_nil in Ht].
  pose proof (Fleet.fleetMembers_members selects scaled IsDNS1123Label path_Join p s Em) as [[Hnm Hmem Hby] _].
  destruct (Hby f ts Eb) as (_ & _ & _ & Hts). destruct (Hts t Ht) as (m & Hm & Hfm).
  destruct (Hmem t m Hm) as (_ & Hni & _).
  assert (∀ e, e ∈ Fleet.Environments p → Ordering.Name e ≠ t) as Hne.
  { intros e' He' E. apply Hni. unfold Ordering.env_names. rewrite <- E.
    apply elem_of_list_to_set. by apply list_elem_of_fmap_2. }
  assert (∀ (P : Ordering.EnvironmentSpec → Prop) `{!∀ x, Decision (P x)}, (∀ e, P e → Ordering.Name e = t) →
    list_find P (Fleet.Environments p) = None) as Hno.
  { intros P ? HP. apply list_find_None, Forall_forall. intros e' He' HPe. by apply (Hne e' He'), HP. }
  unfold PlanRollback. rewrite !bool_decide_false by congruence. cbn [orb].
  assert (Fleet.HasEnvironment selects scaled IsDNS1123Label path_Join p (rq_Environment rq) = true) as ->.
  { unfold Fleet.HasEnvironment. apply orb_true_iff. right. apply bool_decide_eq_true. unfold Fleet.EnvironmentSpecFor.
    rewrite He, (Hno (λ e, Ordering.Name e = t ∧ Ordering.Fleet e = None)), Em, Hm by (by intros ? [? _]). by eexists. }
  cbn [negb]. assert (fleetTargets p (rq_Environment rq) = None) as ->.
  { unfold fleetTargets. by rewrite He, (Hno (λ e, Ordering.Name e = t ∧ is_Some (Ordering.Fleet e))) by (by intros ? [? _]). }
  assert (Fleet.hasFleets p = true) as ->.
  { apply list_find_Some in Ef as (Hl & [_ Hs] & _). apply existsb_exists. exists e. split; [|by apply bool_decide_eq_true].
    apply list_elem_of_In. by apply list_elem_of_lookup_2 in Hl. }
  unfold Fleet.FleetOf. by rewrite Em, He, Hm, <- Hfm.
Qed.
End pipeline.
End fleet.

(** ** Examples *)

(** A fleet of two targets, half way through the rollout of v2. *)
Definition demo_bundle_at (name tag : string) (created : Time) : Bundle :=
  mkBundle name "app" (mkArtifacts "image" [demo_image tag] None None) false "" None false None "" "" "" "" "" created None.

Definition demo_fleet_snapshot : Snapshot :=
  mkSnapshot (λ n, if bool_decide (n = "v1") then Got (demo_bundle_at "v1" "1" 1)
                   else if bool_decide (n = "v2") then Got (demo_bundle_at "v2" "2" 2) else Missing)
    (Some []) (Some [demo_bundle_at "v1" "1" 1; demo_bundle_at "v2" "2" 2]).

Definition demo_fleet_step (name bundle env : string) (t : Time) : Step := mkStepOf name bundle "app" env StateVerified t None true.

Definition demo_fleet_steps : list Step :=
  [demo_fleet_step "a" "v1" "prod-eu" 1; demo_fleet_step "b" "v1" "prod-us" 1; demo_fleet_step "c" "v2" "prod-eu" 2].

Definition demo_fleet_request : RollbackRequest := mkRequest "app" "prod" "" "" false.

Definition demo_fleet_plan := planFleetRollback Some "kardinal" demo_fleet_snapshot demo_fleet_request demo_fleet_steps ["prod-eu"; "prod-us"].

Definition demo_fleet_planned : RollbackPlan :=
  mkPlan "v2" (Some (demo_bundle_at "v2" "2" 2)) (demo_bundle_at "v1" "1" 1) (b_Artifacts (demo_bundle_at "v1" "1" 1)).

Lemma demo_fleet_planned_eq :
  demo_fleet_plan = inr (demo_fleet_planned, [mkFleetTarget "prod-eu" "v2" true; mkFleetTarget "prod-us" "v1" false]).
Proof. vm_compute. reflexivity. Qed.

Lemma fleet_rollback_known_witness : verifiedIn (historyOf demo_fleet_steps "app" "prod-eu") "v1" = true.
Proof.
  destruct (fleet_rollback_known Some "kardinal" demo_fleet_snapshot demo_fleet_request demo_fleet_steps ["prod-eu"; "prod-us"]
    demo_fleet_planned [mkFleetTarget "prod-eu" "v2" true; mkFleetTarget "prod-us" "v1" false] demo_fleet_planned_eq) as (_ & _ & H).
  destruct (H (mkFleetTarget "prod-eu" "v2" true)) as [_ [E|[[E _]|(_ & E & _)]]]; [by left|discriminate E|discriminate E|exact E].
Defined.

Lemma fleet_goes_to_oldest_witness :
  created_before (demo_bundle_at "v2" "2" 2) (demo_bundle_at "v1" "1" 1) = false.
Proof.
  destruct (fleet_goes_to_oldest Some "kardinal" demo_fleet_snapshot demo_fleet_request demo_fleet_steps ["prod-eu"; "prod-us"]
    demo_fleet_planned [mkFleetTarget "prod-eu" "v2" true; mkFleetTarget "prod-us" "v1" false] "prod-eu" "prod-us" (demo_bundle_at "v2" "2" 2) (demo_bundle_at "v1" "1" 1)) as [_ H].
  - intros n b. simpl. case_bool_decide; [intros [= <-]; by split|]. case_bool_decide; [intros [= <-]; by split|done].
  - reflexivity.
  - reflexivity.
  - by left.
  - right. by left.
  - vm_compute. discriminate.
  - vm_compute. discriminate.
  - vm_compute. reflexivity.
  - vm_compute. reflexivity.
  - vm_compute. discriminate.
  - exact demo_fleet_planned_eq.
  - destruct (H "prod-eu") as (eb & E & Hc); [by left|vm_compute; discriminate|].
    vm_compute in E. injection E as <-. exact Hc.
Defined.
End RollbackFleet.
