(* ===== verification/Breaker.v ===== *)
(** * Breaker: circuit breakers in front of the code host

    Model of src/pkg/scm/circuit_breaker.go, circuit_registry.go and the errors of
    api_error.go: a circuit breaker (closed, open, half-open with one probe) and the
    registry that keeps one per repository owner and one for the token's quota.  A
    method reads the clock once ([now]); it runs under a mutex, so an interleaving of
    callers is a sequence of calls ([op]). *)

From stdpp Require Import base gmap strings list.
From Stdlib Require Import Lia ZArith.
From S2P Require Import Prelude.

Open Scope Z_scope.

Module Breaker.

Inductive CircuitState := CircuitClosed | CircuitOpen | CircuitHalfOpen.

#[export] Instance CircuitState_eq_dec : EqDecision CircuitState.
Proof. solve_decision. Defined.

Definition defaultFailureThreshold : Z := 5.
Definition defaultBaseBackoff : Duration := 5 * second.
Definition defaultMaxBackoff : Duration := 120 * second.
Definition providerHTTPTimeout : Duration := 30 * second.
Definition defaultHalfOpenTimeout : Duration := providerHTTPTimeout + 15 * second.
Definition halfOpenRecheck : Duration := 2 * second.

Record CircuitBreaker := mkBreaker {
  FailureThreshold : Z;
  BaseBackoff : Duration;
  MaxBackoff : Duration;
  HalfOpenTimeout : Duration;
  state : CircuitState;
  consecutiveFails : Z;
  openings : Z;
  openUntil : Time;
  probeStarted : Time;
  openedAt : Time
}.

Definition NewCircuitBreaker : CircuitBreaker :=
  mkBreaker defaultFailureThreshold defaultBaseBackoff defaultMaxBackoff defaultHalfOpenTimeout
    CircuitClosed 0 0 zeroTime zeroTime zeroTime.

Definition set_state (st : CircuitState) (cb : CircuitBreaker) : CircuitBreaker :=
  mkBreaker (FailureThreshold cb) (BaseBackoff cb) (MaxBackoff cb) (HalfOpenTimeout cb) st
    (consecutiveFails cb) (openings cb) (openUntil cb) (probeStarted cb) (openedAt cb).

Definition set_consecutiveFails (n : Z) (cb : CircuitBreaker) : CircuitBreaker :=
  mkBreaker (FailureThreshold cb) (BaseBackoff cb) (MaxBackoff cb) (HalfOpenTimeout cb) (state cb)
    n (openings cb) (openUntil cb) (probeStarted cb) (openedAt cb).

Definition set_openings (n : Z) (cb : CircuitBreaker) : CircuitBreaker :=
  mkBreaker (FailureThreshold cb) (BaseBackoff cb) (MaxBackoff cb) (HalfOpenTimeout cb) (state cb)
    (consecutiveFails cb) n (openUntil cb) (probeStarted cb) (openedAt cb).

Definition set_openUntil (t : Time) (cb : CircuitBreaker) : CircuitBreaker :=
  mkBreaker (FailureThreshold cb) (BaseBackoff cb) (MaxBackoff cb) (HalfOpenTimeout cb) (state cb)
    (consecutiveFails cb) (openings cb) t (probeStarted cb) (openedAt cb).

Definition set_probeStarted (t : Time) (cb : CircuitBreaker) : CircuitBreaker :=
  mkBreaker (FailureThreshold cb) (BaseBackoff cb) (MaxBackoff cb) (HalfOpenTimeout cb) (state cb)
    (consecutiveFails cb) (openings cb) (openUntil cb) t (openedAt cb).

Definition set_openedAt (t : Time) (cb : CircuitBreaker) : CircuitBreaker :=
  mkBreaker (FailureThreshold cb) (BaseBackoff cb) (MaxBackoff cb) (HalfOpenTimeout cb) (state cb)
    (consecutiveFails cb) (openings cb) (openUntil cb) (probeStarted cb) t.

(** [latestTime]. *)
Definition latestTime (a b : Time) : Time := if b <? a then a else b.

(** [currentState]: the breaker with its state brought up to date. *)
Definition currentState (now : Time) (cb : CircuitBreaker) : CircuitBreaker :=
  if bool_decide (state cb = CircuitOpen) && (openUntil cb <? now) then set_state CircuitHalfOpen cb else cb.

Definition State (now : Time) (cb : CircuitBreaker) : CircuitBreaker * CircuitState :=
  (currentState now cb, state (currentState now cb)).

(** [Allow]: [None], or [ErrCircuitOpen] with its RetryAfter. *)
Definition Allow (now : Time) (cb : CircuitBreaker) : CircuitBreaker * option Time :=
  let cb := currentState now cb in
  match state cb with
  | CircuitOpen => (cb, Some (openUntil cb))
  | CircuitHalfOpen =>
      if negb (probeStarted cb =? zeroTime) && (sub_time now (probeStarted cb) <? HalfOpenTimeout cb)
      then (cb, Some (now + halfOpenRecheck))
      else (set_probeStarted now cb, None)
  | CircuitClosed => (cb, None)
  end.

Definition RecordSuccessFrom (now started : Time) (cb : CircuitBreaker) : CircuitBreaker :=
  let cb := currentState now cb in
  if negb (bool_decide (state cb = CircuitClosed)) && (started <? openedAt cb) then cb
  else set_probeStarted zeroTime (set_state CircuitClosed (set_openings 0 (set_consecutiveFails 0 cb))).

Definition cancelProbe (cb : CircuitBreaker) : CircuitBreaker := set_probeStarted zeroTime cb.

Definition pristine (cb : CircuitBreaker) : bool :=
  bool_decide (state cb = CircuitClosed) && (consecutiveFails cb =? 0) && (probeStarted cb =? zeroTime).

Section float.
(** The conversion of a float64 to [time.Duration], on whole numbers: Go leaves it
    to the processor when the value does not fit. *)
Variable float_to_duration : Z → Duration.

Definition backoffDuration (step : Z) (cb : CircuitBreaker) : Duration :=
  let step := if step <? 0 then 0 else step in
  let d := float_to_duration (BaseBackoff cb * 2 ^ step) in
  if MaxBackoff cb <? d then MaxBackoff cb else d.

Definition openLocked (now retryAfter : Time) (cb : CircuitBreaker) : CircuitBreaker :=
  set_probeStarted zeroTime (set_openedAt now (set_state CircuitOpen
    (set_openUntil (latestTime retryAfter (now + backoffDuration (openings cb) cb)) cb))).

Definition RecordFailureFrom (now started retryAfter : Time) (cb : CircuitBreaker) : CircuitBreaker :=
  let cb := currentState now cb in
  match state cb with
  | CircuitOpen => set_openUntil (latestTime retryAfter (openUntil cb)) cb
  | CircuitHalfOpen =>
      if (probeStarted cb =? zeroTime) || (started <? probeStarted cb)
      then set_openUntil (latestTime retryAfter (openUntil cb)) cb
      else openLocked now retryAfter (set_openings (openings cb + 1) cb)
  | CircuitClosed =>
      let cb := set_consecutiveFails (consecutiveFails cb + 1) cb in
      if FailureThreshold cb <=? consecutiveFails cb then openLocked now retryAfter (set_openings 0 cb) else cb
  end.

(** ** Responses *)

Record Response := mkResponse { StatusCode : Z; Header : string → string }.

Section http.
(** [http.ParseTime]. *)
Variable ParseTime : string → option Time.

(** The reset of an exhausted quota, by the prefix of its headers. *)
Definition quota_reset (resp : Response) (prefix : string) : option Time :=
  if negb (bool_decide (Header resp (prefix +:+ "Remaining") = "0")) then None
  else match ParseInt64 (Header resp (prefix +:+ "Reset")) with
       | Some unix => if 0 <? unix then Some (unix * second) else None
       | None => None
       end.

Definition RetryAfterFromResponse (now : Time) (resp : option Response) : Time :=
  match resp with
  | None => zeroTime
  | Some resp =>
      match quota_reset resp "X-RateLimit-", quota_reset resp "RateLimit-" with
      | Some t, _ => t
      | None, Some t => t
      | None, None =>
          let v := Header resp "Retry-After" in
          if bool_decide (v = "") then zeroTime
          else match (match ParseInt64 v with Some secs => if 0 <? secs then Some secs else None | None => None end) with
               | Some secs => now + i64 (secs * second)
               | None => default zeroTime (ParseTime v)
               end
      end
  end.

Definition IsTransientResponse (resp : option Response) : bool :=
  match resp with
  | None => false
  | Some resp =>
      if StatusCode resp =? 429 then true
      else if (500 <=? StatusCode resp) && (StatusCode resp <? 600) then true
      else if StatusCode resp =? 403 then
        bool_decide (Header resp "X-RateLimit-Remaining" = "0") || negb (bool_decide (Header resp "Retry-After" = ""))
      else false
  end.

Definition IsQuotaExhausted (resp : option Response) : bool :=
  match resp with
  | None => false
  | Some resp =>
      if StatusCode resp <? 400 then false
      else if StatusCode resp =? 429 then true
      else if bool_decide (Header resp "X-RateLimit-Remaining" = "0") || bool_decide (Header resp "RateLimit-Remaining" = "0") then true
      else if StatusCode resp =? 403 then negb (bool_decide (Header resp "Retry-After" = ""))
      else false
  end.

(** [newAPIError], of which the provider's name, the code and the reading of the
    body count ([isGitHubRateLimitMessage]). *)
Record APIError := mkAPIError { ae_StatusCode : Z; Transient : bool }.

Definition githubAPIName : string := "GitHub".

Definition newAPIError (provider : string) (rateLimitMessage : bool) (resp : Response) : APIError :=
  mkAPIError (StatusCode resp)
    (IsTransientResponse (Some resp) || (bool_decide (provider = githubAPIName) && (StatusCode resp =? 403) && rateLimitMessage)).

(** [IsPermanentError] of an error that carries an [APIError], or the refusal of the
    allowlist. *)
Definition IsPermanentError (notAllowed : bool) (e : option APIError) : bool :=
  if notAllowed then true
  else match e with
       | None => false
       | Some e => if Transient e then false else bool_decide (ae_StatusCode e ∈ [401; 403; 404; 410])
       end.

(** ** The registry *)

Record CircuitRegistry := mkRegistry { owners : gmap string CircuitBreaker; quota : CircuitBreaker }.

Definition NewCircuitRegistry : CircuitRegistry :=
  mkRegistry ∅ (mkBreaker 1 defaultBaseBackoff defaultMaxBackoff defaultHalfOpenTimeout CircuitClosed 0 0 zeroTime zeroTime zeroTime).

Definition maxIdleOwners : nat := 256.

(** [strings.ToLower]. *)
Variable ToLower : string → string.

Definition pruneLocked (m : gmap string CircuitBreaker) : gmap string CircuitBreaker :=
  filter (λ kv, pristine kv.2 = false) m.

(** [owner]: the circuits after it, and the one of the owner. *)
Definition owner (name : string) (r : CircuitRegistry) : CircuitRegistry * CircuitBreaker :=
  match owners r !! ToLower name with
  | Some cb => (r, cb)
  | None =>
      let m := if (maxIdleOwners <=? size (owners r))%nat then pruneLocked (owners r) else owners r in
      (mkRegistry (<[ToLower name := NewCircuitBreaker]> m) (quota r), NewCircuitBreaker)
  end.

Definition set_owner (name : string) (cb : CircuitBreaker) (r : CircuitRegistry) : CircuitRegistry :=
  mkRegistry (<[ToLower name := cb]> (owners r)) (quota r).

Definition set_quota (cb : CircuitBreaker) (r : CircuitRegistry) : CircuitRegistry := mkRegistry (owners r) cb.

Definition r_Allow (now : Time) (name : string) (r : CircuitRegistry) : CircuitRegistry * option Time :=
  let '(r, ob) := owner name r in
  match Allow now ob with
  | (ob, Some t) => (set_owner name ob r, Some t)
  | (ob, None) =>
      match Allow now (quota r) with
      | (q, Some t) => (set_quota q (set_owner name (cancelProbe ob) r), Some t)
      | (q, None) => (set_quota q (set_owner name ob r), None)
      end
  end.

(** [Record]: [None] for a call that got no response. *)
Definition r_Record (now : Time) (name : string) (started : Time) (resp : option Response) (r : CircuitRegistry) : CircuitRegistry :=
  let '(r, ob) := owner name r in
  match resp with
  | None => set_quota (cancelProbe (quota r)) (set_owner name (RecordFailureFrom now started zeroTime ob) r)
  | Some _ =>
      if IsQuotaExhausted resp then
        set_owner name (cancelProbe ob) (set_quota (RecordFailureFrom now started (RetryAfterFromResponse now resp) (quota r)) r)
      else if IsTransientResponse resp then
        set_quota (RecordSuccessFrom now started (quota r))
          (set_owner name (RecordFailureFrom now started (RetryAfterFromResponse now resp) ob) r)
      else set_quota (RecordSuccessFrom now started (quota r)) (set_owner name (RecordSuccessFrom now started ob) r)
  end.

Definition RecordAPIError (now : Time) (name : string) (started : Time) (resp : Response) (apiErr : APIError) (r : CircuitRegistry) :
  CircuitRegistry :=
  if (StatusCode resp =? 403) && Transient apiErr && negb (IsTransientResponse (Some resp)) && negb (IsQuotaExhausted (Some resp)) then
    let r := set_quota (RecordFailureFrom now started zeroTime (quota r)) r in
    let '(r, ob) := owner name r in
    set_owner name (cancelProbe ob) r
  else r_Record now name started (Some resp) r.

Definition states (now : Time) (name : string) (r : CircuitRegistry) : CircuitRegistry * (CircuitState * CircuitState) :=
  let '(r, ob) := owner name r in
  let '(ob, s1) := State now ob in
  let '(q, s2) := State now (quota r) in
  (set_quota q (set_owner name ob r), (s1, s2)).
End http.

(** ** Callers of one breaker

    A call is let through by [Allow], and reports at most once.  [w_calls] are the
    calls that have not reported: when [Allow] let them through, and when they
    started; [w_hint] is the latest retry time any response named. *)
Record World := mkWorld { w_cb : CircuitBreaker; w_calls : list (Time * Time); w_now : Time; w_hint : Time }.

Inductive bop :=
  | Call (started : Time)
  | Report (i : nat) (success : bool) (retryAfter : Time)
  | Look.

(** One event at [now], later than the last one. *)
Definition bstep (w : World) (e : Time * bop) : option World :=
  let '(now, o) := e in
  if negb (w_now w <? now) then None
  else match o with
       | Call started =>
           if started <? now then None
           else match Allow now (w_cb w) with
                | (cb, None) => Some (mkWorld cb (w_calls w ++ [(now, started)]) started (w_hint w))
                | (cb, Some _) => Some (mkWorld cb (w_calls w) started (w_hint w))
                end
       | Report i success retryAfter =>
           match w_calls w !! i with
           | None => None
           | Some (_, started) =>
               let calls := delete i (w_calls w) in
               if success then Some (mkWorld (RecordSuccessFrom now started (w_cb w)) calls now (w_hint w))
               else Some (mkWorld (RecordFailureFrom now started retryAfter (w_cb w)) calls now (Z.max retryAfter (w_hint w)))
           end
       | Look => Some (mkWorld (currentState now (w_cb w)) (w_calls w) now (w_hint w))
       end.

Fixpoint brun (w : World) (tr : list (Time * bop)) : option World :=
  match tr with
  | [] => Some w
  | e :: tr => match bstep w e with Some w => brun w tr | None => None end
  end.

Definition fresh (cb : CircuitBreaker) : Prop := state cb = CircuitClosed ∧ probeStarted cb = zeroTime ∧ 0 < HalfOpenTimeout cb.

Definition reachable (w : World) : Prop :=
  ∃ cb t0 tr, fresh cb ∧ zeroTime < t0 ∧ brun (mkWorld cb [] t0 zeroTime) tr = Some w.

(** Every call is from before the opening, or a probe that was let through since. *)
Record Inv (w : World) : Prop := {
  i_now : zeroTime < w_now w;
  i_timeout : 0 < HalfOpenTimeout (w_cb w);
  i_calls : ∀ a s, (a, s) ∈ w_calls w → a ≤ s ∧ s ≤ w_now w;
  i_open : state (w_cb w) = CircuitOpen →
    probeStarted (w_cb w) = zeroTime ∧ ∀ a s, (a, s) ∈ w_calls w → s < openedAt (w_cb w);
  i_half : state (w_cb w) = CircuitHalfOpen →
    ∀ a s, (a, s) ∈ w_calls w → s < openedAt (w_cb w) ∨ (probeStarted (w_cb w) ≠ zeroTime ∧ a ≤ probeStarted (w_cb w));
  i_until : state (w_cb w) ≠ CircuitClosed →
    openedAt (w_cb w) ≤ w_now w ∧ openUntil (w_cb w) ≤ Z.max (w_hint w) (openedAt (w_cb w) + MaxBackoff (w_cb w));
  i_probe : probeStarted (w_cb w) ≤ w_now w
}.

Lemma latestTime_max a b : latestTime a b = Z.max a b.
Proof. unfold latestTime. destruct (Z.ltb_spec b a); lia. Qed.

Lemma backoff_capped step cb : backoffDuration step cb ≤ MaxBackoff cb.
Proof. unfold backoffDuration. case_match eqn:E; [done|]. apply Z.ltb_ge in E. lia. Qed.

Lemma currentState_cases now cb :
  (state cb = CircuitOpen ∧ openUntil cb < now ∧ currentState now cb = set_state CircuitHalfOpen cb) ∨
  ((state cb = CircuitOpen → now ≤ openUntil cb) ∧ currentState now cb = cb).
Proof.
  unfold currentState. case_bool_decide as E; simpl; [|right; split; [done|done]].
  destruct (Z.ltb_spec (openUntil cb) now); [by left|by right].
Qed.

Lemma currentState_inv now w :
  w_now w < now → Inv w → Inv (mkWorld (currentState now (w_cb w)) (w_calls w) now (w_hint w)).
Proof.
  intros Hn [H1 H2 H3 H4 H5 H6 H7]. destruct (currentState_cases now (w_cb w)) as [(Ho & Hu & ->)|[_ ->]]; split; simpl; try done; try lia.
  all: try (intros a s Has; destruct (H3 a s Has); lia).
  - intros _ a s Has. left. by apply (proj2 (H4 Ho) a s).
  - intros _. destruct H6 as [? ?]; [congruence|]. lia.
  - intros Hc. destruct (H6 Hc). lia.
Qed.

Lemma calls_delete i (l : list (Time * Time)) x : x ∈ delete i l → x ∈ l.
Proof. rewrite !list_elem_of_lookup. intros [j Hj]. destruct (decide (j < i)%nat); [rewrite list_lookup_delete_lt in Hj by done|rewrite list_lookup_delete_ge in Hj by lia]; eauto. Qed.

Lemma openLocked_inv cb l now ra hint :
  zeroTime < now → 0 < HalfOpenTimeout cb → (∀ a s, (a, s) ∈ l → a ≤ s ∧ s < now) →
  Inv (mkWorld (openLocked now ra cb) l now (Z.max ra hint)).
Proof.
  intros Hn Ht Hl. split; simpl; try done; try lia.
  - intros a s Has. destruct (Hl a s Has). lia.
  - intros _. split; [done|]. intros a s Has. by destruct (Hl a s Has).
  - intros _. rewrite latestTime_max. pose proof (backoff_capped (openings cb) cb). unfold openLocked. simpl. lia.
Qed.

Lemma bstep_inv w e w' : Inv w → bstep w e = Some w' → Inv w'.
Proof.
  destruct e as [now o]. unfold bstep. intros HI. destruct (Z.ltb_spec (w_now w) now) as [Hn|]; cbn [negb]; [|done].
  pose proof (currentState_inv now w Hn HI) as HC. pose proof HC as [C1 C2 C3 C4 C5 C6 C7]. simpl in *.
  destruct o as [started|i success ra|]; [| |by intros [= <-]].
  - destruct (Z.ltb_spec started now) as [|Hs]; [done|]. unfold Allow.
    destruct (state (currentState now (w_cb w))) eqn:Es; [| |destruct (_ && _) eqn:Ep]; intros [= <-]; split; simpl; try done; try lia; try congruence.
    all: rewrite ?Es; try done.
    all: try (intros a s [Has| [= -> ->]%list_elem_of_singleton]%elem_of_app; [destruct (C3 a s Has); lia|lia]).
    all: try (intros a s Has; destruct (C3 a s Has); lia).
    all: try (intros _; destruct C6 as [? ?]; [done|]; lia).
    intros _ a s [Has| [= -> ->]%list_elem_of_singleton]%elem_of_app; [|right; lia].
    destruct (C5 eq_refl a s Has) as [?|[? ?]]; [by left|right]. lia.
  - destruct (w_calls w !! i) as [[a0 s0]|] eqn:El; [|done].
    assert (∀ a s, (a, s) ∈ delete i (w_calls w) → (a, s) ∈ w_calls w) as Hd by (intros; by apply (calls_delete i)).
    assert (∀ a s, (a, s) ∈ delete i (w_calls w) → a ≤ s ∧ s < now) as Hlt.
    { intros a s Has. destruct (i_calls w HI a s) as [? ?]; [auto|]. lia. }
    destruct success; intros [= <-].
    + unfold RecordSuccessFrom. destruct (negb _ && _) eqn:Er.
      * split; simpl; try done; eauto. intros Ho. destruct (C4 Ho) as [? Hc]. split; [done|eauto].
      * split; simpl; try done; try lia. intros a s Has. destruct (Hlt a s Has). lia.
    + unfold RecordFailureFrom. destruct (state (currentState now (w_cb w))) eqn:Es.
      * destruct (_ <=? _); [apply openLocked_inv; simpl; lia || done|]. split; simpl; rewrite ?Es; try done; try lia.
        intros a s Has. destruct (Hlt a s Has). lia.
      * split; simpl; rewrite ?Es; try done; try lia.
        -- intros a s Has. destruct (Hlt a s Has). lia.
        -- intros _. destruct (C4 eq_refl) as [? Hc]. split; [done|eauto].
        -- intros _. rewrite latestTime_max. destruct C6 as [? ?]; [done|]. lia.
      * destruct (_ || _); [|apply openLocked_inv; simpl; lia || done]. split; simpl; rewrite ?Es; try done; try lia.
        -- intros a s Has. destruct (Hlt a s Has). lia.
        -- intros _ a s Has. apply C5; auto.
        -- intros _. rewrite latestTime_max. destruct C6 as [? ?]; [done|]. lia.
Qed.

Lemma brun_inv tr w w' : Inv w → brun w tr = Some w' → Inv w'.
Proof.
  revert w. induction tr as [|e tr IH]; simpl; intros w HI; [by intros [= <-]|].
  destruct (bstep w e) as [w1|] eqn:E; [|done]. intros H. by apply (IH w1 (bstep_inv w e w1 HI E)).
Qed.

Lemma breaker_inv w : reachable w → Inv w.
Proof.
  intros (cb & t0 & tr & (Hs & Hp & Ht) & H0 & H). apply (brun_inv tr _ _) in H; [done|].
  split; simpl; try done; rewrite ?Hs; try done; [|rewrite Hp; lia]. by intros ? ? ?%elem_of_nil.
Qed.

(** While the circuit is open an event changes nothing but extends the wait. *)
Lemma bstep_open w e w' :
  Inv w → state (w_cb w) = CircuitOpen → e.1 ≤ openUntil (w_cb w) → bstep w e = Some w' →
  state (w_cb w') = CircuitOpen ∧ openUntil (w_cb w) ≤ openUntil (w_cb w') ∧ openings (w_cb w') = openings (w_cb w) ∧
  openedAt (w_cb w') = openedAt (w_cb w) ∧ (∀ c, c ∈ w_calls w' → c ∈ w_calls w).
Proof.
  destruct e as [now o]. intros HI Ho Hu. unfold bstep. destruct (_ <? _); cbn [negb]; [|done].
  assert (currentState now (w_cb w) = w_cb w) as Hc.
  { destruct (currentState_cases now (w_cb w)) as [(_ & ? & _)|[_ ?]]; [simpl in Hu; lia|done]. }
  destruct o as [started|i success ra|].
  - destruct (_ <? _); [done|]. unfold Allow. rewrite Hc, Ho. by intros [= <-].
  - destruct (w_calls w !! i) as [[a0 s0]|] eqn:El; [|done].
    assert (s0 < openedAt (w_cb w)) as Hlt.
    { destruct (i_open w HI Ho) as [_ H]. apply (H a0 s0). by apply list_elem_of_lookup_2 in El. }
    destruct success; intros [= <-]; simpl.
    + unfold RecordSuccessFrom. rewrite Hc, Ho, (proj2 (Z.ltb_lt _ _) Hlt). simpl. split_and!; try done. apply calls_delete.
    + unfold RecordFailureFrom. rewrite Hc, Ho. simpl. rewrite latestTime_max. split_and!; try done; [lia|apply calls_delete].
  - intros [= <-]. simpl. by rewrite Hc.
Qed.

(** An open circuit lets nothing through.  From any state that callers can bring a
    breaker to, while it is open and its time is not over, whatever calls are tried
    and whatever calls in flight report, no call is let through, the circuit stays
    open, its end only moves later and its backoff does not grow. *)
Theorem open_admits_nothing w tr w' :
  reachable w → state (w_cb w) = CircuitOpen → Forall (λ e, e.1 ≤ openUntil (w_cb w)) tr → brun w tr = Some w' →
  state (w_cb w') = CircuitOpen ∧ openUntil (w_cb w) ≤ openUntil (w_cb w') ∧ openings (w_cb w') = openings (w_cb w) ∧
  (∀ c, c ∈ w_calls w' → c ∈ w_calls w).
Proof.
  intros HI%breaker_inv. revert w HI. induction tr as [|e tr IH]; intros w HI Ho; simpl.
  { intros _ [= <-]. done. }
  intros [He Htr]%Forall_cons. destruct (bstep w e) as [w1|] eqn:E; [|done]. intros Hr.
  destruct (bstep_open w e w1 HI Ho He E) as (H1 & H2 & H3 & _ & H4).
  destruct (IH w1 (bstep_inv w e w1 HI E) H1) as (K1 & K2 & K3 & K4); [|done|].
  - eapply Forall_impl; [exact Htr|]. simpl. intros x ?. lia.
  - split_and!; [done|lia|congruence|auto].
Qed.

(** A half-open circuit lets one call through at a time.  A call that is let
    through while the circuit is not closed is let through after its time is over,
    and every other call let through since it opened that has not reported is at
    least the half-open timeout old. *)
Theorem one_probe_at_a_time w now cb :
  reachable w → w_now w < now → state (w_cb w) ≠ CircuitClosed → Allow now (w_cb w) = (cb, None) →
  (state (w_cb w) = CircuitOpen → openUntil (w_cb w) < now) ∧ state cb = CircuitHalfOpen ∧ probeStarted cb = now ∧
  ∀ a s, (a, s) ∈ w_calls w → openedAt (w_cb w) ≤ s → HalfOpenTimeout (w_cb w) ≤ now - a.
Proof.
  intros HI%breaker_inv Hn Hs HA. pose proof (currentState_inv now w Hn HI) as [_ _ C3 _ C5 _ _]. simpl in *.
  unfold Allow in HA. set (c := currentState now (w_cb w)) in *.
  assert (state c = CircuitHalfOpen ∧ (state (w_cb w) = CircuitOpen → openUntil (w_cb w) < now)) as [Hh Hover].
  { destruct (currentState_cases now (w_cb w)) as [(_ & ? & E)|[_ E]]; fold c in E; rewrite E in HA |- *; [done|].
    by destruct (state (w_cb w)). }
  assert (openedAt c = openedAt (w_cb w) ∧ HalfOpenTimeout c = HalfOpenTimeout (w_cb w)) as [Ea Et].
  { unfold c. by destruct (currentState_cases now (w_cb w)) as [(_ & _ & ->)|[_ ->]]. }
  rewrite Hh in HA. destruct (_ && _) eqn:Ep; [done|]. injection HA as <-. split_and!; [done|done|done|].
  intros a s Has Hge. destruct (C5 Hh a s Has) as [?|[Hz Hle]]; [lia|].
  apply andb_false_iff in Ep as [Ep|Ep]; [apply negb_false_iff, Z.eqb_eq in Ep; done|].
  apply Z.ltb_ge in Ep. pose proof (i_timeout w HI). unfold sub_time in Ep. lia.
Qed.

(** The circuit closes again.  In every state that callers can bring a breaker
    to, a call is let through as soon as the longest backoff since the opening, every
    retry time a response named and the half-open timeout of the last probe are over;
    and when that call succeeds the circuit is closed. *)
Theorem circuit_recovers w now started later :
  reachable w → w_now w < now → now ≤ started → started < later →
  openedAt (w_cb w) + MaxBackoff (w_cb w) < now → w_hint w < now →
  probeStarted (w_cb w) + HalfOpenTimeout (w_cb w) ≤ now → HalfOpenTimeout (w_cb w) < 2 ^ 63 →
  ∃ cb, Allow now (w_cb w) = (cb, None) ∧ RecordSuccessFrom later started cb =
    set_probeStarted zeroTime (set_state CircuitClosed (set_openings 0 (set_consecutiveFails 0 cb))).
Proof.
  intros HI%breaker_inv Hn Hst Hl Ho Hh Hp Ht. pose proof HI as [I1 I2 _ _ _ I6 I7].
  pose proof (currentState_inv now w Hn HI) as HC.
  assert (state (w_cb w) ≠ CircuitClosed → openUntil (w_cb w) < now ∧ openedAt (w_cb w) ≤ w_now w) as Hu.
  { intros Hs. destruct (I6 Hs). lia. }
  unfold Allow. destruct (currentState_cases now (w_cb w)) as [(Es & _ & ->)|[Hk ->]].
  - destruct (Hu) as [_ ?]; [congruence|]. simpl.
    assert (negb (probeStarted (w_cb w) =? zeroTime) && (sub_time now (probeStarted (w_cb w)) <? HalfOpenTimeout (w_cb w)) = false) as ->.
    { apply andb_false_iff. right. apply Z.ltb_ge. unfold sub_time. lia. }
    eexists. split; [done|]. unfold RecordSuccessFrom, currentState. simpl.
    rewrite (proj2 (Z.ltb_ge started (openedAt (w_cb w)))) by lia. done.
  - destruct (state (w_cb w)) eqn:Es.
    + eexists. split; [done|]. unfold RecordSuccessFrom, currentState. by rewrite !Es, bool_decide_true.
    + exfalso. destruct Hu; [done|]. specialize (Hk eq_refl). lia.
    + destruct Hu as [? ?]; [done|].
      assert (negb (probeStarted (w_cb w) =? zeroTime) && (sub_time now (probeStarted (w_cb w)) <? HalfOpenTimeout (w_cb w)) = false) as ->.
      { apply andb_false_iff. right. apply Z.ltb_ge. unfold sub_time. lia. }
      eexists. split; [done|]. unfold RecordSuccessFrom, currentState. simpl. rewrite Es. simpl. rewrite ?Es.
      rewrite (proj2 (Z.ltb_ge started (openedAt (w_cb w)))) by lia. by rewrite andb_false_r.
Qed.

(** What a failed call does: it counts in a closed circuit and as the probe of a
    half-open one, and otherwise only its retry time is kept. *)
Lemma failure_verdict now started ra cb :
  0 ≤ openings cb → 0 ≤ BaseBackoff cb → (∀ x, 0 ≤ x < 2 ^ 63 → float_to_duration x = x) →
  let c := currentState now cb in
  let c' := RecordFailureFrom now started ra cb in
  let opened k := state c' = CircuitOpen ∧ openings c' = k ∧ openedAt c' = now ∧ probeStarted c' = zeroTime ∧
    (BaseBackoff cb * 2 ^ k < 2 ^ 63 → openUntil c' = Z.max ra (now + Z.min (BaseBackoff cb * 2 ^ k) (MaxBackoff cb))) in
  match state c with
  | CircuitClosed =>
      if FailureThreshold cb <=? consecutiveFails cb + 1 then opened 0 else c' = set_consecutiveFails (consecutiveFails cb + 1) c
  | CircuitHalfOpen =>
      if negb (probeStarted cb =? zeroTime) && (probeStarted cb <=? started) then opened (openings cb + 1)
      else c' = set_openUntil (Z.max ra (openUntil cb)) c
  | CircuitOpen => c' = set_openUntil (Z.max ra (openUntil cb)) c
  end.
Proof.
  intros Ho Hb Hf c c' opened.
  assert (∀ k d, 0 ≤ k → BaseBackoff d = BaseBackoff cb → MaxBackoff d = MaxBackoff cb → openings d = k → c' = openLocked now ra d → opened k) as Hopen.
  { intros k d Hk E1 E2 E3 Hc. unfold opened. rewrite Hc. cbn. split_and!; try done. intros Hlt.
    rewrite latestTime_max. unfold backoffDuration. rewrite E1, E2, E3, (proj2 (Z.ltb_ge k 0)) by lia.
    rewrite Hf by nia. destruct (Z.ltb_spec (MaxBackoff cb) (BaseBackoff cb * 2 ^ k)); lia. }
  assert (FailureThreshold c = FailureThreshold cb ∧ consecutiveFails c = consecutiveFails cb ∧ openings c = openings cb ∧ BaseBackoff c = BaseBackoff cb ∧
    MaxBackoff c = MaxBackoff cb ∧ openUntil c = openUntil cb ∧ probeStarted c = probeStarted cb) as (E1 & E2 & E3 & E4 & E5 & E6 & E7).
  { unfold c. by destruct (currentState_cases now cb) as [(_ & _ & ->)|[_ ->]]. }
  assert (c' = match state c with
    | CircuitOpen => set_openUntil (latestTime ra (openUntil c)) c
    | CircuitHalfOpen => if (probeStarted c =? zeroTime) || (started <? probeStarted c) then set_openUntil (latestTime ra (openUntil c)) c
        else openLocked now ra (set_openings (openings c + 1) c)
    | CircuitClosed => if FailureThreshold c <=? consecutiveFails c + 1
        then openLocked now ra (set_openings 0 (set_consecutiveFails (consecutiveFails c + 1) c)) else set_consecutiveFails (consecutiveFails c + 1) c
    end) as Hc' by done.
  clearbody c'. destruct (state c); rewrite ?latestTime_max, ?E1, ?E2, ?E3, ?E6, ?E7 in Hc'.
  - destruct (_ <=? _); [|done]. by refine (Hopen 0 _ _ _ _ _ Hc').
  - done.
  - rewrite Z.ltb_antisym in Hc'. destruct (probeStarted cb =? zeroTime), (probeStarted cb <=? started); simpl in *; try done.
    refine (Hopen (openings cb + 1) _ _ _ _ _ Hc'); simpl; lia || done.
Qed.

(** ** The registry keeps every circuit

    [same]: breakers that no call can tell apart.  What a closed circuit remembers of
    its last opening is dead. *)
Definition config (cb : CircuitBreaker) : Z * Duration * Duration * Duration :=
  (FailureThreshold cb, BaseBackoff cb, MaxBackoff cb, HalfOpenTimeout cb).

Definition same (a b : CircuitBreaker) : Prop :=
  a = b ∨ (state a = CircuitClosed ∧ state b = CircuitClosed ∧ config a = config b ∧
           consecutiveFails a = consecutiveFails b ∧ probeStarted a = probeStarted b).

#[local] Instance same_refl : Reflexive same.
Proof. by left. Qed.

#[local] Instance same_sym : Symmetric same.
Proof. intros a b [->|(? & ? & ? & ? & ?)]; [by left|]. by right. Qed.

#[local] Instance same_trans : Transitive same.
Proof. intros a b c [->|(? & ? & ? & ? & ?)] [<-|(? & ? & ? & ? & ?)]; try (by left); right; split_and!; congruence. Qed.

Lemma currentState_closed now cb : state cb = CircuitClosed → currentState now cb = cb.
Proof. unfold currentState. by intros ->. Qed.

Lemma same_Allow now a b : same a b → same (Allow now a).1 (Allow now b).1 ∧ (Allow now a).2 = (Allow now b).2.
Proof.
  intros [->|(Ha & Hb & H)]; [done|]. unfold Allow. rewrite !currentState_closed, Ha, Hb by done. split; [|done]. right. tauto.
Qed.

Lemma same_State now a b : same a b → same (State now a).1 (State now b).1 ∧ (State now a).2 = (State now b).2.
Proof.
  intros [->|(Ha & Hb & H)]; [done|]. unfold State. rewrite !currentState_closed by done. simpl. split; [by right|congruence].
Qed.

#[local] Instance same_success now started : Proper (same ==> same) (RecordSuccessFrom now started).
Proof.
  intros a b [->|(Ha & Hb & Hc & Hf & Hp)]; [done|]. unfold RecordSuccessFrom. rewrite !currentState_closed by done.
  rewrite Ha, Hb. simpl. by right.
Qed.

#[local] Instance same_cancel : Proper (same ==> same) cancelProbe.
Proof. intros a b [->|(Ha & Hb & Hc & Hf & Hp)]; [done|]. right. simpl. done. Qed.

#[local] Instance same_failure now started ra : Proper (same ==> same) (RecordFailureFrom now started ra).
Proof.
  intros a b [->|(Ha & Hb & [= H1 H2 H3 H4] & Hf & Hp)]; [done|]. unfold RecordFailureFrom. rewrite !currentState_closed by done.
  rewrite Ha, Hb. simpl. rewrite Hf, H1. destruct (_ <=? _); [left|right; unfold config; simpl; split_and!; congruence].
  unfold openLocked, backoffDuration, set_openings, set_consecutiveFails, set_probeStarted, set_openedAt, set_state, set_openUntil. simpl.
  by rewrite ?Hf, ?H1, ?H2, ?H3, ?H4.
Qed.

Section registry.
Variable ParseTime : string → option Time.
Variable ToLower : string → string.

(** A call on the registry, by the owner's name. *)
Inductive rop :=
  | RAllow (name : string)
  | RRecord (name : string) (started : Time) (resp : option Response)
  | RAPIError (name : string) (started : Time) (resp : Response) (apiErr : APIError)
  | RStates (name : string).

Inductive answer := AAllow (blocked : option Time) | ANone | AStates (ob q : CircuitState).

Definition op_owner (o : rop) : string :=
  match o with RAllow n | RRecord n _ _ | RAPIError n _ _ _ | RStates n => n end.

Definition run_rop (now : Time) (o : rop) (r : CircuitRegistry) : CircuitRegistry * answer :=
  match o with
  | RAllow n => let '(r, a) := r_Allow ToLower now n r in (r, AAllow a)
  | RRecord n started resp => (r_Record ParseTime ToLower now n started resp r, ANone)
  | RAPIError n started resp e => (RecordAPIError ParseTime ToLower now n started resp e r, ANone)
  | RStates n => let '(r, (s1, s2)) := states ToLower now n r in (r, AStates s1 s2)
  end.

Fixpoint run_rops (l : list (Time * rop)) (r : CircuitRegistry) : list answer :=
  match l with
  | [] => []
  | (now, o) :: l => let '(r, a) := run_rop now o r in a :: run_rops l r
  end.

(** ** The specification: one circuit per owner, for ever, and the shared one *)

(** What a call does to the owner's circuit and to the quota's. *)
Definition act (now : Time) (o : rop) (ob q : CircuitBreaker) : CircuitBreaker * CircuitBreaker * answer :=
  let record started resp :=
    match resp with
    | None => (RecordFailureFrom now started zeroTime ob, cancelProbe q, ANone)
    | Some _ =>
        let ra := RetryAfterFromResponse ParseTime now resp in
        if IsQuotaExhausted resp then (cancelProbe ob, RecordFailureFrom now started ra q, ANone)
        else if IsTransientResponse resp then (RecordFailureFrom now started ra ob, RecordSuccessFrom now started q, ANone)
        else (RecordSuccessFrom now started ob, RecordSuccessFrom now started q, ANone)
    end in
  match o with
  | RAllow _ =>
      match Allow now ob with
      | (ob, Some t) => (ob, q, AAllow (Some t))
      | (ob, None) =>
          match Allow now q with
          | (q, Some t) => (cancelProbe ob, q, AAllow (Some t))
          | (q, None) => (ob, q, AAllow None)
          end
      end
  | RRecord _ started resp => record started resp
  | RAPIError _ started resp e =>
      if (StatusCode resp =? 403) && Transient e && negb (IsTransientResponse (Some resp)) && negb (IsQuotaExhausted (Some resp))
      then (cancelProbe ob, RecordFailureFrom now started zeroTime q, ANone)
      else record started (Some resp)
  | RStates _ => ((State now ob).1, (State now q).1, AStates (State now ob).2 (State now q).2)
  end.

Fixpoint spec_rops (l : list (Time * rop)) (f : string → CircuitBreaker) (q : CircuitBreaker) : list answer :=
  match l with
  | [] => []
  | (now, o) :: l =>
      let k := ToLower (op_owner o) in
      let '(ob, q, a) := act now o (f k) q in
      a :: spec_rops l (λ k', if decide (k' = k) then ob else f k') q
  end.

(** The circuit the registry has for a key: a new one if it has none. *)
Definition circuit (r : CircuitRegistry) (k : string) : CircuitBreaker := default NewCircuitBreaker (owners r !! k).

(** An operation does what [act] says to its owner's circuit. *)
Lemma run_rop_act now o r :
  let k := ToLower (op_owner o) in
  let '(r1, ob) := owner ToLower (op_owner o) r in
  let '(ob', q', a) := act now o ob (quota r) in
  run_rop now o r = (mkRegistry (<[k := ob']> (owners r1)) q', a).
Proof.
  assert (∀ n, quota (owner ToLower n r).1 = quota r) as Hq by (intros n; unfold owner; by case_match).
  destruct o as [n|n started resp|n started resp e|n]; cbn [op_owner run_rop]; unfold RecordAPIError, r_Allow, r_Record, states.
  - specialize (Hq n). destruct (owner ToLower n r) as [r1 ob]. simpl in *. rewrite Hq. destruct (Allow now ob) as [ob' [t|]]; [unfold set_owner; by rewrite Hq|].
    by destruct (Allow now (quota r)) as [q' [t|]].
  - specialize (Hq n). destruct (owner ToLower n r) as [r1 ob]. cbn [fst] in Hq. unfold act. rewrite Hq. destruct resp as [resp|]; [|done].
    by destruct (IsQuotaExhausted (Some resp)), (IsTransientResponse (Some resp)).
  - assert (owner ToLower n (set_quota (RecordFailureFrom now started zeroTime (quota r)) r) =
      (set_quota (RecordFailureFrom now started zeroTime (quota r)) (owner ToLower n r).1, (owner ToLower n r).2)) as Ho.
    { unfold owner. simpl. by case_match. }
    specialize (Hq n). destruct (owner ToLower n r) as [r1 ob]. cbn [fst snd] in *. unfold act. destruct (_ && _); [by rewrite Ho|].
    rewrite Hq. by destruct (IsQuotaExhausted (Some resp)), (IsTransientResponse (Some resp)).
  - specialize (Hq n). destruct (owner ToLower n r) as [r1 ob]. simpl in *. by rewrite Hq.
Qed.

(** A circuit that is dropped is as good as new. *)
Lemma pristine_new cb : config cb = config NewCircuitBreaker → pristine cb = true → same cb NewCircuitBreaker.
Proof. unfold pristine. intros Hc H. bools. right. simpl. split_and!; try done; by apply Z.eqb_eq. Qed.

Lemma owner_same name r :
  (∀ k, config (circuit r k) = config NewCircuitBreaker) →
  let '(r', ob) := owner ToLower name r in
  (∀ k, same (circuit r' k) (circuit r k)) ∧ ob = circuit r' (ToLower name) ∧ quota r' = quota r.
Proof.
  intros Hcfg. unfold owner, circuit in *. destruct (owners r !! ToLower name) as [cb|] eqn:E; [by rewrite E|]. cbn [owners quota].
  rewrite lookup_insert_eq. split_and!; try done. intros k. rewrite lookup_insert. case_decide as Hk; [by rewrite <- Hk, E|].
  destruct (maxIdleOwners <=? size (owners r))%nat; [|done]. unfold pruneLocked.
  destruct (owners r !! k) as [cb|] eqn:Ek; simpl.
  - destruct (pristine cb) eqn:Ep.
    + rewrite map_lookup_filter_None_2; [|right; intros ? ?; simplify_eq; simpl; congruence].
      symmetry. apply pristine_new; [|done]. specialize (Hcfg k). by rewrite Ek in Hcfg.
    + by rewrite (map_lookup_filter_Some_2 _ _ _ cb).
  - by rewrite map_lookup_filter_None_2 by (by left).
Qed.

(** [act] cannot tell circuits apart that are the same, and keeps their settings. *)
Lemma act_same now o ob ob' q :
  same ob ob' →
  same (act now o ob q).1.1 (act now o ob' q).1.1 ∧ (act now o ob q).1.2 = (act now o ob' q).1.2 ∧
  (act now o ob q).2 = (act now o ob' q).2.
Proof.
  intros Hs.
  assert (∀ started resp, same (act now (RRecord "" started resp) ob q).1.1 (act now (RRecord "" started resp) ob' q).1.1 ∧
    (act now (RRecord "" started resp) ob q).1.2 = (act now (RRecord "" started resp) ob' q).1.2 ∧
    (act now (RRecord "" started resp) ob q).2 = (act now (RRecord "" started resp) ob' q).2) as Hrec.
  { intros started [resp|]; unfold act; [destruct (IsQuotaExhausted (Some resp)), (IsTransientResponse (Some resp))|];
      cbn [fst snd]; split_and!; try done; by rewrite Hs. }
  destruct o as [n|n started resp|n started resp e|n]; [| apply Hrec | |].
  - destruct (same_Allow now ob ob' Hs) as [H1 H2]. unfold act.
    destruct (Allow now ob) as [b1 t1], (Allow now ob') as [b2 t2]. simpl in *. subst t2.
    destruct t1 as [t1|]; [done|]. destruct (Allow now q) as [q' [t|]]; simpl; split_and!; try done. by rewrite H1.
  - specialize (Hrec started (Some resp)). unfold act in *. destruct (_ && _); [|done]. cbn [fst snd]. split_and!; try done. by rewrite Hs.
  - destruct (same_State now ob ob' Hs) as [H1 H2]. unfold act. cbn [fst snd]. split_and!; [done|done|congruence].
Qed.

Lemma config_currentState now cb : config (currentState now cb) = config cb.
Proof. by destruct (currentState_cases now cb) as [(_ & _ & ->)|[_ ->]]. Qed.

Lemma act_config now o ob q : config (act now o ob q).1.1 = config ob.
Proof.
  assert (config (Allow now ob).1 = config ob) as HA.
  { rewrite <- (config_currentState now ob). unfold Allow. destruct (state _); [done|done|]. by destruct (_ && _). }
  assert (∀ s, config (RecordSuccessFrom now s ob) = config ob) as HS.
  { intros s'. rewrite <- (config_currentState now ob). unfold RecordSuccessFrom. by destruct (_ && _). }
  assert (∀ s ra, config (RecordFailureFrom now s ra ob) = config ob) as HF.
  { intros s' ra. rewrite <- (config_currentState now ob). unfold RecordFailureFrom. destruct (state _); [|done|by destruct (_ || _)].
    by destruct (_ <=? _). }
  destruct o as [n|n started resp|n started resp e|n]; unfold act.
  - destruct (Allow now ob) as [b [t|]]; [done|]. by destruct (Allow now q) as [q' [t|]].
  - destruct resp; [|apply HF]. destruct (IsQuotaExhausted _); [done|]. destruct (IsTransientResponse _); [apply HF|apply HS].
  - destruct (_ && _); [done|]. destruct (IsQuotaExhausted _); [done|]. destruct (IsTransientResponse _); [apply HF|apply HS].
  - apply config_currentState.
Qed.

Lemma config_same a b : same a b → config a = config b.
Proof. intros [->|(_ & _ & ? & _)]; done. Qed.

(** Forgetting circuits loses nothing.  The registry keeps a bounded number of
    idle circuits and drops those that hold no state; yet, whatever the sequence of
    calls and outcomes, it answers every one as a registry would that keeps one
    circuit per owner for ever and one shared circuit for the token's quota. *)
Theorem registry_forgets_nothing l :
  run_rops l NewCircuitRegistry = spec_rops l (λ _, NewCircuitBreaker) (quota NewCircuitRegistry).
Proof.
  cut (∀ r f, (∀ k, same (circuit r k) (f k)) → (∀ k, config (f k) = config NewCircuitBreaker) →
    run_rops l r = spec_rops l f (quota r)).
  { intros H. apply H; [|done]. intros k. unfold circuit. simpl. by rewrite lookup_empty. }
  induction l as [|[now o] l IH]; intros r f Hf Hc; [done|]. cbn [run_rops spec_rops]. pose proof (run_rop_act now o r) as Hr.
  assert (∀ k, config (circuit r k) = config NewCircuitBreaker) as Hcr by (intros k; rewrite <- (Hc k); by apply config_same).
  pose proof (owner_same (op_owner o) r Hcr) as Ho. destruct (owner ToLower (op_owner o) r) as [r1 ob].
  destruct Ho as (Hs & -> & Hq). set (k := ToLower (op_owner o)) in *. cbv zeta in Hr.
  destruct (act_same now o (circuit r1 k) (f k) (quota r)) as (A1 & A2 & A3); [by rewrite Hs|].
  pose proof (act_config now o (f k) (quota r)) as Acfg.
  destruct (act now o (circuit r1 k) (quota r)) as [[ob1 q1] a1], (act now o (f k) (quota r)) as [[ob2 q2] a2].
  simpl in *. subst q2 a2. rewrite Hr. f_equal. apply (IH (mkRegistry _ _)).
  - intros k'. unfold circuit. simpl. rewrite lookup_insert. destruct (decide (k = k')) as [<-|Hk].
    + rewrite decide_True by done. simpl. done.
    + rewrite decide_False by done. rewrite <- (Hf k'). apply Hs.
  - intros k'. destruct (decide (k' = k)); [by rewrite Acfg|done].
Qed.
End registry.
End float.

(** ** Examples *)

(** The conversion of amd64: a value that does not fit becomes the smallest int64. *)
Definition amd64 (x : Z) : Z := if (- 2 ^ 63 <=? x) && (x <? 2 ^ 63) then x else - 2 ^ 63.

(** [n] failing calls, one every [every], from [t] on. *)
Fixpoint demo_outage (n : nat) (every t : Time) : list (Time * bop) :=
  match n with
  | O => []
  | S n => (t, Call t) :: (t + 1, Report 0 false zeroTime) :: demo_outage n every (t + every)
  end.

Definition demo_start : World := mkWorld NewCircuitBreaker [] 0 zeroTime.

Definition demo_open : World := default demo_start (brun amd64 demo_start (demo_outage 5 second 1)).

Lemma demo_breaker_reachable : reachable amd64 demo_open.
Proof. exists NewCircuitBreaker, 0, (demo_outage 5 second 1). split; [by vm_compute|]. split; by vm_compute. Qed.

Lemma open_admits_nothing_witness :
  ∃ w', brun amd64 demo_open [(5 * second, Call (5 * second)); (6 * second, Look)] = Some w' ∧ state (w_cb w') = CircuitOpen.
Proof.
  eexists. split; [by vm_compute|].
  eapply (open_admits_nothing amd64 demo_open [(5 * second, Call (5 * second)); (6 * second, Look)] _ demo_breaker_reachable).
  - by vm_compute.
  - repeat constructor; by vm_compute.
  - by vm_compute.
Defined.

Lemma one_probe_at_a_time_witness :
  ∃ cb, Allow (11 * second) (w_cb demo_open) = (cb, None) ∧ probeStarted cb = 11 * second.
Proof.
  eexists. split; [by vm_compute|].
  eapply (one_probe_at_a_time amd64 demo_open (11 * second) _ demo_breaker_reachable); by vm_compute.
Defined.

Lemma circuit_recovers_witness :
  ∃ cb, Allow (200 * second) (w_cb demo_open) = (cb, None) ∧ state (RecordSuccessFrom (201 * second) (200 * second) cb) = CircuitClosed.
Proof.
  destruct (circuit_recovers amd64 demo_open (200 * second) (200 * second) (201 * second) demo_breaker_reachable) as (cb & H1 & H2);
    [by vm_compute..|].
  exists cb. split; [exact H1|]. by rewrite H2.
Defined.

(** After 31 failed probes, about an hour of an outage with the default settings, the
    backoff no longer fits: on amd64 it becomes negative, and the circuit lets the
    next call through at once instead of after MaxBackoff. *)
Theorem backoff_overflows :
  match brun amd64 demo_start (demo_outage 5 second 1 ++ demo_outage 31 (130 * second) (100 * second)) with
  | Some w => openings (w_cb w) = 31 ∧ state (w_cb w) = CircuitOpen ∧ (Allow (w_now w + 1) (w_cb w)).2 = None
  | None => False
  end.
Proof. vm_compute. done. Qed.

(** A call that says nothing about the quota takes away the probe of another one.  The
    quota's circuit is half-open and its probe (a call for org b) is out; a call for
    org a from before the opening fails; a second call is let through at once. *)
Theorem second_probe_admitted :
  let ok := mkResponse 200 (λ _, "") in
  let limited := mkResponse 429 (λ _, "") in
  run_rops amd64 (λ _, None) id
    [(0, RAllow "a"); (1, RAllow "b"); (2, RRecord "b" 1 (Some limited));
     (10 * second, RAllow "b"); (11 * second, RAllow "c"); (12 * second, RRecord "a" 0 None); (13 * second, RAllow "c")] NewCircuitRegistry =
  [AAllow None; AAllow None; ANone; AAllow None; AAllow (Some (13 * second)); ANone; AAllow None].
Proof. vm_compute. done. Qed.
End Breaker.
