(* ===== verification/EnvStatus.v ===== *)
(** * EnvStatus: what a Bundle's status says of its environments

    Model of environmentStatuses, environmentPhase, firstFailedEnvironment,
    allVerified, the superseded steps and fleets, soakRequeue and
    computeBundleMetrics of src/pkg/reconciler/bundle/reconciler.go, of VerifiedTime
    and LeadTimeStart (src/pkg/lifecycle), and of EnvironmentStatus
    (src/api/v1alpha1/bundle_types.go).  Here a state is the string the API has.
    [order] is the promotion order of the Pipeline (graph.PromotedEnvironments), empty
    when it is not known. *)

From stdpp Require Import base gmap strings list sorting.
From Stdlib Require Import Lia ZArith.
From S2P Require Import Prelude.

Open Scope Z_scope.

Module EnvStatus.

Definition minute : Duration := 60 * second.

(** A PromotionStep of the Bundle, as its reconciler reads it: [ps_VerifiedTime] is
    [VerifiedTime], [ps_Fleet] the label kardinal.io/fleet. *)
Record Step := mkStep {
  ps_Name : string;
  ps_Environment : string;
  ps_State : string;
  ps_Fleet : string;
  ps_Message : string;
  ps_OutputPRURL : string;
  ps_PRURL : string;
  ps_VerifiedTime : option Time;
  ps_BakeResets : Z
}.

Record EnvironmentStatus := mkEnvStatus {
  es_Name : string;
  es_Phase : string;
  es_PRURL : string;
  es_HealthCheckedAt : option Time;
  es_SoakMinutes : Z
}.

#[export] Instance EnvironmentStatus_eq_dec : EqDecision EnvironmentStatus.
Proof. solve_decision. Defined.

Definition phaseVerified : string := "Verified".
Definition phaseSuperseded : string := "Superseded".

Definition failedState (state : string) : bool := bool_decide (state ∈ ["Failed"; "AbortedByAlarm"; "RollingBack"]).

(** The two loops of [environmentPhase]. *)
Fixpoint first_failure (group : list Step) : option string :=
  match group with
  | [] => None
  | s :: group => if failedState (ps_State s) then Some (ps_State s) else first_failure group
  end.

Fixpoint first_unfinished (group : list Step) : string :=
  match group with
  | [] => phaseVerified
  | s :: group =>
      if bool_decide (ps_State s = phaseVerified) then first_unfinished group
      else if bool_decide (ps_State s = "") then "Pending" else ps_State s
  end.

Definition environmentPhase (group : list Step) : string :=
  match first_failure group with Some s => s | None => first_unfinished group end.

(** The first pull request the steps name, else the one already recorded. *)
Fixpoint group_prurl (group : list Step) (old : string) : string :=
  match group with
  | [] => old
  | s :: group =>
      if negb (bool_decide (ps_OutputPRURL s = "")) then ps_OutputPRURL s
      else if negb (bool_decide (ps_PRURL s = "")) then ps_PRURL s
      else group_prurl group old
  end.

(** When the last of the steps was verified. *)
Definition latest_verified (now : Time) (group : list Step) : Time :=
  foldl (λ at_ s, let t := default now (ps_VerifiedTime s) in if at_ <? t then t else at_) zeroTime group.

Definition Truncate (t : Time) : Time := t - t mod second.

Definition soak (now checked : Time) : Z :=
  let elapsed := sub_time now checked in if 0 <? elapsed then elapsed `quot` minute else 0.

(** The entry of an environment that has steps. *)
Definition env_entry (now : Time) (env : string) (group : list Step) (old : option EnvironmentStatus) : EnvironmentStatus :=
  let st := default (mkEnvStatus "" "" "" None 0) old in
  let phase := environmentPhase group in
  let url := group_prurl group (es_PRURL st) in
  if negb (bool_decide (phase = phaseVerified)) then mkEnvStatus env phase url None 0
  else
    let checked := match es_HealthCheckedAt st with Some t => t | None => Truncate (latest_verified now group) end in
    mkEnvStatus env phase url (Some checked) (soak now checked).

(** The steps by environment, by name within one. *)
Definition group_of (steps : list Step) (env : string) : list Step :=
  sort_by (λ a b, str_ltb (ps_Name a) (ps_Name b)) (filter (λ s, ps_Environment s = env) steps).

Definition step_envs (steps : list Step) : gset string := list_to_set (ps_Environment <$> steps).

Definition old_entries (envs : list EnvironmentStatus) : gmap string EnvironmentStatus :=
  foldl (λ m e, <[es_Name e := e]> m) ∅ envs.

Definition merged (old : list EnvironmentStatus) (steps : list Step) (now : Time) : gmap string EnvironmentStatus :=
  let kept := old_entries old in
  set_fold (λ env m, <[env := env_entry now env (group_of steps env) (kept !! env)]> m) kept (step_envs steps).

(** First in promotion order, then by name. *)
Fixpoint take_ordered (order : list string) (m : gmap string EnvironmentStatus) : list EnvironmentStatus * gmap string EnvironmentStatus :=
  match order with
  | [] => ([], m)
  | n :: order =>
      match m !! n with
      | Some e => let '(l, m') := take_ordered order (delete n m) in (e :: l, m')
      | None => take_ordered order m
      end
  end.

Definition environmentStatuses (order : list string) (old : list EnvironmentStatus) (steps : list Step) (now : Time) : list EnvironmentStatus :=
  let '(l, m) := take_ordered order (merged old steps now) in
  l ++ omap (λ n, m !! n) (sort_by str_ltb (elements (dom m))).

(** ** What the phase is derived from *)

Definition onlyRollingBack (steps : list Step) : bool :=
  existsb (λ s, bool_decide (ps_State s = "RollingBack")) steps &&
  forallb (λ s, negb (failedState (ps_State s)) || bool_decide (ps_State s = "RollingBack")) steps.

Definition failing_envs (steps : list Step) : list string :=
  ps_Environment <$> List.filter (λ s, failedState (ps_State s)) steps.

Definition firstFailedEnvironment (envs : list EnvironmentStatus) (steps : list Step) : option EnvironmentStatus :=
  snd <$> list_find (λ e, es_Name e ∈ failing_envs steps) envs.

(** The phase of a name: the last entry of it, as the map is filled. *)
Definition phase_of (envs : list EnvironmentStatus) (name : string) : string :=
  foldl (λ p e, if bool_decide (es_Name e = name) then es_Phase e else p) "" envs.

Definition allVerified (envs : list EnvironmentStatus) (expected : list string) : bool :=
  negb (bool_decide (expected = [])) && forallb (λ n, bool_decide (phase_of envs n = phaseVerified)) expected.

Definition supersededStep (steps : list Step) : option Step :=
  snd <$> list_find (λ s, ps_State s = phaseSuperseded ∧ ps_Fleet s = "") steps.

Definition supersededTargets (steps : list Step) : list string :=
  ps_Environment <$> filter (λ s, ps_State s = phaseSuperseded ∧ ps_Fleet s ≠ "") steps.

(** [supersededFleet]: [fleetOf] is graph.FleetOf of the Pipeline. *)
Definition fleet_done (fleetOf : string → string) (settled expected : list string) (f : string) : bool :=
  forallb (λ e, negb (bool_decide (fleetOf e = f)) || bool_decide (e ∈ settled)) expected.

Definition supersededFleet (fleetOf : string → string) (promoted : option (list string)) (steps : list Step) : string :=
  let settled := supersededTargets steps in
  if bool_decide (settled = []) then ""
  else match promoted with
       | None => ""
       | Some expected =>
           default "" (snd <$> list_find (λ f, f ≠ "" ∧ fleet_done fleetOf settled expected f = true) (fleetOf <$> expected))
       end.

(** [failureCause]: the reason and the message. *)
Definition failureCause (env : option EnvironmentStatus) (rejected : string) (steps : list Step) : string * string :=
  match env with
  | None => ("GraphRejected", "kro rejected the Graph: " +:+ rejected)
  | Some env =>
      let detail := match list_find (λ s, ps_Environment s = es_Name env ∧ failedState (ps_State s) = true ∧ ps_Message s ≠ "") steps with
                    | Some (_, s) => ps_Message s
                    | None => "step " +:+ es_Phase env
                    end in
      ("StepFailed", "environment " +:+ es_Name env +:+ ": " +:+ detail)
  end.

(** ** Metrics *)

Definition CommitTimeMaxAge : Duration := 365 * 24 * 3600 * second.

(** [LeadTimeStart]. *)
Definition LeadTimeStart (created : Time) (commitTime : option Time) (rollbackOf : string) : Time :=
  match commitTime with
  | Some t =>
      if negb (t =? zeroTime) && bool_decide (rollbackOf = "") && negb (created <? t) && negb (t <? created - CommitTimeMaxAge)
      then t else created
  | None => created
  end.

Record BundleMetrics := mkMetrics { CommitToProductionMinutes : Z; BakeResets : Z; OperatorInterventions : Z }.

(** The last entry's time, as the map is filled. *)
Definition checked_of (envs : list EnvironmentStatus) (name : string) : Time :=
  foldl (λ t e, if bool_decide (es_Name e = name) then default t (es_HealthCheckedAt e) else t) zeroTime envs.

(** [gates] are the labels kardinal.io/bundle and the number of overrides. *)
Definition computeBundleMetrics (bundle : string) (start : Time) (envs : list EnvironmentStatus) (expected : list string)
    (steps : list Step) (gates : list (string * Z)) : BundleMetrics :=
  let latest := foldl (λ l n, let t := checked_of envs n in if l <? t then t else l) zeroTime expected in
  mkMetrics (if negb (start =? zeroTime) && (start <? latest) then sub_time latest start `quot` minute else 0)
    (foldl Z.add 0 (ps_BakeResets <$> steps))
    (foldl Z.add 0 (snd <$> filter (λ g, g.1 = bundle) gates)).

(** ** Facts *)

Lemma first_failure_none group : first_failure group = None ↔ ∀ s, s ∈ group → failedState (ps_State s) = false.
Proof.
  induction group as [|s l IH]; simpl; [split; [by intros _ ? ?%elem_of_nil|done]|].
  destruct (failedState (ps_State s)) eqn:E.
  - split; [done|]. intros H. rewrite (H s) in E by (by left). done.
  - rewrite IH. split; [intros H x [->|Hx]%elem_of_cons; auto|intros H x Hx; apply H; by right].
Qed.

Lemma first_unfinished_verified group : first_unfinished group = phaseVerified ↔ ∀ s, s ∈ group → ps_State s = phaseVerified.
Proof.
  induction group as [|s l IH]; simpl; [split; [by intros _ ? ?%elem_of_nil|done]|].
  case_bool_decide as E.
  - rewrite IH. split; [intros H x [->|Hx]%elem_of_cons; auto|intros H x Hx; apply H; by right].
  - split; [|intros H; destruct E; apply H; by left]. case_bool_decide; [done|congruence].
Qed.

Lemma environmentPhase_verified group : environmentPhase group = phaseVerified ↔ ∀ s, s ∈ group → ps_State s = phaseVerified.
Proof.
  unfold environmentPhase. destruct (first_failure group) as [st|] eqn:E.
  - assert (∃ s, s ∈ group ∧ failedState (ps_State s) = true ∧ ps_State s = st) as (s & Hs & Hf & <-).
    { revert E. induction group as [|s l IH]; simpl; [done|]. destruct (failedState (ps_State s)) eqn:Ef.
      - intros [= <-]. exists s. split; [by left|done].
      - intros (x & ? & ?)%IH. exists x. split; [by right|done]. }
    assert (ps_State s ≠ phaseVerified) as Hn by (intros Ev; by rewrite Ev in Hf).
    split; [done|]. intros H. by destruct (Hn (H s Hs)).
  - apply first_unfinished_verified.
Qed.

Lemma group_of_elem steps env s : s ∈ group_of steps env ↔ s ∈ steps ∧ ps_Environment s = env.
Proof. unfold group_of. rewrite sort_by_elem, list_elem_of_filter. tauto. Qed.

Lemma merged_lookup old steps now env :
  merged old steps now !! env =
  if bool_decide (env ∈ step_envs steps) then Some (env_entry now env (group_of steps env) (old_entries old !! env))
  else old_entries old !! env.
Proof.
  unfold merged. set (kept := old_entries old). set (ent env := env_entry now env (group_of steps env) (kept !! env)).
  set (P := λ (m : gmap string EnvironmentStatus) (X : gset string),
    (env ∈ X → m !! env = Some (ent env)) ∧ (env ∉ X → m !! env = kept !! env)).
  assert (P (set_fold (λ env m, <[env := ent env]> m) kept (step_envs steps)) (step_envs steps)) as [H1 H2].
  { apply (set_fold_ind_L P); [split; [set_solver|done]|]. intros x X m Hx [IH1 IH2]. split; intros Hin.
    - destruct (decide (x = env)) as [->|]; [by rewrite lookup_insert_eq|]. rewrite lookup_insert_ne by done. apply IH1. set_solver.
    - rewrite lookup_insert_ne by set_solver. apply IH2. set_solver. }
  case_bool_decide; auto.
Qed.

Lemma old_entries_fold l : ∀ (m : gmap string EnvironmentStatus) n,
  foldl (λ m e, <[es_Name e := e]> m) m l !! n = match last (filter (λ e, es_Name e = n) l) with Some e => Some e | None => m !! n end.
Proof.
  induction l as [|e l IH] using rev_ind; intros m n; [done|]. rewrite foldl_app, filter_app. cbn [foldl].
  rewrite lookup_insert. destruct (decide (es_Name e = n)) as [E|E].
  - rewrite filter_cons_True by done. rewrite filter_nil. by rewrite last_snoc.
  - rewrite filter_cons_False, filter_nil, app_nil_r by done. apply IH.
Qed.

Lemma old_entries_name l n e : old_entries l !! n = Some e → es_Name e = n.
Proof.
  unfold old_entries. rewrite old_entries_fold. destruct (last _) as [x|] eqn:E; [|by rewrite lookup_empty].
  intros [= <-]. apply last_Some_elem_of, list_elem_of_filter in E. by destruct E.
Qed.

Lemma old_entries_nodup l e : NoDup (es_Name <$> l) → e ∈ l → old_entries l !! es_Name e = Some e.
Proof.
  intros Hn He. unfold old_entries. rewrite old_entries_fold. destruct (last (filter (λ x, es_Name x = es_Name e) l)) as [x|] eqn:E.
  - apply last_Some_elem_of, list_elem_of_filter in E as [En Ex]. f_equal.
    apply list_elem_of_lookup in He as [i Hi]. apply list_elem_of_lookup in Ex as [j Hj].
    assert (i = j) as -> by (eapply (NoDup_lookup (es_Name <$> l)); [done|by rewrite list_lookup_fmap, Hi|by rewrite list_lookup_fmap, Hj; simpl; rewrite En]).
    congruence.
  - apply last_None in E. assert (e ∈ filter (λ x, es_Name x = es_Name e) l) as H by (by apply list_elem_of_filter).
    rewrite E in H. by apply elem_of_nil in H.
Qed.

Lemma take_ordered_spec order : ∀ m l m',
  take_ordered order m = (l, m') → (∀ n e, m !! n = Some e → es_Name e = n) →
  (∀ n e, m !! n = Some e ↔ e ∈ l ∧ es_Name e = n ∨ m' !! n = Some e) ∧
  NoDup (es_Name <$> l) ∧ (∀ e, e ∈ l → m' !! es_Name e = None) ∧ (∀ n, is_Some (m' !! n) → n ∉ order).
Proof.
  induction order as [|n order IH]; intros m l m'; simpl.
  { intros [= <- <-] Hm. split_and!.
    - intros k e. split; [by right|]. intros [[H _]|H]; [by apply elem_of_nil in H|done].
    - apply NoDup_nil_2.
    - by intros ? ?%elem_of_nil.
    - intros k _. apply not_elem_of_nil. }
  destruct (m !! n) as [e0|] eqn:E.
  - destruct (take_ordered order (delete n m)) as [l1 m1] eqn:Et. intros [= <- <-] Hm.
    apply IH in Et as (H1 & H2 & H3 & H4); [|intros k e; rewrite lookup_delete_Some; intros [_ ?]; by apply Hm].
    pose proof (Hm n e0 E) as En.
    assert (m1 !! n = None) as Hn1.
    { destruct (m1 !! n) as [x|] eqn:Ex; [|done]. assert (delete n m !! n = Some x) as Hd by (apply H1; by right).
      by rewrite lookup_delete_eq in Hd. }
    assert (∀ e, e ∈ l1 → es_Name e ≠ n) as Hne.
    { intros e He Ee. assert (delete n m !! n = Some e) as Hd by (apply H1; left; done). by rewrite lookup_delete_eq in Hd. }
    split_and!.
    + intros k e. destruct (decide (k = n)) as [->|Hk].
      * rewrite E. split; [intros [= <-]; left; split; [by left|done]|].
        intros [[[->|He]%elem_of_cons Ek]|Hx]; [done|by destruct (Hne e He)|congruence].
      * rewrite <- (lookup_delete_ne m n k) by done. rewrite H1. rewrite elem_of_cons.
        split; [intros [[? ?]|?]; auto|]. intros [[[->|?] ?]|?]; [congruence|auto|auto].
    + rewrite fmap_cons. apply NoDup_cons. split; [|done]. rewrite En. intros (e & Ee & He)%list_elem_of_fmap. by apply (Hne e He).
    + intros e [->|He]%elem_of_cons; [by rewrite En|by apply H3].
    + intros k Hk [->|Hin]%elem_of_cons; [rewrite Hn1 in Hk; by destruct Hk|by apply (H4 k Hk)].
  - intros Et Hm. apply IH in Et as (H1 & H2 & H3 & H4); [|done]. split_and!; try done.
    intros k Hk [->|Hin]%elem_of_cons; [|by apply (H4 k Hk)]. destruct Hk as [x Hx]. assert (m !! n = Some x) by (apply H1; by right). congruence.
Qed.

Lemma merged_name old steps now n e : merged old steps now !! n = Some e → es_Name e = n.
Proof.
  rewrite merged_lookup. case_bool_decide; [|apply old_entries_name]. intros [= <-]. unfold env_entry. by destruct (negb _).
Qed.

(** The list holds each entry of the merge once. *)
Lemma environmentStatuses_spec order old steps now :
  NoDup (es_Name <$> environmentStatuses order old steps now) ∧
  (∀ e, e ∈ environmentStatuses order old steps now ↔ merged old steps now !! es_Name e = Some e).
Proof.
  unfold environmentStatuses. destruct (take_ordered order (merged old steps now)) as [l m] eqn:E.
  apply take_ordered_spec in E as (H1 & H2 & H3 & _); [|intros n e; apply merged_name].
  assert (∀ n e, m !! n = Some e → es_Name e = n) as Hm.
  { intros n e He. apply (merged_name old steps now n). apply H1. by right. }
  assert (∀ (ns : list string) e, e ∈ omap (λ n, m !! n) ns ↔ es_Name e ∈ ns ∧ m !! es_Name e = Some e) as Hr.
  { intros ns e. rewrite list_elem_of_omap. split; [intros (n & Hn & He); pose proof (Hm n e He); by subst|]. intros [? ?]. by exists (es_Name e). }
  assert (∀ ns : list string, NoDup ns → NoDup (es_Name <$> omap (λ n, m !! n) ns)) as Hnd.
  { induction ns as [|n ns IH]; [constructor|]. intros [Hn Hs]%NoDup_cons. csimpl. destruct (m !! n) as [e|] eqn:Ee; [|by apply IH].
    rewrite fmap_cons. apply NoDup_cons. split; [|by apply IH]. intros (e' & Ee' & He')%list_elem_of_fmap.
    apply Hr in He' as [He' _]. rewrite (Hm n e Ee) in Ee'. by rewrite <- Ee' in He'. }
  split.
  - rewrite fmap_app. apply NoDup_app. split_and!; [done| |apply Hnd; rewrite sort_by_perm; apply NoDup_elements].
    intros n (e & -> & He)%list_elem_of_fmap (e' & Ee & He')%list_elem_of_fmap. apply Hr in He' as [_ He'].
    rewrite <- Ee in He'. by rewrite (H3 e He) in He'.
  - intros e. rewrite elem_of_app, Hr, sort_by_elem, elem_of_elements, elem_of_dom, H1. split.
    + intros [?|[? ?]]; [by left|by right].
    + intros [[? _]|?]; [by left|right]. split; [by eexists|done].
Qed.

Lemma step_envs_elem steps env : env ∈ step_envs steps ↔ ∃ s, s ∈ steps ∧ ps_Environment s = env.
Proof. unfold step_envs. rewrite elem_of_list_to_set, list_elem_of_fmap. naive_solver. Qed.

(** The entry of an environment: it has one if it has a step or had an entry, and with
    a step it is Verified exactly when every step of the environment is. *)
Lemma environmentStatuses_env order old steps now env :
  let envs := environmentStatuses order old steps now in
  ((∃ e, e ∈ envs ∧ es_Name e = env) ↔ (∃ s, s ∈ steps ∧ ps_Environment s = env) ∨ is_Some (old_entries old !! env)) ∧
  (∀ e, e ∈ envs → es_Name e = env →
     (¬ (∃ s, s ∈ steps ∧ ps_Environment s = env) ∧ old_entries old !! env = Some e) ∨
     ((∃ s, s ∈ steps ∧ ps_Environment s = env) ∧
      (es_Phase e = phaseVerified ↔ ∀ s, s ∈ steps → ps_Environment s = env → ps_State s = phaseVerified) ∧
      (es_Phase e ≠ phaseVerified → es_HealthCheckedAt e = None ∧ es_SoakMinutes e = 0) ∧
      (es_Phase e = phaseVerified → ∃ t, es_HealthCheckedAt e = Some t ∧ es_SoakMinutes e = soak now t ∧
         ∀ e0 t0, old_entries old !! env = Some e0 → es_HealthCheckedAt e0 = Some t0 → t = t0))).
Proof.
  intros envs. destruct (environmentStatuses_spec order old steps now) as [_ Hin]. fold envs in Hin.
  assert (∀ group, environmentPhase group = phaseVerified ∨ environmentPhase group ≠ phaseVerified) as Hdec by (intros; by destruct (decide (environmentPhase group = phaseVerified)); auto).
  split.
  - rewrite <- step_envs_elem. split.
    + intros (e & He%Hin & <-). rewrite merged_lookup in He. case_bool_decide; [by left|right]. by eexists.
    + intros H. pose proof (merged_lookup old steps now env) as Hm. case_bool_decide as Hs.
      * exists (env_entry now env (group_of steps env) (old_entries old !! env)). pose proof (merged_name _ _ _ _ _ Hm) as En.
        split; [apply Hin; by rewrite En|done].
      * destruct H as [?|[e He]]; [done|]. rewrite He in Hm. exists e. pose proof (merged_name _ _ _ _ _ Hm) as En.
        split; [apply Hin; by rewrite En|done].
  - intros e He%Hin En. rewrite merged_lookup, En in He. case_bool_decide as Hs.
    + right. split; [by apply step_envs_elem|]. injection He as He.
      assert (es_Phase e = environmentPhase (group_of steps env)) as Hp by (rewrite <- He; unfold env_entry; by destruct (negb _)).
      split_and!.
      * rewrite Hp, environmentPhase_verified. setoid_rewrite group_of_elem. naive_solver.
      * rewrite Hp. intros Hne. rewrite <- He. unfold env_entry. by rewrite bool_decide_false.
      * rewrite Hp. intros Hv. rewrite <- He. unfold env_entry. rewrite bool_decide_true by done. simpl.
        eexists. split_and!; [done|done|]. intros e0 t0 E0 Et. rewrite E0. simpl. by rewrite Et.
    + left. split; [by rewrite <- step_envs_elem|done].
Qed.

Lemma group_prurl_idem group old : group_prurl group (group_prurl group old) = group_prurl group old.
Proof. induction group as [|s l IH]; simpl; [done|]. repeat case_bool_decide; simpl; done || apply IH. Qed.

Lemma env_entry_idem now env group old :
  env_entry now env group (Some (env_entry now env group old)) = env_entry now env group old.
Proof.
  unfold env_entry at 1. cbn [default]. unfold env_entry.
  destruct (bool_decide (environmentPhase group = phaseVerified)); simpl; by rewrite group_prurl_idem.
Qed.

(** Syncing again changes nothing: the status is written once for what the steps say. *)
Lemma sync_idempotent order old steps now :
  environmentStatuses order (environmentStatuses order old steps now) steps now = environmentStatuses order old steps now.
Proof.
  cut (merged (environmentStatuses order old steps now) steps now = merged old steps now).
  { intros E. unfold environmentStatuses at 1. by rewrite E. }
  destruct (environmentStatuses_spec order old steps now) as [Hn Hin]. set (l := environmentStatuses order old steps now) in *.
  assert (old_entries l = merged old steps now) as Hold.
  { apply map_eq. intros n. apply option_eq. intros e. split.
    - intros He. pose proof (old_entries_name _ _ _ He) as <-. apply Hin. unfold old_entries in He. rewrite old_entries_fold in He.
      destruct (last _) as [x|] eqn:E; [|by rewrite lookup_empty in He]. injection He as ->.
      apply last_Some_elem_of, list_elem_of_filter in E. by destruct E.
    - intros He. pose proof (merged_name _ _ _ _ _ He) as <-. apply old_entries_nodup; [done|]. by apply Hin. }
  apply map_eq. intros n. rewrite (merged_lookup l). rewrite Hold, !merged_lookup.
  case_bool_decide; [|done]. by rewrite env_entry_idem.
Qed.

Lemma phase_of_elem envs e : NoDup (es_Name <$> envs) → e ∈ envs → phase_of envs (es_Name e) = es_Phase e.
Proof.
  unfold phase_of. induction envs as [|x l IH] using rev_ind; [by intros _ ?%elem_of_nil|].
  rewrite fmap_app, foldl_app. intros (Hl & Hd & _)%NoDup_app [He| ->%list_elem_of_singleton]%elem_of_app; cbn [foldl].
  - rewrite bool_decide_false; [by apply IH|]. intros E. apply (Hd (es_Name e)); [by apply list_elem_of_fmap_2|].
    rewrite <- E. by left.
  - by rewrite bool_decide_true.
Qed.

Lemma phase_of_none envs n : (¬ ∃ e, e ∈ envs ∧ es_Name e = n) → phase_of envs n = "".
Proof.
  unfold phase_of. induction envs as [|x l IH] using rev_ind; [done|]. intros H. rewrite foldl_app. cbn [foldl].
  rewrite bool_decide_false.
  - apply IH. intros (e & He & En). apply H. exists e. split; [apply elem_of_app; by left|done].
  - intros E. apply H. exists x. split; [apply elem_of_app; right; by left|done].
Qed.

(** An environment counts as Verified: by its steps, or, without any, by the entry
    kept from before. *)
Definition env_verified (old : list EnvironmentStatus) (steps : list Step) (env : string) : Prop :=
  ((∃ s, s ∈ steps ∧ ps_Environment s = env) ∧ ∀ s, s ∈ steps → ps_Environment s = env → ps_State s = phaseVerified) ∨
  (¬ (∃ s, s ∈ steps ∧ ps_Environment s = env) ∧ ∃ e, old_entries old !! env = Some e ∧ es_Phase e = phaseVerified).

Lemma allVerified_iff order old steps now expected :
  allVerified (environmentStatuses order old steps now) expected = true ↔
  expected ≠ [] ∧ ∀ env, env ∈ expected → env_verified old steps env.
Proof.
  unfold allVerified. rewrite andb_true_iff, negb_true_iff, bool_decide_eq_false, forallb_forall.
  setoid_rewrite <- list_elem_of_In. setoid_rewrite bool_decide_eq_true.
  apply and_iff_compat_l. apply forall_proper. intros env. apply forall_proper. intros _.
  destruct (environmentStatuses_env order old steps now env) as [Hex Henv]. destruct (environmentStatuses_spec order old steps now) as [Hn _].
  set (envs := environmentStatuses order old steps now) in *. split.
  - intros Hp. assert (∃ e, e ∈ envs ∧ es_Name e = env) as (e & He & En).
    { destruct (list_find (λ e, es_Name e = env) envs) as [[i e]|] eqn:E.
      - apply list_find_Some in E as (Hl & ? & _). exists e. split; [by apply list_elem_of_lookup_2 in Hl|done].
      - apply list_find_None in E. rewrite phase_of_none in Hp; [done|]. intros (e & He & En).
        rewrite Forall_forall in E. by apply (E e He). }
    rewrite <- En, phase_of_elem in Hp by done. destruct (Henv e He En) as [[? ?]|(? & Hv & _)].
    + right. split; [done|]. by exists e.
    + left. split; [done|]. by apply Hv.
  - intros Hv. assert (∃ e, e ∈ envs ∧ es_Name e = env) as (e & He & En).
    { apply Hex. destruct Hv as [[? _]|[_ (e & ? & _)]]; [by left|right; by eexists]. }
    rewrite <- En, phase_of_elem by done. destruct (Henv e He En) as [[Hns Ho]|(Hs & Hiff & _)].
    + destruct Hv as [[? _]|[_ (e' & Ee & ?)]]; [done|]. congruence.
    + destruct Hv as [[_ ?]|[? _]]; [by apply Hiff|done].
Qed.

(** A failing environment is found exactly when a step of one of the entries fails;
    every step has its entry. *)
Lemma firstFailedEnvironment_iff order old steps now :
  is_Some (firstFailedEnvironment (environmentStatuses order old steps now) steps) ↔
  ∃ s, s ∈ steps ∧ failedState (ps_State s) = true.
Proof.
  unfold firstFailedEnvironment, failing_envs. set (envs := environmentStatuses order old steps now).
  assert (∀ n, n ∈ ps_Environment <$> List.filter (λ s, failedState (ps_State s)) steps ↔
    ∃ s, s ∈ steps ∧ failedState (ps_State s) = true ∧ ps_Environment s = n) as Hf.
  { intros n. rewrite list_elem_of_fmap. setoid_rewrite list_elem_of_In. setoid_rewrite filter_In. naive_solver. }
  rewrite fmap_is_Some. split.
  - intros [[i e] (_ & (s & ? & ? & _)%Hf & _)%list_find_Some]. by exists s.
  - intros (s & Hs & Hfs). destruct (environmentStatuses_env order old steps now (ps_Environment s)) as [[_ Hex] _].
    destruct Hex as (e & He & En); [left; by exists s|]. apply (list_find_elem_of _ _ e He). rewrite En. apply Hf. by exists s.
Qed.
End EnvStatus.
