(* ===== verification/BundlePhase.v ===== *)
(** * BundlePhase: the life of a Bundle

    Model of the Bundle reconciler (src/pkg/reconciler/bundle/reconciler.go): reconcile
    with the handler of each phase, the sync of its Graph, the derivation of the phase
    from its steps ([EnvStatus]), the slot count of maxConcurrentPromotions, the
    history limit, and SupersedingSiblings and TargetRollback
    (src/pkg/lifecycle/supersede.go).  A reconcile is a function of what it reads
    ([Inputs]) and of the stored status to the writes it makes, in order; the status
    patch carries the resourceVersion it was computed from, so it applies to that
    status or not at all.  The Graph itself is built outside: [in_translate] is what
    the translation answers.  Audit records of gate changes, the carried upstream
    evidence, the conditions GatesCreated and RunsCreated, and retirement are not
    modelled, and a message that quotes an error, a rejection or the Pipeline's name is
    left out or empty. *)

From stdpp Require Import base gmap strings list sorting pretty.
From Stdlib Require Import Lia ZArith.
From S2P Require Import Prelude Topo Ordering Fleet Actor Freeze Engine StepStatus Hooks Outbox Bake Transition Cancel Pending History Rollback RollbackFleet EnvStatus.
Import Transition.Transition Cancel.Cancel Pending.Pending Rollback.Rollback RollbackFleet.RollbackFleet EnvStatus.EnvStatus.

Open Scope Z_scope.

Module BundlePhase.

Definition phaseAvailable : string := "Available".
Definition phasePromoting : string := "Promoting".
Definition phaseFailed : string := "Failed".
Definition phaseRejected : string := "Rejected".

Definition condReady : string := "Ready".
Definition condInvalidSpec : string := "InvalidSpec".
Definition condFailed : string := "Failed".
Definition condGraphAccepted : string := "GraphAccepted".
Definition condGraphReady : string := "GraphReady".
Definition condGraphSynced : string := "GraphSynced".
Definition condRejected : string := "Rejected".
Definition CondBundleWaitingForSlot : string := "WaitingForSlot".

Definition requeueSlow : Duration := 30 * second.
Definition providerRefRetry : Duration := 15 * second.
Definition auditRetryDelay : Duration := 5 * second.
Definition defaultHistoryLimit : Z := 50.

(** ** The status *)

Inductive CondStatus := CTrue | CFalse | CUnknown.

#[export] Instance CondStatus_eq_dec : EqDecision CondStatus.
Proof. solve_decision. Defined.

Record Condition := mkCond { c_Status : CondStatus; c_Reason : string; c_Message : string }.

#[export] Instance Condition_eq_dec : EqDecision Condition.
Proof. solve_decision. Defined.

#[export] Instance BundleMetrics_eq_dec : EqDecision BundleMetrics.
Proof. solve_decision. Defined.

(** [Conditions] by type; [PendingAudit] the names of the records to write. *)
Record BStatus := mkBStatus {
  Phase : string;
  PhaseTransitionTime : option Time;
  Version : string;
  Environments : list EnvironmentStatus;
  Conditions : gmap string Condition;
  GraphRef : string;
  PipelineSpecHash : string;
  PolicyGatesHash : string;
  Metrics : option BundleMetrics;
  RejectedSet : option (list ImageRef * string);
  PendingAudit : list string;
  Retired : bool
}.

#[export] Instance BStatus_eq_dec : EqDecision BStatus.
Proof. solve_decision. Defined.

Definition set_Phase (v : string) (t : option Time) (s : BStatus) : BStatus :=
  mkBStatus v t (Version s) (Environments s) (Conditions s) (GraphRef s) (PipelineSpecHash s) (PolicyGatesHash s) (Metrics s)
    (RejectedSet s) (PendingAudit s) (Retired s).

Definition set_Version (v : string) (s : BStatus) : BStatus :=
  mkBStatus (Phase s) (PhaseTransitionTime s) v (Environments s) (Conditions s) (GraphRef s) (PipelineSpecHash s) (PolicyGatesHash s) (Metrics s)
    (RejectedSet s) (PendingAudit s) (Retired s).

Definition set_Environments (v : list EnvironmentStatus) (s : BStatus) : BStatus :=
  mkBStatus (Phase s) (PhaseTransitionTime s) (Version s) v (Conditions s) (GraphRef s) (PipelineSpecHash s) (PolicyGatesHash s) (Metrics s)
    (RejectedSet s) (PendingAudit s) (Retired s).

Definition set_Conditions (v : gmap string Condition) (s : BStatus) : BStatus :=
  mkBStatus (Phase s) (PhaseTransitionTime s) (Version s) (Environments s) v (GraphRef s) (PipelineSpecHash s) (PolicyGatesHash s) (Metrics s)
    (RejectedSet s) (PendingAudit s) (Retired s).

Definition set_Graph (ref hash gates : string) (s : BStatus) : BStatus :=
  mkBStatus (Phase s) (PhaseTransitionTime s) (Version s) (Environments s) (Conditions s) ref hash gates (Metrics s)
    (RejectedSet s) (PendingAudit s) (Retired s).

Definition set_Metrics (v : option BundleMetrics) (s : BStatus) : BStatus :=
  mkBStatus (Phase s) (PhaseTransitionTime s) (Version s) (Environments s) (Conditions s) (GraphRef s) (PipelineSpecHash s) (PolicyGatesHash s) v
    (RejectedSet s) (PendingAudit s) (Retired s).

Definition set_Rejection (set : option (list ImageRef * string)) (audit : list string) (s : BStatus) : BStatus :=
  mkBStatus (Phase s) (PhaseTransitionTime s) (Version s) (Environments s) (Conditions s) (GraphRef s) (PipelineSpecHash s) (PolicyGatesHash s) (Metrics s)
    set audit (Retired s).

Definition setPhase (phase : string) (now : Time) (s : BStatus) : BStatus :=
  set_Phase phase (if bool_decide (Phase s = phase) then PhaseTransitionTime s else Some (Truncate now)) s.

Definition setBundleCondition (typ : string) (status : CondStatus) (reason message : string) (s : BStatus) : BStatus :=
  set_Conditions (<[typ := mkCond status reason message]> (Conditions s)) s.

(** Whether [setBundleCondition] changes anything. *)
Definition condition_changes (typ : string) (status : CondStatus) (reason message : string) (s : BStatus) : bool :=
  negb (bool_decide (Conditions s !! typ = Some (mkCond status reason message))).

Definition removeCondition (typ : string) (s : BStatus) : BStatus := set_Conditions (delete typ (Conditions s)) s.

Definition cond_is (typ : string) (status : CondStatus) (s : BStatus) : bool :=
  match Conditions s !! typ with Some c => bool_decide (c_Status c = status) | None => false end.

Definition inFlightOrFailed (phase : string) : bool := bool_decide (phase ∈ [""; phaseAvailable; phasePromoting; phaseFailed]).

Definition supersede (now : Time) (s : BStatus) : BStatus :=
  setBundleCondition condReady CFalse "Superseded" "superseded by a newer bundle for the same pipeline and type"
    (removeCondition CondBundleWaitingForSlot (setPhase phaseSuperseded now s)).

Definition slotMessage (limit : Z) : string :=
  "maxConcurrentPromotions (" +:+ pretty limit +:+ ") reached; waiting for a promoting bundle to finish".

Definition setSlotHold (held : bool) (limit : Z) (s : BStatus) : BStatus :=
  if held then
    setBundleCondition CondBundleWaitingForSlot CTrue "SlotTaken" ("maxConcurrentPromotions (" +:+ pretty limit +:+
      ") reached; this failed Bundle creates no new step and its pending steps wait until a promoting bundle finishes") s
  else removeCondition CondBundleWaitingForSlot s.

Definition failedPromoting (s : BStatus) : bool :=
  bool_decide (Phase s = phaseFailed) && (cond_is condFailed CTrue s || negb (cond_is condInvalidSpec CTrue s)).

Definition graphRejected (s : BStatus) : option Condition :=
  match Conditions s !! condGraphAccepted with
  | Some c => if bool_decide (c_Status c = CFalse) then Some c else None
  | None => None
  end.

(** ** What a reconcile reads *)

(** [pv_promoted]: graph.PromotedEnvironments of the Pipeline and the Bundle, or an error
    and whether it wraps graph.ErrInvalid.  [pv_order]: what DetectCycle says of the Pipeline ([None] for a
    valid order, else whether the error is a cycle). *)
Record PipelineView := mkPipelineView {
  pv_hash : string;
  pv_holds : list EnvironmentHold;
  pv_fleets : bool;
  pv_fleetOf : string → string;
  pv_promoted : bool + list string;
  pv_order : option bool;
  pv_max : Z;
  pv_historyLimit : Z
}.

(** What the translation answers: the name of the Graph; nothing to do (the namespace
    is being deleted, the Bundle is retired); a Graph that cannot be built, with the
    hash of the gates it was built from; a provider that cannot be used; any other
    error. *)
Inductive translate_result := TName (name : string) | TSkip | TInvalid (gatesHash : string) | TProvider | TError.

(** The Graph's Accepted and Ready conditions when they are current, and whether this
    controller rendered it. *)
Record GraphView := mkGraphView { gv_Accepted : option Condition; gv_Ready : option Condition; gv_current : bool }.

(** [in_flush]: what is left of the outbox when its records are written, and whether
    that went well.  [in_translate] is what the first translation of the reconcile answers,
    [in_translate2] a second one; [in_carried] whether upstream evidence is carried.
    [in_promoting]: how many other Bundles of the Pipeline are Promoting, read from the
    API server.  [in_gates]: the hash of the gates, empty when they cannot be read. *)
Record Inputs := mkInputs {
  in_now : Time;
  in_version : string;
  in_flush : list string → list string * bool;
  in_pipeline : read PipelineView;
  in_siblings : option (list Bundle);
  in_rejectedSet : list ImageRef * string;
  in_rejectSteps : bool;
  in_promoting : option Z;
  in_nsDeleting : bool;
  in_gates : string;
  in_translate : translate_result;
  in_translate2 : translate_result;
  in_carried : bool;
  in_evidence : bool;
  in_graph : read GraphView;
  in_keepTargets : bool;
  in_steps : option (list Step);
  in_gateInstances : option (list (string * Z));
  in_start : Time;
  in_live : option (string → bool)
}.

(** ** Writes *)

Inductive beffect := PatchStatus (s : BStatus) | DeleteSelf | DeleteBundles (names : list string) | BuildGraph | FlushAudit.

Record boutcome := mkBOut { b_effects : list beffect; b_result : result }.

Definition done (r : result) : boutcome := mkBOut [] r.

(** The status after a sequence of writes; a deleted Bundle keeps the last one. *)
Definition apply_beffect (s : BStatus) (e : beffect) : BStatus := match e with PatchStatus s => s | _ => s end.

(** The Bundle as its siblings see it. *)
Definition self (b : Bundle) (s : BStatus) : Bundle :=
  Rollback.mkBundle (b_Name b) (b_Pipeline b) (b_Artifacts b) (b_Rejected b) (Phase s) (RejectedSet s) (b_RollbackLabel b) (b_Actor b)
    (b_CreatedBy b) (b_RollbackOf b) (b_RollbackFrom b) (b_RollbackFromAnnotation b) (b_Target b) (b_Created b) (b_CreatedAt b).

(** ** Superseding siblings *)

Definition HoldNaming (t : Time) (holds : list EnvironmentHold) (bundle : string) : bool :=
  negb (bool_decide (bundle = "")) && existsb (λ h, bool_decide (hd_Bundle h = bundle) && negb (Expired t h)) holds.

Definition TargetRollback (p : option PipelineView) (b : Bundle) : string :=
  match p with
  | None => ""
  | Some p =>
      if b_RollbackLabel b && pv_fleets p && negb (bool_decide (b_Target b = "")) && negb (bool_decide (pv_fleetOf p (b_Target b) = ""))
      then b_Target b else ""
  end.

(** Whether the sibling [x] supersedes [b] (in [env], or anywhere for the empty string). *)
Definition supersedes (p : option PipelineView) (b : Bundle) (rejected : RejectedArtifacts) (countVerified : bool) (env : string) (x : Bundle) : bool :=
  let t := TargetRollback p x in
  negb (bool_decide (b_Name x = b_Name b)) && bool_decide (b_Pipeline x = b_Pipeline b) &&
  bool_decide (Type_ (b_Artifacts x) = Type_ (b_Artifacts b)) && negb (Rejected x) && bool_decide (Carries rejected x = None) &&
  (bool_decide (t = "") || (if bool_decide (env = "") then bool_decide (t = TargetRollback p b) else bool_decide (t = env))) &&
  negb (bool_decide (b_Phase x ∈ [phaseSuperseded; phaseFailed; phaseRejected])) &&
  (negb (bool_decide (b_Phase x = phaseVerified)) || countVerified) && created_before b x.

Definition SupersedingSiblings (t : Time) (p : option PipelineView) (b : Bundle) (siblings : list Bundle) (rejected : RejectedArtifacts)
    (countVerified : bool) (env : string) : list Bundle :=
  if match p with Some p => HoldNaming t (pv_holds p) (b_Name b) | None => false end then []
  else List.filter (supersedes p b rejected countVerified env) siblings.

Definition pipeline_of (i : Inputs) : option PipelineView := match in_pipeline i with Got p => Some p | _ => None end.

(** [newerSiblings]: whether there is one, and whether one is Promoting or Verified. *)
Definition newerSiblings (i : Inputs) (b : Bundle) (countVerified : bool) : option (bool * bool) :=
  match in_siblings i with
  | None => None
  | Some siblings =>
      let l := SupersedingSiblings (in_now i) (pipeline_of i) b siblings (RejectedArtifactsOf siblings (b_Pipeline b)) countVerified "" in
      Some (negb (bool_decide (l = [])),
            existsb (λ x, bool_decide (b_Phase x = phasePromoting) || bool_decide (b_Phase x = phaseVerified)) l)
  end.

Definition hasNewerSibling (i : Inputs) (b : Bundle) (countVerified : bool) : option bool := fst <$> newerSiblings i b countVerified.

(** ** Handlers *)

Definition patch (s : BStatus) (r : result) : boutcome := mkBOut [PatchStatus s] r.

Definition markSuperseded (i : Inputs) (s : BStatus) : boutcome := patch (supersede (in_now i) s) Stop.

(** [flushAudit]: the writes, the status, and whether every record was written. *)
Definition flushAudit (i : Inputs) (s : BStatus) : list beffect * BStatus * bool :=
  if bool_decide (PendingAudit s = []) then ([], s, true)
  else
    let '(remaining, ok) := in_flush i (PendingAudit s) in
    if bool_decide (length remaining = length (PendingAudit s)) then ([FlushAudit], s, ok)
    else ([FlushAudit; PatchStatus (set_Rejection (RejectedSet s) remaining s)], set_Rejection (RejectedSet s) remaining s, ok).

Definition markRejected (i : Inputs) (b : Bundle) (s : BStatus) : boutcome :=
  match in_siblings i with
  | None => done Error_
  | Some _ =>
      if negb (in_rejectSteps i) then done Error_
      else
        let from := Phase s in
        let audit := if bool_decide (from = phaseRejected) then PendingAudit s else PendingAudit s ++ [b_Name b +:+ "-rejected"] in
        let s := setBundleCondition condRejected CTrue "Rejected" "" (setBundleCondition condReady CFalse "Rejected" ""
                   (setPhase phaseRejected (in_now i) (set_Rejection (Some (in_rejectedSet i)) audit s))) in
        if bool_decide (from = phaseRejected) then patch s Stop
        else
          let '(effs, _, ok) := flushAudit i s in
          mkBOut (PatchStatus s :: effs) (if ok : bool then Stop else RequeueAfter auditRetryDelay)
  end.

Definition rejectedArtifactOf (i : Inputs) (b : Bundle) : option string :=
  match in_siblings i with
  | None => None
  | Some siblings => Some (default "" (Carries (rejectedArtifactsOf siblings (b_Pipeline b) true) b))
  end.

Definition markRejectedArtifact (i : Inputs) (from : string) (s : BStatus) : boutcome :=
  patch (setBundleCondition condRejected CTrue "RejectedArtifact" from (setBundleCondition condReady CFalse "RejectedArtifact" from
           (setPhase phaseRejected (in_now i) s))) Stop.

Definition markPipelineNotFound (i : Inputs) (s : BStatus) : boutcome :=
  if in_nsDeleting i then done Stop
  else if condition_changes condReady CFalse "PipelineNotFound" "" s
  then patch (setBundleCondition condReady CFalse "PipelineNotFound" "" s) (RequeueAfter requeueSlow)
  else done (RequeueAfter requeueSlow).

(** [setInvalid]: [build] is the hash of the gates for an error that wraps
    graph.ErrInvalid, [None] for any other. *)
Definition invalid_reason (p : PipelineView) (build : option string) : string :=
  match pv_order p with
  | Some true => "CircularDependency"
  | Some false => "InvalidPipeline"
  | None => match build with Some _ => "GraphBuildFailed" | None => "InvalidIntent" end
  end.

Definition setInvalid (p : PipelineView) (build : option string) (now : Time) (s : BStatus) : BStatus :=
  let reason := invalid_reason p build in
  setBundleCondition condInvalidSpec CTrue reason "" (setBundleCondition condReady CFalse "Failed" reason
    (set_Graph (GraphRef s) (pv_hash p) (default "" build) (setPhase phaseFailed now s))).

Definition markInvalid (i : Inputs) (p : PipelineView) (build : option string) (s : BStatus) : boutcome :=
  patch (setInvalid p build (in_now i) s) Stop.

Definition handleAvailable (i : Inputs) (b : Bundle) (s : BStatus) : boutcome :=
  match in_pipeline i with
  | Missing => markPipelineNotFound i s
  | ReadError => done Error_
  | Got p =>
      match pv_promoted p with
      | inl wraps => markInvalid i p (if wraps then Some "" else None) s
      | inr _ =>
          match (if 0 <? pv_max p then in_promoting i else Some (-1)) with
          | None => done Error_
          | Some active =>
              if (0 <? pv_max p) && (pv_max p <=? active) then
                if condition_changes condReady CFalse "WaitingForSlot" (slotMessage (pv_max p)) s
                then patch (setBundleCondition condReady CFalse "WaitingForSlot" (slotMessage (pv_max p)) s) (RequeueAfter requeueSlow)
                else done (RequeueAfter requeueSlow)
              else if negb (in_evidence i) then done Error_
              else match in_translate i with
                   | TSkip => done Stop
                   | TInvalid h => markInvalid i p (Some h) s
                   | TProvider =>
                       if condition_changes condReady CFalse "TranslationError" "" s
                       then patch (setBundleCondition condReady CFalse "TranslationError" "" s) (RequeueAfter providerRefRetry)
                       else done (RequeueAfter providerRefRetry)
                   | TError =>
                       if condition_changes condReady CFalse "TranslationError" "" s
                       then patch (setBundleCondition condReady CFalse "TranslationError" "" s) Error_
                       else done Error_
                   | TName name =>
                       mkBOut [BuildGraph; PatchStatus (setBundleCondition condReady CFalse "Promoting" "promotion in progress"
                         (set_Graph name (pv_hash p) (in_gates i) (setPhase phasePromoting (in_now i) s)))] Stop
                   end
          end
      end
  end.

(** [gatesChanged]: the current hash, and whether it differs from the stored one. *)
Definition gatesChanged (i : Inputs) (s : BStatus) : string * bool :=
  let invalid := cond_is condInvalidSpec CTrue s in
  if (invalid && bool_decide (PolicyGatesHash s = "")) || (negb invalid && negb (bool_decide (Phase s = phasePromoting))) then ("", false)
  else
    let h := in_gates i in
    (h, negb (bool_decide (h = "")) && negb (bool_decide (PolicyGatesHash s = "")) && negb (bool_decide (h = PolicyGatesHash s))).

Definition retryIfPipelineChanged (i : Inputs) (b : Bundle) (s : BStatus) : boutcome :=
  match pipeline_of i with
  | None => done Stop
  | Some p =>
      if bool_decide (PipelineSpecHash s = "") || bool_decide (pv_hash p = "") then done Stop
      else if bool_decide (pv_hash p = PipelineSpecHash s) && negb (gatesChanged i s).2 then done Stop
      else match hasNewerSibling i b true with
           | None => done Error_
           | Some true => markSuperseded i s
           | Some false =>
               patch (setBundleCondition condReady CFalse "Available" "retrying" (removeCondition CondBundleWaitingForSlot
                 (removeCondition condFailed (removeCondition condInvalidSpec (set_Graph (GraphRef s) "" ""
                   (set_Version (in_version i) (setPhase phaseAvailable (in_now i) s))))))) (RequeueAfter (500 * millisecond))
           end
  end.

(** ** The Graph *)

Inductive sync_error := SInvalid (gatesHash : string) | SDeleted | SOther.

(** The writes, the status in memory, and the error. *)
Record sync := mkSync { sy_effects : list beffect; sy_status : BStatus; sy_error : option sync_error }.

Definition invalid_or_other (t : translate_result) : sync_error := match t with TInvalid h => SInvalid h | _ => SOther end.

(** [ensurePipelineSpecCurrent]; the boolean is whether the sync goes on. *)
Definition ensurePipelineSpecCurrent (i : Inputs) (p : PipelineView) (s : BStatus) : sync * bool :=
  if bool_decide (pv_hash p = "") then (mkSync [] s None, true)
  else if bool_decide (PipelineSpecHash s = "") then (mkSync [] (set_Graph (GraphRef s) (pv_hash p) (PolicyGatesHash s) s) None, true)
  else
    let pipelineChanged := negb (bool_decide (pv_hash p = PipelineSpecHash s)) in
    let '(gatesHash, changed) := gatesChanged i s in
    if negb pipelineChanged && negb changed then
      (mkSync [] (if bool_decide (PolicyGatesHash s = "") && negb (bool_decide (gatesHash = ""))
                  then set_Graph (GraphRef s) (PipelineSpecHash s) gatesHash s else s) None, true)
    else if negb (in_keepTargets i) then (mkSync [] s (Some SOther), false)
    else match in_translate i with
         | TName _ => (mkSync [BuildGraph] (removeCondition condInvalidSpec (set_Graph (GraphRef s) (pv_hash p) (in_gates i) s)) None, true)
         | TSkip => (mkSync [] s None, false)
         | t => (mkSync [] s (Some (if negb pipelineChanged && negb (cond_is condInvalidSpec CTrue s) then SOther else invalid_or_other t)), false)
         end.

Definition mirror (typ : string) (c : option Condition) (s : BStatus) : BStatus :=
  match c with
  | Some c => setBundleCondition typ (c_Status c) (if bool_decide (c_Reason c = "") then "Unknown" else c_Reason c) (c_Message c) s
  | None => s
  end.

Definition mirrorGraphConditions (g : GraphView) (s : BStatus) : BStatus :=
  mirror condGraphReady (gv_Ready g) (mirror condGraphAccepted (gv_Accepted g) s).

Definition syncGraph (i : Inputs) (p : PipelineView) (s : BStatus) : sync :=
  let '(y, go) := ensurePipelineSpecCurrent i p s in
  if negb go then y
  else
    let s := sy_status y in
    match in_graph i with
    | ReadError => y
    | Missing =>
        if failedPromoting s then mkSync (sy_effects y) s (Some SDeleted)
        else match in_translate2 i with
             | TName name => mkSync (sy_effects y ++ [BuildGraph]) (removeCondition condInvalidSpec (set_Graph name (PipelineSpecHash s) (in_gates i) s)) None
             | TSkip => y
             | t => mkSync (sy_effects y) s (Some (invalid_or_other t))
             end
    | Got g =>
        if bool_decide (Phase s = phasePromoting) && negb (gv_current g) then
          match in_translate2 i with
          | TName _ => mkSync (sy_effects y ++ [BuildGraph]) (set_Graph (GraphRef s) (PipelineSpecHash s) (in_gates i) s) None
          | TSkip => y
          | t => mkSync (sy_effects y) s (Some (invalid_or_other t))
          end
        else mkSync (sy_effects y) (mirrorGraphConditions g s) None
    end.

Definition refreshGraphConditions (i : Inputs) (s : BStatus) : BStatus :=
  if cond_is condGraphReady CTrue s then s
  else match in_graph i with Got g => mirrorGraphConditions g s | _ => s end.

(** ** The phase from the steps *)

(** The condition GraphSynced, and InvalidSpec for a Graph that cannot be built. *)
Definition sync_condition (i : Inputs) (p : option PipelineView) (e : option sync_error) (s : BStatus) : BStatus :=
  match e with
  | Some SDeleted => setBundleCondition condGraphSynced CFalse "GraphDeleted" "" s
  | Some (SInvalid h) =>
      match p with
      | Some p => setBundleCondition condGraphSynced CFalse "InvalidSpec" "" (setInvalid p (Some h) (in_now i) s)
      | None => s
      end
  | Some SOther => setBundleCondition condGraphSynced CFalse "UpdateFailed" "" s
  | None =>
      if cond_is condGraphSynced CFalse s && negb (cond_is condInvalidSpec CTrue s)
      then setBundleCondition condGraphSynced CTrue "Synced" "graph is current" s else s
  end.

(** A Promoting Bundle: [None] when the gates could not be read. *)
Definition promoting_phase (i : Inputs) (b : Bundle) (p : option PipelineView) (steps : list Step) (s : BStatus) : option BStatus :=
  let failedEnv := firstFailedEnvironment (Environments s) steps in
  if bool_decide (is_Some failedEnv) || bool_decide (is_Some (graphRejected s)) then
    let '(reason, msg) := failureCause failedEnv (from_option c_Message "" (graphRejected s)) steps in
    Some (setBundleCondition condFailed CTrue reason msg (setBundleCondition condReady CFalse "Failed" ("promotion failed: " +:+ msg) (setPhase phaseFailed (in_now i) s)))
  else match supersededStep steps with
       | Some x => Some (setBundleCondition condReady CFalse "Superseded" ("environment " +:+ ps_Environment x +:+ ": " +:+ ps_Message x) (supersede (in_now i) s))
       | None =>
           match p with
           | None => Some s
           | Some p =>
               let promoted := match pv_promoted p with inr l => Some l | inl _ => None end in
               let fleet := supersededFleet (pv_fleetOf p) promoted steps in
               if negb (bool_decide (fleet = "")) then Some (setBundleCondition condReady CFalse "Superseded" ("every target of fleet " +:+ fleet +:+ " was deployed by a newer bundle")
                       (supersede (in_now i) s))
               else
                 let expected := filter (λ e, e ∉ supersededTargets steps) (default [] promoted) in
                 if bool_decide (is_Some promoted) && allVerified (Environments s) expected then
                   let s := setPhase phaseVerified (in_now i) s in
                   match Metrics s, in_gateInstances i with
                   | None, None => None
                   | None, Some gates =>
                       Some (setBundleCondition condReady CTrue "Verified" "all environments verified"
                         (set_Metrics (Some (computeBundleMetrics (b_Name b) (in_start i) (Environments s) expected steps gates)) s))
                   | Some _, _ => Some (setBundleCondition condReady CTrue "Verified" "all environments verified" s)
                   end
                 else Some s
           end
       end.

(** [slotTaken]. *)
Definition slotTaken (i : Inputs) (p : option PipelineView) (s : BStatus) : option bool :=
  match p with
  | None => Some false
  | Some p =>
      if (pv_max p <=? 0) || bool_decide (GraphRef s = "") then Some false
      else match in_promoting i with Some active => Some (pv_max p <=? active) | None => None end
  end.

(** A Failed Bundle: [None] when the slots could not be counted.  [before] is the
    status the reconcile read. *)
Definition failed_phase (i : Inputs) (b : Bundle) (p : option PipelineView) (e : option sync_error) (steps : list Step) (before s : BStatus) : option BStatus :=
  let failedEnv := firstFailedEnvironment (Environments s) steps in
  let rejected := graphRejected s in
  let stepsObserved := negb (bool_decide (steps = [])) || negb (failedPromoting before) in
  match newerSiblings i b true with
  | None => Some s
  | Some (newer, replaced) =>
      if newer && bool_decide (is_Some failedEnv) && bool_decide (rejected = None) && onlyRollingBack steps
      then Some (supersede (in_now i) s)
      else
        match (if replaced : bool then Some false else slotTaken i p s) with
        | None => None
        | Some held =>
            let limit := from_option pv_max 0 p in
            let s := setSlotHold held limit s in
            if bool_decide (failedEnv = None) && bool_decide (rejected = None) && negb (match e with Some SDeleted => true | _ => false end) &&
               stepsObserved && negb (cond_is condInvalidSpec CTrue s)
            then if newer then Some (supersede (in_now i) s)
                 else if held then Some (setBundleCondition condReady CFalse "WaitingForSlot" (slotMessage limit) s)
                 else Some (setBundleCondition condFailed CFalse "Recovered" "no environment is failing"
                        (setBundleCondition condReady CFalse "Promoting" "promotion in progress" (setPhase phasePromoting (in_now i) s)))
            else Some s
        end
  end.

Definition soakRequeue (i : Inputs) (s : BStatus) : result :=
  if negb (bool_decide (Phase s = phasePromoting)) then Stop
  else if existsb (λ e, bool_decide (is_Some (es_HealthCheckedAt e))) (Environments s) || in_carried i then RequeueAfter minute else Stop.

Definition handleSyncEvidence (i : Inputs) (b : Bundle) (p : option PipelineView) (effs : list beffect) (e : option sync_error) (before s : BStatus) : boutcome :=
  match in_steps i with
  | None => mkBOut effs Error_
  | Some steps =>
      let order := match p with Some p => match pv_promoted p with inr l => l | inl _ => [] end | None => [] end in
      let s := sync_condition i p e (set_Environments (environmentStatuses order (Environments s) steps (in_now i)) s) in
      match (if bool_decide (Phase s = phasePromoting) then promoting_phase i b p steps s
             else if bool_decide (Phase s = phaseFailed) then failed_phase i b p e steps before s
             else Some s) with
      | None => mkBOut effs Error_
      | Some s =>
          let res := match e with Some SOther => RequeueAfter requeueSlow | _ => soakRequeue i s end in
          if bool_decide (before = s) then mkBOut effs res else mkBOut (effs ++ [PatchStatus s]) res
      end
  end.

Definition is_active (s : BStatus) : bool := negb (bool_decide (Phase s ∈ [phaseVerified; phaseSuperseded; phaseRejected])).

(** [handleBound] from the read of the Pipeline on. *)
Definition bound_with (i : Inputs) (b : Bundle) (p : option PipelineView) (s : BStatus) : boutcome :=
  if Retired s then done Stop
  else if bool_decide (Phase s = phaseFailed) && bool_decide (GraphRef s = "") then retryIfPipelineChanged i b s
  else
    let y := match p with
             | Some p' => if is_active s then syncGraph i p' s
                          else if bool_decide (Phase s = phaseVerified) then mkSync [] (refreshGraphConditions i s) None else mkSync [] s None
             | None => if negb (is_active s) && bool_decide (Phase s = phaseVerified) then mkSync [] (refreshGraphConditions i s) None else mkSync [] s None
             end in
    handleSyncEvidence i b p (sy_effects y) (sy_error y) s (sy_status y).

Definition handleBound (i : Inputs) (b : Bundle) (s : BStatus) : boutcome :=
  if bool_decide (Phase s = phasePromoting) && bool_decide (hasNewerSibling i b false = Some true) then markSuperseded i s
  else match in_pipeline i with
       | Got p => bound_with i b (Some p) s
       | ReadError => bound_with i b None s
       | Missing =>
           if negb (bool_decide (GraphRef s = "")) || negb (bool_decide (PipelineSpecHash s = "")) then mkBOut [DeleteSelf] Stop
           else if is_active s then markPipelineNotFound i s
           else bound_with i b None s
       end.

(** ** The history limit *)

(** Whether [o] deploys an artifact of [held]. *)
Definition shares_artifact (held o : Bundle) : bool :=
  let a := b_Artifacts held in
  let oa := b_Artifacts o in
  existsb (λ img, bool_decide (img ∈ Images a)) (Images oa) ||
  match ConfigRef_ a, ConfigRef_ oa with
  | Some c, Some oc => negb (bool_decide (CommitSHA c = "")) && bool_decide (c = oc)
  | _, _ => false
  end ||
  match Chart a, Chart oa with Some c, Some oc => bool_decide (c = oc) | _, _ => false end.

(** The Bundles that holds keep. *)
Definition heldHistory (t : Time) (holds : list EnvironmentHold) (bundles : list Bundle) (name : string) : bool :=
  existsb (λ held, HoldNaming t holds (b_Name held) &&
    (bool_decide (name = b_Name held) ||
     (negb (bool_decide (b_RollbackOf held = "")) && bool_decide (name = b_RollbackOf held)) ||
     existsb (λ o, bool_decide (b_Name o = name) && shares_artifact held o) bundles)) bundles.

Definition is_terminal (t : Time) (holds : list EnvironmentHold) (bundles : list Bundle) (x : Bundle) : bool :=
  negb (heldHistory t holds bundles (b_Name x)) && negb (b_Rejected x) &&
  bool_decide (b_Phase x ∈ [phaseVerified; phaseFailed; phaseSuperseded; phaseRejected]).

(** [withoutLiveCarriers]: [live] says whether a change of the Bundle is live; [None]
    when the steps could not be listed. *)
Definition withoutLiveCarriers (live : option (string → bool)) (terminal : list Bundle) : option (list Bundle) :=
  if existsb (λ x, bool_decide (b_Phase x = phaseRejected)) terminal then
    match live with
    | None => None
    | Some live => Some (List.filter (λ x, negb (bool_decide (b_Phase x = phaseRejected) && live (b_Name x))) terminal)
    end
  else Some terminal.

(** The Bundles that are deleted, oldest first. *)
Definition enforceHistoryLimit (t : Time) (p : PipelineView) (bundles : list Bundle) (live : option (string → bool)) : list Bundle :=
  let limit := Z.to_nat (if pv_historyLimit p <=? 0 then defaultHistoryLimit else pv_historyLimit p) in
  let terminal := List.filter (is_terminal t (pv_holds p) bundles) bundles in
  if (length terminal <=? limit)%nat then []
  else match withoutLiveCarriers live terminal with
       | None => []
       | Some terminal => take (length terminal - limit) (sort_by created_before terminal)
       end.

Definition handleNew (i : Inputs) (b : Bundle) (s : BStatus) : boutcome :=
  let gone := if bool_decide (b_Pipeline b = "") then []
              else match in_pipeline i, in_siblings i with
                   | Got p, Some bundles => b_Name <$> enforceHistoryLimit (in_now i) p bundles (in_live i)
                   | _, _ => []
                   end in
  mkBOut ((if bool_decide (gone = []) then [] else [DeleteBundles gone]) ++
          [PatchStatus (setBundleCondition condReady CFalse "Available" "bundle received; awaiting promotion"
            (set_Version (in_version i) (setPhase phaseAvailable (in_now i) s)))]) (RequeueAfter (500 * millisecond)).

(** ** One reconcile *)

Definition with_effects (l : list beffect) (o : boutcome) : boutcome := mkBOut (l ++ b_effects o) (b_result o).

(** From the check of the rejection on. *)
Definition by_phase (i : Inputs) (b : Bundle) (s : BStatus) : boutcome :=
  if b_Rejected b && (negb (bool_decide (Phase s = phaseRejected)) || bool_decide (RejectedSet s = None)) then markRejected i b s
  else
    let carried := if inFlightOrFailed (Phase s) then default "" (rejectedArtifactOf i (self b s)) else "" in
    if negb (bool_decide (carried = "")) then markRejectedArtifact i carried s
    else if bool_decide (Phase s = "") then handleNew i b s
    else if bool_decide (Phase s = phaseAvailable) then
      if bool_decide (hasNewerSibling i b false = Some true) then markSuperseded i s else handleAvailable i b s
    else handleBound i b s.

Definition reconcile (i : Inputs) (b : Bundle) (s : BStatus) : boutcome :=
  let '(effs, s, ok) := flushAudit i s in
  if negb ok then mkBOut effs (RequeueAfter auditRetryDelay)
  else
    let stale := negb (bool_decide (Phase s = "")) && negb (bool_decide (Version s = in_version i)) && inFlightOrFailed (Phase s) in
    let s' := if stale then set_Version (in_version i) s else s in
    with_effects (effs ++ if stale then [PatchStatus s'] else []) (by_phase i b s').

(** The statuses a reconcile can leave behind: it stops after any of its writes. *)
Definition leaves (i : Inputs) (b : Bundle) (s s' : BStatus) : Prop :=
  ∃ k, s' = foldl apply_beffect s (take k (b_effects (reconcile i b s))).

(** ** The state machine *)

Definition phase_edges : list (string * string) :=
  [("", phaseAvailable);
   (phaseAvailable, phasePromoting); (phaseAvailable, phaseFailed); (phaseAvailable, phaseSuperseded);
   (phasePromoting, phaseFailed); (phasePromoting, phaseVerified); (phasePromoting, phaseSuperseded);
   (phaseFailed, phasePromoting); (phaseFailed, phaseAvailable); (phaseFailed, phaseSuperseded)].

(** The edges between phases; [rejected] is whether the Bundle itself is rejected. *)
Definition edge (rejected : bool) (a b : string) : bool :=
  bool_decide (a = b) || bool_decide ((a, b) ∈ phase_edges) || (bool_decide (b = phaseRejected) && (rejected || inFlightOrFailed a)).

Definition writes (o : boutcome) : list BStatus := omap (λ e, match e with PatchStatus s => Some s | _ => None end) (b_effects o).

Lemma foldl_writes l : ∀ s r, foldl apply_beffect s l = s ∨ foldl apply_beffect s l ∈ writes (mkBOut l r).
Proof.
  induction l as [|e l IH]; intros s r; [by left|]. unfold writes in *. simpl. destruct (IH (apply_beffect s e) r) as [E|E].
  - rewrite E. destruct e; simpl; try (by left). right. by left.
  - right. destruct e; simpl; try done. by right.
Qed.

Lemma bundle_leaves_cases i b s s' : leaves i b s s' → s' = s ∨ s' ∈ writes (reconcile i b s).
Proof.
  intros [k ->]. set (l := b_effects (reconcile i b s)). destruct (foldl_writes (take k l) s Stop) as [E|E]; [by left|right].
  unfold writes in *. fold l. rewrite <- (take_drop k l) at 2. rewrite omap_app. apply elem_of_app. by left.
Qed.

Lemma Phase_cond typ st r m s : Phase (setBundleCondition typ st r m s) = Phase s.
Proof. done. Qed.

Lemma Phase_remove typ s : Phase (removeCondition typ s) = Phase s.
Proof. done. Qed.

Lemma Phase_setPhase ph t s : Phase (setPhase ph t s) = ph.
Proof. done. Qed.

Lemma Phase_supersede t s : Phase (supersede t s) = phaseSuperseded.
Proof. done. Qed.

(** What the sync of the Graph leaves alone. *)
Definition synced (s s' : BStatus) : Prop := Phase s' = Phase s ∧ Environments s' = Environments s ∧ Metrics s' = Metrics s ∧ Retired s' = Retired s.

Lemma synced_refl s : synced s s.
Proof. done. Qed.

Lemma synced_trans s1 s2 s3 : synced s1 s2 → synced s2 s3 → synced s1 s3.
Proof. intros (? & ? & ? & ?) (? & ? & ? & ?). unfold synced. split_and!; congruence. Qed.

Lemma mirror_synced g s : synced s (mirrorGraphConditions g s).
Proof. unfold mirrorGraphConditions, mirror. by repeat case_match. Qed.

Lemma ensure_synced i p s : synced s (sy_status (ensurePipelineSpecCurrent i p s).1) ∧ Forall (λ e, e = BuildGraph) (sy_effects (ensurePipelineSpecCurrent i p s).1).
Proof.
  unfold ensurePipelineSpecCurrent. repeat case_bool_decide; simpl; try (by repeat constructor); destruct (gatesChanged i s) as [h c]; destruct c; simpl.
  all: repeat (case_match; simpl); by repeat constructor.
Qed.

Lemma syncGraph_synced i p s : synced s (sy_status (syncGraph i p s)) ∧ Forall (λ e, e = BuildGraph) (sy_effects (syncGraph i p s)).
Proof.
  unfold syncGraph. destruct (ensure_synced i p s) as [H1 H2]. destruct (ensurePipelineSpecCurrent i p s) as [y go]. simpl in *.
  destruct go; simpl; [|done]. destruct (in_graph i) as [g| |]; [|destruct (failedPromoting _)|]; try done.
  - destruct (_ && _); [|split; [|done]; apply (synced_trans _ _ _ H1), mirror_synced].
    destruct (in_translate2 i); simpl; try done. split; [done|]. apply Forall_app; split; [done|by repeat constructor].
  - destruct (in_translate2 i); simpl; try done. split; [done|]. apply Forall_app; split; [done|by repeat constructor].
Qed.

(** The phases a handler can write. *)
Lemma promoting_phase_phase i b p steps s s' :
  promoting_phase i b p steps s = Some s' → Phase s' ∈ [Phase s; phaseFailed; phaseVerified; phaseSuperseded].
Proof.
  unfold promoting_phase. destruct (_ || _).
  { destruct (failureCause _ _ _). intros [= <-]. simpl. set_solver. }
  destruct (supersededStep steps); [intros [= <-]; simpl; set_solver|]. destruct p as [p|]; [|intros [= <-]; set_solver].
  destruct (negb _); [intros [= <-]; simpl; set_solver|].
  destruct (_ && _); [|intros [= <-]; set_solver]. destruct (Metrics _), (in_gateInstances i); intros [= <-]; simpl; set_solver.
Qed.

Lemma failed_phase_phase i b p e steps before s s' :
  failed_phase i b p e steps before s = Some s' →
  Phase s' = Phase s ∨ Phase s' = phaseSuperseded ∨
  (Phase s' = phasePromoting ∧ cond_is condInvalidSpec CTrue s = false ∧
   ∃ replaced, newerSiblings i b true = Some (false, replaced) ∧ (replaced = false → slotTaken i p s = Some false)).
Proof.
  unfold failed_phase. destruct (newerSiblings i b true) as [[newer replaced]|] eqn:En; [|intros [= <-]; by left].
  destruct (newer && _ && _ && _); [intros [= <-]; right; by left|].
  destruct (if replaced then _ else _) as [held|] eqn:Eh; [|done].
  destruct (_ && negb (cond_is _ _ _)) eqn:Ec; [|intros [= <-]; left; by destruct held].
  destruct newer; [intros [= <-]; right; by left|]. destruct held; [intros [= <-]; by left|].
  intros [= <-]. right. right. split_and!; [done| |].
  - apply andb_true_iff in Ec as [_ Ec]. apply negb_true_iff in Ec. simpl in Ec. unfold cond_is in *. simpl in Ec.
    by rewrite lookup_delete_ne in Ec.
  - exists replaced. split; [done|]. by intros ->.
Qed.

Lemma sync_condition_phase i p e s :
  (Phase (sync_condition i p e s) = Phase s ∧ Environments (sync_condition i p e s) = Environments s ∧ GraphRef (sync_condition i p e s) = GraphRef s) ∧
  (e = None → Conditions (sync_condition i p e s) !! condGraphAccepted = Conditions s !! condGraphAccepted) ∨
  (∃ h, e = Some (SInvalid h) ∧ Phase (sync_condition i p e s) = phaseFailed ∧ Environments (sync_condition i p e s) = Environments s ∧
     GraphRef (sync_condition i p e s) = GraphRef s ∧ cond_is condInvalidSpec CTrue (sync_condition i p e s) = true).
Proof.
  destruct e as [[h| |]|]; simpl.
  - destruct p as [p|]; [right|by left]. exists h. split_and!; try done. unfold cond_is. simpl.
    rewrite lookup_insert_ne by done. by rewrite lookup_insert_eq, bool_decide_true.
  - by left.
  - by left.
  - left. destruct (_ && _); [|done]. split; [done|]. intros _. simpl. by rewrite lookup_insert_ne.
Qed.

Lemma writes_build effs r : Forall (λ e, e = BuildGraph) effs → writes (mkBOut effs r) = [].
Proof. unfold writes. simpl. induction 1 as [|e l -> _ IH]; [done|]. apply IH. Qed.

Lemma sync_evidence_write i b p effs e before s s' :
  Forall (λ e, e = BuildGraph) effs → s' ∈ writes (handleSyncEvidence i b p effs e before s) →
  ∃ steps, in_steps i = Some steps ∧
    let order := match p with Some p => match pv_promoted p with inr l => l | inl _ => [] end | None => [] end in
    let s1 := sync_condition i p e (set_Environments (environmentStatuses order (Environments s) steps (in_now i)) s) in
    (if bool_decide (Phase s1 = phasePromoting) then promoting_phase i b p steps s1
     else if bool_decide (Phase s1 = phaseFailed) then failed_phase i b p e steps before s1 else Some s1) = Some s'.
Proof.
  intros He Hin. unfold handleSyncEvidence in Hin.
  destruct (in_steps i) as [steps|]; [|by rewrite (writes_build _ _ He) in Hin; apply elem_of_nil in Hin].
  exists steps. split; [done|]. cbv zeta in *. revert Hin.
  match goal with |- context [writes match ?x with _ => _ end] => destruct x as [s2|] end; [|rewrite (writes_build _ _ He); by intros ?%elem_of_nil].
  intros Hin. f_equal. revert Hin. case_bool_decide; [rewrite (writes_build _ _ He); by intros ?%elem_of_nil|].
  unfold writes. simpl. rewrite omap_app. intros [Hin|Hin]%elem_of_app.
  - change (s' ∈ writes (mkBOut effs Stop)) in Hin. rewrite (writes_build _ _ He) in Hin. by apply elem_of_nil in Hin.
  - simpl in Hin. by apply list_elem_of_singleton in Hin.
Qed.

Lemma refresh_synced i s : synced s (refreshGraphConditions i s).
Proof. unfold refreshGraphConditions. destruct (cond_is _ _ _), (in_graph i); try apply synced_refl. apply mirror_synced. Qed.

(** The sync of a bound Bundle. *)
Lemma bound_sync i p s :
  let y := match p with
           | Some p' => if is_active s then syncGraph i p' s
                        else if bool_decide (Phase s = phaseVerified) then mkSync [] (refreshGraphConditions i s) None else mkSync [] s None
           | None => if negb (is_active s) && bool_decide (Phase s = phaseVerified) then mkSync [] (refreshGraphConditions i s) None else mkSync [] s None
           end in
  synced s (sy_status y) ∧ Forall (λ e, e = BuildGraph) (sy_effects y) ∧ (is_active s = false → sy_error y = None).
Proof.
  cbv zeta. pose proof (refresh_synced i s). destruct p as [pv|].
  - destruct (is_active s); [by destruct (syncGraph_synced i pv s)|]. by destruct (bool_decide _).
  - by destruct (_ && _).
Qed.

Definition known_phase (s : BStatus) : Prop :=
  Phase s ∈ [""; phaseAvailable; phasePromoting; phaseVerified; phaseFailed; phaseSuperseded; phaseRejected].

Lemma patch_write s r s' : s' ∈ writes (patch s r) ↔ s' = s.
Proof. unfold writes. simpl. by rewrite list_elem_of_singleton. Qed.

Lemma no_write r s' : s' ∉ writes (done r).
Proof. apply not_elem_of_nil. Qed.

Lemma retry_write i b s s' : s' ∈ writes (retryIfPipelineChanged i b s) → Phase s' = phaseSuperseded ∨ Phase s' = phaseAvailable.
Proof.
  unfold retryIfPipelineChanged. destruct (pipeline_of i) as [pv|]; [|by intros ?%no_write].
  destruct (_ || _); [by intros ?%no_write|]. destruct (_ && _); [by intros ?%no_write|].
  destruct (hasNewerSibling i b true) as [[]|]; [..|by intros ?%no_write]; unfold markSuperseded; rewrite patch_write; intros ->; [by left|by right].
Qed.

Lemma bound_with_edge i b p s s' :
  known_phase s → Phase s ≠ "" → Phase s ≠ phaseAvailable → s' ∈ writes (bound_with i b p s) → edge (b_Rejected b) (Phase s) (Phase s') = true ∧ known_phase s'.
Proof.
  intros Hk H0 Ha. unfold bound_with. destruct (Retired s); [by intros ?%elem_of_nil|].
  destruct (bool_decide (Phase s = phaseFailed) && bool_decide (GraphRef s = "")) eqn:Ef.
  { apply andb_true_iff in Ef as [Ef _]. bools. unfold known_phase. rewrite Ef. intros [-> | ->]%retry_write; (split; [done|set_solver]). }
  set (y := match p with Some _ => _ | None => _ end). destruct (bound_sync i p s) as (Hs & He & Her). fold y in Hs, He, Her.
  clearbody y. intros (steps & _ & Hw)%sync_evidence_write; [|done]. cbv zeta in Hw. revert Hw.
  set (s1 := sync_condition i p (sy_error y) _). intros Hw.
  assert (Phase s1 = Phase s ∨ (is_active s = true ∧ Phase s1 = phaseFailed ∧ cond_is condInvalidSpec CTrue s1 = true)) as Hp1.
  { destruct (sync_condition_phase i p (sy_error y) (set_Environments (environmentStatuses (match p with Some p => match pv_promoted p with inr l => l | inl _ => [] end | None => [] end)
      (Environments (sy_status y)) steps (in_now i)) (sy_status y))) as [((E & _) & _)|(h & Eh & E & _ & _ & Ei)]; fold s1 in E.
    - left. rewrite E. simpl. apply Hs.
    - right. split_and!; [|done|done]. destruct (is_active s); [done|]. by rewrite Her in Eh. }
  unfold known_phase in *. destruct Hp1 as [Hp1|(Hact & Hp1 & Hinv)].
  - rewrite Hp1 in Hw. destruct (decide (Phase s = phasePromoting)) as [Ep|Ep].
    + rewrite bool_decide_true in Hw by done. apply promoting_phase_phase in Hw. rewrite Hp1, Ep in Hw. rewrite Ep.
      split; [|set_solver]. rewrite !elem_of_cons, elem_of_nil in Hw. destruct Hw as [->|[->|[->|[->|[]]]]]; done.
    + rewrite bool_decide_false in Hw by done. case_bool_decide as Ef'.
      * apply failed_phase_phase in Hw as [E|[E|(E & _)]]; rewrite E; rewrite ?Hp1, Ef'; (split; [done|set_solver]).
      * injection Hw as <-. rewrite Hp1. split; [|done]. unfold edge. by rewrite bool_decide_true.
  - rewrite Hp1 in Hw. rewrite bool_decide_false, bool_decide_true in Hw by done.
    assert (Phase s ∈ [phasePromoting; phaseFailed]) as Hk'.
    { unfold is_active in Hact. bools. set_solver. }
    apply failed_phase_phase in Hw as [E|[E|(_ & E & _)]]; [..|congruence]; rewrite E, ?Hp1; (split; [|set_solver]);
      rewrite !elem_of_cons, elem_of_nil in Hk'; destruct Hk' as [->|[->|[]]]; done.
Qed.

Lemma edge_refl r a : edge r a a = true.
Proof. unfold edge. by rewrite bool_decide_true. Qed.

(** No edge leaves Rejected, and none but the rejection leaves Verified and Superseded. *)
Lemma edge_terminal r a b : edge r a b = true → a ∈ [phaseVerified; phaseSuperseded; phaseRejected] → b = a ∨ b = phaseRejected ∧ r = true.
Proof.
  intros He Ha. assert (inFlightOrFailed a = false ∧ Forall (λ ab, ab.1 ≠ a) phase_edges) as [Hf Hn].
  { rewrite !elem_of_cons, elem_of_nil in Ha. destruct Ha as [->|[->|[->|[]]]]; (split; [done|repeat constructor; done]). }
  unfold edge in He. rewrite Hf, orb_false_r in He. apply orb_true_iff in He as [He|He]; [|bools; by right].
  apply orb_true_iff in He as [He|He]; bools; [by left|]. rewrite Forall_forall in Hn. by destruct (Hn _ He).
Qed.

Lemma edge_rejected r a : r = true ∨ inFlightOrFailed a = true → edge r a phaseRejected = true.
Proof. unfold edge. intros H. apply orb_true_iff. right. rewrite bool_decide_true by done. apply orb_true_iff. tauto. Qed.

Lemma writes_with l o : writes (with_effects l o) = writes (mkBOut l Stop) ++ writes o.
Proof. unfold writes, with_effects. simpl. apply omap_app. Qed.

(** The writes of the outbox change nothing but the outbox. *)
Lemma flush_writes i s :
  (∀ s', s' ∈ writes (mkBOut (flushAudit i s).1.1 Stop) → s' = set_Rejection (RejectedSet s) (PendingAudit s') s) ∧
  (flushAudit i s).1.2 = set_Rejection (RejectedSet s) (PendingAudit (flushAudit i s).1.2) s.
Proof.
  unfold flushAudit. assert (s = set_Rejection (RejectedSet s) (PendingAudit s) s) as E by (by destruct s).
  case_bool_decide; simpl; [split; [by intros ? ?%elem_of_nil|done]|]. destruct (in_flush i (PendingAudit s)) as [rem ok].
  case_bool_decide; simpl; (split; [|done]).
  - by intros ? ?%elem_of_nil.
  - intros s' ->%list_elem_of_singleton. done.
Qed.

Lemma notfound_write i s s' : s' ∈ writes (markPipelineNotFound i s) → Phase s' = Phase s.
Proof.
  unfold markPipelineNotFound. destruct (in_nsDeleting i); [by intros ?%no_write|].
  destruct (condition_changes _ _ _ _ _); [rewrite patch_write; by intros ->|by intros ?%no_write].
Qed.

Lemma available_write i b s s' :
  s' ∈ writes (handleAvailable i b s) →
  Phase s' = Phase s ∨ Phase s' = phaseFailed ∨
  (Phase s' = phasePromoting ∧ ∃ p, in_pipeline i = Got p ∧ (0 < pv_max p → ∃ n, in_promoting i = Some n ∧ n < pv_max p)).
Proof.
  unfold handleAvailable, markInvalid. destruct (in_pipeline i) as [p| |] eqn:Ep; [|intros ?%notfound_write; by left|by intros ?%no_write].
  destruct (pv_promoted p) as [w|l]; [rewrite patch_write; intros ->; auto|].
  destruct (if 0 <? pv_max p then _ else _) as [active|] eqn:Ea; [|by intros ?%no_write].
  destruct ((0 <? pv_max p) && _) eqn:Ecap.
  { destruct (condition_changes _ _ _ _ _); [rewrite patch_write; intros ->; auto|by intros ?%no_write]. }
  destruct (in_evidence i); simpl; [|by intros ?%no_write]. destruct (in_translate i) as [name| |h| |].
  - unfold writes. simpl. intros ->%list_elem_of_singleton. right. right. split; [done|]. exists p. split; [done|]. intros Hp.
    rewrite (proj2 (Z.ltb_lt 0 (pv_max p)) Hp) in *. simpl in Ecap. exists active. split; [done|]. lia.
  - by intros ?%no_write.
  - rewrite patch_write; intros ->; auto.
  - destruct (condition_changes _ _ _ _ _); [rewrite patch_write; intros ->; auto|by intros ?%no_write].
  - destruct (condition_changes _ _ _ _ _); [rewrite patch_write; intros ->; auto|by intros ?%no_write].
Qed.

Lemma new_write i b s s' : s' ∈ writes (handleNew i b s) → Phase s' = phaseAvailable.
Proof.
  unfold handleNew, writes. cbv zeta. cbn [b_effects]. rewrite omap_app. intros [Hin|Hin]%elem_of_app.
  - revert Hin. case_match; simpl; by intros ?%elem_of_nil.
  - by apply list_elem_of_singleton in Hin as ->.
Qed.

Lemma bound_edge i b s s' :
  known_phase s → Phase s ≠ "" → Phase s ≠ phaseAvailable → s' ∈ writes (handleBound i b s) →
  edge (b_Rejected b) (Phase s) (Phase s') = true ∧ known_phase s'.
Proof.
  intros Hk H0 Ha. unfold handleBound. destruct (bool_decide (Phase s = phasePromoting) && _) eqn:E.
  { apply andb_true_iff in E as [E _]. bools. unfold markSuperseded. rewrite patch_write. intros ->.
    unfold known_phase. rewrite Phase_supersede, E. split; [done|set_solver]. }
  destruct (in_pipeline i) as [p| |]; [by apply bound_with_edge| |by apply bound_with_edge].
  destruct (_ || _); [by intros ?%elem_of_nil|]. destruct (is_active s) eqn:Eact; [|by apply bound_with_edge].
  intros Ew%notfound_write. unfold known_phase. rewrite Ew. split; [apply edge_refl|done].
Qed.

Lemma rejected_write i b s s' : s' ∈ writes (markRejected i b s) → Phase s' = phaseRejected.
Proof.
  unfold markRejected. destruct (in_siblings i); [|by intros ?%no_write]. destruct (in_rejectSteps i); simpl; [|by intros ?%no_write].
  set (s1 := setBundleCondition _ _ _ _ _). case_bool_decide; [rewrite patch_write; by intros ->|].
  destruct (flush_writes i s1) as [Hf _]. destruct (flushAudit i s1) as [[effs s2] ok]. simpl in Hf. unfold writes. simpl.
  intros [->|Hin]%elem_of_cons; [done|]. by rewrite (Hf s' Hin).
Qed.

Lemma by_phase_edge i b s s' :
  known_phase s → s' ∈ writes (by_phase i b s) → edge (b_Rejected b) (Phase s) (Phase s') = true ∧ known_phase s'.
Proof.
  intros Hk. unfold by_phase. destruct (b_Rejected b && _) eqn:Er.
  { apply andb_true_iff in Er as [Er _]. intros Hr%rejected_write. unfold known_phase. rewrite Hr. split; [apply edge_rejected; auto|set_solver]. }
  destruct (negb (bool_decide (_ = ""))) eqn:Ec.
  { unfold markRejectedArtifact. rewrite patch_write. intros ->. unfold known_phase. simpl. split; [|set_solver]. apply edge_rejected. right.
    by destruct (inFlightOrFailed (Phase s)). }
  clear Er Ec. case_bool_decide as H0.
  { intros E%new_write. unfold known_phase. rewrite E, H0. split; [done|set_solver]. }
  case_bool_decide as Ha; [|by apply bound_edge]. case_bool_decide.
  { unfold markSuperseded. rewrite patch_write. intros ->. unfold known_phase. rewrite Phase_supersede, Ha. split; [done|set_solver]. }
  intros Hw%available_write. unfold known_phase in *. destruct Hw as [E|[E|[E _]]]; rewrite E, ?Ha; (split; [done|set_solver]).
Qed.

(** A write of a reconcile: of the outbox, of the controller's version, or of the
    handler of the phase, from a status that differs in these two only. *)
Lemma reconcile_write i b s s' :
  s' ∈ writes (reconcile i b s) →
  ∃ s1, Phase s1 = Phase s ∧ GraphRef s1 = GraphRef s ∧ Environments s1 = Environments s ∧ Conditions s1 = Conditions s ∧
    (s' = s1 ∨ s' ∈ writes (by_phase i b s1)).
Proof.
  unfold reconcile. destruct (flush_writes i s) as [Hf Hs]. destruct (flushAudit i s) as [[effs s1] ok]. simpl in Hf, Hs.
  destruct ok; simpl.
  - rewrite writes_with. intros [Hin|Hin]%elem_of_app.
    + unfold writes in Hin. cbn [b_effects] in Hin. rewrite omap_app in Hin. apply elem_of_app in Hin as [Hin|Hin].
      * exists s'. rewrite (Hf s' Hin). split_and!; auto.
      * revert Hin. destruct (_ && _ && _); [|by intros ?%elem_of_nil]. intros ->%list_elem_of_singleton.
        exists (set_Version (in_version i) s1). rewrite Hs. split_and!; auto.
    + eexists. split_and!; [..|by right]; destruct (_ && _ && _); by rewrite Hs.
  - intros Hin. exists s'. rewrite (Hf s' Hin). split_and!; auto.
Qed.

Lemma leaves_edge i b s s' : known_phase s → leaves i b s s' → edge (b_Rejected b) (Phase s) (Phase s') = true ∧ known_phase s'.
Proof.
  intros Hk [->|Hw]%bundle_leaves_cases; [split; [apply edge_refl|done]|].
  apply reconcile_write in Hw as (s1 & Ep & _ & _ & _ & [->|Hw]).
  - unfold known_phase. rewrite Ep. split; [apply edge_refl|done].
  - rewrite <- Ep. apply (by_phase_edge i b s1 s'); [|done]. unfold known_phase. by rewrite Ep.
Qed.

(** The statuses a Bundle reaches from its creation, its spec and what is read
    changing in any way between reconciles. *)
Inductive reachable : BStatus → Prop :=
| reachable_new s : Phase s = "" → reachable s
| reachable_step i b s s' : reachable s → leaves i b s s' → reachable s'.

Lemma reachable_known s : reachable s → known_phase s.
Proof.
  induction 1 as [s E|i b s s' _ IH Hl]; [unfold known_phase; rewrite E; by left|]. by apply (leaves_edge i b s s').
Qed.

(** C2. The life of a Bundle: whatever a reconcile of a Bundle reads, and wherever it
    stops, the phase it leaves is the one before or one the state machine allows, one
    of the seven the API names; a Rejected Bundle stays Rejected, and a Verified or a
    Superseded one changes only to Rejected, when it is itself rejected. *)
Theorem bundle_phases i b s s' :
  reachable s → leaves i b s s' →
  edge (b_Rejected b) (Phase s) (Phase s') = true ∧ known_phase s' ∧
  (Phase s = phaseRejected → Phase s' = phaseRejected) ∧
  (Phase s = phaseVerified ∨ Phase s = phaseSuperseded → Phase s' = Phase s ∨ (Phase s' = phaseRejected ∧ b_Rejected b = true)).
Proof.
  intros Hr Hl. destruct (leaves_edge i b s s') as [He Hk]; [by apply reachable_known|done|]. split_and!; try done.
  - intros E. rewrite E in He. apply edge_terminal in He as [?|[? _]]; [done..|set_solver].
  - intros Hp. apply edge_terminal in He; [done|set_solver].
Qed.

(** ** Verified *)

Lemma supersededFleet_none fleetOf l steps :
  supersededFleet fleetOf (Some l) steps = "" →
  ∀ e, e ∈ l → fleetOf e ≠ "" → ∃ e', e' ∈ l ∧ fleetOf e' = fleetOf e ∧ e' ∉ supersededTargets steps.
Proof.
  unfold supersededFleet. case_bool_decide as E; [rewrite E; intros _ e He _; exists e; split_and!; [done..|apply not_elem_of_nil]|].
  destruct (list_find _ _) as [[k f]|] eqn:Ef; simpl.
  { intros ->. by apply list_find_Some in Ef as (_ & [? _] & _). }
  intros _ e He Hf. apply list_find_None in Ef. rewrite Forall_forall in Ef.
  destruct (fleet_done fleetOf (supersededTargets steps) l (fleetOf e)) eqn:Ed.
  { destruct (Ef (fleetOf e)); [by apply list_elem_of_fmap_2|done]. }
  unfold fleet_done in Ed. apply not_true_iff_false in Ed. rewrite forallb_forall in Ed. setoid_rewrite <- list_elem_of_In in Ed.
  destruct (decide (Exists (λ e', fleetOf e' = fleetOf e ∧ e' ∉ supersededTargets steps) l)) as [(e' & ? & ? & ?)%Exists_exists|Hn].
  { by exists e'. }
  exfalso. apply Ed. intros x Hx. rewrite Exists_exists in Hn.
  destruct (decide (fleetOf x = fleetOf e)) as [Ex|Ex]; [|by rewrite (bool_decide_false _ Ex)].
  rewrite (bool_decide_true _ Ex). simpl. apply bool_decide_eq_true. destruct (decide (x ∈ supersededTargets steps)); [done|].
  destruct Hn. by exists x.
Qed.

Lemma supersededStep_none steps x : supersededStep steps = None → x ∈ steps → ps_State x = phaseSuperseded → ps_Fleet x ≠ "".
Proof.
  unfold supersededStep. destruct (list_find _ _) as [[k y]|] eqn:E; [done|]. intros _ Hx Hs Hf.
  apply list_find_None in E. rewrite Forall_forall in E. by apply (E x Hx).
Qed.

Lemma promoting_verified i b p steps s s' :
  promoting_phase i b p steps s = Some s' → Phase s ≠ phaseVerified → Phase s' = phaseVerified →
  firstFailedEnvironment (Environments s) steps = None ∧ graphRejected s' = None ∧ is_Some (Metrics s') ∧ supersededStep steps = None ∧
  ∃ p' l, p = Some p' ∧ pv_promoted p' = inr l ∧ supersededFleet (pv_fleetOf p') (Some l) steps = "" ∧
    allVerified (Environments s) (filter (λ e, e ∉ supersededTargets steps) l) = true.
Proof.
  unfold promoting_phase. destruct (_ || _) eqn:Ef.
  { destruct (failureCause _ _ _). by intros [= <-] _. }
  apply orb_false_iff in Ef as [Ef Eg]. bools. apply eq_None_not_Some in Ef, Eg. rewrite Ef.
  destruct (supersededStep steps); [by intros [= <-] _|]. destruct p as [p|]; [|by intros [= <-] ??].
  case_bool_decide as Hfl; simpl; [|by intros [= <-] _].
  destruct (pv_promoted p) as [w|l] eqn:El.
  { rewrite bool_decide_false by (by intros [? ?]). by intros [= <-] ??. }
  rewrite bool_decide_true by (by eexists). simpl. destruct (allVerified _ _) eqn:Ea; [|by intros [= <-] ??].
  intros Hs' _ _. split; [done|].
  assert (graphRejected s' = graphRejected s ∧ is_Some (Metrics s')) as [-> Hm].
  { revert Hs'. unfold graphRejected. destruct (Metrics s) as [m|] eqn:Em, (in_gateInstances i) as [g|]; intros [= <-]; simpl;
      rewrite lookup_insert_ne by done; rewrite ?Em; (split; [done|by eexists]). }
  split_and!; try done. exists p, l. by split_and!.
Qed.

(** A handler that writes Verified is the sync of a bound Bundle. *)
Lemma by_phase_verified i b s s' :
  s' ∈ writes (by_phase i b s) → Phase s' = phaseVerified → Phase s ≠ phaseVerified → s' ∈ writes (bound_with i b (pipeline_of i) s).
Proof.
  intros Hw Hv Hn. unfold by_phase in Hw. destruct (b_Rejected b && _).
  { apply rejected_write in Hw. by rewrite Hv in Hw. }
  destruct (negb _). { unfold markRejectedArtifact in Hw. rewrite patch_write in Hw. by subst. }
  revert Hw. case_bool_decide as H0.
  { intros E%new_write. by rewrite Hv in E. }
  case_bool_decide as Ha.
  { case_bool_decide; [unfold markSuperseded; rewrite patch_write; by intros ->|].
    intros [E|[E|[E _]]]%available_write; rewrite Hv in E; done. }
  unfold handleBound, pipeline_of. destruct (_ && _); [unfold markSuperseded; rewrite patch_write; by intros ->|].
  destruct (in_pipeline i) as [p| |]; try done. destruct (_ || _); [by intros ?%elem_of_nil|].
  destruct (is_active s); [|done]. intros E%notfound_write. congruence.
Qed.

(** What a Verified Bundle was verified by, in what a reconcile read and in the
    entries it had. *)
Definition verified_by (i : Inputs) (envs : list EnvironmentStatus) : Prop :=
  ∃ p l steps, in_pipeline i = Got p ∧ pv_promoted p = inr l ∧ in_steps i = Some steps ∧
    (∀ x, x ∈ steps → failedState (ps_State x) = false ∧ (ps_State x = phaseSuperseded → ps_Fleet x ≠ "")) ∧
    (∃ e, e ∈ l ∧ e ∉ supersededTargets steps) ∧
    (∀ e, e ∈ l → e ∈ supersededTargets steps ∨ env_verified envs steps e) ∧
    (∀ e, e ∈ l → pv_fleetOf p e ≠ "" → ∃ e', e' ∈ l ∧ pv_fleetOf p e' = pv_fleetOf p e ∧ e' ∉ supersededTargets steps).

Lemma bound_verified i b s s' :
  s' ∈ writes (bound_with i b (pipeline_of i) s) → Phase s' = phaseVerified → Phase s ≠ phaseVerified →
  Phase s = phasePromoting ∧ graphRejected s' = None ∧ is_Some (Metrics s') ∧ verified_by i (Environments s).
Proof.
  set (p := pipeline_of i). assert (∀ pv, p = Some pv → in_pipeline i = Got pv) as Hpv.
  { unfold p, pipeline_of. intros pv. destruct (in_pipeline i); [by intros [= ->]|done..]. }
  clearbody p. intros Hw Hv Hn. unfold bound_with in Hw. destruct (Retired s); [by apply no_write in Hw|].
  destruct (bool_decide (Phase s = phaseFailed) && _) eqn:Ef.
  { apply retry_write in Hw. rewrite Hv in Hw. by destruct Hw. }
  clear Ef. destruct (bound_sync i p s) as (Hs & He & _). revert Hw Hs He. set (y := match p with Some _ => _ | None => _ end). clearbody y.
  intros Hw (Hph & Henv & _) He. apply sync_evidence_write in Hw as (steps & Hsteps & Hw); [|done]. cbv zeta in Hw. revert Hw.
  set (order := match p with Some _ => _ | None => _ end). set (s0 := set_Environments _ _). set (s1 := sync_condition i p (sy_error y) s0).
  assert (Phase s1 = Phase s ∧ Environments s1 = Environments s0 ∨ Phase s1 = phaseFailed) as Hs1.
  { destruct (sync_condition_phase i p (sy_error y) s0) as [((E & E' & _) & _)|(h & _ & E & _)]; [left|by right].
    split; [|done]. by rewrite <- Hph. }
  case_bool_decide as Hp1.
  - destruct Hs1 as [[Ep Ee]|E]; [|by rewrite E in Hp1]. intros Hw.
    apply promoting_verified in Hw as (Hf & Hg & Hm & Hss & pv & l & -> & Hl & Hfl & Hall); [|by rewrite Hp1|done].
    rewrite Ee in Hf, Hall. unfold s0, order in Hf, Hall. rewrite Hl in Hf, Hall. cbn [Environments set_Environments] in Hf, Hall. rewrite Henv in *.
    split_and!; [congruence|done|done|]. exists pv, l, steps. apply allVerified_iff in Hall as [Hne Hall].
    split_and!; [by apply Hpv|done|done| | | |by apply supersededFleet_none].
    + intros x Hx. split; [|intros ?; by apply (supersededStep_none steps)]. destruct (failedState (ps_State x)) eqn:Ex; [|done].
      apply eq_None_not_Some in Hf. destruct Hf. apply firstFailedEnvironment_iff. by exists x.
    + destruct (filter (λ e, e ∉ supersededTargets steps) l) as [|e r] eqn:Er; [done|]. exists e.
      assert (e ∈ filter (λ e, e ∉ supersededTargets steps) l) as H by (rewrite Er; by left). by apply list_elem_of_filter in H as [? ?].
    + intros e Hel. destruct (decide (e ∈ supersededTargets steps)); [by left|right]. apply Hall, list_elem_of_filter. done.
  - case_bool_decide as Hp2.
    + intros [E|[E|(E & _)]]%failed_phase_phase; rewrite Hv in E; [by rewrite Hp2 in E|done..].
    + intros [= <-]. destruct Hs1 as [[E _]|E]; congruence.
Qed.

(** C3. A Bundle becomes Verified only from Promoting, and only when the reconcile that
    writes it has read the Pipeline, its promotion order and every step, and then: the Graph
    is not rejected, no step of the Bundle fails, none outside a fleet is superseded,
    every environment of the order is verified by all of its steps (or, when it has no
    step, by the entry kept from before) save the fleet targets a newer Bundle took
    over, at least one environment and one target of every fleet is not such a target,
    and the metrics are recorded in the same write. *)
Theorem bundle_verified_means i b s s' :
  leaves i b s s' → Phase s ≠ phaseVerified → Phase s' = phaseVerified →
  Phase s = phasePromoting ∧ graphRejected s' = None ∧ is_Some (Metrics s') ∧ verified_by i (Environments s).
Proof.
  intros [->|Hw]%bundle_leaves_cases Hn Hv; [done|]. apply reconcile_write in Hw as (s1 & Ep & _ & Ee & _ & [->|Hw]); [congruence|].
  rewrite <- Ep, <- Ee. apply (bound_verified i b s1 s'); [|done|congruence]. apply by_phase_verified; [done|done|congruence].
Qed.

(** ** The cap on concurrent promotions *)

Lemma ensure_graphref i p s : GraphRef (sy_status (ensurePipelineSpecCurrent i p s).1) = GraphRef s.
Proof.
  unfold ensurePipelineSpecCurrent. repeat case_bool_decide; simpl; try done; destruct (gatesChanged i s) as [h c]; destruct c; simpl.
  all: by repeat (case_match; simpl).
Qed.

Lemma sync_graphref i p s : GraphRef s ≠ "" → in_translate2 i ≠ TName "" → GraphRef (sy_status (syncGraph i p s)) ≠ "".
Proof.
  intros Hs Ht. unfold syncGraph. pose proof (ensure_graphref i p s) as E. destruct (ensurePipelineSpecCurrent i p s) as [y go]. simpl in E.
  rewrite <- E in Hs. destruct go; simpl; [|done]. destruct (in_graph i) as [g| |]; [|destruct (failedPromoting _)|]; try done.
  - destruct (_ && _); [by destruct (in_translate2 i)|]. simpl. unfold mirrorGraphConditions, mirror. by repeat case_match.
  - destruct (in_translate2 i); simpl; congruence.
Qed.

(** A newer sibling that replaced the Bundle is a newer sibling. *)
Lemma replaced_newer i b c replaced : newerSiblings i b c = Some (false, replaced) → replaced = false.
Proof.
  unfold newerSiblings. destruct (in_siblings i); [|done]. case_bool_decide as E; [|done]. intros [= <-]. by rewrite E.
Qed.

(** The lock's promise: the count a Bundle takes a slot by. *)
Definition slot_counted (i : Inputs) : Prop :=
  ∃ p, in_pipeline i = Got p ∧ (0 < pv_max p → ∃ n, in_promoting i = Some n ∧ n < pv_max p).

Lemma bound_promoting i b p s s' :
  s' ∈ writes (bound_with i b p s) → Phase s ≠ phasePromoting → Phase s' = phasePromoting → in_translate2 i ≠ TName "" →
  (p = None → is_active s = false) → (∀ pv, p = Some pv → in_pipeline i = Got pv) → slot_counted i.
Proof.
  intros Hw Hn Hv Ht Hnone Hpv. unfold bound_with in Hw. destruct (Retired s); [by apply no_write in Hw|].
  destruct (bool_decide (Phase s = phaseFailed) && _) eqn:Ef.
  { apply retry_write in Hw. rewrite Hv in Hw. by destruct Hw. }
  assert (Phase s = phaseFailed → GraphRef s ≠ "") as Hfg.
  { intros E. rewrite (bool_decide_true _ E) in Ef. simpl in Ef. by bools. }
  clear Ef. destruct (bound_sync i p s) as (Hs & He & Her). revert Hw Hs He Her. set (y := match p with Some _ => _ | None => _ end).
  assert (is_active s = true → GraphRef s ≠ "" → GraphRef (sy_status y) ≠ "") as Href.
  { intros Ha Hg. unfold y. rewrite Ha. destruct p as [pv|]; [by apply sync_graphref|]. by rewrite Hnone in Ha. }
  clearbody y. intros Hw (Hph & _) He Her. apply sync_evidence_write in Hw as (steps & _ & Hw); [|done]. cbv zeta in Hw. revert Hw.
  set (order := match p with Some _ => _ | None => _ end). set (s0 := set_Environments _ _). set (s1 := sync_condition i p (sy_error y) s0).
  pose proof (sync_condition_phase i p (sy_error y) s0) as Hs1. fold s1 in Hs1.
  case_bool_decide as Hp1.
  { destruct Hs1 as [((E & _) & _)|(h & _ & E & _)]; [|by rewrite E in Hp1]. rewrite E in Hp1. simpl in Hp1. congruence. }
  case_bool_decide as Hp2; [|intros [= <-]; done].
  intros [E|[E|(_ & Ei & replaced & Hnew & Hslot)]]%failed_phase_phase; [rewrite Hv in E; congruence|rewrite Hv in E; done|].
  destruct Hs1 as [((E & _ & Eg) & _)|(h & _ & _ & _ & _ & E)]; [|congruence].
  assert (Phase s = phaseFailed) as Hf by (rewrite <- Hph; rewrite E in Hp2; exact Hp2).
  assert (is_active s = true) as Ha by (unfold is_active; by rewrite Hf).
  destruct p as [pv|]; [|by rewrite Hnone in Ha]. exists pv. split; [by apply Hpv|]. intros Hmax.
  pose proof (Hslot (replaced_newer _ _ _ _ Hnew)) as Hsl. unfold slotTaken in Hsl. rewrite bool_decide_false in Hsl by (rewrite Eg; auto).
  rewrite (proj2 (Z.leb_gt (pv_max pv) 0) Hmax) in Hsl. simpl in Hsl. destruct (in_promoting i) as [n|]; [|done].
  exists n. split; [done|]. injection Hsl. lia.
Qed.

Lemma takes_slot i b s s' :
  leaves i b s s' → Phase s ≠ phasePromoting → Phase s' = phasePromoting → in_pipeline i ≠ ReadError → in_translate2 i ≠ TName "" → slot_counted i.
Proof.
  intros [->|Hw]%bundle_leaves_cases Hn Hv Hrd Ht; [done|]. apply reconcile_write in Hw as (s1 & Ep & _ & _ & _ & [->|Hw]); [congruence|].
  rewrite <- Ep in Hn. clear s Ep. unfold by_phase in Hw. destruct (b_Rejected b && _).
  { apply rejected_write in Hw. by rewrite Hv in Hw. }
  destruct (negb _). { unfold markRejectedArtifact in Hw. rewrite patch_write in Hw. by subst. }
  revert Hw. case_bool_decide as H0.
  { intros E%new_write. by rewrite Hv in E. }
  case_bool_decide as Ha.
  { case_bool_decide; [unfold markSuperseded; rewrite patch_write; by intros ->|].
    intros [E|[E|[_ Hc]]]%available_write; [congruence|by rewrite Hv in E|exact Hc]. }
  unfold handleBound. destruct (_ && _); [unfold markSuperseded; rewrite patch_write; by intros ->|].
  destruct (in_pipeline i) as [p| |] eqn:Epi; [| |done].
  { intros Hw. apply (bound_promoting i b (Some p) s1 s'); [done..|]. by intros pv [= <-]. }
  destruct (_ || _); [by intros ?%elem_of_nil|]. destruct (is_active s1) eqn:Eact.
  - intros E%notfound_write. congruence.
  - intros Hw. by apply (bound_promoting i b None s1 s').
Qed.

(** The Bundles of one Pipeline, by name. *)
Definition promoting (w : gmap string BStatus) : Z := Z.of_nat (size (filter (λ kv : string * BStatus, Phase kv.2 = phasePromoting) w)).

(** One step of the cluster: a reconcile of one Bundle, from its stored status; a
    Bundle is created or deleted.  [countPromoting] counts under the Pipeline's lock,
    and the write that takes the slot is made under it: until then another Bundle may
    leave Promoting but none enters it, so the count is not below the number of the
    others.  The Pipeline was read, and its cap is [max]. *)
Inductive cluster_step (max : Z) : gmap string BStatus → gmap string BStatus → Prop :=
| cluster_reconcile w i b s s' :
    w !! b_Name b = Some s → leaves i b s s' →
    (∀ n, in_promoting i = Some n → promoting (delete (b_Name b) w) <= n) →
    in_pipeline i ≠ ReadError → (∀ p, in_pipeline i = Got p → pv_max p = max) → in_translate2 i ≠ TName "" →
    cluster_step max w (<[b_Name b := s']> w)
| cluster_create w name s : w !! name = None → Phase s = "" → cluster_step max w (<[name := s]> w)
| cluster_delete w name : cluster_step max w (delete name w).

Lemma promoting_insert w name s :
  promoting (<[name := s]> w) = promoting (delete name w) + if bool_decide (Phase s = phasePromoting) then 1 else 0.
Proof.
  unfold promoting. rewrite <- insert_delete_eq. rewrite map_filter_insert. simpl. case_bool_decide as E.
  - rewrite decide_True by done. rewrite map_size_insert_None by (apply map_lookup_filter_None_2; left; apply lookup_delete_eq). lia.
  - rewrite decide_False by done. rewrite delete_delete_eq. lia.
Qed.

Lemma promoting_delete w name : promoting (delete name w) <= promoting w.
Proof.
  destruct (w !! name) as [s|] eqn:E; [|by rewrite delete_id]. rewrite <- (insert_id w name s) at 2 by done.
  rewrite promoting_insert. case_bool_decide; lia.
Qed.

(** C4. The cap holds: from no Bundle, along any sequence of creations, deletions and
    reconciles in which the Pipeline can be read, at most maxConcurrentPromotions
    Bundles of the Pipeline are Promoting at any time, also when a Failed Bundle
    recovers and wherever a reconcile stops. *)
Theorem promoting_capped max w : 0 < max → rtc (cluster_step max) ∅ w → promoting w <= max.
Proof.
  intros Hmax. revert w. apply rtc_ind_r.
  { unfold promoting. rewrite map_filter_empty, map_size_empty. lia. }
  intros w w' _ [w0 i b s0 s' Hw Hl Hcnt Hrd Hpm Ht|w1 name s Hn Hs|w1 name] IH.
  - rewrite promoting_insert. case_bool_decide as Hs'.
    + destruct (decide (Phase s0 = phasePromoting)) as [Hs|Hs].
      * rewrite <- (insert_id w0 (b_Name b) s0), promoting_insert, bool_decide_true in IH by done. lia.
      * destruct (takes_slot i b s0 s') as (p & Hp & Hc); [done..|]. rewrite (Hpm p Hp) in Hc.
        destruct Hc as (n & Hn & Hlt); [done|]. specialize (Hcnt n Hn). lia.
    + pose proof (promoting_delete w0 (b_Name b)). lia.
  - rewrite promoting_insert, bool_decide_false by (by rewrite Hs). pose proof (promoting_delete w1 name). lia.
  - pose proof (promoting_delete w1 name). lia.
Qed.

(** ** The history limit, and rejections *)

Definition history_limit_of (p : PipelineView) : nat := Z.to_nat (if pv_historyLimit p <=? 0 then defaultHistoryLimit else pv_historyLimit p).

(** What the history limit may delete: finished Bundles, less the ones a hold keeps, the
    rejected ones, and a Rejected one whose change is live. *)
Definition prunable (t : Time) (p : PipelineView) (bundles : list Bundle) (live : string → bool) (x : Bundle) : bool :=
  is_terminal t (pv_holds p) bundles x && negb (bool_decide (b_Phase x = phaseRejected) && live (b_Name x)).

Lemma sorted_take_drop {A} (less : A → A → bool) `{!StrictWeak less} l k x y :
  sorted_by less l → x ∈ take k l → y ∈ drop k l → less y x = false.
Proof.
  unfold sorted_by. rewrite <- (take_drop k l) at 1. generalize (drop k l). induction (take k l) as [|z r IH]; intros d Hs Hx Hy; [by apply elem_of_nil in Hx|].
  simpl in Hs. apply StronglySorted_cons in Hs as [Hz Hs]. apply elem_of_cons in Hx as [->|Hx].
  - rewrite Forall_forall in Hz. apply Hz, elem_of_app. by right.
  - by apply (IH d).
Qed.

Lemma filter_filter_bool {A} (f g : A → bool) l : List.filter g (List.filter f l) = List.filter (λ x, f x && g x) l.
Proof. induction l as [|x l IH]; simpl; [done|]. destruct (f x); simpl; [|done]. by rewrite IH. Qed.

(** The removed and the kept, together, are what may be removed. *)
Lemma enforce_cases t p bundles live :
  enforceHistoryLimit t p bundles (Some live) = [] ∨
  let l := sort_by created_before (List.filter (prunable t p bundles live) bundles) in
  enforceHistoryLimit t p bundles (Some live) = take (length l - history_limit_of p) l.
Proof.
  unfold enforceHistoryLimit, withoutLiveCarriers. destruct (_ <=? _)%nat; [by left|right]. cbv zeta. fold (history_limit_of p).
  destruct (existsb _ _) eqn:E.
  - rewrite filter_filter_bool. unfold prunable. by rewrite sort_by_length.
  - assert (List.filter (prunable t p bundles live) bundles = List.filter (is_terminal t (pv_holds p) bundles) bundles) as ->; [|by rewrite sort_by_length].
    apply List.filter_ext_in. intros x Hx. unfold prunable. destruct (is_terminal t (pv_holds p) bundles x) eqn:Et; [|done]. simpl.
    rewrite bool_decide_false; [done|]. intros Ep. apply not_true_iff_false in E. apply E, existsb_exists. exists x.
    split; [|by apply bool_decide_eq_true]. apply filter_In. by split.
Qed.

(** The history limit, when the steps can be listed: it deletes only finished
    Bundles of the Pipeline that no live hold keeps, that nobody rejected, and that are
    not Rejected with their change still live; a Bundle it deletes was created no later
    than one it could have deleted and keeps; and when it deletes anything, it keeps as
    many of those as the limit says. *)
Theorem history_limit t p bundles live x :
  x ∈ enforceHistoryLimit t p bundles (Some live) →
  x ∈ bundles ∧ b_Rejected x = false ∧ b_Phase x ∈ [phaseVerified; phaseFailed; phaseSuperseded; phaseRejected] ∧
  heldHistory t (pv_holds p) bundles (b_Name x) = false ∧ (b_Phase x = phaseRejected → live (b_Name x) = false) ∧
  ∃ kept, enforceHistoryLimit t p bundles (Some live) ++ kept ≡ₚ List.filter (prunable t p bundles live) bundles ∧
    length kept = history_limit_of p ∧ ∀ y, y ∈ kept → created_before y x = false.
Proof.
  destruct (enforce_cases t p bundles live) as [->|E]; [by intros ?%elem_of_nil|]. cbv zeta in E. rewrite E.
  set (f := prunable t p bundles live). set (l := sort_by created_before (List.filter f bundles)). set (k := (length l - history_limit_of p)%nat).
  intros Hx. assert (l ≡ₚ List.filter f bundles) as Hp by apply sort_by_perm.
  assert (x ∈ bundles ∧ f x = true) as [Hxb Hfx].
  { rewrite list_elem_of_In, <- filter_In, <- list_elem_of_In, <- Hp, <- (take_drop k l). apply elem_of_app. by left. }
  unfold f, prunable, is_terminal in Hfx. bools. split_and!; try done.
  - intros Ep. match goal with H : bool_decide _ && _ = false |- _ => rewrite (bool_decide_true _ Ep) in H end. done.
  - exists (drop k l). split_and!; [by rewrite take_drop| |intros y Hy; apply (sorted_take_drop created_before l k); [apply sort_by_sorted, _|done..]].
    rewrite length_drop. assert (k ≠ 0%nat) by (intros E'; rewrite E' in Hx; by apply elem_of_nil in Hx). unfold k in *. lia.
Qed.

(** The outbox comes first: while a record of it cannot be written, no reconcile
    changes the phase, even for a rejection. *)
Theorem stuck_audit_blocks i b s s' :
  (flushAudit i s).2 = false → leaves i b s s' → Phase s' = Phase s ∧ Environments s' = Environments s ∧ Conditions s' = Conditions s.
Proof.
  intros Hf [->|Hw]%bundle_leaves_cases; [done|]. revert Hw. unfold reconcile. destruct (flush_writes i s) as [Hs _].
  destruct (flushAudit i s) as [[effs s1] ok]. simpl in *. subst ok. simpl. intros Hin. by rewrite (Hs s' Hin).
Qed.

(** A rejection takes effect in one reconcile, in any phase: once the outbox is
    written, the siblings are listed and the steps are rejected, a reconcile of a
    rejected Bundle that runs to its end leaves it Rejected. *)
Theorem rejection_wins i b s :
  b_Rejected b = true → (flushAudit i s).2 = true → in_siblings i ≠ None → in_rejectSteps i = true →
  Phase (foldl apply_beffect s (b_effects (reconcile i b s))) = phaseRejected.
Proof.
  intros Hr Hf Hsib Hst. assert (leaves i b s (foldl apply_beffect s (b_effects (reconcile i b s)))) as Hl.
  { exists (length (b_effects (reconcile i b s))). by rewrite firstn_all. }
  destruct (decide (Phase s = phaseRejected)) as [E|E].
  { assert (known_phase s) as Hk by (unfold known_phase; rewrite E; set_solver). destruct (leaves_edge i b s _ Hk Hl) as [He _]. rewrite E in He.
    apply edge_terminal in He as [?|[? _]]; [done..|set_solver]. }
  clear Hl. unfold reconcile. destruct (flush_writes i s) as [_ Hs]. destruct (flushAudit i s) as [[effs s1] ok]. simpl in *. subst ok. simpl.
  rewrite foldl_app. set (s2 := if (_ : bool) then set_Version _ _ else s1). set (s0 := foldl apply_beffect s _).
  assert (Phase s2 = Phase s) as Hp by (unfold s2; destruct (_ && _ && _); by rewrite Hs). clearbody s2 s0.
  unfold by_phase. rewrite Hr, Hp, (bool_decide_false _ E). simpl.
  unfold markRejected. destruct (in_siblings i); [|done]. rewrite Hst, Hp, (bool_decide_false _ E). simpl.
  set (s3 := setBundleCondition _ _ _ _ _). destruct (flush_writes i s3) as [Hf3 _]. destruct (flushAudit i s3) as [[effs3 s4] ok]. simpl in *.
  destruct (foldl_writes effs3 s3 Stop) as [->|Hw]; [done|]. by rewrite (Hf3 _ Hw).
Qed.

(** ** Witnesses *)

Definition demo_pipeline : PipelineView := mkPipelineView "h1" [] false (λ _, "") (inr ["test"]) None 1 1.

Definition demo_inputs (p : read PipelineView) (steps : list Step) : Inputs :=
  mkInputs 10 "v1" (λ _, ([], true)) p (Some []) ([], "") true (Some 0) false "g" (TName "app-v1") (TName "app-v1") false true Missing true
    (Some steps) (Some []) 0 (Some (λ _, false)).

Definition demo_status (phase graph : string) : BStatus := mkBStatus phase None "v1" [] ∅ graph "h1" "g" None None [] false.

Definition demo_step (state : string) : Step := mkStep "s" "test" state "" "" "" "" (Some 5) 0.

Definition demo_after (i : Inputs) (b : Bundle) (s : BStatus) : BStatus := foldl apply_beffect s (b_effects (reconcile i b s)).

Lemma demo_leaves i b s : leaves i b s (demo_after i b s).
Proof. exists (length (b_effects (reconcile i b s))). by rewrite firstn_all. Qed.

Lemma bundle_phases_witness :
  let i := demo_inputs (Got demo_pipeline) [] in
  edge false "" (Phase (demo_after i demo_v1 (demo_status "" ""))) = true ∧ Phase (demo_after i demo_v1 (demo_status "" "")) = phaseAvailable.
Proof.
  split; [|vm_compute; reflexivity].
  apply (bundle_phases (demo_inputs (Got demo_pipeline) []) demo_v1 (demo_status "" "")); [by apply reachable_new|apply demo_leaves].
Defined.

Lemma bundle_verified_means_witness :
  let i := demo_inputs (Got demo_pipeline) [demo_step "Verified"] in
  Phase (demo_after i demo_v1 (demo_status phasePromoting "app-v1")) = phaseVerified ∧ verified_by i [].
Proof.
  assert (Phase (demo_after (demo_inputs (Got demo_pipeline) [demo_step "Verified"]) demo_v1 (demo_status phasePromoting "app-v1")) = phaseVerified) as E
    by (vm_compute; reflexivity).
  split; [exact E|].
  refine (proj2 (proj2 (proj2 (bundle_verified_means _ demo_v1 (demo_status phasePromoting "app-v1") _ (demo_leaves _ _ _) _ E)))). discriminate.
Defined.

Lemma promoting_capped_witness :
  let i := demo_inputs (Got demo_pipeline) [] in
  let s1 := demo_status "" "" in
  let s2 := demo_after i demo_v1 s1 in
  let s3 := demo_after i demo_v1 s2 in
  Phase s3 = phasePromoting ∧ promoting {[ "v1" := s3 ]} <= 1.
Proof.
  cbv zeta. split; [vm_compute; reflexivity|]. apply promoting_capped; [lia|].
  set (i := demo_inputs (Got demo_pipeline) []). set (s1 := demo_status "" "").
  assert (∀ s s', leaves i demo_v1 s s' → cluster_step 1 {[ "v1" := s ]} {[ "v1" := s' ]}) as Hstep.
  { intros s s' Hl. pose proof (cluster_reconcile 1 {[ "v1" := s ]} i demo_v1 s s') as H.
    change (b_Name demo_v1) with "v1" in H. rewrite insert_singleton_eq in H. apply H; try done.
    - intros n [= <-]. rewrite delete_singleton_eq. done.
    - by intros p [= <-]. }
  apply (rtc_l _ _ {[ "v1" := s1 ]}); [by apply cluster_create|].
  apply (rtc_l _ _ {[ "v1" := demo_after i demo_v1 s1 ]}); [apply Hstep, demo_leaves|]. apply rtc_once, Hstep, demo_leaves.
Defined.

Definition demo_verified (name : string) (created : Time) : Bundle :=
  Rollback.mkBundle name "app" (mkArtifacts "image" [] None None) false phaseVerified None false None "" "" "" "" "" created None.

Lemma history_limit_witness :
  let l := [demo_verified "b" 2; demo_verified "a" 1] in
  enforceHistoryLimit 0 demo_pipeline l (Some (λ _, false)) = [demo_verified "a" 1] ∧ created_before (demo_verified "b" 2) (demo_verified "a" 1) = false.
Proof.
  split; [vm_compute; reflexivity|].
  destruct (history_limit 0 demo_pipeline [demo_verified "b" 2; demo_verified "a" 1] (λ _, false) (demo_verified "a" 1))
    as (_ & _ & _ & _ & _ & kept & Hp & _ & Hk); [vm_compute; left|].
  apply Hk. assert (demo_verified "b" 2 ∈ [demo_verified "a" 1] ++ kept) as H.
  { change [demo_verified "a" 1] with (enforceHistoryLimit 0 demo_pipeline [demo_verified "b" 2; demo_verified "a" 1] (Some (λ _, false))).
    rewrite Hp. left. }
  apply elem_of_cons in H as [H|H]; [discriminate H|exact H].
Defined.

Definition demo_rejected : Bundle :=
  Rollback.mkBundle "v1" "app" (mkArtifacts "image" [] None None) true "" None false None "" "" "" "" "" 0 None.

Lemma rejection_wins_witness : Phase (demo_after (demo_inputs ReadError []) demo_rejected (demo_status phaseVerified "app-v1")) = phaseRejected.
Proof. apply (rejection_wins (demo_inputs ReadError []) demo_rejected (demo_status phaseVerified "app-v1")); [reflexivity..|discriminate|reflexivity]. Defined.

(** A Failed Bundle recovers past the cap: the Pipeline of the cap could not be read,
    another Bundle of it is Promoting and fills the cap of one, and no environment of
    this one fails any more. *)
Theorem recovery_past_cap :
  let i := demo_inputs ReadError [demo_step "WaitingForMerge"] in
  let i := mkInputs (in_now i) (in_version i) (in_flush i) (in_pipeline i) (in_siblings i) (in_rejectedSet i) (in_rejectSteps i) (Some 1)
    (in_nsDeleting i) (in_gates i) (in_translate i) (in_translate2 i) (in_carried i) (in_evidence i) (in_graph i) (in_keepTargets i) (in_steps i)
    (in_gateInstances i) (in_start i) (in_live i) in
  pv_max demo_pipeline = 1 ∧ Phase (demo_after i demo_v1 (demo_status phaseFailed "app-v1")) = phasePromoting.
Proof. split; vm_compute; reflexivity. Qed.
End BundlePhase.
