(* ===== verification/Override.v ===== *)
(** * Override: forcing a gate open

    Model of src/pkg/reconciler/policygate/overrides.go and of OverrideRecord and
    PolicyGateOverride (src/api/v1alpha1/policygate_types.go): a person may override a
    PolicyGate for a while.  The controller records each override it sees, once, and
    an override counts from that record on, for a bounded time.  The SHA-256 of a key,
    cut to 12 hex digits, and the text of a time are parameters.  [Gate] reads the
    active override. *)

From stdpp Require Import base gmap strings list.
From Stdlib Require Import Lia ZArith.
From S2P Require Import Prelude Actor Outbox Transition.
Import Actor.Actor Outbox.Outbox.

Open Scope Z_scope.

Module Override.

Record PolicyGateOverride := mkOverride {
  o_Reason : string;
  o_Stage : string;
  o_ExpiresAt : Time;
  o_CreatedAt : option Time;
  o_CreatedBy : string;
  o_Actor : option Actor
}.

Record OverrideRecord := mkRecord { r_Key : string; r_FirstSeen : Time; r_Verified : bool; r_Audited : bool }.

Definition overrideClockSkew : Duration := 300 * second.
Definition maxOverrideRecords : nat := 200.
Definition DefaultMaxOverride : Duration := 24 * 3600 * second.
Definition AuditActionGateOverridden : string := "GateOverridden".

Definition maxOverride (configured : Duration) : Duration := if 0 <? configured then configured else DefaultMaxOverride.

Definition nul : string := String (Ascii.ascii_of_nat 0) "".

#[export] Instance PolicyGateOverride_eq_dec : EqDecision PolicyGateOverride.
Proof. solve_decision. Defined.

(** What the condition OverrideIgnored names. *)
Inductive ignored := TooMany (o : PolicyGateOverride) | ByAgent (o : PolicyGateOverride) | FutureDated (o : PolicyGateOverride).

#[export] Instance ignored_eq_dec : EqDecision ignored.
Proof. solve_decision. Defined.

(** What of a gate the records need: its name and its labels pipeline, bundle and
    environment. *)
Record GateMeta := mkGateMeta { gm_Name : string; gm_Pipeline : string; gm_Bundle : string; gm_Environment : string }.

(** The part of a gate's status that overrides read and write. *)
Record OStatus := mkOStatus {
  Overrides : list OverrideRecord;
  OverridesVerifiedSince : option Time;
  Ignored : option (list ignored);
  Pending : list Entry
}.

Section overrides.
(** The hash of a key, and RFC3339 with and without nanoseconds. *)
Variable hash12 : string → string.
Variable FormatNano : Time → string.
Variable Format : Time → string.
Variable Validate : Entry → bool.
Variable coalescers : gmap string (Entry → Entry → option Entry).

Definition overrideKey (o : PolicyGateOverride) : string :=
  let created := match o_CreatedAt o with Some t => FormatNano t | None => "" end in
  hash12 (o_CreatedBy o +:+ nul +:+ created +:+ nul +:+ o_Stage o +:+ nul +:+ FormatNano (o_ExpiresAt o) +:+ nul +:+ o_Reason o).

Definition overrideRecords (l : list OverrideRecord) : gmap string OverrideRecord := foldl (λ m r, <[r_Key r := r]> m) ∅ l.

Definition futureDated (o : PolicyGateOverride) (firstSeen : Time) : bool :=
  match o_CreatedAt o with Some t => firstSeen + overrideClockSkew <? t | None => false end.

Definition overrideEnd (o : PolicyGateOverride) (firstSeen : Time) (max : Duration) : Time :=
  let capEnd := firstSeen + max in
  if (0 <? max) && (capEnd <? o_ExpiresAt o) then capEnd else o_ExpiresAt o.

Definition agentOverride (o : PolicyGateOverride) : bool :=
  match o_Actor o with Some a => bool_decide (Kind a = ActorAgent) | None => false end.

Record activeOverride := mkActive { ac_override : PolicyGateOverride; ac_record : OverrideRecord; ac_end : Time }.

(** The loop of [findActiveOverride]. *)
Fixpoint find_active (records : gmap string OverrideRecord) (envName : string) (now : Time) (max : Duration) (l : list PolicyGateOverride) :
    option activeOverride :=
  match l with
  | [] => None
  | o :: l =>
      match records !! overrideKey o with
      | None => find_active records envName now max l
      | Some rec =>
          if (o_ExpiresAt o =? zeroTime) || futureDated o (r_FirstSeen rec) then find_active records envName now max l
          else if agentOverride o then find_active records envName now max l
          else
            let end_ := overrideEnd o (r_FirstSeen rec) max in
            if negb (now <? end_) then find_active records envName now max l
            else if bool_decide (o_Stage o = "") || bool_decide (o_Stage o = envName) then Some (mkActive o rec end_)
            else find_active records envName now max l
      end
  end.

Definition findActiveOverride (s : OStatus) (spec : list PolicyGateOverride) (envName : string) (now : Time) (max : Duration) : option activeOverride :=
  find_active (overrideRecords (Overrides s)) envName now max spec.

(** [activeOverride.reason]; its time has minutes ([FormatMinute]). *)
Definition reason (FormatMinute : Time → string) (a : activeOverride) : string :=
  let by_ := o_CreatedBy (ac_override a) +:+ (if r_Verified (ac_record a) then "" else " (unverified)") in
  "OVERRIDDEN by " +:+ by_ +:+ ": " +:+ o_Reason (ac_override a) +:+ " (expires " +:+ FormatMinute (ac_end a) +:+ ")".

(** ** Recording *)

Record rec_state := mkRec { rs_records : gmap string OverrideRecord; rs_next : list OverrideRecord; rs_ignored : list ignored }.

Definition noted (o : PolicyGateOverride) (rec : OverrideRecord) : list ignored :=
  (if agentOverride o then [ByAgent o] else []) ++ (if futureDated o (r_FirstSeen rec) then [FutureDated o] else []).

(** One turn of the loop of [recordOverrides]. *)
Definition record_step (now : Time) (verified : bool) (st : rec_state) (o : PolicyGateOverride) : rec_state :=
  let key := overrideKey o in
  match rs_records st !! key with
  | Some rec => mkRec (rs_records st) (rs_next st) (rs_ignored st ++ noted o rec)
  | None =>
      if (maxOverrideRecords <=? length (rs_next st))%nat then mkRec (rs_records st) (rs_next st) (rs_ignored st ++ [TooMany o])
      else
        let rec := mkRecord key now verified false in
        mkRec (<[key := rec]> (rs_records st)) (rs_next st ++ [rec]) (rs_ignored st ++ noted o rec)
  end.

Definition record_loop (now : Time) (verified : bool) (spec : list PolicyGateOverride) (recs : list OverrideRecord) : rec_state :=
  foldl (record_step now verified) (mkRec (overrideRecords recs) recs []) spec.

Definition stampVerifiedSince (now : Time) (v : option Time) : option Time := match v with Some t => Some t | None => Some now end.

(** [overrideAuditEntry]. *)
Definition overrideAuditEntry (m : GateMeta) (max : Duration) (o : PolicyGateOverride) (rec : OverrideRecord) : option Entry :=
  if bool_decide (gm_Pipeline m = "") || bool_decide (gm_Bundle m = "") || bool_decide (gm_Environment m = "") then None
  else
    let end_ := overrideEnd o (r_FirstSeen rec) max in
    let stage := if bool_decide (o_Stage o = "") then "every stage" else o_Stage o in
    let by_ := if bool_decide (o_CreatedBy o = "") then "(unknown)" else o_CreatedBy o in
    let by_ := if r_Verified rec then match o_Actor o with Some a => Describe a | None => by_ end
               else by_ +:+ " (unverified: the identity admission policy did not check it)" in
    let '(outcome, msg) :=
      if agentOverride o
      then ("Failure", "override of gate " +:+ gm_Name m +:+ " by " +:+ by_ +:+ " not honoured: overrides by agents are not honoured: " +:+ o_Reason o)
      else ("Success", "gate " +:+ gm_Name m +:+ " overridden by " +:+ by_ +:+ " for " +:+ stage +:+ " until " +:+ Format end_ +:+ ": " +:+ o_Reason o) in
    let suffix := "-override-" +:+ r_Key rec in
    let limit := (253 - str_length suffix)%nat in
    let base := gm_Name m in
    let base := if (limit <? str_length base)%nat then String.substring 0 limit base else base in
    Some (mkEntry (Transition.Transition.sanitizeK8sName (base +:+ suffix)) AuditActionGateOverridden outcome 0 msg).

(** The loop of [auditRecordedOverrides]: the keys to mark and the entries. *)
Definition audit_step (m : GateMeta) (max : Duration) (records : gmap string OverrideRecord) (st : gset string * list Entry) (o : PolicyGateOverride) :
    gset string * list Entry :=
  let key := overrideKey o in
  match records !! key with
  | Some rec =>
      if r_Audited rec || bool_decide (key ∈ st.1) then st
      else ({[key]} ∪ st.1, st.2 ++ option_list (overrideAuditEntry m max o rec))
  | None => st
  end.

Definition audit_loop (m : GateMeta) (max : Duration) (spec : list PolicyGateOverride) (s : OStatus) : gset string * list Entry :=
  foldl (audit_step m max (overrideRecords (Overrides s))) (∅, []) spec.

Definition mark_audited (keys : gset string) (r : OverrideRecord) : OverrideRecord :=
  if bool_decide (r_Key r ∈ keys) then mkRecord (r_Key r) (r_FirstSeen r) (r_Verified r) true else r.

(** The status [auditRecordedOverrides] patches, if it does. *)
Definition auditRecordedOverrides (m : GateMeta) (max : Duration) (spec : list PolicyGateOverride) (s : OStatus) : option OStatus :=
  let '(keys, entries) := audit_loop m max spec s in
  if bool_decide (keys = ∅) then None
  else Some (mkOStatus (mark_audited keys <$> Overrides s) (OverridesVerifiedSince s) (Ignored s)
               (foldl (λ p e, (Enqueue Validate coalescers p e).1) (Pending s) entries)).

(** [recordOverrides]: the status patches it makes, in order.  [active]: the identity
    admission policy is bound; [lastEvaluatedAt]: when the gate was evaluated. *)
Definition record_patch (now : Time) (active : bool) (lastEvaluatedAt : option Time) (spec : list PolicyGateOverride) (s : OStatus) : option OStatus :=
  let verified := active && (bool_decide (is_Some (OverridesVerifiedSince s)) || bool_decide (lastEvaluatedAt = None)) in
  let st := record_loop now verified spec (Overrides s) in
  let condChanged := (negb (bool_decide (spec = [])) || bool_decide (is_Some (Ignored s))) && negb (bool_decide (Ignored s = Some (rs_ignored st))) in
  let stamp := bool_decide (OverridesVerifiedSince s = None) && bool_decide (is_Some lastEvaluatedAt) in
  if negb (length (rs_next st) =? length (Overrides s))%nat || condChanged || stamp
  then Some (mkOStatus (rs_next st) (stampVerifiedSince now (OverridesVerifiedSince s)) (if condChanged then Some (rs_ignored st) else Ignored s) (Pending s))
  else None.

Definition recordOverrides (m : GateMeta) (max : Duration) (now : Time) (active : bool) (lastEvaluatedAt : option Time) (spec : list PolicyGateOverride)
    (s : OStatus) : list OStatus :=
  let p1 := record_patch now active lastEvaluatedAt spec s in
  let s1 := default s p1 in
  option_list p1 ++ option_list (auditRecordedOverrides m max spec s1).

(** ** Histories *)

(** One reconcile: it records what it sees and stops after [ev_writes] of its patches;
    whatever else writes the status leaves the records alone. *)
Record event := mkEvent {
  ev_meta : GateMeta; ev_max : Duration; ev_now : Time; ev_active : bool; ev_evaluated : option Time; ev_spec : list PolicyGateOverride; ev_writes : nat
}.

Definition run_event (s : OStatus) (e : event) : OStatus :=
  default s (last (take (ev_writes e) (recordOverrides (ev_meta e) (ev_max e) (ev_now e) (ev_active e) (ev_evaluated e) (ev_spec e) s))).

Definition run_events (s : OStatus) (h : list event) : OStatus := foldl run_event s h.

Definition fresh : OStatus := mkOStatus [] None None [].

(** ** Records are kept *)

Lemma overrideRecords_lookup l k :
  overrideRecords l !! k = last (filter (λ r, r_Key r = k) l).
Proof.
  unfold overrideRecords. induction l as [|r l IH] using rev_ind; [done|]. rewrite foldl_app, filter_app. cbn [foldl].
  destruct (decide (r_Key r = k)) as [<-|Hk].
  - rewrite lookup_insert_eq, filter_cons_True by done. by rewrite filter_nil, last_snoc.
  - rewrite lookup_insert_ne, filter_cons_False, filter_nil, app_nil_r by done. apply IH.
Qed.

(** A record is known by its key alone. *)
Definition keys_unique (l : list OverrideRecord) : Prop := NoDup (r_Key <$> l).

Lemma records_unique l r : keys_unique l → r ∈ l → overrideRecords l !! r_Key r = Some r.
Proof.
  intros Hu Hr. rewrite overrideRecords_lookup. destruct (last _) as [x|] eqn:E.
  - apply last_Some_elem_of, list_elem_of_filter in E as [Ek Ex]. f_equal. apply list_elem_of_lookup in Hr as [i Hi], Ex as [j Hj].
    assert (i = j) as -> by (eapply (NoDup_lookup (r_Key <$> l)); [done|by rewrite list_lookup_fmap, Hi|by rewrite list_lookup_fmap, Hj; simpl; rewrite Ek]).
    congruence.
  - apply last_None in E. assert (r ∈ filter (λ x, r_Key x = r_Key r) l) as H by (by apply list_elem_of_filter). rewrite E in H. by apply elem_of_nil in H.
Qed.

Lemma records_elem l k r : overrideRecords l !! k = Some r → r ∈ l ∧ r_Key r = k.
Proof. rewrite overrideRecords_lookup. intros H%last_Some_elem_of. by apply list_elem_of_filter in H as [? ?]. Qed.

Lemma records_none l k : overrideRecords l !! k = None → k ∉ r_Key <$> l.
Proof.
  rewrite overrideRecords_lookup, last_None. intros E (r & -> & Hr)%list_elem_of_fmap.
  assert (r ∈ filter (λ x, r_Key x = r_Key r) l) as H by (by apply list_elem_of_filter). rewrite E in H. by apply elem_of_nil in H.
Qed.

(** What the loop appends: a record of each override it had none of, while there is
    room. *)
Definition loop_inv (now : Time) (spec : list PolicyGateOverride) (recs : list OverrideRecord) (st : rec_state) : Prop :=
  rs_records st = overrideRecords (rs_next st) ∧ keys_unique (rs_next st) ∧
  ∃ new, rs_next st = recs ++ new ∧ Forall (λ r, r_FirstSeen r = now ∧ r_Audited r = false ∧ ∃ o, o ∈ spec ∧ r_Key r = overrideKey o) new ∧
    (length (rs_next st) ≤ length recs `max` maxOverrideRecords)%nat.

Lemma record_loop_inv now verified spec recs : keys_unique recs → loop_inv now spec recs (record_loop now verified spec recs).
Proof.
  intros Hu. unfold record_loop, loop_inv. induction spec as [|o spec IH] using rev_ind.
  { simpl. split_and!; [done..|]. exists []. rewrite app_nil_r. split_and!; [done|constructor|lia]. }
  rewrite foldl_app. cbn [foldl]. destruct (foldl _ _ spec) as [m next ign]. cbn [rs_records rs_next] in IH.
  destruct IH as (Hm & Hn & new & -> & Hnew & Hlen).
  assert (Forall (λ r, r_FirstSeen r = now ∧ r_Audited r = false ∧ ∃ o', o' ∈ spec ++ [o] ∧ r_Key r = overrideKey o') new) as Hnew'.
  { eapply Forall_impl; [apply Hnew|]. intros r (? & ? & o' & ? & ?). split_and!; try done. exists o'. split; [apply elem_of_app; by left|done]. }
  unfold record_step. cbn [rs_records rs_next rs_ignored]. destruct (m !! overrideKey o) as [rec|] eqn:E.
  { cbn [rs_records rs_next]. split_and!; [done..|]. exists new. split_and!; done. }
  destruct (_ <=? _)%nat eqn:El.
  { cbn [rs_records rs_next]. split_and!; [done..|]. exists new. split_and!; done. }
  apply Nat.leb_gt in El. cbn [rs_records rs_next rs_ignored]. split_and!.
  - rewrite Hm. unfold overrideRecords at 2. by rewrite foldl_app.
  - unfold keys_unique. rewrite fmap_app. apply NoDup_app. split_and!; [done| |apply NoDup_singleton].
    intros k Hk ->%list_elem_of_singleton. rewrite Hm in E. by apply (records_none _ _ E).
  - exists (new ++ [mkRecord (overrideKey o) now verified false]). split_and!; [by rewrite app_assoc| |rewrite !length_app in *; simpl; lia].
    apply Forall_app. split; [done|]. apply Forall_singleton. split_and!; [done..|]. exists o. split; [apply elem_of_app; right; by left|done].
Qed.

(** The records of [l] are still there in [l'], with the time and the check they were
    made with; the others of [l'] are new. *)
Definition extends (now : Time) (spec : list PolicyGateOverride) (l l' : list OverrideRecord) : Prop :=
  keys_unique l' ∧
  (∀ r, r ∈ l → ∃ r', r' ∈ l' ∧ r_Key r' = r_Key r ∧ r_FirstSeen r' = r_FirstSeen r ∧ r_Verified r' = r_Verified r ∧
     (r_Audited r = true → r_Audited r' = true)) ∧
  (∀ r', r' ∈ l' → (∃ r, r ∈ l ∧ r_Key r = r_Key r' ∧ r_FirstSeen r = r_FirstSeen r') ∨
     (r_FirstSeen r' = now ∧ ∃ o, o ∈ spec ∧ overrideKey o = r_Key r')) ∧
  (length l' ≤ length l `max` maxOverrideRecords)%nat.

Lemma extends_refl now spec l : keys_unique l → extends now spec l l.
Proof. intros Hu. split_and!; [done| | |lia]; [intros r Hr; by exists r|intros r Hr; left; by exists r]. Qed.

Lemma extends_loop now verified spec l : keys_unique l → extends now spec l (rs_next (record_loop now verified spec l)).
Proof.
  intros Hu. destruct (record_loop_inv now verified spec l Hu) as (_ & Hn & new & E & Hnew & Hlen). rewrite E in *. split_and!; [done| | |done].
  - intros r Hr. exists r. split_and!; try done. apply elem_of_app. by left.
  - intros r [Hr|Hr]%elem_of_app; [left; by exists r|right]. rewrite Forall_forall in Hnew. destruct (Hnew r Hr) as (? & _ & o & ? & ?).
    split; [done|]. by exists o.
Qed.

Lemma mark_keys keys (l : list OverrideRecord) : r_Key <$> (mark_audited keys <$> l) = r_Key <$> l.
Proof. rewrite <- list_fmap_compose. apply list_fmap_ext. intros i r _. simpl. unfold mark_audited. by case_bool_decide. Qed.

Lemma extends_mark now spec keys l l' : extends now spec l l' → extends now spec l (mark_audited keys <$> l').
Proof.
  intros (Hu & Hold & Hnew & Hlen). assert (∀ r, r_Key (mark_audited keys r) = r_Key r ∧ r_FirstSeen (mark_audited keys r) = r_FirstSeen r ∧
    r_Verified (mark_audited keys r) = r_Verified r ∧ (r_Audited r = true → r_Audited (mark_audited keys r) = true)) as Hm.
  { intros r. unfold mark_audited. by case_bool_decide. }
  split_and!; [unfold keys_unique; by rewrite mark_keys| | |by rewrite length_fmap].
  - intros r Hr. destruct (Hold r Hr) as (r' & Hr' & E1 & E2 & E3 & E4). exists (mark_audited keys r').
    destruct (Hm r') as (M1 & M2 & M3 & M4). split_and!; [by apply list_elem_of_fmap_2|congruence..|auto].
  - intros x (r' & -> & Hr')%list_elem_of_fmap. destruct (Hm r') as (M1 & M2 & _). rewrite M1, M2. by apply Hnew.
Qed.

Lemma recordOverrides_extends m max now active ev spec s s' :
  keys_unique (Overrides s) → s' ∈ recordOverrides m max now active ev spec s → extends now spec (Overrides s) (Overrides s').
Proof.
  intros Hu. unfold recordOverrides. set (p1 := record_patch now active ev spec s).
  assert (extends now spec (Overrides s) (Overrides (default s p1))) as Hp1.
  { unfold p1, record_patch. destruct (_ || _ || _); simpl; [by apply extends_loop|by apply extends_refl]. }
  intros [Hs'|Hs']%elem_of_app.
  - destruct p1 as [s1|]; [|by apply elem_of_nil in Hs']. apply list_elem_of_singleton in Hs' as ->. done.
  - revert Hs'. unfold auditRecordedOverrides. destruct (audit_loop _ _ _ _) as [keys entries].
    case_bool_decide; simpl; [by intros ?%elem_of_nil|]. intros ->%list_elem_of_singleton. simpl. by apply extends_mark.
Qed.

Lemma run_event_extends s e : keys_unique (Overrides s) → extends (ev_now e) (ev_spec e) (Overrides s) (Overrides (run_event s e)).
Proof.
  intros Hu. unfold run_event. destruct (last _) as [s'|] eqn:E; simpl; [|by apply extends_refl].
  apply last_Some_elem_of in E. apply (recordOverrides_extends (ev_meta e) (ev_max e) (ev_now e) (ev_active e) (ev_evaluated e) (ev_spec e)); [done|].
  apply elem_of_take in E as (i & Hi & _). by apply list_elem_of_lookup_2 in Hi.
Qed.

Lemma run_unique h s : keys_unique (Overrides s) → keys_unique (Overrides (run_events s h)).
Proof. revert s. induction h as [|e h IH]; intros s Hu; [done|]. apply IH. by apply run_event_extends. Qed.

Lemma run_kept h s r :
  keys_unique (Overrides s) → r ∈ Overrides s →
  ∃ r', r' ∈ Overrides (run_events s h) ∧ r_Key r' = r_Key r ∧ r_FirstSeen r' = r_FirstSeen r ∧ r_Verified r' = r_Verified r ∧
    (r_Audited r = true → r_Audited r' = true).
Proof.
  revert s r. induction h as [|e h IH]; intros s r Hu Hr; [by exists r|]. destruct (run_event_extends s e Hu) as (Hu' & Hold & _).
  destruct (Hold r Hr) as (r1 & Hr1 & E1 & E2 & E3 & E4). destruct (IH _ r1 Hu' Hr1) as (r2 & ? & ? & ? & ? & ?).
  exists r2. split_and!; [done|congruence..|auto].
Qed.

Lemma run_origin h s r' :
  keys_unique (Overrides s) → r' ∈ Overrides (run_events s h) →
  (∃ r, r ∈ Overrides s ∧ r_Key r = r_Key r' ∧ r_FirstSeen r = r_FirstSeen r') ∨
  (∃ e o, e ∈ h ∧ o ∈ ev_spec e ∧ overrideKey o = r_Key r' ∧ r_FirstSeen r' = ev_now e).
Proof.
  revert s. induction h as [|e h IH]; intros s Hu Hr; [left; by exists r'|]. destruct (run_event_extends s e Hu) as (Hu' & _ & Hnew & _).
  destruct (IH _ Hu' Hr) as [(r & Hr1 & E1 & E2)|(e' & o & ? & ? & ? & ?)]; [|right; exists e', o; split_and!; [by right|done..]].
  destruct (Hnew r Hr1) as [(r0 & ? & ? & ?)|(? & o & ? & ?)]; [left; exists r0; split_and!; [done|congruence..]|].
  right. exists e, o. split_and!; [by left|done|congruence..].
Qed.

Lemma find_active_sound records env now max l a :
  find_active records env now max l = Some a →
  ac_override a ∈ l ∧ records !! overrideKey (ac_override a) = Some (ac_record a) ∧
  futureDated (ac_override a) (r_FirstSeen (ac_record a)) = false ∧ agentOverride (ac_override a) = false ∧
  ac_end a = overrideEnd (ac_override a) (r_FirstSeen (ac_record a)) max ∧ now < ac_end a ∧
  (o_Stage (ac_override a) = "" ∨ o_Stage (ac_override a) = env).
Proof.
  induction l as [|o l IH]; simpl; [done|].
  assert (find_active records env now max l = Some a → ac_override a ∈ o :: l ∧ records !! overrideKey (ac_override a) = Some (ac_record a) ∧
    futureDated (ac_override a) (r_FirstSeen (ac_record a)) = false ∧ agentOverride (ac_override a) = false ∧
    ac_end a = overrideEnd (ac_override a) (r_FirstSeen (ac_record a)) max ∧ now < ac_end a ∧
    (o_Stage (ac_override a) = "" ∨ o_Stage (ac_override a) = env)) as Hl.
  { intros (? & ? & ? & ? & ? & ? & ?)%IH. split_and!; try done. by right. }
  destruct (records !! overrideKey o) as [rec|] eqn:E; [|done]. destruct (_ || futureDated o _) eqn:Ef; [done|].
  apply orb_false_iff in Ef as [_ Ef]. destruct (agentOverride o) eqn:Ea; [done|]. destruct (negb (now <? _)) eqn:En; [done|].
  destruct (bool_decide _ || bool_decide _) eqn:Es; [|done]. intros [= <-]. simpl. apply negb_false_iff, Z.ltb_lt in En.
  apply orb_true_iff in Es. rewrite !bool_decide_eq_true in Es. split_and!; try done. by left.
Qed.

(** C7. An override is bounded, whatever is done to the gate's list of overrides
    and however often the controller stops in the middle.  When an override is in effect at two points
    of a gate's history, by the same key, both count from the same time: that of the
    reconcile that first recorded it, which saw it in the gate.  At the second point
    that time is less than the cap ago and the override has not expired, was not dated
    ahead, names the environment or none, and was not made by an agent.  So removing an
    override and adding it again does not extend it. *)
Theorem override_capped h1 h2 spec1 spec2 env1 env2 t1 t2 max a1 a2 :
  0 < max →
  findActiveOverride (run_events fresh h1) spec1 env1 t1 max = Some a1 →
  findActiveOverride (run_events fresh (h1 ++ h2)) spec2 env2 t2 max = Some a2 →
  overrideKey (ac_override a1) = overrideKey (ac_override a2) →
  r_FirstSeen (ac_record a1) = r_FirstSeen (ac_record a2) ∧
  (∃ e o, e ∈ h1 ∧ o ∈ ev_spec e ∧ overrideKey o = overrideKey (ac_override a2) ∧ r_FirstSeen (ac_record a2) = ev_now e) ∧
  t2 < r_FirstSeen (ac_record a1) + max ∧ t2 < o_ExpiresAt (ac_override a2) ∧ ac_override a2 ∈ spec2 ∧
  futureDated (ac_override a2) (r_FirstSeen (ac_record a2)) = false ∧ agentOverride (ac_override a2) = false ∧
  (o_Stage (ac_override a2) = "" ∨ o_Stage (ac_override a2) = env2).
Proof.
  intros Hmax (_ & [H1 K1]%records_elem & _)%find_active_sound H2 Hk. assert (keys_unique (Overrides fresh)) as Hu0 by apply NoDup_nil_2.
  pose proof (run_unique h1 _ Hu0) as Hu1. pose proof (run_unique (h1 ++ h2) _ Hu0) as Hu2.
  apply find_active_sound in H2 as (Hin & [H2 K2]%records_elem & Hf & Ha & He & Hnow & Hst).
  assert (r_FirstSeen (ac_record a1) = r_FirstSeen (ac_record a2)) as Hfs.
  { unfold run_events in H2, Hu2. rewrite foldl_app in H2, Hu2. fold (run_events fresh h1) in H2, Hu2.
    destruct (run_kept h2 _ _ Hu1 H1) as (r' & Hr' & E1 & E2 & _). apply (records_unique _ _ Hu2) in H2. apply (records_unique _ _ Hu2) in Hr'.
    rewrite E1, K1, Hk, <- K2, H2 in Hr'. injection Hr' as <-. done. }
  split_and!; [done| |unfold overrideEnd in He; destruct (_ && _) eqn:Eb; bools; lia..|done|done|done|done].
  apply run_origin in H1 as [(r & Hr & _)|(e & o & ? & ? & ? & ?)]; [by apply elem_of_nil in Hr| |done]. exists e, o. split_and!; [done..|congruence|congruence].
Qed.

(** ** Every override is recorded and audited *)

Lemma record_loop_seen now verified spec recs o :
  o ∈ spec → let st := record_loop now verified spec recs in
  is_Some (rs_records st !! overrideKey o) ∨ (maxOverrideRecords ≤ length (rs_next st))%nat ∧ TooMany o ∈ rs_ignored st.
Proof.
  unfold record_loop. induction spec as [|x spec IH] using rev_ind; [by intros ?%elem_of_nil|]. cbv zeta in *. rewrite foldl_app. cbn [foldl].
  destruct (foldl _ _ spec) as [m next ign]. cbn [rs_records rs_next rs_ignored] in IH. unfold record_step. cbn [rs_records rs_next rs_ignored].
  intros [Ho| ->%list_elem_of_singleton]%elem_of_app.
  - destruct (m !! overrideKey x) as [rec|] eqn:E; [|destruct (_ <=? _)%nat]; cbn [rs_records rs_next rs_ignored].
    + destruct (IH Ho) as [?|[? ?]]; [by left|right; split; [done|apply elem_of_app; by left]].
    + destruct (IH Ho) as [?|[? ?]]; [by left|right; split; [done|apply elem_of_app; by left]].
    + destruct (IH Ho) as [[r Hr]|[? ?]]; [left|right; rewrite length_app; split; [lia|apply elem_of_app; by left]].
      destruct (decide (overrideKey x = overrideKey o)) as [->|Hne]; [rewrite lookup_insert_eq; by eexists|rewrite lookup_insert_ne by done; by exists r].
  - destruct (m !! overrideKey x) as [rec|] eqn:E; [|destruct (_ <=? _)%nat eqn:El]; cbn [rs_records rs_next rs_ignored].
    + left. by exists rec.
    + right. split; [by apply Nat.leb_le|apply elem_of_app; right; by left].
    + left. rewrite lookup_insert_eq. by eexists.
Qed.

Lemma audit_loop_marks m max spec s o r :
  o ∈ spec → overrideRecords (Overrides s) !! overrideKey o = Some r → r_Audited r = true ∨ overrideKey o ∈ (audit_loop m max spec s).1.
Proof.
  intros Ho Hr. unfold audit_loop. induction spec as [|x spec IH] using rev_ind; [by apply elem_of_nil in Ho|]. rewrite foldl_app. cbn [foldl].
  unfold audit_step at 1. destruct (foldl _ _ spec) as [keys entries]. cbn [fst] in *. apply elem_of_app in Ho as [Ho| ->%list_elem_of_singleton].
  - destruct (IH Ho) as [?|Hk]; [by left|right]. destruct (_ !! overrideKey x) as [rx|]; [|done]. destruct (_ || _); set_solver.
  - rewrite Hr. destruct (r_Audited r) eqn:Ea; [by left|right]. simpl. case_bool_decide; set_solver.
Qed.

(** A reconcile that writes all its patches has a record of every override of the gate, audited,
    unless 200 records fill it: then the override is named as ignored. *)
Theorem overrides_recorded m max now active ev spec s o :
  keys_unique (Overrides s) → o ∈ spec →
  let s' := default s (last (recordOverrides m max now active ev spec s)) in
  (∃ r, overrideRecords (Overrides s') !! overrideKey o = Some r ∧ r_Audited r = true) ∨
  (maxOverrideRecords ≤ length (Overrides s'))%nat ∧ ∃ l, Ignored s' = Some l ∧ TooMany o ∈ l.
Proof.
  intros Hu Ho. cbv zeta. unfold recordOverrides. set (s1 := default s (record_patch now active ev spec s)).
  assert (keys_unique (Overrides s1) ∧ (is_Some (overrideRecords (Overrides s1) !! overrideKey o) ∨
    (maxOverrideRecords ≤ length (Overrides s1))%nat ∧ ∃ l, Ignored s1 = Some l ∧ TooMany o ∈ l)) as [Hu1 H1].
  { unfold s1, record_patch. set (v := active && _). destruct (record_loop_inv now v spec _ Hu) as (Hm & Hn & new & Hnext & _).
    pose proof (record_loop_seen now v spec (Overrides s) o Ho) as Hseen. cbv zeta in Hseen. rewrite Hm in Hseen.
    set (st := record_loop now v spec (Overrides s)) in *. rewrite (bool_decide_false (spec = [])) by (intros ->; by apply elem_of_nil in Ho).
    destruct (negb (length (rs_next st) =? length (Overrides s))%nat || _ || _) eqn:Ew; simpl.
    - split; [done|]. destruct Hseen as [?|[? ?]]; [by left|right]. split; [done|]. destruct (bool_decide (Ignored s = Some (rs_ignored st))) eqn:Ei; simpl.
      + bools. by exists (rs_ignored st).
      + by exists (rs_ignored st).
    - split; [done|]. apply orb_false_iff in Ew as [Ew _]. apply orb_false_iff in Ew as [El Ei]. simpl in Ei. bools.
      apply Nat.eqb_eq in El. assert (new = []) as ->.
      { rewrite Hnext, length_app in El. destruct new; [done|simpl in El; lia]. }
      rewrite app_nil_r in Hnext. rewrite Hnext in Hseen. destruct Hseen as [?|[? ?]]; [by left|right]. split; [done|]. by exists (rs_ignored st). }
  destruct (auditRecordedOverrides m max spec s1) as [s2|] eqn:Ea.
  - change (option_list (Some s2)) with [s2]. rewrite last_snoc. cbn [default]. revert Ea. unfold auditRecordedOverrides. pose proof (audit_loop_marks m max spec s1 o) as Hmarks.
    destruct (audit_loop m max spec s1) as [keys entries]. case_bool_decide; [done|]. intros [= <-]. simpl.
    destruct H1 as [[r Hr]|?]; [left|right; by rewrite length_fmap]. exists (mark_audited keys r). split.
    + pose proof (records_elem _ _ _ Hr) as [Hin Hk]. rewrite <- Hk. replace (r_Key r) with (r_Key (mark_audited keys r)) by (unfold mark_audited; by case_bool_decide).
      apply records_unique; [unfold keys_unique; by rewrite mark_keys|by apply list_elem_of_fmap_2].
    + destruct (records_elem _ _ _ Hr) as [_ Hk]. unfold mark_audited. case_bool_decide as Hkey; [done|]. destruct (Hmarks r Ho Hr) as [?|Hc]; [done|].
      simpl in Hc. by rewrite <- Hk in Hc.
  - change (option_list (@None OStatus)) with (@nil OStatus). rewrite app_nil_r. replace (default s (last (option_list (record_patch now active ev spec s)))) with s1 by (unfold s1; by destruct (record_patch _ _ _ _ _)).
    destruct H1 as [[r Hr]|?]; [left|by right]. exists r. split; [done|]. revert Ea. unfold auditRecordedOverrides.
    pose proof (audit_loop_marks m max spec s1 o r Ho Hr) as Hm. destruct (audit_loop m max spec s1) as [keys entries].
    case_bool_decide as Ek; [|done]. intros _. destruct Hm as [?|Hm]; [done|]. simpl in Hm. rewrite Ek in Hm. set_solver.
Qed.

(** The comment of overrideKey says that it hashes every field, so that an edited entry
    is a new override; the stamp of the actor is not in it, so an entry keeps its record,
    its time and its check when its stamp is edited. *)
Theorem key_ignores_actor o stamp :
  overrideKey (mkOverride (o_Reason o) (o_Stage o) (o_ExpiresAt o) (o_CreatedAt o) (o_CreatedBy o) stamp) = overrideKey o.
Proof. done. Qed.

(** An override that is dated ahead never counts, at any time, but its audit record
    says that the gate was overridden, with outcome Success. *)
Theorem ignored_override_audited_success m max o rec records env now l e :
  futureDated o (r_FirstSeen rec) = true → agentOverride o = false → records !! overrideKey o = Some rec →
  overrideAuditEntry m max o rec = Some e →
  e_Outcome e = "Success" ∧ ∀ a, find_active records env now max l = Some a → ac_override a ≠ o.
Proof.
  intros Hf Ha Hr He. split.
  - revert He. unfold overrideAuditEntry. rewrite Ha. destruct (_ || _ || _); [done|]. by intros [= <-].
  - intros a Hs E. apply find_active_sound in Hs as (_ & Hk & Hf' & _). rewrite E, Hr in Hk. injection Hk as Hk. rewrite E, <- Hk in Hf'. congruence.
Qed.
End overrides.

(** ** Witnesses *)

Definition demo_override : PolicyGateOverride := mkOverride "INC-1" "prod" (100 * second) None "alice" None.

Definition demo_event : event := mkEvent (mkGateMeta "g" "app" "v1" "prod") (60 * second) (10 * second) true None [demo_override] 2.

Definition demo_active : activeOverride :=
  mkActive demo_override (mkRecord (overrideKey (λ s, s) (λ _, "t") demo_override) (10 * second) true true) (70 * second).

Lemma override_capped_witness :
  findActiveOverride (λ s, s) (λ _, "t") (run_events (λ s, s) (λ _, "t") (λ _, "t") (λ _, true) ∅ fresh [demo_event]) [demo_override] "prod" (20 * second)
    (60 * second) = Some demo_active ∧ 20 * second < 10 * second + 60 * second.
Proof.
  assert (findActiveOverride (λ s, s) (λ _, "t") (run_events (λ s, s) (λ _, "t") (λ _, "t") (λ _, true) ∅ fresh [demo_event]) [demo_override] "prod"
    (20 * second) (60 * second) = Some demo_active) as E by (vm_compute; reflexivity).
  split; [exact E|].
  exact (proj1 (proj2 (proj2 (override_capped (λ s, s) (λ _, "t") (λ _, "t") (λ _, true) ∅ [demo_event] [] [demo_override] [demo_override] "prod" "prod"
    (20 * second) (20 * second) (60 * second) demo_active demo_active eq_refl E E eq_refl)))).
Defined.
End Override.
