(* ===== verification/PolicyGate.v ===== *)
(** * PolicyGate: whether a gate lets a promotion through

    Model of the PolicyGate reconciler (src/pkg/reconciler/policygate: reconcile,
    reconcileTemplate, markGenerated, bundleSettled, patchStatusWith, unchangedResult,
    freshResultWanted, holdExemption of reconciler.go; approvals.go; verdicts.go;
    approvalRequired; gateAuditEntry and flushAudit of audit.go; the evaluator of
    cel_evaluator.go), of VerifyHeldRollback (src/pkg/lifecycle/hold.go) and of
    src/pkg/graph/gatereason.go.  Overrides are [Override], the counting of decisions
    [ApprovalTally] and [VerdictTally], what a rollback may restore [Rollback].

    CEL is outside: [cel] is what the compiled program answers in a context, and the
    context [buildContext] makes is an input, as are the notes it leads to.  A reconcile
    is a function of what it reads ([Reads]) and of the stored status to the status
    patches it makes, in order.  Events and metrics are left out. *)

From stdpp Require Import base gmap strings list pretty.
From Stdlib Require Import Lia ZArith.
From S2P Require Import Prelude Actor ApprovalTally VerdictTally StepStatus Outbox Transition Cancel Pending History Rollback Override.
Import Actor.Actor Outbox.Outbox Transition.Transition Cancel.Cancel Override.Override.

Open Scope Z_scope.

Module PolicyGate.

Definition defaultRecheckInterval : Duration := 300 * second.
Definition minRecheckInterval : Duration := 10 * second.
Definition auditRetryDelay : Duration := 5 * second.
Definition LabelValueMaxLength : nat := 63.
Definition maxConditionMessage : nat := 1024.

#[local] Existing Instance ApprovalTally.ApprovalBlock_eq_dec.

#[export] Instance not_counted_eq_dec : EqDecision ApprovalTally.not_counted.
Proof. solve_decision. Defined.

#[export] Instance GateApprovalStatus_eq_dec : EqDecision ApprovalTally.GateApprovalStatus.
Proof. solve_decision. Defined.

#[export] Instance party_block_eq_dec : EqDecision VerdictTally.party_block.
Proof. solve_decision. Defined.

#[export] Instance vreason_eq_dec : EqDecision VerdictTally.vreason.
Proof. solve_decision. Defined.

#[export] Instance GateVerdictStatus_eq_dec : EqDecision VerdictTally.GateVerdictStatus.
Proof. solve_decision. Defined.

(** ** The gate *)

(** The labels of a gate that are read: [g_bundle] is [None] without the label
    kardinal.io/bundle, [g_template] whether it has the label of its template,
    [g_freezeGate] whether it is the freeze gate of its Pipeline, [g_freeze] the label
    kardinal.io/freeze. *)
Record Gate := mkGate {
  g_Name : string;
  g_bundle : option string;
  g_pipeline : string;
  g_environment : string;
  g_template : bool;
  g_freezeGate : bool;
  g_freeze : bool;
  g_Generated : bool;
  g_Generation : Z;
  g_Expression : string;
  g_Message : string;
  g_RecheckInterval : string;
  g_Approval : option ApprovalTally.GateApprovalPolicy;
  g_Approvals : list ApprovalTally.GateApproval;
  g_Verify : option VerdictTally.GateVerifyPolicy;
  g_Verdicts : list VerdictTally.GateVerdict;
  g_Overrides : list PolicyGateOverride
}.

Definition bundle_of (g : Gate) : string := default "" (g_bundle g).

Definition meta_of (g : Gate) : GateMeta := mkGateMeta (g_Name g) (g_pipeline g) (bundle_of g) (g_environment g).

(** The condition Ready. *)
Record ReadyCondition := mkReady { rc_Status : bool; rc_Reason : string; rc_Message : string; rc_Generation : Z; rc_Since : Time }.

(** A decision with the time it was first seen. *)
Record RecordedApproval := mkRecorded { ra_Status : ApprovalTally.GateApprovalStatus; ra_FirstSeenAt : option Time }.

#[export] Instance RecordedApproval_eq_dec : EqDecision RecordedApproval.
Proof. solve_decision. Defined.

Record GateStatus := mkGateStatus {
  gs_Overrides : OStatus;
  gs_Ready : bool;
  gs_Reason : string;
  gs_BundleVersion : string;
  gs_LastEvaluatedAt : option Time;
  gs_ApprovalRequired : option bool;
  gs_Condition : option ReadyCondition;
  gs_Approvals : list RecordedApproval;
  gs_Verdicts : list VerdictTally.GateVerdictStatus
}.

Definition set_Overrides (o : OStatus) (s : GateStatus) : GateStatus :=
  mkGateStatus o (gs_Ready s) (gs_Reason s) (gs_BundleVersion s) (gs_LastEvaluatedAt s) (gs_ApprovalRequired s) (gs_Condition s) (gs_Approvals s) (gs_Verdicts s).

Definition pending (s : GateStatus) : list Entry := Override.Pending (gs_Overrides s).

Definition set_pending (p : list Entry) (s : GateStatus) : GateStatus :=
  let o := gs_Overrides s in set_Overrides (mkOStatus (Overrides o) (OverridesVerifiedSince o) (Ignored o) p) s.

Definition set_Approvals (l : list RecordedApproval) (s : GateStatus) : GateStatus :=
  mkGateStatus (gs_Overrides s) (gs_Ready s) (gs_Reason s) (gs_BundleVersion s) (gs_LastEvaluatedAt s) (gs_ApprovalRequired s) (gs_Condition s) l (gs_Verdicts s).

Definition set_Verdicts (l : list VerdictTally.GateVerdictStatus) (s : GateStatus) : GateStatus :=
  mkGateStatus (gs_Overrides s) (gs_Ready s) (gs_Reason s) (gs_BundleVersion s) (gs_LastEvaluatedAt s) (gs_ApprovalRequired s) (gs_Condition s)
    (gs_Approvals s) l.

(** ** Reasons (gatereason.go) *)

Definition WithVersion (reason version : string) : string :=
  if bool_decide (version = "") then reason else reason +:+ " (version " +:+ version +:+ ")".

Definition BlockedReason (message detail version : string) : string :=
  if bool_decide (message = "") then WithVersion detail version
  else message +:+ " (" +:+ (if bool_decide (version = "") then detail else detail +:+ "; version " +:+ version) +:+ ")".

Definition BlockedDetail (message reason : string) : string :=
  if bool_decide (message = "") then reason
  else if HasPrefix reason (message +:+ " (") then
         let d := TrimPrefix reason (message +:+ " (") in
         if HasSuffix d ")" then TrimSuffix d ")" else reason
       else reason.

(** [GateDetail]; [legacy] removes the prefix an older controller wrote. *)
Definition GateDetail (legacy : string → string) (message reason version : string) : string :=
  let d := BlockedDetail message reason in
  if bool_decide (version = "") then legacy d
  else if HasSuffix d ("; version " +:+ version) then TrimSuffix d ("; version " +:+ version)
  else TrimSuffix d (" (version " +:+ version +:+ ")").

Lemma str_app_assoc (a b c : string) : a +:+ (b +:+ c) = (a +:+ b) +:+ c.
Proof. induction a as [|x a IH]; [done|]. change (String x (a +:+ (b +:+ c)) = String x ((a +:+ b) +:+ c)). by rewrite IH. Qed.

(** What the command line shows of a false expression is what the controller found,
    with and without a message. *)
Theorem gate_detail_roundtrip legacy message detail version :
  version ≠ "" → GateDetail legacy message (BlockedReason message detail version) version = detail.
Proof.
  intros Hv. unfold GateDetail, BlockedReason, BlockedDetail, WithVersion. rewrite (bool_decide_false _ Hv). case_bool_decide as Hm.
  - destruct (HasSuffix (detail +:+ " (version " +:+ version +:+ ")") ("; version " +:+ version)) eqn:E; [|apply TrimSuffix_app].
    exfalso. unfold HasSuffix in E. bools.
    match goal with H : String.substring _ _ _ = _ |- _ => rename H into Hs end. revert Hs.
    assert (detail +:+ " (version " +:+ version +:+ ")" = (detail +:+ " ") +:+ ("(version " +:+ version +:+ ")")) as ->.
    { by rewrite <- str_app_assoc. }
    assert (str_length ("; version " +:+ version) = str_length ("(version " +:+ version +:+ ")")) as El.
    { rewrite !str_length_app. simpl. lia. }
    rewrite El, str_length_app. replace (_ + _ - _)%nat with (str_length (detail +:+ " ")) by lia. by rewrite substring_app_right.
  - rewrite (str_app_assoc message), HasPrefix_app, TrimPrefix_app. cbv zeta. rewrite HasSuffix_app, TrimSuffix_app. cbv zeta.
    by rewrite HasSuffix_app, TrimSuffix_app.
Qed.

(** ** What the tallies say *)

Section gate.
(** [%q], and what the controller knows of CEL: the answer of the program an expression
    compiles to. *)
Variable Quote : string → string.
Variable Ctx : Type.

Inductive cel_answer := CompileError (e : string) | EvalError (e : string) | NonBoolean (e : string) | Result (b : bool).

Variable cel : string → Ctx → cel_answer.

(** [evaluate]: whether the expression passes, the reason, and whether there was an
    error. *)
Record evaluation := mkEval { e_pass : bool; e_reason : string; e_error : option string }.

Definition evaluate (expr : string) (c : Ctx) : evaluation :=
  match cel expr c with
  | CompileError e => mkEval false ("CEL compile error: " +:+ e) (Some e)
  | EvalError e => mkEval false ("CEL evaluation error: " +:+ e) (Some e)
  | NonBoolean e => mkEval false e (Some e)
  | Result b => mkEval b (expr +:+ " = " +:+ (if b then "true" else "false")) None
  end.

Definition held_text (env : string) (author : Actor) (b : ApprovalTally.ApprovalBlock) : string :=
  match b with
  | ApprovalTally.ApprovalTooMany =>
      "more than " +:+ pretty ApprovalTally.MaxGateApprovals +:+ " Approvals for this Bundle in " +:+ env +:+
      "; delete the stale ones (kubectl get approvals)"
  | ApprovalTally.ApprovalNoCreator =>
      "excludeAuthor cannot be enforced: the Bundle has no verified creator (annotation kardinal.io/created-by)"
  | ApprovalTally.ApprovalComponentCreator =>
      "excludeAuthor cannot be enforced: the Bundle was created by the kardinal component " +:+ Quote (Principal author) +:+
      ", not a person; create it as yourself (kardinal create bundle, or the Bundle API with your own token)"
  | _ => ""
  end.

(** [approvalTally.blocked] and [met]. *)
Definition approval_blocked (env : string) (author : Actor) (t : ApprovalTally.ApprovalTally) : string :=
  let approvers := ApprovalTally.Approvers t in
  if ApprovalTally.Required t =? 0 then ""
  else if negb (bool_decide (held_text env author (ApprovalTally.Held t) = "")) then held_text env author (ApprovalTally.Held t)
  else if negb (bool_decide (ApprovalTally.Rejecters t = [])) then
    "rejected by " +:+ Join ((λ u, match ApprovalTally.Comments t !! u with
                                   | Some c => if bool_decide (c = "") then u else u +:+ " (" +:+ c +:+ ")"
                                   | None => u
                                   end) <$> ApprovalTally.Rejecters t) ", "
  else if Z.of_nat (length approvers) <? ApprovalTally.Required t then
    "waiting for approvals: " +:+ pretty (Z.of_nat (length approvers)) +:+ " of " +:+ pretty (ApprovalTally.Required t) +:+
    (if bool_decide (approvers = []) then "" else " (" +:+ Join approvers ", " +:+ ")")
  else "".

Definition approval_met (t : ApprovalTally.ApprovalTally) : string :=
  let approvers := ApprovalTally.Approvers t in
  if ApprovalTally.Required t =? 0 then ""
  else "approved by " +:+ Join approvers ", " +:+ " (" +:+ pretty (Z.of_nat (length approvers)) +:+ " of " +:+
       pretty (ApprovalTally.Required t) +:+ ")".

(** [voters]: the passing voters in order, with the number of their passes ([times] is
    the sign in front of it). *)
Variable times : string.

Definition voters (labels : list string) : string :=
  let order := foldl (λ l x, if bool_decide (x ∈ l) then l else l ++ [x]) [] labels in
  Join ((λ l, let n := length (filter (λ x, x = l) labels) in
              if (1 <? n)%nat then l +:+ times +:+ pretty (Z.of_nat n) else l) <$> order) ", ".

Definition count_text (t : VerdictTally.VerdictTally) : string :=
  pretty (Z.of_nat (length (VerdictTally.Passed t))) +:+ " of " +:+ pretty (VerdictTally.Required t) +:+
  (if bool_decide (VerdictTally.Passed t = []) then "" else " (" +:+ voters (VerdictTally.Passed t) +:+ ")").

(** [VerdictTally.Blocked], as text.  A failed outcome has a failed vote. *)
Definition verdict_blocked (t : VerdictTally.VerdictTally) : string :=
  match VerdictTally.Blocked t with
  | VerdictTally.NotBlocked => ""
  | VerdictTally.BlockedHeld VerdictTally.TooManyVerdicts =>
      "more than " +:+ pretty VerdictTally.MaxGateVerdicts +:+ " verdicts for check " +:+
      match VerdictTally.Policy t with Some p => VerdictTally.Check_ p | None => "" end +:+ "; delete the ones that do not count"
  | VerdictTally.BlockedHeld _ => "verify.excludeAuthor cannot be checked: the version has no verified author"
  | VerdictTally.BlockedPanic => "verification failed: "
  | VerdictTally.BlockedFailed f more =>
      "verification failed: " +:+ f.1 +:+ ": " +:+ f.2 +:+ (if 0 <? more then " (and " +:+ pretty more +:+ " more)" else "")
  | VerdictTally.BlockedTimedOut timeout _ _ => "verification timed out after " +:+ timeout +:+ ": " +:+ count_text t
  | VerdictTally.BlockedWaiting _ _ inconclusive retrying =>
      "waiting for verdicts: " +:+ count_text t +:+
      (if 0 <? inconclusive then "; " +:+ pretty inconclusive +:+ " inconclusive, " +:+ (if retrying : bool then "retrying" else "waiting") else "")
  end.

Definition verdict_met (t : VerdictTally.VerdictTally) : string :=
  if negb (VerdictTally.Met t) then ""
  else match VerdictTally.Outcome t, VerdictTally.Policy t with
       | Some VerdictTally.VerifyTimedOut, Some p =>
           "verification timed out after " +:+ VerdictTally.Timeout_ p +:+ ", allowed by onTimeout: " +:+ count_text t
       | _, _ => "verified: " +:+ count_text t
       end.

(** ** What a reconcile reads *)

(** A hold of the Pipeline, with who made it, why, and the digest of what it holds. *)
Record GateHold := mkGateHold { gh_hold : Pending.EnvironmentHold; gh_CreatedBy : string; gh_Reason : string; gh_Artifacts : string }.

(** The Bundle: its phase, whether GraphReady is True, its UID, its author
    ([bundleAuthor]) and when it was found healthy, by environment. *)
Record BundleView := mkBundleView {
  bv_Phase : string; bv_GraphReady : bool; bv_UID : string; bv_Author : Actor; bv_HealthCheckedAt : list (string * option Time)
}.

(** A PromotionStep of the Bundle: its state, its required gates, its creation. *)
Record StepView := mkStepView { sv_State : string; sv_RequiredGates : list string; sv_Created : Time }.

Inductive patch_result := POk | PConflict | PError.

(** [rd_create]: the answers to the creates of audit records; [rd_flushed]: whether
    the patch that removes them lands; [rd_approvals], [rd_verdicts]: how the patches of
    [recordApprovals] and [recordVerdicts] end; [rd_context]: the context with the
    author and the version, or why there is none; [rd_notes]: the stale metrics and change requests the
    expression reads; [rd_pipeline]: the holds of the Pipeline, if it can be read;
    [rd_bundles], [rd_steps]: what the check of a held rollback reads. *)
Record Reads := mkReads {
  rd_now : Time;
  rd_identity : bool;
  rd_create : Entry → create_result;
  rd_flushed : bool;
  rd_bundle : read BundleView;
  rd_bundle2 : read BundleView;
  rd_context : string + (Ctx * Actor * string);
  rd_notes : string * string;
  rd_approvals : patch_result;
  rd_verdicts : patch_result;
  rd_waiting : option (list StepView);
  rd_pipeline : option (list GateHold);
  rd_bundles : Rollback.Snapshot;
  rd_steps : option (list History.Step)
}.

(** The settings of the controller, the parsed recheck interval, hashes and texts that
    are copied only, and the context with the variable approvals. *)
Variable StatusHeartbeat : Duration.
Variable MaxOverride : Duration.
Variable ParseDuration : string → option Duration.
Variable hash12 : string → string.
Variable FormatNano FormatTime FormatMinute : Time → string.
Variable ArtifactDigest : Rollback.Artifacts → string.
Variable approval_body : string → ApprovalTally.GateApprovalStatus → string.
Variable verdict_body : string → VerdictTally.GateVerdictStatus → string.
Variable valid_cel : string → option string.
Variable set_approvals : ApprovalTally.ApprovalTally → bool → Ctx → Ctx.
Variable ValidString http_url : string → bool.
Variable re_match : string → option (string → bool).
Variable Validate : Entry → bool.
Variable coalescers : gmap string (Entry → Entry → option Entry).

Definition parseRecheckInterval (s : string) : Duration :=
  if bool_decide (s = "") then defaultRecheckInterval
  else match ParseDuration s with
       | Some d => if d <=? 0 then defaultRecheckInterval else if d <? minRecheckInterval then minRecheckInterval else d
       | None => defaultRecheckInterval
       end.

Definition enqueue (e : option Entry) (s : GateStatus) : GateStatus :=
  match e with Some e => set_pending (Enqueue Validate coalescers (pending s) e).1 s | None => s end.

(** [flushAudit] of the gate: its patch, the status in memory, and whether it failed. *)
Definition flushAudit (rd : Reads) (s : GateStatus) : list GateStatus * GateStatus * bool :=
  let '(p, err) := Outbox.flushAudit (rd_create rd) (rd_flushed rd) (pending s) in
  if bool_decide (p = pending s) then ([], s, err) else ([set_pending p s], set_pending p s, err).

(** ** The result of an evaluation *)

Definition gateAuditEntry (g : Gate) (outcome reason : string) (at_ : Time) : option Entry :=
  if bool_decide (g_pipeline g = "") || bool_decide (bundle_of g = "") then None
  else
    let suffix := "-gate-" +:+ (if bool_decide (outcome = "Success") then "success" else "failure") +:+ "-" +:+ pretty (at_ `div` millisecond) in
    let limit := (253 - str_length suffix)%nat in
    let base := if (limit <? str_length (g_Name g))%nat then String.substring 0 limit (g_Name g) else g_Name g in
    Some (mkEntry (sanitizeK8sName (base +:+ suffix)) "GateEvaluated" outcome 0 reason).

Definition freshResultWanted (rd : Reads) (g : Gate) (s : GateStatus) : option bool :=
  match rd_waiting rd with
  | None => None
  | Some steps =>
      Some (existsb (λ ps, (bool_decide (sv_State ps = "") || bool_decide (sv_State ps = "Pending")) && bool_decide (g_Name g ∈ sv_RequiredGates ps) &&
                           match gs_LastEvaluatedAt s with Some t => t <? sv_Created ps | None => true end) steps)
  end.

Definition unchangedResult (rd : Reads) (g : Gate) (ready : bool) (reason : string) (s : GateStatus) : bool :=
  match gs_LastEvaluatedAt s with
  | None => false
  | Some last =>
      if (StatusHeartbeat <=? 0) || negb (bool_decide (gs_Ready s = ready)) || negb (bool_decide (gs_Reason s = reason)) then false
      else if StatusHeartbeat <=? sub_time (rd_now rd) last then false
      else match gs_Condition s with
           | None => false
           | Some c =>
               if negb (rc_Generation c =? g_Generation g) then false
               else match freshResultWanted rd g s with Some wanted => negb wanted | None => false end
           end
  end.

(** [truncateMessage]; [cut_at] of [ApprovalTally] goes back to a rune boundary. *)
Definition truncateMessage (msg : string) : string :=
  if (str_length msg <=? maxConditionMessage)%nat then msg
  else String.substring 0 (ApprovalTally.cut_at msg maxConditionMessage) msg.

(** [meta.SetStatusCondition]: the time moves with the status only. *)
Definition SetStatusCondition (old : option ReadyCondition) (c : ReadyCondition) : ReadyCondition :=
  match old with
  | Some o => if Bool.eqb (rc_Status o) (rc_Status c) then mkReady (rc_Status c) (rc_Reason c) (rc_Message c) (rc_Generation c) (rc_Since o) else c
  | None => c
  end.

(** The status [patchStatusWith] writes. *)
Definition evaluated (rd : Reads) (g : Gate) (ready : bool) (reason version : string) (approvalRequired : option bool) (s : GateStatus) : GateStatus :=
  let now := rd_now rd in
  let unblocked := match gs_Condition s with Some c => negb (rc_Status c) || bool_decide (rc_Reason c = "Unblocked") | None => false end in
  let cond := mkReady ready (if ready then if unblocked then "Unblocked" else "Allowed" else "Blocked") (truncateMessage reason) (g_Generation g) now in
  let o := gs_Overrides s in
  let o := mkOStatus (Overrides o) (stampVerifiedSince now (OverridesVerifiedSince o)) (Ignored o) (Override.Pending o) in
  let s' := mkGateStatus o ready reason version (Some now) approvalRequired (Some (SetStatusCondition (gs_Condition s) cond)) (gs_Approvals s) (gs_Verdicts s) in
  if negb (Bool.eqb ready (gs_Ready s)) || bool_decide (gs_LastEvaluatedAt s = None)
  then enqueue (gateAuditEntry g (if ready then "Success" else "Failure") reason now) s' else s'.

(** [patchStatusWith]: the patches, and the status in memory. *)
Definition patchStatusWith (rd : Reads) (g : Gate) (ready : bool) (reason version : string) (approvalRequired : option bool) (s : GateStatus) :
    list GateStatus * GateStatus :=
  if bool_decide (gs_BundleVersion s = version) && bool_decide (gs_ApprovalRequired s = approvalRequired) && unchangedResult rd g ready reason s then ([], s)
  else
    let s' := evaluated rd g ready reason version approvalRequired s in
    let '(l, s'', _) := flushAudit rd s' in (s' :: l, s'').

Definition patchStatus (rd : Reads) (g : Gate) (ready : bool) (reason version : string) (s : GateStatus) : list GateStatus * GateStatus :=
  patchStatusWith rd g ready reason version (gs_ApprovalRequired s) s.

(** ** Approvals and verdicts *)

Definition tally_gate (g : Gate) (s : GateStatus) : ApprovalTally.Gate :=
  ApprovalTally.mkGate (bundle_of g) (g_environment g) (g_Approval g) (g_Approvals g) (gs_ApprovalRequired s).

Definition tallyApprovals (g : Gate) (s : GateStatus) (author : Actor) : ApprovalTally.ApprovalTally :=
  ApprovalTally.TallyApprovals ValidString http_url re_match (tally_gate g s) author.

Definition sameDecision (a b : ApprovalTally.GateApprovalStatus) : bool :=
  bool_decide (ApprovalTally.s_User a = ApprovalTally.s_User b) && bool_decide (ApprovalTally.s_Decision a = ApprovalTally.s_Decision b) &&
  bool_decide (ApprovalTally.s_Fields a = ApprovalTally.s_Fields b).

Definition hasDecision (l : list RecordedApproval) (r : RecordedApproval) : bool := existsb (λ o, sameDecision (ra_Status o) (ra_Status r)) l.

Definition fieldsKey (fields : gmap string string) : string :=
  Join ((λ n, nul +:+ n +:+ "=" +:+ default "" (fields !! n)) <$> sort_by str_ltb (map_to_list fields).*1) "".

(** The name of a record: of the gate and a hash. *)
Definition record_name (g : Gate) (kind key : string) : string :=
  let suffix := "-" +:+ kind +:+ "-" +:+ hash12 key in
  let limit := (253 - str_length suffix)%nat in
  let base := if (limit <? str_length (g_Name g))%nat then String.substring 0 limit (g_Name g) else g_Name g in
  sanitizeK8sName (base +:+ suffix).

Definition unattributed (g : Gate) : bool := bool_decide (g_pipeline g = "") || bool_decide (bundle_of g = "") || bool_decide (g_environment g = "").

Definition approvalAuditEntry (g : Gate) (r : RecordedApproval) (action : string) : option Entry :=
  let st := ra_Status r in
  if unattributed g then None
  else Some (mkEntry (record_name g "approval" (action +:+ nul +:+ ApprovalTally.s_User st +:+ nul +:+ ApprovalTally.s_Decision st +:+ nul +:+
      match ra_FirstSeenAt r with Some t => FormatTime t | None => "" end +:+ fieldsKey (ApprovalTally.s_Fields st))) action "Success" 0 (approval_body action st)).

(** The records of a tally: a decision seen before keeps its time. *)
Definition approval_records (now : Time) (t : ApprovalTally.ApprovalTally) (s : GateStatus) : list RecordedApproval :=
  (λ st, match head (filter (λ o, sameDecision (ra_Status o) st = true ∧ ra_FirstSeenAt o ≠ None) (gs_Approvals s)) with
         | Some o => mkRecorded st (ra_FirstSeenAt o)
         | None => mkRecorded st (Some now)
         end) <$> ApprovalTally.Records t.

(** [recordApprovals]: the patches, the status in memory, and whether it lost to a newer
    write.  Any other failure of the patch is not fatal. *)
Definition recordApprovals (rd : Reads) (g : Gate) (t : ApprovalTally.ApprovalTally) (s : GateStatus) : list GateStatus * GateStatus * bool :=
  let records := approval_records (rd_now rd) t s in
  if bool_decide (records = gs_Approvals s) then ([], s, false)
  else
    let old := gs_Approvals s in
    let s1 := set_Approvals records s in
    let s1 := foldl (λ s r, if hasDecision old r then s else enqueue (approvalAuditEntry g r "ApprovalRecorded") s) s1 records in
    let s1 := foldl (λ s o, if hasDecision records o then s else enqueue (approvalAuditEntry g o "ApprovalRevoked") s) s1 old in
    match rd_approvals rd with
    | PConflict => ([], s, true)
    | PError => ([], s, false)
    | POk => let '(l, s2, _) := flushAudit rd s1 in (s1 :: l, s2, false)
    end.

Definition healthCheckedAt (b : BundleView) (env : string) : option Time :=
  head (omap (λ e, if bool_decide (e.1 = env) then e.2 else None) (bv_HealthCheckedAt b)).

Definition verify_gate (g : Gate) : VerdictTally.Gate := VerdictTally.mkGate (bundle_of g) (g_Verify g) (g_Verdicts g).

Definition tallyVerdicts (g : Gate) (b : BundleView) (now : Time) : VerdictTally.VerdictTally :=
  let p := VerdictTally.VerifyPolicyOf (verify_gate g) in
  let deadline := match p with
                  | Some p' => VerdictTally.VerifyDeadline ParseDuration p (healthCheckedAt b (VerdictTally.v_Environment p'))
                  | None => None
                  end in
  VerdictTally.TallyVerdicts (verify_gate g) (bv_Author b) (bv_UID b) deadline now.

Definition untilDeadline (t : VerdictTally.VerdictTally) (now : Time) : Duration :=
  match VerdictTally.Deadline t with
  | Some d =>
      match VerdictTally.Outcome t with
      | Some VerdictTally.VerifyWaiting => if now <? d then sub_time d now + second else 0
      | _ => 0
      end
  | None => 0
  end.

Definition verdictAuditEntry (g : Gate) (r : VerdictTally.GateVerdictStatus) (action : string) : option Entry :=
  if unattributed g then None
  else Some (mkEntry (record_name g "verdict" (action +:+ nul +:+ VerdictTally.vs_Name r)) action "Success" 0 (verdict_body action r)).

Definition seen_verdict (l : list VerdictTally.GateVerdictStatus) (name : string) : bool := existsb (λ o, bool_decide (VerdictTally.vs_Name o = name)) l.

Definition recordVerdicts (rd : Reads) (g : Gate) (t : VerdictTally.VerdictTally) (s : GateStatus) : list GateStatus * GateStatus * bool :=
  let records := VerdictTally.Records t in
  if bool_decide (records = gs_Verdicts s) then ([], s, false)
  else
    let old := gs_Verdicts s in
    let s1 := set_Verdicts records s in
    let s1 := foldl (λ s r, if seen_verdict old (VerdictTally.vs_Name r) then s else enqueue (verdictAuditEntry g r "VerdictRecorded") s) s1 records in
    let s1 := foldl (λ s o, if seen_verdict records (VerdictTally.vs_Name o) then s else enqueue (verdictAuditEntry g o "VerdictRevoked") s) s1 old in
    match rd_verdicts rd with
    | PConflict => ([], s, true)
    | PError => ([], s, false)
    | POk => let '(l, s2, _) := flushAudit rd s1 in (s1 :: l, s2, false)
    end.

(** [approvalRequired]: whether the policy applies, and the error. *)
Definition approvalRequired (g : Gate) (c : Ctx) : bool * option string :=
  match g_Approval g with
  | None => (true, None)
  | Some p =>
      if bool_decide (ApprovalTally.RequiredWhen p = "") then (true, None)
      else let e := evaluate (ApprovalTally.RequiredWhen p) c in
           match e_error e with Some err => (true, Some err) | None => (e_pass e, None) end
  end.

(** ** The exemption of a held rollback *)

(** [strings.Contains]. *)
Fixpoint contains (sub s : string) : bool :=
  HasPrefix s sub || match s with String _ s => contains sub s | EmptyString => false end.

Definition approvalGate (g : Gate) : bool := bool_decide (is_Some (g_Approval g)) || contains "approvals." (g_Expression g).

Definition HoldExemptible (g : Gate) (env : string) : bool :=
  negb (bool_decide (bundle_of g = "")) && bool_decide (g_environment g = env) && negb (g_freeze g) && negb (approvalGate g).

(** The first unexpired hold on the Bundle. *)
Definition HoldNaming (now : Time) (holds : list GateHold) (bundle : string) : option GateHold :=
  if bool_decide (bundle = "") then None
  else head (filter (λ h, Pending.hd_Bundle (gh_hold h) = bundle ∧ Pending.Expired now (gh_hold h) = false) holds).

(** [VerifyHeldRollback]: why not, in a few words, or nothing. *)
Definition VerifyHeldRollback (rd : Reads) (pipeline : string) (h : GateHold) : option string :=
  let name := Pending.hd_Bundle (gh_hold h) in
  let env := Pending.hd_Environment (gh_hold h) in
  match Rollback.getBundle (rd_bundles rd) name with
  | Got b =>
      if negb (Rollback.b_RollbackLabel b) || negb (bool_decide (Rollback.b_Pipeline b = pipeline))
      then Some ("bundle " +:+ name +:+ " is not a rollback Bundle of pipeline " +:+ pipeline)
      else if bool_decide (gh_Artifacts h = "")
      then Some "the hold records no artifact digest (holds made with kardinal rollback --hold or the UI do)"
      else if negb (bool_decide (ArtifactDigest (Rollback.b_Artifacts b) = gh_Artifacts h))
      then Some ("bundle " +:+ name +:+ " no longer has the artifacts it had when the hold was made")
      else match rd_steps rd with
           | None => Some "the history cannot be read"
           | Some steps =>
               if Rollback.restoresVerified (rd_bundles rd) (History.historyOf steps pipeline env) Rollback.exactImage b then None
               else Some ("it restores what was not Verified in " +:+ env)
           end
  | _ => Some ("bundle " +:+ name)
  end.

(** [holdExemption]: the hold that exempts the gate, and why one does not. *)
Definition holdExemption (rd : Reads) (g : Gate) : option GateHold * string :=
  if bool_decide (g_pipeline g = "") then (None, "")
  else match rd_pipeline rd with
       | None => (None, "")
       | Some holds =>
           match HoldNaming (rd_now rd) holds (bundle_of g) with
           | None => (None, "")
           | Some h =>
               if negb (HoldExemptible g (Pending.hd_Environment (gh_hold h))) then (None, "")
               else match VerifyHeldRollback rd (g_pipeline g) h with Some why => (None, why) | None => (Some h, "") end
           end
       end.

Definition GateExemption (h : GateHold) (gateReason : string) : string :=
  let by_ := if bool_decide (gh_CreatedBy h = "") then "unknown" else gh_CreatedBy h in
  "EXEMPT: rollback " +:+ Pending.hd_Bundle (gh_hold h) +:+ " holds " +:+ Pending.hd_Environment (gh_hold h) +:+ " (by " +:+ by_ +:+ ": " +:+ gh_Reason h +:+
  "); without the hold: " +:+ gateReason.

(** ** One reconcile *)

Record goutcome := mkGOut { go_patches : list GateStatus; go_status : GateStatus; go_result : result }.

(** [markGenerated]: whether the status can be written. *)
Definition writable (g : Gate) : bool :=
  g_Generated g || (str_length (g_Name g) <=? LabelValueMaxLength)%nat || bool_decide (is_Some (g_bundle g)) || g_template g || g_freezeGate g.

Definition bundleSettled (rd : Reads) : bool :=
  match rd_bundle rd with
  | Got b => bool_decide (bv_Phase b = "Superseded") || bool_decide (bv_Phase b = "Rejected") || (bool_decide (bv_Phase b = "Verified") && bv_GraphReady b)
  | _ => false
  end.

Definition reconcileTemplate (g : Gate) (s : GateStatus) : goutcome :=
  if bool_decide (g_Expression g = "") then mkGOut [] s Stop
  else
    let reason := match valid_cel (g_Expression g) with
                  | Some e => "CEL syntax error: " +:+ e
                  | None => "valid CEL syntax (not yet evaluated — awaiting bundle promotion)"
                  end in
    let s' := mkGateStatus (gs_Overrides s) false reason (gs_BundleVersion s) None (gs_ApprovalRequired s) (gs_Condition s) (gs_Approvals s) (gs_Verdicts s) in
    mkGOut [s'] s' Stop.

(** What the expression and the policies say: whether it passes, the reason, and
    whether there was an error. *)
Definition decide_gate (rd : Reads) (g : Gate) (author : Actor) (c : Ctx) (t : ApprovalTally.ApprovalTally) (v : VerdictTally.VerdictTally) : evaluation :=
  let '(required, reqErr) := approvalRequired g c in
  let e := evaluate (g_Expression g) (set_approvals t (negb required || ApprovalTally.Met t) c) in
  let e := match reqErr with
           | Some err => if bool_decide (e_error e = None) || e_pass e then mkEval false ("approval.requiredWhen: " +:+ err) (Some err) else e
           | None => e
           end in
  if e_pass e && bool_decide (e_error e = None) then
    let held := approval_blocked (g_environment g) author t in
    if required && negb (bool_decide (held = "")) then mkEval false held None
    else if negb (bool_decide (verdict_blocked v = "")) then mkEval false (verdict_blocked v) None
    else
      let reason := e_reason e +:+ (if negb required then "; approval not required (approval.requiredWhen is false)"
                                    else if bool_decide (approval_met t = "") then "" else "; " +:+ approval_met t) in
      mkEval true (reason +:+ (if bool_decide (verdict_met v = "") then "" else "; " +:+ verdict_met v)) None
  else e.

(** Whether the expression itself is false: then the reason leads with spec.message. *)
Definition expr_false (rd : Reads) (g : Gate) (c : Ctx) (t : ApprovalTally.ApprovalTally) : bool :=
  let '(required, reqErr) := approvalRequired g c in
  let e := evaluate (g_Expression g) (set_approvals t (negb required || ApprovalTally.Met t) c) in
  negb (e_pass e) && bool_decide (e_error e = None) && bool_decide (reqErr = None).

(** From the evaluation on. *)
Definition evaluate_gate (rd : Reads) (g : Gate) (author : Actor) (c : Ctx) (version : string) (t : ApprovalTally.ApprovalTally)
    (v : VerdictTally.VerdictTally) (s : GateStatus) : goutcome :=
  let recheck := parseRecheckInterval (g_RecheckInterval g) in
  let '(required, reqErr) := approvalRequired g c in
  let e := decide_gate rd g author c t v in
  let approvalReq := if bool_decide (is_Some (g_Approval g)) && bool_decide (reqErr = None) then Some required else gs_ApprovalRequired s in
  let with_note r n := if bool_decide (n = "") then r else r +:+ "; " +:+ n in
  let reason := if e_pass e then e_reason e else with_note (with_note (e_reason e) (rd_notes rd).1) (rd_notes rd).2 in
  let '(h, refused) := if e_pass e then (None, "") else holdExemption rd g in
  let reason := if bool_decide (refused = "") then reason else reason +:+ " (hold exemption refused: " +:+ refused +:+ ")" in
  match h with
  | Some h =>
      let '(l, s') := patchStatusWith rd g true (GateExemption h (WithVersion reason version)) version approvalReq s in
      mkGOut l s' (RequeueAfter (Pending.UntilExpiry (rd_now rd) (gh_hold h) recheck))
  | None =>
      if bool_decide (is_Some (e_error e)) then
        let '(l, s') := patchStatusWith rd g false (WithVersion reason version) version approvalReq s in mkGOut l s' (RequeueAfter recheck)
      else
        let reason := if expr_false rd g c t then BlockedReason (g_Message g) reason version else WithVersion reason version in
        let '(l, s') := patchStatusWith rd g (e_pass e) reason version approvalReq s in
        let d := untilDeadline v (rd_now rd) in
        mkGOut l s' (RequeueAfter (if (0 <? d) && (d <? recheck) then d else recheck))
  end.

Definition prepend (l : list GateStatus) (o : goutcome) : goutcome := mkGOut (l ++ go_patches o) (go_status o) (go_result o).

(** With a context. *)
Definition with_context (rd : Reads) (g : Gate) (author : Actor) (c : Ctx) (version : string) (s : GateStatus) : goutcome :=
  let t := tallyApprovals g s author in
  let '(l1, s1, conflict1) := recordApprovals rd g t s in
  if conflict1 then mkGOut l1 s1 Error_
  else
    prepend l1 match g_Verify g with
    | None => evaluate_gate rd g author c version t (VerdictTally.mkVTally None 0 0 [] [] 0 0 [] VerdictTally.NotHeld None None) s1
    | Some _ =>
        match rd_bundle2 rd with
        | Got b =>
            let v := tallyVerdicts g b (rd_now rd) in
            let '(l2, s2, conflict2) := recordVerdicts rd g v s1 in
            if conflict2 then mkGOut l2 s2 Error_ else prepend l2 (evaluate_gate rd g author c version t v s2)
        | _ => mkGOut [] s1 Error_
        end
    end.

(** A gate instance, once its overrides are recorded. *)
Definition instance (rd : Reads) (g : Gate) (s : GateStatus) : goutcome :=
  let recheck := parseRecheckInterval (g_RecheckInterval g) in
  if bundleSettled rd then mkGOut [] s Stop
  else match findActiveOverride hash12 FormatNano (gs_Overrides s) (g_Overrides g) (g_environment g) (rd_now rd) (maxOverride MaxOverride) with
       | Some a =>
           let '(l, s') := patchStatus rd g true (Override.reason FormatMinute a) (gs_BundleVersion s) s in
           mkGOut l s' (RequeueAfter (Z.min recheck (sub_time (ac_end a) (rd_now rd) + second)))
       | None =>
           match rd_context rd with
           | inl err =>
               let '(l, s') := patchStatus rd g false ("context error: " +:+ err) "" s in mkGOut l s' (RequeueAfter recheck)
           | inr (c, author, version) => with_context rd g author c version s
           end
       end.

(** The patches that record the overrides; the one that marks them audited is followed by
    the write of the records. *)
Definition record_overrides (rd : Reads) (g : Gate) (s : GateStatus) : list GateStatus * GateStatus :=
  let o := gs_Overrides s in
  let max := maxOverride MaxOverride in
  let p1 := record_patch hash12 FormatNano (rd_now rd) (rd_identity rd) (gs_LastEvaluatedAt s) (g_Overrides g) o in
  let audited := auditRecordedOverrides hash12 FormatNano FormatTime Validate coalescers (meta_of g) max (g_Overrides g) (default o p1) in
  let l := (λ o, set_Overrides o s) <$>
    recordOverrides hash12 FormatNano FormatTime Validate coalescers (meta_of g) max (rd_now rd) (rd_identity rd) (gs_LastEvaluatedAt s) (g_Overrides g) o in
  let s' := default s (last l) in
  match audited with
  | None => (l, s')
  | Some _ => let '(l', s'', _) := flushAudit rd s' in (l ++ l', s'')
  end.

Definition reconcile (rd : Reads) (g : Gate) (s : GateStatus) : goutcome :=
  if negb (writable g) then mkGOut [] s Stop
  else
    let '(l, s, auditErr) := flushAudit rd s in
    let o := if bool_decide (bundle_of g = "") then reconcileTemplate g s
             else let '(l1, s1) := record_overrides rd g s in prepend l1 (instance rd g s1) in
    mkGOut (l ++ go_patches o) (go_status o)
      match go_result o with Error_ => Error_ | r => retryAudit r auditErr (Z.of_nat (length (pending (go_status o)))) end.

(** ** The stored status is the one in memory *)

(** After the patches [l] from [s] the status is [s']. *)
Definition patched (s : GateStatus) (l : list GateStatus) (s' : GateStatus) : Prop := s' = default s (last l).

Lemma patched_nil s : patched s [] s.
Proof. done. Qed.

Lemma patched_app s l1 s1 l2 s2 : patched s l1 s1 → patched s1 l2 s2 → patched s (l1 ++ l2) s2.
Proof. unfold patched. intros -> ->. rewrite last_app. by destruct (last l2). Qed.

Lemma patched_cons s s1 l s2 : patched s1 l s2 → patched s (s1 :: l) s2.
Proof. apply (patched_app s [s1] s1). done. Qed.

Lemma flush_patched rd s : patched s (flushAudit rd s).1.1 (flushAudit rd s).1.2.
Proof. unfold flushAudit. destruct (Outbox.flushAudit _ _ _) as [p err]. by case_bool_decide. Qed.

Lemma patchStatusWith_patched rd g r reason v a s : patched s (patchStatusWith rd g r reason v a s).1 (patchStatusWith rd g r reason v a s).2.
Proof.
  unfold patchStatusWith. destruct (_ && _ && _); [done|]. pose proof (flush_patched rd (evaluated rd g r reason v a s)) as H.
  destruct (flushAudit rd _) as [[l s''] err]. by apply patched_cons.
Qed.

Lemma recordApprovals_patched rd g t s : patched s (recordApprovals rd g t s).1.1 (recordApprovals rd g t s).1.2.
Proof.
  unfold recordApprovals. case_bool_decide; [done|]. destruct (rd_approvals rd); try done.
  set (s1 := foldl _ _ (gs_Approvals s)). pose proof (flush_patched rd s1) as Hp. destruct (flushAudit rd s1) as [[l s2] err]. by apply patched_cons.
Qed.

Lemma recordVerdicts_patched rd g t s : patched s (recordVerdicts rd g t s).1.1 (recordVerdicts rd g t s).1.2.
Proof.
  unfold recordVerdicts. case_bool_decide; [done|]. destruct (rd_verdicts rd); try done.
  set (s1 := foldl _ _ (gs_Verdicts s)). pose proof (flush_patched rd s1) as Hp. destruct (flushAudit rd s1) as [[l s2] err]. by apply patched_cons.
Qed.

Lemma evaluate_gate_patched rd g author c version t v s :
  patched s (go_patches (evaluate_gate rd g author c version t v s)) (go_status (evaluate_gate rd g author c version t v s)).
Proof.
  unfold evaluate_gate. destruct (approvalRequired g c) as [required reqErr]. destruct (if e_pass _ then _ else _) as [h refused].
  destruct h as [h|]; [|case_bool_decide];
    match goal with |- context [patchStatusWith rd g ?r ?a ?b ?d s] => pose proof (patchStatusWith_patched rd g r a b d s) as Hp; destruct (patchStatusWith _ _ _ _ _ _ _) end;
    exact Hp.
Qed.

Lemma with_context_patched rd g author c version s :
  patched s (go_patches (with_context rd g author c version s)) (go_status (with_context rd g author c version s)).
Proof.
  unfold with_context. pose proof (recordApprovals_patched rd g (tallyApprovals g s author) s) as H1.
  destruct (recordApprovals _ _ _ _) as [[l1 s1] c1]. destruct c1; [done|]. apply (patched_app _ _ s1); [done|]. simpl.
  destruct (g_Verify g); [|apply evaluate_gate_patched]. destruct (rd_bundle2 rd) as [b| |]; [|done..].
  pose proof (recordVerdicts_patched rd g (tallyVerdicts g b (rd_now rd)) s1) as H2. destruct (recordVerdicts _ _ _ _) as [[l2 s2] c2].
  destruct c2; [done|]. apply (patched_app _ _ s2); [done|]. apply evaluate_gate_patched.
Qed.

Lemma instance_patched rd g s : patched s (go_patches (instance rd g s)) (go_status (instance rd g s)).
Proof.
  unfold instance, patchStatus. destruct (bundleSettled rd); [done|]. destruct (findActiveOverride _ _ _ _ _ _ _); [|destruct (rd_context rd) as [err|[[c author] version]]];
    [..|apply with_context_patched];
    match goal with |- context [patchStatusWith rd g ?r ?a ?b ?d s] => pose proof (patchStatusWith_patched rd g r a b d s) as Hp; destruct (patchStatusWith _ _ _ _ _ _ _) end;
    exact Hp.
Qed.

Lemma record_overrides_patched rd g s : patched s (record_overrides rd g s).1 (record_overrides rd g s).2.
Proof.
  unfold record_overrides. destruct (auditRecordedOverrides _ _ _ _ _ _ _ _ _); [|done].
  set (s' := default s (last _)). pose proof (flush_patched rd s') as H. destruct (flushAudit rd s') as [[l' s''] err]. by apply (patched_app _ _ s').
Qed.

(** The status a reconcile ends with is the one its last patch stored. *)
Lemma reconcile_patched rd g s : patched s (go_patches (reconcile rd g s)) (go_status (reconcile rd g s)).
Proof.
  unfold reconcile. destruct (writable g); [|done]. pose proof (flush_patched rd s) as Hp. destruct (flushAudit rd s) as [[l s1] err]. simpl in *.
  apply (patched_app _ _ s1); [done|]. case_bool_decide.
  - unfold reconcileTemplate. by case_bool_decide.
  - pose proof (record_overrides_patched rd g s1) as H1. destruct (record_overrides rd g s1) as [l1 s2]. apply (patched_app _ _ s2); [done|]. apply instance_patched.
Qed.

(** ** The decision *)

Lemma instance_writable g : bundle_of g ≠ "" → writable g = true.
Proof.
  intros Hb. unfold writable. rewrite (bool_decide_true (is_Some (g_bundle g))); [by rewrite orb_true_r|]. unfold bundle_of in Hb. by destruct (g_bundle g).
Qed.

Lemma enqueue_ready e s : gs_Ready (enqueue e s) = gs_Ready s.
Proof. by destruct e. Qed.

Lemma flush_ready rd s : gs_Ready (flushAudit rd s).1.2 = gs_Ready s.
Proof. unfold flushAudit. destruct (Outbox.flushAudit _ _ _) as [p err]. by case_bool_decide. Qed.

Lemma patchStatusWith_ready rd g r reason v a s : gs_Ready (patchStatusWith rd g r reason v a s).2 = r.
Proof.
  unfold patchStatusWith. destruct (_ && _ && _) eqn:E.
  - apply andb_true_iff in E as [_ E]. revert E. unfold unchangedResult. destruct (gs_LastEvaluatedAt s); [|done].
    destruct (_ || _ || _) eqn:Eo; [done|]. intros _. apply orb_false_iff in Eo as [Eo _]. apply orb_false_iff in Eo as [_ Eo]. by bools.
  - pose proof (flush_ready rd (evaluated rd g r reason v a s)) as Hr. destruct (flushAudit rd _) as [[l s''] err]. simpl in *. rewrite Hr.
    unfold evaluated. destruct (_ || _); [by rewrite enqueue_ready|done].
Qed.

Lemma held_text_empty env author p n : held_text env author (ApprovalTally.approvalPolicyBlock p n author) = "" ↔ ApprovalTally.approvalPolicyBlock p n author = ApprovalTally.ApprovalOpen.
Proof.
  unfold ApprovalTally.approvalPolicyBlock. destruct p as [p|]; [|done].
  destruct (_ <? n); [done|]. destruct (_ && bool_decide _); [done|]. by destruct (_ && _).
Qed.

(** The reason for holding is empty exactly when the policy is met. *)
Lemma approval_blocked_met env author g s :
  approval_blocked env author (tallyApprovals g s author) = "" ↔ ApprovalTally.Met (tallyApprovals g s author) = true.
Proof.
  unfold approval_blocked, ApprovalTally.Met. set (t := tallyApprovals g s author).
  assert (held_text env author (ApprovalTally.Held t) = "" ↔ ApprovalTally.Held t = ApprovalTally.ApprovalOpen) as Hh by apply held_text_empty.
  destruct (_ =? 0); [done|]. rewrite (bool_decide_ext _ _ Hh). case_bool_decide as E; simpl; [|split; [|done]; intros Ht; destruct E; by apply Hh].
  case_bool_decide; simpl; [|done]. destruct (_ <? _) eqn:El.
  - split; [done|]. intros Hl. lia.
  - split; [|done]. intros _. lia.
Qed.

Lemma verdict_blocked_empty v : verdict_blocked v = "" ↔ VerdictTally.Blocked v = VerdictTally.NotBlocked.
Proof. unfold verdict_blocked. destruct (VerdictTally.Blocked v) as [|[]| | | |]; done. Qed.

Lemma evaluate_pass expr c : e_pass (evaluate expr c) && bool_decide (e_error (evaluate expr c) = None) = true ↔ cel expr c = Result true.
Proof. unfold evaluate. destruct (cel expr c) as [| | |[]]; done. Qed.

(** What opens a gate by itself: the expression is true, and the approval policy, where
    it applies, and the verify policy are met. *)
Definition passes (g : Gate) (c : Ctx) (t : ApprovalTally.ApprovalTally) (v : VerdictTally.VerdictTally) : Prop :=
  ∃ required, approvalRequired g c = (required, None) ∧ cel (g_Expression g) (set_approvals t (negb required || ApprovalTally.Met t) c) = Result true ∧
    (required = true → ApprovalTally.Met t = true) ∧ VerdictTally.Blocked v = VerdictTally.NotBlocked.

Lemma decide_gate_iff rd g author c s v :
  let t := tallyApprovals g s author in
  (e_pass (decide_gate rd g author c t v) = true ↔ passes g c t v) ∧ (e_pass (decide_gate rd g author c t v) = true → e_error (decide_gate rd g author c t v) = None).
Proof.
  cbv zeta. set (t := tallyApprovals g s author). unfold decide_gate, passes. destruct (approvalRequired g c) as [required reqErr].
  set (c' := set_approvals t (negb required || ApprovalTally.Met t) c). pose proof (evaluate_pass (g_Expression g) c') as He.
  destruct (evaluate (g_Expression g) c') as [pass reason err] eqn:Eev. simpl in He.
  assert (pass = true → err = None) as Hfc.
  { revert Eev. unfold evaluate. destruct (cel _ c'); intros [= <- _ <-]; done. }
  destruct reqErr as [re|].
  { assert (∀ e, e = (if bool_decide (err = None) || pass then mkEval false ("approval.requiredWhen: " +:+ re) (Some re) else mkEval pass reason err) → e_pass e = false) as Hf.
    { intros e ->. destruct pass; [by rewrite orb_true_r|]. by destruct (bool_decide _). }
    cbn [e_error e_pass]. set (e := if _ || pass then _ else _). rewrite (Hf e eq_refl). cbn [andb]. rewrite (Hf e eq_refl).
    split; [|done]. split; [done|]. by intros (r & [= _ ?] & _). }
  cbn [e_error e_pass e_reason]. destruct (pass && bool_decide (err = None)) eqn:Ep.
  - assert (cel (g_Expression g) c' = Result true) as Hc by (by apply He). pose proof (approval_blocked_met (g_environment g) author g s) as Hm. fold t in Hm.
    destruct (required && negb (bool_decide (approval_blocked _ _ _ = ""))) eqn:Ea.
    { split; [|done]. split; [done|]. intros (r & [= <-] & _ & Hmet & _). apply andb_true_iff in Ea as [-> Ea]. bools. by destruct Ea; apply Hm, Hmet. }
    destruct (negb (bool_decide (verdict_blocked v = ""))) eqn:Ev; bools.
    { split; [|done]. split; [done|]. intros (r & _ & _ & _ & Hv). destruct Ev. by apply verdict_blocked_empty. }
    split; [|done]. split; [|done]. intros _. exists required. split_and!; [done|done| |by apply verdict_blocked_empty].
    intros ->. simpl in Ea. bools. by apply Hm.
  - cbn [e_pass e_error]. split; [|done]. split.
    + intros Hp. rewrite Hp, (bool_decide_true _ (Hfc Hp)) in Ep. done.
    + intros (r & [= <-] & Hc & _). fold c' in Hc. apply He in Hc. congruence.
Qed.

(** The verdicts an evaluation counts. *)
Definition verdicts_of (rd : Reads) (g : Gate) : VerdictTally.VerdictTally :=
  match g_Verify g, rd_bundle2 rd with
  | Some _, Got b => tallyVerdicts g b (rd_now rd)
  | _, _ => VerdictTally.mkVTally None 0 0 [] [] 0 0 [] VerdictTally.NotHeld None None
  end.

Lemma evaluate_gate_ready rd g author c version s0 v s :
  let t := tallyApprovals g s0 author in
  gs_Ready (go_status (evaluate_gate rd g author c version t v s)) = true ↔ passes g c t v ∨ is_Some (holdExemption rd g).1.
Proof.
  cbv zeta. set (t := tallyApprovals g s0 author). destruct (decide_gate_iff rd g author c s0 v) as [Hiff Herr]. fold t in Hiff, Herr.
  unfold evaluate_gate. destruct (approvalRequired g c) as [required reqErr]. destruct (e_pass (decide_gate rd g author c t v)) eqn:Ep.
  - rewrite (Herr eq_refl). rewrite bool_decide_false by (by intros [? ?]).
    match goal with |- context [patchStatusWith rd g true ?a ?b ?d s] => pose proof (patchStatusWith_ready rd g true a b d s) as Hr;
      destruct (patchStatusWith rd g true a b d s) as [l s'] end.
    simpl in *. rewrite Hr. split; [|done]. intros _. left. by apply Hiff.
  - destruct (holdExemption rd g) as [[h|] refused]; simpl.
    + match goal with |- context [patchStatusWith rd g true ?a ?b ?d s] => pose proof (patchStatusWith_ready rd g true a b d s) as Hr;
        destruct (patchStatusWith rd g true a b d s) as [l s'] end.
      simpl in *. rewrite Hr. split; [|done]. intros _. right. by eexists.
    + assert (¬ (passes g c t v ∨ is_Some (@None GateHold))) as Hn. { intros [H|[? ?]]; [|done]. apply Hiff in H. done. }
      case_bool_decide;
      match goal with |- context [patchStatusWith rd g false ?a ?b ?d s] => pose proof (patchStatusWith_ready rd g false a b d s) as Hr;
        destruct (patchStatusWith rd g false a b d s) as [l s'] end; simpl in *; rewrite Hr; split; by try intros ?%Hn.
Qed.

Lemma with_context_ready rd g author c version s :
  go_result (with_context rd g author c version s) ≠ Error_ →
  gs_Ready (go_status (with_context rd g author c version s)) = true ↔
  passes g c (tallyApprovals g s author) (verdicts_of rd g) ∨ is_Some (holdExemption rd g).1.
Proof.
  unfold with_context, verdicts_of. destruct (recordApprovals _ _ _ _) as [[l1 s1] c1]. destruct c1; [done|]. simpl.
  destruct (g_Verify g); [|intros _; apply evaluate_gate_ready]. destruct (rd_bundle2 rd) as [b| |]; [|done..].
  destruct (recordVerdicts _ _ _ _) as [[l2 s2] c2]. destruct c2; [done|]. simpl. intros _. apply evaluate_gate_ready.
Qed.

(** What lets a promotion through: an override in effect; without one, the expression
    and the policies of the gate, or a hold on the rollback. *)
Definition opened (rd : Reads) (g : Gate) (s : GateStatus) : Prop :=
  let active := findActiveOverride hash12 FormatNano (gs_Overrides s) (g_Overrides g) (g_environment g) (rd_now rd) (maxOverride MaxOverride) in
  is_Some active ∨
  (active = None ∧ ∃ c author version, rd_context rd = inr (c, author, version) ∧
     (passes g c (tallyApprovals g s author) (verdicts_of rd g) ∨ is_Some (holdExemption rd g).1)).

Lemma instance_ready rd g s :
  bundleSettled rd = false → go_result (instance rd g s) ≠ Error_ → gs_Ready (go_status (instance rd g s)) = true ↔ opened rd g s.
Proof.
  intros Hs. unfold instance, opened, patchStatus. rewrite Hs. cbv zeta.
  destruct (findActiveOverride _ _ _ _ _ _ _) as [a|]; [|destruct (rd_context rd) as [err|[[c author] version]]].
  - match goal with |- context [patchStatusWith rd g true ?a ?b ?d s] => pose proof (patchStatusWith_ready rd g true a b d s) as Hr;
      destruct (patchStatusWith rd g true a b d s) as [l s'] end.
    simpl in *. intros _. rewrite Hr. split; [|done]. intros _. left. by eexists.
  - match goal with |- context [patchStatusWith rd g false ?a ?b ?d s] => pose proof (patchStatusWith_ready rd g false a b d s) as Hr;
      destruct (patchStatusWith rd g false a b d s) as [l s'] end.
    simpl in *. intros _. rewrite Hr. split; [done|]. intros [[? ?]|(_ & ? & ? & ? & ? & _)]; done.
  - intros He. rewrite with_context_ready by done. split; [intros H; right; split; [done|]; by exists c, author, version|].
    intros [[? ?]|(_ & c' & author' & version' & [= <- <- <-] & H)]; done.
Qed.

(** C5. A gate says exactly what its rules say.  After a reconcile of a gate instance
    whose Bundle is not settled, in which no read or write failed for good, the stored
    status.ready is true if and only if an override of a person is in effect, or the
    context could be built and either the expression is true and the approval policy
    (where requiredWhen asks for it) and the verify policy are met, or a hold exempts
    this rollback, whatever became of its expression.  So an expression that fails to
    evaluate or a context that cannot be built closes the gate, an exempting hold (for the
    former) and an override apart; a status that is not written again says the same already.
    A reconcile that ends in an error, such as a Bundle that cannot be read, leaves ready as
    it was and is not covered. *)
Theorem gate_open_iff rd g s :
  bundle_of g ≠ "" → bundleSettled rd = false → go_result (reconcile rd g s) ≠ Error_ →
  gs_Ready (default s (last (go_patches (reconcile rd g s)))) = true ↔ opened rd g (record_overrides rd g (flushAudit rd s).1.2).2.
Proof.
  intros Hb Hs He. rewrite <- (reconcile_patched rd g s). revert He. unfold reconcile.
  rewrite (instance_writable g Hb).
  simpl. destruct (flushAudit rd s) as [[l s1] err]. rewrite (bool_decide_false _ Hb). cbn [fst snd].
  destruct (record_overrides rd g s1) as [l1 s2]. simpl. intros He. apply instance_ready; [done|]. intros E. by rewrite E in He.
Qed.

(** ** Exemptions *)

Lemma head_Some_elem_of_filter {A} (P : A → Prop) `{!∀ x, Decision (P x)} l x : head (filter P l) = Some x → x ∈ l ∧ P x.
Proof.
  intros Hh. assert (x ∈ filter P l) as [? ?]%list_elem_of_filter; [|done]. destruct (filter P l); [done|]. injection Hh as ->. by left.
Qed.

(** A Bundle [v] other than [b] that was verified in the history. *)
Definition verified_before (rd : Reads) (hist : History.envHistory) (b v : Rollback.Bundle) : Prop :=
  ∃ name, name ∈ History.verifiedNewestFirst hist ∧ name ≠ Rollback.b_Name b ∧ Rollback.getBundle (rd_bundles rd) name = Got v.

Lemma verified_artifacts_elem rd hist b a :
  a ∈ Rollback.verified_artifacts (rd_bundles rd) hist b → ∃ v, verified_before rd hist b v ∧ Rollback.b_Artifacts v = a.
Proof.
  unfold Rollback.verified_artifacts. intros (name & Hn & Hv)%list_elem_of_omap. revert Hv. case_bool_decide; [done|].
  destruct (Rollback.getBundle _ name) as [v| |] eqn:E; [|done..]. intros [= <-]. exists v. split; [|done]. by exists name.
Qed.

(** Everything [b] deploys was deployed by a Bundle verified there. *)
Lemma restoresVerified_sound rd hist b :
  Rollback.restoresVerified (rd_bundles rd) hist Rollback.exactImage b = true →
  History.verifiedIn hist (Rollback.b_RollbackOf b) = true ∧
  (∀ i, i ∈ Rollback.Images (Rollback.b_Artifacts b) → ∃ v, verified_before rd hist b v ∧ i ∈ Rollback.Images (Rollback.b_Artifacts v)) ∧
  (∀ c, Rollback.ConfigRef_ (Rollback.b_Artifacts b) = Some c → ∃ v, verified_before rd hist b v ∧ Rollback.ConfigRef_ (Rollback.b_Artifacts v) = Some c) ∧
  (∀ c, Rollback.Chart (Rollback.b_Artifacts b) = Some c → ∃ v, verified_before rd hist b v ∧ Rollback.Chart (Rollback.b_Artifacts v) = Some c).
Proof.
  unfold Rollback.restoresVerified. case_bool_decide; [done|]. destruct (History.verifiedIn _ _) eqn:Ev; simpl; [|done].
  destruct (Rollback.getBundle _ _) as [target| |]; [|done..]. intros [_ Ho]%andb_true_iff. unfold Rollback.onlyVerifiedArtifacts in Ho.
  apply andb_true_iff in Ho as [Ho Hch]. apply andb_true_iff in Ho as [Him Hcf]. split_and!; [done|..].
  - intros i Hi. rewrite forallb_forall in Him. specialize (Him i (proj1 (list_elem_of_In _ _) Hi)). apply existsb_exists in Him as (j & Hj & Hx).
    unfold Rollback.exactImage in Hx. bools. subst j. apply list_elem_of_In, list_elem_of_join in Hj as (l & Hl & Hj).
    apply list_elem_of_fmap in Hj as (a & -> & (v & Hv & <-)%verified_artifacts_elem). by exists v.
  - intros c Hc. rewrite Hc in Hcf. bools. apply list_elem_of_fmap in Hcf as (a & Ea & (v & Hv & <-)%verified_artifacts_elem). by exists v.
  - intros c Hc. rewrite Hc in Hch. bools. apply list_elem_of_fmap in Hch as (a & Ea & (v & Hv & <-)%verified_artifacts_elem). by exists v.
Qed.

(** C6. A hold lets only a known version pass.  When a gate is exempted, it is not an
    approval gate nor a freeze gate; an unexpired hold of its Pipeline names its Bundle
    and its environment; the Bundle is a rollback Bundle of the Pipeline that still has
    the artifacts the hold recorded; what it rolls back to was verified in the
    environment, and so was a Bundle, other than itself, with each image, configuration
    and chart it deploys. *)
Theorem exemption_restores_verified rd g h :
  (holdExemption rd g).1 = Some h →
  approvalGate g = false ∧ g_freeze g = false ∧ Pending.hd_Bundle (gh_hold h) = bundle_of g ∧ Pending.hd_Environment (gh_hold h) = g_environment g ∧
  Pending.Expired (rd_now rd) (gh_hold h) = false ∧ (∃ holds, rd_pipeline rd = Some holds ∧ h ∈ holds) ∧
  ∃ b steps, Rollback.getBundle (rd_bundles rd) (bundle_of g) = Got b ∧ rd_steps rd = Some steps ∧ Rollback.b_RollbackLabel b = true ∧
    Rollback.b_Pipeline b = g_pipeline g ∧ gh_Artifacts h ≠ "" ∧ ArtifactDigest (Rollback.b_Artifacts b) = gh_Artifacts h ∧
    let hist := History.historyOf steps (g_pipeline g) (g_environment g) in
    History.verifiedIn hist (Rollback.b_RollbackOf b) = true ∧
    (∀ i, i ∈ Rollback.Images (Rollback.b_Artifacts b) → ∃ v, verified_before rd hist b v ∧ i ∈ Rollback.Images (Rollback.b_Artifacts v)) ∧
    (∀ c, Rollback.ConfigRef_ (Rollback.b_Artifacts b) = Some c → ∃ v, verified_before rd hist b v ∧ Rollback.ConfigRef_ (Rollback.b_Artifacts v) = Some c) ∧
    (∀ c, Rollback.Chart (Rollback.b_Artifacts b) = Some c → ∃ v, verified_before rd hist b v ∧ Rollback.Chart (Rollback.b_Artifacts v) = Some c).
Proof.
  unfold holdExemption. case_bool_decide as Hpl; [done|]. destruct (rd_pipeline rd) as [holds|]; [|done].
  destruct (HoldNaming _ _ _) as [h'|] eqn:En; [|done]. destruct (HoldExemptible _ _) eqn:Ee; simpl; [|done].
  destruct (VerifyHeldRollback rd (g_pipeline g) h') as [why|] eqn:Ev; [done|]. intros [= <-].
  unfold HoldNaming in En. revert En. case_bool_decide; [done|]. intros (Hin & Hb & Hx)%head_Some_elem_of_filter.
  unfold HoldExemptible in Ee. bools. split_and!; try done; [by exists holds|].
  unfold VerifyHeldRollback in Ev. rewrite Hb in Ev. destruct (Rollback.getBundle _ _) as [b| |] eqn:Eg; [|done..].
  destruct (_ || _) eqn:El; [done|]. apply orb_false_iff in El as [El1 El2]. bools. revert Ev. case_bool_decide as Ea; [done|].
  case_bool_decide as Ed; simpl; [|done]. destruct (rd_steps rd) as [steps|] eqn:Es; [|done]. destruct (Rollback.restoresVerified _ _ _ _) eqn:Er; [|done].
  intros _. apply restoresVerified_sound in Er. match goal with H : g_environment g = _ |- _ => rewrite <- H in Er end.
  destruct Er as (? & ? & ? & ?). exists b, steps. by split_and!.
Qed.

(** ** A step that waits gets a fresh result *)

Lemma flush_evaluatedAt rd s : gs_LastEvaluatedAt (flushAudit rd s).1.2 = gs_LastEvaluatedAt s.
Proof. unfold flushAudit. destruct (Outbox.flushAudit _ _ _) as [p err]. by case_bool_decide. Qed.

(** A step that waits for the gate: not started, and created after the result. *)
Definition waits (rd : Reads) (g : Gate) (created : Time) : Prop :=
  ∀ steps, rd_waiting rd = Some steps → ∃ ps, ps ∈ steps ∧ (sv_State ps = "" ∨ sv_State ps = "Pending") ∧ g_Name g ∈ sv_RequiredGates ps ∧ sv_Created ps = created.

Lemma patchStatusWith_fresh rd g r reason v a s created :
  waits rd g created → created ≤ rd_now rd → ∃ t, gs_LastEvaluatedAt (patchStatusWith rd g r reason v a s).2 = Some t ∧ created ≤ t.
Proof.
  intros Hw Hc. unfold patchStatusWith. destruct (_ && _ && _) eqn:E.
  - apply andb_true_iff in E as [_ E]. revert E. unfold unchangedResult. destruct (gs_LastEvaluatedAt s) as [t|] eqn:Et; [|done].
    destruct (_ || _ || _); [done|]. destruct (_ <=? _); [done|]. destruct (gs_Condition s); [|done]. destruct (negb _); [done|].
    unfold freshResultWanted. destruct (rd_waiting rd) as [steps|] eqn:Es; [|done]. intros Hn. simpl. exists t. split; [done|].
    destruct (Hw steps Es) as (ps & Hps & Hst & Hg & <-). apply negb_true_iff in Hn. destruct (decide (t < sv_Created ps)) as [Hlt|]; [|lia].
    exfalso. apply not_true_iff_false in Hn. apply Hn, existsb_exists. exists ps. split; [by apply list_elem_of_In|]. rewrite Et.
    rewrite !andb_true_iff, orb_true_iff, !bool_decide_eq_true, Z.ltb_lt. done.
  - pose proof (flush_evaluatedAt rd (evaluated rd g r reason v a s)) as Hf. destruct (flushAudit rd _) as [[l s''] err]. simpl in *. rewrite Hf.
    exists (rd_now rd). split; [|done]. unfold evaluated. destruct (_ || _); [|done]. by destruct (gateAuditEntry _ _ _ _).
Qed.

Lemma evaluate_gate_fresh rd g author c version t v s created :
  waits rd g created → created ≤ rd_now rd → ∃ x, gs_LastEvaluatedAt (go_status (evaluate_gate rd g author c version t v s)) = Some x ∧ created ≤ x.
Proof.
  intros Hw Hc. unfold evaluate_gate. destruct (approvalRequired g c) as [required reqErr]. destruct (if e_pass _ then _ else _) as [h refused].
  destruct h as [h|]; [|case_bool_decide];
    match goal with |- context [patchStatusWith rd g ?r ?a ?b ?d s] => pose proof (patchStatusWith_fresh rd g r a b d s created Hw Hc) as Hp;
      destruct (patchStatusWith rd g r a b d s) as [l s'] end; exact Hp.
Qed.

(** A step never waits for ever for a gate to be evaluated again: when a step
    that has not started requires the gate and was created after its result, a reconcile
    of the gate instance that does not fail stores a result that is not older than the
    step, although a result that does not change is otherwise not written. *)
Theorem waiting_step_gets_result rd g s created :
  bundle_of g ≠ "" → bundleSettled rd = false → go_result (reconcile rd g s) ≠ Error_ → waits rd g created → created ≤ rd_now rd →
  ∃ t, gs_LastEvaluatedAt (default s (last (go_patches (reconcile rd g s)))) = Some t ∧ created ≤ t.
Proof.
  intros Hb Hs He Hw Hc. rewrite <- (reconcile_patched rd g s). revert He. unfold reconcile.
  rewrite (instance_writable g Hb).
  simpl. destruct (flushAudit rd s) as [[l s1] err]. rewrite (bool_decide_false _ Hb). destruct (record_overrides rd g s1) as [l1 s2]. simpl. intros He.
  assert (go_result (instance rd g s2) ≠ Error_) as Hi by (intros E; by rewrite E in He). clear He. revert Hi. unfold instance, patchStatus. rewrite Hs.
  destruct (findActiveOverride _ _ _ _ _ _ _) as [a|]; [|destruct (rd_context rd) as [e|[[c author] version]]].
  { match goal with |- context [patchStatusWith rd g ?r ?a ?b ?d s2] => pose proof (patchStatusWith_fresh rd g r a b d s2 created Hw Hc) as Hp;
    destruct (patchStatusWith rd g r a b d s2) as [l' s'] end. intros _. exact Hp. }
  { match goal with |- context [patchStatusWith rd g ?r ?a ?b ?d s2] => pose proof (patchStatusWith_fresh rd g r a b d s2 created Hw Hc) as Hp;
    destruct (patchStatusWith rd g r a b d s2) as [l' s'] end. intros _. exact Hp. }
  unfold with_context. destruct (recordApprovals _ _ _ _) as [[l2 s3] c1]. destruct c1; [done|]. simpl.
  destruct (g_Verify g); [|intros _; by apply evaluate_gate_fresh]. destruct (rd_bundle2 rd) as [b| |]; [|done..].
  destruct (recordVerdicts _ _ _ _) as [[l3 s4] c2]. destruct c2; [done|]. simpl. intros _. by apply evaluate_gate_fresh.
Qed.
End gate.

(** ** Witnesses *)

Definition demo_gate : Gate := mkGate "g" (Some "rb") "app" "prod" true false false true 1 "!schedule.isWeekend" "" "" None [] None [] [].

Definition demo_status : GateStatus := mkGateStatus fresh false "" "" None None None [] [].

Definition demo_author : Actor := mkActor ActorHuman "alice" "" "" "" None.

Definition demo_hold : GateHold := mkGateHold (Pending.mkHold "prod" "rb" None) "alice" "INC-1" "d".

Definition demo_rollback : Rollback.Bundle :=
  Rollback.mkBundle "rb" "app" (Rollback.b_Artifacts Rollback.demo_v1) false "" None true None "" "v1" "" "" "" 2 None.

Definition demo_snapshot : Rollback.Snapshot :=
  Rollback.mkSnapshot (λ n, if bool_decide (n = "v1") then Got Rollback.demo_v1 else if bool_decide (n = "rb") then Got demo_rollback else Missing)
    (Some []) (Some []).

Definition demo_reads : Reads unit :=
  mkReads unit 100 true (λ _, Created) true (Got (mkBundleView "Promoting" false "u" demo_author [])) Missing (inr (tt, demo_author, "1")) ("", "") POk POk
    (Some [mkStepView "" ["g"] 90]) (Some [demo_hold]) demo_snapshot (Some Rollback.demo_steps).

Definition demo_text (_ : Z) : string := "t".

(** A reconcile with every parameter fixed; the expression is true. *)
Definition demo_reconcile (rd : Reads unit) (g : Gate) (s : GateStatus) : goutcome :=
  reconcile (λ s, s) unit (λ _ _, Result true) "x" (600 * second) 0 (λ _, None) (λ s, s) demo_text demo_text demo_text (λ _, "d") (λ _ _, "") (λ _ _, "")
    (λ _, None) (λ _ _ c, c) (λ _, true) (λ _, true) (λ _, None) (λ _, true) ∅ rd g s.

Lemma gate_open_iff_witness :
  gs_Ready (default demo_status (last (go_patches (demo_reconcile demo_reads demo_gate demo_status)))) = true.
Proof.
  unfold demo_reconcile. refine (proj2 (gate_open_iff (λ s, s) unit (λ _ _, Result true) "x" (600 * second) 0 (λ _, None) (λ s, s) demo_text demo_text demo_text (λ _, "d")
    (λ _ _, "") (λ _ _, "") (λ _, None) (λ _ _ c, c) (λ _, true) (λ _, true) (λ _, None) (λ _, true) ∅ demo_reads demo_gate demo_status _ _ _) _).
  - discriminate.
  - reflexivity.
  - vm_compute. discriminate.
  - right. split; [vm_compute; reflexivity|]. exists tt, demo_author, "1". split; [reflexivity|]. left. exists true. split_and!; reflexivity.
Defined.

Lemma exemption_restores_verified_witness :
  (holdExemption unit (λ _, "d") demo_reads demo_gate).1 = Some demo_hold ∧ approvalGate demo_gate = false.
Proof.
  assert ((holdExemption unit (λ _, "d") demo_reads demo_gate).1 = Some demo_hold) as E by (vm_compute; reflexivity).
  split; [exact E|]. exact (proj1 (exemption_restores_verified unit (λ _, "d") demo_reads demo_gate demo_hold E)).
Defined.

Lemma waiting_step_gets_result_witness :
  ∃ t, gs_LastEvaluatedAt (default demo_status (last (go_patches (demo_reconcile demo_reads demo_gate demo_status)))) = Some t ∧ 90 ≤ t.
Proof.
  unfold demo_reconcile. refine (waiting_step_gets_result (λ s, s) unit (λ _ _, Result true) "x" (600 * second) 0 (λ _, None) (λ s, s) demo_text demo_text demo_text (λ _, "d")
    (λ _ _, "") (λ _ _, "") (λ _, None) (λ _ _ c, c) (λ _, true) (λ _, true) (λ _, None) (λ _, true) ∅ demo_reads demo_gate demo_status 90 _ _ _ _ _).
  - discriminate.
  - reflexivity.
  - vm_compute. discriminate.
  - intros steps [= <-]. exists (mkStepView "" ["g"] 90). split_and!; [left|by left|left|reflexivity].
  - vm_compute. discriminate.
Defined.
End PolicyGate.
