(* ===== verification/Store.v ===== *)
(** * Store: an object that several clients read and write

    The API server as the client code relies on it: every write of an object gets a
    new resourceVersion, and an update that carries an older one is refused with a
    conflict.  A function that runs under client-go's RetryOnConflict reads the object,
    decides, and updates it; a conflict runs it again.  Other clients write in between,
    and the answer to a write that was applied can be lost.  The loop is shown to be
    an atomic read-modify-write once, for [Hold] and [Pause]. *)

From stdpp Require Import base gmap strings list.
From Stdlib Require Import Lia ZArith.
From S2P Require Import Prelude.

Module Store.

Section store.
Context {P : Type}.

(** The revision of the server and the object, with its resourceVersion. *)
Record store := mkStore { revision : Z; object : option (Z * P) }.

Definition version_ok (s : store) : Prop := match object s with Some (v, _) => v ≤ revision s | None => True end.

Definition value (s : store) : option P := snd <$> object s.

(** A write. *)
Definition put (p : P) (s : store) : store := mkStore (revision s + 1) (Some (revision s + 1, p)).

(** What other clients can do between two calls: leave the object, delete it, or write
    it with a version that was not given out before. *)
Definition others (s t : store) : Prop :=
  revision s ≤ revision t ∧
  (object t = object s ∨ object t = None ∨ ∃ v p, object t = Some (v, p) ∧ revision s < v ≤ revision t).

Lemma others_refl s : others s s.
Proof. split; [lia|by left]. Qed.

Lemma others_trans s t u : others s t → others t u → others s u.
Proof.
  intros [H1 Ho1] [H2 Ho2]. split; [lia|]. destruct Ho2 as [->|[->|(v & p & -> & Hv)]].
  - destruct Ho1 as [->|[->|(v & p & -> & Hv)]]; [by left|right; by left|]. right. right. exists v, p. split; [done|lia].
  - right. by left.
  - right. right. exists v, p. split; [done|lia].
Qed.

Lemma others_version_ok s t : version_ok s → others s t → version_ok t.
Proof.
  unfold version_ok. intros Hs [Hr [->|[->|(v & p & -> & Hv)]]]; [|done|lia]. destruct (object s) as [[v p]|]; [lia|done].
Qed.

(** Two reads of one version read the same object. *)
Lemma others_same_version s t v p q :
  version_ok s → others s t → object s = Some (v, p) → object t = Some (v, q) → p = q.
Proof.
  unfold version_ok. intros Hs [_ Ho] Es Et. rewrite Es in *. rewrite Et in Ho.
  destruct Ho as [[= ->]|[?|(v' & p' & [= <- <-] & ?)]]; [done|done|lia].
Qed.

(** ** One attempt *)

(** How an update that is not refused ends: applied, applied with an error for an
    answer, or failed. *)
Inductive answer := Answered | Lost | Failed.

(** The clock and the store at the read, whether the read fails, the store at the
    update and its answer. *)
Record attempt := mkAttempt {
  at_now : Time;
  at_read : store;
  at_readable : bool;
  at_write : store;
  at_answer : answer
}.

Context {E A : Type}.

(** How a call ends: without an error, refused by the code itself, with a conflict, or
    with another error of the API. *)
Inductive outcome := Done | Refused (e : E) | Conflicted | APIError.

(** The body: from the clock and the object ([None]: not found) what it notes for its
    caller, and a refusal or the object to write, if it writes. *)
Abbreviation body := (Time → option P → option A * (E + option P)).

Definition note (acc : option A) (x : option A) : option A := match x with Some a => Some a | None => acc end.

Definition run_attempt (f : body) (a : attempt) (acc : option A) : store * option A * outcome :=
  if negb (at_readable a) then (at_read a, acc, APIError)
  else
    let '(x, d) := f (at_now a) (value (at_read a)) in
    match d with
    | inl e => (at_read a, note acc x, Refused e)
    | inr None => (at_read a, note acc x, Done)
    | inr (Some p) =>
        match object (at_read a), object (at_write a) with
        | Some (v, _), Some (v', _) =>
            if v =? v' then
              match at_answer a with
              | Answered => (put p (at_write a), note acc x, Done)
              | Lost => (put p (at_write a), note acc x, APIError)
              | Failed => (at_write a, note acc x, APIError)
              end
            else (at_write a, note acc x, Conflicted)
        | _, _ => (at_write a, note acc x, APIError)
        end
    end.

(** [retry.RetryOnConflict]: as many attempts as it makes. *)
Fixpoint RetryOnConflict (f : body) (l : list attempt) (acc : option A) (s : store) : store * option A * outcome :=
  match l with
  | [] => (s, acc, Conflicted)
  | a :: l =>
      match run_attempt f a acc with
      | (s', acc', Conflicted) => RetryOnConflict f l acc' s'
      | r => r
      end
  end.

(** The stores the attempts see follow each other by the writes of others. *)
Fixpoint schedule (s : store) (l : list attempt) : Prop :=
  match l with
  | [] => True
  | a :: l => others s (at_read a) ∧ others (at_read a) (at_write a) ∧ schedule (at_write a) l
  end.

(** ** The loop is one atomic step *)

(** What one atomic read-modify-write of [t] does. *)
Inductive atomic (f : body) (now : Time) (t : store) : store → option A → outcome → Prop :=
  | atomic_refused x e : f now (value t) = (x, inl e) → atomic f now t t x (Refused e)
  | atomic_kept x : f now (value t) = (x, inr None) → atomic f now t t x Done
  | atomic_written x p : f now (value t) = (x, inr (Some p)) → is_Some (object t) → atomic f now t (put p t) x Done.

(** The specification of a call that may fail: nothing but the writes of others, or one
    atomic step after some of them, of which the answer may be lost. *)
Definition atomically (f : body) (s s' : store) (acc' : option A) (o : outcome) : Prop :=
  match o with
  | Conflicted => others s s'
  | APIError => others s s' ∨ ∃ now t x, others s t ∧ atomic f now t s' x Done ∧ s' ≠ t
  | _ => ∃ now t x, others s t ∧ atomic f now t s' x o ∧ ∃ acc, acc' = note acc x
  end.

Lemma atomically_later f s t s' acc o : others s t → atomically f t s' acc o → atomically f s s' acc o.
Proof.
  intros Hst. assert (∀ u, others t u → others s u) as Ht by (intros u; by apply others_trans).
  destruct o as [|e| |]; simpl; [| |by apply Ht|].
  - intros (now & u & x & ? & ? & ?). exists now, u, x. auto.
  - intros (now & u & x & ? & ? & ?). exists now, u, x. auto.
  - intros [?|(now & u & x & ? & ? & ?)]; [left; auto|]. right. exists now, u, x. auto.
Qed.

Lemma put_ne p s : put p s ≠ s.
Proof. intros H%(f_equal revision). simpl in H. lia. Qed.

Lemma run_attempt_atomic f a acc s' acc' o :
  version_ok (at_read a) → others (at_read a) (at_write a) → run_attempt f a acc = (s', acc', o) →
  atomically f (at_read a) s' acc' o ∧ (o = Conflicted → s' = at_write a).
Proof.
  intros Hv Hw. unfold run_attempt. destruct (at_readable a); cbn [negb].
  2: { intros [= <- <- <-]. split; [left; apply others_refl|done]. }
  destruct (f (at_now a) (value (at_read a))) as [x [e|[p|]]] eqn:Ef.
  - intros [= <- <- <-]. split; [|done]. exists (at_now a), (at_read a), x. split; [apply others_refl|]. split; [by constructor|by exists acc].
  - destruct (object (at_read a)) as [[v q]|] eqn:Er.
    2: { intros [= <- <- <-]. split; [by left|done]. }
    destruct (object (at_write a)) as [[v' q']|] eqn:Ew.
    2: { intros [= <- <- <-]. split; [by left|done]. }
    destruct (Z.eqb_spec v v') as [->|].
    2: { intros [= <- <- <-]. by split. }
    assert (atomic f (at_now a) (at_write a) (put p (at_write a)) x Done) as Hat.
    { apply atomic_written; [|by rewrite Ew]. rewrite <- Ef. f_equal. unfold value. rewrite Er, Ew. simpl. f_equal. symmetry.
      by apply (others_same_version _ _ v' q q' Hv Hw Er Ew). }
    destruct (at_answer a); intros [= <- <- <-]; (split; [|done]).
    + exists (at_now a), (at_write a), x. split; [done|]. split; [done|by exists acc].
    + right. exists (at_now a), (at_write a), x. split; [done|]. split; [done|apply put_ne].
    + by left.
  - intros [= <- <- <-]. split; [|done]. exists (at_now a), (at_read a), x. split; [apply others_refl|]. split; [by constructor|by exists acc].
Qed.

Theorem retry_atomic f l acc s s' acc' o :
  version_ok s → schedule s l → RetryOnConflict f l acc s = (s', acc', o) → atomically f s s' acc' o.
Proof.
  revert acc s. induction l as [|a l IH]; intros acc s Hv.
  { intros _ [= <- <- <-]. apply others_refl. }
  intros (Hr & Hw & Hl). cbn [RetryOnConflict].
  destruct (run_attempt f a acc) as [[s1 acc1] o1] eqn:Ea.
  pose proof (others_version_ok _ _ Hv Hr) as Hvr.
  destruct (run_attempt_atomic f a acc s1 acc1 o1 Hvr Hw Ea) as [Hat Hc].
  destruct o1 as [|e| |]; try (intros [= <- <- <-]; by apply (atomically_later _ _ (at_read a))).
  rewrite (Hc eq_refl) in *. intros H. apply (atomically_later _ _ (at_read a)); [done|].
  apply (atomically_later _ _ (at_write a)); [done|]. apply (IH acc1); [by apply (others_version_ok (at_read a))|done|done].
Qed.

(** Without others in between, the first attempt settles it. *)
Lemma retry_undisturbed f now s l acc x p :
  f now (value s) = (x, inr (Some p)) → is_Some (object s) →
  RetryOnConflict f (mkAttempt now s true s Answered :: l) acc s = (put p s, note acc x, Done).
Proof.
  intros Hf [[v q] Ho]. cbn [RetryOnConflict]. unfold run_attempt. cbn [at_readable at_now at_read at_write at_answer negb].
  by rewrite Hf, Ho, Z.eqb_refl.
Qed.

Lemma value_put p s : value (put p s) = Some p.
Proof. done. Qed.

Lemma atomic_inv_done f now t s' x :
  atomic f now t s' x Done → (f now (value t) = (x, inr None) ∧ s' = t) ∨
  ∃ p v q, f now (value t) = (x, inr (Some p)) ∧ object t = Some (v, q) ∧ s' = put p t.
Proof.
  inversion 1; subst; [by left|]. right. destruct H1 as [[v q] Ho]. by exists p, v, q.
Qed.
End store.

Arguments store : clear implicits.
Arguments attempt : clear implicits.
Arguments outcome : clear implicits.
End Store.
