(* ===== verification/Hold.v ===== *)
(** * Hold: holding an environment on a Bundle

    Model of the operations on spec.holds of src/pkg/lifecycle/hold.go (exactHold,
    HoldOf, HeldFrom, setHold, ReleaseHold, HoldCurrent, fleetDeployed and
    RollbackAndHold), of buildRollbackBundle (rollback.go), CreateBundleAs (creator.go),
    recordChange and MarkActorCheck (pause.go).  The Pipeline is an object of [Store]
    that other clients write too; [RollbackFleet] plans the rollback and [History] says
    what runs.  Random ids and names are inputs. *)

From stdpp Require Import base gmap strings list sorting.
From Stdlib Require Import Lia ZArith.
From S2P Require Import Prelude Topo Ordering Fleet Actor Engine StepStatus Hooks Outbox Bake Transition Cancel Pending PolicyGate History Rollback RollbackFleet Store.
Import StepStatus.StepStatus Cancel.Cancel History.History Rollback.Rollback Store.Store.

Module Hold.
Import PolicyGate.PolicyGate(GateHold, mkGateHold, gh_hold, gh_CreatedBy, gh_Reason, gh_Artifacts, GateExemption).

(** ** Data *)

(** An entry of spec.holds. *)
Record Hold := mkHold { h_gate : GateHold; h_Actor : option Actor.Actor; h_CreatedAt : option Time }.

Abbreviation h_hold h := (gh_hold (h_gate h)).
Abbreviation h_Environment h := (Pending.hd_Environment (h_hold h)).
Abbreviation h_Bundle h := (Pending.hd_Bundle (h_hold h)).
Abbreviation h_ExpiresAt h := (Pending.hd_ExpiresAt (h_hold h)).
Abbreviation h_Reason h := (gh_Reason (h_gate h)).

#[local] Existing Instance Actor.Actor_eq_dec.
#[export] Instance EnvironmentHold_eq_dec : EqDecision Pending.EnvironmentHold.
Proof. solve_decision. Defined.
#[export] Instance GateHold_eq_dec : EqDecision GateHold.
Proof. solve_decision. Defined.
#[export] Instance Hold_eq_dec : EqDecision Hold.
Proof. solve_decision. Defined.

(** spec.lastChange. *)
Record PipelineChange := mkChange {
  ch_Action : string; ch_Target : string; ch_By : string; ch_Reason : string; ch_Actor : option Actor.Actor; ch_ID : string
}.

#[export] Instance PipelineChange_eq_dec : EqDecision PipelineChange.
Proof. solve_decision. Defined.

Definition PipelineChangePause : string := "Pause".
Definition PipelineChangeResume : string := "Resume".
Definition PipelineChangePauseFleet : string := "PauseFleet".
Definition PipelineChangeResumeFleet : string := "ResumeFleet".
Definition PipelineChangeReleaseHold : string := "ReleaseHold".

(** A Pipeline: its environments, paused fleets and resolved fleets ([pp_Fleets]), its
    holds, spec.paused, spec.lastChange, and whether the label kardinal.io/actor-check
    is "true". *)
Record Pipeline := mkPipe {
  pp_Name : string;
  pp_UID : string;
  pp_Fleets : Fleet.Pipeline;
  pp_Holds : list Hold;
  pp_Paused : bool;
  pp_LastChange : option PipelineChange;
  pp_ActorCheck : bool
}.

Definition set_Holds (hs : list Hold) (p : Pipeline) : Pipeline :=
  mkPipe (pp_Name p) (pp_UID p) (pp_Fleets p) hs (pp_Paused p) (pp_LastChange p) (pp_ActorCheck p).

Definition MarkActorCheck (p : Pipeline) : Pipeline :=
  mkPipe (pp_Name p) (pp_UID p) (pp_Fleets p) (pp_Holds p) (pp_Paused p) (pp_LastChange p) true.

(** [recordChange]; [id] is the random id of the write. *)
Definition recordChange (who : option PipelineChange) (action target id : string) (p : Pipeline) : Pipeline :=
  match who with
  | None => p
  | Some w =>
      if bool_decide (ch_By w = "") then p
      else MarkActorCheck (mkPipe (pp_Name p) (pp_UID p) (pp_Fleets p) (pp_Holds p) (pp_Paused p)
             (Some (mkChange action target (ch_By w) (ch_Reason w) (ch_Actor w) id)) (pp_ActorCheck p))
  end.

Lemma recordChange_Holds who action target id p : pp_Holds (recordChange who action target id p) = pp_Holds p.
Proof. unfold recordChange. destruct who; [|done]. by case_bool_decide. Qed.

Lemma recordChange_Fleets who action target id p : pp_Fleets (recordChange who action target id p) = pp_Fleets p.
Proof. unfold recordChange. destruct who; [|done]. by case_bool_decide. Qed.

(** ** What a hold says *)

Definition IsRollbackBundle (b : Bundle) : bool := b_RollbackLabel b || negb (bool_decide (b_RollbackOf b = "")).

Definition HeldOn (h : Hold) (rollback : bool) : string := if rollback then "rollback " +:+ h_Bundle h else h_Bundle h.

Definition HeldMessage (pipeline : string) (h : Hold) (rollback : bool) : string :=
  "environment " +:+ h_Environment h +:+ " is held on " +:+ HeldOn h rollback +:+ " (" +:+ h_Reason h +:+
  ") — release with: kardinal release-hold " +:+ pipeline +:+ " --env " +:+ h_Environment h.

Definition IsHoldExemption (reason : string) : bool := HasPrefix reason "EXEMPT: rollback ".

(** Every exemption is recognised as one. *)
Lemma exemption_recognised h reason : IsHoldExemption (GateExemption h reason) = true.
Proof. apply HasPrefix_app. Qed.

Section fleets.
Context (selects : Ordering.FleetSelector → option (gmap string string → bool)).
Context (scaled : Ordering.IntOrString → Z → option Z).
Context (IsDNS1123Label : string → bool).
Context (path_Join : string → string → string).

Abbreviation FleetOf := (Fleet.FleetOf selects scaled IsDNS1123Label path_Join).
Abbreviation fleetTargets := (RollbackFleet.fleetTargets selects scaled IsDNS1123Label path_Join).

(** The unexpired hold of the environment itself. *)
Definition exactHold (now : Time) (p : Pipeline) (env : string) : option Hold :=
  head (filter (λ h, h_Environment h = env ∧ Pending.Expired now (h_hold h) = false) (pp_Holds p)).

(** The fleet a hold of which holds the environment too. *)
Definition held_fleet (p : Pipeline) (env : string) : string :=
  if negb (bool_decide (pp_Holds p = [])) && Fleet.hasFleets (pp_Fleets p) then FleetOf (pp_Fleets p) env else "".

Definition HoldOf (now : Time) (p : Pipeline) (env : string) : option Hold :=
  match exactHold now p env with
  | Some h => Some h
  | None => if bool_decide (held_fleet p env = "") then None else exactHold now p (held_fleet p env)
  end.

Definition HeldFrom (now : Time) (p : Pipeline) (env bundle : string) : option Hold :=
  match HoldOf now p env with
  | Some h => if bool_decide (h_Bundle h = bundle) then None else Some h
  | None => None
  end.

(** The holds as the promotion steps of [env] read them. *)
Definition as_read (p : Pipeline) (env : string) (seq : EnvSequence) : Pending.Pipeline :=
  Pending.mkPipeline ((λ h, h_hold h) <$> pp_Holds p) (held_fleet p env) seq.

Lemma exactHold_read now p env seq e :
  Pending.exactHold now (as_read p env seq) e = (λ h, h_hold h) <$> exactHold now p e.
Proof.
  unfold Pending.exactHold, exactHold. simpl. induction (pp_Holds p) as [|h l IH]; [done|].
  rewrite fmap_cons, !filter_cons. by case_decide.
Qed.

(** What is held here holds the steps of [Pending]. *)
Lemma HeldFrom_read now p env seq bundle :
  Pending.HeldFrom now (as_read p env seq) env bundle = (λ h, h_hold h) <$> HeldFrom now p env bundle.
Proof.
  unfold Pending.HeldFrom, HeldFrom, Pending.HoldOf, HoldOf. simpl. rewrite !exactHold_read.
  destruct (exactHold now p env) as [h|]; simpl; [by case_bool_decide|].
  case_bool_decide; [done|]. destruct (exactHold now p (held_fleet p env)); simpl; [by case_bool_decide|done].
Qed.

(** ** Writing holds *)

Abbreviation hstore := (store Pipeline).
Abbreviation hattempt := (attempt Pipeline).

(** The entry of the environment is replaced: one entry for each. *)
Definition without (env : string) (hs : list Hold) : list Hold := filter (λ h, h_Environment h ≠ env) hs.

Definition setHold_body (hold : Hold) (now : Time) (p : option Pipeline) : option Hold * (plan_error + option Pipeline) :=
  match p with
  | None => (None, inl ErrNotFound)
  | Some p =>
      match HoldOf now p (h_Environment hold) with
      | Some _ => (None, inl ErrConflict)
      | None => (None, inr (Some (MarkActorCheck (set_Holds (without (h_Environment hold) (pp_Holds p) ++ [hold]) p))))
      end
  end.

Definition setHold (hold : Hold) (l : list hattempt) (s : hstore) : hstore * option Hold * outcome plan_error :=
  RetryOnConflict (setHold_body hold) l None s.

(** It notes the hold it releases, also when the update then fails. *)
Definition ReleaseHold_body (env : string) (who : option PipelineChange) (id : string) (now : Time) (p : option Pipeline) :
  option Hold * (plan_error + option Pipeline) :=
  match p with
  | None => (None, inl ErrNotFound)
  | Some p =>
      match exactHold now p env with
      | None => (None, inl ErrNotFound)
      | Some h => (Some h, inr (Some (recordChange who PipelineChangeReleaseHold env id (set_Holds (without env (pp_Holds p)) p))))
      end
  end.

(** The error of a call: [None] when there is none. *)
Definition err_of (o : outcome plan_error) : option plan_error :=
  match o with Done => None | Refused e => Some e | Conflicted | APIError => Some ErrAPI end.

Definition ReleaseHold (env : string) (who : option PipelineChange) (id : string) (l : list hattempt) (s : hstore) :
  hstore * option Hold * option plan_error :=
  let '(s, released, o) := RetryOnConflict (ReleaseHold_body env who id) l None s in
  match o with
  | Conflicted | APIError => (s, None, Some ErrAPI)
  | _ => (s, released, err_of o)
  end.

(** ** Holding what runs *)

Record HoldCurrentRequest := mkHoldCurrent {
  hc_Pipeline : string;
  hc_Environment : string;
  hc_Reason : string;
  hc_Actor : string;
  hc_Stamp : option Actor.Actor;
  hc_ExpiresIn : Duration;
  hc_Now : Time
}.

Section deployed_loop.
Variable steps : list Step.
Variable pipeline : string.

(** [one] and [mixed] of the loop of [fleetDeployed]. *)
Definition deployed_step (s : string * bool) (t : string) : string * bool :=
  let d := RollbackFleet.runs_of steps pipeline t in
  if bool_decide (d = "") then s
  else if bool_decide (s.1 = "") then (d, s.2)
  else if negb (bool_decide (d = s.1)) then (s.1, true)
  else s.

Definition fleet_deployed (targets : list string) : plan_error + string :=
  let '(one, mixed) := foldl deployed_step ("", false) targets in
  if mixed : bool then inl ErrConflict else inr one.
End deployed_loop.

(** [steps] are the steps of the pipeline, [None] when they cannot be listed. *)
Definition fleetDeployed (steps : option (list Step)) (pipeline : string) (targets : list string) : plan_error + string :=
  match steps with None => inl ErrAPI | Some steps => fleet_deployed steps pipeline targets end.

(** What the environment, or every target of the fleet, runs. *)
Definition deployed_in (p : Pipeline) (steps : option (list Step)) (pipeline env : string) : plan_error + string :=
  match fleetTargets (pp_Fleets p) env with
  | Some targets => fleetDeployed steps pipeline targets
  | None => match steps with None => inl ErrAPI | Some steps => inr (deployed (historyOf steps pipeline env)) end
  end.

(** [hex.EncodeToString(sha256)] of the artifacts. *)
Variable ArtifactDigest : Artifacts → string.

(** A hold that ends [expires] after [now] when that is positive. *)
Definition new_hold (env bundle reason actor : string) (stamp : option Actor.Actor) (expires now : Time) (a : Artifacts) : Hold :=
  mkHold (mkGateHold (Pending.mkHold env bundle (if 0 <? expires then Some (now + expires) else None)) actor reason (ArtifactDigest a))
    stamp (Some now).

(** The result: the hold, and whether it existed. *)
Definition HoldCurrent (rq : HoldCurrentRequest) (seen : read Pipeline) (clock : Time) (steps : option (list Step))
    (getBundle : string → read Bundle) (l : list hattempt) (s : hstore) : hstore * (plan_error + (Hold * bool)) :=
  if bool_decide (TrimSpace (hc_Reason rq) = "") then (s, inl ErrInvalid)
  else match seen with
       | Missing => (s, inl ErrNotFound)
       | ReadError => (s, inl ErrAPI)
       | Got p =>
           if negb (Fleet.HasEnvironment selects scaled IsDNS1123Label path_Join (pp_Fleets p) (hc_Environment rq)) then (s, inl ErrInvalid)
           else match deployed_in p steps (hc_Pipeline rq) (hc_Environment rq) with
                | inl e => (s, inl e)
                | inr d =>
                    match HoldOf clock p (hc_Environment rq) with
                    | Some held =>
                        if bool_decide (h_Bundle held = d) && bool_decide (h_Reason held = hc_Reason rq)
                        then (s, inr (held, true)) else (s, inl ErrConflict)
                    | None =>
                        if bool_decide (d = "") then (s, inl ErrConflict)
                        else match getBundle d with
                             | Got b =>
                                 let h := new_hold (hc_Environment rq) d (hc_Reason rq) (hc_Actor rq) (hc_Stamp rq)
                                            (hc_ExpiresIn rq) (hc_Now rq) (b_Artifacts b) in
                                 let '(s, _, o) := setHold h l s in
                                 match err_of o with Some e => (s, inl e) | None => (s, inr (h, false)) end
                             | _ => (s, inl ErrAPI)
                             end
                    end
                end
       end.

(** ** Rolling back and holding *)

Record HoldRequest := mkHoldRequest {
  hr_Rollback : RollbackRequest;
  hr_Name : string;
  hr_Reason : string;
  hr_Actor : string;
  hr_Stamp : option Actor.Actor;
  hr_ExpiresIn : Duration;
  hr_Creator : string;
  hr_Now : Time
}.

Definition kind_string (k : Actor.ActorKind) : string :=
  match k with
  | Actor.ActorHuman => "human"
  | Actor.ActorAgent => "agent"
  | Actor.ActorBot => "bot"
  | Actor.ActorController => "controller"
  | Actor.ActorUnknown => "unknown"
  end.

(** [buildRollbackBundle]; its creation time is the server's. *)
Definition buildRollbackBundle (rq : HoldRequest) (p : RollbackPlan) : Bundle :=
  mkBundle (hr_Name rq) (rq_Pipeline (hr_Rollback rq)) (copyArtifacts (pl_Restored p)) false "" None true
    ((λ a, (kind_string (Actor.Kind a), Actor.Via a)) <$> hr_Stamp rq) "" (b_Name (pl_Target p)) (pl_CurrentName p)
    (pl_CurrentName p) (rq_Environment (hr_Rollback rq)) (hr_Now rq) (Some (hr_Now rq)).

(** How the create of a Bundle ends; [CreatorRefused]: the creator may not be named. *)
Inductive bundle_answer := BundleCreated | CreatorRefused | BundleRefused.

Definition with_creator (who : string) (actor : option (string * string)) (b : Bundle) : Bundle :=
  mkBundle (b_Name b) (b_Pipeline b) (b_Artifacts b) (b_Rejected b) (b_Phase b) (b_RejectedArtifacts b) (b_RollbackLabel b)
    actor who (b_RollbackOf b) (b_RollbackFrom b) (b_RollbackFromAnnotation b) (b_Target b) (b_Created b) (b_CreatedAt b).

Definition StampCreatedBy (who : string) (b : Bundle) : Bundle :=
  if bool_decide (who = "") || negb (bool_decide (b_CreatedBy b = "")) then b else with_creator who (b_Actor b) b.

(** [CreateBundleAs]: the Bundle that is created, if one is; [first] and [second] answer
    the two creates. *)
Definition CreateBundleAs (who : string) (b : Bundle) (first second : bundle_answer) : option Bundle :=
  let b := StampCreatedBy who b in
  match first with
  | BundleCreated => Some b
  | BundleRefused => None
  | CreatorRefused => match second with BundleCreated => Some (with_creator "" None b) | _ => None end
  end.

Variable NormalizeRepository : string → option string.
Variable ControllerCreator : string.

(** What is read before the hold is written: the Pipeline as the hold's writer sees it
    (with the clock then), and the Pipeline, the steps and the Bundles of the plan. *)
Record hold_reads := mkHoldReads {
  hd_seen : read Pipeline;
  hd_clock : Time;
  hd_pipeline : read Fleet.Pipeline;
  hd_steps : option (list Step);
  hd_bundles : Snapshot
}.

(** The answers of the two creates. *)
Definition RollbackAndHold (rq : HoldRequest) (rd : hold_reads) (first second : bundle_answer) (id : string)
    (l undo : list hattempt) (s : hstore) : hstore * (plan_error + (RollbackPlan * Hold * Bundle)) :=
  let env := rq_Environment (hr_Rollback rq) in
  if bool_decide (TrimSpace (hr_Reason rq) = "") then (s, inl ErrInvalid)
  else if match hd_seen rd with Got p => bool_decide (is_Some (HoldOf (hd_clock rd) p env)) | _ => false end then (s, inl ErrConflict)
  else match RollbackFleet.PlanRollback NormalizeRepository ControllerCreator (hd_bundles rd) selects scaled IsDNS1123Label path_Join
               (hd_pipeline rd) (hd_steps rd) (hr_Rollback rq) with
       | inl e => (s, inl e)
       | inr (p, _) =>
           let b := buildRollbackBundle rq p in
           let h := new_hold env (b_Name b) (hr_Reason rq) (hr_Actor rq) (hr_Stamp rq) (hr_ExpiresIn rq) (hr_Now rq) (b_Artifacts b) in
           let '(s, _, o) := setHold h l s in
           match err_of o with
           | Some e => (s, inl e)
           | None =>
               match CreateBundleAs (hr_Creator rq) b first second with
               | Some b => (s, inr (p, h, b))
               | None =>
                   let why := mkChange "" "" (hr_Actor rq) "the rollback Bundle could not be created" (hr_Stamp rq) "" in
                   let '(s, _, _) := ReleaseHold env (Some why) id undo s in
                   (s, inl ErrAPI)
               end
           end
       end.

(** ** What a hold does *)

Lemma filter_none {A} (Q : A → Prop) `{!∀ x, Decision (Q x)} (l : list A) : (∀ x, x ∈ l → ¬ Q x) → filter Q l = [].
Proof.
  induction l as [|x l IH]; intros Hn; [done|]. rewrite filter_cons_False by (apply Hn; by left). apply IH. intros y Hy. apply Hn. by right.
Qed.

Lemma without_other env hs h : h ∈ without env hs ↔ h_Environment h ≠ env ∧ h ∈ hs.
Proof. unfold without. by rewrite list_elem_of_filter. Qed.

Lemma exactHold_Some now p env h :
  exactHold now p env = Some h → h ∈ pp_Holds p ∧ h_Environment h = env ∧ Pending.Expired now (h_hold h) = false.
Proof.
  intros Hh%head_Some_elem_of. by apply list_elem_of_filter in Hh as [[? ?] ?].
Qed.

(** Another environment's entry is not looked at. *)
Lemma exactHold_without now p p' env e hs :
  pp_Holds p' = without env (pp_Holds p) ++ hs → (∀ h, h ∈ hs → h_Environment h = env) → e ≠ env →
  exactHold now p' e = exactHold now p e.
Proof.
  intros Hp Hhs Hne. unfold exactHold, without in *. rewrite Hp, filter_app.
  rewrite (filter_none _ hs), app_nil_r; [|intros h Hh [E _]; by rewrite (Hhs h Hh) in E].
  f_equal. apply list_filter_filter_l. by intros h [-> _].
Qed.

Lemma exactHold_new now p p' hold :
  pp_Holds p' = without (h_Environment hold) (pp_Holds p) ++ [hold] → Pending.Expired now (h_hold hold) = false →
  exactHold now p' (h_Environment hold) = Some hold.
Proof.
  intros Hp He. unfold exactHold, without in *. rewrite Hp, filter_app, filter_none; [|by intros h [? _]%list_elem_of_filter [? _]].
  by rewrite filter_cons_True.
Qed.

Lemma exactHold_released now p p' env : pp_Holds p' = without env (pp_Holds p) → exactHold now p' env = None.
Proof.
  intros Hp. unfold exactHold, without in *. rewrite Hp, filter_none; [done|]. by intros h [? _]%list_elem_of_filter [? _].
Qed.

(** [p'] is [p] held anew: only the entry of the environment changes. *)
Record held_anew (hold : Hold) (p p' : Pipeline) : Prop := {
  ha_holds : pp_Holds p' = without (h_Environment hold) (pp_Holds p) ++ [hold];
  ha_fleets : pp_Fleets p' = pp_Fleets p;
  ha_paused : pp_Paused p' = pp_Paused p;
  ha_change : pp_LastChange p' = pp_LastChange p
}.

Lemma held_anew_fleet hold p p' e :
  held_anew hold p p' → Fleet.hasFleets (pp_Fleets p) = true → held_fleet p' e = FleetOf (pp_Fleets p) e.
Proof.
  intros [Hh Hf _ _] Hfl. unfold held_fleet. rewrite Hf, Hfl, bool_decide_false; [done|]. rewrite Hh. by destruct (without _ _).
Qed.

Lemma HeldFrom_new now hold p p' bundle :
  held_anew hold p p' → Pending.Expired now (h_hold hold) = false →
  HeldFrom now p' (h_Environment hold) bundle = if bool_decide (h_Bundle hold = bundle) then None else Some hold.
Proof. intros [Hh _ _ _] He. unfold HeldFrom, HoldOf. by rewrite (exactHold_new _ _ _ _ Hh He). Qed.

Lemma HeldFrom_target now hold p p' t bundle :
  held_anew hold p p' → Pending.Expired now (h_hold hold) = false → h_Environment hold ≠ "" →
  Fleet.hasFleets (pp_Fleets p) = true → FleetOf (pp_Fleets p) t = h_Environment hold → t ≠ h_Environment hold →
  exactHold now p t = None → HeldFrom now p' t bundle = if bool_decide (h_Bundle hold = bundle) then None else Some hold.
Proof.
  intros Ha He Hne Hfl Hof Ht Hex. pose proof (ha_holds _ _ _ Ha) as Hh. unfold HeldFrom, HoldOf.
  rewrite (exactHold_without now p p' (h_Environment hold) t [hold]), Hex; [|done|by intros h ->%list_elem_of_singleton|done].
  rewrite (held_anew_fleet hold p p' t Ha Hfl), Hof, bool_decide_false by done. by rewrite (exactHold_new _ _ _ _ Hh He).
Qed.

Lemma setHold_body_written hold now p x p' :
  setHold_body hold now p = (x, inr (Some p')) → ∃ q, p = Some q ∧ HoldOf now q (h_Environment hold) = None ∧ held_anew hold q p'.
Proof.
  unfold setHold_body. destruct p as [q|]; [|done]. destruct (HoldOf _ _ _) eqn:Eh; [done|]. intros [= <- <-]. by exists q.
Qed.

Lemma setHold_body_none hold now p x : setHold_body hold now p = (x, inr None) → False.
Proof. unfold setHold_body. destruct p as [q|]; [|done]. by destruct (HoldOf _ _ _). Qed.

(** The atomic step of a [setHold] that succeeds. *)
Lemma setHold_done hold l s s' a :
  version_ok s → schedule s l → setHold hold l s = (s', a, Done) →
  ∃ now t v p p', others s t ∧ object t = Some (v, p) ∧ s' = put p' t ∧ HoldOf now p (h_Environment hold) = None ∧ held_anew hold p p'.
Proof.
  intros Hv Hs Hr. pose proof (retry_atomic _ _ _ _ _ _ _ Hv Hs Hr) as (now & t & x & Ht & Hat & _).
  apply atomic_inv_done in Hat as [[Hf _]|(p' & v & p & Hf & Ho & ->)]; [by apply setHold_body_none in Hf|].
  apply setHold_body_written in Hf as (q & Hq & Hn & Ha). unfold value in Hq. rewrite Ho in Hq. injection Hq as <-.
  by exists now, t, v, p, p'.
Qed.

(** C8. Making a hold is one atomic step, whatever other clients write meanwhile.  If
    [setHold] succeeds, then at some moment the environment was not held, and from the
    Pipeline of that moment, with everything others had written, only the entry of the
    environment changed.  While the hold lasts, every other Bundle is kept out of the
    environment and, when it is a fleet, out of each target without a hold of its own;
    the held Bundle is not; every other environment is held as before.  If the call
    is refused, it wrote nothing. *)
Theorem hold_takes_effect hold l s s' a o :
  version_ok s → schedule s l → setHold hold l s = (s', a, o) →
  (o = Done → ∃ now t v p p', others s t ∧ object t = Some (v, p) ∧ s' = put p' t ∧
     HoldOf now p (h_Environment hold) = None ∧ held_anew hold p p' ∧
     ∀ later, Pending.Expired later (h_hold hold) = false →
       (∀ bundle, HeldFrom later p' (h_Environment hold) bundle = if bool_decide (h_Bundle hold = bundle) then None else Some hold) ∧
       (∀ t bundle, h_Environment hold ≠ "" → Fleet.hasFleets (pp_Fleets p) = true → FleetOf (pp_Fleets p) t = h_Environment hold →
          t ≠ h_Environment hold → exactHold later p t = None →
          HeldFrom later p' t bundle = if bool_decide (h_Bundle hold = bundle) then None else Some hold) ∧
       (∀ e, e ≠ h_Environment hold → exactHold later p' e = exactHold later p e)) ∧
  (∀ e, o = Refused e → others s s' ∧
     ((e = ErrNotFound ∧ value s' = None) ∨ (e = ErrConflict ∧ ∃ now p, value s' = Some p ∧ is_Some (HoldOf now p (h_Environment hold))))).
Proof.
  intros Hv Hs Hr. pose proof (retry_atomic _ _ _ _ _ _ _ Hv Hs Hr) as Hat. split.
  - intros ->. destruct (setHold_done _ _ _ _ _ Hv Hs Hr) as (now & t & v & p & p' & ? & ? & ? & ? & Ha).
    exists now, t, v, p, p'. split_and!; try done. intros later He. split_and!.
    + intros bundle. by apply (HeldFrom_new later hold p).
    + intros u bundle ? ? ? ? ?. by apply (HeldFrom_target later hold p).
    + intros e Hne. apply (exactHold_without later p p' (h_Environment hold) e [hold]); [by destruct Ha| |done].
      by intros h ->%list_elem_of_singleton.
  - intros e ->. destruct Hat as (now & t & x & Ht & Hat & _). inversion Hat as [y e' Hf| |]; subst. split; [done|].
    revert Hf. unfold setHold_body. destruct (value s') as [q|] eqn:Eq; [|intros [= <- <-]; by left].
    destruct (HoldOf now q _) eqn:Eh; [|done]. intros [= <- <-]. right. split; [done|]. exists now, q. by rewrite Eh.
Qed.

(** ** Releasing a hold *)

Lemma ReleaseHold_body_written env who id now p x p' :
  ReleaseHold_body env who id now p = (x, inr (Some p')) →
  ∃ q h, p = Some q ∧ x = Some h ∧ exactHold now q env = Some h ∧
    p' = recordChange who PipelineChangeReleaseHold env id (set_Holds (without env (pp_Holds q)) q).
Proof.
  unfold ReleaseHold_body. destruct p as [q|]; [|done]. destruct (exactHold _ _ _) as [h|] eqn:Eh; [|done].
  intros [= <- <-]. by exists q, h.
Qed.

Lemma ReleaseHold_body_none env who id now p x : ReleaseHold_body env who id now p = (x, inr None) → False.
Proof. unfold ReleaseHold_body. destruct p as [q|]; [|done]. by destruct (exactHold _ _ _). Qed.

(** A release that succeeds: the hold was in effect, and its environment has no entry
    afterwards. *)
Lemma ReleaseHold_ok env who id l s s' x :
  version_ok s → schedule s l → ReleaseHold env who id l s = (s', x, None) →
  ∃ now t v p h, others s t ∧ object t = Some (v, p) ∧ x = Some h ∧ exactHold now p env = Some h ∧
    s' = put (recordChange who PipelineChangeReleaseHold env id (set_Holds (without env (pp_Holds p)) p)) t.
Proof.
  intros Hv Hs. unfold ReleaseHold. destruct (RetryOnConflict _ _ _ _) as [[s1 r] o] eqn:Er.
  pose proof (retry_atomic _ _ _ _ _ _ _ Hv Hs Er) as Hat. destruct o as [|e| |]; try done. intros [= <- <-].
  destruct Hat as (now & t & y & Ht & Hat & acc & ->). apply atomic_inv_done in Hat as [[Hf _]|(p' & v & p & Hf & Ho & ->)].
  { by apply ReleaseHold_body_none in Hf. }
  apply ReleaseHold_body_written in Hf as (q & h & Hq & -> & Hex & ->). unfold value in Hq. rewrite Ho in Hq. injection Hq as <-.
  by exists now, t, v, p, h.
Qed.

Lemma without_idem env hs : without env (without env hs) = without env hs.
Proof. unfold without. by rewrite list_filter_filter_l. Qed.

Lemma without_id env hs : (∀ h, h ∈ hs → h_Environment h ≠ env) → without env hs = hs.
Proof.
  unfold without. induction hs as [|h l IH]; intros Hn; [done|]. rewrite filter_cons_True by (apply Hn; by left). f_equal.
  apply IH. intros x Hx. apply Hn. by right.
Qed.

Lemma without_app env hs h : h_Environment h = env → without env (without env hs ++ [h]) = without env hs.
Proof.
  intros He. rewrite <- (without_idem env hs) at 2. unfold without. rewrite filter_app, (filter_cons_False _ h) by naive_solver.
  by rewrite filter_nil, app_nil_r.
Qed.

(** ** Holding what runs *)

Lemma deployed_step_spec steps pipeline targets : ∀ one mixed one' mixed',
  foldl (deployed_step steps pipeline) (one, mixed) targets = (one', mixed') →
  (mixed = true → mixed' = true) ∧
  (mixed' = false → (one ≠ "" → one' = one) ∧
     ∀ t, t ∈ targets → RollbackFleet.runs_of steps pipeline t = "" ∨ RollbackFleet.runs_of steps pipeline t = one').
Proof.
  induction targets as [|t l IH]; intros one mixed one' mixed'.
  { intros [= <- <-]. split; [done|]. intros _. split; [done|]. by intros ? ?%elem_of_nil. }
  cbn [foldl]. unfold deployed_step at 2. set (d := RollbackFleet.runs_of steps pipeline t). cbn [fst snd].
  assert (∀ o m, foldl (deployed_step steps pipeline) (o, m) l = (one', mixed') → (one ≠ "" → o = one) → (mixed = true → m = true) →
    (m = false → d = "" ∨ (d = o ∧ o ≠ "")) →
    (mixed = true → mixed' = true) ∧
    (mixed' = false → (one ≠ "" → one' = one) ∧
       ∀ u, u ∈ t :: l → RollbackFleet.runs_of steps pipeline u = "" ∨ RollbackFleet.runs_of steps pipeline u = one')) as Hrest.
  { intros o m Hf Ho Hm Hd. apply IH in Hf as [H1 H2]. split; [auto|]. intros ->. destruct (H2 eq_refl) as [H3 H4].
    assert (m = false) as -> by (destruct m; [by specialize (H1 eq_refl)|done]). split.
    - intros Hne. rewrite <- (Ho Hne). apply H3. by rewrite (Ho Hne).
    - intros u [->|Hu]%elem_of_cons; [|by apply H4]. fold d. destruct (Hd eq_refl) as [?|[-> ?]]; [by left|right]. by rewrite H3. }
  case_bool_decide as E1; [by intros Hf; apply (Hrest _ _ Hf); auto|].
  case_bool_decide as E2; [by intros Hf; apply (Hrest _ _ Hf); auto|].
  case_bool_decide as E3; cbn [negb]; intros Hf; apply (Hrest _ _ Hf); auto. done.
Qed.

(** What an environment runs: its newest landed Bundle, or for a fleet one that every
    target runs that runs anything. *)
Definition runs_there (p : Pipeline) (steps : list Step) (pipeline env bundle : string) : Prop :=
  match fleetTargets (pp_Fleets p) env with
  | Some targets => ∀ t, t ∈ targets → RollbackFleet.runs_of steps pipeline t = "" ∨ RollbackFleet.runs_of steps pipeline t = bundle
  | None => deployed (historyOf steps pipeline env) = bundle
  end.

Lemma deployed_in_runs p steps pipeline env d :
  deployed_in p (Some steps) pipeline env = inr d → runs_there p steps pipeline env d.
Proof.
  unfold deployed_in, runs_there. destruct (fleetTargets _ _) as [ts|]; [|by intros [= <-]]. unfold fleetDeployed, fleet_deployed.
  destruct (foldl _ _ _) as [one []] eqn:Ef; [done|]. intros [= <-]. apply deployed_step_spec in Ef as [_ Hs]. by apply Hs.
Qed.

(** Holding what runs.  A hold of the current version that succeeds, new or found,
    names a Bundle the environment runs (every target of a fleet that runs anything
    runs it), with the reason that was asked for; a new one was made in one atomic
    step.  Asking again, while the hold lasts and the environment runs the same, finds
    the hold and writes nothing. *)
Theorem hold_current_runs rq seen clock steps getBundle l s s' h existed :
  version_ok s → schedule s l →
  HoldCurrent rq (Got seen) clock (Some steps) getBundle l s = (s', inr (h, existed)) →
  h_Reason h = hc_Reason rq ∧ runs_there seen steps (hc_Pipeline rq) (hc_Environment rq) (h_Bundle h) ∧
  (existed = true → s' = s) ∧
  (existed = false →
     h_Environment h = hc_Environment rq ∧ h_Bundle h ≠ "" ∧ (∃ b, getBundle (h_Bundle h) = Got b ∧ gh_Artifacts (h_gate h) = ArtifactDigest (b_Artifacts b)) ∧
     ∃ t p p', others s t ∧ value t = Some p ∧ s' = put p' t ∧ held_anew h p p' ∧
     ∀ later l' s'', Pending.Expired later (h_hold h) = false → pp_Fleets p = pp_Fleets seen →
       HoldCurrent rq (Got p') later (Some steps) getBundle l' s'' = (s'', inr (h, true))).
Proof.
  intros Hv Hs. unfold HoldCurrent. case_bool_decide as Hb; [done|].
  destruct (Fleet.HasEnvironment _ _ _ _ _ _) eqn:Ehas; cbn [negb]; [|done].
  destruct (deployed_in seen _ _ _) as [|d] eqn:Ed; [done|]. pose proof (deployed_in_runs _ _ _ _ _ Ed) as Hruns.
  destruct (HoldOf clock seen _) as [held|].
  { destruct (bool_decide (h_Bundle held = d) && bool_decide (h_Reason held = hc_Reason rq)) eqn:E; [|done]. intros [= <- <- <-].
    bools. subst d. by split_and!. }
  case_bool_decide as Ed0; [done|]. destruct (getBundle d) as [b| |] eqn:Eg; [|done..].
  destruct (setHold _ _ _) as [[s1 x] o] eqn:Es. destruct (err_of o) eqn:Eo; [done|]. intros [= <- <- <-].
  assert (o = Done) as -> by (by destruct o). set (h := new_hold _ _ _ _ _ _ _ _) in *.
  destruct (setHold_done _ _ _ _ _ Hv Hs Es) as (now & t & v & p & p' & Ht & Ho & -> & _ & Ha).
  split_and!; try done. intros _. split_and!; [done|done|by exists b|]. exists t, p, p'.
  split_and!; try done; [by unfold value; rewrite Ho|]. intros later l' s'' He Hfl.
  pose proof (ha_fleets _ _ _ Ha) as Hf. rewrite Hf, Hfl, Ehas. cbn [negb].
  assert (deployed_in p' (Some steps) (hc_Pipeline rq) (hc_Environment rq) = inr d) as ->.
  { revert Ed. unfold deployed_in. by rewrite Hf, Hfl. }
  unfold HoldOf. pose proof (exactHold_new later p p' h (ha_holds _ _ _ Ha) He) as Hex. change (h_Environment h) with (hc_Environment rq) in Hex.
  rewrite Hex. by rewrite !bool_decide_true.
Qed.

(** ** Rolling back and holding *)

Abbreviation plan_of rq rd := (RollbackFleet.PlanRollback NormalizeRepository ControllerCreator (hd_bundles rd) selects scaled IsDNS1123Label path_Join
  (hd_pipeline rd) (hd_steps rd) (hr_Rollback rq)).

(** The hold of a planned rollback. *)
Definition rollback_hold (rq : HoldRequest) (p : RollbackPlan) : Hold :=
  new_hold (rq_Environment (hr_Rollback rq)) (hr_Name rq) (hr_Reason rq) (hr_Actor rq) (hr_Stamp rq) (hr_ExpiresIn rq) (hr_Now rq)
    (copyArtifacts (pl_Restored p)).

(** Whether the request is taken up at all: it has a reason, and the environment is not
    seen held. *)
Definition accepted (rq : HoldRequest) (rd : hold_reads) : bool :=
  negb (bool_decide (TrimSpace (hr_Reason rq) = "")) &&
  match hd_seen rd with Got p => bool_decide (HoldOf (hd_clock rd) p (rq_Environment (hr_Rollback rq)) = None) | _ => true end.

Lemma RollbackAndHold_accepted rq rd first second id l undo s :
  accepted rq rd = true →
  RollbackAndHold rq rd first second id l undo s =
  match plan_of rq rd with
  | inl e => (s, inl e)
  | inr (p, _) =>
      let '(s, _, o) := setHold (rollback_hold rq p) l s in
      match err_of o with
      | Some e => (s, inl e)
      | None =>
          match CreateBundleAs (hr_Creator rq) (buildRollbackBundle rq p) first second with
          | Some b => (s, inr (p, rollback_hold rq p, b))
          | None =>
              let '(s, _, _) := ReleaseHold (rq_Environment (hr_Rollback rq))
                (Some (mkChange "" "" (hr_Actor rq) "the rollback Bundle could not be created" (hr_Stamp rq) "")) id undo s in
              (s, inl ErrAPI)
          end
      end
  end.
Proof.
  unfold accepted. intros [Hr Hs]%andb_true_iff. unfold RollbackAndHold. bools. rewrite bool_decide_false by done.
  destruct (hd_seen rd) as [p| |]; [|done..]. bools. rewrite Hs. by rewrite bool_decide_false by (by intros [? ?]).
Qed.

Lemma RollbackAndHold_ok rq rd first second id l undo s s' p h b :
  RollbackAndHold rq rd first second id l undo s = (s', inr (p, h, b)) →
  accepted rq rd = true ∧ (∃ f, plan_of rq rd = inr (p, f)) ∧ h = rollback_hold rq p ∧ (∃ x, setHold h l s = (s', x, Done)) ∧
  CreateBundleAs (hr_Creator rq) (buildRollbackBundle rq p) first second = Some b.
Proof.
  intros H. assert (accepted rq rd = true) as Ha.
  { revert H. unfold RollbackAndHold, accepted. case_bool_decide; [done|]. cbn [negb andb].
    destruct (hd_seen rd) as [q| |]; [|done..]. case_bool_decide as Eh; [done|]. intros _. apply bool_decide_eq_true.
    by apply eq_None_not_Some. }
  split; [done|]. rewrite RollbackAndHold_accepted in H by done. destruct (plan_of rq rd) as [|[p1 f]] eqn:Ep; [done|].
  destruct (setHold _ _ _) as [[s1 x] o] eqn:Es. destruct o as [|e| |]; simpl in H; try done.
  destruct (CreateBundleAs _ _ _ _) as [b1|] eqn:Ec.
  - injection H as <- <- <- <-. split_and!; [by exists f|done|by exists x|done].
  - by destruct (ReleaseHold _ _ _ _ _) as [[? ?] ?].
Qed.

(** What is created carries what the plan restores, whoever may be named as creator. *)
Lemma CreateBundleAs_artifacts who b first second b' :
  CreateBundleAs who b first second = Some b' →
  b_Name b' = b_Name b ∧ b_Artifacts b' = b_Artifacts b ∧ b_Pipeline b' = b_Pipeline b ∧ b_RollbackLabel b' = b_RollbackLabel b ∧
  b_RollbackOf b' = b_RollbackOf b ∧ b_Target b' = b_Target b.
Proof.
  assert (∀ c, b_Name (StampCreatedBy who c) = b_Name c ∧ b_Artifacts (StampCreatedBy who c) = b_Artifacts c ∧
    b_Pipeline (StampCreatedBy who c) = b_Pipeline c ∧ b_RollbackLabel (StampCreatedBy who c) = b_RollbackLabel c ∧
    b_RollbackOf (StampCreatedBy who c) = b_RollbackOf c ∧ b_Target (StampCreatedBy who c) = b_Target c) as Hst.
  { intros c. unfold StampCreatedBy. by destruct (_ || _). }
  unfold CreateBundleAs. destruct first, second; intros [= <-]; apply Hst.
Qed.

(** How a release ends: the environment has no entry any more; or no hold of it was in
    effect, and nothing was written; or the API failed. *)
Definition released_there (env : string) (s s' : hstore) (e : option plan_error) : Prop :=
  match e with
  | None => ∃ t q q', others s t ∧ value t = Some q ∧ value s' = Some q' ∧ pp_Holds q' = without env (pp_Holds q)
  | Some ErrNotFound => others s s' ∧ ∃ now, ∀ q, value s' = Some q → exactHold now q env = None
  | Some e => e = ErrAPI
  end.

Lemma ReleaseHold_ends env who id l s s' x e :
  version_ok s → schedule s l → ReleaseHold env who id l s = (s', x, e) → released_there env s s' e.
Proof.
  intros Hv Hs Hr. destruct e as [e|].
  - revert Hr. unfold ReleaseHold. destruct (RetryOnConflict _ _ _ _) as [[s1 r] o] eqn:Er.
    pose proof (retry_atomic _ _ _ _ _ _ _ Hv Hs Er) as Hat. destruct o as [|e'| |]; try (by intros [= <- <- <-]). intros [= <- <- <-].
    destruct Hat as (now & t & y & Ht & Hat & _). inversion Hat as [y' e0 Hf| |]; subst. revert Hf. unfold ReleaseHold_body.
    destruct (value s1) as [q|] eqn:Eq; [destruct (exactHold now q env) eqn:Eh; [done|]|]; intros [= <- <-]; (split; [done|]); exists now; rewrite Eq; naive_solver.
  - destruct (ReleaseHold_ok _ _ _ _ _ _ _ Hv Hs Hr) as (now & t & v & q & h & Ht & Ho & _ & _ & ->).
    exists t, q. eexists. rewrite value_put. split_and!; [done|by unfold value; rewrite Ho|done|by rewrite recordChange_Holds].
Qed.

(** What the undo of a rollback records. *)
Definition undo_change (rq : HoldRequest) : PipelineChange :=
  mkChange "" "" (hr_Actor rq) "the rollback Bundle could not be created" (hr_Stamp rq) "".

(** C10. A rollback with a hold.  If it succeeds, the hold was made in one atomic step,
    names the Bundle that was created after it, records the digest of that Bundle's
    artifacts, and every other Bundle is kept out of the environment from then on.
    If the Bundle cannot be created after the hold was made, the call fails and undoes the
    hold with one release, whatever others write meanwhile: the environment then has no
    entry; or its hold had ended before, by others or by its expiry, and the undo wrote
    nothing; or the undo itself got an API error or too many conflicts, and the hold may
    stay.  With nobody else writing and the API answering while the hold lasts, the Pipeline is
    left with the holds it had, less an expired entry of the environment. *)
Theorem rollback_and_hold_outcome rq rd first second id l undo s :
  version_ok s → schedule s l →
  (∀ s' p h b, RollbackAndHold rq rd first second id l undo s = (s', inr (p, h, b)) →
     h_Bundle h = b_Name b ∧ gh_Artifacts (h_gate h) = ArtifactDigest (b_Artifacts b) ∧ b_RollbackOf b = b_Name (pl_Target p) ∧
     ∃ now t q q', others s t ∧ value t = Some q ∧ HoldOf now q (rq_Environment (hr_Rollback rq)) = None ∧ s' = put q' t ∧
       ∀ later bundle, Pending.Expired later (h_hold h) = false → bundle ≠ b_Name b →
         HeldFrom later q' (rq_Environment (hr_Rollback rq)) bundle = Some h) ∧
  (∀ p f s1 x s2 y e,
     accepted rq rd = true → plan_of rq rd = inr (p, f) → setHold (rollback_hold rq p) l s = (s1, x, Done) →
     CreateBundleAs (hr_Creator rq) (buildRollbackBundle rq p) first second = None → schedule s1 undo →
     ReleaseHold (rq_Environment (hr_Rollback rq)) (Some (undo_change rq)) id undo s1 = (s2, y, e) →
     RollbackAndHold rq rd first second id l undo s = (s2, inl ErrAPI) ∧ released_there (rq_Environment (hr_Rollback rq)) s1 s2 e) ∧
  (∀ p f now v q s1 later,
     accepted rq rd = true → plan_of rq rd = inr (p, f) → object s = Some (v, q) → HoldOf now q (rq_Environment (hr_Rollback rq)) = None →
     CreateBundleAs (hr_Creator rq) (buildRollbackBundle rq p) first second = None →
     l = [mkAttempt now s true s Answered] → setHold (rollback_hold rq p) l s = (s1, None, Done) →
     undo = [mkAttempt later s1 true s1 Answered] → Pending.Expired later (h_hold (rollback_hold rq p)) = false →
     ∃ q' s', RollbackAndHold rq rd first second id l undo s = (s', inl ErrAPI) ∧ value s' = Some q' ∧
       pp_Holds q' = without (rq_Environment (hr_Rollback rq)) (pp_Holds q)).
Proof.
  intros Hv Hs. split; [|split].
  - intros s' p h b (_ & _ & -> & (x & Hset) & Hb)%RollbackAndHold_ok.
    apply CreateBundleAs_artifacts in Hb as (Hn & Ha & _ & _ & Hof & _). rewrite Hn, Ha, Hof. split_and!; try done.
    destruct (setHold_done _ _ _ _ _ Hv Hs Hset) as (now & t & v & q & q' & Ht & Ho & -> & Hnone & Hanew).
    exists now, t, q, q'. split_and!; try done; [by unfold value; rewrite Ho|]. intros later bundle He Hne.
    pose proof (HeldFrom_new later (rollback_hold rq p) q q' bundle Hanew He) as Hh. rewrite bool_decide_false in Hh; [done|]. intros E. by apply Hne.
  - intros p f s1 x s2 y e Hacc Hplan Hset Hc Hu Hr. rewrite RollbackAndHold_accepted, Hplan, Hset, Hc by done. cbn [err_of].
    unfold undo_change in Hr. rewrite Hr. split; [done|]. apply (ReleaseHold_ends _ _ _ _ _ _ _ _) in Hr; [done| |done].
    destruct (setHold_done _ _ _ _ _ Hv Hs Hset) as (now & t & v & q & q' & _ & _ & -> & _). unfold version_ok. simpl. lia.
  - intros p f now v q s1 later Hacc Hplan Ho Hnone Hc -> Hset -> He. rewrite RollbackAndHold_accepted, Hplan, Hset, Hc by done. simpl.
    pose proof Hset as Hset'. unfold setHold in Hset'. erewrite retry_undisturbed in Hset'.
    2: { unfold value. rewrite Ho. simpl. by rewrite Hnone. }
    2: { by rewrite Ho. }
    injection Hset' as <-. set (q1 := MarkActorCheck _) in *. unfold ReleaseHold. erewrite retry_undisturbed.
    2: { unfold ReleaseHold_body. rewrite value_put.
         pose proof (exactHold_new later q q1 (rollback_hold rq p) eq_refl He) as Hex. cbn in Hex. by rewrite Hex. }
    2: { done. }
    eexists _, _. split; [done|]. rewrite value_put. split; [done|]. rewrite recordChange_Holds. by apply without_app.
Qed.

End fleets.

(** ** Examples *)

Definition demo_digest (a : Artifacts) : string := "sha256:" +:+ String.concat "," (imageKeys a).

(** Pipeline app with environments staging and prod. *)
Definition demo_app : Pipeline :=
  mkPipe "app" "uid" (Fleet.mkPipeline [Ordering.mkEnv "staging" "" [] 0 None; Ordering.mkEnv "prod" "" [] 0 None] [] [])
    [] false None false.

Definition demo_hold (env bundle : string) : Hold := new_hold demo_digest env bundle "INC-1" "alice" None 0 100 (b_Artifacts demo_v1).

Definition demo_at (revision : Z) (hs : list Hold) : store Pipeline := mkStore revision (Some (revision, set_Holds hs demo_app)).

(** The first attempt loses to a hold of staging, the second is stored. *)
Definition demo_contended : list (attempt Pipeline) :=
  [mkAttempt 100 (demo_at 7 []) true (demo_at 8 [demo_hold "staging" "v2"]) Answered;
   mkAttempt 101 (demo_at 8 [demo_hold "staging" "v2"]) true (demo_at 8 [demo_hold "staging" "v2"]) Answered].

Abbreviation demo_set := (setHold (λ _, None) Fleet.demo_scaled (λ _, true) (λ a b, a +:+ "/" +:+ b)).

Definition demo_after : store Pipeline :=
  put (MarkActorCheck (set_Holds [demo_hold "staging" "v2"; demo_hold "prod" "v1"] demo_app)) (demo_at 8 [demo_hold "staging" "v2"]).

Lemma demo_schedule : schedule (demo_at 7 []) demo_contended.
Proof.
  split; [apply others_refl|]. split; [|split; [apply others_refl|split; [apply others_refl|exact I]]].
  split; [simpl; lia|]. right. right. eexists _, _. split; [done|]. simpl. lia.
Qed.

Lemma demo_set_eq : demo_set (demo_hold "prod" "v1") demo_contended (demo_at 7 []) = (demo_after, None, Done).
Proof. vm_compute. reflexivity. Qed.

Lemma demo_version : version_ok (demo_at 7 []).
Proof. unfold version_ok. simpl. lia. Qed.

Lemma hold_takes_effect_witness :
  ∃ p, value demo_after = Some p ∧
    HeldFrom (λ _, None) Fleet.demo_scaled (λ _, true) (λ a b, a +:+ "/" +:+ b) 200 p "prod" "v3" = Some (demo_hold "prod" "v1").
Proof.
  destruct (proj1 (hold_takes_effect (λ _, None) Fleet.demo_scaled (λ _, true) (λ a b, a +:+ "/" +:+ b) (demo_hold "prod" "v1")
    demo_contended (demo_at 7 []) demo_after None Done demo_version demo_schedule demo_set_eq) eq_refl)
    as (now & t & v & p & p' & _ & _ & E & _ & _ & H).
  exists p'. split; [by rewrite E|]. destruct (H 200 eq_refl) as [H1 _]. exact (H1 "v3").
Defined.

Definition demo_current : HoldCurrentRequest := mkHoldCurrent "app" "prod" "INC-1" "alice" None 0 100.

Definition demo_running : list Step := [demo_step "v1" StateVerified 1].

Abbreviation demo_HoldCurrent := (HoldCurrent (λ _, None) Fleet.demo_scaled (λ _, true) (λ a b, a +:+ "/" +:+ b) demo_digest demo_current).

Lemma hold_current_runs_witness :
  demo_HoldCurrent (Got (set_Holds [demo_hold "staging" "v2"; demo_hold "prod" "v1"] demo_app)) 200 (Some demo_running)
    (getBundle demo_snapshot) [] demo_after = (demo_after, inr (demo_hold "prod" "v1", true)) ∧
  deployed (historyOf demo_running "app" "prod") = "v1".
Proof.
  split; [by vm_compute|].
  exact (proj1 (proj2 (hold_current_runs (λ _, None) Fleet.demo_scaled (λ _, true) (λ a b, a +:+ "/" +:+ b) demo_digest demo_current
    demo_app 100 demo_running (getBundle demo_snapshot) demo_contended (demo_at 7 []) demo_after (demo_hold "prod" "v1") false
    demo_version demo_schedule eq_refl))).
Defined.

(** v2 failed in prod; it is rolled back to v1 and held. *)
Definition demo_hold_request : HoldRequest := mkHoldRequest (demo_request false) "app-rollback-1" "INC-1" "alice" None 0 "alice" 100.

Definition demo_reads : hold_reads := mkHoldReads (Got demo_app) 100 (Got (pp_Fleets demo_app)) (Some demo_steps) demo_snapshot.

Abbreviation demo_rollback := (RollbackAndHold (λ _, None) Fleet.demo_scaled (λ _, true) (λ a b, a +:+ "/" +:+ b) demo_digest Some "kardinal"
  demo_hold_request demo_reads).

Definition demo_rollback_hold : Hold := rollback_hold demo_digest demo_hold_request demo_planned.

Lemma rollback_and_hold_outcome_witness :
  (∃ s' q', demo_rollback CreatorRefused BundleCreated "id" demo_contended [] (demo_at 7 []) = (s', inr (demo_planned, demo_rollback_hold,
      with_creator "" None (StampCreatedBy "alice" (buildRollbackBundle demo_hold_request demo_planned)))) ∧
     HeldFrom (λ _, None) Fleet.demo_scaled (λ _, true) (λ a b, a +:+ "/" +:+ b) 200 q' "prod" "v2" = Some demo_rollback_hold) ∧
  ∃ s', (let s1 := put (MarkActorCheck (set_Holds [demo_rollback_hold] demo_app)) (demo_at 7 []) in
   demo_rollback BundleRefused BundleRefused "id" [mkAttempt 100 (demo_at 7 []) true (demo_at 7 []) Answered]
     [mkAttempt 101 s1 true s1 Answered] (demo_at 7 [])) = (s', inl ErrAPI) ∧ pp_Holds <$> value s' = Some [].
Proof.
  split.
  - destruct (rollback_and_hold_outcome (λ _, None) Fleet.demo_scaled (λ _, true) (λ a b, a +:+ "/" +:+ b) demo_digest Some "kardinal"
      demo_hold_request demo_reads CreatorRefused BundleCreated "id" demo_contended [] (demo_at 7 []) demo_version demo_schedule) as [H _].
    edestruct H as (_ & _ & _ & now & t & q & q' & _ & _ & _ & _ & Hh); [vm_compute; reflexivity|].
    eexists _, q'. split; [vm_compute; reflexivity|]. exact (Hh 200 "v2" eq_refl ltac:(discriminate)).
  - assert (schedule (demo_at 7 []) [mkAttempt 100 (demo_at 7 []) true (demo_at 7 []) Answered]) as Hs.
    { split; [apply others_refl|split; [apply others_refl|exact I]]. }
    destruct (rollback_and_hold_outcome (λ _, None) Fleet.demo_scaled (λ _, true) (λ a b, a +:+ "/" +:+ b) demo_digest Some "kardinal"
      demo_hold_request demo_reads BundleRefused BundleRefused "id" [mkAttempt 100 (demo_at 7 []) true (demo_at 7 []) Answered]
      [mkAttempt 101 (put (MarkActorCheck (set_Holds [demo_rollback_hold] demo_app)) (demo_at 7 [])) true
         (put (MarkActorCheck (set_Holds [demo_rollback_hold] demo_app)) (demo_at 7 [])) Answered] (demo_at 7 []) demo_version Hs) as (_ & _ & H).
    edestruct (H demo_planned [] 100 7 demo_app (put (MarkActorCheck (set_Holds [demo_rollback_hold] demo_app)) (demo_at 7 [])) 101)
      as (q' & s' & H1 & H2 & H3); try (vm_compute; reflexivity). exists s'. split; [exact H1|]. rewrite H2. simpl. f_equal. exact H3.
Defined.

(** Undoing a rollback whose Bundle could not be created releases whatever hold the
    environment has by then: here bob released the hold and held the environment on
    v0 before the undo ran, and bob's hold is gone. *)
Theorem undo_releases_other_hold :
  let s1 := put (MarkActorCheck (set_Holds [demo_rollback_hold] demo_app)) (demo_at 7 []) in
  let bobs := demo_at 12 [demo_hold "prod" "v0"] in
  others s1 bobs ∧
  let '(s', r) := demo_rollback BundleRefused BundleRefused "id" [mkAttempt 100 (demo_at 7 []) true (demo_at 7 []) Answered]
                    [mkAttempt 101 bobs true bobs Answered] (demo_at 7 []) in
  r = inl ErrAPI ∧ pp_Holds <$> value s' = Some [].
Proof.
  split; [|vm_compute; by split]. split; [simpl; lia|]. right. right. eexists _, _. split; [done|]. simpl. lia.
Qed.
End Hold.
