(* ===== verification/HeldRollback.v ===== *)
(** * HeldRollback: a rollback made with a hold passes the gates

    What [Hold] writes (RollbackAndHold, src/pkg/lifecycle/hold.go) against what the
    PolicyGate reconciler verifies before it exempts a gate ([PolicyGate]:
    VerifyHeldRollback, holdExemption): the plan of a rollback of an environment
    restores what was Verified there, so its gates are exempt from the first
    evaluation; and the two cases in which they are not. *)

From stdpp Require Import base gmap strings list sorting.
From Stdlib Require Import Lia ZArith.
From S2P Require Import Prelude Topo Ordering Fleet Actor Engine StepStatus Hooks Outbox Bake Transition Cancel Pending Override PolicyGate History Rollback RollbackFleet Store Hold.
Import StepStatus.StepStatus Cancel.Cancel History.History Rollback.Rollback Store.Store Hold.Hold.

Module HeldRollback.
Import PolicyGate.PolicyGate(gh_hold, gh_Artifacts).

Lemma dep_config_named a : is_Some (dep_config a) → dep_config a = ConfigRef_ a.
Proof. unfold dep_config. destruct (deploysConfig a && has_commit a); [done|]. by intros [? ?]. Qed.

Section restored.
Variable sn : Snapshot.
Variable src : restoreSources.

(** A restoration keeps what the target names. *)
Lemma restore_keeps cur f r :
  restore sn src cur f = inr r →
  (∀ i, i ∈ Images f → i ∈ Images r) ∧ Chart r = Chart f ∧ Type_ r = Type_ f ∧
  (has_commit (copyArtifacts f) = true → ConfigRef_ r = ConfigRef_ (copyArtifacts f)).
Proof.
  unfold restore. destruct cur as [cur|]; [|intros [= <-]; by split_and!].
  destruct (if deploysConfig cur then restoreConfig sn src cur f (copyArtifacts f) else inr (copyArtifacts f)) as [|out] eqn:E1; simpl; [done|].
  assert ((Type_ out = Type_ f ∧ Images out = Images f ∧ Chart out = Chart f) ∧
    (has_commit (copyArtifacts f) = true → ConfigRef_ out = ConfigRef_ (copyArtifacts f))) as [(Ht & Hi & Hch) Hc].
  { destruct (deploysConfig cur); [|injection E1 as <-; by split_and!].
    apply restoreConfig_spec in E1 as ((? & ? & ?) & Hc & _). split_and!; try done. intros Hh. destruct Hc as [?|(_ & ? & _)]; [done|congruence]. }
  destruct (deploysImages cur); [|intros [= <-]; rewrite Hi; by split_and!].
  intros E2. pose proof E2 as ((H1 & H2 & H3) & _)%restoreImages_spec. split_and!; try congruence.
  - intros i Hin. rewrite <- Hi in Hin. revert E2. unfold restoreImages. case_bool_decide; [by intros [= <-]|].
    destruct (deploysImages f); cbn [negb].
    + destruct (fill_images sn src (Images cur) (Images out)) as [|imgs] eqn:Ef; simpl; [done|]. intros [= <-].
      apply fill_images_spec in Ef as (_ & Hk & _). by apply Hk.
    + case_bool_decide; [|done]. destruct (changedImages sn src (Images cur)) as [|ch]; simpl; [done|]. case_bool_decide; [|done]. by intros [= <-].
  - intros Hh. rewrite H2. by apply Hc.
Qed.

(** Building the rollback Bundle copies all of what was restored. *)
Lemma copy_restored cur f r : restore sn src cur f = inr r → ConfigRef_ (copyArtifacts r) = ConfigRef_ r.
Proof.
  intros (Ht & _ & Hc & _)%restore_spec. unfold copyArtifacts in *. simpl in *. rewrite Ht in *. case_bool_decide as E; [|done].
  destruct Hc as [Hc|[Hd _]]; [done|]. unfold deploysConfig in Hd. by rewrite E in Hd.
Qed.

(** The target itself, or the whole of it as a mixed Bundle. *)
Definition whole_of (t f : Artifacts) : Prop := f = t ∨ f = asMixed t.

Lemma whole_copy t f : valid_spec t → whole_of t f → Images f = Images t ∧ Chart f = Chart t ∧
  ConfigRef_ (copyArtifacts f) = ConfigRef_ t.
Proof.
  intros Hc [-> | ->]; [|done]. split_and!; try done. unfold copyArtifacts. simpl. case_bool_decide as E; [|done].
  symmetry. apply Hc. unfold deploysConfig. by rewrite E.
Qed.

Lemma restored_same_refs cur t f r :
  valid_spec t → whole_of t f → restore sn src cur f = inr r → sameRefsAs exactImage (copyArtifacts r) t = true.
Proof.
  intros Hw Hf Hr. destruct (whole_copy t f Hw Hf) as (Ei & Ech & Ec).
  pose proof (restore_keeps cur f r Hr) as (Hi & Hch & _ & Hc). pose proof (copy_restored cur f r Hr) as Hcp.
  unfold sameRefsAs. rewrite !andb_true_iff. split_and!.
  - apply forallb_forall. intros i Hin. apply existsb_exists. exists i. split; [|by apply bool_decide_eq_true].
    apply list_elem_of_In. simpl. apply Hi. rewrite Ei. by apply list_elem_of_In.
  - destruct (has_commit t) eqn:Eh; [|done]. cbn [negb orb]. apply bool_decide_eq_true. rewrite Hcp, Hc, Ec; [done|].
    unfold has_commit, commit_of in *. by rewrite Ec.
  - simpl. rewrite Hch, Ech. destruct (Chart t); [|done]. by apply bool_decide_eq_true.
Qed.
End restored.

Section plan.
Variable NormalizeRepository : string → option string.
Variable ControllerCreator : string.
Variable sn : Snapshot.
Variable rq : RollbackRequest.
Variable steps : list Step.
Variable fleet : string.

Abbreviation hist := (historyOf steps (rq_Pipeline rq) (rq_Environment rq)).

(** The plan restores a whole Bundle: it was named, or the deployed Bundle is mixed, of
    the same type, or gone.  Otherwise only the part of the deployed type is restored
    ([onlyTypeOf]). *)
Definition restores_whole (p : RollbackPlan) : Prop :=
  rq_ToBundle rq ≠ "" ∨
  match pl_Current p with
  | Some c => Type_ (b_Artifacts c) = "mixed" ∨ Type_ (b_Artifacts (pl_Target p)) = Type_ (b_Artifacts c)
  | None => True
  end.

Lemma restore_candidate_whole src cur t from r :
  candidate_part cur t = Some from →
  match cur with Some c => Type_ (b_Artifacts c) = "mixed" ∨ Type_ t = Type_ (b_Artifacts c) | None => True end →
  restore_candidate sn src cur t from = inr r →
  ∃ f, whole_of t f ∧ restore sn src (match cur with Some b => Some (b_Artifacts b) | None => None end) f = inr r.
Proof.
  intros Hp Hw Hr. assert (from = t) as ->.
  { revert Hp. unfold candidate_part. destruct cur as [c|]; [|by intros [= <-]].
    destruct Hw as [Hm|Ht]; [rewrite bool_decide_true by done|rewrite (bool_decide_true (Type_ t = _)), andb_false_r by done]; by intros [= <-]. }
  revert Hr. unfold restore_candidate. destruct (restore sn src _ t) as [[]|r'] eqn:Er; try done.
  - destruct cur as [c|]; [|done]. case_bool_decide; [|done]. intros Hm. exists (asMixed t). split; [by right|done].
  - intros [= <-]. exists t. split; [by left|done].
Qed.

Lemma plan_whole p :
  api_ok sn → plan_environment NormalizeRepository ControllerCreator sn rq (Some steps) fleet = inr p → restores_whole p →
  ∃ rb bs f, whole_of (b_Artifacts (pl_Target p)) f ∧
    restore sn (sources_of rq hist rb bs) (match pl_Current p with Some b => Some (b_Artifacts b) | None => None end) f = inr (pl_Restored p) ∧
    known_good sn rq steps bs (pl_Target p).
Proof.
  intros Hapi (rb & bs & _ & _ & _ & _ & _ & Hp)%plan_environment_ok Hw. exists rb, bs.
  destruct (plan_target sn rq steps p rb bs Hapi Hp) as (Hkg & _).
  destruct Hp as [[Hto Hp]|[Hto Hp]].
  - exists (b_Artifacts (pl_Target p)). split; [by left|]. split; [|done]. revert Hp. unfold plan_to.
    destruct (getBundle sn (rq_ToBundle rq)) as [b| |]; [|done..].
    repeat (match goal with |- (if ?b then _ else _) = _ → _ => destruct b end; [done|]).
    destruct (restore _ _ _ _) as [|r] eqn:Er; simpl; [done|].
    destruct (restored_change _ _ _ _) as [|x] eqn:Ex; simpl; [done|]. destruct (restored_change_same _ _ _ _ _ Ex) as [-> | ->]; [|done].
    by intros [= <- <-].
  - destruct Hw as [?|Hw]; [done|]. apply plan_newest_found in Hp as (l1 & name & l2 & _ & Hq & _).
    destruct Hq as (_ & _ & _ & _ & _ & _ & from & Hpart & Hr & _).
    destruct (restore_candidate_whole _ _ _ _ _ Hpart Hw Hr) as (f & ? & ?). by exists f.
Qed.

Lemma verified_named name : verifiedIn hist name = true → name ≠ "".
Proof.
  unfold verifiedIn. rewrite historyOf_lookup. intros H ->. rewrite (filter_none _ steps) in H; [done|]. by intros ? _ (_ & _ & _ & ?).
Qed.

(** [sn'] reads the history's Bundles as the plan did. *)
Definition reads_history (sn' : Snapshot) : Prop := ∀ name, verifiedIn hist name = true → getBundle sn' name = getBundle sn name.

Lemma read_artifacts_elem sn' b name v :
  reads_history sn' → verifiedIn hist name = true → getBundle sn name = Got v → name ≠ b_Name b →
  b_Artifacts v ∈ verified_artifacts sn' hist b.
Proof.
  intros Hrd Hv Hg Hne. unfold verified_artifacts. apply list_elem_of_omap. exists name. split; [by apply verifiedNewestFirst_elem|].
  by rewrite bool_decide_false, Hrd, Hg by done.
Qed.

(** What a plan restores, some Bundle that was Verified deployed. *)
Lemma restored_only_verified sn' p b :
  api_ok sn → plan_environment NormalizeRepository ControllerCreator sn rq (Some steps) fleet = inr p → restores_whole p →
  reads_history sn' → verifiedIn hist (b_Name b) = false → b_Artifacts b = copyArtifacts (pl_Restored p) →
  onlyVerifiedArtifacts sn' hist exactImage b = true.
Proof.
  intros Hapi Hp Hw Hrd Hfresh Ha. destruct (plan_whole p Hapi Hp Hw) as (rb & bs & f & Hf & Hr & Hkg).
  pose proof Hkg as (Hgt & _ & Hvt & _). destruct (Hapi _ _ Hgt) as [_ Hwf].
  destruct (whole_copy _ f Hwf Hf) as (Ei & Ech & Ec).
  assert (∀ name v, verifiedIn hist name = true → getBundle sn name = Got v → b_Artifacts v ∈ verified_artifacts sn' hist b) as Hin.
  { intros name v Hv Hg. apply (read_artifacts_elem sn' b name v); try done. intros ->. congruence. }
  pose proof (Hin _ _ Hvt Hgt) as Htin.
  pose proof (copy_restored sn _ _ _ _ Hr) as Hcp. pose proof (restore_keeps sn _ _ _ _ Hr) as (_ & Hch & _ & _).
  apply restore_spec in Hr as (_ & Hi & Hc & _). unfold onlyVerifiedArtifacts. rewrite Ha, !andb_true_iff. split_and!.
  - apply forallb_forall. intros i Hii%list_elem_of_In. simpl in Hii. apply existsb_exists. exists i.
    split; [|by apply bool_decide_eq_true]. apply list_elem_of_In, list_elem_of_join.
    destruct (Hi i Hii) as [Hit|(_ & name & v & He & Hiv)].
    + exists (Images (b_Artifacts (pl_Target p))). split; [by rewrite <- Ei|]. by apply list_elem_of_fmap_2.
    + exists (Images (b_Artifacts v)). split; [by apply dep_images_named|].
      apply list_elem_of_fmap_2. destruct He as (Hv & _ & Hg & _). apply (Hin name); [by apply verifiedNewestFirst_elem|done].
  - rewrite Hcp. destruct (ConfigRef_ (pl_Restored p)) as [c|] eqn:Ecr; [|done]. apply bool_decide_eq_true.
    destruct Hc as [Hc|(_ & name & v & (Hv & _ & Hg & _) & Hs & Hc)].
    + rewrite Ec in Hc. rewrite Hc. by apply list_elem_of_fmap_2.
    + rewrite Hc, (dep_config_named _ Hs). apply list_elem_of_fmap_2. apply (Hin name); [by apply verifiedNewestFirst_elem|done].
  - simpl. rewrite Hch, Ech. destruct (Chart (b_Artifacts (pl_Target p))) as [c|] eqn:Ecc; [|done]. apply bool_decide_eq_true.
    rewrite <- Ecc. by apply list_elem_of_fmap_2.
Qed.

Lemma restored_verifies sn' p b :
  api_ok sn → plan_environment NormalizeRepository ControllerCreator sn rq (Some steps) fleet = inr p → restores_whole p →
  reads_history sn' → verifiedIn hist (b_Name b) = false → b_Artifacts b = copyArtifacts (pl_Restored p) →
  b_RollbackOf b = b_Name (pl_Target p) → restoresVerified sn' hist exactImage b = true.
Proof.
  intros Hapi Hp Hw Hrd Hfresh Ha Hof. destruct (plan_whole p Hapi Hp Hw) as (rb & bs & f & Hf & Hr & Hgt & _ & Hvt & _).
  destruct (Hapi _ _ Hgt) as [_ Hwf]. unfold restoresVerified. rewrite Hof, bool_decide_false by (by apply verified_named).
  rewrite Hvt. cbn [negb]. rewrite Hrd, Hgt by done. apply andb_true_iff. split; [|by apply (restored_only_verified sn' p)].
  rewrite Ha. exact (restored_same_refs sn _ _ _ _ _ Hwf Hf Hr).
Qed.
End plan.

(** ** The gates *)

Section gates.
Context (selects : Ordering.FleetSelector → option (gmap string string → bool)).
Context (scaled : Ordering.IntOrString → Z → option Z).
Context (IsDNS1123Label : string → bool).
Context (path_Join : string → string → string).
Variable ArtifactDigest : Artifacts → string.
Variable NormalizeRepository : string → option string.
Variable ControllerCreator : string.
Variable Ctx : Type.

(** What an evaluation of a gate reads after the rollback: the same history, the
    Bundle that was created, and the stored holds. *)
Record evaluates_after (rq : HoldRequest) (steps : list Step) (sn : Snapshot) (b : Bundle) (h : Hold) (q : Pipeline)
    (gr : PolicyGate.Reads Ctx) : Prop := {
  ea_steps : PolicyGate.rd_steps Ctx gr = Some steps;
  ea_history : reads_history sn (hr_Rollback rq) steps (PolicyGate.rd_bundles Ctx gr);
  ea_bundle : getBundle (PolicyGate.rd_bundles Ctx gr) (b_Name b) = Got b;
  ea_holds : PolicyGate.rd_pipeline Ctx gr = Some (h_gate <$> pp_Holds q);
  ea_only : ∀ x, x ∈ pp_Holds q → h_Bundle x = b_Name b → x = h;
  ea_lasts : Pending.Expired (PolicyGate.rd_now Ctx gr) (h_hold h) = false
}.

Lemma HoldNaming_only now (hs : list Hold) h :
  h ∈ hs → (∀ x, x ∈ hs → h_Bundle x = h_Bundle h → x = h) → Pending.Expired now (h_hold h) = false → h_Bundle h ≠ "" →
  PolicyGate.HoldNaming now (h_gate <$> hs) (h_Bundle h) = Some (h_gate h).
Proof.
  intros Hin Honly He Hne. unfold PolicyGate.HoldNaming. rewrite bool_decide_false by done.
  induction hs as [|x l IH]; [by apply elem_of_nil in Hin|]. rewrite fmap_cons.
  destruct (decide (h_Bundle x = h_Bundle h)) as [E|E].
  - assert (x = h) as -> by (apply Honly; [by left|done]). by rewrite filter_cons_True.
  - rewrite filter_cons_False by naive_solver. apply IH; [|intros y Hy; apply Honly; by right].
    apply elem_of_cons in Hin as [->|?]; [done|done].
Qed.

(** C9. A rollback made with a hold passes the gates of its environment.  If a rollback
    with a hold of an environment that is not a fleet succeeds and restores a whole Bundle,
    under a name that was not verified there before, then every evaluation of a gate
    instance of that environment for the rollback Bundle exempts the gate, unless it is an
    approval or freeze gate, while the hold lasts and is the only one on that Bundle, and as
    long as the gate reads the history the plan read.  Without the first two conditions
    it need not ([fleet_hold_not_exempt], [partial_rollback_not_exempt]). *)
Theorem held_rollback_exempt rq rd first second id l undo s s' p h b fp steps q gr g :
  RollbackAndHold selects scaled IsDNS1123Label path_Join ArtifactDigest NormalizeRepository ControllerCreator rq rd first second id l undo s
    = (s', inr (p, h, b)) →
  version_ok s → schedule s l → value s' = Some q →
  hd_pipeline rd = Got fp → RollbackFleet.fleetTargets selects scaled IsDNS1123Label path_Join fp (rq_Environment (hr_Rollback rq)) = None →
  hd_steps rd = Some steps → api_ok (hd_bundles rd) → restores_whole (hr_Rollback rq) p →
  hr_Name rq ≠ "" → verifiedIn (historyOf steps (rq_Pipeline (hr_Rollback rq)) (rq_Environment (hr_Rollback rq))) (hr_Name rq) = false →
  ArtifactDigest (b_Artifacts b) ≠ "" →
  evaluates_after rq steps (hd_bundles rd) b h q gr →
  PolicyGate.g_pipeline g = rq_Pipeline (hr_Rollback rq) → PolicyGate.bundle_of g = b_Name b →
  PolicyGate.HoldExemptible g (rq_Environment (hr_Rollback rq)) = true →
  PolicyGate.holdExemption Ctx ArtifactDigest gr g = (Some (h_gate h), "").
Proof.
  intros Hr Hv Hs Hq Hfp Hft Hst Hapi Hw Hname Hfresh Hdig [E1 E2 E3 E4 E5 E6] Hg Hgb Hex.
  apply RollbackAndHold_ok in Hr as (_ & [f Hplan] & -> & [x Hset] & Hc). set (h := rollback_hold ArtifactDigest rq p) in *.
  apply CreateBundleAs_artifacts in Hc as (Hn & Ha & Hpl & Hlab & Hof & _).
  destruct (setHold_done _ _ _ _ _ _ _ _ _ Hv Hs Hset) as (_ & t & _ & q0 & q' & _ & _ & -> & _ & Hanew).
  rewrite value_put in Hq. injection Hq as ->. rewrite Hfp in Hplan. unfold RollbackFleet.PlanRollback in Hplan.
  destruct (bool_decide (rq_Pipeline (hr_Rollback rq) = "") || _) eqn:Ene; [done|]. apply orb_false_iff in Ene as [Ene _]. bools.
  destruct (Fleet.HasEnvironment _ _ _ _ _ _); cbn [negb] in Hplan; [|done]. rewrite Hft, Hst in Hplan.
  destruct (plan_environment _ _ _ _ _ _) as [|p0] eqn:Hp in Hplan; [done|]. injection Hplan as -> _.
  assert (h_Bundle h = b_Name b) as Hb by (symmetry; exact Hn).
  unfold PolicyGate.holdExemption. rewrite Hg, bool_decide_false, E4 by done. rewrite Hgb, <- Hb.
  rewrite (HoldNaming_only _ (pp_Holds q) h); try done.
  2: { rewrite (ha_holds _ _ _ Hanew). apply elem_of_app. right. by left. }
  2: { intros y Hy Ey. apply E5; [done|congruence]. }
  change (Pending.hd_Environment (gh_hold (h_gate h))) with (rq_Environment (hr_Rollback rq)). rewrite Hex. cbn [negb].
  unfold PolicyGate.VerifyHeldRollback. rewrite Hb, E3, Hlab, Hpl, (bool_decide_true (b_Pipeline _ = _)) by done. cbn [negb orb].
  change (gh_Artifacts (h_gate h)) with (ArtifactDigest (copyArtifacts (pl_Restored p))).
  rewrite Ha in Hdig |- *. change (b_Artifacts (buildRollbackBundle rq p)) with (copyArtifacts (pl_Restored p)) in *.
  rewrite bool_decide_false, bool_decide_true, E1 by done. cbn [negb].
  change (Pending.hd_Environment (gh_hold (h_gate h))) with (rq_Environment (hr_Rollback rq)).
  rewrite (restored_verifies NormalizeRepository ControllerCreator (hd_bundles rd) (hr_Rollback rq) steps _ _ p b Hapi Hp Hw E2); try done.
  by rewrite Hn.
Qed.

(** A hold of a fleet never exempts a gate: the history of the fleet's own name, which
    no step has, is empty. *)
Theorem fleet_hold_not_exempt gr pipeline h steps :
  PolicyGate.rd_steps Ctx gr = Some steps → (∀ st, st ∈ steps → st_Environment st ≠ Pending.hd_Environment (gh_hold h)) →
  PolicyGate.VerifyHeldRollback Ctx ArtifactDigest gr pipeline h ≠ None.
Proof.
  intros Hs Hno. unfold PolicyGate.VerifyHeldRollback. destruct (getBundle _ _) as [b| |]; [|done..].
  destruct (_ || _); [done|]. case_bool_decide; [done|]. case_bool_decide; cbn [negb]; [|done]. rewrite Hs.
  assert (verifiedIn (historyOf steps pipeline (Pending.hd_Environment (gh_hold h))) (b_RollbackOf b) = false) as Hv.
  { unfold verifiedIn. rewrite historyOf_lookup, filter_none; [done|]. intros st Hst (_ & E & _). by apply (Hno st). }
  unfold restoresVerified. rewrite Hv. by case_bool_decide.
Qed.
End gates.

(** ** Examples *)

Definition demo_created : Bundle := StampCreatedBy "alice" (buildRollbackBundle demo_hold_request demo_planned).

(** The Bundles of [demo_snapshot] and the rollback of v2. *)
Definition demo_with (b : Bundle) (sn : Snapshot) : Snapshot :=
  mkSnapshot (λ n, if bool_decide (n = b_Name b) then Got b else getBundle sn n) (Some [b]) (pipelineBundles sn).

Definition demo_held : Pipeline := MarkActorCheck (set_Holds [demo_hold "staging" "v2"; demo_rollback_hold] demo_app).

Definition demo_evaluation (sn : Snapshot) (holds : list PolicyGate.GateHold) (steps : list Step) : PolicyGate.Reads unit :=
  PolicyGate.mkReads unit 200 true (λ _, Outbox.Created) true Missing Missing (inl "") ("", "") PolicyGate.POk PolicyGate.POk None
    (Some holds) sn (Some steps).

Definition demo_prod_gate : PolicyGate.Gate :=
  PolicyGate.mkGate "g" (Some "app-rollback-1") "app" "prod" false false false true 1 "!schedule.isWeekend" "" "" None [] None [] [].

Lemma held_rollback_exempt_witness :
  PolicyGate.holdExemption unit demo_digest
    (demo_evaluation (demo_with demo_created demo_snapshot) (h_gate <$> pp_Holds demo_held) demo_steps) demo_prod_gate
  = (Some (h_gate demo_rollback_hold), "").
Proof.
  refine (held_rollback_exempt (λ _, None) Fleet.demo_scaled (λ _, true) (λ a b, a +:+ "/" +:+ b) demo_digest Some "kardinal" unit
    demo_hold_request demo_reads BundleCreated BundleCreated "id" demo_contended [] (demo_at 7 []) (put demo_held (demo_at 8 [demo_hold "staging" "v2"]))
    demo_planned demo_rollback_hold demo_created (pp_Fleets demo_app) demo_steps demo_held _ demo_prod_gate
    _ demo_version demo_schedule _ _ _ _ _ _ _ _ _ _ _ _ _); try (vm_compute; reflexivity).
  - exact demo_api_ok.
  - right. right. reflexivity.
  - discriminate.
  - discriminate.
  - split; try (vm_compute; reflexivity).
    + intros n. simpl. case_bool_decide; [subst; vm_compute; discriminate|done].
    + intros x [->|[->|?%elem_of_nil]%elem_of_cons]%elem_of_cons; [discriminate|done|done].
Defined.

(** v1 is a mixed Bundle, v2 an image Bundle: the rollback of v2 restores the images of
    v1 only.  Every one of them was Verified, but the rollback does not name v1's
    config commit, so the hold exempts none of its gates. *)
Definition demo_mixed_v1 : Bundle :=
  demo_bundle "v1" (mkArtifacts "mixed" [demo_image "1"] (Some (mkConfigRef "repo" "aaaa")) None).

Definition demo_mixed_snapshot : Snapshot :=
  mkSnapshot (λ n, if bool_decide (n = "v1") then Got demo_mixed_v1 else if bool_decide (n = "v2") then Got demo_v2 else Missing)
    (Some []) (Some [demo_mixed_v1; demo_v2]).

Theorem partial_rollback_not_exempt :
  let rd := mkHoldReads (Got demo_app) 100 (Got (pp_Fleets demo_app)) (Some demo_steps) demo_mixed_snapshot in
  match RollbackAndHold (λ _, None) Fleet.demo_scaled (λ _, true) (λ a b, a +:+ "/" +:+ b) demo_digest Some "kardinal"
          demo_hold_request rd BundleCreated BundleCreated "id" demo_contended [] (demo_at 7 []) with
  | (_, inr (p, h, b)) =>
      onlyVerifiedArtifacts (demo_with b demo_mixed_snapshot) (historyOf demo_steps "app" "prod") exactImage b = true ∧
      PolicyGate.VerifyHeldRollback unit demo_digest (demo_evaluation (demo_with b demo_mixed_snapshot) [h_gate h] demo_steps) "app" (h_gate h)
        = Some "it restores what was not Verified in prod"
  | _ => False
  end.
Proof. vm_compute. by split. Qed.
End HeldRollback.
