(* ===== verification/Pause.v ===== *)
(** * Pause: pausing a Pipeline and its fleets

    Model of src/pkg/lifecycle/pause.go (the freeze gate, Pause, Resume, SetPaused,
    SetFleetPaused, IsPaused) and of convergeFreezeGate
    (src/pkg/reconciler/pipeline/reconciler.go).  The Pipeline is an object of [Store];
    the PolicyGates of the namespace are a map by name.  The merge patch of a JSON
    object is a library's: what it makes of spec.lastChange is a parameter. *)

From stdpp Require Import base gmap strings list.
From Stdlib Require Import Lia ZArith.
From S2P Require Import Prelude Topo Ordering Fleet Actor Engine StepStatus Hooks Outbox Bake Transition Cancel Pending PolicyGate History Rollback RollbackFleet Store Hold.
Import Rollback.Rollback Store.Store Hold.Hold.

Module Pause.

(** ** The freeze gate *)

(** A PolicyGate as far as a pause reads it: whether the label kardinal.io/freeze is
    "true", and kind, name and apiVersion of its controller. *)
Record FreezeGate := mkFreezeGate { fg_freeze : bool; fg_owner : option (string * string * string) }.

#[export] Instance FreezeGate_eq_dec : EqDecision FreezeGate.
Proof. solve_decision. Defined.

Definition GroupVersion : string := "kardinal.io/v1alpha1".

Definition FreezeGateName (pipeline : string) : string := "freeze-" +:+ pipeline.

Definition PausedMessage (pipeline : string) : string :=
  "pipeline " +:+ pipeline +:+ " is paused — resume with: kardinal resume " +:+ pipeline.

Definition DesiredFreezeGate (p : Pipeline) : FreezeGate :=
  mkFreezeGate true (if bool_decide (pp_UID p = "") then None else Some ("Pipeline", pp_Name p, GroupVersion)).

Definition IsFreezeGate (name : string) (g : FreezeGate) (pipeline : string) : bool :=
  if negb (bool_decide (name = FreezeGateName pipeline)) then false
  else fg_freeze g || bool_decide (fg_owner g = Some ("Pipeline", pipeline, GroupVersion)).

Abbreviation gates := (gmap string FreezeGate).

(** Why a call fails, and what a read of a gate answers. *)
Inductive gate_fault := FaultForbidden | FaultOther.
Inductive gate_read := GateIs (g : FreezeGate) | GateMissing | GateFault (f : gate_fault).
Inductive gate_error := GateConflict | GateForbidden | GateError.

#[export] Instance gate_error_eq_dec : EqDecision gate_error.
Proof. solve_decision. Defined.

Definition fault_error (f : gate_fault) : gate_error := match f with FaultForbidden => GateForbidden | FaultOther => GateError end.

(** [create]: whether the create fails for another reason than that the gate exists;
    [get]: the answer of the read after that. *)
Definition EnsureFreezeGate (create : option gate_fault) (get : gate_read) (p : Pipeline) (gs : gates) : gates * option gate_error :=
  match create with
  | Some f => (gs, Some (fault_error f))
  | None =>
      match gs !! FreezeGateName (pp_Name p) with
      | None => (<[FreezeGateName (pp_Name p) := DesiredFreezeGate p]> gs, None)
      | Some _ =>
          match get with
          | GateIs g => (gs, if IsFreezeGate (FreezeGateName (pp_Name p)) g (pp_Name p) then None else Some GateConflict)
          | GateMissing => (gs, Some GateError)
          | GateFault f => (gs, Some (fault_error f))
          end
      end
  end.

Definition RemoveFreezeGate (get : gate_read) (delete_ : option gate_fault) (pipeline : string) (gs : gates) : gates * option gate_error :=
  match get with
  | GateMissing => (gs, None)
  | GateFault f => (gs, Some (fault_error f))
  | GateIs g =>
      if negb (IsFreezeGate (FreezeGateName pipeline) g pipeline) then (gs, None)
      else match delete_ with
           | Some f => (gs, Some (fault_error f))
           | None => (delete (FreezeGateName pipeline) gs, None)
           end
  end.

(** Whether the promotion steps of the pipeline are held. *)
Definition IsPaused (get : gate_read) (pipeline : string) : gate_error + bool :=
  match get with
  | GateMissing => inr false
  | GateFault f => inl (fault_error f)
  | GateIs g => inr (IsFreezeGate (FreezeGateName pipeline) g pipeline)
  end.

(** A read that answers what is stored. *)
Definition stored (pipeline : string) (gs : gates) : gate_read :=
  match gs !! FreezeGateName pipeline with Some g => GateIs g | None => GateMissing end.

(** ** The request *)

Definition pauseAction (paused : bool) : string := if paused then PipelineChangePause else PipelineChangeResume.

Definition set_Paused (paused : bool) (p : Pipeline) : Pipeline :=
  mkPipe (pp_Name p) (pp_UID p) (pp_Fleets p) (pp_Holds p) paused (pp_LastChange p) (pp_ActorCheck p).

(** [SetPaused]: read, decide, update. *)
Definition SetPaused_body (paused : bool) (who : option PipelineChange) (id : string) (_ : Time) (p : option Pipeline) :
  option unit * (plan_error + option Pipeline) :=
  match p with
  | None => (None, inl ErrNotFound)
  | Some p => if bool_decide (pp_Paused p = paused) then (None, inr None)
              else (None, inr (Some (recordChange who (pauseAction paused) "" id (set_Paused paused p))))
  end.

Definition SetPaused (paused : bool) (who : option PipelineChange) (id : string) (l : list (attempt Pipeline)) (s : store Pipeline) :
  store Pipeline * option plan_error :=
  let '(s, _, o) := RetryOnConflict (SetPaused_body paused who id) l None s in (s, err_of o).

Section patch.
(** What the merge patch from the first record to the second makes of the third. *)
Variable merge_change : option PipelineChange → option PipelineChange → option PipelineChange → option PipelineChange.

(** [client.MergeFrom]: the fields that differ between [old] and [new] are written to
    [cur]. *)
Definition merge_pipeline (old new cur : Pipeline) : Pipeline :=
  mkPipe (pp_Name cur) (pp_UID cur) (pp_Fleets cur) (pp_Holds cur)
    (if bool_decide (pp_Paused old = pp_Paused new) then pp_Paused cur else pp_Paused new)
    (merge_change (pp_LastChange old) (pp_LastChange new) (pp_LastChange cur))
    (if bool_decide (pp_ActorCheck old = pp_ActorCheck new) then pp_ActorCheck cur else pp_ActorCheck new).

(** [setPaused]: the patch carries no version, so it is applied to whatever is stored at
    the write. *)
Definition setPaused (paused : bool) (who : option PipelineChange) (id : string) (a : attempt Pipeline) :
  store Pipeline * (plan_error + Pipeline) :=
  if negb (at_readable a) then (at_read a, inl ErrAPI)
  else match value (at_read a) with
       | None => (at_read a, inl ErrNotFound)
       | Some p =>
           if bool_decide (pp_Paused p = paused) then (at_read a, inr p)
           else
             let new := recordChange who (pauseAction paused) "" id (set_Paused paused p) in
             match value (at_write a), at_answer a with
             | Some cur, Answered => (put (merge_pipeline p new cur) (at_write a), inr (merge_pipeline p new cur))
             | Some cur, Lost => (put (merge_pipeline p new cur) (at_write a), inl ErrAPI)
             | _, _ => (at_write a, inl ErrAPI)
             end
       end.

Inductive pause_error := PauseErr (e : plan_error) | PauseGate (e : gate_error).

(** An error of the gate is returned, but for a forbidden one: the reconciler then
    does it. *)
Definition tolerate (e : option gate_error) : option pause_error :=
  match e with Some GateForbidden => None | Some e => Some (PauseGate e) | None => None end.

Definition Pause (who : option PipelineChange) (id : string) (a : attempt Pipeline) (create : option gate_fault) (get : gate_read)
    (gs : gates) : store Pipeline * gates * option pause_error :=
  match setPaused true who id a with
  | (s, inl e) => (s, gs, Some (PauseErr e))
  | (s, inr p) => let '(gs, e) := EnsureFreezeGate create get p gs in (s, gs, tolerate e)
  end.

Definition Resume (pipeline : string) (who : option PipelineChange) (id : string) (a : attempt Pipeline) (get : gate_read)
    (delete_ : option gate_fault) (gs : gates) : store Pipeline * gates * option pause_error :=
  match setPaused false who id a with
  | (s, inl e) => (s, gs, Some (PauseErr e))
  | (s, inr _) => let '(gs, e) := RemoveFreezeGate get delete_ pipeline gs in (s, gs, tolerate e)
  end.

(** ** Pausing a fleet *)

Definition isFleetEnvironment (p : Pipeline) (env : string) : bool :=
  match list_find (λ e, Ordering.Name e = env) (Fleet.Environments (pp_Fleets p)) with
  | Some (_, e) => bool_decide (is_Some (Ordering.Fleet e))
  | None => false
  end.

Definition FleetPaused (p : Pipeline) (fleet : string) : bool := bool_decide (fleet ∈ Fleet.PausedFleets (pp_Fleets p)).

Definition set_PausedFleets (l : list string) (p : Pipeline) : Pipeline :=
  mkPipe (pp_Name p) (pp_UID p) (Fleet.mkPipeline (Fleet.Environments (pp_Fleets p)) l (Fleet.Fleets (pp_Fleets p)))
    (pp_Holds p) (pp_Paused p) (pp_LastChange p) (pp_ActorCheck p).

Definition SetFleetPaused_body (fleet : string) (paused : bool) (who : option PipelineChange) (id : string) (_ : Time) (p : option Pipeline) :
  option unit * (plan_error + option Pipeline) :=
  match p with
  | None => (None, inl ErrNotFound)
  | Some p =>
      let listed := FleetPaused p fleet in
      let l := Fleet.PausedFleets (pp_Fleets p) in
      if paused then
        if negb (isFleetEnvironment p fleet) then (None, inl ErrInvalid)
        else if listed then (None, inr None)
        else (None, inr (Some (recordChange who PipelineChangePauseFleet fleet id (set_PausedFleets (l ++ [fleet]) p))))
      else
        if negb listed then (None, inr None)
        else (None, inr (Some (recordChange who PipelineChangeResumeFleet fleet id (set_PausedFleets (filter (λ f, f ≠ fleet) l) p))))
  end.

Definition SetFleetPaused (fleet : string) (paused : bool) (who : option PipelineChange) (id : string) (l : list (attempt Pipeline))
    (s : store Pipeline) : store Pipeline * option plan_error :=
  let '(s, _, o) := RetryOnConflict (SetFleetPaused_body fleet paused who id) l None s in (s, err_of o).
End patch.

(** ** The reconciler *)

(** The condition Paused: its status and reason. *)
Record Condition := mkCondition { cd_True : bool; cd_Reason : string }.

Definition reasonFreezeGateActive : string := "FreezeGateActive".
Definition reasonFreezeGateNameConflict : string := "FreezeGateNameConflict".

(** [convergeFreezeGate]: the gates, and the condition wanted ([None] when there should
    be none) or the error. *)
Definition convergeFreezeGate (create : option gate_fault) (get : gate_read) (delete_ : option gate_fault) (p : Pipeline) (gs : gates) :
  gates * (gate_error + option Condition) :=
  if negb (pp_Paused p) then
    match RemoveFreezeGate get delete_ (pp_Name p) gs with
    | (gs, Some e) => (gs, inl e)
    | (gs, None) => (gs, inr None)
    end
  else
    match EnsureFreezeGate create get p gs with
    | (gs, Some GateConflict) => (gs, inr (Some (mkCondition false reasonFreezeGateNameConflict)))
    | (gs, Some e) => (gs, inl e)
    | (gs, None) => (gs, inr (Some (mkCondition true reasonFreezeGateActive)))
    end.

(** [pipelineForFreezeGate]: the Pipeline a gate's change is reconciled for. *)
Definition pipelineForFreezeGate (name : string) : option string :=
  if HasPrefix name "freeze-" then
    let p := TrimPrefix name "freeze-" in if bool_decide (p = "") then None else Some p
  else None.

(** ** What a pause does *)

Lemma IsFreezeGate_desired p : IsFreezeGate (FreezeGateName (pp_Name p)) (DesiredFreezeGate p) (pp_Name p) = true.
Proof. unfold IsFreezeGate. by rewrite bool_decide_true. Qed.

Lemma IsFreezeGate_name n g pipeline : IsFreezeGate n g pipeline = true → n = FreezeGateName pipeline.
Proof. unfold IsFreezeGate. by case_bool_decide. Qed.

(** The gate of that name is a user's. *)
Definition name_taken (pipeline : string) (gs : gates) : Prop :=
  ∃ g, gs !! FreezeGateName pipeline = Some g ∧ IsFreezeGate (FreezeGateName pipeline) g pipeline = false.

Lemma IsPaused_stored pipeline gs :
  IsPaused (stored pipeline gs) pipeline =
  inr (match gs !! FreezeGateName pipeline with Some g => IsFreezeGate (FreezeGateName pipeline) g pipeline | None => false end).
Proof. unfold stored. by destruct (gs !! _). Qed.

Lemma EnsureFreezeGate_spec p gs gs' e :
  EnsureFreezeGate None (stored (pp_Name p) gs) p gs = (gs', e) →
  (name_taken (pp_Name p) gs ∧ gs' = gs ∧ e = Some GateConflict) ∨
  (¬ name_taken (pp_Name p) gs ∧ e = None ∧ IsPaused (stored (pp_Name p) gs') (pp_Name p) = inr true ∧
   (gs' = gs ∨ (gs !! FreezeGateName (pp_Name p) = None ∧ gs' = <[FreezeGateName (pp_Name p) := DesiredFreezeGate p]> gs))).
Proof.
  unfold EnsureFreezeGate, stored, name_taken. destruct (gs !! FreezeGateName (pp_Name p)) as [g|] eqn:E.
  - destruct (IsFreezeGate _ g _) eqn:Ef; intros [= <- <-]; [right|left; split; [by exists g|done]].
    rewrite E. split_and!; [by intros (? & [= <-] & ?); congruence|done|by rewrite <- Ef|by left].
  - intros [= <- <-]. right. rewrite lookup_insert_eq. simpl. rewrite IsFreezeGate_desired.
    split_and!; [by intros (? & ? & ?)|done|done|by right].
Qed.

Lemma RemoveFreezeGate_spec pipeline gs gs' e :
  RemoveFreezeGate (stored pipeline gs) None pipeline gs = (gs', e) →
  e = None ∧ IsPaused (stored pipeline gs') pipeline = inr false ∧
  (gs' = gs ∨ ∃ g, gs !! FreezeGateName pipeline = Some g ∧ IsFreezeGate (FreezeGateName pipeline) g pipeline = true ∧
     gs' = delete (FreezeGateName pipeline) gs).
Proof.
  unfold RemoveFreezeGate. rewrite !IsPaused_stored. unfold stored. destruct (gs !! FreezeGateName pipeline) as [g|] eqn:E.
  - destruct (IsFreezeGate _ g _) eqn:Ef; cbn [negb]; intros [= <- <-].
    + rewrite lookup_delete_eq. split_and!; try done. right. by exists g.
    + rewrite E, Ef. by split_and!; [|..|left].
  - intros [= <- <-]. rewrite E. by split_and!; [|..|left].
Qed.

(** The freeze gate follows spec.paused.  When the API answers, one reconcile makes the
    steps of a pipeline held exactly when spec.paused is set and no user's gate has
    the freeze gate's name, and the condition Paused says so: absent when it is not
    paused, True when it is held, False on a name conflict.  No gate of a user and no
    other gate is touched, and a second reconcile changes nothing. *)
Theorem freeze_gate_converges p gs :
  let '(gs', r) := convergeFreezeGate None (stored (pp_Name p) gs) None p gs in
  ∃ c, r = inr c ∧ (c = None ↔ pp_Paused p = false) ∧
    IsPaused (stored (pp_Name p) gs') (pp_Name p) = inr (match c with Some c => cd_True c | None => false end) ∧
    (IsPaused (stored (pp_Name p) gs') (pp_Name p) = inr true ↔ pp_Paused p = true ∧ ¬ name_taken (pp_Name p) gs) ∧
    (∀ n, n ≠ FreezeGateName (pp_Name p) → gs' !! n = gs !! n) ∧
    (∀ n g, gs !! n = Some g → IsFreezeGate n g (pp_Name p) = false → gs' !! n = Some g) ∧
    convergeFreezeGate None (stored (pp_Name p) gs') None p gs' = (gs', r).
Proof.
  unfold convergeFreezeGate. destruct (pp_Paused p) eqn:Ep; cbn [negb].
  - destruct (EnsureFreezeGate _ _ _ _) as [gs' e] eqn:Ee.
    apply EnsureFreezeGate_spec in Ee as [(Ht & -> & ->)|(Ht & -> & Hp & Hgs)].
    + eexists. split; [done|]. rewrite !IsPaused_stored. pose proof Ht as (g & Eg & Ef). rewrite Eg, Ef. split_and!; try done.
      * by split; [|intros [_ ?]].
      * unfold EnsureFreezeGate, stored. by rewrite Eg, Ef.
    + eexists. split; [done|]. rewrite Hp. split_and!; try done.
      * intros n Hn. destruct Hgs as [-> |[_ ->]]; [done|by rewrite lookup_insert_ne].
      * intros n g Eg Ef. destruct Hgs as [-> |[En ->]]; [done|]. rewrite lookup_insert_ne; [done|]. intros <-. congruence.
      * rewrite IsPaused_stored in Hp. injection Hp as Hp. unfold EnsureFreezeGate, stored.
        destruct (gs' !! FreezeGateName (pp_Name p)); [|done]. by rewrite Hp.
  - destruct (RemoveFreezeGate _ _ _ _) as [gs' e] eqn:Ee. apply RemoveFreezeGate_spec in Ee as (-> & Hp & Hgs).
    eexists. split; [done|]. rewrite Hp. split_and!; try done; [by split; [|intros [? _]]|..].
    + intros n Hn. destruct Hgs as [-> |(g & _ & _ & ->)]; [done|by rewrite lookup_delete_ne].
    + intros n g Eg Ef. destruct Hgs as [-> |(g' & Eg' & Ef' & ->)]; [done|]. rewrite lookup_delete_ne; [done|]. intros <-. congruence.
    + rewrite IsPaused_stored in Hp. injection Hp as Hp. unfold RemoveFreezeGate, stored.
      destruct (gs' !! FreezeGateName (pp_Name p)); [|done]. by rewrite Hp.
Qed.

(** Every gate that a pause of some Pipeline concerns wakes that Pipeline. *)
Lemma freeze_gate_wakes n g pipeline : pipeline ≠ "" → IsFreezeGate n g pipeline = true → pipelineForFreezeGate n = Some pipeline.
Proof.
  intros Hp ->%IsFreezeGate_name. unfold pipelineForFreezeGate, FreezeGateName. rewrite HasPrefix_app, TrimPrefix_app. cbv zeta.
  by rewrite bool_decide_false.
Qed.

Section pausing.
Variable merge_change : option PipelineChange → option PipelineChange → option PipelineChange → option PipelineChange.

(** What a request to pause or resume leaves of the Pipeline: the rest is as stored
    at the write. *)
Lemma setPaused_ok paused who id a s p :
  setPaused merge_change paused who id a = (s, inr p) →
  value s = Some p ∧ pp_Paused p = paused ∧
  ∃ cur, value (at_read a) = Some cur ∧ pp_Paused cur = paused ∧ s = at_read a ∧ p = cur ∨
         value (at_write a) = Some cur ∧ s = put p (at_write a) ∧ pp_Holds p = pp_Holds cur ∧ pp_Fleets p = pp_Fleets cur ∧
         pp_Name p = pp_Name cur ∧ pp_UID p = pp_UID cur.
Proof.
  unfold setPaused. destruct (at_readable a); cbn [negb]; [|done]. destruct (value (at_read a)) as [q|] eqn:Er; [|done].
  case_bool_decide as Eq.
  { intros [= <- <-]. split_and!; try done. exists q. by left. }
  destruct (value (at_write a)) as [cur|] eqn:Ew; [|done]. destruct (at_answer a); try done. intros [= <- <-].
  rewrite value_put. split_and!; [done| |exists cur; right; by split_and!].
  unfold merge_pipeline. simpl. rewrite bool_decide_false.
  - unfold recordChange. destruct who; [case_bool_decide|]; done.
  - unfold recordChange. destruct who; [case_bool_decide|]; done.
Qed.

(** A pause that succeeds holds the pipeline, and a resume that succeeds lets it
    go, whatever other clients write to the Pipeline meanwhile: their holds and
    fleets are kept.  Unless the caller may not write PolicyGates, the freeze gate is
    in place (or gone) when the call returns; otherwise spec.paused is, and the
    reconciler follows. *)
Theorem pause_holds_resume_releases who id a create gs s gs' :
  (∀ get, (∀ p, value s = Some p → get = stored (pp_Name p) gs) →
     Pause merge_change who id a create get gs = (s, gs', None) →
     ∃ p cur, value s = Some p ∧ pp_Paused p = true ∧ (value (at_read a) = Some cur ∨ value (at_write a) = Some cur) ∧
       pp_Holds p = pp_Holds cur ∧ pp_Fleets p = pp_Fleets cur ∧
       (create ≠ Some FaultForbidden → IsPaused (stored (pp_Name p) gs') (pp_Name p) = inr true)) ∧
  (∀ pipeline, Resume merge_change pipeline who id a (stored pipeline gs) create gs = (s, gs', None) →
     ∃ p cur, value s = Some p ∧ pp_Paused p = false ∧ (value (at_read a) = Some cur ∨ value (at_write a) = Some cur) ∧
       pp_Holds p = pp_Holds cur ∧ pp_Fleets p = pp_Fleets cur ∧
       (create ≠ Some FaultForbidden → IsPaused (stored pipeline gs') pipeline = inr false)).
Proof.
  assert (∀ paused p, setPaused merge_change paused who id a = (s, inr p) → value s = Some p ∧ pp_Paused p = paused ∧
    ∃ cur, (value (at_read a) = Some cur ∨ value (at_write a) = Some cur) ∧ pp_Holds p = pp_Holds cur ∧ pp_Fleets p = pp_Fleets cur) as Hset.
  { intros paused p (Hv & Hp & cur & Hc)%setPaused_ok. split_and!; try done. exists cur.
    destruct Hc as [(? & _ & _ & ->)|(? & _ & ? & ? & _)]; split_and!; auto. }
  split.
  - intros get Hget. unfold Pause. destruct (setPaused _ true who id a) as [s1 [|p]] eqn:Es; [done|].
    destruct (EnsureFreezeGate create get p gs) as [gs1 e] eqn:Ee. intros [= -> -> Ht].
    destruct (Hset true p Es) as (Hv & Hp & cur & Hc & Hh & Hf). exists p, cur. split_and!; try done. intros Hcr.
    rewrite (Hget p Hv) in Ee. destruct create as [[]|]; [done|injection Ee as <- <-; done|].
    apply EnsureFreezeGate_spec in Ee as [(_ & _ & ->)|(_ & _ & ? & _)]; done.
  - intros pipeline. unfold Resume. destruct (setPaused _ false who id a) as [s1 [|p]] eqn:Es; [done|].
    destruct (RemoveFreezeGate _ create pipeline gs) as [gs1 e] eqn:Ee. intros [= -> -> Ht].
    destruct (Hset false p Es) as (Hv & Hp & cur & Hc & Hh & Hf). exists p, cur. split_and!; try done. intros Hcr.
    destruct create as [[]|]; [done| |by apply RemoveFreezeGate_spec in Ee as (_ & ? & _)].
    revert Ee. unfold RemoveFreezeGate. rewrite IsPaused_stored. unfold stored.
    destruct (gs !! FreezeGateName pipeline) as [g|] eqn:Eg; [|intros [= <- <-]; by rewrite Eg].
    destruct (IsFreezeGate _ g _) eqn:Ef; cbn [negb]; intros [= <- <-]; [done|by rewrite Eg, Ef].
Qed.
End pausing.

(** ** Pausing a fleet *)

Abbreviation paused_fleets p := (Fleet.PausedFleets (pp_Fleets p)).

Lemma isFleetEnvironment_named p fleet :
  isFleetEnvironment p fleet = true → fleet ∈ Fleet.fleet_names (Fleet.Environments (pp_Fleets p)).
Proof.
  unfold isFleetEnvironment, Fleet.fleet_names. destruct (list_find _ _) as [[i e]|] eqn:E; [|done]. intros Hf. bools.
  apply list_find_Some in E as (Hl & <- & _). apply elem_of_list_to_set, (list_elem_of_fmap_2 Ordering.Name), list_elem_of_filter.
  split; [done|]. by apply list_elem_of_lookup_2 in Hl.
Qed.

(** What one write of [SetFleetPaused] does. *)
Lemma SetFleetPaused_written fleet paused who id now p x p' :
  SetFleetPaused_body fleet paused who id now (Some p) = (x, inr (Some p')) →
  FleetPaused p fleet = negb paused ∧ (paused = true → isFleetEnvironment p fleet = true) ∧
  paused_fleets p' = (if paused then paused_fleets p ++ [fleet] else filter (λ f, f ≠ fleet) (paused_fleets p)) ∧
  pp_Holds p' = pp_Holds p ∧ pp_Paused p' = pp_Paused p ∧
  Fleet.Environments (pp_Fleets p') = Fleet.Environments (pp_Fleets p).
Proof.
  assert (∀ action q, pp_Paused (recordChange who action fleet id q) = pp_Paused q) as Hpz.
  { intros action q. unfold recordChange. destruct who; [|done]. by case_bool_decide. }
  simpl. destruct paused.
  - destruct (isFleetEnvironment p fleet); cbn [negb]; [|done]. destruct (FleetPaused p fleet); [done|]. intros [= <- <-].
    by rewrite !recordChange_Fleets, recordChange_Holds, Hpz.
  - destruct (FleetPaused p fleet); cbn [negb]; [|done]. intros [= <- <-]. by rewrite !recordChange_Fleets, recordChange_Holds, Hpz.
Qed.

(** Pausing a fleet is one atomic step.  If it succeeds, then from the Pipeline of
    some moment the fleet is in spec.pausedFleets (once) or not in it, the other
    fleets, the holds and spec.paused are as they were, and if the list only named
    fleets it still does. *)
Theorem fleet_pause_atomic fleet paused who id l s s' :
  version_ok s → schedule s l → SetFleetPaused fleet paused who id l s = (s', None) →
  ∃ t p p', others s t ∧ value t = Some p ∧ value s' = Some p' ∧ (s' = t ∨ s' = put p' t) ∧
    FleetPaused p' fleet = paused ∧ (∀ f, f ≠ fleet → FleetPaused p' f = FleetPaused p f) ∧
    pp_Holds p' = pp_Holds p ∧ pp_Paused p' = pp_Paused p ∧
    (NoDup (paused_fleets p) → NoDup (paused_fleets p')) ∧
    (Fleet.ValidatePausedFleets (pp_Fleets p) = [] → Fleet.ValidatePausedFleets (pp_Fleets p') = []).
Proof.
  intros Hv Hs. unfold SetFleetPaused. destruct (RetryOnConflict _ _ _ _) as [[s1 x] o] eqn:Er. intros [= -> Ho].
  assert (o = Done) as -> by (by destruct o).
  destruct (retry_atomic _ _ _ _ _ _ _ Hv Hs Er) as (now & t & y & Ht & Hat & _).
  apply atomic_inv_done in Hat as [[Hf ->]|(p' & v & p & Hf & Hob & ->)].
  - destruct (value t) as [p|] eqn:Ep; [|done]. exists t, p, p. split_and!; try done; [by left|]. revert Hf. simpl.
    destruct paused; [destruct (isFleetEnvironment p fleet); [|done]; cbn [negb]|]; by destruct (FleetPaused p fleet).
  - assert (value t = Some p) as Ep by (unfold value; by rewrite Hob). rewrite Ep in Hf.
    apply SetFleetPaused_written in Hf as (Hl & Hfl & Hpf & Hh & Hp & He). exists t, p, p'.
    unfold FleetPaused, Fleet.ValidatePausedFleets in *. rewrite Hpf, He.
    split_and!; try done; [by right|..].
    + destruct paused; [apply bool_decide_eq_true, elem_of_app; right; by left|]. apply bool_decide_eq_false. by intros [? _]%list_elem_of_filter.
    + intros f Hne. apply bool_decide_ext. destruct paused.
      * rewrite elem_of_app, list_elem_of_singleton. naive_solver.
      * rewrite list_elem_of_filter. naive_solver.
    + intros Hnd. destruct paused; [|by apply NoDup_filter]. cbn [negb] in Hl. bools. apply NoDup_app. split_and!; [done| |apply NoDup_singleton].
      by intros f Hf ->%list_elem_of_singleton.
    + intros Hval. assert (∀ f, f ∈ paused_fleets p → f ∈ Fleet.fleet_names (Fleet.Environments (pp_Fleets p))) as Hall.
      { intros f Hf. destruct (decide (f ∈ Fleet.fleet_names (Fleet.Environments (pp_Fleets p)))); [done|].
        exfalso. apply (not_elem_of_nil f). rewrite <- Hval. by apply list_elem_of_filter. }
      apply filter_none. intros f Hf Hn. apply Hn. destruct paused; [|apply list_elem_of_filter in Hf as [_ ?]; by apply Hall].
      apply elem_of_app in Hf as [?| ->%list_elem_of_singleton]; [by apply Hall|]. by apply isFleetEnvironment_named, Hfl.
Qed.

(** ** Examples *)

Definition demo_fleet_app : Pipeline := mkPipe "app" "uid" Fleet.demo_pipeline [] false None false.

Definition demo_one (p : Pipeline) : attempt Pipeline := mkAttempt 100 (mkStore 7 (Some (7, p))) true (mkStore 7 (Some (7, p))) Answered.

Lemma fleet_pause_atomic_witness :
  let '(s', e) := SetFleetPaused "prod" true None "id" [demo_one demo_fleet_app] (mkStore 7 (Some (7, demo_fleet_app))) in
  e = None ∧ (λ p, FleetPaused p "prod") <$> value s' = Some true.
Proof.
  edestruct (fleet_pause_atomic "prod" true None "id" [demo_one demo_fleet_app] (mkStore 7 (Some (7, demo_fleet_app))))
    as (t & p & p' & _ & _ & Hs' & _ & Hp & _).
  - unfold version_ok. simpl. lia.
  - split; [apply others_refl|split; [apply others_refl|exact I]].
  - vm_compute. reflexivity.
  - cbv [SetFleetPaused]. split; [vm_compute; reflexivity|]. revert Hs' Hp. vm_compute. intros [= <-] _. reflexivity.
Defined.

(** A merge of the fields that differ, one by one. *)
Definition merge_field {A} `{!EqDecision A} (old new cur : A) : A := if bool_decide (old = new) then cur else new.

Definition no_change : PipelineChange := mkChange "" "" "" "" None "".

Definition merge_fields (old new cur : option PipelineChange) : option PipelineChange :=
  match new with
  | None => match old with None => cur | Some _ => None end
  | Some n =>
      let o := default no_change old in let c := default no_change cur in
      Some (mkChange (merge_field (ch_Action o) (ch_Action n) (ch_Action c)) (merge_field (ch_Target o) (ch_Target n) (ch_Target c))
             (merge_field (ch_By o) (ch_By n) (ch_By c)) (merge_field (ch_Reason o) (ch_Reason n) (ch_Reason c)) (ch_Actor c)
             (merge_field (ch_ID o) (ch_ID n) (ch_ID c)))
  end.

Definition demo_who (by_ : string) : option PipelineChange := Some (mkChange "" "" by_ "" None "").

Lemma pause_holds_resume_releases_witness :
  let '(s, gs, e) := Pause merge_fields (demo_who "alice") "id" (demo_one demo_app) None GateMissing ∅ in
  e = None ∧ pp_Paused <$> value s = Some true ∧ IsPaused (stored "app" gs) "app" = inr true.
Proof.
  set (a := demo_one demo_app).
  destruct (Pause merge_fields (demo_who "alice") "id" a None GateMissing ∅) as [[s gs] e] eqn:E.
  assert (e = None) as -> by (vm_compute in E; by injection E).
  destruct (proj1 (pause_holds_resume_releases merge_fields (demo_who "alice") "id" a None ∅ s gs) GateMissing) as (p & cur & Hv & Hp & _ & _ & _ & Hg).
  - intros p Hv. vm_compute in E. injection E as <- _. by injection Hv as <-.
  - exact E.
  - rewrite Hv. simpl. rewrite Hp. specialize (Hg ltac:(discriminate)).
    assert (pp_Name p = "app") as Hn by (vm_compute in E; injection E as <- _; injection Hv as <-; reflexivity). rewrite Hn in Hg. by split_and!.
Defined.

(** The patch of a pause carries only the fields of spec.lastChange that differ from
    the copy that was read.  Alice, who paused before, resumes while bob releases the
    hold of prod: the stored record says that bob resumed, with the target of his
    release. *)
Theorem resume_record_mixed :
  let old := mkPipe "app" "uid" (pp_Fleets demo_app) [] true (Some (mkChange "Pause" "" "alice" "" None "1")) true in
  let bobs := mkPipe "app" "uid" (pp_Fleets demo_app) [] true (Some (mkChange "ReleaseHold" "prod" "bob" "" None "2")) true in
  let a := mkAttempt 100 (mkStore 7 (Some (7, old))) true (mkStore 8 (Some (8, bobs))) Answered in
  match setPaused merge_fields false (demo_who "alice") "3" a with
  | (_, inr p) => pp_Paused p = false ∧ pp_LastChange p = Some (mkChange "Resume" "prod" "bob" "" None "3")
  | _ => False
  end.
Proof. vm_compute. by split. Qed.
End Pause.
