(* ===== verification/PipelineAudit.v ===== *)
(** * PipelineAudit: what the Pipeline reconciler records of holds and pauses

    Model of src/pkg/reconciler/pipeline/holds.go (reconcileHolds, holdStates,
    setHoldCondition, the audit entries, flushAudit) and pause_audit.go
    (reconcilePauseAudit, the attribution of a change to spec.lastChange).  A
    reconcile works on the copy of the Pipeline it read; what it writes is a list of
    effects, in order.  Hashes, time formats and the encoding of a record are
    parameters; [Outbox] holds the records until they are written. *)

From stdpp Require Import base gmap strings list sorting pretty.
From Stdlib Require Import Lia ZArith.
From S2P Require Import Prelude Topo Ordering Fleet Actor Engine StepStatus Hooks Outbox Bake Transition Cancel Pending PolicyGate History Rollback RollbackFleet Store Hold.
Import Outbox.Outbox Rollback.Rollback Hold.Hold.

Module PipelineAudit.
Import PolicyGate.PolicyGate(gh_CreatedBy, gh_Reason).

(** ** Data *)

(** [EnvironmentHoldState]; [hs_Missing]: its state is BundleMissing, not Active. *)
Record HoldState := mkHoldState {
  hs_Environment : string;
  hs_Bundle : string;
  hs_CreatedAt : option Time;
  hs_Missing : bool;
  hs_Since : option Time;
  hs_ReportedAt : option Time;
  hs_Message : string
}.

#[export] Instance HoldState_eq_dec : EqDecision HoldState.
Proof. solve_decision. Defined.

(** The condition HoldBundleMissing; its transition time follows its status. *)
Record HoldCondition := mkHoldCondition { hc_Status : string; hc_Reason : string; hc_Message : string; hc_Generation : Z }.

#[export] Instance HoldCondition_eq_dec : EqDecision HoldCondition.
Proof. solve_decision. Defined.

Record PStatus := mkPStatus {
  ps_ObservedHolds : list Hold;
  ps_ObservedPaused : option bool;
  ps_ObservedPausedFleets : list string;
  ps_ObservedLastChange : string;
  ps_HoldStates : list HoldState;
  ps_HoldCondition : option HoldCondition;
  ps_Pending : list Entry
}.

(** A Pipeline as a reconcile read it. *)
Record Obj := mkObj { o_spec : Pipeline; o_Generation : Z; o_status : PStatus }.

Definition set_status (st : PStatus) (o : Obj) : Obj := mkObj (o_spec o) (o_Generation o) st.

Definition set_Pending (l : list Entry) (st : PStatus) : PStatus :=
  mkPStatus (ps_ObservedHolds st) (ps_ObservedPaused st) (ps_ObservedPausedFleets st) (ps_ObservedLastChange st) (ps_HoldStates st)
    (ps_HoldCondition st) l.

(** What a reconcile writes: spec.holds, the status, an AuditEvent. *)
Inductive effect := UpdateHolds (hs : list Hold) | PatchStatus (st : PStatus) | WriteAudit (e : Entry).

(** How a patch locked on the version that was read ends. *)
Inductive patch_answer := PatchOk | PatchConflict | PatchNotFound | PatchError.

(** The text of a record, its actor stamp and its time. *)
Record audit_body := mkBody { ab_Environment : string; ab_Bundle : string; ab_Message : string; ab_Actor : option Actor.Actor; ab_At : Time }.

Definition AuditActionHoldCreated : string := "HoldCreated".
Definition AuditActionHoldReleased : string := "HoldReleased".
Definition AuditActionHoldBundleMissing : string := "HoldBundleMissing".
Definition AuditActionPipelinePaused : string := "PipelinePaused".
Definition AuditActionPipelineResumed : string := "PipelineResumed".
Definition DefaultHoldBundleGrace : Duration := 120 * second.
Definition auditRetryDelay : Duration := 5 * second.
Definition holdConflictRetry : Duration := second.

Definition holdBundleGrace (configured : Duration) : Duration := if 0 <? configured then configured else DefaultHoldBundleGrace.

Definition orUnknown (s : string) : string := if bool_decide (s = "") then "unknown" else s.

Definition releaseCommand (p : Pipeline) (h : Hold) : string := "kardinal release-hold " +:+ pp_Name p +:+ " --env " +:+ h_Environment h.

Definition sameTime (a b : option Time) : bool :=
  match a, b with
  | None, None => true
  | Some a, Some b => a / second =? b / second
  | _, _ => false
  end.

(** [HoldState]: the state recorded of the hold. *)
Definition state_of (states : list HoldState) (h : Hold) : option HoldState :=
  head (filter (λ st, hs_Environment st = h_Environment h ∧ hs_Bundle st = h_Bundle h ∧ sameTime (hs_CreatedAt st) (h_CreatedAt h) = true) states).

Section reconcile.
(** The first digits of SHA-256 digests (of a text, of a change), RFC 3339, the
    encoding of a record, the wording of a stamp's problem, and the outbox. *)
Variable sha10 sha12 : string → string.
Variable changeHash : PipelineChange → string.
Variable FormatTime : Time → string.
Variable encode : audit_body → string.
Variable problem_text : Actor.stamp_problem → string.
Variable Validate : Entry → bool.
Variable coalescers : gmap string (Entry → Entry → option Entry).

(** ** Who made a change *)

Definition changeKey (c : option PipelineChange) : string := match c with None => "" | Some c => changeHash c end.

Definition freshChange (o : Obj) : option PipelineChange :=
  match pp_LastChange (o_spec o) with
  | None => None
  | Some c => if bool_decide (changeHash c = ps_ObservedLastChange (o_status o)) then None else Some c
  end.

(** [changeRecord]: the unused record of the last change, and the agent index. *)
Record changeRecord := mkRecord { cr_fresh : option PipelineChange; cr_index : option Actor.AgentIndexStatus }.

Definition stamp (rec : changeRecord) (s : option Actor.Actor) (by_ : string) : option Actor.Actor * string :=
  match Actor.VerifyStamp s by_ (cr_index rec) with
  | inr s => (s, "")
  | inl why => (None, " (actor stamp not recorded: " +:+ problem_text why +:+ ")")
  end.

(** By whom, why, the stamp and a note. *)
Definition changeOf (rec : changeRecord) (action target : string) : string * string * option Actor.Actor * string :=
  match cr_fresh rec with
  | None => ("", "", None, "")
  | Some f =>
      if negb (bool_decide (ch_Action f = action)) || negb (bool_decide (ch_Target f = target)) then ("", "", None, "")
      else let '(s, note) := stamp rec (ch_Actor f) (ch_By f) in (ch_By f, ch_Reason f, s, note)
  end.

(** ** Audit records *)

Definition prefix200 (s : string) : string := String.substring 0 200 s.

Definition holdKey (h : Hold) : string :=
  h_Environment h +:+ "|" +:+ h_Bundle h +:+ "|" +:+ match h_CreatedAt h with Some t => FormatTime t | None => "" end.

Definition holdAuditEntry (p : Pipeline) (now : Time) (h : Hold) (action msg : string) (s : option Actor.Actor) : Entry :=
  let suffix := if bool_decide (action = AuditActionHoldReleased) then "released"
                else if bool_decide (action = AuditActionHoldBundleMissing) then "bundle-missing" else "created" in
  let outcome := if bool_decide (action = AuditActionHoldBundleMissing) then "Failure" else "Success" in
  mkEntry (prefix200 (pp_Name p) +:+ "-hold-" +:+ sha10 (holdKey h) +:+ "-" +:+ suffix) action outcome 0
    (encode (mkBody (h_Environment h) (h_Bundle h) msg s now)).

Definition pauseAuditEntry (o : Obj) (rec : changeRecord) (now : Time) (action target : string) : Entry :=
  let paused := bool_decide (action = PipelineChangePause) || bool_decide (action = PipelineChangePauseFleet) in
  let verb := if paused then "paused" else "resumed" in
  let what := if bool_decide (target = "") then "pipeline " +:+ pp_Name (o_spec o)
              else "fleet " +:+ target +:+ " of pipeline " +:+ pp_Name (o_spec o) in
  let '(by_, why, s, note) := changeOf rec action target in
  let msg := if bool_decide (by_ = "") then what +:+ " " +:+ verb +:+ " (spec changed without kardinal; the Kubernetes audit log names who)"
             else orUnknown by_ +:+ " " +:+ verb +:+ " " +:+ what +:+ (if bool_decide (why = "") then "" else ": " +:+ why) +:+ note in
  mkEntry (prefix200 (pp_Name (o_spec o)) +:+ "-pause-" +:+ sha12 (action +:+ "|" +:+ target +:+ "|" +:+ pretty (o_Generation o)))
    (if paused then AuditActionPipelinePaused else AuditActionPipelineResumed) "Success" 0
    (encode (mkBody (if bool_decide (target = "") then "*" else target) "*" msg s now)).

Definition enqueue_all (pending : list Entry) (es : list Entry) : list Entry :=
  foldl (λ l e, (Enqueue Validate coalescers l e).1) pending es.

(** The answers to the creates of AuditEvents, and of the patch that removes them. *)
Record flush_answers := mkFlush { fl_create : Entry → create_result; fl_patch : patch_answer }.

(** [flushAudit]: what is written, the copy after it, and whether it failed. *)
Definition flushAudit (fl : flush_answers) (o : Obj) : list effect * Obj * bool :=
  let pending := ps_Pending (o_status o) in
  if bool_decide (pending = []) then ([], o, false)
  else
    let '(remaining, ferr) := Flush (fl_create fl) pending in
    let writes := WriteAudit <$> filter (λ e, written (fl_create fl e) = true) pending in
    if negb (bool_decide (length remaining = length pending)) then
      let o' := set_status (set_Pending remaining (o_status o)) o in
      match fl_patch fl with
      | PatchOk => (writes ++ [PatchStatus (o_status o')], o', ferr)
      | PatchNotFound => (writes, o', ferr)
      | PatchConflict | PatchError => (writes, o, true)
      end
    else (writes, o, ferr).

(** ** Pauses *)

Definition fleets_gone (l k : list string) : list string := filter (λ f, f ∉ k) l.

(** The records of what changed since the last reconcile; none for the first. *)
Definition pause_entries (o : Obj) (rec : changeRecord) (now : Time) : list Entry :=
  let st := o_status o in
  let fleets := sort_by str_ltb (Fleet.PausedFleets (pp_Fleets (o_spec o))) in
  let observed := sort_by str_ltb (ps_ObservedPausedFleets st) in
  match ps_ObservedPaused st with
  | None => []
  | Some was =>
      (if bool_decide (was = pp_Paused (o_spec o)) then []
       else [pauseAuditEntry o rec now (if pp_Paused (o_spec o) then PipelineChangePause else PipelineChangeResume) ""]) ++
      (pauseAuditEntry o rec now PipelineChangePauseFleet <$> fleets_gone fleets observed) ++
      (pauseAuditEntry o rec now PipelineChangeResumeFleet <$> fleets_gone observed fleets)
  end.

Definition pause_status (o : Obj) (rec : changeRecord) (now : Time) : PStatus :=
  let st := o_status o in
  mkPStatus (ps_ObservedHolds st) (Some (pp_Paused (o_spec o))) (sort_by str_ltb (Fleet.PausedFleets (pp_Fleets (o_spec o))))
    (changeKey (pp_LastChange (o_spec o))) (ps_HoldStates st) (ps_HoldCondition st) (enqueue_all (ps_Pending st) (pause_entries o rec now)).

Definition pause_recorded (o : Obj) : bool :=
  bool_decide (ps_ObservedPaused (o_status o) = Some (pp_Paused (o_spec o))) &&
  bool_decide (sort_by str_ltb (Fleet.PausedFleets (pp_Fleets (o_spec o))) = sort_by str_ltb (ps_ObservedPausedFleets (o_status o))).

(** The copy keeps what it was given also when the patch is refused. *)
Definition reconcilePauseAudit (rec : changeRecord) (now : Time) (patch : patch_answer) (fl : flush_answers) (o : Obj) :
  list effect * Obj * bool :=
  if pause_recorded o then ([], o, false)
  else
    let o' := set_status (pause_status o rec now) o in
    match patch with
    | PatchOk =>
        if bool_decide (pause_entries o rec now = []) then ([PatchStatus (o_status o')], o', false)
        else let '(es, o'', _) := flushAudit fl o' in (PatchStatus (o_status o') :: es, o'', false)
    | PatchConflict | PatchNotFound => ([], o', false)
    | PatchError => ([], o', true)
    end.

(** ** Holds *)

(** A Bundle by name: the text of an error, not found, or the Bundle. *)
Variable lookup_bundle : string → string + option Bundle.

Definition heldOn (h : Hold) : string :=
  match lookup_bundle (h_Bundle h) with inr (Some b) => HeldOn h (IsRollbackBundle b) | _ => HeldOn h false end.

(** When the Bundle of the hold was first found missing. *)
Definition missing_since (now : Time) (prev : option HoldState) : Time :=
  match prev with
  | Some st => default (truncate_second now) (hs_Since st)
  | None => truncate_second now
  end.

(** One turn of [holdStates]: the state, how long until the grace ends (0 when it does
    not run), whether the hold is reported now, and a lookup error. *)
Definition check_hold (p : Pipeline) (grace : Duration) (now : Time) (states : list HoldState) (h : Hold) :
  HoldState * Duration * bool * option string :=
  let prev := state_of states h in
  let active := mkHoldState (h_Environment h) (h_Bundle h) (h_CreatedAt h) false None None "" in
  match lookup_bundle (h_Bundle h) with
  | inr (Some _) => (active, 0, false, None)
  | inl e => (default active prev, 0, false, Some (h_Environment h +:+ ": get rollback Bundle " +:+ h_Bundle h +:+ ": " +:+ e))
  | inr None =>
      let since := missing_since now prev in
      let reported := match prev with Some st => hs_ReportedAt st | None => None end in
      let wait := sub_time (since + grace) now in
      let head_ := "rollback Bundle " +:+ h_Bundle h +:+ " does not exist (missing since " +:+ FormatTime since +:+ "); the hold stays in effect" in
      if 0 <? wait then
        (mkHoldState (h_Environment h) (h_Bundle h) (h_CreatedAt h) true (Some since) reported head_, wait, false, None)
      else
        let msg := head_ +:+ " and no other Bundle promotes into " +:+ h_Environment h +:+ ". Release it with: " +:+ releaseCommand p h +:+
                   ", then roll back with --hold again if wanted" in
        (mkHoldState (h_Environment h) (h_Bundle h) (h_CreatedAt h) true (Some since)
           (match reported with None => Some (truncate_second now) | r => r end) msg,
         0, bool_decide (reported = None), None)
  end.

(** The shorter of two waits, of which 0 is none. *)
Definition sooner (a b : Duration) : Duration := if (a =? 0) || ((0 <? b) && (b <? a)) then b else a.

Record holdCheck := mkCheck { ck_states : list HoldState; ck_next : Duration; ck_reported : list Hold; ck_errs : list string }.

Definition holdStates (grace : Duration) (now : Time) (o : Obj) : holdCheck :=
  let rs := (λ h, (h, check_hold (o_spec o) grace now (ps_HoldStates (o_status o)) h)) <$> pp_Holds (o_spec o) in
  mkCheck ((λ r, r.2.1.1.1) <$> rs) (foldl (λ n r, sooner n r.2.1.1.2) 0 rs)
    (fst <$> filter (λ r, r.2.1.2 = true) rs) (omap (λ r, r.2.2) rs).

Definition setHoldCondition (o : Obj) (chk : holdCheck) : option HoldCondition :=
  let missing := (λ st, hs_Environment st +:+ ": " +:+ hs_Message st) <$> filter (λ st, hs_Missing st = true ∧ is_Some (hs_ReportedAt st)) (ck_states chk) in
  if negb (bool_decide (missing = [])) then Some (mkHoldCondition "True" "BundleMissing" (String.concat "; " missing) (o_Generation o))
  else if negb (bool_decide (ck_errs chk = [])) then
    Some (mkHoldCondition "Unknown" "LookupFailed" ("the holds are kept; " +:+ String.concat "; " (ck_errs chk)) (o_Generation o))
  else if bool_decide (pp_Holds (o_spec o) = []) && bool_decide (ps_HoldCondition (o_status o) = None) then None
  else Some (mkHoldCondition "False" "NotReported" "no hold's rollback Bundle has been missing for longer than the grace" (o_Generation o)).

Definition expiresNote (h : Hold) : string := match h_ExpiresAt h with Some t => " (expires " +:+ FormatTime t +:+ ")" | None => "" end.

Definition created_entry (o : Obj) (rec : changeRecord) (now : Time) (h : Hold) : Entry :=
  let by_ := gh_CreatedBy (h_gate h) in
  let '(s, note) := stamp rec (h_Actor h) by_ in
  holdAuditEntry (o_spec o) now h AuditActionHoldCreated
    (orUnknown by_ +:+ " held " +:+ h_Environment h +:+ " on " +:+ heldOn h +:+ ": " +:+ h_Reason h +:+ expiresNote h +:+ note) s.

(** Why a hold is gone, and the stamp of who released it. *)
Definition release_reason (rec : changeRecord) (now : Time) (h : Hold) : string * option Actor.Actor :=
  if Pending.Expired now (h_hold h) then
    ("expired at " +:+ match h_ExpiresAt h with Some t => FormatTime t | None => "" end +:+ ", removed by the controller", None)
  else
    let '(by_, reason, s, note) := changeOf rec PipelineChangeReleaseHold (h_Environment h) in
    if bool_decide (by_ = "") then ("released (spec.holds entry removed without kardinal; the Kubernetes audit log names who)", None)
    else ("released by " +:+ by_ +:+ (if bool_decide (reason = "") then "" else ": " +:+ reason) +:+ note, s).

Definition released_entry (o : Obj) (rec : changeRecord) (now : Time) (h : Hold) : Entry :=
  let '(why, s) := release_reason rec now h in
  holdAuditEntry (o_spec o) now h AuditActionHoldReleased
    ("hold of " +:+ h_Environment h +:+ " on " +:+ heldOn h +:+ " (held by " +:+ orUnknown (gh_CreatedBy (h_gate h)) +:+ ": " +:+ h_Reason h +:+ ") " +:+ why) s.

Definition missing_entry (o : Obj) (now : Time) (h : Hold) : Entry :=
  holdAuditEntry (o_spec o) now h AuditActionHoldBundleMissing
    ("rollback Bundle " +:+ h_Bundle h +:+ " of the hold of " +:+ h_Environment h +:+ " (held by " +:+ orUnknown (gh_CreatedBy (h_gate h)) +:+ ": " +:+
     h_Reason h +:+ ") does not exist; the hold stays in effect until: " +:+ releaseCommand (o_spec o) h) None.

Definition keys (hs : list Hold) : list string := holdKey <$> hs.

(** The holds of the first list that are not in the second. *)
Definition not_in (l k : list Hold) : list Hold := filter (λ h, holdKey h ∉ keys k) l.

Definition hold_entries (o : Obj) (rec : changeRecord) (now : Time) (chk : holdCheck) : list Entry :=
  (created_entry o rec now <$> not_in (pp_Holds (o_spec o)) (ps_ObservedHolds (o_status o))) ++
  (released_entry o rec now <$> not_in (ps_ObservedHolds (o_status o)) (pp_Holds (o_spec o))) ++
  (missing_entry o now <$> ck_reported chk).

Definition hold_status (o : Obj) (rec : changeRecord) (now : Time) (chk : holdCheck) : PStatus :=
  let st := o_status o in
  mkPStatus (pp_Holds (o_spec o)) (ps_ObservedPaused st) (ps_ObservedPausedFleets st) (changeKey (pp_LastChange (o_spec o))) (ck_states chk)
    (match setHoldCondition o chk with Some c => Some c | None => ps_HoldCondition st end)
    (enqueue_all (ps_Pending st) (hold_entries o rec now chk)).

(** Whether the status does not say yet what the reconcile found. *)
Definition holds_changed (o : Obj) (chk : holdCheck) : bool :=
  let st := o_status o in
  negb (bool_decide (ps_ObservedHolds st = pp_Holds (o_spec o))) || negb (bool_decide (ps_HoldStates st = ck_states chk)) ||
  match setHoldCondition o chk with Some c => negb (bool_decide (ps_HoldCondition st = Some c)) | None => false end.

(** The end of a reconcile of the holds: an error, the spec was updated, or when to
    come back (0: not for a hold). *)
Inductive holds_result := HoldsError | HoldsUpdated | HoldsNext (d : Duration).

Definition next_expiry (now : Time) (hs : list Hold) : Duration :=
  foldl (λ n h, match h_ExpiresAt h with Some e => sooner n (sub_time e now) | None => n end) 0 hs.

(** The wait after the outbox was looked at. *)
Definition after_audit (err : bool) (o : Obj) (next : Duration) : Duration :=
  if err || negb (bool_decide (ps_Pending (o_status o) = [])) then
    if (next =? 0) || (auditRetryDelay <? next) then auditRetryDelay else next
  else next.

(** [update]: whether the update of spec.holds lands; [patch], [fl1], [fl2]: the answers
    to the patch and to the two flushes. *)
Definition reconcileHolds (rec : changeRecord) (now : Time) (grace : Duration) (update : bool) (patch : patch_answer)
    (fl1 fl2 : flush_answers) (o : Obj) : list effect * Obj * holds_result :=
  let hs := pp_Holds (o_spec o) in
  if existsb (λ h, Pending.Expired now (h_hold h)) hs then
    let kept := filter (λ h, Pending.Expired now (h_hold h) = false) hs in
    let o' := mkObj (set_Holds kept (o_spec o)) (o_Generation o) (o_status o) in
    if update then ([UpdateHolds kept], o', HoldsUpdated) else ([], o', HoldsError)
  else
    let '(es1, o1, err1) := flushAudit fl1 o in
    let chk := holdStates grace now o1 in
    let next := sooner (next_expiry now hs) (ck_next chk) in
    if holds_changed o1 chk then
      let o2 := set_status (hold_status o1 rec now chk) o1 in
      match patch with
      | PatchOk =>
          let '(es2, o3, err2) := flushAudit fl2 o2 in
          (es1 ++ PatchStatus (o_status o2) :: es2, o3, HoldsNext (after_audit err2 o3 next))
      | PatchConflict => (es1, o2, HoldsNext holdConflictRetry)
      | PatchNotFound | PatchError => (es1, o2, HoldsError)
      end
    else (es1, o1, HoldsNext (after_audit err1 o1 next)).

(** The answers of the API to one reconcile. *)
Record answers := mkAnswers {
  an_index : option Actor.AgentIndexStatus;
  an_pause : patch_answer;
  an_pause_flush : flush_answers;
  an_update : bool;
  an_holds : patch_answer;
  an_flush1 : flush_answers;
  an_flush2 : flush_answers
}.

(** The first part of [reconcile]: the pauses, then the holds, with one record of the
    last change for both. *)
Definition reconcile_records (now : Time) (grace : Duration) (an : answers) (o : Obj) : list effect * Obj * holds_result :=
  let rec := mkRecord (freshChange o) (an_index an) in
  let '(es1, o1, err) := reconcilePauseAudit rec now (an_pause an) (an_pause_flush an) o in
  if err : bool then (es1, o1, HoldsError)
  else let '(es2, o2, r) := reconcileHolds rec now grace (an_update an) (an_holds an) (an_flush1 an) (an_flush2 an) o1 in (es1 ++ es2, o2, r).
(** ** Holds are kept *)

Lemma flushAudit_effects fl o es o' err x :
  flushAudit fl o = (es, o', err) → x ∈ es → (∃ e, x = WriteAudit e ∧ e ∈ ps_Pending (o_status o)) ∨ ∃ st, x = PatchStatus st.
Proof.
  unfold flushAudit. case_bool_decide; [intros [= <- _ _]; by intros ?%elem_of_nil|]. destruct (Flush _ _) as [remaining ferr].
  assert (∀ e, e ∈ WriteAudit <$> filter (λ e, written (fl_create fl e) = true) (ps_Pending (o_status o)) →
    ∃ e', e = WriteAudit e' ∧ e' ∈ ps_Pending (o_status o)) as Hw.
  { intros e (e' & -> & He)%list_elem_of_fmap. apply list_elem_of_filter in He as [_ ?]. by exists e'. }
  case_bool_decide; cbn [negb].
  { intros [= <- _ _] Hx. left. by apply Hw. }
  destruct (fl_patch fl); intros [= <- _ _]; try (intros Hx; left; by apply Hw).
  intros [Hx|Hx%list_elem_of_singleton]%elem_of_app; [left; by apply Hw|right]. by eexists.
Qed.

Lemma flushAudit_spec_kept fl o es o' err : flushAudit fl o = (es, o', err) → o_spec o' = o_spec o.
Proof.
  unfold flushAudit. case_bool_decide; [by intros [= _ <- _]|]. destruct (Flush _ _) as [remaining ferr].
  case_bool_decide; cbn [negb]; [by intros [= _ <- _]|]. by destruct (fl_patch fl); intros [= _ <- _].
Qed.

Lemma reconcilePauseAudit_spec_kept rec now patch fl o es o' err :
  reconcilePauseAudit rec now patch fl o = (es, o', err) → o_spec o' = o_spec o ∧ ∀ hs, UpdateHolds hs ∉ es.
Proof.
  unfold reconcilePauseAudit. destruct (pause_recorded o); [intros [= <- <- _]; split; [done|]; by intros ? ?%elem_of_nil|].
  destruct patch; try (intros [= <- <- _]; split; [done|]; by intros ? ?%elem_of_nil).
  case_bool_decide.
  { intros [= <- <- _]. split; [done|]. by intros hs ?%list_elem_of_singleton. }
  destruct (flushAudit _ _) as [[es1 o1] e1] eqn:Ef. intros [= <- <- _]. split; [by apply flushAudit_spec_kept in Ef|].
  intros hs [?|Hx]%elem_of_cons; [done|]. by destruct (flushAudit_effects _ _ _ _ _ _ Ef Hx) as [(? & ? & _)|[? ?]].
Qed.

(** C11. The controller never lifts a hold.  Whatever a reconcile reads and whatever fails,
    the only change it makes to spec.holds is to remove the holds whose expiresAt has
    passed, all of them; a hold whose Bundle is missing or cannot be read stays.
    And when one has expired and the writes are answered, they are removed. *)
Theorem controller_keeps_holds now grace an o es o' r :
  reconcile_records now grace an o = (es, o', r) →
  (∀ hs, UpdateHolds hs ∈ es →
     hs = filter (λ h, Pending.Expired now (h_hold h) = false) (pp_Holds (o_spec o)) ∧
     ∃ h, h ∈ pp_Holds (o_spec o) ∧ Pending.Expired now (h_hold h) = true) ∧
  (an_pause an ≠ PatchError → an_update an = true → (∃ h, h ∈ pp_Holds (o_spec o) ∧ Pending.Expired now (h_hold h) = true) →
     UpdateHolds (filter (λ h, Pending.Expired now (h_hold h) = false) (pp_Holds (o_spec o))) ∈ es ∧ r = HoldsUpdated).
Proof.
  unfold reconcile_records. destruct (reconcilePauseAudit _ _ _ _ _) as [[es1 o1] err] eqn:Ep.
  destruct (reconcilePauseAudit_spec_kept _ _ _ _ _ _ _ _ Ep) as [Hsp Hno].
  assert (existsb (λ h, Pending.Expired now (h_hold h)) (pp_Holds (o_spec o)) = true ↔
    ∃ h, h ∈ pp_Holds (o_spec o) ∧ Pending.Expired now (h_hold h) = true) as Hex.
  { rewrite existsb_exists. by setoid_rewrite list_elem_of_In. }
  destruct err.
  { intros [= <- _ _]. split; [by intros hs ?%Hno|]. intros Hpe _ _. exfalso. revert Ep. unfold reconcilePauseAudit.
    destruct (pause_recorded o); [done|]. destruct (an_pause an); try done. case_bool_decide; [done|]. by destruct (flushAudit _ _) as [[? ?] ?]. }
  unfold reconcileHolds. rewrite Hsp. destruct (existsb _ _) eqn:Ee.
  - destruct (an_update an).
    + intros [= <- _ <-]. split.
      * intros hs [?%Hno|Hx%list_elem_of_singleton]%elem_of_app; [done|]. injection Hx as ->. split; [done|]. by apply Hex.
      * intros _ _ _. split; [|done]. apply elem_of_app. right. by left.
    + intros [= <- _ _]. rewrite app_nil_r. split; [by intros hs ?%Hno|done].
  - intros H. split; [|intros _ _ Hh; apply Hex in Hh; congruence].
    destruct (flushAudit (an_flush1 an) o1) as [[es2 o2] e2] eqn:Ef2.
    assert (∀ hs, UpdateHolds hs ∉ es2) as Hno2.
    { intros hs Hx. by destruct (flushAudit_effects _ _ _ _ _ _ Ef2 Hx) as [(? & ? & _)|[? ?]]. }
    destruct (holds_changed _ _).
    + destruct (an_holds an).
      * destruct (flushAudit _ _) as [[es3 o3] e3] eqn:Ef3 in H. injection H as <- _ _.
        intros hs [?%Hno|[?%Hno2|[?|Hx]%elem_of_cons]%elem_of_app]%elem_of_app; try done.
        by destruct (flushAudit_effects _ _ _ _ _ _ Ef3 Hx) as [(? & ? & _)|[? ?]].
      * injection H as <- _ _. by intros hs [?%Hno|?%Hno2]%elem_of_app.
      * injection H as <- _ _. by intros hs [?%Hno|?%Hno2]%elem_of_app.
      * injection H as <- _ _. by intros hs [?%Hno|?%Hno2]%elem_of_app.
    + injection H as <- _ _. by intros hs [?%Hno|?%Hno2]%elem_of_app.
Qed.

(** ** Changes are recorded with what they change *)

(** While the outbox has room, a valid record is stored under its name. *)
Lemma enqueue_room pending e :
  Validate e = true → (length pending < MaxPendingAuditEvents)%nat →
  let l := (Enqueue Validate coalescers pending e).1 in
  (length l ≤ S (length pending))%nat ∧ (∀ n, n ∈ e_Name <$> pending → n ∈ e_Name <$> l) ∧ e_Name e ∈ e_Name <$> l.
Proof.
  intros Hv Hlen. unfold Enqueue. rewrite Hv. cbn [negb]. case_bool_decide as Ed; [simpl; split_and!; [lia|done|done]|].
  cbn [shrink]. assert ((length (pending ++ [e]) <=? MaxPendingAuditEvents)%nat = true) as -> by (apply Nat.leb_le; rewrite length_app; simpl; lia).
  simpl. rewrite fmap_app, length_app. simpl. split_and!; [lia|intros n Hn; apply elem_of_app; by left|apply elem_of_app; right; by left].
Qed.

Lemma enqueue_all_names es : ∀ pending,
  Forall (λ e, Validate e = true) es → (length pending + length es ≤ MaxPendingAuditEvents)%nat →
  (∀ n, n ∈ e_Name <$> pending → n ∈ e_Name <$> enqueue_all pending es) ∧ ∀ e, e ∈ es → e_Name e ∈ e_Name <$> enqueue_all pending es.
Proof.
  induction es as [|e es IH]; intros pending Hv Hlen; [split; [done|]; by intros ? ?%elem_of_nil|].
  apply Forall_cons in Hv as [Hve Hv]. simpl in Hlen. destruct (enqueue_room pending e Hve) as (Hl & Hk & Hn); [lia|].
  cbn [enqueue_all foldl]. fold (enqueue_all (Enqueue Validate coalescers pending e).1 es).
  destruct (IH (Enqueue Validate coalescers pending e).1 Hv) as [H1 H2]; [lia|]. split; [intros n Hin; by apply H1, Hk|].
  intros x [->|Hx]%elem_of_cons; [by apply H1|by apply H2].
Qed.

Lemma not_in_elem l k h : h ∈ not_in l k ↔ (holdKey h ∉ keys k) ∧ h ∈ l.
Proof. unfold not_in. by rewrite list_elem_of_filter. Qed.

(** The record of a hold that was made, or that is gone. *)
Definition created_record (p : Pipeline) (h : Hold) (e : Entry) : Prop :=
  e_Action e = AuditActionHoldCreated ∧ e_Name e = prefix200 (pp_Name p) +:+ "-hold-" +:+ sha10 (holdKey h) +:+ "-created".
Definition released_record (p : Pipeline) (h : Hold) (e : Entry) : Prop :=
  e_Action e = AuditActionHoldReleased ∧ e_Name e = prefix200 (pp_Name p) +:+ "-hold-" +:+ sha10 (holdKey h) +:+ "-released".

Lemma created_entry_record o rec now h : created_record (o_spec o) h (created_entry o rec now h).
Proof. unfold created_entry. by destruct (stamp _ _ _). Qed.

Lemma released_entry_record o rec now h : released_record (o_spec o) h (released_entry o rec now h).
Proof. unfold released_entry. by destruct (release_reason _ _ _). Qed.

(** Every change of the holds is recorded in the patch that observes it.  When no
    hold has expired, the records fit the outbox and the patch lands, then if status.observedHolds
    is not spec.holds it becomes spec.holds, and the same patch stores a HoldCreated record for each hold
    that was not observed and a HoldReleased record for each observed one that is gone;
    what was in the outbox is kept.  The records are of no other holds. *)
Theorem hold_changes_recorded rec now grace update fl1 fl2 o :
  let '(_, o1, _) := flushAudit fl1 o in
  let entries := hold_entries o1 rec now (holdStates grace now o1) in
  existsb (λ h, Pending.Expired now (h_hold h)) (pp_Holds (o_spec o)) = false →
  Forall (λ e, Validate e = true) entries → (length (ps_Pending (o_status o1)) + length entries ≤ MaxPendingAuditEvents)%nat →
  ps_ObservedHolds (o_status o1) ≠ pp_Holds (o_spec o) →
  let '(es, _, _) := reconcileHolds rec now grace update PatchOk fl1 fl2 o in
  ∃ st, PatchStatus st ∈ es ∧ ps_ObservedHolds st = pp_Holds (o_spec o) ∧
    (∀ n, n ∈ e_Name <$> ps_Pending (o_status o1) → n ∈ e_Name <$> ps_Pending st) ∧
    (∀ h, h ∈ pp_Holds (o_spec o) → holdKey h ∉ keys (ps_ObservedHolds (o_status o1)) →
       ∃ e, e ∈ entries ∧ created_record (o_spec o) h e ∧ e_Name e ∈ e_Name <$> ps_Pending st) ∧
    (∀ h, h ∈ ps_ObservedHolds (o_status o1) → holdKey h ∉ keys (pp_Holds (o_spec o)) →
       ∃ e, e ∈ entries ∧ released_record (o_spec o) h e ∧ e_Name e ∈ e_Name <$> ps_Pending st) ∧
    (∀ e, e ∈ entries →
       (∃ h, created_record (o_spec o) h e ∧ h ∈ pp_Holds (o_spec o) ∧ holdKey h ∉ keys (ps_ObservedHolds (o_status o1))) ∨
       (∃ h, released_record (o_spec o) h e ∧ h ∈ ps_ObservedHolds (o_status o1) ∧ holdKey h ∉ keys (pp_Holds (o_spec o))) ∨
       e_Action e = AuditActionHoldBundleMissing).
Proof.
  destruct (flushAudit fl1 o) as [[es1 o1] err1] eqn:Ef1. set (chk := holdStates grace now o1). intros entries Hex Hv Hlen Hne. pose proof (flushAudit_spec_kept _ _ _ _ _ Ef1) as Hsp.
  unfold reconcileHolds. rewrite Hex, Ef1. fold chk.
  assert (holds_changed o1 chk = true) as ->.
  { unfold holds_changed. rewrite Hsp, bool_decide_false by done. done. }
  destruct (flushAudit fl2 _) as [[es2 o3] err2] eqn:Ef2. exists (hold_status o1 rec now chk).
  destruct (enqueue_all_names entries (ps_Pending (o_status o1)) Hv Hlen) as [Hk Hall].
  split_and!.
  - apply elem_of_app. right. by left.
  - simpl. by rewrite Hsp.
  - exact Hk.
  - intros h Hh Hn. exists (created_entry o1 rec now h). rewrite <- Hsp.
    assert (created_entry o1 rec now h ∈ entries) as Hin.
    { apply elem_of_app. left. apply list_elem_of_fmap_2, not_in_elem. by rewrite Hsp. }
    split_and!; [done|apply created_entry_record|by apply Hall].
  - intros h Hh Hn. exists (released_entry o1 rec now h). rewrite <- Hsp.
    assert (released_entry o1 rec now h ∈ entries) as Hin.
    { apply elem_of_app. right. apply elem_of_app. left. apply list_elem_of_fmap_2, not_in_elem. by rewrite Hsp. }
    split_and!; [done|apply released_entry_record|by apply Hall].
  - rewrite <- Hsp. intros e [(h & -> & [? ?]%not_in_elem)%list_elem_of_fmap|[(h & -> & [? ?]%not_in_elem)%list_elem_of_fmap|
      (h & -> & _)%list_elem_of_fmap]%elem_of_app]%elem_of_app.
    + left. exists h. split; [apply created_entry_record|done].
    + right. left. exists h. split; [apply released_entry_record|done].
    + by right; right.
Qed.
End reconcile.
(** ** A missing Bundle is reported once, after the grace *)

Section reports.
Variable FormatTime : Time → string.
Variable grace : Duration.

(** One reconcile whose patch lands: the clock, the Pipeline and its Bundles. *)
Record turn := mkTurn { tn_now : Time; tn_spec : Pipeline; tn_lookup : string → string + option Bundle }.

Definition turn_obj (states : list HoldState) (tn : turn) : Obj := mkObj (tn_spec tn) 0 (mkPStatus [] None [] "" states None []).

Definition turn_check (states : list HoldState) (tn : turn) : holdCheck :=
  holdStates FormatTime (tn_lookup tn) grace (tn_now tn) (turn_obj states tn).

(** When the hold is reported, over the reconciles that follow each other. *)
Fixpoint reports (h : Hold) (states : list HoldState) (l : list turn) : list Time :=
  match l with
  | [] => []
  | tn :: l =>
      let chk := turn_check states tn in
      (if bool_decide (h ∈ ck_reported chk) then [tn_now tn] else []) ++ reports h (ck_states chk) l
  end.

Abbreviation check tn := (check_hold FormatTime (tn_lookup tn) (tn_spec tn) grace (tn_now tn)).

(** The state is one of the hold. *)
Definition is_state_of (h : Hold) (st : HoldState) : Prop :=
  hs_Environment st = h_Environment h ∧ hs_Bundle st = h_Bundle h ∧ sameTime (hs_CreatedAt st) (h_CreatedAt h) = true.

Lemma sameTime_refl t : sameTime t t = true.
Proof. destruct t; [apply Z.eqb_refl|done]. Qed.

Lemma state_of_Some states h st : state_of states h = Some st → is_state_of h st.
Proof. unfold state_of. intros Hs%head_Some_elem_of. by apply list_elem_of_filter in Hs as [? _]. Qed.

Lemma check_hold_state tn states h : is_state_of h (check tn states h).1.1.1.
Proof.
  unfold check_hold. destruct (tn_lookup tn (h_Bundle h)) as [e|[b|]].
  - simpl. destruct (state_of states h) as [st|] eqn:Es; [by apply state_of_Some in Es|]. by split_and!; [..|apply sameTime_refl].
  - by split_and!; [..|apply sameTime_refl].
  - destruct (0 <? _); by split_and!; [..|apply sameTime_refl].
Qed.

(** The state written for a hold is the one found for it next. *)
Lemma state_of_next tn states h :
  NoDup ((λ h, h_Environment h) <$> pp_Holds (tn_spec tn)) → h ∈ pp_Holds (tn_spec tn) →
  state_of (ck_states (turn_check states tn)) h = Some (check tn states h).1.1.1.
Proof.
  unfold turn_check, holdStates. cbn [ck_states turn_obj o_spec o_status ps_HoldStates]. rewrite <- list_fmap_compose. unfold compose. cbn [snd].
  induction (pp_Holds (tn_spec tn)) as [|x l IH]; [by intros _ ?%elem_of_nil|]. rewrite !fmap_cons. intros [Hx Hnd]%NoDup_cons Hin.
  unfold state_of. destruct (decide (x = h)) as [->|Hne].
  - rewrite filter_cons_True by apply check_hold_state. done.
  - apply elem_of_cons in Hin as [->|Hin]; [done|]. rewrite filter_cons_False; [by apply IH|].
    intros (E & _ & _). destruct (check_hold_state tn states x) as (E' & _ & _). apply Hx. rewrite <- E', E.
    by apply (list_elem_of_fmap_2 (λ h, h_Environment h)).
Qed.

Lemma reported_iff tn states h :
  h ∈ ck_reported (turn_check states tn) ↔ h ∈ pp_Holds (tn_spec tn) ∧ (check tn states h).1.2 = true.
Proof.
  unfold turn_check, holdStates. cbn [ck_reported turn_obj o_spec o_status ps_HoldStates]. rewrite list_elem_of_fmap. split.
  - intros ([h' r] & -> & [Hr (x & [= -> ->] & Hx)%list_elem_of_fmap]%list_elem_of_filter). done.
  - intros [Hin Hr]. exists (h, check tn states h). split; [done|]. apply list_elem_of_filter. split; [done|].
    by apply (list_elem_of_fmap_2 (λ h, (h, check tn states h))).
Qed.

(** What one check says of a hold whose Bundle is not found. *)
Lemma check_hold_missing tn states h st0 :
  state_of states h = st0 → (∀ b, tn_lookup tn (h_Bundle h) ≠ inr (Some b)) →
  let st := (check tn states h).1.1.1 in
  let since0 := st0 ≫= hs_Since in let reported0 := st0 ≫= hs_ReportedAt in
  (hs_Since st = since0 ∨ (since0 = None ∧ tn_lookup tn (h_Bundle h) = inr None ∧ hs_Since st = Some (truncate_second (tn_now tn)))) ∧
  ((check tn states h).1.2 = true → reported0 = None ∧ is_Some (hs_ReportedAt st) ∧ ∃ since, hs_Since st = Some since ∧ since + grace ≤ tn_now tn) ∧
  ((check tn states h).1.2 = false → hs_ReportedAt st = reported0).
Proof.
  intros <- Hno. unfold check_hold, missing_since. destruct (tn_lookup tn (h_Bundle h)) as [e|[b|]] eqn:El; [|by destruct (Hno b)|].
  - cbn [fst snd]. destruct (state_of states h) as [st|]; simpl; by split_and!; [left|..].
  - assert (∀ (since : Time) (st : option HoldState), since = match st with Some st => default (truncate_second (tn_now tn)) (hs_Since st) | None => truncate_second (tn_now tn) end →
      Some since = (st ≫= hs_Since) ∨ (st ≫= hs_Since) = None ∧ @inr string _ (@None Bundle) = inr None ∧ Some since = Some (truncate_second (tn_now tn))) as Hsince.
    { intros since st ->. destruct st as [st|]; [|by right]. simpl. destruct (hs_Since st); [by left|by right]. }
    set (since := match state_of states h with Some _ => _ | None => _ end).
    assert ((match state_of states h with Some st => hs_ReportedAt st | None => None end) = (state_of states h ≫= hs_ReportedAt)) as ->
      by (by destruct (state_of states h)).
    rewrite sub_time_pos. destruct (Z.ltb_spec (tn_now tn) (since + grace)) as [Hlt|Hge]; cbn [fst snd hs_Since hs_ReportedAt].
    + split_and!; [by apply Hsince|done|done].
    + split_and!; [by apply Hsince| |].
      * intros Hr. apply bool_decide_eq_true in Hr. rewrite Hr. split_and!; [done|by eexists|by exists since].
      * intros Hr. apply bool_decide_eq_false in Hr. by destruct (state_of states h ≫= hs_ReportedAt).
Qed.

(** Every reconcile has the hold, holds each environment once, and does not find the
    hold's Bundle. *)
Definition never_found (h : Hold) (tn : turn) : Prop :=
  h ∈ pp_Holds (tn_spec tn) ∧ NoDup ((λ h, h_Environment h) <$> pp_Holds (tn_spec tn)) ∧ ∀ b, tn_lookup tn (h_Bundle h) ≠ inr (Some b).

Lemma reports_spec h l : ∀ states,
  Forall (never_found h) l →
  (is_Some (state_of states h ≫= hs_ReportedAt) → reports h states l = []) ∧
  (length (reports h states l) ≤ 1)%nat ∧
  ∀ t, t ∈ reports h states l →
    (∃ since, (state_of states h ≫= hs_Since) = Some since ∧ since + grace ≤ t) ∨
    ∃ tn, tn ∈ l ∧ tn_lookup tn (h_Bundle h) = inr None ∧ truncate_second (tn_now tn) + grace ≤ t.
Proof.
  induction l as [|tn l IH]; intros states Hl; [split_and!; [done|simpl; lia|by intros ? ?%elem_of_nil]|].
  apply Forall_cons in Hl as [(Hin & Hnd & Hno) Hl]. cbn [reports].
  destruct (IH (ck_states (turn_check states tn)) Hl) as (IH1 & IH2 & IH3). rewrite (state_of_next tn states h Hnd Hin) in IH1, IH3.
  set (chk := turn_check states tn) in *. cbn [mbind option_bind] in IH1, IH3.
  destruct (check_hold_missing tn states h _ eq_refl Hno) as (Hs & Hr & Hk).
  unfold chk. rewrite (bool_decide_ext _ _ (reported_iff tn states h)). fold chk.
  destruct (check tn states h).1.2 eqn:Er.
  - destruct (Hr eq_refl) as (Hn & His & since & Hsi & Hle). rewrite bool_decide_true by done. rewrite (IH1 His), app_nil_r. split_and!; [|simpl; lia|].
    + rewrite Hn. by intros [? ?].
    + intros t ->%list_elem_of_singleton. rewrite Hsi in Hs. destruct Hs as [E|(_ & El & E)]; [left; by exists since|right].
      exists tn. split_and!; [by left|done|]. by injection E as <-.
  - rewrite bool_decide_false by (by intros [_ ?]). cbn [app]. specialize (Hk eq_refl). rewrite Hk in IH1. split_and!; [done|done|].
    intros t Ht. destruct (IH3 t Ht) as [(since & E & Hle)|(tn' & Htn & ? & ?)].
    + destruct Hs as [Hs|(_ & El & Hs)]; [left; exists since; by rewrite <- Hs|]. right. exists tn. split_and!; [by left|done|]. rewrite Hs in E. by injection E as <-.
    + right. exists tn'. split_and!; [by right|done|done].
Qed.

(** A hold whose Bundle is missing is reported once, and not before the grace.  Over
    reconciles that follow each other, of a hold that has no state yet and whose
    Bundle is never found, the hold is reported at most once; and only when the
    grace has passed since a reconcile found the Bundle missing (a Bundle that could
    not be read does not count). *)
Theorem missing_reported_once h states l :
  Forall (never_found h) l → state_of states h = None →
  (length (reports h states l) ≤ 1)%nat ∧
  ∀ t, t ∈ reports h states l → ∃ tn, tn ∈ l ∧ tn_lookup tn (h_Bundle h) = inr None ∧ truncate_second (tn_now tn) + grace ≤ t.
Proof.
  intros Hl Hs. destruct (reports_spec h l states Hl) as (_ & H1 & H2). split; [done|]. intros t Ht.
  destruct (H2 t Ht) as [(since & E & _)|?]; [by rewrite Hs in E|done].
Qed.
End reports.
(** ** Examples *)

Abbreviation demo_idx := (None : option Actor.AgentIndexStatus).

Definition demo_flush : flush_answers := mkFlush (λ _, Created) PatchOk.

Definition demo_status : PStatus := mkPStatus [] (Some false) [] "" [] None [].

Definition demo_obj (hs : list Hold) : Obj := mkObj (set_Holds hs demo_app) 3 demo_status.

(** A hold of prod until 200. *)
Definition demo_until : Hold := new_hold demo_digest "prod" "v1" "INC-1" "alice" None 100 100 (b_Artifacts demo_v1).

Definition demo_lookup (n : string) : string + option Bundle := if bool_decide (n = "v2") then inr (Some demo_v2) else inr None.

Abbreviation demo_records := (reconcile_records (λ s, s) (λ s, s) ch_ID pretty ab_Message (λ _, "") (λ _, true) ∅ demo_lookup).

Lemma controller_keeps_holds_witness :
  UpdateHolds [demo_hold "staging" "gone"] ∈
    (demo_records 250 (120 * second) (mkAnswers demo_idx PatchOk demo_flush true PatchOk demo_flush demo_flush)
      (demo_obj [demo_hold "staging" "gone"; demo_until])).1.1.
Proof.
  destruct (demo_records 250 (120 * second) (mkAnswers demo_idx PatchOk demo_flush true PatchOk demo_flush demo_flush)
    (demo_obj [demo_hold "staging" "gone"; demo_until])) as [[es o'] r] eqn:E.
  apply (proj2 (controller_keeps_holds (λ s, s) (λ s, s) ch_ID pretty ab_Message (λ _, "") (λ _, true) ∅ demo_lookup 250 (120 * second)
    (mkAnswers demo_idx PatchOk demo_flush true PatchOk demo_flush demo_flush) (demo_obj [demo_hold "staging" "gone"; demo_until]) es o' r E)).
  - discriminate.
  - reflexivity.
  - exists demo_until. split; [right; by left|reflexivity].
Defined.

Lemma hold_changes_recorded_witness :
  ∃ st, PatchStatus st ∈ (reconcileHolds (λ s, s) ch_ID pretty ab_Message (λ _, "") (λ _, true) ∅ demo_lookup (mkRecord None demo_idx) 150 (120 * second)
           true PatchOk demo_flush demo_flush (demo_obj [demo_until])).1.1 ∧ ps_ObservedHolds st = [demo_until].
Proof.
  pose proof (hold_changes_recorded (λ s, s) ch_ID pretty ab_Message (λ _, "") (λ _, true) ∅ demo_lookup (mkRecord None demo_idx) 150 (120 * second)
    true demo_flush demo_flush (demo_obj [demo_until])) as H.
  cbv zeta in H. change (flushAudit demo_flush (demo_obj [demo_until])) with ([] : list effect, demo_obj [demo_until], false) in H. cbv beta iota zeta in H.
  specialize (H eq_refl ltac:(vm_compute; repeat constructor) ltac:(vm_compute; repeat constructor) ltac:(discriminate)).
  destruct (reconcileHolds _ _ _ _ _ _ _ _ _ _ _ _ _ _ _ _) as [[es o'] r]. destruct H as (st & H1 & H2 & _). exists st. split; [exact H1|exact H2].
Defined.

(** The Bundle is missing at 0, unreadable at one minute, missing at two and three. *)
Definition demo_turn (t : Time) (r : string + option Bundle) : turn := mkTurn (t * second) (set_Holds [demo_until] demo_app) (λ _, r).

Definition demo_turns : list turn :=
  [demo_turn 0 (inr None); demo_turn 60 (inl "timeout"); demo_turn 120 (inr None); demo_turn 180 (inr None)].

Lemma missing_reported_once_witness :
  reports pretty (120 * second) demo_until [] demo_turns = [120 * second] ∧
  (length (reports pretty (120 * second) demo_until [] demo_turns) ≤ 1)%nat.
Proof.
  split; [vm_compute; reflexivity|].
  refine (proj1 (missing_reported_once pretty (120 * second) demo_until [] demo_turns _ eq_refl)).
  repeat (apply Forall_cons; split; [split_and!; [by left|apply NoDup_singleton|intros b; discriminate]|]). by apply Forall_nil.
Defined.

(** A hold is reported again when its Bundle comes back and goes missing for another
    grace. *)
Theorem reported_again :
  reports pretty (120 * second) demo_until []
    [demo_turn 0 (inr None); demo_turn 120 (inr None); demo_turn 150 (inr (Some demo_v1)); demo_turn 200 (inr None); demo_turn 320 (inr None)]
  = [120 * second; 320 * second].
Proof. vm_compute. reflexivity. Qed.

(** A hold that a person released shortly before it would have expired is recorded as
    expired and removed by the controller, when the reconcile comes after that time. *)
Theorem release_recorded_as_expiry :
  let o := mkObj (mkPipe "app" "uid" (pp_Fleets demo_app) [] false (Some (mkChange "ReleaseHold" "prod" "bob" "fixed" None "1")) true) 4
             (mkPStatus [demo_until] (Some false) [] "" [] None []) in
  (release_reason pretty (λ _, "") (mkRecord (freshChange ch_ID o) demo_idx) 199 demo_until).1 = "released by bob: fixed" ∧
  (release_reason pretty (λ _, "") (mkRecord (freshChange ch_ID o) demo_idx) 200 demo_until).1 = "expired at 200, removed by the controller".
Proof. vm_compute. by split. Qed.

(** One pause recorded twice.  The copy is stale: the patch that observes the pause is
    refused, but the copy keeps its record, which the flush of the holds writes as
    an AuditEvent of generation 5.  The next reconcile reads generation 6, and writes
    another. *)
Definition demo_stale (generation : Z) : Obj :=
  mkObj (mkPipe "app" "uid" (pp_Fleets demo_app) [] true None false) generation demo_status.

Definition audits (es : list effect) : list string := omap (λ x, match x with WriteAudit e => Some (e_Name e) | _ => None end) es.

Theorem pause_recorded_twice :
  audits (demo_records 100 (120 * second) (mkAnswers demo_idx PatchConflict demo_flush true PatchConflict (mkFlush (λ _, Created) PatchConflict) demo_flush)
            (demo_stale 5)).1.1 = ["app-pause-Pause||5"] ∧
  audits (demo_records 101 (120 * second) (mkAnswers demo_idx PatchOk demo_flush true PatchOk demo_flush demo_flush) (demo_stale 6)).1.1
    = ["app-pause-Pause||6"].
Proof. vm_compute. by split. Qed.
End PipelineAudit.
