(* ===== verification/Deployed.v ===== *)
(** * Deployed: what runs where, and the steps of retired Bundles

    Model of src/pkg/lifecycle/deployed_env.go (newestLanded, DeployedInSteps), which
    finds without a history what [History] finds with one, and of retired.go: the
    records a Bundle keeps of its PromotionSteps when its Graph is deleted
    (RetiredStepOf), and the steps rebuilt from them (StepFromRetired,
    AddRetiredSteps), from which rollback, promote and the metrics go on reading. *)

From stdpp Require Import base gmap strings list sorting.
From Stdlib Require Import Lia ZArith.
From S2P Require Import Prelude Actor Engine StepStatus Hooks Outbox Bake Transition Cancel History Rollback.
Import StepStatus.StepStatus History.History Rollback.Rollback.

Module Deployed.

(** ** What landed last *)

(** The loop of [newestLanded]; [match_] picks the Bundles. *)
Definition landed_step (pipeline env : string) (match_ : string → bool) (n : option Step) (s : Step) : option Step :=
  if negb (bool_decide (st_Pipeline s = pipeline)) || negb (bool_decide (st_Environment s = env)) || bool_decide (st_Bundle s = "") then n
  else if negb (stepLanded s) || negb (match_ (st_Bundle s)) then n
  else match n with
       | None => Some s
       | Some m => if newerStep s m then Some s else Some m
       end.

Definition newestLanded (steps : list Step) (pipeline env : string) (match_ : string → bool) : string :=
  match foldl (landed_step pipeline env match_) None steps with
  | Some s => st_Bundle s
  | None => ""
  end.

Definition DeploysConfig (b : Bundle) : bool :=
  (bool_decide (Type_ (b_Artifacts b) = "config") || bool_decide (Type_ (b_Artifacts b) = "mixed")) && has_commit (b_Artifacts b).

Definition DeploysImages (b : Bundle) : bool :=
  negb (bool_decide (Type_ (b_Artifacts b) = "config")) && negb (bool_decide (Images (b_Artifacts b) = [])).

Record DeployedEnv := mkDeployedEnv { d_Bundle : string; d_ConfigFrom : string; d_ImagesFrom : string }.

Definition deploys (byName : gmap string Bundle) (want : Bundle → bool) (name : string) : bool :=
  match byName !! name with Some b => want b | None => false end.

Definition DeployedInSteps (steps : list Step) (pipeline env : string) (byName : gmap string Bundle) : DeployedEnv :=
  let bundle := newestLanded steps pipeline env (λ _, true) in
  match byName !! bundle with
  | None => mkDeployedEnv bundle "" ""
  | Some b =>
      if negb (DeploysConfig b) then mkDeployedEnv bundle (newestLanded steps pipeline env (deploys byName DeploysConfig)) ""
      else if negb (DeploysImages b) then mkDeployedEnv bundle "" (newestLanded steps pipeline env (deploys byName DeploysImages))
      else mkDeployedEnv bundle "" ""
  end.

(** ** The newest of a list *)

Lemma newerStep_irrefl s : newerStep s s = false.
Proof. unfold newerStep. rewrite Z.eqb_refl. apply str_ltb_irrefl. Qed.

Lemma newerStep_negtrans a b c : newerStep a b = false → newerStep b c = false → newerStep a c = false.
Proof.
  unfold newerStep. assert (∀ x y z : string, str_ltb x y = false → str_ltb y z = false → str_ltb x z = false) as Hneg.
  { intros x y z H1 H2. destruct (str_ltb x z) eqn:E; [|done].
    destruct (str_ltb_total x y) as [->|[?|Hyx]]; [congruence|congruence|]. by rewrite (str_ltb_trans y x z Hyx E) in H2. }
  destruct (Z.eqb_spec (st_Created a) (st_Created b)), (Z.eqb_spec (st_Created b) (st_Created c)), (Z.eqb_spec (st_Created a) (st_Created c));
    cbn [negb]; rewrite ?Z.ltb_ge; try lia; intros H1 H2; try lia. by apply (Hneg _ (st_Name b)).
Qed.

Lemma newerStep_asym a b : newerStep a b = true → newerStep b a = false.
Proof.
  unfold newerStep. rewrite (Z.eqb_sym (st_Created b)). destruct (Z.eqb_spec (st_Created a) (st_Created b)); cbn [negb].
  - intros H. destruct (str_ltb (st_Name a) (st_Name b)) eqn:E; [|done]. pose proof (str_ltb_trans _ _ _ H E) as Hn. by rewrite str_ltb_irrefl in Hn.
  - rewrite Z.ltb_lt, Z.ltb_ge. lia.
Qed.

(** Two steps neither of which is newer have one name. *)
Lemma newerStep_total a b : newerStep a b = false → newerStep b a = false → st_Name a = st_Name b.
Proof.
  unfold newerStep. rewrite (Z.eqb_sym (st_Created b)). destruct (Z.eqb_spec (st_Created a) (st_Created b)); cbn [negb]; rewrite ?Z.ltb_ge; [|lia].
  intros H1 H2. destruct (str_ltb_total (st_Name a) (st_Name b)) as [?|[?|?]]; congruence.
Qed.

(** [x] is the newest landed step among those of [Q]. *)
Definition newest_of (Q : Step → Prop) (x : Step) : Prop :=
  (Q x ∧ stepLanded x = true) ∧ ∀ y, Q y → stepLanded y = true → newerStep y x = false.

Lemma fold_newest l : ∀ acc,
  match foldl newest_landed acc l with
  | None => acc = None ∧ ∀ y, y ∈ l → stepLanded y = false
  | Some x => ((x ∈ l ∧ stepLanded x = true) ∨ acc = Some x) ∧
              (∀ y, y ∈ l → stepLanded y = true → newerStep y x = false) ∧ ∀ a, acc = Some a → newerStep a x = false
  end.
Proof.
  induction l as [|s l IH]; intros acc; cbn [foldl].
  { destruct acc as [x|]; [|by split; [|intros ? ?%elem_of_nil]]. split_and!; [by right|by intros ? ?%elem_of_nil|].
    intros a [= <-]. apply newerStep_irrefl. }
  specialize (IH (newest_landed acc s)). destruct (foldl newest_landed (newest_landed acc s) l) as [x|].
  - destruct IH as (H1 & H2 & H3). unfold newest_landed in H1, H3. destruct (stepLanded s) eqn:El; cbn [negb] in *.
    + assert ((match acc with None => Some s | Some n => if newerStep s n then Some s else Some n end) = Some s ∨
        ∃ n, acc = Some n ∧ newerStep s n = false ∧ (match acc with None => Some s | Some n => if newerStep s n then Some s else Some n end) = Some n) as Hm.
      { destruct acc as [n|]; [|by left]. destruct (newerStep s n) eqn:En; [by left|right]. by exists n. }
      assert (newerStep s x = false ∧ ∀ a, acc = Some a → newerStep a x = false) as [Hsx Hax].
      { destruct Hm as [Hm|(n & -> & Hn & Hm)]; rewrite Hm in H3.
        - split; [by apply H3|]. intros a ->. destruct (newerStep s a) eqn:En.
          + apply (newerStep_negtrans a s x); [by apply newerStep_asym|by apply H3].
          + assert (a = s) as -> by congruence. by apply H3.
        - split; [apply (newerStep_negtrans s n x); [done|by apply H3]|]. intros a [= <-]. by apply H3. }
      split_and!; [|intros y [->|?]%elem_of_cons; auto|done].
      destruct H1 as [[? ?]|H1]; [left; split; [by right|done]|].
      destruct Hm as [Hm|(n & -> & _ & Hm)]; rewrite Hm in H1; injection H1 as <-; [left; split; [by left|done]|by right].
    + split_and!; [destruct H1 as [[? ?]|?]; [left; split; [by right|done]|by right]| |done].
      intros y [->|?]%elem_of_cons; [congruence|auto].
  - destruct IH as [H1 H2]. unfold newest_landed in H1. destruct (stepLanded s) eqn:El; cbn [negb] in *.
    + destruct acc as [n|]; [by destruct (newerStep s n)|done].
    + split; [done|]. by intros y [->|?]%elem_of_cons; [|apply H2].
Qed.

(** The fold finds the newest landed step, whatever the order. *)
Lemma fold_newest_spec l :
  match foldl newest_landed None l with
  | Some x => newest_of (λ s, s ∈ l) x
  | None => ∀ y, y ∈ l → stepLanded y = false
  end.
Proof.
  pose proof (fold_newest l None) as H. destruct (foldl newest_landed None l) as [x|]; [|by destruct H].
  destruct H as ([?|?] & H2 & _); [|done]. by split.
Qed.

Lemma fold_newest_same l k :
  (∀ a b, a ∈ l → b ∈ l → st_Name a = st_Name b → a = b) → (∀ s, s ∈ l ↔ s ∈ k) →
  foldl newest_landed None l = foldl newest_landed None k.
Proof.
  intros Hu Heq. pose proof (fold_newest_spec l) as Hl. pose proof (fold_newest_spec k) as Hk.
  destruct (foldl newest_landed None l) as [x|], (foldl newest_landed None k) as [y|]; [|..|done].
  - destruct Hl as [[Hx Hxl] Hxm], Hk as [[Hy Hyl] Hym]. f_equal. apply Hu; [done|by apply Heq|].
    apply newerStep_total; [apply Hym; [by apply Heq|done]|apply Hxm; [by apply Heq|done]].
  - destruct Hl as [[Hx Hxl] _]. apply Heq in Hx. by rewrite Hk in Hxl.
  - destruct Hk as [[Hy Hyl] _]. apply Heq in Hy. by rewrite Hl in Hyl.
Qed.

(** ** The history *)

Definition relevant (pipeline env : string) (s : Step) : Prop := st_Pipeline s = pipeline ∧ st_Environment s = env ∧ st_Bundle s ≠ "".

#[export] Instance relevant_dec pipeline env s : Decision (relevant pipeline env s).
Proof. unfold relevant. apply _. Defined.

Lemma all_steps_elem steps pipeline env s :
  s ∈ all_steps (historyOf steps pipeline env) ↔ relevant pipeline env s ∧ s ∈ steps.
Proof.
  unfold all_steps. rewrite list_elem_of_join. split.
  - intros (l & Hs & ([k l'] & -> & Hk%elem_of_map_to_list)%list_elem_of_fmap). simpl in *.
    pose proof (historyOf_lookup steps pipeline env k) as Hl. rewrite Hk in Hl. simpl in Hl. rewrite Hl in Hs.
    apply list_elem_of_filter in Hs as [(? & ? & <- & ?) ?]. done.
  - intros [(H1 & H2 & H3) Hin]. pose proof (historyOf_lookup steps pipeline env (st_Bundle s)) as Hl.
    assert (s ∈ default [] (historyOf steps pipeline env !! st_Bundle s)) as Hs.
    { rewrite Hl. by apply list_elem_of_filter. }
    destruct (historyOf steps pipeline env !! st_Bundle s) as [l|] eqn:Ek; [|by apply elem_of_nil in Hs].
    exists l. split; [done|]. apply list_elem_of_fmap. exists (st_Bundle s, l). split; [done|]. by apply elem_of_map_to_list.
Qed.

Lemma landed_fold pipeline env match_ steps : ∀ acc,
  foldl (landed_step pipeline env match_) acc steps =
  foldl newest_landed acc (filter (λ s, relevant pipeline env s ∧ match_ (st_Bundle s) = true) steps).
Proof.
  induction steps as [|s l IH]; intros acc; [done|]. cbn [foldl]. rewrite IH, filter_cons. unfold landed_step at 1.
  destruct (decide (relevant pipeline env s ∧ match_ (st_Bundle s) = true)) as [[(-> & -> & Hb) Hm]|Hn]; cbn [foldl].
  - rewrite !(bool_decide_true (_ = _)), bool_decide_false, Hm by done. cbn [negb orb]. by rewrite orb_false_r.
  - f_equal. destruct (bool_decide (st_Pipeline s = pipeline)) eqn:E1; [|done]. destruct (bool_decide (st_Environment s = env)) eqn:E2; [|done].
    destruct (bool_decide (st_Bundle s = "")) eqn:E3; [done|]. cbn [negb orb]. bools.
    destruct (match_ (st_Bundle s)) eqn:Em; [|by rewrite orb_true_r]. destruct Hn. by split.
Qed.

Definition names_unique (steps : list Step) : Prop := ∀ a b, a ∈ steps → b ∈ steps → st_Name a = st_Name b → a = b.

(** What landed last is found without a history.  For PromotionSteps with distinct
    names, the one pass of [newestLanded] returns what [deployed] returns from the
    history grouped by Bundle. *)
Theorem newestLanded_deployed steps pipeline env :
  names_unique steps → newestLanded steps pipeline env (λ _, true) = deployed (historyOf steps pipeline env).
Proof.
  intros Hu. unfold newestLanded, deployed. rewrite landed_fold.
  rewrite (fold_newest_same _ (all_steps (historyOf steps pipeline env))); [by destruct (foldl _ _ _)| |].
  - intros a b [_ Ha]%list_elem_of_filter [_ Hb]%list_elem_of_filter. by apply Hu.
  - intros s. rewrite list_elem_of_filter, all_steps_elem. naive_solver.
Qed.

(** The newest landed step of all is the newest of any selection it is in. *)
Lemma newest_selected steps pipeline env match_ x :
  names_unique steps → foldl (landed_step pipeline env (λ _, true)) None steps = Some x → match_ (st_Bundle x) = true →
  foldl (landed_step pipeline env match_) None steps = Some x.
Proof.
  intros Hu. rewrite !landed_fold. set (l := filter _ steps). set (k := filter (λ s, relevant pipeline env s ∧ match_ (st_Bundle s) = true) steps).
  intros Hf Hm. pose proof (fold_newest_spec l) as Hl. pose proof (fold_newest_spec k) as Hk. rewrite Hf in Hl. destruct Hl as [[Hx Hxl] Hmax].
  assert (∀ s, s ∈ l ↔ relevant pipeline env s ∧ s ∈ steps) as El by (intros s; unfold l; rewrite list_elem_of_filter; naive_solver).
  assert (∀ s, s ∈ k ↔ (relevant pipeline env s ∧ match_ (st_Bundle s) = true) ∧ s ∈ steps) as Ek by (intros s; unfold k; by rewrite list_elem_of_filter).
  apply El in Hx as [Hxr Hxs]. destruct (foldl newest_landed None k) as [y|].
  - destruct Hk as [[Hy Hyl] Hym]. apply Ek in Hy as [[Hyr _] Hys]. f_equal. apply Hu; [done|done|].
    apply newerStep_total; [apply Hmax; [by apply El|done]|apply Hym; [by apply Ek|done]].
  - assert (stepLanded x = false); [|congruence]. apply Hk, Ek. done.
Qed.

(** What runs is named by kind: the Bundle that landed last, or, for the kind of artifact it does
    not deploy, the last one that deploys it. *)
Theorem deployed_by_kind steps pipeline env byName b :
  names_unique steps →
  let d := DeployedInSteps steps pipeline env byName in
  byName !! d_Bundle d = Some b → d_Bundle d ≠ "" →
  (if DeploysConfig b then d_Bundle d else d_ConfigFrom d) = newestLanded steps pipeline env (deploys byName DeploysConfig) ∧
  (DeploysConfig b = true →
     (if DeploysImages b then d_Bundle d else d_ImagesFrom d) = newestLanded steps pipeline env (deploys byName DeploysImages)).
Proof.
  intros Hu d. assert (d_Bundle d = newestLanded steps pipeline env (λ _, true)) as Hd.
  { unfold d, DeployedInSteps. cbv zeta. destruct (byName !! _) as [x|]; [|done]. by destruct (DeploysConfig x), (DeploysImages x). }
  intros Hb Hne. assert (∀ want, want b = true → newestLanded steps pipeline env (deploys byName want) = d_Bundle d) as Hsel.
  { intros want Hw. rewrite Hd in *. unfold newestLanded in *. destruct (foldl (landed_step pipeline env (λ _, true)) None steps) as [x|] eqn:Ef; [|done].
    rewrite (newest_selected steps pipeline env (deploys byName want) x Hu Ef); [done|]. unfold deploys. by rewrite Hb. }
  split.
  - destruct (DeploysConfig b) eqn:Ec; [by rewrite Hsel|]. unfold d, DeployedInSteps. cbv zeta. rewrite <- Hd, Hb, Ec. done.
  - intros Ec. destruct (DeploysImages b) eqn:Ei; [by rewrite Hsel|]. unfold d, DeployedInSteps. cbv zeta. rewrite <- Hd, Hb, Ec, Ei. done.
Qed.

(** ** Retired steps *)

(** A PromotionStep with what a retired record keeps of it: the time of its Verified
    condition, its health check's expiry and start ([f_HealthStart]: startedAt of
    the step health-check), its outputs, and the annotation of a rebuilt step. *)
Record PStep := mkPStep {
  f_Name : string;
  f_Bundle : string;
  f_Pipeline : string;
  f_Environment : string;
  f_StepType : string;
  f_State : State;
  f_Message : string;
  f_PRURL : string;
  f_Created : Time;
  f_Verified : option Time;
  f_Expiry : option Time;
  f_HealthStart : option Time;
  f_Outputs : gmap string string;
  f_Retired : bool;
  f_DeployedAnn : option Time
}.

(** The step as the history reads it. *)
Definition step_of (f : PStep) : Step :=
  mkStepOf (f_Name f) (f_Bundle f) (f_Pipeline f) (f_Environment f) (f_State f) (f_Created f) (f_Verified f) (bool_decide (is_Some (f_Expiry f))).

Record RetiredStep := mkRetired {
  r_Name : string;
  r_Environment : string;
  r_StepType : string;
  r_State : State;
  r_Message : string;
  r_PRURL : string;
  r_CreatedAt : Time;
  r_HealthCheckExpiry : option Time;
  r_MarkerDigest : string;
  r_RenderRequested : bool;
  r_VerifiedAt : option Time;
  r_DeployedAt : option Time;
  r_NoChanges : bool
}.

Definition retiredMessageMax : nat := 512.
Definition retiredPRURLMax : nat := 2048.
Definition markerDigestLen : nat := 64.

(** A byte that continues a UTF-8 sequence. *)
Definition continuation (a : Ascii.ascii) : bool := Z.land (Z.of_N (Ascii.N_of_ascii a)) 192 =? 128.

(** The loop of [truncateUTF8]: where to cut. *)
Fixpoint cut_at (s : string) (n : nat) : nat :=
  match n with
  | O => O
  | S m => match String.get n s with
           | Some a => if continuation a then cut_at s m else n
           | None => n
           end
  end.

Definition truncateUTF8 (s : string) (n : nat) : string :=
  if (String.length s <=? n)%nat then s else String.substring 0 (cut_at s n) s.

Definition output (f : PStep) (k : string) : string := default "" (f_Outputs f !! k).

Definition RetiredStepOf (f : PStep) : RetiredStep :=
  mkRetired (f_Name f) (f_Environment f) (f_StepType f) (f_State f) (truncateUTF8 (f_Message f) retiredMessageMax)
    (truncateUTF8 (if bool_decide (f_PRURL f = "") then output f "prURL" else f_PRURL f) retiredPRURLMax) (f_Created f) (f_Expiry f)
    (if (String.length (output f "markerDigest") =? markerDigestLen)%nat then output f "markerDigest" else "")
    (bool_decide (output f "renderRequested" = "true")) (f_Verified f) (f_HealthStart f) (bool_decide (output f "noChanges" = "true")).

Definition StepFromRetired (bundle pipeline : string) (r : RetiredStep) : PStep :=
  mkPStep (r_Name r) bundle pipeline (r_Environment r) (r_StepType r) (r_State r) (r_Message r) (r_PRURL r) (r_CreatedAt r) (r_VerifiedAt r)
    (r_HealthCheckExpiry r) None (if r_NoChanges r then {["noChanges" := "true"]} else ∅) true
    (truncate_second <$> match r_DeployedAt r with
                   | Some t => Some t
                   | None => if bool_decide (is_Some (r_HealthCheckExpiry r)) then Some (r_CreatedAt r) else None
                   end).

(** When the change reached the environment. *)
Definition DeployedAt (f : PStep) : option Time :=
  match f_HealthStart f with
  | Some t => Some t
  | None => if f_Retired f then f_DeployedAnn f else None
  end.

(** A Bundle as far as its retired steps are read. *)
Record RetiredBundle := mkRetiredBundle { rb_Name : string; rb_Pipeline : string; rb_Retired : bool; rb_Steps : list RetiredStep }.

(** The steps rebuilt from one Bundle: not those that are still listed, and those the
    selector matches. *)
Definition rebuilt (live : list PStep) (selector : PStep → bool) (b : RetiredBundle) : list PStep :=
  if bool_decide (rb_Steps b = []) || negb (rb_Retired b) then []
  else filter (λ f, selector f = true)
         (StepFromRetired (rb_Name b) (rb_Pipeline b) <$> filter (λ r, r_Name r ∉ f_Name <$> live) (rb_Steps b)).

Definition AddRetiredSteps (steps : list PStep) (bundles : list RetiredBundle) (selector : PStep → bool) : list PStep :=
  steps ++ mjoin (rebuilt steps selector <$> bundles).

(** A message that is cut is a prefix, and is not longer than it may be. *)
Lemma cut_at_le s n : (cut_at s n ≤ n)%nat.
Proof.
  induction n as [|n IH]; cbn [cut_at]; [lia|]. destruct (String.get (S n) s) as [a|]; [|lia]. destruct (continuation a); lia.
Qed.

Lemma substring_length s n : (String.length (String.substring 0 n s) ≤ n)%nat.
Proof. revert n. induction s as [|a s IH]; intros [|n]; simpl; try lia. specialize (IH n). lia. Qed.

Lemma truncateUTF8_bound s n : (String.length (truncateUTF8 s n) ≤ n)%nat.
Proof.
  unfold truncateUTF8. destruct (Nat.leb_spec (String.length s) n); [done|].
  pose proof (substring_length s (cut_at s n)). pose proof (cut_at_le s n). lia.
Qed.

(** A rebuilt step is to the history what the step was. *)
Lemma retired_step_of bundle pipeline f :
  f_Bundle f = bundle → f_Pipeline f = pipeline → step_of (StepFromRetired bundle pipeline (RetiredStepOf f)) = step_of f.
Proof. by intros <- <-. Qed.

(** [deployed] and [verifiedIn] depend on which steps there are, not on their order. *)
Lemma deployed_same steps steps' pipeline env :
  names_unique steps → (∀ s, s ∈ steps ↔ s ∈ steps') → deployed (historyOf steps pipeline env) = deployed (historyOf steps' pipeline env).
Proof.
  intros Hu Heq. unfold deployed. rewrite (fold_newest_same _ (all_steps (historyOf steps' pipeline env))); [done| |].
  - intros a b [_ Ha]%all_steps_elem [_ Hb]%all_steps_elem. by apply Hu.
  - intros s. rewrite !all_steps_elem. by rewrite Heq.
Qed.

Lemma verifiedIn_same steps steps' pipeline env bundle :
  (∀ s, s ∈ steps ↔ s ∈ steps') → verifiedIn (historyOf steps pipeline env) bundle = verifiedIn (historyOf steps' pipeline env) bundle.
Proof.
  intros Heq. unfold verifiedIn. rewrite !historyOf_lookup.
  assert (∀ l k : list Step, (∀ s, s ∈ l ↔ s ∈ k) → bool_decide (l = []) = bool_decide (k = []) ∧ forallb is_verified l = forallb is_verified k) as Hs.
  { intros l k H. split.
    - apply bool_decide_ext. split; intros ->; [destruct k as [|x k]|destruct l as [|x l]]; try done; exfalso; apply (not_elem_of_nil x), H; by left.
    - apply eq_true_iff_eq. rewrite !forallb_forall. by setoid_rewrite <- list_elem_of_In; setoid_rewrite H. }
  destruct (Hs (filter (λ s, st_Pipeline s = pipeline ∧ st_Environment s = env ∧ st_Bundle s = bundle ∧ bundle ≠ "") steps)
               (filter (λ s, st_Pipeline s = pipeline ∧ st_Environment s = env ∧ st_Bundle s = bundle ∧ bundle ≠ "") steps')) as [-> ->]; [|done].
  intros s. rewrite !list_elem_of_filter. by rewrite Heq.
Qed.

Lemma history_elem steps steps' pipeline env n s :
  (∀ s, s ∈ steps ↔ s ∈ steps') →
  s ∈ default [] (historyOf steps pipeline env !! n) ↔ s ∈ default [] (historyOf steps' pipeline env !! n).
Proof. intros Heq. rewrite !historyOf_lookup, !list_elem_of_filter. by rewrite Heq. Qed.

Lemma last_verified_same steps steps' pipeline env n :
  (∀ s, s ∈ steps ↔ s ∈ steps') → last_verified (historyOf steps pipeline env) n = last_verified (historyOf steps' pipeline env) n.
Proof.
  intros Heq. unfold last_verified.
  assert (∀ l k : list Step, (∀ s, s ∈ l → s ∈ k) → foldr Z.max zeroTime (verifiedAt <$> l) ≤ foldr Z.max zeroTime (verifiedAt <$> k)) as Hle.
  { intros l k H. assert (∀ s, s ∈ k → verifiedAt s ≤ foldr Z.max zeroTime (verifiedAt <$> k)) as Hk.
    { clear H. induction k as [|x k IH]; [by intros ? ?%elem_of_nil|]. csimpl. intros s [->|Hs]%elem_of_cons; [lia|]. specialize (IH s Hs). lia. }
    assert (zeroTime ≤ foldr Z.max zeroTime (verifiedAt <$> k)) as H0 by (clear; induction k; csimpl; lia).
    induction l as [|x l IH]; csimpl; [done|]. pose proof (Hk x (H x (list_elem_of_here _ _))). 
    assert (∀ s, s ∈ l → s ∈ k) as H' by (intros s Hs; apply H; by right). specialize (IH H'). lia. }
  apply Z.le_antisymm; apply Hle; intros s; apply history_elem; [done|]. intros x. by rewrite Heq.
Qed.

(** The order of verification depends on which steps there are. *)
Lemma verifiedNewestFirst_same steps steps' pipeline env :
  (∀ s, s ∈ steps ↔ s ∈ steps') → verifiedNewestFirst (historyOf steps pipeline env) = verifiedNewestFirst (historyOf steps' pipeline env).
Proof.
  intros Heq. unfold verifiedNewestFirst. f_equal.
  assert (∀ h n t, (n, t) ∈ omap verified_entry (map_to_list h) ↔ verifiedIn h n = true ∧ t = last_verified h n) as Hent.
  { intros h n t. split.
    - intros Hin. split; [|by apply verified_entry_time]. apply verifiedNewestFirst_elem. unfold verifiedNewestFirst.
      apply list_elem_of_fmap. exists (n, t). split; [done|]. by apply sort_by_elem.
    - intros [Hv ->]. apply verifiedNewestFirst_elem in Hv. unfold verifiedNewestFirst in Hv.
      apply list_elem_of_fmap in Hv as ([n' t] & -> & Hv). apply sort_by_elem in Hv. simpl. by rewrite <- (verified_entry_time _ _ _ Hv). }
  apply (StronglySorted_unique_strong (λ x y, entry_before y x = false)); [|apply sort_by_sorted; apply _..|].
  - intros [n t] [n' t'] _ _. unfold entry_before. simpl. rewrite (Z.eqb_sym t' t). destruct (Z.eqb_spec t t') as [->|]; cbn [negb]; [|rewrite !Z.ltb_ge; lia].
    intros H1 H2. destruct (str_ltb_total n n') as [->|[?|?]]; [done|congruence..].
  - rewrite !sort_by_perm. apply NoDup_Permutation; [eapply NoDup_fmap_1, entries_NoDup..|].
    intros [n t]. rewrite !Hent, (verifiedIn_same steps steps' pipeline env n Heq), (last_verified_same steps steps' pipeline env n Heq). done.
Qed.

(** C34. Retiring a Bundle loses nothing of the history.  [steps] are the steps of a
    pipeline; those of a Bundle were recorded when its Graph was deleted, and only
    [live] are left, some of its own among them perhaps.  With the records added the steps
    are the same again as far as the history reads them (their names, Bundles, environments,
    states, creation and verification times and whether their health check started), so
    that of every environment what is deployed, what was Verified, the order of
    verification by which a rollback chooses, what landed and what is on its way are the
    same; and the deployment time of every recorded step is kept to the second. *)
Theorem retired_history_kept steps live name pipeline env :
  names_unique (step_of <$> steps) →
  (∀ f, f ∈ steps → f_Pipeline f = pipeline) →
  (∀ f, f ∈ live → f ∈ steps) → (∀ f, f ∈ steps → f_Bundle f ≠ name → f ∈ live) →
  let b := mkRetiredBundle name pipeline true (RetiredStepOf <$> filter (λ f, f_Bundle f = name) steps) in
  let all := AddRetiredSteps live [b] (λ f, bool_decide (f_Pipeline f = pipeline)) in
  (∀ s, s ∈ step_of <$> all ↔ s ∈ step_of <$> steps) ∧
  deployed (historyOf (step_of <$> all) pipeline env) = deployed (historyOf (step_of <$> steps) pipeline env) ∧
  verifiedNewestFirst (historyOf (step_of <$> all) pipeline env) = verifiedNewestFirst (historyOf (step_of <$> steps) pipeline env) ∧
  (∀ bundle, verifiedIn (historyOf (step_of <$> all) pipeline env) bundle = verifiedIn (historyOf (step_of <$> steps) pipeline env) bundle ∧
     landedIn (historyOf (step_of <$> all) pipeline env) bundle = landedIn (historyOf (step_of <$> steps) pipeline env) bundle ∧
     inFlight (historyOf (step_of <$> all) pipeline env) bundle = inFlight (historyOf (step_of <$> steps) pipeline env) bundle) ∧
  (∀ f t, f_HealthStart f = Some t → DeployedAt (StepFromRetired name pipeline (RetiredStepOf f)) = Some (truncate_second t)) ∧
  (∀ f, f_HealthStart f = None → f_Expiry f = None → DeployedAt (StepFromRetired name pipeline (RetiredStepOf f)) = None).
Proof.
  intros Hu Hp Hsub Hgone b all.
  assert (∀ f g, f ∈ steps → g ∈ steps → f_Name f = f_Name g → step_of f = step_of g) as Hname.
  { intros f g Hf Hg E. apply Hu; [by apply list_elem_of_fmap_2..|done]. }
  assert (∀ s, s ∈ step_of <$> steps ↔ s ∈ step_of <$> all) as Heq.
  { intros s. unfold all, AddRetiredSteps. cbn [fmap list_fmap mjoin list_join]. rewrite app_nil_r, fmap_app, elem_of_app.
    assert (∀ g, g ∈ rebuilt live (λ f, bool_decide (f_Pipeline f = pipeline)) b ↔
      ∃ f, f ∈ steps ∧ f_Bundle f = name ∧ (f_Name f ∉ f_Name <$> live) ∧ g = StepFromRetired name pipeline (RetiredStepOf f)) as Hreb.
    { intros g. unfold rebuilt. cbn [rb_Steps rb_Retired rb_Name rb_Pipeline b].
      destruct (bool_decide (RetiredStepOf <$> filter (λ f, f_Bundle f = name) steps = [])) eqn:En; cbn [orb negb].
      - split; [by intros ?%elem_of_nil|]. intros (f & Hf & Hb & _). bools. exfalso. apply (not_elem_of_nil (RetiredStepOf f)). rewrite <- En.
        by apply list_elem_of_fmap_2, list_elem_of_filter.
      - rewrite list_elem_of_filter, list_elem_of_fmap. split.
        + intros [_ (r & -> & [Hr (f & -> & [Hb Hf]%list_elem_of_filter)%list_elem_of_fmap]%list_elem_of_filter)]. by exists f.
        + intros (f & Hf & Hb & Hn & ->). split; [by apply bool_decide_eq_true|]. exists (RetiredStepOf f). split; [done|].
          apply list_elem_of_filter. split; [done|]. by apply list_elem_of_fmap_2, list_elem_of_filter. }
    split.
    - intros (f & -> & Hf)%list_elem_of_fmap. destruct (decide (f_Bundle f = name)) as [Hb|Hb].
      2: { left. apply list_elem_of_fmap_2. by apply Hgone. }
      destruct (decide (f_Name f ∈ f_Name <$> live)) as [(g & E & Hg)%list_elem_of_fmap|Hn].
      + left. rewrite (Hname f g); [by apply list_elem_of_fmap_2|done|by apply Hsub|done].
      + right. apply list_elem_of_fmap. exists (StepFromRetired name pipeline (RetiredStepOf f)).
        split; [symmetry; apply retired_step_of; [done|by apply Hp]|]. apply Hreb. by exists f.
    - intros [(f & -> & Hf)%list_elem_of_fmap|(g & -> & (f & Hf & Hb & _ & ->)%Hreb)%list_elem_of_fmap].
      + apply list_elem_of_fmap_2. by apply Hsub.
      + rewrite retired_step_of; [by apply list_elem_of_fmap_2|done|by apply Hp]. }
  split_and!.
  - intros x. by rewrite Heq.
  - symmetry. by apply deployed_same.
  - symmetry. by apply verifiedNewestFirst_same.
  - intros bundle. split; [symmetry; by apply verifiedIn_same|]. unfold landedIn, inFlight.
    assert (∀ g, existsb g (default [] (historyOf (step_of <$> all) pipeline env !! bundle)) =
                 existsb g (default [] (historyOf (step_of <$> steps) pipeline env !! bundle))) as Hex; [|by rewrite !Hex].
    intros g. apply eq_true_iff_eq. rewrite !existsb_exists. setoid_rewrite <- list_elem_of_In.
    by setoid_rewrite (history_elem _ _ _ _ _ _ Heq).
  - intros f t Ht. unfold DeployedAt, StepFromRetired, RetiredStepOf. simpl. by rewrite Ht.
  - intros f Ht He. unfold DeployedAt, StepFromRetired, RetiredStepOf. simpl. by rewrite Ht, He.
Qed.

(** ** Examples *)

Lemma demo_steps_unique : names_unique demo_steps.
Proof.
  intros a b [->|[->|?%elem_of_nil]%elem_of_cons]%elem_of_cons [->|[->|?%elem_of_nil]%elem_of_cons]%elem_of_cons; try done.
Qed.

Lemma newestLanded_deployed_witness : newestLanded demo_steps "app" "prod" (λ _, true) = "v2" ∧ deployed (historyOf demo_steps "app" "prod") = "v2".
Proof.
  split; [vm_compute; reflexivity|]. rewrite <- (newestLanded_deployed demo_steps "app" "prod" demo_steps_unique). vm_compute. reflexivity.
Defined.

Definition demo_pstep (name bundle : string) (created : Time) : PStep :=
  mkPStep name bundle "app" "prod" "" StateVerified "" "" created (Some created) (Some created) (Some (created + 3)) ∅ false None.

(** v1 was retired, and one of its two steps is not deleted yet. *)
Definition demo_psteps : list PStep := [demo_pstep "a" "v1" 10; demo_pstep "b" "v1" 11; demo_pstep "c" "v2" 12].
Definition demo_live : list PStep := [demo_pstep "b" "v1" 11; demo_pstep "c" "v2" 12].

Lemma retired_history_kept_witness :
  verifiedIn (historyOf (step_of <$> AddRetiredSteps demo_live
    [mkRetiredBundle "v1" "app" true (RetiredStepOf <$> filter (λ f, f_Bundle f = "v1") demo_psteps)] (λ f, bool_decide (f_Pipeline f = "app"))) "app" "prod") "v1"
  = true.
Proof.
  destruct (retired_history_kept demo_psteps demo_live "v1" "app" "prod") as (_ & _ & _ & H & _); [..|rewrite (proj1 (H _)); vm_compute; reflexivity].
  - intros a b [->|[->|[->|?%elem_of_nil]%elem_of_cons]%elem_of_cons]%elem_of_cons
      [->|[->|[->|?%elem_of_nil]%elem_of_cons]%elem_of_cons]%elem_of_cons; done.
  - by intros f [->|[->|[->|?%elem_of_nil]%elem_of_cons]%elem_of_cons]%elem_of_cons.
  - intros f [->|[->|?%elem_of_nil]%elem_of_cons]%elem_of_cons; [right; by left|right; right; by left|done].
  - intros f [->|[->|[->|?%elem_of_nil]%elem_of_cons]%elem_of_cons]%elem_of_cons; [done|done|intros _; right; by left|done].
Defined.
End Deployed.
