(* ===== verification/RejectSet.v ===== *)
(** * RejectSet: what rejecting a Bundle rejects

    Model of src/pkg/lifecycle/rejected_set.go (RejectedSetOf and its helpers): the
    artifacts of a rejected Bundle that were not already Verified before it.  The set is
    what [Rollback.add] and [Rollback.Carries] (rejected.go) refuse from then on. *)

From stdpp Require Import base gmap strings list sorting.
From Stdlib Require Import Lia ZArith Ascii.
From S2P Require Import Prelude StepStatus History Rollback RollbackFleet.
Import StepStatus.StepStatus History.History Rollback.Rollback RollbackFleet.RollbackFleet.

Module RejectSet.

(** ** Data *)

(** A Bundle with its status.environments: a name and a phase each. *)
Record SBundle := mkSBundle { sb_bundle : Bundle; sb_Environments : list (string * string) }.

(** A PromotionStep with its outputs mergeCommitSHA and commitSHA. *)
Record DStep := mkDStep { ds_step : Step; ds_MergeCommit : string; ds_Commit : string }.

(** [RejectedArtifactSet]. *)
Record RejectedArtifactSet := mkSet { rj_Images : list ImageRef; rj_Commit : string; rj_ComparedWith : list string }.

(** ** Operations *)

Definition past_merge (phase : string) : bool :=
  bool_decide (phase ∈ ["HealthChecking"; "Verified"; "AbortedByAlarm"; "RollingBack"]).

Definition deployedThere (s : DStep) : bool :=
  match st_State (ds_step s) with
  | StateHealthChecking | StateVerified | StateAbortedByAlarm | StateRollingBack => true
  | _ => st_HealthStarted (ds_step s) || negb (bool_decide (ds_MergeCommit s = "")) || negb (bool_decide (ds_Commit s = ""))
  end.

Definition reachedEnvironments (b : SBundle) (steps : list DStep) : list string :=
  let reachedSet : gset string :=
    list_to_set (fst <$> filter (λ e, past_merge e.2 = true) (sb_Environments b)) ∪
    list_to_set (st_Environment ∘ ds_step <$> filter (λ s, st_Bundle (ds_step s) = b_Name (sb_bundle b) ∧ deployedThere s = true) steps) in
  sort_by str_ltb (if bool_decide (reachedSet = ∅) then fst <$> sb_Environments b else elements reachedSet).

Definition verifiedIn (b : SBundle) (env : string) : bool :=
  match list_find (λ e, e.1 = env) (sb_Environments b) with
  | Some (_, e) => bool_decide (e.2 = "Verified")
  | None => false
  end.

(** The loop of [verifiedBefore]. *)
Definition before_step (b : SBundle) (env : string) (best : option SBundle) (o : SBundle) : option SBundle :=
  if bool_decide (b_Name (sb_bundle o) = b_Name (sb_bundle b)) || negb (bool_decide (b_Pipeline (sb_bundle o) = b_Pipeline (sb_bundle b))) ||
     negb (created_before (sb_bundle o) (sb_bundle b)) || negb (verifiedIn o env) then best
  else match best with
       | None => Some o
       | Some x => if created_before (sb_bundle x) (sb_bundle o) then Some o else Some x
       end.

Definition verifiedBefore (b : SBundle) (bundles : list SBundle) (env : string) : option SBundle :=
  foldl (before_step b env) None bundles.

Definition sameImage (img o : ImageRef) : bool :=
  if negb (bool_decide (Repository img = Repository o)) then false
  else if negb (bool_decide (Digest img = "")) then bool_decide (Digest img = Digest o)
  else negb (bool_decide (Tag img = "")) && bool_decide (Tag img = Tag o).

Definition allCarryImage (preds : list SBundle) (img : ImageRef) : bool :=
  negb (bool_decide (preds = [])) && forallb (λ p, existsb (sameImage img) (Images (b_Artifacts (sb_bundle p)))) preds.

Definition allCarryCommit (preds : list SBundle) (sha : string) : bool :=
  negb (bool_decide (preds = [])) &&
  forallb (λ p, match ConfigRef_ (b_Artifacts (sb_bundle p)) with Some c => bool_decide (CommitSHA c = sha) | None => false end) preds.

(** The predecessors of the compared environments, none when one has none. *)
Fixpoint predecessors (b : SBundle) (bundles : list SBundle) (envs : list string) : option (list (string * SBundle)) :=
  match envs with
  | [] => Some []
  | env :: envs =>
      match verifiedBefore b bundles env with
      | None => None
      | Some p => cons (env, p) <$> predecessors b bundles envs
      end
  end.

Definition RejectedSetOf (b : SBundle) (bundles : list SBundle) (steps : list DStep) : RejectedArtifactSet :=
  let ps := default [] (predecessors b bundles (reachedEnvironments b steps)) in
  let preds := snd <$> ps in
  let a := b_Artifacts (sb_bundle b) in
  mkSet (filter (λ img, allCarryImage preds img = false) (Images a))
    (if has_commit a && negb (allCarryCommit preds (commit_of a)) then commit_of a else "")
    ((λ ep, ep.1 +:+ "=" +:+ b_Name (sb_bundle ep.2)) <$> ps).

Definition RecordedRejectedArtifactsOf (bundles : list Bundle) (pipeline : string) : RejectedArtifacts :=
  rejectedArtifactsOf bundles pipeline true.

(** The rejected Bundle with its set in the status, as the Bundle reconciler records it. *)
Definition recorded (b : Bundle) (set : RejectedArtifactSet) : Bundle :=
  mkBundle (b_Name b) (b_Pipeline b) (b_Artifacts b) true (b_Phase b) (Some (rj_Images set, rj_Commit set)) (b_RollbackLabel b) (b_Actor b)
    (b_CreatedBy b) (b_RollbackOf b) (b_RollbackFrom b) (b_RollbackFromAnnotation b) (b_Target b) (b_Created b) (b_CreatedAt b).

(** ** The predecessor *)

(** [o] may be the predecessor of [b] in [env]. *)
Definition older_verified (b : SBundle) (env : string) (o : SBundle) : Prop :=
  b_Name (sb_bundle o) ≠ b_Name (sb_bundle b) ∧ b_Pipeline (sb_bundle o) = b_Pipeline (sb_bundle b) ∧
  created_before (sb_bundle o) (sb_bundle b) = true ∧ verifiedIn o env = true.

Lemma before_step_cases b env best o :
  (older_verified b env o ∧ before_step b env best o =
     match best with None => Some o | Some x => if created_before (sb_bundle x) (sb_bundle o) then Some o else Some x end) ∨
  (¬ older_verified b env o ∧ before_step b env best o = best).
Proof.
  unfold before_step, older_verified. destruct (_ || _) eqn:E.
  - right. split; [|done]. apply orb_true_iff in E as [E|E]; [|by bools; naive_solver congruence].
    apply orb_true_iff in E as [E|E]; [|bools; naive_solver congruence]. apply orb_true_iff in E as [E|E]; bools; naive_solver.
  - left. apply orb_false_iff in E as [E E4]. apply orb_false_iff in E as [E E3]. apply orb_false_iff in E as [E1 E2]. by bools.
Qed.

(** The newest Bundle that qualifies is found, if there is one. *)
Lemma verifiedBefore_newest b bundles env :
  match verifiedBefore b bundles env with
  | Some p => p ∈ bundles ∧ older_verified b env p ∧
      ∀ o, o ∈ bundles → older_verified b env o → created_before (sb_bundle p) (sb_bundle o) = false
  | None => ∀ o, o ∈ bundles → ¬ older_verified b env o
  end.
Proof.
  unfold verifiedBefore. induction bundles as [|o l IH] using rev_ind; [by intros o ?%elem_of_nil|].
  rewrite foldl_app. cbn [foldl]. destruct (before_step_cases b env (foldl (before_step b env) None l) o) as [[Ho ->]|[Ho ->]].
  - destruct (foldl _ None l) as [x|].
    + destruct IH as (Hx & Hov & Hmax). destruct (created_before (sb_bundle x) (sb_bundle o)) eqn:E.
      * split_and!; [set_solver|done|]. intros y [Hy| ->%list_elem_of_singleton]%elem_of_app Hq; [|apply (less_irrefl created_before)].
        apply (less_negtrans _ (sb_bundle x)); [by apply less_asym|by apply Hmax].
      * split_and!; [set_solver|done|]. intros y [Hy| ->%list_elem_of_singleton]%elem_of_app Hq; [by apply Hmax|done].
    + split_and!; [set_solver|done|]. intros y [Hy| ->%list_elem_of_singleton]%elem_of_app Hq; [by destruct (IH y Hy)|apply (less_irrefl created_before)].
  - destruct (foldl _ None l) as [x|].
    + destruct IH as (Hx & Hov & Hmax). split_and!; [set_solver|done|]. intros y [Hy| ->%list_elem_of_singleton]%elem_of_app Hq; [by apply Hmax|done].
    + intros y [Hy| ->%list_elem_of_singleton]%elem_of_app; [by apply IH|done].
Qed.

Lemma predecessors_some b bundles envs ps :
  predecessors b bundles envs = Some ps →
  envs = fst <$> ps ∧ ∀ env p, (env, p) ∈ ps → verifiedBefore b bundles env = Some p.
Proof.
  revert ps. induction envs as [|env envs IH]; intros ps; simpl; [intros [= <-]; split; [done|by intros ? ? ?%elem_of_nil]|].
  destruct (verifiedBefore b bundles env) as [p|] eqn:Ev; [|done]. destruct (predecessors b bundles envs) as [ps'|]; [|done].
  intros [= <-]. destruct (IH ps' eq_refl) as [-> IH']. split; [done|]. intros e q [[= -> ->]|Hin]%elem_of_cons; [done|by apply IH'].
Qed.

Lemma predecessors_none b bundles envs : predecessors b bundles envs = None ↔ ∃ env, env ∈ envs ∧ verifiedBefore b bundles env = None.
Proof.
  induction envs as [|env envs IH]; simpl; [split; [done|by intros (? & ?%elem_of_nil & _)]|].
  destruct (verifiedBefore b bundles env) as [p|] eqn:Ev.
  - rewrite fmap_None, IH. split; intros (e & He & Hv); [exists e; split; [by right|done]|].
    apply elem_of_cons in He as [->|He]; [congruence|by exists e].
  - split; [|done]. intros _. exists env. split; [by left|done].
Qed.

(** ** The keys of rejected images *)

Lemma app_sep_right c s1 t1 s2 t2 :
  has_char c t1 = false → has_char c t2 = false → s1 +:+ String c t1 = s2 +:+ String c t2 → s1 = s2 ∧ t1 = t2.
Proof.
  intros H1 H2. revert s2. induction s1 as [|a s1 IH]; intros [|a2 s2]; cbn [String.append].
  - by intros [= ->].
  - intros [= <- ->]. revert H1. rewrite has_char_app. simpl. rewrite Ascii.eqb_refl. by rewrite orb_true_r.
  - intros [= -> <-]. revert H2. rewrite has_char_app. simpl. rewrite Ascii.eqb_refl. by rewrite orb_true_r.
  - intros [= <- E]. destruct (IH _ E) as [-> ->]. done.
Qed.

(** A repository has no at sign and a tag no colon, as in every image reference. *)
Definition ref_ok (i : ImageRef) : Prop := has_char "@"%char (Repository i) = false ∧ has_char ":"%char (Tag i) = false.

Lemma digest_key_inj i j :
  ref_ok i → ref_ok j → Repository i +:+ "@" +:+ Digest i = Repository j +:+ "@" +:+ Digest j → Repository i = Repository j ∧ Digest i = Digest j.
Proof.
  intros [Hi _] [Hj _] E. pose proof (Cut_app "@"%char _ (Digest i) Hi) as Ci. pose proof (Cut_app "@"%char _ (Digest j) Hj) as Cj.
  change (Repository i +:+ String "@"%char (Digest i) = Repository j +:+ String "@"%char (Digest j)) in E. rewrite E, Cj in Ci. by injection Ci as -> ->.
Qed.

Lemma tag_key_inj i j :
  ref_ok i → ref_ok j → Repository i +:+ ":" +:+ Tag i = Repository j +:+ ":" +:+ Tag j → Repository i = Repository j ∧ Tag i = Tag j.
Proof. intros [_ Hi] [_ Hj] E. by apply (app_sep_right ":"%char). Qed.

(** What the rejected images of one Bundle add. *)
Lemma add_images_digests name imgs r k x :
  digests (foldl (add_image name) r imgs) !! k = Some x →
  digests r !! k = Some x ∨ ∃ i, i ∈ imgs ∧ Digest i ≠ "" ∧ k = Repository i +:+ "@" +:+ Digest i.
Proof.
  revert r. induction imgs as [|i imgs IH]; intros r; simpl; [by left|]. intros [Hr|(j & ? & ? & ?)]%IH; [|right; exists j; set_solver].
  revert Hr. unfold add_image. case_bool_decide; cbn [negb]; [case_bool_decide; simpl; by left|]. simpl.
  rewrite lookup_insert_Some. intros [[<- <-]|[_ ?]]; [right; exists i; set_solver|by left].
Qed.

Lemma add_images_tags name imgs r k x :
  tags (foldl (add_image name) r imgs) !! k = Some x →
  tags r !! k = Some x ∨ ∃ i, i ∈ imgs ∧ Digest i = "" ∧ Tag i ≠ "" ∧ k = Repository i +:+ ":" +:+ Tag i.
Proof.
  revert r. induction imgs as [|i imgs IH]; intros r; simpl; [by left|]. intros [Hr|(j & ? & ? & ? & ?)]%IH; [|right; exists j; set_solver].
  revert Hr. unfold add_image. case_bool_decide; cbn [negb]; [|by left]. case_bool_decide; simpl; [by left|].
  rewrite lookup_insert_Some. intros [[<- <-]|[_ ?]]; [right; exists i; set_solver|by left].
Qed.

Lemma is_Some_insert {A} (m : gmap string A) k k' x : is_Some (m !! k) → is_Some (<[k' := x]> m !! k).
Proof. intros Hm. apply lookup_insert_is_Some. by destruct (decide (k' = k)); [left|right]. Qed.

(** What is rejected stays rejected, whatever is added. *)
Lemma add_image_mono name r i k :
  (is_Some (digests r !! k) → is_Some (digests (add_image name r i) !! k)) ∧
  (is_Some (tags r !! k) → is_Some (tags (add_image name r i) !! k)) ∧ commits (add_image name r i) = commits r.
Proof. unfold add_image. repeat (case_bool_decide; cbn [negb]); simpl; split_and!; eauto using is_Some_insert. Qed.

Lemma add_images_mono name imgs r k :
  (is_Some (digests r !! k) → is_Some (digests (foldl (add_image name) r imgs) !! k)) ∧
  (is_Some (tags r !! k) → is_Some (tags (foldl (add_image name) r imgs) !! k)) ∧ commits (foldl (add_image name) r imgs) = commits r.
Proof.
  revert r. induction imgs as [|i imgs IH]; intros r; [done|]. simpl. destruct (IH (add_image name r i)) as (H1 & H2 & ->).
  destruct (add_image_mono name r i k) as (? & ? & ?). split_and!; auto.
Qed.

Lemma add_mono r b k :
  (is_Some (digests r !! k) → is_Some (digests (add r b) !! k)) ∧ (is_Some (tags r !! k) → is_Some (tags (add r b) !! k)) ∧
  (is_Some (commits r !! k) → is_Some (commits (add r b) !! k)).
Proof.
  unfold add. destruct (default _ _) as [imgs c]. destruct (add_images_mono (b_Name b) imgs r k) as (H1 & H2 & H3).
  case_bool_decide; simpl; split_and!; auto; rewrite H3; auto using is_Some_insert.
Qed.

Lemma adds_mono l : ∀ r k,
  (is_Some (digests r !! k) → is_Some (digests (foldl add r l) !! k)) ∧ (is_Some (tags r !! k) → is_Some (tags (foldl add r l) !! k)) ∧
  (is_Some (commits r !! k) → is_Some (commits (foldl add r l) !! k)).
Proof.
  induction l as [|b l IH]; intros r k; [done|]. simpl. destruct (IH (add r b) k) as (? & ? & ?), (add_mono r b k) as (? & ? & ?). split_and!; auto.
Qed.

(** An image that is added is carried. *)
Lemma add_images_carry name imgs r i :
  i ∈ imgs → Digest i ≠ "" ∨ Tag i ≠ "" → is_Some (carriesImage (foldl (add_image name) r imgs) i).
Proof.
  revert r. induction imgs as [|j imgs IH]; intros r; [by intros ?%elem_of_nil|]. intros [->|Hi]%elem_of_cons Hk; [|by apply IH].
  simpl. unfold carriesImage. destruct (add_images_mono name imgs (add_image name r j) (Repository j +:+ "@" +:+ Digest j)) as (Hd & _ & _).
  destruct (add_images_mono name imgs (add_image name r j) (Repository j +:+ ":" +:+ Tag j)) as (_ & Ht & _).
  destruct (decide (Digest j = "")) as [Ed|Ed].
  - destruct Hk as [?|Hk]; [done|]. rewrite (bool_decide_true _ Ed), (bool_decide_false _ Hk). apply Ht. unfold add_image.
    rewrite (bool_decide_true _ Ed), (bool_decide_false _ Hk). simpl. by rewrite lookup_insert_eq.
  - rewrite (bool_decide_false _ Ed). destruct Hd as [x ->]; [|done]. unfold add_image. rewrite (bool_decide_false _ Ed). simpl.
    by rewrite lookup_insert_eq.
Qed.

(** The set of one Bundle, among any others. *)
Lemma recorded_in all pipeline ro b set :
  recorded b set ∈ all → b_Pipeline b = pipeline →
  ∃ r l, rejectedArtifactsOf all pipeline ro = foldl add (add r (recorded b set)) l.
Proof.
  intros Hin Hp. unfold rejectedArtifactsOf. assert (recorded b set ∈ List.filter (λ x, bool_decide (b_Pipeline x = pipeline) && b_Rejected x &&
    (negb ro || bool_decide (is_Some (b_RejectedArtifacts x)))) all) as Hf.
  { apply list_elem_of_In, List.filter_In. split; [by apply list_elem_of_In|]. simpl. rewrite !bool_decide_true by eauto. by destruct ro. }
  apply list_elem_of_split in Hf as (l1 & l2 & ->). rewrite foldl_app. simpl. by eexists _, l2.
Qed.

Lemma recorded_carries all pipeline ro b set i :
  recorded b set ∈ all → b_Pipeline b = pipeline → i ∈ rj_Images set → Digest i ≠ "" ∨ Tag i ≠ "" →
  is_Some (carriesImage (rejectedArtifactsOf all pipeline ro) i).
Proof.
  intros Hin Hp Hi Hk. destruct (recorded_in all pipeline ro b set Hin Hp) as (r & l & ->).
  assert (is_Some (carriesImage (add r (recorded b set)) i)) as Hc.
  { unfold add. simpl. pose proof (add_images_carry (b_Name b) (rj_Images set) r i Hi Hk). by case_bool_decide. }
  revert Hc. unfold carriesImage. destruct (adds_mono l (add r (recorded b set)) (Repository i +:+ "@" +:+ Digest i)) as (Hd & _ & _).
  destruct (adds_mono l (add r (recorded b set)) (Repository i +:+ ":" +:+ Tag i)) as (_ & Ht & _).
  case_bool_decide.
  - case_bool_decide; [done|]. exact Ht.
  - destruct (digests (add r _) !! _) eqn:E1.
    + intros _. destruct Hd as [x ->]; [done|]. done.
    + case_bool_decide; [by intros []|]. intros Hs. destruct (digests (foldl _ _ _) !! _); [done|]. by apply Ht.
Qed.

(** ** What a rejection rejects *)

Lemma sameImage_true img o :
  sameImage img o = true ↔
  Repository img = Repository o ∧ ((Digest img ≠ "" ∧ Digest img = Digest o) ∨ (Digest img = "" ∧ Tag img ≠ "" ∧ Tag img = Tag o)).
Proof.
  unfold sameImage. repeat case_bool_decide; cbn [negb andb]; naive_solver.
Qed.

Lemma allCarryImage_true preds img :
  allCarryImage preds img = true ↔ preds ≠ [] ∧ ∀ p, p ∈ preds → ∃ o, o ∈ Images (b_Artifacts (sb_bundle p)) ∧ sameImage img o = true.
Proof.
  unfold allCarryImage. rewrite andb_true_iff, negb_true_iff, bool_decide_eq_false, forallb_forall. setoid_rewrite existsb_exists.
  by setoid_rewrite <- list_elem_of_In.
Qed.

Lemma allCarryCommit_true preds sha :
  allCarryCommit preds sha = true ↔
  preds ≠ [] ∧ ∀ p, p ∈ preds → ∃ c, ConfigRef_ (b_Artifacts (sb_bundle p)) = Some c ∧ CommitSHA c = sha.
Proof.
  unfold allCarryCommit. rewrite andb_true_iff, negb_true_iff, bool_decide_eq_false, forallb_forall. setoid_rewrite <- list_elem_of_In.
  split; intros [? Hp]; (split; [done|]); intros p Hin; specialize (Hp p Hin).
  - destruct (ConfigRef_ _) as [c|]; [|done]. bools. by exists c.
  - destruct Hp as (c & -> & <-). by apply bool_decide_eq_true.
Qed.

(** An image none of whose namesakes is in the set is not carried. *)
Lemma carriesImage_none name imgs o :
  Forall ref_ok imgs → ref_ok o → (∀ i, i ∈ imgs → sameImage i o = false) →
  carriesImage (foldl (add_image name) (mkRejected ∅ ∅ ∅) imgs) o = None.
Proof.
  intros Hok Ho Hno. rewrite Forall_forall in Hok. unfold carriesImage. case_bool_decide as Ed.
  2: destruct (digests _ !! _) eqn:E; [exfalso|clear E].
  2: { apply add_images_digests in E as [E|(i & Hi & Hd & E)]; [by cbn [digests tags] in E; rewrite lookup_empty in E|]. apply digest_key_inj in E as [E1 E2]; [|done|by apply Hok].
       specialize (Hno i Hi). apply not_true_iff_false in Hno. apply Hno, sameImage_true. split; [done|]. left. by split. }
  all: case_bool_decide as Et; [done|]; destruct (tags _ !! _) eqn:E; [exfalso|done].
  all: apply add_images_tags in E as [E|(i & Hi & Hd & Ht & E)]; [by cbn [digests tags] in E; rewrite lookup_empty in E|]; apply tag_key_inj in E as [E1 E2]; [|done|by apply Hok].
  all: specialize (Hno i Hi); apply not_true_iff_false in Hno; apply Hno, sameImage_true; split; [done|]; right; by split_and!.
Qed.

Lemma carries_images_none_intro r l : (∀ i, i ∈ l → carriesImage r i = None) → carries_images r l = None.
Proof. induction l as [|i l IH]; intros Hl; simpl; [done|]. rewrite Hl by (by left). apply IH. intros j Hj. apply Hl. by right. Qed.

Lemma carries_images_some r l i : i ∈ l → is_Some (carriesImage r i) → is_Some (carries_images r l).
Proof.
  induction l as [|j l IH]; [by intros ?%elem_of_nil|]. intros [->|Hi]%elem_of_cons Hs; simpl; [by destruct Hs as [x ->]|].
  destruct (carriesImage r j); [done|by apply IH].
Qed.

Abbreviation rejecting b bundles steps := (recorded (sb_bundle b) (RejectedSetOf b bundles steps)).

(** Whether every compared environment had the artifact before [b], by [has]. *)
Definition had_before (b : SBundle) (bundles : list SBundle) (steps : list DStep) (has : Artifacts → Prop) : Prop :=
  reachedEnvironments b steps ≠ [] ∧
  ∀ env, env ∈ reachedEnvironments b steps → ∃ p, verifiedBefore b bundles env = Some p ∧ has (b_Artifacts (sb_bundle p)).

Lemma had_before_preds b bundles steps has :
  had_before b bundles steps has ↔
  let preds := snd <$> default [] (predecessors b bundles (reachedEnvironments b steps)) in
  preds ≠ [] ∧ ∀ p, p ∈ preds → has (b_Artifacts (sb_bundle p)).
Proof.
  unfold had_before. destruct (predecessors _ _ _) as [ps|] eqn:E; simpl.
  - apply predecessors_some in E as [-> Hps]. split.
    + intros [Hne Hall]. split; [by destruct ps|]. intros p ([env q] & -> & Hin)%list_elem_of_fmap. simpl.
      destruct (Hall env) as (p & Hv & Hh); [by apply (list_elem_of_fmap_2 fst _ (env, q))|]. rewrite (Hps _ _ Hin) in Hv. by injection Hv as ->.
    + intros [Hne Hall]. split; [by destruct ps|]. intros env ([e q] & -> & Hin)%list_elem_of_fmap. exists q.
      split; [by apply Hps|]. apply Hall. by apply (list_elem_of_fmap_2 snd _ (e, q)).
  - apply predecessors_none in E as (env & Hin & Hv). split; [|by intros []]. intros [_ Hall]. destruct (Hall env Hin) as (p & Hp & _). congruence.
Qed.

Lemma RejectedSetOf_image b bundles steps i :
  i ∈ rj_Images (RejectedSetOf b bundles steps) ↔
  i ∈ Images (b_Artifacts (sb_bundle b)) ∧ ¬ had_before b bundles steps (λ a, ∃ o, o ∈ Images a ∧ sameImage i o = true).
Proof.
  unfold RejectedSetOf. simpl. rewrite list_elem_of_filter, had_before_preds, <- not_true_iff_false, allCarryImage_true. tauto.
Qed.

Lemma RejectedSetOf_commit b bundles steps :
  let a := b_Artifacts (sb_bundle b) in
  (rj_Commit (RejectedSetOf b bundles steps) = "" ↔
     has_commit a = false ∨ had_before b bundles steps (λ p, ∃ c, ConfigRef_ p = Some c ∧ CommitSHA c = commit_of a)) ∧
  (rj_Commit (RejectedSetOf b bundles steps) ≠ "" → rj_Commit (RejectedSetOf b bundles steps) = commit_of a).
Proof.
  unfold RejectedSetOf. simpl. rewrite had_before_preds, <- allCarryCommit_true. unfold has_commit. case_bool_decide; cbn [negb andb].
  - naive_solver.
  - destruct (allCarryCommit _ _); cbn [negb]; naive_solver.
Qed.

Lemma add_recorded r b set :
  add r (recorded b set) =
  (let r := foldl (add_image (b_Name b)) r (rj_Images set) in
   if bool_decide (rj_Commit set = "") then r else mkRejected (digests r) (tags r) (<[rj_Commit set := b_Name b]> (commits r))).
Proof. done. Qed.

(** C14. A rejection rejects what the Bundle brought and nothing else.  An image or
    config commit of the rejected Bundle is refused from then on, in every Bundle that
    carries it, unless every environment the change reached had it before, in the
    newest older Bundle verified there.  A Bundle all of whose artifacts those
    predecessors had, the predecessor itself for one, is not refused on its account, so
    that going back to it stays possible. *)
Theorem rejection_exact b bundles steps :
  (∀ all o i, rejecting b bundles steps ∈ all → i ∈ Images (b_Artifacts (sb_bundle b)) → Digest i ≠ "" ∨ Tag i ≠ "" →
     ¬ had_before b bundles steps (λ a, ∃ o, o ∈ Images a ∧ sameImage i o = true) → i ∈ Images (b_Artifacts o) →
     is_Some (Carries (RecordedRejectedArtifactsOf all (b_Pipeline (sb_bundle b))) o)) ∧
  (∀ all o, rejecting b bundles steps ∈ all → has_commit (b_Artifacts (sb_bundle b)) = true →
     ¬ had_before b bundles steps (λ a, ∃ c, ConfigRef_ a = Some c ∧ CommitSHA c = commit_of (b_Artifacts (sb_bundle b))) →
     commit_of (b_Artifacts o) = commit_of (b_Artifacts (sb_bundle b)) →
     is_Some (Carries (RecordedRejectedArtifactsOf all (b_Pipeline (sb_bundle b))) o)) ∧
  (∀ o, Forall ref_ok (Images (b_Artifacts (sb_bundle b))) → Forall ref_ok (Images (b_Artifacts o)) → Rejected o = false →
     had_before b bundles steps (λ a, Images (b_Artifacts o) ⊆ Images a ∧
       (has_commit (b_Artifacts o) = true → ∃ c, ConfigRef_ a = Some c ∧ CommitSHA c = commit_of (b_Artifacts o))) →
     Carries (RecordedRejectedArtifactsOf [rejecting b bundles steps] (b_Pipeline (sb_bundle b))) o = None).
Proof.
  unfold RecordedRejectedArtifactsOf. split_and!.
  - intros all o i Hin Hi Hk Hno Ho. unfold Carries. destruct (Rejected o); [done|].
    destruct (carries_images_some (rejectedArtifactsOf all (b_Pipeline (sb_bundle b)) true) (Images (b_Artifacts o)) i Ho) as [x ->]; [|done].
    apply (recorded_carries _ _ _ _ _ _ Hin eq_refl); [|done]. by apply RejectedSetOf_image.
  - intros all o Hin Hc Hno Ho. unfold Carries. destruct (Rejected o); [done|]. destruct (carries_images _ _); [done|].
    assert (has_commit (b_Artifacts o) = true) as -> by (revert Hc; unfold has_commit; by rewrite Ho). rewrite Ho.
    destruct (RejectedSetOf_commit b bundles steps) as [Hemp Hval]. rewrite Hc in Hemp.
    assert (rj_Commit (RejectedSetOf b bundles steps) ≠ "") as Hne by (rewrite Hemp; naive_solver).
    destruct (recorded_in all _ true _ _ Hin eq_refl) as (r & l & ->). apply adds_mono. rewrite add_recorded. cbn zeta.
    rewrite (bool_decide_false _ Hne), (Hval Hne). cbn [commits]. by rewrite lookup_insert_eq.
  - intros o Hb Ho Hrej Hhad. unfold Carries. rewrite Hrej. unfold rejectedArtifactsOf. cbn [List.filter].
    rewrite !bool_decide_true by eauto. cbn [andb orb negb b_Rejected recorded foldl]. rewrite add_recorded. cbn zeta.
    set (r := foldl (add_image _) _ _).
    assert (∀ i, i ∈ Images (b_Artifacts o) → carriesImage r i = None) as Hnone.
    { intros i Hi. rewrite Forall_forall in Ho. apply carriesImage_none; [|by apply Ho|].
      - apply Forall_forall. intros j [Hj _]%RejectedSetOf_image. rewrite Forall_forall in Hb. by apply Hb.
      - intros j [Hj Hn]%RejectedSetOf_image. apply not_true_iff_false. intros Hs. apply Hn. destruct Hhad as [Hne Hall]. split; [done|].
        intros env He. destruct (Hall env He) as (p & Hp & Hsub & _). exists p. split; [done|]. exists i. split; [by apply Hsub|done]. }
    destruct (RejectedSetOf_commit b bundles steps) as [Hemp Hval].
    case_bool_decide as Ec.
    + rewrite (carries_images_none_intro r _ Hnone). destruct (has_commit _); [|done]. unfold r. by rewrite (proj2 (proj2 (add_images_mono _ _ _ ""))).
    + match goal with |- context [carries_images ?r' _] => rewrite (carries_images_none_intro r' _ Hnone) end.
      destruct (has_commit (b_Artifacts o)) eqn:Hc; [|done]. cbn [commits].
      rewrite lookup_insert_ne; [unfold r; by rewrite (proj2 (proj2 (add_images_mono _ _ _ "")))|]. rewrite (Hval Ec). intros E. apply Ec, Hemp.
      right. destruct Hhad as [Hne Hall]. split; [done|]. intros env He. destruct (Hall env He) as (p & Hp & _ & Hcm). exists p. split; [done|].
      destruct (Hcm eq_refl) as (c & Hcc & Hs). exists c. split; [done|]. by rewrite E.
Qed.

(** ** Examples *)

Definition demo_of (name : string) (created : Time) (digest : string) (envs : list (string * string)) : SBundle :=
  mkSBundle (mkBundle name "app" (mkArtifacts "image" [mkImageRef "ghcr.io/app" "" digest; mkImageRef "ghcr.io/proxy" "" "sha256:p"] None None)
    false "Promoting" None false None "" "" "" "" "" created None) envs.

Definition demo_v1 : SBundle := demo_of "v1" 1 "sha256:1" [("test", "Verified"); ("prod", "Verified")].
Definition demo_v2 : SBundle := demo_of "v2" 2 "sha256:2" [("test", "Verified"); ("prod", "Failed")].
Definition demo_v3 : SBundle := demo_of "v3" 3 "sha256:2" [].

(** v2 failed its health check in prod: its step there was deployed. *)
Definition demo_steps : list DStep := [mkDStep (mkStepOf "s" "v2" "app" "prod" StateFailed 2 None true) "" "abc"].

Lemma rejection_exact_witness :
  reachedEnvironments demo_v2 demo_steps = ["prod"; "test"] ∧
  Carries (RecordedRejectedArtifactsOf [rejecting demo_v2 [demo_v1; demo_v2; demo_v3] demo_steps] "app") (sb_bundle demo_v1) = None ∧
  is_Some (Carries (RecordedRejectedArtifactsOf [rejecting demo_v2 [demo_v1; demo_v2; demo_v3] demo_steps] "app") (sb_bundle demo_v3)).
Proof.
  destruct (rejection_exact demo_v2 [demo_v1; demo_v2; demo_v3] demo_steps) as (Himg & _ & Hspare).
  split; [vm_compute; reflexivity|]. split.
  - apply Hspare; [by repeat constructor..|done|]. split; [by vm_compute|]. intros env He. exists demo_v1.
    assert (env = "prod" ∨ env = "test") as Henv.
    { change (env ∈ ["prod"; "test"]) in He. set_solver. }
    destruct Henv as [->| ->]; (split; [vm_compute; reflexivity|]); (split; [done|]); by intros [=].
  - apply (Himg _ (sb_bundle demo_v3) (mkImageRef "ghcr.io/app" "" "sha256:2")); [by left|by left|by left| |by left].
    intros [_ Hall]. destruct (Hall "prod") as (p & Hp & o & Ho & Hs).
    { change ("prod" ∈ ["prod"; "test"]). by left. }
    assert (verifiedBefore demo_v2 [demo_v1; demo_v2; demo_v3] "prod" = Some demo_v1) as Hv by (vm_compute; reflexivity).
    rewrite Hv in Hp. injection Hp as <-. apply elem_of_cons in Ho as [->|[->|[]%elem_of_nil]%elem_of_cons]; by vm_compute in Hs.
Defined.

End RejectSet.
