(* ===== verification/Promote.v ===== *)
(** * Promote: promoting what is verified upstream

    Model of src/pkg/lifecycle/promote.go (PlanPromote), of EnvironmentUpstreams
    (src/pkg/graph/lifecycle.go) and of InFlightPhase (lifecycle.go).
    The histories are those of [History], the rejected artifacts those of [Rollback];
    who is superseded by the Bundle of the plan is [BundlePhase.supersedes].  The
    provenance a plan copies is not modelled. *)

From stdpp Require Import base gmap strings list sorting.
From Stdlib Require Import Lia ZArith.
From S2P Require Import Prelude Topo Ordering Fleet Actor Engine StepStatus Hooks Outbox Bake Transition Cancel Pending History Rollback RollbackFleet BundlePhase.
Import StepStatus.StepStatus Cancel.Cancel History.History Rollback.Rollback RollbackFleet.RollbackFleet.

Module Promote.

(** ** Data *)

Record PromoteRequest := mkPromote {
  pr_Pipeline : string;
  pr_Environment : string;
  pr_Actor : string;
  pr_Stamp : option Actor.Actor;
  (** [None] for the zero time: no stamp. *)
  pr_Now : option Time
}.

(** The Bundle a plan builds: its artifacts, intent.targetEnvironment and targetOnly, the
    actor stamp, and the annotations promoted-from, requested-by and created-at. *)
Record NewBundle := mkNewBundle {
  nb_Pipeline : string;
  nb_Artifacts : Artifacts;
  nb_Target : string;
  nb_TargetOnly : bool;
  nb_Stamp : option Actor.Actor;
  nb_PromotedFrom : string;
  nb_RequestedBy : option string;
  nb_CreatedAt : option Time
}.

Record PromotePlan := mkPlan { pp_Source : Bundle; pp_Upstreams : list string; pp_Bundle : NewBundle }.

Definition InFlightPhase (phase : string) : bool := bool_decide (phase ∈ [""; "Available"; "Promoting"]).

Section promote.
Context (selects : Ordering.FleetSelector → option (gmap string string → bool)).
Context (scaled : Ordering.IntOrString → Z → option Z).
Context (IsDNS1123Label : string → bool).
Context (path_Join : string → string → string).

(** The direct upstreams of an environment, sorted; [None] for an error. *)
Definition EnvironmentUpstreams (p : Fleet.Pipeline) (env : string) : option (list string) :=
  match Fleet.resolveOrdering selects scaled IsDNS1123Label path_Join p with
  | inl _ => None
  | inr (ordered, deps) => if bool_decide (env ∈ ordered) then Some (sort_by str_ltb (default [] (deps !! env))) else None
  end.

(** A Bundle that may be promoted: [load] is the list of steps a history is read from. *)
Definition candidate (pipeline : string) (rejected : RejectedArtifacts) (load : string → option (list Step)) (ups : list string) (b : Bundle) : bool :=
  bool_decide (b_Pipeline b = pipeline) && HasArtifacts (b_Artifacts b) && bool_decide (Carries rejected b = None) &&
  forallb (λ up, verifiedIn (historyOf (default [] (load up)) pipeline up) (b_Name b)) ups.

(** Whether the Bundle of the plan would cancel [o]. *)
Definition cancelled (pipeline : string) (src o : Bundle) : bool :=
  bool_decide (b_Pipeline o = pipeline) && bool_decide (Type_ (b_Artifacts o) = Type_ (b_Artifacts src)) && InFlightPhase (b_Phase o) &&
  negb (Rejected o) && (bool_decide (b_Name o = b_Name src) || created_before src o).

Definition build (rq : PromoteRequest) (src : Bundle) : NewBundle :=
  mkNewBundle (pr_Pipeline rq) (copyArtifacts (b_Artifacts src)) (pr_Environment rq) true (pr_Stamp rq) (b_Name src)
    (if bool_decide (pr_Actor rq = "") then None else Some (pr_Actor rq)) (pr_Now rq).

(** The history of an environment of the request's Pipeline. *)
Definition history (load : string → option (list Step)) (rq : PromoteRequest) (env : string) : envHistory :=
  historyOf (default [] (load env)) (pr_Pipeline rq) env.

Definition PlanPromote (rq : PromoteRequest) (pipeline : read Fleet.Pipeline) (load : string → option (list Step)) (bundles : option (list Bundle)) :
  plan_error + PromotePlan :=
  if bool_decide (pr_Pipeline rq = "") || bool_decide (pr_Environment rq = "") then inl ErrInvalid
  else match pipeline with
  | Missing => inl ErrNotFound
  | ReadError => inl ErrAPI
  | Got p =>
      if negb (Fleet.HasEnvironment selects scaled IsDNS1123Label path_Join p (pr_Environment rq)) then inl ErrInvalid
      else match EnvironmentUpstreams p (pr_Environment rq) with
      | None | Some [] => inl ErrInvalid
      | Some ups =>
          if existsb (λ e, bool_decide (load e = None)) (pr_Environment rq :: ups) then inl ErrAPI
          else match bundles with
          | None => inl ErrAPI
          | Some l =>
              let rejected := RejectedArtifactsOf l (pr_Pipeline rq) in
              match sort_by (λ a b, created_before b a) (List.filter (candidate (pr_Pipeline rq) rejected load ups) l) with
              | [] => inl ErrConflict
              | src :: _ =>
                  let target := history load rq (pr_Environment rq) in
                  if verifiedIn target (b_Name src) || inFlight target (b_Name src) || existsb (cancelled (pr_Pipeline rq) src) l
                  then inl ErrConflict
                  else inr (mkPlan src ups (build rq src))
              end
          end
      end
  end.

(** ** The newest candidate *)

#[local] Instance newest_first : StrictWeak (λ a b, created_before b a).
Proof.
  split; intros x y; [apply less_asym|]. intros z H1 H2. exact (less_negtrans (less := created_before) z y x H2 H1).
Qed.

(** Two Bundles neither of which is older have one name. *)
Lemma created_before_total a b : created_before a b = false → created_before b a = false → b_Name a = b_Name b.
Proof.
  unfold created_before. destruct (Z.eqb_spec (b_Created a) (b_Created b)) as [E|E]; cbn [negb].
  2: { rewrite !Z.ltb_ge. rewrite (proj2 (Z.eqb_neq (b_Created b) (b_Created a))) by lia. cbn [negb]. rewrite Z.ltb_ge. lia. }
  rewrite (proj2 (Z.eqb_eq (b_Created b) (b_Created a))) by lia. cbn [negb].
  destruct (b_CreatedAt a) as [ta|], (b_CreatedAt b) as [tb|]; try done.
  2: { intros H1 H2. destruct (str_ltb_total (b_Name a) (b_Name b)) as [?|[?|?]]; [done|congruence..]. }
  destruct (Z.eqb_spec ta tb) as [Et|Et]; cbn [negb].
  2: { rewrite Z.ltb_ge. rewrite (proj2 (Z.eqb_neq tb ta)) by lia. cbn [negb]. rewrite Z.ltb_ge. lia. }
  rewrite (proj2 (Z.eqb_eq tb ta)) by lia. cbn [negb].
  intros H1 H2. destruct (str_ltb_total (b_Name a) (b_Name b)) as [?|[?|?]]; [done|congruence..].
Qed.

(** [src] is the newest of [l] that satisfies [f]. *)
Definition newest_of (f : Bundle → bool) (l : list Bundle) (src : Bundle) : Prop :=
  src ∈ l ∧ f src = true ∧ ∀ o, o ∈ l → f o = true → created_before src o = false.

Lemma names_inj (l : list Bundle) a b : NoDup (b_Name <$> l) → a ∈ l → b ∈ l → b_Name a = b_Name b → a = b.
Proof.
  induction l as [|x l IH]; [by intros _ ?%elem_of_nil|]. rewrite fmap_cons. intros [Hn Hd]%NoDup_cons.
  intros [->|Ha]%elem_of_cons [->|Hb]%elem_of_cons E; [done| | |by apply IH].
  - destruct Hn. rewrite E. by apply list_elem_of_fmap_2.
  - destruct Hn. rewrite <- E. by apply list_elem_of_fmap_2.
Qed.

Lemma sorted_head f l :
  NoDup (b_Name <$> l) →
  match sort_by (λ a b, created_before b a) (List.filter f l) with
  | [] => ∀ o, o ∈ l → f o = false
  | src :: _ => newest_of f l src ∧ ∀ o, newest_of f l o → o = src
  end.
Proof.
  intros Hnd. pose proof (sort_by_sorted (λ a b, created_before b a) (List.filter f l)) as Hs.
  assert (∀ x, x ∈ sort_by (λ a b, created_before b a) (List.filter f l) ↔ x ∈ l ∧ f x = true) as Hel.
  { intros x. rewrite sort_by_elem, list_elem_of_In, List.filter_In, <- list_elem_of_In. done. }
  destruct (sort_by _ _) as [|src rest].
  - intros o Ho. destruct (f o) eqn:E; [|done]. exfalso. by apply (elem_of_nil o), Hel.
  - apply StronglySorted_cons in Hs as [Hmax _]. rewrite Forall_forall in Hmax.
    destruct (proj1 (Hel src)) as [Hin Hf]; [by left|].
    assert (newest_of f l src) as Hnew.
    { split_and!; [done..|]. intros o Ho Hfo. pose proof (proj2 (Hel o) (conj Ho Hfo)) as [->|Hr]%elem_of_cons; [apply (less_irrefl created_before)|by apply Hmax]. }
    split; [done|]. intros o (Ho & Hfo & Hom). apply (names_inj l); [done..|].
    apply created_before_total; [by apply Hom|]. by apply Hnew.
Qed.

(** ** What is promoted *)

(** What may be promoted: a Bundle of the Pipeline with artifacts, none of them rejected,
    that is Verified in every upstream. *)
Record source_ok (rq : PromoteRequest) (load : string → option (list Step)) (ups : list string) (l : list Bundle) (b : Bundle) : Prop := {
  so_listed : b ∈ l;
  so_pipeline : b_Pipeline b = pr_Pipeline rq;
  so_artifacts : HasArtifacts (b_Artifacts b) = true;
  so_clean : Carries (RejectedArtifactsOf l (pr_Pipeline rq)) b = None;
  so_verified : ∀ up, up ∈ ups → verifiedIn (history load rq up) (b_Name b) = true
}.

(** [src] is what a request promotes: the reads answer, it is the newest Bundle that may
    be promoted, it is neither verified nor on its way in the environment, and no Bundle
    of its type that is still promoting is [src] itself or newer. *)
Record promotable (rq : PromoteRequest) (p : Fleet.Pipeline) (load : string → option (list Step)) (ups : list string) (l : list Bundle) (src : Bundle) : Prop := {
  po_named : pr_Pipeline rq ≠ "" ∧ pr_Environment rq ≠ "";
  po_env : Fleet.HasEnvironment selects scaled IsDNS1123Label path_Join p (pr_Environment rq) = true;
  po_ups : EnvironmentUpstreams p (pr_Environment rq) = Some ups ∧ ups ≠ [];
  po_reads : ∀ e, e ∈ pr_Environment rq :: ups → is_Some (load e);
  po_source : source_ok rq load ups l src;
  po_newest : ∀ o, source_ok rq load ups l o → o = src ∨ created_before o src = true;
  po_unverified : verifiedIn (history load rq (pr_Environment rq)) (b_Name src) = false;
  po_idle : inFlight (history load rq (pr_Environment rq)) (b_Name src) = false;
  po_cancels : ∀ o, o ∈ l → b_Pipeline o = pr_Pipeline rq → Type_ (b_Artifacts o) = Type_ (b_Artifacts src) →
    InFlightPhase (b_Phase o) = true → Rejected o = false → o = src ∨ created_before src o = true → False
}.

Lemma candidate_iff rq load ups l b :
  b ∈ l → candidate (pr_Pipeline rq) (RejectedArtifactsOf l (pr_Pipeline rq)) load ups b = true ↔ source_ok rq load ups l b.
Proof.
  intros Hb. unfold candidate. rewrite !andb_true_iff, !bool_decide_eq_true, forallb_forall. setoid_rewrite <- list_elem_of_In. split.
  - intros [[[? ?] ?] ?]. by split.
  - by intros [].
Qed.

Lemma no_failed_read load (l : list string) :
  existsb (λ e, bool_decide (load e = (None : option (list Step)))) l = false ↔ ∀ e, e ∈ l → is_Some (load e).
Proof.
  rewrite <- not_true_iff_false, existsb_exists. setoid_rewrite bool_decide_eq_true. setoid_rewrite <- list_elem_of_In.
  setoid_rewrite <- not_eq_None_Some. naive_solver.
Qed.

Lemma no_cancelled pipeline src l :
  NoDup (b_Name <$> l) → src ∈ l →
  existsb (cancelled pipeline src) l = false ↔
  ∀ o, o ∈ l → b_Pipeline o = pipeline → Type_ (b_Artifacts o) = Type_ (b_Artifacts src) →
    InFlightPhase (b_Phase o) = true → Rejected o = false → o = src ∨ created_before src o = true → False.
Proof.
  intros Hnd Hsrc. rewrite <- not_true_iff_false, existsb_exists. setoid_rewrite <- list_elem_of_In. unfold cancelled.
  setoid_rewrite andb_true_iff. setoid_rewrite andb_true_iff. setoid_rewrite andb_true_iff. setoid_rewrite andb_true_iff.
  setoid_rewrite orb_true_iff. setoid_rewrite bool_decide_eq_true. setoid_rewrite negb_true_iff. split.
  - intros Hn o Ho Hp Ht Hf Hr Hc. apply Hn. exists o. split_and!; try done. destruct Hc as [-> |?]; auto.
  - intros Ha (o & Ho & (((Hp & Ht) & Hf) & Hr) & Hc). apply (Ha o Ho Hp Ht Hf Hr). destruct Hc as [E|?]; [left|by right].
    by apply (names_inj l).
Qed.

(** The head of the sorted candidates is the newest Bundle that may be promoted. *)
Lemma newest_source rq load ups l :
  NoDup (b_Name <$> l) →
  match sort_by (λ a b, created_before b a) (List.filter (candidate (pr_Pipeline rq) (RejectedArtifactsOf l (pr_Pipeline rq)) load ups) l) with
  | [] => ∀ o, ¬ source_ok rq load ups l o
  | src :: _ => source_ok rq load ups l src ∧ ∀ o, source_ok rq load ups l o → o = src ∨ created_before o src = true
  end.
Proof.
  intros Hnd. pose proof (sorted_head (candidate (pr_Pipeline rq) (RejectedArtifactsOf l (pr_Pipeline rq)) load ups) l Hnd) as Hh.
  destruct (sort_by _ _) as [|src rest].
  - intros o Ho. pose proof (so_listed _ _ _ _ _ Ho) as Hin. apply (candidate_iff _ _ _ _ _ Hin) in Ho. by rewrite Hh in Ho.
  - destruct Hh as [(Hin & Hc & Hmax) _]. split; [by apply candidate_iff|]. intros o Ho. pose proof (so_listed _ _ _ _ _ Ho) as Hio.
    apply (candidate_iff _ _ _ _ _ Hio) in Ho. destruct (created_before o src) eqn:E; [by right|left].
    apply (names_inj l); [done..|]. apply created_before_total; [done|by apply Hmax].
Qed.

(** A plan promotes what is promotable. *)
Lemma PlanPromote_sound rq p load l plan :
  NoDup (b_Name <$> l) → PlanPromote rq (Got p) load (Some l) = inr plan →
  ∃ ups src, promotable rq p load ups l src ∧ plan = mkPlan src ups (build rq src).
Proof.
  intros Hnd. unfold PlanPromote.
  destruct (bool_decide (pr_Pipeline rq = "") || bool_decide (pr_Environment rq = "")) eqn:E0; [done|].
  apply orb_false_iff in E0 as [E0 E1]. bools. destruct (Fleet.HasEnvironment _ _ _ _ _ _) eqn:Eh; cbn [negb]; [|done].
  destruct (EnvironmentUpstreams p (pr_Environment rq)) as [[|u ups]|] eqn:Eu; [done| |done].
  destruct (existsb _ _) eqn:Er; [done|].
  pose proof (newest_source rq load (u :: ups) l Hnd) as Hh.
  destruct (sort_by _ _) as [|src rest]; [done|]. destruct Hh as [Hok Hnew]. destruct (_ || _ || _) eqn:Ec; [done|]. intros [= <-].
  apply orb_false_iff in Ec as [Ec Ec3]. apply orb_false_iff in Ec as [Ec1 Ec2].
  exists (u :: ups), src. split; [|done]. split; try done; [by apply no_failed_read|]. apply no_cancelled; [done|apply Hok|done].
Qed.

(** C15. A promote request succeeds exactly when there is something to promote, and then
    promotes the newest: of the Bundles of the Pipeline that have artifacts, carry
    nothing rejected and are Verified in every direct upstream, the newest, when it is
    neither Verified nor on its way in the environment and no Bundle of its type that is
    still promoting is that one or newer.  The Bundle it builds deploys what that
    Bundle deploys, to this environment alone, and says where it comes from. *)
Theorem promote_newest_verified rq p load l plan :
  NoDup (b_Name <$> l) →
  PlanPromote rq (Got p) load (Some l) = inr plan ↔
  ∃ ups src, promotable rq p load ups l src ∧
    plan = mkPlan src ups
      {| nb_Pipeline := pr_Pipeline rq; nb_Artifacts := copyArtifacts (b_Artifacts src);
         nb_Target := pr_Environment rq; nb_TargetOnly := true; nb_Stamp := pr_Stamp rq; nb_PromotedFrom := b_Name src;
         nb_RequestedBy := if bool_decide (pr_Actor rq = "") then None else Some (pr_Actor rq); nb_CreatedAt := pr_Now rq |}.
Proof.
  intros Hnd. split; [by apply PlanPromote_sound|]. unfold PlanPromote.
  intros (ups & src & [[Hp He] Henv [Hups Hne] Hr Hok Hnew Hv Hi Hc] & ->).
  rewrite !bool_decide_false, Henv, Hups by done. cbn [orb negb]. destruct ups as [|u ups]; [done|].
  rewrite (proj2 (no_failed_read _ _) Hr). pose proof (newest_source rq load (u :: ups) l Hnd) as Hh.
  destruct (sort_by _ _) as [|x rest]; [by destruct (Hh src)|]. destruct Hh as [Hokx Hnewx].
  assert (x = src) as ->.
  { destruct (Hnew x Hokx) as [?|H1]; [done|]. destruct (Hnewx src Hok) as [?|H2]; [done|]. by rewrite (less_asym _ _ H1) in H2. }
  by rewrite Hv, Hi, (proj2 (no_cancelled _ _ _ Hnd (so_listed _ _ _ _ _ Hok)) Hc).
Qed.

(** The Bundle of a plan, once created, supersedes only Bundles that are older than what
    it promotes (or rejected): nothing newer is cancelled for it. *)
Theorem promote_cancels_only_older rq p load l plan nb view rejected cv o :
  PlanPromote rq (Got p) load (Some l) = inr plan → NoDup (b_Name <$> l) →
  b_Pipeline nb = pr_Pipeline rq → b_Artifacts nb = nb_Artifacts (pp_Bundle plan) →
  o ∈ l → InFlightPhase (b_Phase o) = true → Rejected o = false → BundlePhase.BundlePhase.supersedes view o rejected cv "" nb = true →
  created_before o (pp_Source plan) = true.
Proof.
  intros Hplan Hnd Hp Ha Ho Hfl Hrej Hs. apply PlanPromote_sound in Hplan as (ups & src & Hpo & ->); [|done]. cbn [pp_Source pp_Bundle nb_Artifacts build] in *.
  pose proof (po_cancels _ _ _ _ _ _ Hpo o Ho) as Hc. unfold BundlePhase.BundlePhase.supersedes in Hs.
  rewrite !andb_true_iff, !bool_decide_eq_true in Hs. destruct Hs as ((((((((_ & Hpp) & Ht) & _) & _) & _) & _) & _) & _).
  destruct (created_before o src) eqn:E; [done|]. exfalso. apply Hc; [congruence|by rewrite <- Ht, Ha|done|done|].
  destruct (created_before src o) eqn:E'; [by right|left]. apply (names_inj l); [done|done|apply (so_listed _ _ _ _ _ (po_source _ _ _ _ _ _ Hpo))|].
  by apply created_before_total.
Qed.
End promote.

(** ** Examples *)

Definition demo_promote (env : string) : PromoteRequest := mkPromote "app" env "alice" None (Some 5).

Definition demo_ran (bundle env : string) (t : Time) : Step := mkStepOf (bundle +:+ "-" +:+ env) bundle "app" env StateVerified t (Some t) true.

Definition demo_failed (b : Bundle) : Bundle :=
  mkBundle (b_Name b) (b_Pipeline b) (b_Artifacts b) false "Failed" None false None "" "" "" "" "" (b_Created b) None.

(** v2 is verified in one of the two targets only. *)
Definition demo_load (env : string) : option (list Step) :=
  Some [demo_ran "v1" "prod-eu" 1; demo_ran "v1" "prod-us" 2; demo_ran "v2" "prod-eu" 3].

Abbreviation demo_PlanPromote env := (PlanPromote (λ _, None) Fleet.demo_scaled (λ _, true) (λ a b, a +:+ "/" +:+ b)
  (demo_promote env%string) (Got Fleet.demo_pipeline) demo_load (Some [demo_failed demo_v1; demo_failed demo_v2])).

Lemma promote_newest_verified_witness :
  ∃ plan, demo_PlanPromote "smoke" = inr plan ∧ b_Name (pp_Source plan) = "v1" ∧
    ∃ ups src, promotable (λ _, None) Fleet.demo_scaled (λ _, true) (λ a b, a +:+ "/" +:+ b) (demo_promote "smoke") Fleet.demo_pipeline
      demo_load ups [demo_failed demo_v1; demo_failed demo_v2] src ∧ plan = mkPlan src ups (build (demo_promote "smoke") src).
Proof.
  eexists. assert (demo_PlanPromote "smoke" = inr (mkPlan (demo_failed demo_v1) ["prod-eu"; "prod-us"] (build (demo_promote "smoke") (demo_failed demo_v1)))) as Hp by (vm_compute; reflexivity).
  split; [exact Hp|]. split; [reflexivity|]. revert Hp. apply promote_newest_verified.
  apply (bool_decide_unpack _). vm_compute. exact I.
Defined.

(** A fleet is an environment of the Pipeline, but no environment of its order: a
    request to promote to a fleet is refused, as if there were no such environment. *)
Theorem promote_fleet_refused :
  Fleet.HasEnvironment (λ _, None) Fleet.demo_scaled (λ _, true) (λ a b, a +:+ "/" +:+ b) Fleet.demo_pipeline "prod" = true ∧
  EnvironmentUpstreams (λ _, None) Fleet.demo_scaled (λ _, true) (λ a b, a +:+ "/" +:+ b) Fleet.demo_pipeline "prod" = None ∧
  demo_PlanPromote "prod" = inl ErrInvalid ∧
  EnvironmentUpstreams (λ _, None) Fleet.demo_scaled (λ _, true) (λ a b, a +:+ "/" +:+ b) Fleet.demo_pipeline "prod-eu" = Some ["staging"].
Proof. by vm_compute. Qed.

End Promote.
