(* ===== verification/HealthImages.v ===== *)
(** * HealthImages: which images a workload runs

    Model of src/pkg/health/images.go: image references, comparing the images of a
    workload with those of a Bundle, and comparing git revisions.  Letters are folded
    as in ASCII. *)

From stdpp Require Import base gmap strings list.
From Stdlib Require Import Ascii Lia ZArith.
From S2P Require Import Prelude.

Module HealthImages.

Record ImageExpectation := mkImage { Repository : string; Tag : string; Digest : string }.

#[export] Instance ImageExpectation_eq_dec : EqDecision ImageExpectation.
Proof. solve_decision. Defined.

(** ** Operations *)

Definition ParseImage (ref : string) : ImageExpectation :=
  let '(ref, digest) := match Cut "@"%char ref with Some (x, y) => (x, y) | None => (ref, "") end in
  match CutLast ":"%char ref with
  | Some (repo, tag) => if has_char "/"%char tag then mkImage ref "" digest else mkImage repo tag digest
  | None => mkImage ref "" digest
  end.

Definition formatImage (img : ImageExpectation) : string :=
  let s := Repository img in
  let s := if bool_decide (Tag img = "") then s else s +:+ ":" +:+ Tag img in
  if bool_decide (Digest img = "") then s else s +:+ "@" +:+ Digest img.

(** The first of the prefixes is cut. *)
Fixpoint trim_first (prefixes : list string) (s : string) : string :=
  match prefixes with
  | [] => s
  | p :: l => if HasPrefix s p then TrimPrefix s p else trim_first l s
  end.

Definition normalizeRepository (repo : string) : string :=
  TrimPrefix (trim_first ["docker.io/"; "index.docker.io/"; "registry-1.docker.io/"] (ToLower repo)) "library/".

Definition imageMatches (want got : ImageExpectation) : bool :=
  if negb (bool_decide (Digest want = "")) && negb (bool_decide (Digest got = "")) then bool_decide (Digest want = Digest got)
  else if negb (bool_decide (Tag want = "")) then
    bool_decide ((if bool_decide (Tag got = "") && bool_decide (Digest got = "") then "latest" else Tag got) = Tag want)
  else bool_decide (Digest want = "").

(** Whether a running image is of the repository of a Bundle image. *)
Definition same_repo (want : ImageExpectation) (ref : string) : bool :=
  bool_decide (normalizeRepository (Repository (ParseImage ref)) = normalizeRepository (Repository want)).

(** The pairs of a Bundle image and a running image of its repository, in the order of
    the two loops. *)
Definition of_repo (expected : list ImageExpectation) (running : list string) : list (ImageExpectation * string) :=
  w ← expected; pair w <$> filter (λ ref, same_repo w ref = true) running.

Definition not_verified : string := "(image not verified: runs none of the Bundle images)".

Definition checkImages (expected : list ImageExpectation) (running : list string) : bool * string :=
  if bool_decide (expected = []) then (true, "")
  else
    let l := of_repo expected running in
    match list_find (λ p, imageMatches p.1 (ParseImage p.2) = false) l with
    | Some (_, (want, ref)) => (false, "runs " +:+ ref +:+ ", Bundle has " +:+ formatImage want)
    | None => (true, if bool_decide (l = []) then not_verified else "")
    end.

Definition runsRepository (expected : list ImageExpectation) (running : list string) : bool :=
  existsb (λ w, existsb (same_repo w) running) expected.

Definition SameRevision (a b : string) : bool :=
  let a := ToLower (TrimSpace a) in
  let b := ToLower (TrimSpace b) in
  if bool_decide (a = "") || bool_decide (b = "") then false
  else if bool_decide (a = b) then true
  else if (String.length a <? 7)%nat || (String.length b <? 7)%nat then false
  else HasPrefix a b || HasPrefix b a.

(** ** What a check of the images says *)

Lemma of_repo_elem expected running w ref :
  (w, ref) ∈ of_repo expected running ↔ w ∈ expected ∧ ref ∈ running ∧ same_repo w ref = true.
Proof.
  unfold of_repo. rewrite list_elem_of_bind. setoid_rewrite list_elem_of_fmap. setoid_rewrite list_elem_of_filter. split.
  - intros (w' & (r & [= -> ->] & ? & ?) & ?). done.
  - intros (? & ? & ?). exists w. split; [by exists ref|done].
Qed.

Lemma runsRepository_true expected running :
  runsRepository expected running = true ↔ ∃ w ref, w ∈ expected ∧ ref ∈ running ∧ same_repo w ref = true.
Proof.
  unfold runsRepository. rewrite existsb_exists. setoid_rewrite existsb_exists. setoid_rewrite <- list_elem_of_In. naive_solver.
Qed.

Lemma runsRepository_of_repo expected running : runsRepository expected running = true ↔ of_repo expected running ≠ [].
Proof.
  rewrite runsRepository_true. split.
  - intros (w & ref & Hw) E. apply of_repo_elem in Hw. rewrite E in Hw. by apply elem_of_nil in Hw.
  - destruct (of_repo expected running) as [|[w ref] l] eqn:E; [done|]. intros _. exists w, ref. apply of_repo_elem. rewrite E. by left.
Qed.

(** Every running image of a Bundle repository is the Bundle's. *)
Definition images_match (expected : list ImageExpectation) (running : list string) : Prop :=
  ∀ w ref, w ∈ expected → ref ∈ running → same_repo w ref = true → imageMatches w (ParseImage ref) = true.

(** Nothing differs: the images of Bundle repositories are the Bundle's, or none is
    of a Bundle repository. *)
Lemma images_match_split expected running :
  images_match expected running ↔
  (images_match expected running ∧ runsRepository expected running = true) ∨ runsRepository expected running = false.
Proof.
  destruct (runsRepository expected running) eqn:E; [naive_solver|]. split; [by right|]. intros _ w ref Hw Hr Hs.
  assert (runsRepository expected running = true) as E' by (apply runsRepository_true; eauto). congruence.
Qed.

(** The check passes exactly when no running image of a Bundle repository is another
    version, and it has no note exactly when there was something to compare. *)
Lemma checkImages_spec expected running :
  ((checkImages expected running).1 = true ↔ images_match expected running) ∧
  ((checkImages expected running).1 = true → (checkImages expected running).2 = "" ↔ expected = [] ∨ runsRepository expected running = true).
Proof.
  unfold checkImages. case_bool_decide as E0.
  { subst. split; simpl; [|by split; [left|]]. split; [|done]. by intros _ w ref ?%elem_of_nil. }
  destruct (list_find _ _) as [[i [w ref]]|] eqn:Ef; simpl.
  - apply list_find_Some in Ef as (Hl & Hm & _). split; [|done]. split; [done|]. intros Hall.
    apply list_elem_of_lookup_2, of_repo_elem in Hl as (Hw & Hr & Hs). simpl in Hm. by rewrite (Hall w ref Hw Hr Hs) in Hm.
  - apply list_find_None in Ef. rewrite Forall_forall in Ef. split.
    + split; [|done]. intros _ w ref Hw Hr Hs. apply not_false_iff_true. apply (Ef (w, ref)). by apply of_repo_elem.
    + intros _. rewrite runsRepository_of_repo. case_bool_decide; naive_solver.
Qed.

(** ** References *)

(** An image as it is written: the repository has no at sign, its last part no colon,
    and the tag and digest neither a slash nor a separator. *)
Definition image_ok (img : ImageExpectation) : Prop :=
  has_char "@"%char (Repository img) = false ∧ has_char "@"%char (Tag img) = false ∧
  has_char ":"%char (Tag img) = false ∧ has_char "/"%char (Tag img) = false ∧
  (Tag img = "" → match CutLast ":"%char (Repository img) with Some (_, t) => has_char "/"%char t = true | None => True end).

(** Reading back what was written. *)
Lemma ParseImage_formatImage img : image_ok img → ParseImage (formatImage img) = img.
Proof.
  destruct img as [repo tag digest]. intros (H1 & H2 & H3 & H4 & H5). cbn [Repository Tag] in *. unfold formatImage. cbn [Repository Tag Digest].
  set (s := if bool_decide (tag = "") then repo else repo +:+ ":" +:+ tag).
  assert (has_char "@"%char s = false) as Hs.
  { unfold s. case_bool_decide; [done|]. by rewrite !has_char_app, H1, H2. }
  assert (match CutLast ":"%char s with Some (r, t) => if has_char "/"%char t then mkImage s "" digest else mkImage r t digest | None => mkImage s "" digest end
    = mkImage repo tag digest) as Hp.
  { unfold s. case_bool_decide as Et.
    - subst tag. specialize (H5 eq_refl). destruct (CutLast _ _) as [[r t]|]; [|done]. by rewrite H5.
    - change (repo +:+ ":" +:+ tag) with (repo +:+ String ":"%char tag). by rewrite CutLast_app, H4. }
  unfold ParseImage. case_bool_decide as Ed.
  - subst digest. assert (Cut "@"%char s = None) as ->; [|exact Hp].
    clear -Hs. induction s as [|a s IH]; simpl in *; [done|]. apply orb_false_iff in Hs as [-> Hs]. by rewrite IH.
  - change (s +:+ "@" +:+ digest) with (s +:+ String "@"%char digest). rewrite Cut_app by done. exact Hp.
Qed.
End HealthImages.
