(* ===== verification/HealthDeploy.v ===== *)
(** * HealthDeploy: the health of Deployments

    Model of the Deployment adapter of src/pkg/health/adapter.go (DeploymentAdapter.Check,
    checkDeployment, deploymentRollout, deadlineOfReplicaSet, deadlineFromEarlierRollout)
    and of options.go.  An object of the cluster is the record of the fields that are
    read; a time that is not set is [None].  The results are those [Bake] and
    [HealthCheck] count; the wording of a reason and the pods it quotes (pods.go) are
    left out. *)

From stdpp Require Import base gmap strings list.
From Stdlib Require Import Ascii Lia ZArith.
From S2P Require Import Prelude Engine StepStatus Hooks Outbox Bake Transition Cancel HealthImages.
Import Cancel.Cancel HealthImages.HealthImages.
Import Bake.Bake(HealthStatus, mkHealth, Healthy, Progressing, Terminal, NotFound, TargetUpdated).

Module HealthDeploy.

(** ** Results *)

Definition healthy : HealthStatus := mkHealth true false false false false.
Definition progressing : HealthStatus := mkHealth false true false false false.
Definition unhealthy : HealthStatus := mkHealth false false false false false.
Definition missing : HealthStatus := mkHealth false false false true false.
Definition terminal : HealthStatus := mkHealth false false true false false.

Definition set_TargetUpdated (u : bool) (st : HealthStatus) : HealthStatus :=
  mkHealth (Healthy st) (Progressing st) (Terminal st) (NotFound st) u.

Definition severity (st : HealthStatus) : Z := if Terminal st then 3 else if negb (Progressing st) then 2 else 1.

(** ** Options *)

Record Target := mkTarget { t_Name : string; t_Namespace : string }.

(** [CheckOptions].  [o_RevisionContains]: whether a later commit contains the promoted
    one ([None] when that cannot be read); without it nothing is known. *)
Record CheckOptions := mkOptions {
  o_ExpectedRevision : string;
  o_RevisionContains : option (string → option bool);
  o_ExpectedImages : list ImageExpectation;
  o_ImagesOnly : bool;
  o_Since : option Time;
  o_ChangedAt : option Time;
  o_TargetUpdatedAt : option Time
}.

(** The health of an environment's spec, as far as [OptionsForEnv] reads it: a target
    is its name and namespace. *)
Record HealthSpec := mkHealthSpec {
  h_Delegate : string;
  h_Type : string;
  h_LabelSelector : gmap string string;
  h_Resource : option (Target * string);
  h_ArgoCD : option Target;
  h_Flux : option Target;
  h_ArgoRollouts : option Target;
  h_Flagger : option Target
}.

(** What is checked: the adapter and its target. *)
Record Configs := mkConfigs {
  cf_Type : string;
  cf_Resource : Target;
  cf_Condition : string;
  cf_LabelSelector : gmap string string;
  cf_ArgoCD : Target;
  cf_Flux : Target;
  cf_ArgoRollouts : Target;
  cf_Flagger : Target
}.

Definition DefaultType : string := "resource".

Definition EffectiveType (h : HealthSpec) : string :=
  if negb (bool_decide (h_Delegate h = "")) && negb (bool_decide (h_Delegate h = "none")) then h_Delegate h
  else if negb (bool_decide (h_Type h = "")) then h_Type h else DefaultType.

Definition override (dst v : string) : string := if bool_decide (v = "") then dst else v.

Definition override_target (dst : Target) (v : option Target) : Target :=
  match v with Some t => mkTarget (override (t_Name dst) (t_Name t)) (override (t_Namespace dst) (t_Namespace t)) | None => dst end.

Definition OptionsForEnv (pipelineName env : string) (h : HealthSpec) : Configs :=
  mkConfigs (EffectiveType h) (override_target (mkTarget pipelineName env) (fst <$> h_Resource h))
    (override "Available" (default "" (snd <$> h_Resource h))) (h_LabelSelector h)
    (override_target (mkTarget (pipelineName +:+ "-" +:+ env) "argocd") (h_ArgoCD h))
    (override_target (mkTarget (pipelineName +:+ "-" +:+ env) "flux-system") (h_Flux h))
    (override_target (mkTarget pipelineName env) (h_ArgoRollouts h)) (override_target (mkTarget pipelineName env) (h_Flagger h)).

(** ** Deployments *)

Record DeploymentCondition := mkCondition {
  dc_Type : string;
  dc_Status : string;
  dc_Reason : string;
  dc_Message : string;
  dc_LastUpdateTime : option Time;
  dc_LastTransitionTime : option Time
}.

(** [d_Revision] is the annotation deployment.kubernetes.io/revision, [d_Images] the
    images of the pod template. *)
Record Deployment := mkDeployment {
  d_Namespace : string;
  d_Name : string;
  d_Generation : Z;
  d_Revision : string;
  d_Images : list string;
  d_SpecReplicas : option Z;
  d_ObservedGeneration : Z;
  d_Replicas : Z;
  d_UpdatedReplicas : Z;
  d_AvailableReplicas : Z;
  d_Conditions : list DeploymentCondition
}.

Definition deploymentCondition (d : Deployment) (condType : string) : option DeploymentCondition :=
  snd <$> list_find (λ c, dc_Type c = condType) (d_Conditions d).

(** The revision of a ReplicaSet by namespace and name; [None] without a client. *)
Abbreviation replicaSetRevision := (option (string → string → read string)).

(** [a-z0-9.-]. *)
Definition name_char (a : ascii) : bool :=
  let n := Z.of_N (N_of_ascii a) in
  ((97 <=? n) && (n <=? 122)) || ((48 <=? n) && (n <=? 57)) || (n =? 46) || (n =? 45).

Fixpoint all_chars (f : ascii → bool) (s : string) : bool :=
  match s with EmptyString => true | String a s => f a && all_chars f s end.

(** The quote, which a string here cannot hold. *)
Definition quote : string := String (ascii_of_N 34) "".

(** The regular expression [timedOutReplicaSet]. *)
Definition timedOutReplicaSet (msg : string) : option string :=
  let pre := "ReplicaSet " +:+ quote in
  let suf := quote +:+ " has timed out progressing." in
  if negb (HasPrefix msg pre) then None
  else
    let rest := TrimPrefix msg pre in
    if negb (HasSuffix rest suf) then None
    else
      let name := TrimSuffix rest suf in
      if negb (bool_decide (name = "")) && all_chars name_char name then Some name else None.

(** Why the condition is from an earlier rollout ([""] when it is not); [None] when the
    ReplicaSet cannot tell. *)
Definition deadlineOfReplicaSet (d : Deployment) (prog : DeploymentCondition) (rs : replicaSetRevision) : option string :=
  match rs, timedOutReplicaSet (dc_Message prog) with
  | Some rs, Some name =>
      if bool_decide (d_Revision d = "") then None
      else match rs (d_Namespace d) name with
           | ReadError => None
           | Missing => Some ("ReplicaSet " +:+ name +:+ " no longer exists")
           | Got rev =>
               if bool_decide (rev = "") then None
               else if negb (bool_decide (rev = d_Revision d))
               then Some ("ReplicaSet " +:+ name +:+ " has revision " +:+ rev +:+ ", not the Deployment's revision " +:+ d_Revision d)
               else Some ""
           end
  | _, _ => None
  end.

(** When the condition was set. *)
Definition set_at (prog : DeploymentCondition) : Time :=
  match dc_LastUpdateTime prog with Some t => t | None => default zeroTime (dc_LastTransitionTime prog) end.

(** Whether the times say that the condition is from an earlier rollout. *)
Definition deadlineFromEarlierRollout (prog : DeploymentCondition) (updated : bool) (since targetUpdatedAt : option Time) : bool :=
  match since with
  | None => false
  | Some since =>
      if set_at prog <? truncate_second since then true
      else updated && match targetUpdatedAt with
                      | None => true
                      | Some t => negb (truncate_second t <? set_at prog)
                      end
  end.

(** Whether a ProgressDeadlineExceeded is from an earlier rollout. *)
Definition from_earlier (d : Deployment) (prog : DeploymentCondition) (updated promoted : bool) (since targetUpdatedAt : option Time) (rs : replicaSetRevision) : bool :=
  match deadlineOfReplicaSet d prog rs with
  | None => deadlineFromEarlierRollout prog updated since targetUpdatedAt
  | Some earlier =>
      if bool_decide (earlier = "") then negb promoted && deadlineFromEarlierRollout prog updated since targetUpdatedAt else true
  end.

(** The result of a Deployment past its progress deadline. *)
Definition stalled (d : Deployment) (updated promoted : bool) (since targetUpdatedAt : option Time) (rs : replicaSetRevision) : option HealthStatus :=
  match deploymentCondition d "Progressing" with
  | Some p =>
      if bool_decide (dc_Reason p = "ProgressDeadlineExceeded")
      then Some (if from_earlier d p updated promoted since targetUpdatedAt rs then progressing else terminal) else None
  | None => None
  end.

(** Whether the rollout is under way. *)
Definition rolling (d : Deployment) : bool :=
  match deploymentCondition d "Progressing" with
  | Some p => bool_decide (dc_Status p = "True") && negb (bool_decide (dc_Reason p = "NewReplicaSetAvailable"))
  | None => false
  end.

Definition deploymentRollout (d : Deployment) (condition : string) (imagesOK updated promoted : bool) (since targetUpdatedAt : option Time)
    (rs : replicaSetRevision) : HealthStatus :=
  if negb imagesOK then progressing
  else if d_ObservedGeneration d <? d_Generation d then progressing
  else match stalled d updated promoted since targetUpdatedAt rs with
       | Some st => st
       | None =>
           let want := default 1 (d_SpecReplicas d) in
           if d_UpdatedReplicas d <? want then progressing
           else if d_UpdatedReplicas d <? d_Replicas d then progressing
           else if d_AvailableReplicas d <? d_UpdatedReplicas d then (if rolling d then progressing else unhealthy)
           else match deploymentCondition d condition with
                | Some c => if bool_decide (dc_Status c = "True") then healthy else unhealthy
                | None => unhealthy
                end
       end.

Definition checkDeployment (d : Deployment) (condition : string) (opts : CheckOptions) (rs : replicaSetRevision) : HealthStatus :=
  let imagesOK := (checkImages (o_ExpectedImages opts) (d_Images d)).1 in
  let updated := imagesOK && runsRepository (o_ExpectedImages opts) (d_Images d) in
  set_TargetUpdated updated
    (deploymentRollout d condition imagesOK updated (updated && o_ImagesOnly opts) (o_Since opts) (o_TargetUpdatedAt opts) rs).

(** The loop over the selected Deployments: the most severe result that is not healthy,
    how many can be compared with the Bundle and how many of them run it. *)
Definition select_step (condition : string) (opts : CheckOptions) (rs : replicaSetRevision) (acc : option HealthStatus * Z * Z) (d : Deployment) :
  option HealthStatus * Z * Z :=
  let '(worst, comparable, updated) := acc in
  let st := checkDeployment d condition opts rs in
  let '(comparable, updated) :=
    if runsRepository (o_ExpectedImages opts) (d_Images d) then (comparable + 1, if TargetUpdated st then updated + 1 else updated)
    else (comparable, updated) in
  (if Healthy st then worst
   else match worst with
        | None => Some st
        | Some w => if severity w <? severity st then Some st else Some w
        end, comparable, updated).

(** [DeploymentAdapter.Check]: [list] answers the List of a selector, [get] the Get.
    [None] is an error. *)
Definition Check (condition : string) (selector : bool) (list : option (list Deployment)) (get : read Deployment) (opts : CheckOptions)
    (rs : replicaSetRevision) : option HealthStatus :=
  let condition := override "Available" condition in
  if selector then
    match list with
    | None => None
    | Some [] => Some unhealthy
    | Some items =>
        let '(worst, comparable, updated) := foldl (select_step condition opts rs) (None, 0, 0) items in
        Some (set_TargetUpdated ((0 <? comparable) && (updated =? comparable)) (default healthy worst))
    end
  else match get with
       | Got d => Some (checkDeployment d condition opts rs)
       | Missing => Some missing
       | ReadError => None
       end.

(** ** What a check says *)

(** The pod template runs the Bundle: an image of one of its repositories, and no image
    of them of another version. *)
Definition runs_bundle (opts : CheckOptions) (d : Deployment) : Prop :=
  images_match (o_ExpectedImages opts) (d_Images d) ∧ runsRepository (o_ExpectedImages opts) (d_Images d) = true.

(** Its images cannot be compared with the Bundle's: it runs none of its repositories
    (or the Bundle names no images).  The check then passes them, unverified. *)
Definition not_comparable (opts : CheckOptions) (d : Deployment) : Prop :=
  runsRepository (o_ExpectedImages opts) (d_Images d) = false.

Definition accepted (opts : CheckOptions) (d : Deployment) : Prop := runs_bundle opts d ∨ not_comparable opts d.

Definition deadline_exceeded (d : Deployment) (p : DeploymentCondition) : Prop :=
  deploymentCondition d "Progressing" = Some p ∧ dc_Reason p = "ProgressDeadlineExceeded".

(** The rollout of the promoted version, as far as it can be told, is complete. *)
Record rolled_out (condition : string) (opts : CheckOptions) (d : Deployment) : Prop := {
  ro_images : accepted opts d;
  ro_observed : d_Generation d ≤ d_ObservedGeneration d;
  ro_deadline : ∀ p, ¬ deadline_exceeded d p;
  ro_updated : default 1 (d_SpecReplicas d) ≤ d_UpdatedReplicas d;
  ro_old : d_Replicas d ≤ d_UpdatedReplicas d;
  ro_available : d_UpdatedReplicas d ≤ d_AvailableReplicas d;
  ro_condition : ∃ c, deploymentCondition d condition = Some c ∧ dc_Status c = "True"
}.

(** The condition was set during this check, and after a check first found the Bundle
    on the pod template. *)
Definition timely (opts : CheckOptions) (d : Deployment) (p : DeploymentCondition) : Prop :=
  ∀ since, o_Since opts = Some since →
    truncate_second since ≤ set_at p ∧ (runs_bundle opts d → ∃ t, o_TargetUpdatedAt opts = Some t ∧ truncate_second t < set_at p).

(** The deadline is this promotion's: the ReplicaSet it names is the current one, and
    either the pod template is the promoted state or the times agree; or there is no
    telling from the ReplicaSet, and the times agree. *)
Definition of_this_rollout (opts : CheckOptions) (rs : replicaSetRevision) (d : Deployment) (p : DeploymentCondition) : Prop :=
  match deadlineOfReplicaSet d p rs with
  | Some e => e = "" ∧ ((runs_bundle opts d ∧ o_ImagesOnly opts = true) ∨ timely opts d p)
  | None => timely opts d p
  end.

(** The promoted version was applied and its rollout has stalled. *)
Definition stalled_now (opts : CheckOptions) (rs : replicaSetRevision) (d : Deployment) : Prop :=
  accepted opts d ∧ d_Generation d ≤ d_ObservedGeneration d ∧
  ∃ p, deadline_exceeded d p ∧ of_this_rollout opts rs d p.

Abbreviation images_ok opts d := ((checkImages (o_ExpectedImages opts) (d_Images d)).1).
Abbreviation updated_of opts d := (images_ok opts d && runsRepository (o_ExpectedImages opts) (d_Images d)).

Lemma images_ok_iff opts d : images_ok opts d = true ↔ accepted opts d.
Proof. rewrite (proj1 (checkImages_spec _ _)). apply images_match_split. Qed.

Lemma updated_iff opts d : updated_of opts d = true ↔ runs_bundle opts d.
Proof. by rewrite andb_true_iff, (proj1 (checkImages_spec _ _)). Qed.

Lemma deadlineFromEarlierRollout_iff opts d p :
  deadlineFromEarlierRollout p (updated_of opts d) (o_Since opts) (o_TargetUpdatedAt opts) = false ↔ timely opts d p.
Proof.
  unfold deadlineFromEarlierRollout, timely. destruct (o_Since opts) as [since|]; [|naive_solver].
  destruct (Z.ltb_spec (set_at p) (truncate_second since)) as [Hlt|Hle].
  { split; [done|]. intros Hs. destruct (Hs since eq_refl) as [? _]. lia. }
  destruct (updated_of opts d) eqn:Eu; cbn [andb].
  - apply updated_iff in Eu. destruct (o_TargetUpdatedAt opts) as [t|].
    + rewrite negb_false_iff, Z.ltb_lt. split; [|naive_solver]. intros Ht s [= <-]. eauto.
    + split; [done|]. intros Hs. destruct (Hs since eq_refl) as [_ Hu]. destruct (Hu Eu) as (? & ? & _). done.
  - split; [|done]. intros _ s [= <-]. split; [done|]. intros Hr%updated_iff. congruence.
Qed.

Lemma from_earlier_iff opts rs d p :
  from_earlier d p (updated_of opts d) (updated_of opts d && o_ImagesOnly opts) (o_Since opts) (o_TargetUpdatedAt opts) rs = false ↔
  of_this_rollout opts rs d p.
Proof.
  unfold from_earlier, of_this_rollout. destruct (deadlineOfReplicaSet d p rs) as [e|]; [|apply deadlineFromEarlierRollout_iff].
  case_bool_decide; [|naive_solver]. rewrite andb_false_iff, negb_false_iff, andb_true_iff, updated_iff, deadlineFromEarlierRollout_iff. naive_solver.
Qed.

(** How a Deployment past its deadline is seen. *)
Lemma stalled_cases d u pr since tu rs :
  (∃ p, deadline_exceeded d p ∧ stalled d u pr since tu rs = Some (if from_earlier d p u pr since tu rs then progressing else terminal)) ∨
  ((∀ p, ¬ deadline_exceeded d p) ∧ stalled d u pr since tu rs = None).
Proof.
  unfold stalled, deadline_exceeded. destruct (deploymentCondition d "Progressing") as [p|]; [|right; naive_solver].
  case_bool_decide; [left; by exists p|right; naive_solver].
Qed.

(** The kinds of a result exclude each other. *)
Definition one_kind (st : HealthStatus) : Prop :=
  (Healthy st = true → Progressing st = false ∧ Terminal st = false ∧ NotFound st = false) ∧ (Progressing st = true → Terminal st = false ∧ NotFound st = false) ∧
  (Terminal st = true → NotFound st = false).

Lemma deploymentRollout_kinds d condition ok u pr since tu rs :
  deploymentRollout d condition ok u pr since tu rs ∈ [healthy; progressing; unhealthy; terminal].
Proof.
  unfold deploymentRollout. destruct (stalled_cases d u pr since tu rs) as [(p & _ & ->)|[_ ->]]; repeat case_match; set_solver.
Qed.

Abbreviation rollout opts rs condition d :=
  (deploymentRollout d condition (images_ok opts d) (updated_of opts d) (updated_of opts d && o_ImagesOnly opts) (o_Since opts) (o_TargetUpdatedAt opts) rs).

(** A Deployment that does not run the promoted version yet, or whose spec is not
    observed, is progressing. *)
Lemma rollout_waits opts condition d u pr since tu rs :
  ¬ (accepted opts d ∧ d_Generation d ≤ d_ObservedGeneration d) →
  deploymentRollout d condition (images_ok opts d) u pr since tu rs = progressing.
Proof.
  rewrite <- images_ok_iff. intros Hn. unfold deploymentRollout. destruct (images_ok opts d); cbn [negb]; [|done].
  destruct (Z.ltb_spec (d_ObservedGeneration d) (d_Generation d)); [done|]. destruct Hn. by split.
Qed.

(** Otherwise its deadline, its replicas and its condition decide. *)
Lemma rollout_decides opts condition d u pr since tu rs :
  accepted opts d → d_Generation d ≤ d_ObservedGeneration d →
  deploymentRollout d condition (images_ok opts d) u pr since tu rs =
    match stalled d u pr since tu rs with
    | Some st => st
    | None =>
        if d_UpdatedReplicas d <? default 1 (d_SpecReplicas d) then progressing
        else if d_UpdatedReplicas d <? d_Replicas d then progressing
        else if d_AvailableReplicas d <? d_UpdatedReplicas d then (if rolling d then progressing else unhealthy)
        else match deploymentCondition d condition with
             | Some c => if bool_decide (dc_Status c = "True") then healthy else unhealthy
             | None => unhealthy
             end
    end.
Proof.
  rewrite <- images_ok_iff. intros Hi Hg. unfold deploymentRollout. rewrite Hi. cbn [negb].
  by destruct (Z.ltb_spec (d_ObservedGeneration d) (d_Generation d)); [lia|].
Qed.

Lemma applied_dec opts d :
  {accepted opts d ∧ d_Generation d ≤ d_ObservedGeneration d} +
  {¬ (accepted opts d ∧ d_Generation d ≤ d_ObservedGeneration d)}.
Proof.
  destruct (images_ok opts d) eqn:Ei.
  - destruct (decide (d_Generation d ≤ d_ObservedGeneration d)); [left|right; by intros []]. split; [by apply images_ok_iff|done].
  - right. intros [Hi%images_ok_iff _]. congruence.
Qed.

(** The rollout is healthy exactly when the promoted version is rolled out. *)
Lemma deploymentRollout_healthy opts condition d u pr since tu rs :
  Healthy (deploymentRollout d condition (images_ok opts d) u pr since tu rs) = true ↔ rolled_out condition opts d.
Proof.
  destruct (applied_dec opts d) as [[Hi Hg]|Hn]; [rewrite (rollout_decides _ _ _ _ _ _ _ _ Hi Hg)|rewrite (rollout_waits _ _ _ _ _ _ _ _ Hn); split; [done|]; intros []; by destruct Hn].
  match goal with |- context [stalled ?d ?u ?pr ?s ?t ?rs] => destruct (stalled_cases d u pr s t rs) as [(p & Hp & ->)|[Hno ->]] end.
  { split; [by case_match|]. intros []. naive_solver. }
  destruct (Z.ltb_spec (d_UpdatedReplicas d) (default 1 (d_SpecReplicas d))); [split; [done|]; intros []; lia|].
  destruct (Z.ltb_spec (d_UpdatedReplicas d) (d_Replicas d)); [split; [done|]; intros []; lia|].
  destruct (Z.ltb_spec (d_AvailableReplicas d) (d_UpdatedReplicas d)); [split; [by case_match|]; intros []; lia|].
  destruct (deploymentCondition d condition) as [c|] eqn:Ec; [case_bool_decide|].
  - split; [|done]. intros _. split; try done; eauto.
  - split; [done|]. intros [_ _ _ _ _ _ (c' & ? & ?)]. congruence.
  - split; [done|]. intros [_ _ _ _ _ _ (c' & ? & ?)]. congruence.
Qed.

Lemma checkDeployment_healthy d condition opts rs : Healthy (checkDeployment d condition opts rs) = true ↔ rolled_out condition opts d.
Proof. apply deploymentRollout_healthy. Qed.

(** It has failed for good exactly when the rollout of the promoted version has stalled. *)
Lemma checkDeployment_terminal d condition opts rs : Terminal (checkDeployment d condition opts rs) = true ↔ stalled_now opts rs d.
Proof.
  change (Terminal (rollout opts rs condition d) = true ↔ stalled_now opts rs d).
  destruct (applied_dec opts d) as [[Hi Hg]|Hn]; [rewrite (rollout_decides _ _ _ _ _ _ _ _ Hi Hg)|rewrite (rollout_waits _ _ _ _ _ _ _ _ Hn); split; [done|]; intros (? & ? & _); by destruct Hn].
  match goal with |- context [stalled ?d ?u ?pr ?s ?t ?rs] => destruct (stalled_cases d u pr s t rs) as [(p & Hp & ->)|[Hno ->]] end.
  - destruct (from_earlier _ _ _ _ _ _ _) eqn:Ef.
    + split; [done|]. intros (_ & _ & p' & Hp' & Ho%from_earlier_iff). assert (p' = p) as -> by (unfold deadline_exceeded in *; naive_solver). congruence.
    + split; [|done]. intros _. split_and!; try done. exists p. split; [done|]. by apply from_earlier_iff.
  - split; [by repeat case_match|]. intros (_ & _ & p & Hp & _). by destruct (Hno p).
Qed.

Lemma checkDeployment_kinds d condition opts rs :
  NotFound (checkDeployment d condition opts rs) = false ∧ one_kind (checkDeployment d condition opts rs) ∧
  (TargetUpdated (checkDeployment d condition opts rs) = true ↔ runs_bundle opts d).
Proof.
  unfold checkDeployment. cbn [TargetUpdated set_TargetUpdated]. rewrite updated_iff. unfold one_kind.
  pose proof (deploymentRollout_kinds d condition (images_ok opts d) (updated_of opts d) (updated_of opts d && o_ImagesOnly opts) (o_Since opts) (o_TargetUpdatedAt opts) rs) as Hk.
  destruct (proj1 (elem_of_cons _ _ _) Hk) as [->|[->|[->|[->|[]%elem_of_nil]%elem_of_cons]%elem_of_cons]%elem_of_cons]; by split_and!.
Qed.

#[local] Opaque checkDeployment.

(** ** Many Deployments *)

Section selected.
Variables (condition : string) (opts : CheckOptions) (rs : replicaSetRevision).
Abbreviation check d := (checkDeployment d condition opts rs).
Abbreviation comparable d := (runsRepository (o_ExpectedImages opts) (d_Images d) = true).

Lemma select_loop_spec items worst n u :
  foldl (select_step condition opts rs) (None, 0, 0) items = (worst, n, u) →
  match worst with
  | None => ∀ d, d ∈ items → Healthy (check d) = true
  | Some w => Healthy w = false ∧ (∃ d, d ∈ items ∧ w = check d) ∧ ∀ d, d ∈ items → Healthy (check d) = false → severity (check d) ≤ severity w
  end ∧
  0 ≤ u ≤ n ∧ (0 < n ↔ ∃ d, d ∈ items ∧ comparable d) ∧ (u = n ↔ ∀ d, d ∈ items → comparable d → TargetUpdated (check d) = true).
Proof.
  revert worst n u. induction items as [|d l IH] using rev_ind; intros worst n u.
  { intros [= <- <- <-]. split; [by intros d ?%elem_of_nil|]. split; [lia|].
    split; split; [lia|by intros (d & ?%elem_of_nil & _)|by intros _ d ?%elem_of_nil|done]. }
  rewrite foldl_app. destruct (foldl _ _ l) as [[w0 n0] u0] eqn:E0. destruct (IH _ _ _ eq_refl) as (Hw & Hb & Hn & Hu). clear IH E0.
  assert (∀ y, y ∈ l ++ [d] ↔ y ∈ l ∨ y = d) as Hel by (intros y; by rewrite elem_of_app, list_elem_of_singleton).
  cbn [foldl]. unfold select_step.
  destruct (if runsRepository _ _ then _ else _) as [n1 u1] eqn:E1. intros [= <- <- <-]. split.
  { change (Healthy (rollout opts rs condition d)) with (Healthy (check d)). destruct (Healthy (check d)) eqn:Eh.
    - destruct w0 as [w|]; [|by intros y [Hy| ->]%Hel; [apply Hw|]]. destruct Hw as (? & (x & Hx & ->) & Hmax).
      split_and!; [done|exists x; rewrite Hel; auto|]. intros y [Hy| ->]%Hel Hyh; [by apply Hmax|congruence].
    - destruct w0 as [w|].
      + destruct Hw as (Hwh & (x & Hx & ->) & Hmax). destruct (Z.ltb_spec (severity (check x)) (severity (check d))).
        * split_and!; [done|exists d; rewrite Hel; auto|]. intros y [Hy| ->]%Hel Hyh; [|lia]. specialize (Hmax y Hy Hyh). lia.
        * split_and!; [done|exists x; rewrite Hel; auto|]. intros y [Hy| ->]%Hel Hyh; [by apply Hmax|lia].
      + split_and!; [done|exists d; rewrite Hel; auto|]. intros y [Hy| ->]%Hel Hyh; [by rewrite Hw in Hyh|lia]. }
  setoid_rewrite Hel. destruct (runsRepository (o_ExpectedImages opts) (d_Images d)) eqn:Er; [destruct (TargetUpdated (check d)) eqn:Et|]; injection E1 as <- <-.
  - split; [lia|]. split; [split; [intros _; exists d; auto|lia]|].
    split; [intros Heq; assert (u0 = n0) as Heq0 by lia|intros Hall; enough (u0 = n0) by lia].
    + intros y [Hy| ->] Hc; [by apply (proj1 Hu)|done].
    + apply Hu. intros y Hy Hc. apply Hall; auto.
  - split; [lia|]. split; [split; [intros _; exists d; auto|lia]|]. split; [lia|]. intros Hall. specialize (Hall d (or_intror eq_refl) Er). congruence.
  - split; [lia|]. rewrite Hn, Hu. split.
    + split; [naive_solver|]. intros (y & [Hy| ->] & Hc); [by exists y|congruence].
    + split; [|naive_solver]. intros Hall y [Hy| ->] Hc; [by apply Hall|congruence].
Qed.

(** What a result says of the Deployments [ds]: it is healthy exactly when there is one
    and every one is rolled out, terminal exactly when one has stalled, progressing
    only when every one is rolled out or on its way, and the target is updated when some
    run the Bundle and none runs another version of it. *)
Record verdict (ds : list Deployment) (st : HealthStatus) : Prop := {
  vd_healthy : Healthy st = true ↔ ds ≠ [] ∧ ∀ d, d ∈ ds → rolled_out condition opts d;
  vd_terminal : Terminal st = true ↔ ∃ d, d ∈ ds ∧ stalled_now opts rs d;
  vd_progressing : Progressing st = true → ∀ d, d ∈ ds → rolled_out condition opts d ∨ Progressing (check d) = true;
  vd_kind : one_kind st;
  vd_updated : TargetUpdated st = true ↔ (∃ d, d ∈ ds ∧ runs_bundle opts d) ∧ ∀ d, d ∈ ds → comparable d → runs_bundle opts d
}.

Lemma one_verdict d : verdict [d] (check d).
Proof.
  destruct (checkDeployment_kinds d condition opts rs) as (Hnf & Hone & Htu).
  assert (∀ P : Deployment → Prop, (∃ x, x ∈ [d] ∧ P x) ↔ P d) as He by (intros P; setoid_rewrite list_elem_of_singleton; naive_solver).
  assert (∀ P : Deployment → Prop, (∀ x, x ∈ [d] → P x) ↔ P d) as Ha by (intros P; setoid_rewrite list_elem_of_singleton; naive_solver).
  split; rewrite ?He, ?Ha, ?checkDeployment_healthy, ?checkDeployment_terminal, ?Htu; try done; naive_solver.
Qed.

(** The most severe result stands for all. *)
Lemma worst_verdict items x (u : bool) :
  x ∈ items → Healthy (check x) = false → (∀ d, d ∈ items → Healthy (check d) = false → severity (check d) ≤ severity (check x)) →
  (u = true ↔ (∃ d, d ∈ items ∧ runs_bundle opts d) ∧ ∀ d, d ∈ items → comparable d → runs_bundle opts d) →
  verdict items (set_TargetUpdated u (check x)).
Proof.
  intros Hx Hh Hmax Hu. assert (∀ d, one_kind (check d)) as Hk by (intros d; by destruct (checkDeployment_kinds d condition opts rs) as (_ & ? & _)).
  split; cbn [Healthy Terminal Progressing NotFound TargetUpdated set_TargetUpdated]; [| | | |done].
  - rewrite Hh. split; [done|]. intros [_ Hall]. apply Hall, (checkDeployment_healthy x condition opts rs) in Hx. congruence.
  - split; [intros Hter; exists x; split; [done|by apply (checkDeployment_terminal x condition opts rs)]|].
    intros (d & Hd & Hs%(checkDeployment_terminal d condition opts rs)).
    assert (Healthy (check d) = false) as Hdh by (destruct (Hk d) as (Hkd & _); destruct (Healthy (check d)); [destruct (Hkd eq_refl) as (_ & ? & _); congruence|done]).
    specialize (Hmax d Hd Hdh). unfold severity in Hmax. rewrite Hs in Hmax. destruct (Terminal (check x)); [done|]. destruct (Progressing (check x)); cbn in Hmax; lia.
  - intros Hp d Hd. destruct (Healthy (check d)) eqn:Ed; [left; by apply checkDeployment_healthy in Ed|right].
    specialize (Hmax d Hd Ed). unfold severity in Hmax. destruct (Hk x) as (_ & Hkp & _). destruct (Hkp Hp) as [Hkt _]. rewrite Hp, Hkt in Hmax.
    destruct (Terminal (check d)); [cbn in Hmax; lia|]. destruct (Progressing (check d)); [done|]. cbn in Hmax. lia.
  - destruct (Hk x) as (? & ? & ?). unfold one_kind. by split_and!.
Qed.

Lemma all_verdict items (u : bool) :
  items ≠ [] → (∀ d, d ∈ items → Healthy (check d) = true) →
  (u = true ↔ (∃ d, d ∈ items ∧ runs_bundle opts d) ∧ ∀ d, d ∈ items → comparable d → runs_bundle opts d) →
  verdict items (set_TargetUpdated u healthy).
Proof.
  intros Hne Hall Hu. split; cbn [Healthy Terminal Progressing NotFound TargetUpdated set_TargetUpdated healthy]; try done.
  - split; [|done]. intros _. split; [done|]. intros d Hd. by apply (checkDeployment_healthy d condition opts rs), Hall.
  - split; [done|]. intros (d & Hd & Hs%(checkDeployment_terminal d condition opts rs)). specialize (Hall d Hd).
    destruct (checkDeployment_kinds d condition opts rs) as (_ & (Hk & _) & _). destruct (Hk Hall) as (_ & ? & _). congruence.
Qed.

Lemma selected_verdict items worst n u :
  items ≠ [] → foldl (select_step condition opts rs) (None, 0, 0) items = (worst, n, u) →
  verdict items (set_TargetUpdated ((0 <? n) && (u =? n)) (default healthy worst)) ∧ NotFound (default healthy worst) = false.
Proof.
  intros Hne (Hw & Hb & Hn & Hu)%select_loop_spec.
  assert ((0 <? n) && (u =? n) = true ↔ (∃ d, d ∈ items ∧ runs_bundle opts d) ∧ ∀ d, d ∈ items → comparable d → runs_bundle opts d) as Htu.
  { assert (∀ d, TargetUpdated (check d) = true ↔ runs_bundle opts d) as Ht by (intros d; apply checkDeployment_kinds).
    rewrite andb_true_iff, Z.ltb_lt, Z.eqb_eq, Hn, Hu. setoid_rewrite Ht. split.
    - intros [(d & Hd & Hc) Hall]. split; [|done]. exists d. auto.
    - intros [(d & Hd & Hr) Hall]. split; [|done]. exists d. split; [done|apply Hr]. }
  destruct worst as [w|]; [|by split; [apply all_verdict|]]. destruct Hw as (Hh & (x & Hx & ->) & Hmax). split; [by apply worst_verdict|]. by destruct (checkDeployment_kinds x condition opts rs).
Qed.
End selected.

(** C19. The verdict on Deployments.  Whether by a name or by labels, the result is healthy
    exactly when there is a Deployment and every one has finished rolling out with its
    condition True and either runs the Bundle's images or runs none of its repositories, so
    that its images are not verified; it is terminal exactly when the rollout of one such
    Deployment stalled, as part of this promotion and not of an earlier one;
    it is progressing only when every one is rolled out or on its way; the kinds
    exclude each other; a Deployment that does not exist is its own result; and the target
    counts as updated exactly when some Deployment runs the Bundle and none runs another
    version of it. *)
Theorem resource_verdict condition selector items get opts rs st :
  Check condition selector (Some items) get opts rs = Some st →
  verdict (override "Available" condition) opts rs (if selector then items else match get with Got d => [d] | _ => [] end) st ∧
  (NotFound st = true ↔ selector = false ∧ get = Missing).
Proof.
  unfold Check. assert (∀ c st, Healthy st = false → Progressing st = false → Terminal st = false → TargetUpdated st = false → verdict c opts rs [] st) as Hnone.
  { intros c x H1 H2 H3 H4. split; rewrite ?H1, ?H2, ?H3, ?H4; try done; unfold one_kind; rewrite ?H1, ?H2, ?H3; try done; split; naive_solver set_solver. }
  destruct selector.
  - destruct items as [|d0 l]; [intros [= <-]; by split; [apply Hnone|]; cbn; naive_solver|].
    destruct (foldl _ _ _) as [[worst n] u] eqn:E. apply selected_verdict in E as [Hv Hnf]; [|done]. intros [= <-]. split; [done|].
    cbn [NotFound set_TargetUpdated]. rewrite Hnf. naive_solver.
  - destruct get as [d| |]; intros [= <-]; [split; [apply one_verdict|]|by split; [apply Hnone|]].
    destruct (checkDeployment_kinds d (override "Available" condition) opts rs) as (-> & _). naive_solver.
Qed.

(** ** Examples *)

Definition demo_options : CheckOptions := mkOptions "" None [mkImage "ghcr.io/app" "v2" ""] true (Some (100 * second)) None None.

Definition demo_deployment (image : string) (available : Z) : Deployment :=
  mkDeployment "prod" "app" 3 "7" [image] (Some 2) 3 2 2 available
    [mkCondition "Available" "True" "" "" None None; mkCondition "Progressing" "True" "NewReplicaSetAvailable" "" None None].

Lemma resource_verdict_witness :
  Check "" true (Some [demo_deployment "ghcr.io/app:v2" 2; demo_deployment "ghcr.io/app:v1" 2]) Missing demo_options None = Some (set_TargetUpdated false progressing) ∧
  Check "" false (Some []) (Got (demo_deployment "ghcr.io/app:v2" 2)) demo_options None = Some (set_TargetUpdated true healthy) ∧
  rolled_out "Available" demo_options (demo_deployment "ghcr.io/app:v2" 2).
Proof.
  split; [vm_compute; reflexivity|]. split; [vm_compute; reflexivity|].
  destruct (resource_verdict "" false [] (Got (demo_deployment "ghcr.io/app:v2" 2)) demo_options None (set_TargetUpdated true healthy)) as [Hv _]; [vm_compute; reflexivity|].
  destruct (proj1 (vd_healthy _ _ _ _ _ Hv) eq_refl) as [_ Hall]. apply Hall. by left.
Defined.

End HealthDeploy.
