(* ===== verification/HealthArgo.v ===== *)
(** * HealthArgo: the health of Argo CD Applications

    Model of the argocd adapter of src/pkg/health/adapter.go (ArgoCDAdapter.Check,
    argoCDRevision, argoCDDescendant, abortedRollout).  An Application is the record of
    the fields that are read; a field that is missing or of another type is empty.  The
    notes in a reason are left out. *)

From stdpp Require Import base gmap strings list.
From Stdlib Require Import Ascii Lia ZArith.
From S2P Require Import Prelude Engine StepStatus Hooks Outbox Bake Transition Cancel HealthImages HealthDeploy.
Import Cancel.Cancel HealthImages.HealthImages HealthDeploy.HealthDeploy.
Import Bake.Bake(HealthStatus, mkHealth, Healthy, Progressing, Terminal, NotFound, TargetUpdated).

Module HealthArgo.

(** ** Data *)

(** The keys revision and revisions of a map. *)
Record Revs := mkRevs { rv_revision : string; rv_revisions : list string }.

(** An entry of status.resources. *)
Record Resource := mkResource { r_kind : string; r_group : string; r_health : string; r_message : string }.

Record Application := mkApp {
  a_Health : string;
  a_Sync : string;
  a_OpPhase : string;
  a_SyncRevs : Revs;
  a_OpResult : Revs;
  a_OpRequested : Revs;
  a_History : list Revs;
  a_Images : list string;
  a_Resources : list Resource
}.

Record argoCDTarget := mkTarget { deployed : bool; operated : bool; unverified : bool; byImages : bool }.

(** ** Operations *)

Definition revisionsOf (m : Revs) : list string := filter (λ v, v ≠ "") (rv_revision m :: rv_revisions m).

Definition hasRevision (revs want : list string) : bool := existsb (λ rev, existsb (SameRevision rev) want) revs.

Definition argoCDImages (app : Application) (expected : list ImageExpectation) : bool * string := checkImages expected (a_Images app).

(** The revisions of the last operation. *)
Definition op_revs (app : Application) : list string :=
  match revisionsOf (a_OpResult app) with [] => revisionsOf (a_OpRequested app) | l => l end.

Definition finished (opPhase : string) : bool := bool_decide (opPhase ∈ ["Succeeded"; "Failed"; "Error"]).

Definition argoCDRevision (app : Application) (opts : CheckOptions) : argoCDTarget :=
  let want := o_ExpectedRevision opts in
  let '(ok, note) := argoCDImages app (o_ExpectedImages opts) in
  if bool_decide (want = "") then
    if negb (bool_decide (o_ExpectedImages opts = [])) then mkTarget ok ok (ok && negb (bool_decide (note = ""))) false
    else mkTarget true true false false
  else
    let syncRevs := revisionsOf (a_SyncRevs app) in
    let operated := hasRevision (op_revs app) [want] in
    let deployed := (operated && finished (a_OpPhase app)) || (bool_decide (a_Sync app = "Synced") && hasRevision syncRevs [want]) ||
                    hasRevision (mjoin (revisionsOf <$> a_History app)) [want] in
    if deployed then mkTarget true operated false false
    else if ok && bool_decide (note = "") && negb (bool_decide (o_ExpectedImages opts = [])) && negb operated
    then mkTarget true (negb (bool_decide (syncRevs = [])) && hasRevision (op_revs app) syncRevs) false true
    else mkTarget false operated false false.

(** The loop of [argoCDDescendant]. *)
Fixpoint descendant (contains : string → option bool) (want : string) (opRevs : list string) (t : argoCDTarget) (revs : list string) : argoCDTarget :=
  match revs with
  | [] => t
  | rev :: revs =>
      if bool_decide (rev = "") || SameRevision rev want then descendant contains want opRevs t revs
      else match contains rev with
           | None => t
           | Some true => mkTarget true (hasRevision opRevs [rev]) false false
           | Some false => descendant contains want opRevs t revs
           end
  end.

Definition argoCDDescendant (app : Application) (opts : CheckOptions) (t : argoCDTarget) : argoCDTarget :=
  match o_RevisionContains opts with
  | None => t
  | Some contains =>
      if bool_decide (o_ExpectedRevision opts = "") then t
      else descendant contains (o_ExpectedRevision opts) (revisionsOf (a_OpResult app)) t (revisionsOf (a_SyncRevs app))
  end.

(** How far the Application has got with the promoted change. *)
Definition target_of (app : Application) (opts : CheckOptions) : argoCDTarget :=
  let target := argoCDRevision app opts in
  if bool_decide (a_Sync app = "Synced") && (negb (deployed target) || byImages target) then
    let d := argoCDDescendant app opts target in
    if (deployed d && negb (byImages d)) || negb (deployed target) then d else target
  else target.

Definition abortedRollout (app : Application) : bool :=
  existsb (λ r, bool_decide (r_kind r = "Rollout") && bool_decide (r_group r = "argoproj.io") && bool_decide (r_health r = "Degraded") &&
    (let l := ToLower (r_message r) in Contains l "rollout is aborted" || Contains l "rolloutaborted" || Contains l "aborted update")) (a_Resources app).

Definition op_failed (app : Application) : bool := bool_decide (a_OpPhase app = "Failed") || bool_decide (a_OpPhase app = "Error").

(** An operation on another revision says nothing once it has failed. *)
Definition op_ok (app : Application) (target : argoCDTarget) : bool :=
  bool_decide (a_OpPhase app = "Succeeded") || bool_decide (a_OpPhase app = "") || (negb (operated target) && op_failed app).

Definition Check (get : read Application) (opts : CheckOptions) : option HealthStatus :=
  match get with
  | ReadError => None
  | Missing => Some missing
  | Got app =>
      let target := target_of app opts in
      Some (if negb (unverified target) && bool_decide (a_Health app = "Degraded") && deployed target
            then (if abortedRollout app then terminal else unhealthy)
            else if negb (unverified target) && op_failed app && operated target then unhealthy
            else if bool_decide (a_Health app = "Healthy") && bool_decide (a_Sync app = "Synced") && op_ok app target && deployed target then healthy
            else progressing)
  end.

(** ** What a check says *)

(** The promoted commit itself is deployed: a finished operation on it, Synced on it, or
    an entry of the history. *)
Definition on_commit (app : Application) (want : string) : Prop :=
  (hasRevision (op_revs app) [want] = true ∧ a_OpPhase app ∈ ["Succeeded"; "Failed"; "Error"]) ∨
  (a_Sync app = "Synced" ∧ hasRevision (revisionsOf (a_SyncRevs app)) [want] = true) ∨
  hasRevision (mjoin (revisionsOf <$> a_History app)) [want] = true.

(** The first revision that contains the promoted commit; the branch history answered for
    the ones before it. *)
Inductive first_containing (contains : string → option bool) (want : string) : list string → string → Prop :=
  | contains_here rev l : SameRevision rev want = false → contains rev = Some true → first_containing contains want (rev :: l) rev
  | contains_later r rev l :
      SameRevision r want = true ∨ contains r = Some false → first_containing contains want l rev → first_containing contains want (r :: l) rev.

(** Synced on a later commit of the branch. *)
Definition on_later (app : Application) (opts : CheckOptions) (rev : string) : Prop :=
  a_Sync app = "Synced" ∧ ∃ contains, o_RevisionContains opts = Some contains ∧
    first_containing contains (o_ExpectedRevision opts) (revisionsOf (a_SyncRevs app)) rev.

(** The Application runs the Bundle's images, and there is something to compare. *)
Definition shows_images (app : Application) (opts : CheckOptions) : Prop :=
  images_match (o_ExpectedImages opts) (a_Images app) ∧ runsRepository (o_ExpectedImages opts) (a_Images app) = true.

(** It runs them, and no operation on the promoted commit says otherwise. *)
Definition by_images (app : Application) (opts : CheckOptions) : Prop :=
  shows_images app opts ∧ hasRevision (op_revs app) [o_ExpectedRevision opts] = false.

(** The promoted change is shown to be deployed: by its commit, by a later commit of the
    branch, or by its images; with no commit to look for, by its images. *)
Definition shown (app : Application) (opts : CheckOptions) : Prop :=
  if bool_decide (o_ExpectedRevision opts = "") then shows_images app opts
  else on_commit app (o_ExpectedRevision opts) ∨ (∃ rev, on_later app opts rev) ∨ by_images app opts.

(** There is nothing that could show it: no commit to look for, and no image of the
    Bundle's repositories.  The change is then assumed to be deployed. *)
Definition assumed (app : Application) (opts : CheckOptions) : Prop :=
  o_ExpectedRevision opts = "" ∧ runsRepository (o_ExpectedImages opts) (a_Images app) = false.

(** Neither a commit nor an image is expected. *)
Definition nothing_expected (opts : CheckOptions) : Prop := o_ExpectedRevision opts = "" ∧ o_ExpectedImages opts = [].

(** The last operation is about the promoted change: it ran on the promoted commit; or
    nothing else than a later synced commit shows the change, and it ran on that commit;
    or only the images show it, and it ran on the synced revision.  Without a commit the
    operations cannot be told apart. *)
Definition about_change (app : Application) (opts : CheckOptions) : Prop :=
  let want := o_ExpectedRevision opts in
  if bool_decide (want = "") then shown app opts ∨ nothing_expected opts
  else hasRevision (op_revs app) [want] = true ∨
    (¬ on_commit app want ∧ ∃ rev, on_later app opts rev ∧ hasRevision (revisionsOf (a_OpResult app)) [rev] = true) ∨
    (¬ on_commit app want ∧ (∀ rev, ¬ on_later app opts rev) ∧ by_images app opts ∧
     hasRevision (op_revs app) (revisionsOf (a_SyncRevs app)) = true).

Lemma first_containing_det contains want l r r' : first_containing contains want l r → first_containing contains want l r' → r = r'.
Proof. intros H. revert r'. induction H as [rev l H1 H2|r0 rev l Hr _ IH]; inversion 1; subst; try done; [naive_solver congruence..|by apply IH]. Qed.

Lemma on_later_det app opts r r' : on_later app opts r → on_later app opts r' → r = r'.
Proof. intros (_ & c & E & H) (_ & c' & E' & H'). rewrite E in E'. injection E' as <-. by eapply first_containing_det. Qed.

Lemma descendant_cases contains want opRevs t revs :
  Forall (λ r, r ≠ "") revs →
  (∃ rev, first_containing contains want revs rev ∧ descendant contains want opRevs t revs = mkTarget true (hasRevision opRevs [rev]) false false) ∨
  ((∀ rev, ¬ first_containing contains want revs rev) ∧ descendant contains want opRevs t revs = t).
Proof.
  induction 1 as [|rev revs Hne _ IH]; simpl; [right; split; [by inversion 1|done]|]. rewrite bool_decide_false by done. cbn [orb].
  destruct (SameRevision rev want) eqn:Es; [|destruct (contains rev) as [[]|] eqn:Ec].
  - destruct IH as [(r & ? & ?)|[Hn ?]]; [left; exists r; split; [by constructor; [left|]|done]|right; split; [|done]].
    intros r. inversion 1; subst; [congruence|by eapply Hn].
  - left. exists rev. split; [by constructor|done].
  - destruct IH as [(r & ? & ?)|[Hn ?]]; [left; exists r; split; [by constructor; [right|]|done]|right; split; [|done]].
    intros r. inversion 1; subst; [congruence|by eapply Hn].
  - right. split; [|done]. intros r. inversion 1; subst; naive_solver congruence.
Qed.

Lemma revisionsOf_ne m : Forall (λ r, r ≠ "") (revisionsOf m).
Proof. apply Forall_forall. intros r Hr. unfold revisionsOf in Hr. by apply list_elem_of_filter in Hr as [? _]. Qed.

Lemma op_failed_finished app : op_failed app = true → finished (a_OpPhase app) = true.
Proof. unfold op_failed, finished. rewrite orb_true_iff, !bool_decide_eq_true. intros [-> | ->]; set_solver. Qed.

Section commit.
Variables (app : Application) (opts : CheckOptions).
Abbreviation want := (o_ExpectedRevision opts).
Abbreviation op_on_commit := (hasRevision (op_revs app) [want]).
Hypothesis Hwant : want ≠ "".

Lemma on_commit_iff :
  (op_on_commit && finished (a_OpPhase app)) || (bool_decide (a_Sync app = "Synced") && hasRevision (revisionsOf (a_SyncRevs app)) [want]) ||
    hasRevision (mjoin (revisionsOf <$> a_History app)) [want] = true ↔ on_commit app want.
Proof. unfold on_commit, finished. rewrite !orb_true_iff, !andb_true_iff, !bool_decide_eq_true. tauto. Qed.

Lemma by_images_iff :
  (let '(ok, note) := argoCDImages app (o_ExpectedImages opts) in
   ok && bool_decide (note = "") && negb (bool_decide (o_ExpectedImages opts = [])) && negb op_on_commit) = true ↔ by_images app opts.
Proof.
  unfold argoCDImages, by_images, shows_images. destruct (checkImages_spec (o_ExpectedImages opts) (a_Images app)) as [H1 H2].
  destruct (checkImages _ _) as [ok note]. simpl in *. rewrite !andb_true_iff, !negb_true_iff, bool_decide_eq_true, bool_decide_eq_false, <- H1. split.
  - intros [[[Hok Hn] He] Hop]. split; [|done]. split; [done|]. by destruct (proj1 (H2 Hok) Hn).
  - intros [[Hok Hr] Hop]. split_and!; [done|by apply H2; [|right]| |done]. intros E. by rewrite E in Hr.
Qed.

Lemma argoCDRevision_cases :
  (on_commit app want ∧ argoCDRevision app opts = mkTarget true op_on_commit false false) ∨
  (¬ on_commit app want ∧ by_images app opts ∧
     argoCDRevision app opts = mkTarget true (hasRevision (op_revs app) (revisionsOf (a_SyncRevs app))) false true) ∨
  (¬ on_commit app want ∧ ¬ by_images app opts ∧ argoCDRevision app opts = mkTarget false op_on_commit false false).
Proof.
  pose proof on_commit_iff as Hc. pose proof by_images_iff as Hb. unfold argoCDRevision.
  destruct (argoCDImages _ _) as [ok note]. rewrite bool_decide_false by done. rewrite <- Hc, <- Hb.
  destruct (_ || hasRevision (mjoin _) _); [by left|right]. destruct (ok && _ && _ && _); [left|right]; split_and!; try done. f_equal.
  destruct (revisionsOf (a_SyncRevs app)); [|done]. symmetry. unfold hasRevision. by induction (op_revs app).
Qed.

(** How far the Application has got, by what shows it. *)
Lemma target_of_cases :
  (on_commit app want ∧ target_of app opts = mkTarget true op_on_commit false false) ∨
  (¬ on_commit app want ∧ ∃ rev, on_later app opts rev ∧ target_of app opts = mkTarget true (hasRevision (revisionsOf (a_OpResult app)) [rev]) false false) ∨
  (¬ on_commit app want ∧ (∀ rev, ¬ on_later app opts rev) ∧ by_images app opts ∧
     target_of app opts = mkTarget true (hasRevision (op_revs app) (revisionsOf (a_SyncRevs app))) false true) ∨
  (¬ on_commit app want ∧ (∀ rev, ¬ on_later app opts rev) ∧ ¬ by_images app opts ∧ target_of app opts = mkTarget false op_on_commit false false).
Proof.
  assert (∀ t, (∃ rev, on_later app opts rev ∧ argoCDDescendant app opts t = mkTarget true (hasRevision (revisionsOf (a_OpResult app)) [rev]) false false) ∨
    ((∀ rev, ¬ on_later app opts rev) ∧ (a_Sync app = "Synced" → argoCDDescendant app opts t = t))) as Hd.
  { intros t. unfold argoCDDescendant, on_later. destruct (o_RevisionContains opts) as [contains|]; [|right; split; [naive_solver|done]].
    rewrite bool_decide_false by done. destruct (decide (a_Sync app = "Synced")) as [Es|]; [|right; split; [naive_solver|done]].
    destruct (descendant_cases contains want (revisionsOf (a_OpResult app)) t _ (revisionsOf_ne (a_SyncRevs app))) as [(r & ? & ->)|[Hn ->]]; [left|right; naive_solver].
    exists r. split; [|done]. split; [done|]. by exists contains. }
  assert (∀ rev, on_later app opts rev → a_Sync app = "Synced") as Hs by (by intros rev []).
  unfold target_of. destruct argoCDRevision_cases as [[Hc ->]|[(Hc & Hb & ->)|(Hc & Hb & ->)]]; cbn [deployed byImages negb orb].
  { left. rewrite andb_false_r. done. }
  all: rewrite andb_true_r; match goal with |- context [argoCDDescendant app opts ?t] => destruct (Hd t) as [(r & Hr & ->)|[Hn Ht]] end;
    right; [left; split; [done|]; exists r; split; [done|]; by rewrite (Hs r Hr)|right].
  - left. case_bool_decide; [rewrite Ht by done|]; by split_and!.
  - right. case_bool_decide; [rewrite Ht by done|]; by split_and!.
Qed.
End commit.

(** What the target says, in terms of what the Application shows. *)
Record target_exact (app : Application) (opts : CheckOptions) (t : argoCDTarget) : Prop := {
  te_deployed : deployed t = true ↔ shown app opts ∨ assumed app opts;
  te_verified : unverified t = false → deployed t = true ↔ shown app opts ∨ nothing_expected opts;
  te_unverified : unverified t = true → operated t = true ∧ o_ExpectedRevision opts = "" ∧ ¬ shown app opts ∧ ¬ nothing_expected opts;
  te_operated : op_failed app = true → unverified t = false → operated t = true ↔ about_change app opts;
  te_images : o_ExpectedRevision opts = "" → operated t = deployed t
}.

(** A change that is shown, with a commit to look for. *)
Lemma mk_exact app opts t :
  shown app opts → deployed t = true → unverified t = false → o_ExpectedRevision opts ≠ "" →
  (op_failed app = true → operated t = true ↔ about_change app opts) → target_exact app opts t.
Proof. intros Hs Hd Hu Hw Ho. split; rewrite ?Hd, ?Hu; try done; tauto. Qed.

Lemma target_of_commit_exact app opts : o_ExpectedRevision opts ≠ "" → target_exact app opts (target_of app opts).
Proof.
  intros Hw. assert (¬ assumed app opts ∧ ¬ nothing_expected opts) as [Ha Hn] by (split; by intros []).
  assert (op_failed app = true → hasRevision (op_revs app) [o_ExpectedRevision opts] = true → on_commit app (o_ExpectedRevision opts)) as Hop.
  { intros Hf%op_failed_finished Ho. apply on_commit_iff. by rewrite Ho, Hf. }
  pose proof (on_later_det app opts) as Hdet.
  assert (shown app opts ↔ on_commit app (o_ExpectedRevision opts) ∨ (∃ rev, on_later app opts rev) ∨ by_images app opts) as Hs
    by (unfold shown; by rewrite bool_decide_false).
  destruct (target_of_cases app opts Hw) as [[Hc ->]|[(Hc & r & Hr & ->)|[(Hc & Hl & Hb & ->)|(Hc & Hl & Hb & ->)]]].
  - apply (mk_exact app opts _ (proj2 Hs (or_introl Hc))); try done. unfold about_change. rewrite bool_decide_false by done. cbn [operated]. tauto.
  - assert (shown app opts) as Hsh by (apply Hs; right; left; by exists r). apply (mk_exact app opts _ Hsh); try done.
    unfold about_change. rewrite bool_decide_false by done. cbn [operated]. intros Hf. split; [right; left; split; [done|by exists r]|].
    intros [Ho|[(_ & r' & Hr' & ?)|(_ & Hno & _)]]; [by destruct Hc; apply Hop| |by destruct (Hno r)]. by rewrite (Hdet r r' Hr Hr').
  - assert (shown app opts) as Hsh by (apply Hs; auto). apply (mk_exact app opts _ Hsh); try done.
    unfold about_change. rewrite bool_decide_false by done. cbn [operated]. intros Hf. split; [by auto 10|].
    intros [Ho|[(_ & r' & Hr' & ?)|(_ & _ & _ & ?)]]; [by destruct Hc; apply Hop|by destruct (Hl r')|done].
  - assert (¬ shown app opts) as Hsh by (rewrite Hs; intros [?|[[r ?]|?]]; [done|by destruct (Hl r)|done]).
    split; simpl; try done; [by split; [|tauto]|by intros _; split; [|tauto]|]. unfold about_change. rewrite bool_decide_false by done. intros Hf _. split; [by left|].
    intros [?|[(_ & r' & Hr' & ?)|(_ & _ & ? & _)]]; [done|by destruct (Hl r')|done].
Qed.

Lemma target_of_images_exact app opts : o_ExpectedRevision opts = "" → target_exact app opts (target_of app opts).
Proof.
  intros Hw. assert (target_of app opts = argoCDRevision app opts) as ->.
  { unfold target_of, argoCDDescendant. rewrite (bool_decide_true (o_ExpectedRevision opts = "")) by done.
    destruct (_ && _); [|done]. by repeat case_match. }
  destruct (checkImages_spec (o_ExpectedImages opts) (a_Images app)) as [H1 H2].
  assert ((checkImages (o_ExpectedImages opts) (a_Images app)).1 = true ↔ shows_images app opts ∨ assumed app opts) as Hok.
  { rewrite H1, images_match_split. unfold shows_images, assumed. naive_solver. }
  unfold argoCDRevision, argoCDImages. destruct (checkImages _ _) as [ok note]. simpl in *. rewrite (bool_decide_true (o_ExpectedRevision opts = "")) by done.
  assert (shown app opts ↔ shows_images app opts) as Hs by (unfold shown; by rewrite bool_decide_true).
  assert (about_change app opts ↔ shown app opts ∨ nothing_expected opts) as Ha by (unfold about_change; by rewrite bool_decide_true).
  case_bool_decide as Ee; cbn [negb].
  - assert (nothing_expected opts) by done. assert (assumed app opts) by (split; [done|by rewrite Ee]).
    split; simpl; rewrite ?Ha, ?Hs; try done; tauto.
  - assert (¬ nothing_expected opts) by (by intros []).
    assert (ok = true → note = "" ↔ shows_images app opts) as Hn.
    { intros E. rewrite (H2 E). unfold shows_images. rewrite <- H1. naive_solver. }
    assert (shows_images app opts → ok = true) by (intros ?; by apply Hok; left).
    destruct ok; [destruct (Hn eq_refl) as [Hn1 Hn2]|]; split; simpl; try done; rewrite ?Ha, ?Hs; try tauto; try (by split; [|tauto]).
    + rewrite negb_false_iff, bool_decide_eq_true. tauto.
    + rewrite negb_true_iff, bool_decide_eq_false. tauto.
    + rewrite negb_false_iff, bool_decide_eq_true. tauto.
Qed.

Lemma target_of_exact app opts : target_exact app opts (target_of app opts).
Proof. destruct (decide (o_ExpectedRevision opts = "")); [by apply target_of_images_exact|by apply target_of_commit_exact]. Qed.

Section verdict.
Variables (app : Application) (opts : CheckOptions).
Abbreviation target := (target_of app opts).

Lemma degraded_counts :
  negb (unverified target) && bool_decide (a_Health app = "Degraded") && deployed target = true ↔
  a_Health app = "Degraded" ∧ (shown app opts ∨ nothing_expected opts).
Proof.
  destruct (target_of_exact app opts) as [_ Hver Hun _ _]. rewrite !andb_true_iff, negb_true_iff, bool_decide_eq_true.
  destruct (unverified target); [destruct (Hun eq_refl) as (_ & _ & ? & ?)|rewrite Hver by done]; naive_solver.
Qed.

Lemma operation_counts :
  negb (unverified target) && op_failed app && operated target = true ↔ op_failed app = true ∧ about_change app opts.
Proof.
  destruct (target_of_exact app opts) as [_ _ Hun Hop _]. rewrite !andb_true_iff, negb_true_iff.
  destruct (unverified target); [destruct (Hun eq_refl) as (_ & Hw & ? & ?)|naive_solver].
  unfold about_change. rewrite bool_decide_true by done. naive_solver.
Qed.

Lemma op_failed_phase : op_failed app = true → a_OpPhase app ∉ ["Succeeded"; ""].
Proof. unfold op_failed. rewrite orb_true_iff, !bool_decide_eq_true. intros [-> | ->]; set_solver. Qed.

Lemma op_ok_iff :
  deployed target = true →
  op_ok app target = true ↔
  a_OpPhase app ∈ ["Succeeded"; ""] ∨ (op_failed app = true ∧ o_ExpectedRevision opts ≠ "" ∧ ¬ about_change app opts).
Proof.
  intros Hd. destruct (target_of_exact app opts) as [_ _ Hun Hop Him]. unfold op_ok.
  rewrite !orb_true_iff, andb_true_iff, negb_true_iff, !bool_decide_eq_true, !elem_of_cons, elem_of_nil.
  destruct (op_failed app); [|naive_solver]. specialize (Hop eq_refl). rewrite Hd in Him.
  destruct (unverified target); [destruct (Hun eq_refl) as (-> & ? & _); naive_solver|]. specialize (Hop eq_refl).
  destruct (operated target); [naive_solver|]. assert (o_ExpectedRevision opts ≠ "") by (intros E; by specialize (Him E)). naive_solver.
Qed.

Lemma healthy_counts :
  bool_decide (a_Health app = "Healthy") && bool_decide (a_Sync app = "Synced") && op_ok app target && deployed target = true ↔
  a_Health app = "Healthy" ∧ a_Sync app = "Synced" ∧ (shown app opts ∨ assumed app opts) ∧
  (a_OpPhase app ∈ ["Succeeded"; ""] ∨ (op_failed app = true ∧ o_ExpectedRevision opts ≠ "" ∧ ¬ about_change app opts)).
Proof.
  pose proof op_ok_iff as Hok. destruct (target_of_exact app opts) as [Hdep _ _ _ _]. rewrite !andb_true_iff, !bool_decide_eq_true, <- Hdep.
  destruct (deployed target); [specialize (Hok eq_refl); tauto|naive_solver].
Qed.
End verdict.


(** ** Examples *)

Definition demo_commit : string := "1a2b3c4d5e6f70819a2b3c4d5e6f70819a2b3c4d".

Definition demo_argo_options : CheckOptions := mkOptions demo_commit None [mkImage "ghcr.io/app" "v2" ""] true None None None.

(** Synced on [rev], with [image] running, after an operation on an older commit failed. *)
Definition demo_application (rev image : string) : Application :=
  mkApp "Healthy" "Synced" "Failed" (mkRevs rev []) (mkRevs "ffff000" []) (mkRevs "" []) [] [image] [].


End HealthArgo.
