(* ===== verification/HealthFlux.v ===== *)
(** * HealthFlux: the health of Flux Kustomizations

    Model of the flux adapter of src/pkg/health/adapter.go (FluxAdapter.check,
    reconcilingAgain, workloads, stalledEarlier, fluxCommit, fluxDeploymentRefs).  The
    Deployments of a Kustomization are checked as in [HealthDeploy]; the regular
    expression that lists the resources of a message is a parameter; notes are left
    out. *)

From stdpp Require Import base gmap strings list.
From Stdlib Require Import Ascii Lia ZArith.
From S2P Require Import Prelude Engine StepStatus Hooks Outbox Bake Transition Cancel HealthImages HealthDeploy.
Import Cancel.Cancel HealthImages.HealthImages HealthDeploy.HealthDeploy.
Import Bake.Bake(HealthStatus, mkHealth, Healthy, Progressing, Terminal, NotFound, TargetUpdated).

Module HealthFlux.

(** ** Data *)

Record FluxCondition := mkFluxCondition { fc_type : string; fc_status : string; fc_reason : string; fc_message : string }.

(** A reference of spec.healthChecks. *)
Record CheckRef := mkCheckRef { cr_apiVersion : string; cr_kind : string; cr_name : string; cr_namespace : string }.

(** [k_Remote]: spec.kubeConfig is set; [k_Inventory]: the ids of status.inventory. *)
Record Kustomization := mkKustomization {
  k_Namespace : string;
  k_Conditions : list FluxCondition;
  k_Observed : option Z;
  k_Generation : option Z;
  k_Applied : string;
  k_Attempted : string;
  k_Remote : bool;
  k_Inventory : list string;
  k_HealthChecks : list CheckRef
}.

Record fluxDeployment := mkFluxDeployment { fd_status : HealthStatus; fd_bundleRepo : bool; fd_bundle : bool }.

(** ** Operations *)

Definition findCondition (conditions : list FluxCondition) (condType : string) : option FluxCondition :=
  snd <$> list_find (λ c, fc_type c = condType) conditions.

(** What follows the last occurrence of [sub]. *)
Fixpoint after_last (sub s : string) : option string :=
  match s with
  | EmptyString => None
  | String _ s' =>
      match after_last sub s' with
      | Some x => Some x
      | None => if HasPrefix s sub then Some (TrimPrefix s sub) else None
      end
  end.

(** The commit of a revision of Flux, and whether it can be compared. *)
Definition fluxCommit (applied : string) : string * bool :=
  match after_last "sha1:" applied with
  | Some x => (x, true)
  | None =>
      if bool_decide (applied = "") || Contains applied "sha256:" then ("", bool_decide (applied = ""))
      else match CutLast "/"%char applied with
           | Some (_, x) => (x, true)
           | None => (applied, true)
           end
  end.

Definition add_ref (refs : list (string * string)) (ref : string * string) : list (string * string) :=
  if negb (bool_decide (ref.2 = "")) && negb (bool_decide (ref ∈ refs)) then refs ++ [ref] else refs.

Definition inventory_ref (id : string) : option (string * string) :=
  match Split "_"%char id with
  | [ns; name; group; kind] => if bool_decide (group = "apps") && bool_decide (kind = "Deployment") then Some (ns, name) else None
  | _ => None
  end.

Definition check_ref (ks : Kustomization) (c : CheckRef) : option (string * string) :=
  if bool_decide (cr_kind c = "Deployment") && (bool_decide (cr_apiVersion c = "") || bool_decide (cr_apiVersion c = "apps/v1"))
  then Some (if bool_decide (cr_namespace c = "") then k_Namespace ks else cr_namespace c, cr_name c) else None.

Definition fluxDeploymentRefs (ks : Kustomization) : list (string * string) :=
  foldl add_ref [] (omap inventory_ref (k_Inventory ks) ++ omap (check_ref ks) (k_HealthChecks ks)).

Definition runsBundle (w : list fluxDeployment) : bool :=
  forallb (λ d, negb (fd_bundleRepo d && negb (fd_bundle d))) w && existsb fd_bundle w.

Definition anyBundle (w : list fluxDeployment) : bool := existsb fd_bundle w.

Definition worst_step (worst : option HealthStatus) (d : fluxDeployment) : option HealthStatus :=
  match worst with
  | None => Some (fd_status d)
  | Some w => if Healthy (fd_status d) then Some w
              else if Healthy w || (severity w <? severity (fd_status d)) then Some (fd_status d) else Some w
  end.

(** The worst result of the Deployments that [keep] selects, and how many they are. *)
Definition worst (keep : fluxDeployment → bool) (w : list fluxDeployment) : HealthStatus * nat :=
  let sel := List.filter keep w in
  match foldl worst_step None sel with
  | None => (healthy, O)
  | Some x => (if (1 <? length sel)%nat && Healthy x then healthy else x, length sel)
  end.

Section flux.
(** The Deployments of the cluster, the revisions of its ReplicaSets, and what the regular
    expression finds in a message: kind, namespace and name. *)
Variable getDeployment : string → string → read Deployment.
Variable rs : replicaSetRevision.
Variable stalled_resources : string → list (string * string * string).
Variable opts : CheckOptions.

Definition checkFluxDeployment (d : Deployment) : HealthStatus :=
  let imagesOK := (checkImages (o_ExpectedImages opts) (d_Images d)).1 in
  deploymentRollout d "Available" imagesOK false (o_ImagesOnly opts && imagesOK && runsRepository (o_ExpectedImages opts) (d_Images d)) (o_Since opts) None rs.

Definition flux_deployment (ref : string * string) : option fluxDeployment :=
  match getDeployment ref.1 ref.2 with
  | ReadError => None
  | Missing => Some (mkFluxDeployment missing false false)
  | Got d =>
      let repo := runsRepository (o_ExpectedImages opts) (d_Images d) in
      let '(ok, note) := checkImages (o_ExpectedImages opts) (d_Images d) in
      Some (mkFluxDeployment (checkFluxDeployment d) repo (repo && ok && bool_decide (note = "")))
  end.

(** [None] when a Deployment cannot be read. *)
Definition workloads (ks : Kustomization) : option (list fluxDeployment) :=
  if k_Remote ks then Some [] else mapM flux_deployment (fluxDeploymentRefs ks).

(** Whether the stall that Flux reports is not one of this promotion. *)
Definition stalledEarlier (ks : Kustomization) (msg : string) : bool :=
  if k_Remote ks then false
  else match stalled_resources msg with
       | [] => false
       | listed =>
           forallb (λ '(kind, ns, name),
             bool_decide (kind = "Deployment") && negb (bool_decide (ns = "")) &&
             match getDeployment ns name with
             | Got d => negb (Terminal (checkFluxDeployment d))
             | _ => false
             end) listed
       end.

(** The Kustomization is Ready=Unknown because Flux reconciles again what it last applied. *)
Definition reconcilingAgain (ks : Kustomization) : HealthStatus :=
  match workloads ks with
  | None => progressing
  | Some w =>
      let '(ours, n) := worst fd_bundleRepo w in
      if (n =? 0)%nat then progressing
      else
        let '(rev, verifiable) := fluxCommit (k_Applied ks) in
        let want := o_ExpectedRevision opts in
        if bool_decide (want = "") || negb verifiable || SameRevision rev want || runsBundle w then
          if Healthy ours && negb (Healthy (worst (λ d, negb (fd_bundleRepo d)) w).1) then progressing else ours
        else progressing
  end.

(** Ready=False. *)
Definition not_ready (ks : Kustomization) (c : FluxCondition) : HealthStatus :=
  let stalled := bool_decide (fc_reason c = "HealthCheckFailed") && Contains (fc_message c) "stalled resources" in
  let '(rev, _) := fluxCommit (k_Attempted ks) in
  let want := o_ExpectedRevision opts in
  if bool_decide (want = "") || SameRevision rev want then
    if negb stalled then unhealthy else if stalledEarlier ks (fc_message c) then progressing else terminal
  else match workloads ks with
       | None => unhealthy
       | Some w =>
           if stalled && existsb (λ d, fd_bundle d && Terminal (fd_status d)) w then terminal
           else if negb (bool_decide (rev = "")) && negb (anyBundle w) then progressing
           else if stalled && stalledEarlier ks (fc_message c) then progressing
           else unhealthy
       end.

(** Ready=True on the observed generation. *)
Definition applied_health (ks : Kustomization) : HealthStatus :=
  let want := o_ExpectedRevision opts in
  let '(rev, verifiable) := fluxCommit (k_Applied ks) in
  if bool_decide (want = "") || negb verifiable || SameRevision rev want then healthy
  else if match o_RevisionContains opts with Some contains => bool_decide (contains rev = Some true) | None => false end then healthy
  else match workloads ks with
       | Some w => if runsBundle w && Healthy (worst (λ _, true) w).1 then healthy else progressing
       | None => progressing
       end.

Definition check (ks : Kustomization) : HealthStatus :=
  match findCondition (k_Conditions ks) "Ready" with
  | None => progressing
  | Some c =>
      if bool_decide (fc_status c = "False") then not_ready ks c
      else match k_Generation ks, k_Observed ks with
           | Some generation, Some observed =>
               if bool_decide (fc_status c = "Unknown") && (observed =? generation) && negb (bool_decide (k_Applied ks = "")) &&
                  bool_decide (k_Attempted ks = k_Applied ks) then reconcilingAgain ks
               else if negb (bool_decide (fc_status c = "True")) || negb (observed =? generation) then progressing
               else applied_health ks
           | _, _ => progressing
           end
  end.

Definition Check (get : read Kustomization) : option HealthStatus :=
  match get with
  | ReadError => None
  | Missing => Some missing
  | Got ks => Some (check ks)
  end.

(** ** The worst of many *)

Lemma worst_loop l :
  match foldl worst_step None l with
  | None => l = []
  | Some x => l ≠ [] ∧ (∃ d, d ∈ l ∧ x = fd_status d) ∧ (Healthy x = true ↔ ∀ d, d ∈ l → Healthy (fd_status d) = true) ∧
      (∀ d, d ∈ l → Healthy (fd_status d) = false → severity (fd_status d) ≤ severity x)
  end.
Proof.
  induction l as [|d l IH] using rev_ind; [done|]. rewrite foldl_app. cbn [foldl].
  assert (∀ y, y ∈ l ++ [d] ↔ y ∈ l ∨ y = d) as Hel by (intros y; by rewrite elem_of_app, list_elem_of_singleton).
  assert (l ++ [d] ≠ []) as Hne by (by destruct l).
  destruct (foldl worst_step None l) as [x|]; cbn [worst_step].
  - destruct IH as (_ & (d0 & Hd0 & ->) & Hall & Hmax). destruct (Healthy (fd_status d)) eqn:Ed; [|destruct (_ || _) eqn:Es].
    + split_and!; [done|exists d0; rewrite Hel; auto|rewrite Hall; setoid_rewrite Hel; naive_solver|].
      intros y [Hy| ->]%Hel Hyh; [by apply Hmax|congruence].
    + split_and!; [done|exists d; rewrite Hel; auto|setoid_rewrite Hel; naive_solver congruence|].
      intros y [Hy| ->]%Hel Hyh; [|done]. apply orb_true_iff in Es as [Es|Es%Z.ltb_lt].
      * rewrite (proj1 Hall Es y Hy) in Hyh. done.
      * specialize (Hmax y Hy Hyh). lia.
    + apply orb_false_iff in Es as [Es Es2%Z.ltb_ge]. split_and!; [done|exists d0; rewrite Hel; auto| |].
      * rewrite Es. split; [done|]. intros Hq. specialize (Hq d). rewrite Hel in Hq. rewrite Hq in Ed by auto. done.
      * intros y [Hy| ->]%Hel Hyh; [by apply Hmax|done].
  - subst l. split_and!; [done|exists d; rewrite Hel; auto| |].
    + setoid_rewrite Hel. split; [intros H0 y [?%elem_of_nil| ->]; done|]. intros Hq. apply Hq. auto.
    + by intros y [?%elem_of_nil| ->]%Hel.
Qed.

Lemma worst_spec keep w st n :
  worst keep w = (st, n) →
  (n = O ↔ ∀ d, d ∈ w → keep d = false) ∧ (Healthy st = true ↔ ∀ d, d ∈ w → keep d = true → Healthy (fd_status d) = true) ∧
  (Healthy st = false → (∃ d, d ∈ w ∧ keep d = true ∧ st = fd_status d) ∧
     ∀ d, d ∈ w → keep d = true → Healthy (fd_status d) = false → severity (fd_status d) ≤ severity st).
Proof.
  unfold worst. pose proof (worst_loop (List.filter keep w)) as Hl.
  assert (∀ d, d ∈ List.filter keep w ↔ d ∈ w ∧ keep d = true) as Hel by (intros d; by rewrite !list_elem_of_In, List.filter_In).
  destruct (foldl _ _ _) as [x|].
  - destruct Hl as (Hne & (d & Hd & Hx) & Hall & Hmax). intros [= <- <-].
    assert (Healthy (if (1 <? length (List.filter keep w))%nat && Healthy x then healthy else x) = Healthy x) as Hsame by (destruct (_ && _) eqn:E; [apply andb_true_iff in E as [_ ->]|]; done).
    rewrite Hsame. split; [|split].
    + split; [by intros E%length_zero_iff_nil|]. intros Hno. apply Hel in Hd as [Hd Hk]. by rewrite Hno in Hk.
    + rewrite Hall. setoid_rewrite Hel. naive_solver.
    + intros Hh. rewrite Hh, andb_false_r. split; [exists d; apply Hel in Hd as [Hd Hk]; by split_and!|]. intros y Hy Hk. apply Hmax, Hel. done.
  - intros [= <- <-]. rewrite Hl in Hel.
    assert (∀ d, d ∈ w → keep d = false) as Hno by (intros d Hd; apply not_true_iff_false; intros Hk; by apply (elem_of_nil d), Hel).
    split; [done|]. split; [|done]. split; [|done]. intros _ d Hd Hk. by rewrite Hno in Hk.
Qed.

Lemma worst_kind keep w st n : worst keep w = (st, n) → (∀ d, d ∈ w → one_kind (fd_status d)) → one_kind st.
Proof.
  intros Hw Hk. unfold worst in Hw. pose proof (worst_loop (List.filter keep w)) as Hl.
  assert (one_kind healthy) as Hhe by (unfold one_kind; by split_and!).
  destruct (foldl _ _ _) as [x|]; injection Hw as <- <-; [|done]. destruct Hl as (_ & (d & Hd & ->) & _).
  apply list_elem_of_In, List.filter_In in Hd as [Hd _]. case_match; [done|]. apply Hk. by apply list_elem_of_In.
Qed.

(** ** What a check says *)

Abbreviation ready_is ks s := (∃ c, findCondition (k_Conditions ks) "Ready" = Some c ∧ fc_status c = s%string).

(** A failure: neither healthy nor on its way. *)
Abbreviation failed st := (Healthy st = false ∧ Progressing st = false).

(** Flux has reconciled the current spec. *)
Definition reconciled (ks : Kustomization) : Prop := is_Some (k_Generation ks) ∧ k_Observed ks = k_Generation ks.

(** The revision is the promoted commit, or there is none to compare. *)
Definition is_promoted (revision : string) : Prop :=
  o_ExpectedRevision opts = "" ∨ (fluxCommit revision).2 = false ∨ SameRevision (fluxCommit revision).1 (o_ExpectedRevision opts) = true.

(** The branch says that the applied commit contains the promoted one. *)
Definition contains_promoted (ks : Kustomization) : Prop :=
  ∃ contains, o_RevisionContains opts = Some contains ∧ contains (fluxCommit (k_Applied ks)).1 = Some true.

(** The Deployments run the Bundle's images: some do, and none another version. *)
Definition deployments_run_bundle (w : list fluxDeployment) : Prop :=
  (∃ d, d ∈ w ∧ fd_bundle d = true) ∧ ∀ d, d ∈ w → fd_bundleRepo d = true → fd_bundle d = true.

(** The progress deadline is one of this promotion: the ReplicaSet it names is the current
    one and runs the promoted images, or the deadline was set since the check started. *)
Definition of_this_promotion (x : Deployment) (p : DeploymentCondition) : Prop :=
  let timely := ∀ since, o_Since opts = Some since → truncate_second since ≤ set_at p in
  match deadlineOfReplicaSet x p rs with
  | Some e => e = "" ∧ ((runs_bundle opts x ∧ o_ImagesOnly opts = true) ∨ timely)
  | None => timely
  end.

(** The rollout of [x] in this promotion has stalled. *)
Definition stalled_here (x : Deployment) : Prop :=
  accepted opts x ∧ d_Generation x ≤ d_ObservedGeneration x ∧ ∃ p, deadline_exceeded x p ∧ of_this_promotion x p.

(** [d] is the Deployment [x], or stands for one that is missing. *)
Definition stands_for (d : fluxDeployment) (x : Deployment) : Prop :=
  (fd_bundle d = true ↔ runs_bundle opts x) ∧ (fd_bundleRepo d = true ↔ ¬ not_comparable opts x) ∧
  (Healthy (fd_status d) = true ↔ rolled_out "Available" opts x) ∧ (Terminal (fd_status d) = true ↔ stalled_here x) ∧ one_kind (fd_status d).

(** Flux failed on the promoted commit, or there is no commit to tell. *)
Definition on_promoted (ks : Kustomization) : Prop :=
  o_ExpectedRevision opts = "" ∨ SameRevision (fluxCommit (k_Attempted ks)).1 (o_ExpectedRevision opts) = true.

(** Flux gave up because of stalled resources. *)
Definition flux_stalled (c : FluxCondition) : Prop :=
  fc_reason c = "HealthCheckFailed" ∧ Contains (fc_message c) "stalled resources" = true.

(** Everything Flux names as stalled is a Deployment of this cluster that has not stalled in
    this promotion. *)
Definition stalled_before (ks : Kustomization) (c : FluxCondition) : Prop :=
  k_Remote ks = false ∧ stalled_resources (fc_message c) ≠ [] ∧
  ∀ kind ns name, (kind, ns, name) ∈ stalled_resources (fc_message c) →
    kind = "Deployment" ∧ ns ≠ "" ∧ ∃ x, getDeployment ns name = Got x ∧ ¬ stalled_here x.

(** A Deployment that runs the Bundle has stalled in this promotion. *)
Definition bundle_stalled (ks : Kustomization) : Prop :=
  ∃ w d, workloads ks = Some w ∧ d ∈ w ∧ fd_bundle d = true ∧ Terminal (fd_status d) = true.

(** A failure of Flux on another commit is about the promoted change: the Deployments
    cannot be read, a Deployment that runs the Bundle stalled, or one runs it or no commit
    was attempted, and no earlier stall explains the failure. *)
Definition other_counts (ks : Kustomization) (c : FluxCondition) : Prop :=
  workloads ks = None ∨ (flux_stalled c ∧ bundle_stalled ks) ∨
  (((fluxCommit (k_Attempted ks)).1 = "" ∨ ∃ w d, workloads ks = Some w ∧ d ∈ w ∧ fd_bundle d = true) ∧ ¬ (flux_stalled c ∧ stalled_before ks c)).

(** Flux reconciles again what it last applied, and the Deployments [w] say how the promoted
    change does. *)
Definition again (ks : Kustomization) (w : list fluxDeployment) : Prop :=
  ready_is ks "Unknown" ∧ reconciled ks ∧ k_Applied ks ≠ "" ∧ k_Attempted ks = k_Applied ks ∧ workloads ks = Some w ∧
  (∃ d, d ∈ w ∧ fd_bundleRepo d = true) ∧ (is_promoted (k_Applied ks) ∨ deployments_run_bundle w).

Lemma runsBundle_iff w : runsBundle w = true ↔ deployments_run_bundle w.
Proof.
  unfold runsBundle, deployments_run_bundle. rewrite andb_true_iff, forallb_forall, existsb_exists. setoid_rewrite <- list_elem_of_In. split.
  - intros [Hall He]. split; [done|]. intros d Hd Hr. specialize (Hall d Hd). rewrite Hr in Hall. by destruct (fd_bundle d).
  - intros [He Hall]. split; [|done]. intros d Hd. specialize (Hall d Hd). destruct (fd_bundleRepo d), (fd_bundle d); naive_solver.
Qed.

Lemma anyBundle_iff w : anyBundle w = true ↔ ∃ d, d ∈ w ∧ fd_bundle d = true.
Proof. unfold anyBundle. rewrite existsb_exists. by setoid_rewrite <- list_elem_of_In. Qed.

(** *** One Deployment *)

Lemma checkFluxDeployment_healthy d : Healthy (checkFluxDeployment d) = true ↔ rolled_out "Available" opts d.
Proof. apply deploymentRollout_healthy. Qed.

Lemma since_iff p : deadlineFromEarlierRollout p false (o_Since opts) None = false ↔ ∀ since, o_Since opts = Some since → truncate_second since ≤ set_at p.
Proof.
  unfold deadlineFromEarlierRollout. destruct (o_Since opts) as [since|]; [|naive_solver].
  destruct (Z.ltb_spec (set_at p) (truncate_second since)); cbn [andb]; [|naive_solver]. split; [done|]. intros Hs. specialize (Hs since eq_refl). lia.
Qed.

Lemma of_this_promotion_iff x p :
  from_earlier x p false (o_ImagesOnly opts && images_ok opts x && runsRepository (o_ExpectedImages opts) (d_Images x)) (o_Since opts) None rs = false ↔
  of_this_promotion x p.
Proof.
  unfold from_earlier, of_this_promotion. rewrite <- andb_assoc. destruct (deadlineOfReplicaSet x p rs) as [e|]; [|apply since_iff].
  case_bool_decide; [|naive_solver]. rewrite andb_false_iff, negb_false_iff, andb_true_iff, updated_iff, since_iff. naive_solver.
Qed.

Lemma checkFluxDeployment_terminal x : Terminal (checkFluxDeployment x) = true ↔ stalled_here x.
Proof.
  unfold checkFluxDeployment, stalled_here. set (pr := _ && _ && _).
  destruct (applied_dec opts x) as [[Hi Hg]|Hn]; [rewrite (rollout_decides _ _ _ _ _ _ _ _ Hi Hg)|rewrite (rollout_waits _ _ _ _ _ _ _ _ Hn); split; [done|]; intros (? & ? & _); by destruct Hn].
  match goal with |- context [stalled ?d ?u ?pr ?s ?t ?rs] => destruct (stalled_cases d u pr s t rs) as [(p & Hp & ->)|[Hno ->]] end.
  - destruct (from_earlier _ _ _ _ _ _ _) eqn:Ef.
    + split; [done|]. intros (_ & _ & p' & Hp' & Ho%of_this_promotion_iff). assert (p' = p) as -> by (unfold deadline_exceeded in *; naive_solver). unfold pr in Ef. congruence.
    + split; [|done]. intros _. split_and!; try done. exists p. split; [done|]. by apply of_this_promotion_iff.
  - split; [by repeat case_match|]. intros (_ & _ & p & Hp & _). by destruct (Hno p).
Qed.

Lemma checkFluxDeployment_kind x : one_kind (checkFluxDeployment x).
Proof.
  unfold checkFluxDeployment. pose proof (deploymentRollout_kinds x "Available" (images_ok opts x) false
    (o_ImagesOnly opts && images_ok opts x && runsRepository (o_ExpectedImages opts) (d_Images x)) (o_Since opts) None rs) as Hk.
  unfold one_kind. destruct (proj1 (elem_of_cons _ _ _) Hk) as [->|[->|[->|[->|[]%elem_of_nil]%elem_of_cons]%elem_of_cons]%elem_of_cons]; by split_and!.
Qed.

(** What the Deployments of a Kustomization are. *)
Lemma workloads_spec ks w d :
  workloads ks = Some w → d ∈ w →
  ∃ ns name, (ns, name) ∈ fluxDeploymentRefs ks ∧
    ((getDeployment ns name = Missing ∧ d = mkFluxDeployment missing false false) ∨ ∃ x, getDeployment ns name = Got x ∧ stands_for d x).
Proof.
  unfold workloads. destruct (k_Remote ks); [by intros [= <-] ?%elem_of_nil|]. intros Hm Hd.
  apply mapM_Some in Hm. apply list_elem_of_lookup in Hd as [i Hi].
  destruct (Forall2_lookup_r _ _ _ _ _ Hm Hi) as ([ns name] & Href & Hf). exists ns, name. split; [by apply list_elem_of_lookup_2 in Href|].
  unfold flux_deployment in Hf. cbn [fst snd] in Hf. destruct (getDeployment ns name) as [x| |] eqn:E; [right|left; by injection Hf as <-|done].
  exists x. split; [done|]. pose proof (checkImages_spec (o_ExpectedImages opts) (d_Images x)) as [H1 H2].
  destruct (checkImages _ _) as [ok note]. injection Hf as <-. simpl in *. unfold stands_for, not_comparable, runs_bundle. cbn [fd_bundle fd_bundleRepo fd_status].
  split_and!; [|by rewrite not_false_iff_true|apply checkFluxDeployment_healthy|apply checkFluxDeployment_terminal|apply checkFluxDeployment_kind].
  rewrite !andb_true_iff, bool_decide_eq_true, <- H1. naive_solver.
Qed.

Lemma status_kind ks w d : workloads ks = Some w → d ∈ w → one_kind (fd_status d).
Proof.
  intros Hw Hd. destruct (workloads_spec ks w d Hw Hd) as (ns & name & _ & [[_ ->]|(x & _ & _ & _ & _ & _ & ?)]); [by unfold one_kind; split_and!|done].
Qed.

Lemma stalledEarlier_iff ks c : stalledEarlier ks (fc_message c) = true ↔ stalled_before ks c.
Proof.
  unfold stalledEarlier, stalled_before. destruct (k_Remote ks); [naive_solver|].
  destruct (stalled_resources (fc_message c)) as [|r l]; [naive_solver|]. rewrite forallb_forall. setoid_rewrite <- list_elem_of_In. split.
  - intros H. split_and!; [done|done|]. intros kind ns name Hin. specialize (H _ Hin). cbn in H. apply andb_true_iff in H as [[Hk Hn]%andb_true_iff Hd]. bools.
    split_and!; [done|done|]. destruct (getDeployment ns name) as [x| |]; [|done..]. exists x. split; [done|]. rewrite <- checkFluxDeployment_terminal.
    apply negb_true_iff in Hd. congruence.
  - intros (_ & _ & H) [[kind ns] name] Hin. destruct (H kind ns name Hin) as (-> & Hn & x & -> & Hx). rewrite bool_decide_true, bool_decide_false by done. cbn.
    apply negb_true_iff, not_true_iff_false. by rewrite checkFluxDeployment_terminal.
Qed.

(** *** The three states of Ready *)

(** Flux reconciles again: the Deployments of the Bundle's repositories decide. *)
Lemma reconcilingAgain_decides ks w :
  again ks w →
  (Healthy (reconcilingAgain ks) = true ↔ ∀ d, d ∈ w → Healthy (fd_status d) = true) ∧
  (failed (reconcilingAgain ks) ↔ ∃ d, d ∈ w ∧ fd_bundleRepo d = true ∧ failed (fd_status d)) ∧
  (Terminal (reconcilingAgain ks) = true ↔ ∃ d, d ∈ w ∧ fd_bundleRepo d = true ∧ Terminal (fd_status d) = true).
Proof.
  intros (_ & _ & _ & _ & Hw & (d0 & Hd0 & Hr0) & Hrev). unfold reconcilingAgain. rewrite Hw.
  assert (∀ d, d ∈ w → one_kind (fd_status d)) as Hkind by (intros d; by apply (status_kind ks)).
  destruct (worst fd_bundleRepo w) as [ours n] eqn:Eo. pose proof (worst_kind _ _ _ _ Eo Hkind) as (Hk & Hkp & _).
  apply worst_spec in Eo as (Hn & Hall & Hone).
  destruct (Nat.eqb_spec n 0) as [->|Hn0]; [by rewrite (proj1 Hn eq_refl d0 Hd0) in Hr0|].
  unfold is_promoted in Hrev. destruct (fluxCommit (k_Applied ks)) as [rev ver]. cbn [fst snd] in Hrev.
  assert (bool_decide (o_ExpectedRevision opts = "") || negb ver || SameRevision rev (o_ExpectedRevision opts) || runsBundle w = true) as ->.
  { rewrite !orb_true_iff, bool_decide_eq_true, negb_true_iff, runsBundle_iff. tauto. }
  destruct (worst (λ d, negb (fd_bundleRepo d)) w) as [other m] eqn:Ew. apply worst_spec in Ew as (_ & Hoth & _). cbn [fst].
  destruct (Healthy ours) eqn:Eh; cbn [andb].
  - assert (∀ d, d ∈ w → fd_bundleRepo d = true → Healthy (fd_status d) = true) as Hgood by (by apply Hall).
    assert (∀ d, d ∈ w → fd_bundleRepo d = true → Terminal (fd_status d) = false) as Hnt.
    { intros d Hd Hr. destruct (Hkind d Hd) as [Hkd _]. by destruct (Hkd (Hgood d Hd Hr)) as (_ & ? & _). }
    assert (Healthy other = true ↔ ∀ d, d ∈ w → Healthy (fd_status d) = true) as Hoa.
    { rewrite Hoth. split; [|naive_solver]. intros Ho d Hd. destruct (fd_bundleRepo d) eqn:Ed; [by apply Hgood|]. apply Ho; [done|]. by rewrite Ed. }
    rewrite <- Hoa. assert (¬ ∃ d, d ∈ w ∧ fd_bundleRepo d = true ∧ failed (fd_status d)) as Hnf.
    { intros (d & Hd & Hr & Hf & _). by rewrite (Hgood d Hd Hr) in Hf. }
    assert (¬ ∃ d, d ∈ w ∧ fd_bundleRepo d = true ∧ Terminal (fd_status d) = true) as Hnt'.
    { intros (d & Hd & Hr & Hf). by rewrite (Hnt d Hd Hr) in Hf. }
    destruct (Hk eq_refl) as (Hop & Hot & _). destruct (Healthy other); cbn [negb]; rewrite ?Eh, ?Hop, ?Hot; cbn [Healthy Progressing Terminal progressing]; clear -Hnf Hnt'; intuition congruence.
  - destruct (Hone eq_refl) as [(d & Hd & Hr & Hx) Hmax]. split_and!; [| split| split].
    + rewrite Eh. split; [done|]. intros Ha. rewrite Hx, (Ha d Hd) in Eh. done.
    + intros [_ Hp]. exists d. rewrite <- Hx. done.
    + intros (d' & Hd' & Hr' & Hf1 & Hf2). split; [done|]. apply not_true_iff_false. intros Hp. specialize (Hmax d' Hd' Hr' Hf1).
      destruct (Hkp Hp) as [Ht _]. unfold severity in Hmax. rewrite Hf2, Ht, Hp in Hmax. destruct (Terminal (fd_status d')); cbn in Hmax; lia.
    + intros Ht. exists d. by rewrite <- Hx.
    + intros (d' & Hd' & Hr' & Ht). destruct (Hkind d' Hd') as [Hk' _].
      assert (Healthy (fd_status d') = false) as Hh' by (apply not_true_iff_false; intros E; destruct (Hk' E) as (_ & ? & _); congruence).
      specialize (Hmax d' Hd' Hr' Hh'). unfold severity in Hmax. rewrite Ht in Hmax.
      destruct (Terminal ours); [done|]. destruct (Progressing ours); cbn in Hmax; lia.
Qed.

(** Otherwise it waits. *)
Lemma reconcilingAgain_cases ks :
  ready_is ks "Unknown" → reconciled ks → k_Applied ks ≠ "" → k_Attempted ks = k_Applied ks →
  (∃ w, again ks w) ∨ ((∀ w, ¬ again ks w) ∧ reconcilingAgain ks = progressing).
Proof.
  intros H1 H2 H3 H4. unfold reconcilingAgain, again, is_promoted.
  destruct (workloads ks) as [w|] eqn:Hw; [|right; split; [by intros w (_ & _ & _ & _ & ? & _)|done]].
  destruct (worst fd_bundleRepo w) as [ours n] eqn:Eo. apply worst_spec in Eo as (Hn0 & _ & _).
  destruct (Nat.eqb_spec n 0) as [->|Hne].
  { right. split; [|done]. intros w' (_ & _ & _ & _ & [= <-] & (d & Hd & Hr) & _). by rewrite (proj1 Hn0 eq_refl d Hd) in Hr. }
  destruct (fluxCommit (k_Applied ks)) as [rev ver]. cbn [fst snd].
  destruct (_ || runsBundle w) eqn:Er; [left; exists w|right; split; [|done]].
  - split_and!; try done.
    + destruct (decide (Exists (λ d, fd_bundleRepo d = true) w)) as [He|He]; [by apply Exists_exists in He|].
      destruct Hne. apply Hn0. intros d Hd. apply not_true_iff_false. intros Hk. apply He, Exists_exists. by exists d.
    + rewrite <- runsBundle_iff. rewrite !orb_true_iff, bool_decide_eq_true, negb_true_iff in Er. tauto.
  - intros w' (_ & _ & _ & _ & [= <-] & _ & Hrev). rewrite <- runsBundle_iff in Hrev. apply not_true_iff_false in Er. apply Er.
    rewrite !orb_true_iff, bool_decide_eq_true, negb_true_iff. tauto.
Qed.

(** Ready=False. *)
Lemma not_ready_decides ks c :
  Healthy (not_ready ks c) = false ∧
  (Progressing (not_ready ks c) = false ↔
     (on_promoted ks ∧ ¬ (flux_stalled c ∧ stalled_before ks c)) ∨ (¬ on_promoted ks ∧ other_counts ks c)) ∧
  (Terminal (not_ready ks c) = true ↔
     flux_stalled c ∧ ((on_promoted ks ∧ ¬ stalled_before ks c) ∨ (¬ on_promoted ks ∧ bundle_stalled ks))).
Proof.
  pose proof (stalledEarlier_iff ks c) as He.
  assert (bool_decide (fc_reason c = "HealthCheckFailed") && Contains (fc_message c) "stalled resources" = true ↔ flux_stalled c) as Hs
    by (unfold flux_stalled; by rewrite andb_true_iff, bool_decide_eq_true).
  unfold not_ready, other_counts, on_promoted, bundle_stalled. destruct (fluxCommit (k_Attempted ks)) as [rev ver]. cbn [fst].
  assert (bool_decide (o_ExpectedRevision opts = "") || SameRevision rev (o_ExpectedRevision opts) = true ↔
    o_ExpectedRevision opts = "" ∨ SameRevision rev (o_ExpectedRevision opts) = true) as Ho by (by rewrite orb_true_iff, bool_decide_eq_true).
  destruct (bool_decide (o_ExpectedRevision opts = "") || _); [|destruct (workloads ks) as [w|]].
  - rewrite <- Ho, <- He, <- Hs. destruct (bool_decide _ && _), (stalledEarlier _ _); cbn [negb]; (split; [done|]); split; cbn; intuition congruence.
  - assert (existsb (λ d, fd_bundle d && Terminal (fd_status d)) w = true ↔
      ∃ w' d, Some w = Some w' ∧ d ∈ w' ∧ fd_bundle d = true ∧ Terminal (fd_status d) = true) as Hb.
    { rewrite existsb_exists. setoid_rewrite andb_true_iff. setoid_rewrite <- list_elem_of_In. naive_solver. }
    assert (anyBundle w = true ↔ ∃ w' d, Some w = Some w' ∧ d ∈ w' ∧ fd_bundle d = true) as Ha by (rewrite anyBundle_iff; naive_solver).
    rewrite <- Hb, <- Ha, <- Ho, <- He, <- Hs. clear Hb Ha Ho He Hs.
    destruct (decide (rev = "")) as [Er|Er]; [rewrite (bool_decide_true (rev = "")) by done|rewrite (bool_decide_false (rev = "")) by done].
    all: destruct (bool_decide (fc_reason c = _) && _), (existsb _ w), (anyBundle w), (stalledEarlier _ _); cbn [negb andb];
      (split; [done|]); split; cbn; intuition congruence.
  - rewrite <- Ho, <- He, <- Hs. split; [done|]. split; [intuition congruence|]. cbn. split; [done|]. intros (_ & [[? _]|[_ (w & d & ? & _)]]); congruence.
Qed.

(** Ready=True on the observed generation. *)
Lemma applied_health_decides ks :
  (Healthy (applied_health ks) = true ↔ is_promoted (k_Applied ks) ∨ contains_promoted ks ∨
     ∃ w, workloads ks = Some w ∧ deployments_run_bundle w ∧ ∀ d, d ∈ w → Healthy (fd_status d) = true) ∧
  ¬ failed (applied_health ks) ∧ Terminal (applied_health ks) = false.
Proof.
  split; [|unfold applied_health; split; [intros [H1 H2]; revert H1 H2|]; by repeat case_match].
  assert (∀ w, Healthy (worst (λ _, true) w).1 = true ↔ ∀ d, d ∈ w → Healthy (fd_status d) = true) as Hall.
  { intros w. destruct (worst (λ _, true) w) as [st n] eqn:Ew. apply worst_spec in Ew as (_ & Hall & _). cbn [fst]. rewrite Hall. naive_solver. }
  unfold applied_health, is_promoted, contains_promoted. destruct (fluxCommit (k_Applied ks)) as [rev ver]. cbn [fst snd].
  assert (bool_decide (o_ExpectedRevision opts = "") || negb ver || SameRevision rev (o_ExpectedRevision opts) = true ↔
    o_ExpectedRevision opts = "" ∨ ver = false ∨ SameRevision rev (o_ExpectedRevision opts) = true) as Hp
    by (rewrite !orb_true_iff, bool_decide_eq_true, negb_true_iff; tauto).
  assert (match o_RevisionContains opts with Some contains => bool_decide (contains rev = Some true) | None => false end = true ↔
    ∃ contains, o_RevisionContains opts = Some contains ∧ contains rev = Some true) as Hc.
  { destruct (o_RevisionContains opts); [rewrite bool_decide_eq_true|]; naive_solver. }
  rewrite <- Hp, <- Hc. destruct (_ || _ || _); [naive_solver|]. destruct (match o_RevisionContains opts with Some _ => _ | None => _ end); [naive_solver|].
  destruct (workloads ks) as [w|]; [|naive_solver]. specialize (Hall w). pose proof (runsBundle_iff w) as Hb.
  destruct (runsBundle w), (Healthy (worst _ w).1); cbn; naive_solver.
Qed.

Lemma check_cases ks :
  (∃ c, findCondition (k_Conditions ks) "Ready" = Some c ∧ fc_status c = "False" ∧ check ks = not_ready ks c) ∨
  (ready_is ks "Unknown" ∧ reconciled ks ∧ k_Applied ks ≠ "" ∧ k_Attempted ks = k_Applied ks ∧ check ks = reconcilingAgain ks) ∨
  (ready_is ks "True" ∧ reconciled ks ∧ check ks = applied_health ks) ∨
  (¬ ready_is ks "False" ∧ (∀ w, ¬ again ks w) ∧ ¬ (ready_is ks "True" ∧ reconciled ks) ∧ check ks = progressing).
Proof.
  unfold check, again, reconciled. destruct (findCondition (k_Conditions ks) "Ready") as [c|] eqn:Ec; [|do 3 right; split_and!; naive_solver].
  case_bool_decide as Ef; [left; eauto|].
  destruct (k_Generation ks) as [g|], (k_Observed ks) as [o|]; try (do 3 right; split_and!; [naive_solver|by intros w (_ & [[? ?] ?] & _)|by intros [_ [[? ?] ?]]|done]).
  destruct (Z.eqb_spec o g) as [->|Hne].
  - destruct (_ && bool_decide (k_Attempted ks = k_Applied ks)) eqn:Eu.
    + rewrite !andb_true_iff in Eu. destruct Eu as [[[Eu _] Hap] Ea]. bools. right. left. split_and!; eauto.
    + assert (¬ (fc_status c = "Unknown" ∧ k_Applied ks ≠ "" ∧ k_Attempted ks = k_Applied ks)) as Hno.
      { intros (Hst & Ha & Hat). rewrite Hst, (bool_decide_false (k_Applied ks = _)), !bool_decide_true in Eu by done. done. }
      destruct (decide (fc_status c = "True")) as [Et|Et]; [rewrite bool_decide_true by done|rewrite bool_decide_false by done]; cbn [negb orb].
      * do 2 right. left. split_and!; eauto.
      * do 3 right. split_and!; [naive_solver| |naive_solver|done].
        intros w ((c' & [= <-] & ?) & _ & ? & ? & _). by apply Hno.
  - rewrite (andb_false_r (bool_decide _)), !andb_false_l, orb_true_r. do 3 right. split_and!; naive_solver.
Qed.

End flux.

(** ** Examples *)

Definition demo_flux_options : CheckOptions := mkOptions "1a2b3c4" None [mkImage "ghcr.io/app" "v2" ""] true None None None.

Definition demo_kustomization (ready reason : string) (revision : string) : Kustomization :=
  mkKustomization "flux-system" [mkFluxCondition "Ready" ready reason ""] (Some 2) (Some 2) revision revision false ["prod_app_apps_Deployment"] [].

Definition demo_cluster (image ns name : string) : read Deployment := Got (demo_deployment image 2).

Abbreviation demo_check image := (check (demo_cluster image) None (λ _, []) demo_flux_options).

(** Flux gave up on stalled resources of another commit. *)
Definition demo_stall : Kustomization :=
  mkKustomization "flux-system" [mkFluxCondition "Ready" "False" "HealthCheckFailed" "failed early due to stalled resources"]
    (Some 2) (Some 2) "main@sha1:ffff000" "main@sha1:ffff000" false ["prod_app_apps_Deployment"] [].


End HealthFlux.
