(* ===== verification/HealthCanary.v ===== *)
(** * HealthCanary: the health of Argo Rollouts and Flagger canaries

    Model of the argoRollouts and flagger adapters of src/pkg/health/adapter.go
    (ArgoRolloutsAdapter.Check with abortSetBefore and healthySetBefore,
    FlaggerAdapter.Check with flaggerPhaseHealth, phaseSetAt and canaryRevision) and of
    AutoDetector.Select.  Objects are the fields that are read; time.Parse is a
    parameter; reasons are left out. *)

From stdpp Require Import base gmap strings list.
From Stdlib Require Import Ascii Lia ZArith.
From S2P Require Import Prelude Engine StepStatus Hooks Outbox Bake Transition Cancel HealthImages HealthDeploy HealthArgo HealthFlux.
Import Cancel.Cancel HealthImages.HealthImages HealthDeploy.HealthDeploy.
Import Bake.Bake(HealthStatus, mkHealth, Healthy, Progressing, Terminal, NotFound, TargetUpdated).

Module HealthCanary.

(** ** Data *)

(** A condition of a Rollout or a Canary, its times as they are written. *)
Record UCondition := mkUCondition { uc_type : string; uc_reason : string; uc_LastUpdate : string; uc_LastTransition : string }.

Definition findCondition (conditions : list UCondition) (condType : string) : option UCondition :=
  snd <$> list_find (λ c, uc_type c = condType) conditions.

(** A generation as Argo Rollouts writes it: a string, a number, or neither. *)
Inductive GenField := GenString (s : string) | GenNumber (n : Z) | GenOther.

Record Rollout := mkRollout {
  rl_Namespace : string;
  rl_Generation : Z;
  rl_Ref : option (string * string);
  rl_Images : list string;
  rl_Phase : string;
  rl_Observed : option GenField;
  rl_WorkloadObserved : option GenField;
  rl_Stable : string;
  rl_Current : string;
  rl_Abort : bool;
  rl_Conditions : list UCondition
}.

Record Canary := mkCanary {
  cn_Namespace : string;
  cn_Phase : string;
  cn_Conditions : list UCondition;
  cn_TargetKind : string;
  cn_TargetName : string;
  cn_LastTransition : string
}.

Definition observedGeneration (v : option GenField) (gen : Z) : option Z :=
  match v with
  | None => None
  | Some (GenString s) => Some (default gen (ParseInt64 s))
  | Some (GenNumber n) => Some n
  | Some GenOther => Some gen
  end.

Section canary.
(** time.Parse with RFC 3339, and the Deployments of the cluster. *)
Variable ParseTime : string → option Time.
Variable getDeployment : string → string → read Deployment.

(** ** Argo Rollouts *)

(** From when on a phase counts: when the change can have reached git, or the start of
    the check. *)
Definition counts_from (opts : CheckOptions) : option Time :=
  match o_ChangedAt opts, o_Since opts with
  | Some t, Some _ => Some t
  | _, since => since
  end.

(** Whether the abort predates [since], and whether that is known. *)
Definition abortSetBefore (conditions : list UCondition) (since : option Time) : bool * bool :=
  let unknown := (false, bool_decide (since = None)) in
  match findCondition conditions "Progressing" with
  | None => unknown
  | Some c =>
      if negb (bool_decide (uc_reason c = "RolloutAborted")) then unknown
      else match ParseTime (if bool_decide (uc_LastUpdate c = "") then uc_LastTransition c else uc_LastUpdate c) with
           | None => unknown
           | Some at_ => match since with
                         | None => (false, true)
                         | Some since => (truncate_second at_ <? truncate_second since, true)
                         end
           end
  end.

(** Whether the Healthy phase predates [since]. *)
Definition healthySetBefore (conditions : list UCondition) (since : option Time) : bool :=
  match since, findCondition conditions "Healthy" with
  | None, _ | _, None => false
  | Some since, Some c =>
      match ParseTime (uc_LastTransition c) with
      | None => true
      | Some at_ => at_ <? truncate_second since
      end
  end.

(** The images of the pod template, and the Deployment of a workloadRef. *)
Definition rolloutImages (r : Rollout) : read (list string * option Deployment) :=
  match rl_Ref r with
  | None => Got (rl_Images r, None)
  | Some (kind, name) =>
      if negb (bool_decide (kind = "Deployment")) || bool_decide (name = "") then Got ([], None)
      else match getDeployment (rl_Namespace r) name with
           | Got d => Got (d_Images d, Some d)
           | Missing => Missing
           | ReadError => ReadError
           end
  end.

Definition rollout_phase (opts : CheckOptions) (r : Rollout) (running : list string) : HealthStatus :=
  if bool_decide (rl_Phase r = "Healthy") then
    if negb (bool_decide (rl_Current r = "")) && negb (bool_decide (rl_Stable r = rl_Current r)) then progressing
    else if negb (runsRepository (o_ExpectedImages opts) running) && healthySetBefore (rl_Conditions r) (counts_from opts) then progressing
    else healthy
  else if bool_decide (rl_Phase r = "Degraded") then
    if rl_Abort r then
      match abortSetBefore (rl_Conditions r) (counts_from opts) with
      | (true, _) => progressing
      | (false, false) => unhealthy
      | (false, true) => terminal
      end
    else unhealthy
  else progressing.

(** Whether the controller has observed the current specs. *)
Definition rollout_observed (r : Rollout) (workload : option Deployment) : bool :=
  bool_decide (observedGeneration (rl_Observed r) (rl_Generation r) = Some (rl_Generation r)) &&
  match workload with
  | None => true
  | Some d => bool_decide (observedGeneration (rl_WorkloadObserved r) (rl_Generation r) = Some (d_Generation d))
  end.

Definition CheckRollout (cfg : Target) (get : read Rollout) (opts : CheckOptions) : option HealthStatus :=
  if bool_decide (t_Namespace cfg = "") then None
  else if bool_decide (t_Name cfg = "") then Some unhealthy
  else match get with
       | ReadError => None
       | Missing => Some missing
       | Got r =>
           match rolloutImages r with
           | ReadError => None
           | Missing => Some missing
           | Got (running, workload) =>
               Some (if negb (checkImages (o_ExpectedImages opts) running).1 then progressing
                     else if negb (rollout_observed r workload) then progressing
                     else rollout_phase opts r running)
           end
       end.

(** ** Flagger *)

Record canaryRevision := mkRevision { cr_primary : option Deployment; cr_primaryRunsBundle : bool; cr_targetUpdated : bool }.

(** What the Deployments of a Canary say: a result, an error, or how far they are. *)
Inductive revision_read := RevStatus (st : HealthStatus) | RevError | Revision (r : canaryRevision).

Definition unknown_revision : canaryRevision := mkRevision None false false.

Definition read_primary (expected : list ImageExpectation) (c : Canary) : revision_read :=
  match getDeployment (cn_Namespace c) (cn_TargetName c +:+ "-primary") with
  | ReadError => RevError
  | Missing => Revision (mkRevision None false true)
  | Got p =>
      let '(ok, note) := checkImages expected (d_Images p) in
      Revision (mkRevision (Some p) (ok && bool_decide (note = "")) true)
  end.

Definition read_revision (expected : list ImageExpectation) (c : Canary) : revision_read :=
  if bool_decide (expected = []) || bool_decide (cn_TargetName c = "") ||
     (negb (bool_decide (cn_TargetKind c = "")) && negb (bool_decide (cn_TargetKind c = "Deployment"))) then Revision unknown_revision
  else match getDeployment (cn_Namespace c) (cn_TargetName c) with
       | Missing => RevStatus missing
       | ReadError => RevError
       | Got target =>
           let '(ok, note) := checkImages expected (d_Images target) in
           if negb ok then RevStatus progressing
           else if negb (bool_decide (note = "")) then Revision unknown_revision
           else read_primary expected c
       end.

Definition no_options : CheckOptions := mkOptions "" None [] false None None None.

Definition primaryHealth (p : Deployment) : HealthStatus :=
  let st := checkDeployment p "Available" no_options None in if Healthy st then healthy else st.

(** When Flagger set the phase. *)
Definition phaseSetAt (c : Canary) : string :=
  match findCondition (cn_Conditions c) "Promoted" with
  | Some p => if negb (bool_decide (uc_reason p = "")) && bool_decide (uc_reason p = cn_Phase c) && negb (bool_decide (uc_LastUpdate p = ""))
              then uc_LastUpdate p else cn_LastTransition c
  | None => cn_LastTransition c
  end.

(** Whether the phase predates this check, and whether a Failed phase predates the Bundle
    on the target. *)
Definition phase_stale (c : Canary) (targetUpdated : bool) (opts : CheckOptions) : bool * bool :=
  match o_Since opts with
  | None => (false, false)
  | Some since =>
      match ParseTime (phaseSetAt c) with
      | None => (true, false)
      | Some at_ =>
          if at_ <? truncate_second since then (true, false)
          else (false, targetUpdated && match o_TargetUpdatedAt opts with
                                        | None => true
                                        | Some t => negb (truncate_second t <? at_)
                                        end)
      end
  end.

Definition flaggerPhaseHealth (c : Canary) (rev : canaryRevision) (opts : CheckOptions) : HealthStatus :=
  let '(stale, staleFailed) := phase_stale c (cr_targetUpdated rev) opts in
  if bool_decide (cn_Phase c = "Succeeded") then
    match cr_primary rev with
    | Some p => if negb (cr_primaryRunsBundle rev) then progressing else primaryHealth p
    | None => if stale then progressing else healthy
    end
  else if bool_decide (cn_Phase c = "Failed") then
    match cr_primary rev, cr_primaryRunsBundle rev with
    | Some p, true => primaryHealth p
    | _, _ => if stale || staleFailed then progressing else terminal
    end
  else progressing.

Definition CheckCanary (cfg : Target) (get : read Canary) (opts : CheckOptions) : option HealthStatus :=
  if bool_decide (t_Namespace cfg = "") then None
  else if bool_decide (t_Name cfg = "") then Some unhealthy
  else match get with
       | ReadError => None
       | Missing => Some missing
       | Got c =>
           match read_revision (o_ExpectedImages opts) c with
           | RevError => None
           | RevStatus st => Some st
           | Revision rev => Some (set_TargetUpdated (cr_targetUpdated rev) (flaggerPhaseHealth c rev opts))
           end
       end.

(** ** What a check of a Rollout says *)

(** The Healthy phase was set once the change could be in git: nothing changed there,
    the Rollout has no Healthy condition, or the condition is not older. *)
Definition healthy_since (r : Rollout) (opts : CheckOptions) : Prop :=
  ∀ since c, counts_from opts = Some since → findCondition (rl_Conditions r) "Healthy" = Some c →
    ∃ t, ParseTime (uc_LastTransition c) = Some t ∧ truncate_second since ≤ t.

(** The abort is of this promotion: nothing changed in git, or the condition of the abort
    is not older than the change. *)
Definition aborted_since (r : Rollout) (opts : CheckOptions) : Prop :=
  ∀ since, counts_from opts = Some since →
    ∃ c t, findCondition (rl_Conditions r) "Progressing" = Some c ∧ uc_reason c = "RolloutAborted" ∧
      ParseTime (if bool_decide (uc_LastUpdate c = "") then uc_LastTransition c else uc_LastUpdate c) = Some t ∧
      truncate_second since ≤ truncate_second t.

Lemma healthySetBefore_iff r opts : healthySetBefore (rl_Conditions r) (counts_from opts) = false ↔ healthy_since r opts.
Proof.
  unfold healthySetBefore, healthy_since. destruct (counts_from opts) as [since|]; [|naive_solver].
  destruct (findCondition _ _) as [c|]; [|naive_solver].
  destruct (ParseTime (uc_LastTransition c)) as [t|] eqn:Et; [rewrite Z.ltb_ge|]; split; try done.
  - intros Hle s d [= <-] [= <-]. by exists t.
  - intros Hs. destruct (Hs since c eq_refl eq_refl) as (t' & E & ?). congruence.
  - intros Hs. destruct (Hs since c eq_refl eq_refl) as (t' & E & ?). congruence.
Qed.

Lemma abortSetBefore_iff r opts : abortSetBefore (rl_Conditions r) (counts_from opts) = (false, true) ↔ aborted_since r opts.
Proof.
  unfold abortSetBefore, aborted_since. destruct (counts_from opts) as [since|].
  - destruct (findCondition _ _) as [c|]; [|naive_solver].
    destruct (bool_decide (uc_reason c = "RolloutAborted")) eqn:Er; cbn [negb]; [apply bool_decide_eq_true in Er|apply bool_decide_eq_false in Er; naive_solver].
    destruct (ParseTime _) as [t|] eqn:Et; [|split; [done|]; intros Hs; destruct (Hs since eq_refl) as (c' & t & [= <-] & _ & E & _); congruence].
    destruct (Z.ltb_spec (truncate_second t) (truncate_second since)).
    + split; [done|]. intros Hs. destruct (Hs since eq_refl) as (c' & t' & [= <-] & _ & E & Hle). rewrite Et in E. injection E as <-. lia.
    + split; [|done]. intros _ s [= <-]. exists c, t. by split_and!.
  - split; [done|]. intros _. destruct (findCondition _ _) as [c|]; [|done]. destruct (negb _); [done|]. by destruct (ParseTime _).
Qed.

(** The verdict on an Argo Rollouts Rollout.  It is healthy exactly when the pod
    template runs the Bundle's images, the controller has observed it, the phase is Healthy with the
    current ReplicaSet stable, and, when no image can tell the promoted revision
    from the one before, the phase was set once the change could be in git.  It is
    terminal exactly when such a Rollout was aborted as part of this promotion. *)
Theorem rollout_verdict cfg r opts st running workload :
  CheckRollout cfg (Got r) opts = Some st → rolloutImages r = Got (running, workload) → t_Name cfg ≠ "" →
  one_kind st ∧ NotFound st = false ∧
  (Healthy st = true ↔
     images_match (o_ExpectedImages opts) running ∧ rollout_observed r workload = true ∧ rl_Phase r = "Healthy" ∧
     (rl_Current r = "" ∨ rl_Stable r = rl_Current r) ∧ (runsRepository (o_ExpectedImages opts) running = true ∨ healthy_since r opts)) ∧
  (Terminal st = true ↔
     images_match (o_ExpectedImages opts) running ∧ rollout_observed r workload = true ∧ rl_Phase r = "Degraded" ∧ rl_Abort r = true ∧ aborted_since r opts).
Proof.
  unfold CheckRollout. intros Hc Hi Hn. destruct (bool_decide (t_Namespace cfg = "")); [done|]. rewrite (bool_decide_false _ Hn), Hi in Hc. injection Hc as <-.
  rewrite <- healthySetBefore_iff, <- abortSetBefore_iff, <- (proj1 (checkImages_spec (o_ExpectedImages opts) running)). unfold one_kind.
  destruct (checkImages (o_ExpectedImages opts) running).1; cbn [negb]; [|split_and!; try done; naive_solver].
  destruct (rollout_observed r workload); cbn [negb]; [|split_and!; try done; naive_solver].
  unfold rollout_phase. destruct (decide (rl_Phase r = "Healthy")) as [Eh|Eh]; [rewrite bool_decide_true by done|rewrite bool_decide_false by done].
  - destruct (decide (rl_Current r = "")) as [Ec|Ec]; [rewrite bool_decide_true by done|rewrite bool_decide_false by done]; cbn [negb andb].
    2: destruct (decide (rl_Stable r = rl_Current r)) as [Es|Es]; [rewrite bool_decide_true by done|rewrite bool_decide_false by done]; cbn [negb].
    3: split_and!; try done; [naive_solver|rewrite Eh; naive_solver].
    all: destruct (runsRepository _ _); [|destruct (healthySetBefore _ _)]; cbn [negb andb]; split_and!; try done; rewrite ?Eh; naive_solver.
  - destruct (decide (rl_Phase r = "Degraded")) as [Ed|Ed]; [rewrite bool_decide_true by done|rewrite bool_decide_false by done].
    + destruct (rl_Abort r); [|split_and!; try done; naive_solver].
      destruct (abortSetBefore _ _) as [[] []]; split_and!; try done; naive_solver.
    + split_and!; try done; naive_solver.
Qed.

(** ** What a check of a Canary says *)

(** Flagger set the phase during this check. *)
Definition phase_since (c : Canary) (opts : CheckOptions) : Prop :=
  ∀ since, o_Since opts = Some since → ∃ t, ParseTime (phaseSetAt c) = Some t ∧ truncate_second since ≤ t.

(** And after a check first found the Bundle on the target. *)
Definition failed_since (c : Canary) (updated : bool) (opts : CheckOptions) : Prop :=
  ∀ since, o_Since opts = Some since → updated = true → ∃ t u, ParseTime (phaseSetAt c) = Some t ∧ o_TargetUpdatedAt opts = Some u ∧ truncate_second u < t.

(** The primary runs the Bundle. *)
Definition primary_runs (expected : list ImageExpectation) (c : Canary) (p : Deployment) : Prop :=
  getDeployment (cn_Namespace c) (cn_TargetName c +:+ "-primary") = Got p ∧ images_match expected (d_Images p) ∧ runsRepository expected (d_Images p) = true.

Lemma phase_stale_iff c u opts :
  ((phase_stale c u opts).1 = false ↔ phase_since c opts) ∧
  (phase_stale c u opts = (false, false) ↔ phase_since c opts ∧ failed_since c u opts).
Proof.
  unfold phase_stale, phase_since, failed_since. destruct (o_Since opts) as [since|]; [|split; naive_solver].
  destruct (ParseTime (phaseSetAt c)) as [t|]; [|cbn; split; [naive_solver|]; split; [done|]; intros [H1 _]; destruct (H1 since eq_refl) as (? & ? & _); done].
  destruct (Z.ltb_spec t (truncate_second since)) as [Hlt|Hle]; cbn [fst].
  - split; (split; [done|]); [intros H1|intros [H1 _]]; destruct (H1 since eq_refl) as (t' & [= <-] & ?); lia.
  - split; [naive_solver|]. destruct u; cbn [andb]; [|split; [naive_solver|done]]. destruct (o_TargetUpdatedAt opts) as [v|].
    + destruct (Z.ltb_spec (truncate_second v) t); cbn [negb]; split; try naive_solver.
      intros [_ H2]. destruct (H2 since eq_refl eq_refl) as (t' & u' & [= <-] & [= <-] & ?). lia.
    + split; [done|]. intros [_ H2]. destruct (H2 since eq_refl eq_refl) as (? & ? & ? & ? & ?). done.
Qed.

Lemma primaryHealth_spec p :
  (Healthy (primaryHealth p) = true ↔ rolled_out "Available" no_options p) ∧ one_kind (primaryHealth p) ∧ NotFound (primaryHealth p) = false ∧
  (Terminal (primaryHealth p) = true → stalled_now no_options None p).
Proof.
  unfold primaryHealth. pose proof (checkDeployment_healthy p "Available" no_options None) as Hh.
  destruct (checkDeployment_kinds p "Available" no_options None) as (Hnf & Hk & _). pose proof (checkDeployment_terminal p "Available" no_options None) as Ht.
  destruct (Healthy (checkDeployment p "Available" no_options None)) eqn:E.
  - by split_and!.
  - rewrite E. split_and!; try done. apply Ht.
Qed.

(** What the Deployments of a Canary show. *)
Lemma read_revision_spec expected c rev :
  read_revision expected c = Revision rev →
  (cr_targetUpdated rev = true → ∃ target, getDeployment (cn_Namespace c) (cn_TargetName c) = Got target ∧
     images_match expected (d_Images target) ∧ runsRepository expected (d_Images target) = true) ∧
  (∀ p, cr_primary rev = Some p → cr_primaryRunsBundle rev = true → primary_runs expected c p).
Proof.
  unfold read_revision. destruct (_ || _ || _) eqn:E0; [by intros [= <-]|]. apply orb_false_iff in E0 as [[E0 _]%orb_false_iff _]. bools.
  destruct (getDeployment _ (cn_TargetName c)) as [target| |] eqn:Eg; [|done..]. destruct (checkImages expected (d_Images target)) as [ok note] eqn:Ei.
  destruct ok; cbn [negb]; [|done]. case_bool_decide as En; cbn [negb]; [|by intros [= <-]]. intros Hp.
  destruct (checkImages_spec expected (d_Images target)) as [Hm Hr]. rewrite Ei in Hm, Hr. cbn [fst snd] in Hm, Hr.
  assert (runsRepository expected (d_Images target) = true) as Hrep by (by destruct (proj1 (Hr eq_refl) En)).
  split; [intros _; exists target; split_and!; [done|by apply Hm|done]|]. unfold read_primary in Hp. unfold primary_runs.
  destruct (getDeployment _ (cn_TargetName c +:+ "-primary")) as [p| |]; [|by injection Hp as <-|done].
  destruct (checkImages expected (d_Images p)) as [ok' note'] eqn:Ei'. injection Hp as <-. cbn. intros q [= <-] [Hok Hn]%andb_true_iff. bools. split; [done|].
  destruct (checkImages_spec expected (d_Images p)) as [Hm' Hr']. rewrite Ei' in Hm', Hr'. cbn [fst snd] in *. split; [by apply Hm'|].
  by destruct (proj1 (Hr' Hok) Hn).
Qed.

(** The verdict on a Flagger Canary.  It is healthy only when the primary Deployment
    runs the Bundle's images and is rolled out, after an analysis that succeeded or because the
    Bundle is what Flagger promoted before; or when the images cannot be compared, for a
    success that Flagger reported during this check.  It is terminal only when Flagger
    reported the failure during this check, and after a check found the Bundle on the
    target, or when the primary's own rollout has stalled. *)
Theorem flagger_verdict cfg c opts st rev :
  CheckCanary cfg (Got c) opts = Some st → read_revision (o_ExpectedImages opts) c = Revision rev → t_Name cfg ≠ "" →
  one_kind st ∧ NotFound st = false ∧
  (Healthy st = true →
     (∃ p, primary_runs (o_ExpectedImages opts) c p ∧ rolled_out "Available" no_options p ∧ cn_Phase c ∈ ["Succeeded"; "Failed"]) ∨
     (cn_Phase c = "Succeeded" ∧ cr_primary rev = None ∧ phase_since c opts)) ∧
  (Terminal st = true →
     (cn_Phase c = "Failed" ∧ phase_since c opts ∧ failed_since c (cr_targetUpdated rev) opts) ∨
     ∃ p, primary_runs (o_ExpectedImages opts) c p ∧ stalled_now no_options None p).
Proof.
  unfold CheckCanary. intros Hc Hr Hn. destruct (bool_decide (t_Namespace cfg = "")); [done|]. rewrite (bool_decide_false _ Hn), Hr in Hc. injection Hc as <-.
  apply read_revision_spec in Hr as [_ Hprim]. cbn [Healthy Terminal NotFound set_TargetUpdated].
  assert (∀ x, one_kind x → one_kind (set_TargetUpdated (cr_targetUpdated rev) x)) as Hset by (intros x; unfold one_kind; by destruct x).
  assert (one_kind progressing ∧ one_kind healthy ∧ one_kind terminal) as (Hkp & Hkh & Hkt) by (unfold one_kind; by split_and!).
  unfold flaggerPhaseHealth. destruct (phase_stale_iff c (cr_targetUpdated rev) opts) as [Hst Hsf]. destruct (phase_stale c _ opts) as [stale staleFailed]. cbn [fst] in Hst.
  destruct (decide (cn_Phase c = "Succeeded")) as [Es|Es]; [rewrite bool_decide_true by done|rewrite bool_decide_false by done].
  - destruct (cr_primary rev) as [p|]; [|destruct stale; split_and!; auto; try done; intros _; right; split_and!; try done; by apply Hst].
    destruct (cr_primaryRunsBundle rev) eqn:Eb; cbn [negb]; [|split_and!; auto; done].
    destruct (primaryHealth_spec p) as (Hh & Hk & Hnf & Ht). split_and!; auto.
    + intros Hhe%Hh. left. exists p. split_and!; auto. rewrite Es. by left.
    + intros Hte%Ht. right. exists p. auto.
  - destruct (decide (cn_Phase c = "Failed")) as [Ef|Ef]; [rewrite bool_decide_true by done|rewrite bool_decide_false by done; split_and!; auto; done].
    assert (∀ x, x = (if stale || staleFailed then progressing else terminal) → one_kind (set_TargetUpdated (cr_targetUpdated rev) x) ∧ NotFound x = false ∧ Healthy x = false ∧
      (Terminal x = true → phase_since c opts ∧ failed_since c (cr_targetUpdated rev) opts)) as Hfail.
    { intros x ->. destruct (stale || staleFailed) eqn:E; split_and!; auto; try done. intros _. apply orb_false_iff in E as [-> ->]. by apply Hsf. }
    destruct (cr_primary rev) as [p|]; [destruct (cr_primaryRunsBundle rev) eqn:Eb|].
    + destruct (primaryHealth_spec p) as (Hh & Hk & Hnf & Ht). split_and!; auto.
      * intros Hhe%Hh. left. exists p. split_and!; auto. rewrite Ef. right. by left.
      * intros Hte%Ht. right. exists p. auto.
    + destruct (Hfail _ eq_refl) as (? & ? & Hhf & ?). split_and!; auto; congruence.
    + destruct (Hfail _ eq_refl) as (? & ? & Hhf & ?). split_and!; auto; congruence.
Qed.
End canary.

(** ** Choosing the adapter *)

Inductive Adapter := DeploymentAdapter | ArgoCDAdapter | FluxAdapter | ArgoRolloutsAdapter | FlaggerAdapter.

Definition Select (healthType : string) : option Adapter :=
  if bool_decide (healthType = "resource") then Some DeploymentAdapter
  else if bool_decide (healthType = "argocd") then Some ArgoCDAdapter
  else if bool_decide (healthType = "flux") then Some FluxAdapter
  else if bool_decide (healthType = "argoRollouts") then Some ArgoRolloutsAdapter
  else if bool_decide (healthType = "flagger") then Some FlaggerAdapter
  else None.

(** ** Examples *)

Definition demo_target : Target := mkTarget "app" "prod".

(** A Rollout on generation 3 that turned healthy at [set_at]. *)
Definition demo_rollout (image phase set_at : string) : Rollout :=
  mkRollout "prod" 3 None [image] phase (Some (GenString "3")) None "h1" "h1" false [mkUCondition "Healthy" "" "" set_at].

(** Times written as seconds. *)
Definition demo_time (s : string) : option Time := (λ n, n * second) <$> ParseInt64 s.

Definition demo_canary_options : CheckOptions := mkOptions "" None [mkImage "ghcr.io/app" "v2" ""] true (Some (100 * second)) None None.

Lemma rollout_verdict_witness :
  CheckRollout demo_time (λ _ _, Missing) demo_target (Got (demo_rollout "ghcr.io/app:v1" "Healthy" "120")) demo_canary_options = Some progressing ∧
  CheckRollout demo_time (λ _ _, Missing) demo_target (Got (demo_rollout "other:v1" "Healthy" "90")) demo_canary_options = Some progressing ∧
  ∃ st, CheckRollout demo_time (λ _ _, Missing) demo_target (Got (demo_rollout "other:v1" "Healthy" "120")) demo_canary_options = Some st ∧ Healthy st = true.
Proof.
  split; [vm_compute; reflexivity|]. split; [vm_compute; reflexivity|]. exists healthy.
  assert (CheckRollout demo_time (λ _ _, Missing) demo_target (Got (demo_rollout "other:v1" "Healthy" "120")) demo_canary_options = Some healthy) as Hc by (vm_compute; reflexivity).
  split; [exact Hc|]. destruct (rollout_verdict demo_time (λ _ _, Missing) demo_target _ _ _ ["other:v1"] None Hc eq_refl) as (_ & _ & Hh & _); [discriminate|].
  apply Hh. split_and!; [|reflexivity|reflexivity|by right|].
  - intros w ref Hw Hr Hs. apply list_elem_of_singleton in Hw as ->. apply list_elem_of_singleton in Hr as ->. vm_compute in Hs. discriminate Hs.
  - right. intros since c [= <-] [= <-]. exists (120 * second). split; [reflexivity|]. vm_compute. discriminate.
Defined.

(** The previous release's primary runs the Bundle already; the phase Failed is older. *)
Definition demo_canary (phase : string) : Canary := mkCanary "prod" phase [] "Deployment" "app" "120".

Lemma flagger_verdict_witness :
  CheckCanary demo_time (λ _ n, Got (demo_deployment (if bool_decide (n = "app") then "ghcr.io/app:v2" else "ghcr.io/app:v1") 2)) demo_target
    (Got (demo_canary "Succeeded")) demo_canary_options = Some (set_TargetUpdated true progressing) ∧
  ∃ p, primary_runs (λ _ _, Got (demo_deployment "ghcr.io/app:v2" 2)) (o_ExpectedImages demo_canary_options) (demo_canary "Succeeded") p ∧ rolled_out "Available" no_options p.
Proof.
  split; [vm_compute; reflexivity|]. set (get := λ _ _ : string, Got (demo_deployment "ghcr.io/app:v2" 2)).
  destruct (flagger_verdict demo_time get demo_target (demo_canary "Succeeded") demo_canary_options (set_TargetUpdated true healthy)
    (mkRevision (Some (demo_deployment "ghcr.io/app:v2" 2)) true true)) as (_ & _ & Hh & _); [vm_compute; reflexivity|vm_compute; reflexivity|discriminate|].
  destruct (Hh eq_refl) as [(p & Hp & Hr & _)|(_ & Hn & _)]; [by exists p|discriminate Hn].
Defined.

(** A workloadObservedGeneration that is not a number counts as the generation of the
    Rollout, not of its Deployment, so a Rollout that has observed its Deployment waits. *)
Theorem workload_hash_waits :
  let r := mkRollout "prod" 3 (Some ("Deployment", "app")) [] "Healthy" (Some (GenString "3")) (Some (GenString "5f7b9c")) "h1" "h1" false [] in
  let d := mkDeployment "prod" "app" 7 "" ["ghcr.io/app:v2"] None 7 1 1 1 [] in
  observedGeneration (rl_WorkloadObserved r) (rl_Generation r) = Some 3 ∧
  CheckRollout demo_time (λ _ _, Got d) demo_target (Got r) demo_canary_options = Some progressing.
Proof. by vm_compute. Qed.

End HealthCanary.
