(* ===== verification/AutoRollback.v ===== *)
(** * AutoRollback: the automatic rollback of a failing Bundle

    Model of src/pkg/lifecycle/autorollback.go (AutoRollbackName, AutoRollbackNameIn,
    FindRollback, IsRollbackOf and RollbackTaken), of createAutoRollback
    (src/pkg/reconciler/promotionstep/lifecycle.go), by which a step with
    onHealthFailure=rollback starts one, and of the RollbackPolicy reconciler
    (src/pkg/reconciler/rollbackpolicy/reconciler.go), which starts one at a threshold of
    failures.  The plan is [RollbackFleet.PlanRollback]; the Bundle is built and created
    as in [Hold].  The Bundles of the namespace are a map by name. *)

From stdpp Require Import base gmap strings list sorting pretty.
From Stdlib Require Import Lia ZArith Ascii.
From S2P Require Import Prelude Topo Ordering Fleet Actor Engine StepStatus Hooks Outbox Bake Transition Cancel Pending PolicyGate History Rollback RollbackFleet Store Hold.
Import StepStatus.StepStatus Cancel.Cancel History.History Rollback.Rollback.
Import Hold.Hold(HoldRequest, mkHoldRequest, buildRollbackBundle, bundle_answer, BundleCreated, CreatorRefused, BundleRefused,
  with_creator, StampCreatedBy, CreateBundleAs).

Module AutoRollback.

(** ** Data *)

(** A Bundle, and whether its spec.intent is set. *)
Record Stored := mkStored { sb_Bundle : Bundle; sb_Intent : bool }.

(** The Bundles of the namespace. *)
Abbreviation world := (gmap string Stored).

Definition ControllerCreator : string := "kardinal-controller".
Definition RollbackSourceAlarm : string := "alarm".
Definition RollbackSourcePolicy : string := "policy".

(** What a run ends with; a run that failed is retried. *)
Inductive attempt (R : Type) := Rolled (name : string) | Refusal (r : R) | Retry.
Arguments Rolled {R} _.
Arguments Refusal {R} _.
Arguments Retry {R}.

(** ** Names *)

Section names.
(** The checks of an object name and of a label value, and the hash in hex. *)
Context (IsValidLabelValue IsDNS1123Subdomain : string → bool).
Context (sha256_hex : string → string).

Definition LabelValueMaxLength : nat := 63.

Definition in_cutset (a : ascii) : bool :=
  Ascii.eqb a "-"%char || Ascii.eqb a "."%char || Ascii.eqb a "_"%char.

(** strings.TrimRight with the cutset of [in_cutset]. *)
Fixpoint TrimRight (s : string) : string :=
  match s with
  | EmptyString => EmptyString
  | String a s =>
      match TrimRight s with
      | EmptyString => if in_cutset a then EmptyString else String a EmptyString
      | t => String a t
      end
  end.

Definition AutoRollbackName (bundle source : string) : string :=
  let name := bundle +:+ "-rollback-" +:+ source in
  if IsValidLabelValue name && IsDNS1123Subdomain name then name
  else
    let suffix := "-rollback-" +:+ String.substring 0 10 (sha256_hex name) in
    let head := TrimRight (String.substring 0 (Nat.min (str_length bundle) (LabelValueMaxLength - str_length suffix)%nat) bundle) in
    if bool_decide (head = "") then TrimPrefix suffix "-" else head +:+ suffix.

(** The four names of the automatic rollback of [from] in [env], in the order
    [FindRollback] looks at them. *)
Definition rollback_names (env from : string) : list string :=
  src ← [RollbackSourceAlarm; RollbackSourcePolicy];
  [AutoRollbackName from src; AutoRollbackName from (src +:+ "-" +:+ env)].

(** ** Which Bundle is the rollback *)

Definition boundTo (from : string) (b : Bundle) : bool :=
  if negb (bool_decide (b_RollbackFrom b = "")) then bool_decide (b_RollbackFrom b = from) else true.

Definition IsRollbackOf (pipeline env from : string) (b : Stored) : bool :=
  IsAutoRollback ControllerCreator (sb_Bundle b) && bool_decide (b_Pipeline (sb_Bundle b) = pipeline) &&
  (sb_Intent b && bool_decide (b_Target (sb_Bundle b) = env)) && boundTo from (sb_Bundle b).

(** What a Get of a Bundle by its name answers. *)
Abbreviation reader := (string → read Stored).

(** [None] is an error. *)
Definition rollbackNameFree (get : reader) (name pipeline env from : string) : option bool :=
  match get name with
  | Missing => Some true
  | ReadError => None
  | Got b => Some (IsRollbackOf pipeline env from b)
  end.

Definition RollbackTaken (get : reader) (name pipeline env from : string) : option bool :=
  negb <$> rollbackNameFree get name pipeline env from.

Definition AutoRollbackNameIn (get : reader) (pipeline bundle source env : string) : plan_error + string :=
  let plain := AutoRollbackName bundle source in
  match rollbackNameFree get plain pipeline env bundle with
  | None => inl ErrAPI
  | Some true => inr plain
  | Some false =>
      let own := AutoRollbackName bundle (source +:+ "-" +:+ env) in
      match rollbackNameFree get own pipeline env bundle with
      | None => inl ErrAPI
      | Some false => inl ErrConflict
      | Some true => inr own
      end
  end.

(** A Bundle at one of the names that counts as the rollback. *)
Definition counts (pipeline env from : string) (b : Stored) : bool :=
  IsAutoRollback ControllerCreator (sb_Bundle b) && bool_decide (b_Pipeline (sb_Bundle b) = pipeline) && boundTo from (sb_Bundle b) &&
  (negb (sb_Intent b) || bool_decide (b_Target (sb_Bundle b) = env)).

Fixpoint find_in (get : reader) (pipeline env from : string) (names : list string) : option string + unit :=
  match names with
  | [] => inl None
  | name :: names =>
      match get name with
      | Missing => find_in get pipeline env from names
      | ReadError => inr ()
      | Got b => if counts pipeline env from b then inl (Some name) else find_in get pipeline env from names
      end
  end.

(** The name of the rollback that exists, none, or an error. *)
Definition FindRollback (get : reader) (pipeline env from : string) : option string + unit :=
  find_in get pipeline env from (rollback_names env from).

(** ** Creating it *)

(** How the API answers a create; [CreateForbidden] is a refusal of the creator. *)
Inductive create_answer := CreateOK | CreateForbidden | CreateExists | CreateError.

Definition answer_of (a : create_answer) : bundle_answer :=
  match a with CreateOK => BundleCreated | CreateForbidden => CreatorRefused | CreateExists | CreateError => BundleRefused end.

(** The error of [CreateBundleAs] is an AlreadyExists. *)
Definition exists_error (first second : create_answer) : bool :=
  match first, second with
  | CreateExists, _ => true
  | CreateForbidden, CreateExists => true
  | _, _ => false
  end.

(** The creates [CreateBundleAs] sends, with their answers. *)
Definition sends (who : string) (b : Bundle) (first second : create_answer) : list (Stored * create_answer) :=
  (mkStored (StampCreatedBy who b) true, first) ::
  match first with
  | CreateForbidden => [(mkStored (with_creator "" None (StampCreatedBy who b)) true, second)]
  | _ => []
  end.

Context (selects : Ordering.FleetSelector → option (gmap string string → bool)).
Context (scaled : Ordering.IntOrString → Z → option Z).
Context (IsDNS1123Label : string → bool).
Context (path_Join : string → string → string).
Context (NormalizeRepository : string → option string).

(** What a run reads, and how its creates are answered: the Bundles at the lookup, at the
    naming and after an AlreadyExists; the Pipeline, the steps and the Bundles of the plan. *)
Record RunReads := mkRun {
  rr_find : reader;
  rr_name : reader;
  rr_pipeline : read Fleet.Pipeline;
  rr_steps : option (list Step);
  rr_bundles : Snapshot;
  rr_now : Time;
  rr_first : create_answer;
  rr_second : create_answer;
  rr_taken : reader
}.

Definition auto_request (pipeline env from : string) : RollbackRequest := mkRequest pipeline env "" from true.

Definition plan_of (rr : RunReads) (pipeline env from : string) : plan_error + (RollbackPlan * list RollbackFleet.FleetTargetRollback) :=
  RollbackFleet.PlanRollback NormalizeRepository ControllerCreator (rr_bundles rr) selects scaled IsDNS1123Label path_Join
    (rr_pipeline rr) (rr_steps rr) (auto_request pipeline env from).

(** The Bundle of a plan, stamped by the controller; [actor] says who asked. *)
Definition auto_bundle (actor pipeline env from name : string) (now : Time) (p : RollbackPlan) : Bundle :=
  with_creator "" (Some (ActorController, ViaAutoRollback))
    (buildRollbackBundle (mkHoldRequest (auto_request pipeline env from) name "" actor None 0 "" now) p).

(** From the plan on, the two paths are alike. *)
Definition create_planned {R} (actor pipeline env from name : string) (rr : RunReads) (p : RollbackPlan) :
  list (Stored * create_answer) * attempt R :=
  let b := auto_bundle actor pipeline env from name (rr_now rr) p in
  (sends ControllerCreator b (rr_first rr) (rr_second rr),
   match CreateBundleAs ControllerCreator b (answer_of (rr_first rr)) (answer_of (rr_second rr)) with
   | Some _ => Rolled name
   | None =>
       if exists_error (rr_first rr) (rr_second rr) then
         match RollbackTaken (rr_taken rr) name pipeline env from with
         | Some false => Rolled name
         | _ => Retry
         end
       else Retry
   end).

Definition autoRollbackActor : string := "kardinal-controller (onHealthFailure=rollback)".

(** The step's path; a refusal stops the step for a human. *)
Definition createAutoRollback (pipeline env from : string) (rr : RunReads) : list (Stored * create_answer) * attempt plan_error :=
  match FindRollback (rr_find rr) pipeline env from with
  | inr _ => ([], Retry)
  | inl (Some existing) => ([], Rolled existing)
  | inl None =>
      match AutoRollbackNameIn (rr_name rr) pipeline from RollbackSourceAlarm env with
      | inl ErrConflict => ([], Refusal ErrConflict)
      | inl _ => ([], Retry)
      | inr name =>
          match plan_of rr pipeline env from with
          | inl ErrAPI => ([], Retry)
          | inl e => ([], Refusal e)
          | inr (p, _) => create_planned autoRollbackActor pipeline env from name rr p
          end
      end
  end.

(** Why a RollbackPolicy has no rollback. *)
Inductive refusal := NameTaken | NoSafeTarget | InvalidPolicy.

Definition policyActor : string := "kardinal-controller (auto-rollback via RollbackPolicy)".

(** The policy's path. *)
Definition ensureRollbackBundle (pipeline env from : string) (rr : RunReads) : list (Stored * create_answer) * attempt refusal :=
  match FindRollback (rr_find rr) pipeline env from with
  | inr _ => ([], Retry)
  | inl (Some existing) => ([], Rolled existing)
  | inl None =>
      match AutoRollbackNameIn (rr_name rr) pipeline from RollbackSourcePolicy env with
      | inl ErrConflict => ([], Refusal NameTaken)
      | inl _ => ([], Retry)
      | inr name =>
          match plan_of rr pipeline env from with
          | inl ErrConflict => ([], Refusal NoSafeTarget)
          | inl ErrAPI => ([], Retry)
          | inl (ErrInvalid | ErrNotFound) => ([], Refusal InvalidPolicy)
          | inr (p, _) => create_planned policyActor pipeline env from name rr p
          end
      end
  end.

(** ** The policy *)

Record RefusedCondition := mkRefused { rc_True : bool; rc_Reason : string; rc_Message : string; rc_Generation : Z; rc_Transition : Time }.

(** [meta.SetStatusCondition]: the condition, and whether it changed. *)
Definition SetStatusCondition (old : option RefusedCondition) (c : RefusedCondition) : RefusedCondition * bool :=
  match old with
  | None => (c, true)
  | Some o =>
      let moved := negb (Bool.eqb (rc_True o) (rc_True c)) in
      (mkRefused (rc_True c) (rc_Reason c) (rc_Message c) (rc_Generation c) (if moved then rc_Transition c else rc_Transition o),
       moved || negb (bool_decide (rc_Reason o = rc_Reason c)) || negb (bool_decide (rc_Message o = rc_Message c)) ||
       negb (rc_Generation o =? rc_Generation c)%Z)
  end.

(** The status; [ps_Refused] is the condition RollbackRefused. *)
Record PolicyStatus := mkPolicyStatus {
  ps_ShouldRollback : bool;
  ps_ConsecutiveFailures : Z;
  ps_RollbackBundleName : option string;
  ps_LastEvaluatedAt : option Time;
  ps_Refused : option RefusedCondition
}.

Record Policy := mkPolicy {
  rp_Name : string;
  rp_PipelineName : string;
  rp_Environment : string;
  rp_BundleRef : string;
  rp_FailureThreshold : Z;
  rp_Generation : Z;
  rp_Status : PolicyStatus
}.

(** A PromotionStep: its labels, spec.bundleName and failures. *)
Record PolicyStep := mkPolicyStep {
  ws_PipelineLabel : string;
  ws_EnvironmentLabel : string;
  ws_BundleLabel : string;
  ws_BundleName : string;
  ws_Failures : Z
}.

Definition stepBundle (s : PolicyStep) : string := if negb (bool_decide (ws_BundleName s = "")) then ws_BundleName s else ws_BundleLabel s.

(** The steps the list selects by its labels, of the policy's Bundle. *)
Definition monitors (rp : Policy) (s : PolicyStep) : bool :=
  bool_decide (ws_PipelineLabel s = rp_PipelineName rp) && bool_decide (ws_EnvironmentLabel s = rp_Environment rp) &&
  bool_decide (stepBundle s = rp_BundleRef rp).

Definition failures_step (rp : Policy) (acc : Z * nat) (s : PolicyStep) : Z * nat :=
  if negb (monitors rp s) then acc
  else (if (acc.1 <? ws_Failures s)%Z then ws_Failures s else acc.1, S acc.2).

Definition bundleStepFailures (rp : Policy) (steps : list PolicyStep) : Z * nat := foldl (failures_step rp) (0, 0%nat) steps.

Definition policiesForStep (policies : option (list Policy)) (s : PolicyStep) : list string :=
  if bool_decide (stepBundle s = "") then []
  else match policies with
       | None => []
       | Some l =>
           rp_Name <$> List.filter (λ rp, bool_decide (rp_BundleRef rp = stepBundle s) && bool_decide (rp_PipelineName rp = ws_PipelineLabel s) &&
             bool_decide (rp_Environment rp = ws_EnvironmentLabel s)) l
       end.

Definition defaultFailureThreshold : Z := 3.
Definition requeueInterval : Duration := (30 * second)%Z.

Definition threshold_of (rp : Policy) : Z :=
  if (rp_FailureThreshold rp <=? 0)%Z then defaultFailureThreshold else rp_FailureThreshold rp.

Definition healthFailures (n : Z) : string :=
  if (n =? 1)%Z then "1 consecutive health failure" else pretty n +:+ " consecutive health failures".

Definition clearRefusal (gen failures threshold : Z) (now : Time) (old : option RefusedCondition) : option RefusedCondition :=
  match old with
  | Some o =>
      if rc_True o then
        Some (SetStatusCondition old (mkRefused false "BelowThreshold"
                (healthFailures failures +:+ ", below the threshold of " +:+ pretty threshold) gen now)).1
      else old
  | None => None
  end.

Definition reason_of (r : refusal) : string :=
  match r with NameTaken => "NameTaken" | NoSafeTarget => "NoSafeTarget" | InvalidPolicy => "InvalidPolicy" end.

Inductive effect :=
  | PatchStatus (s : PolicyStatus)
  | CreateBundle (c : Stored * create_answer)
  | EmitRefused.

Inductive result := Done | RequeueAfter (d : Duration) | Failed.

(** [text] is the wording of a refusal. *)
Definition recordOutcome (gen : Z) (s : PolicyStatus) (outcome : refusal + string) (text : string) (now : Time) : list effect :=
  let wasRefused := match ps_Refused s with Some o => rc_True o | None => false end in
  let cond := match outcome with
              | inl r => mkRefused true (reason_of r) text gen now
              | inr n => mkRefused false "RollbackCreated" ("rollback Bundle " +:+ n +:+ " was created") gen now
              end in
  let '(name, named) := match outcome with
                        | inl _ => (ps_RollbackBundleName s, false)
                        | inr n => (Some n, negb (bool_decide (ps_RollbackBundleName s = Some n)))
                        end in
  let '(cond, moved) := SetStatusCondition (ps_Refused s) cond in
  if named || moved then
    PatchStatus (mkPolicyStatus (ps_ShouldRollback s) (ps_ConsecutiveFailures s) name (ps_LastEvaluatedAt s) (Some cond)) ::
    match outcome with inl _ => if wasRefused then [] else [EmitRefused] | inr _ => [] end
  else [].

(** [triggered], with the lookup of a rollback that was not recorded; [None] is an error. *)
Definition triggered_of (existing : reader) (rp : Policy) (failures : Z) : option bool :=
  if (threshold_of rp <=? failures)%Z then Some true
  else if ps_ShouldRollback (rp_Status rp) then
    match FindRollback existing (rp_PipelineName rp) (rp_Environment rp) (rp_BundleRef rp) with
    | inr _ => None
    | inl existing => Some (bool_decide (is_Some existing))
    end
  else Some false.

Definition evaluated (rp : Policy) (failures : Z) (triggered : bool) (now : Time) : PolicyStatus :=
  let s := rp_Status rp in
  mkPolicyStatus triggered failures (ps_RollbackBundleName s) (Some now)
    (if triggered then ps_Refused s else clearRefusal (rp_Generation rp) failures (threshold_of rp) now (ps_Refused s)).

(** Already triggered, and the rollback recorded. *)
Definition terminal (s : PolicyStatus) : bool := ps_ShouldRollback s && bool_decide (is_Some (ps_RollbackBundleName s)).

Definition reconcile (rp : read Policy) (steps : option (list PolicyStep)) (existing : reader) (rr : RunReads) (text : string) (now : Time) :
  list effect * result :=
  match rp with
  | Missing => ([], Done)
  | ReadError => ([], Failed)
  | Got rp =>
      if terminal (rp_Status rp) then ([], Done)
      else match steps with
      | None => ([], Failed)
      | Some steps =>
          let '(failures, count) := bundleStepFailures rp steps in
          if bool_decide (count = 0%nat) then ([], Done)
          else match triggered_of existing rp failures with
          | None => ([], Failed)
          | Some triggered =>
              let s := evaluated rp failures triggered now in
              if triggered then
                let '(cs, a) := ensureRollbackBundle (rp_PipelineName rp) (rp_Environment rp) (rp_BundleRef rp) rr in
                let effs := PatchStatus s :: (CreateBundle <$> cs) in
                match a with
                | Retry => (effs, RequeueAfter requeueInterval)
                | Rolled n => (effs ++ recordOutcome (rp_Generation rp) s (inr n) text now, Done)
                | Refusal r => (effs ++ recordOutcome (rp_Generation rp) s (inl r) text now, Done)
                end
              else ([PatchStatus s], Done)
          end
      end
  end.

(** ** Runs *)

Definition get_of (w : world) : reader := λ n, match w !! n with Some b => Got b | None => Missing end.

(** What a create does to the Bundles: it is applied only when the name is free, and its
    answer can be lost. *)
Inductive create_in : world → Stored * create_answer → world → Prop :=
  | create_ok w b : w !! b_Name (sb_Bundle b) = None → create_in w (b, CreateOK) (<[b_Name (sb_Bundle b) := b]> w)
  | create_lost w b : w !! b_Name (sb_Bundle b) = None → create_in w (b, CreateError) (<[b_Name (sb_Bundle b) := b]> w)
  | create_not w b a : a ≠ CreateOK → create_in w (b, a) w.

(** The effects of a run, up to where it stops or crashes. *)
Inductive leaves : world * PolicyStatus → list effect → world * PolicyStatus → Prop :=
  | leaves_stop x effs : leaves x effs x
  | leaves_patch w s s' effs y : leaves (w, s') effs y → leaves (w, s) (PatchStatus s' :: effs) y
  | leaves_create w s c w' effs y : create_in w c w' → leaves (w', s) effs y → leaves (w, s) (CreateBundle c :: effs) y
  | leaves_event w s effs y : leaves (w, s) effs y → leaves (w, s) (EmitRefused :: effs) y.

(** A run that reads the Bundles as they are. *)
Definition reads_of (w : world) (rr : RunReads) : Prop := rr_find rr = get_of w ∧ rr_name rr = get_of w.

(** The controller's stamp, and the spec below it, are written by the controller only. *)
Definition others_write (w w' : world) : Prop :=
  ∀ n b', w' !! n = Some b' → IsAutoRollback ControllerCreator (sb_Bundle b') = true →
  ∃ b, w !! n = Some b ∧ ∀ pipeline env from, IsRollbackOf pipeline env from b' = true → IsRollbackOf pipeline env from b = true.

(** A run of one of the two paths for a failure (a Bundle in an environment of a Pipeline):
    the creates it still has to send, each with its answer. *)
Record Run := mkRunning { run_pipeline : string; run_env : string; run_from : string; run_left : list (Stored * create_answer) }.

Definition failure (r : Run) : string * string * string := (run_pipeline r, run_env r, run_from r).

(** The Bundles and the runs in progress. *)
Record Cluster := mkCluster { bundles : world; running : list Run }.

(** Runs interleave: one looks for an existing rollback when it begins, sends its creates
    one by one, and ends or crashes anywhere, while others begin, send and end.  The names
    it checks are read at any other time.  Two runs for the same failure are not in
    progress at once: [overlapping_runs_two_rollbacks] is what happens otherwise. *)
Inductive cluster_step : Cluster → Cluster → Prop :=
  | begin_alarm pipeline env from rr w l :
      from ≠ "" → rr_find rr = get_of w → (pipeline, env, from) ∉ failure <$> l →
      cluster_step (mkCluster w l) (mkCluster w (mkRunning pipeline env from (createAutoRollback pipeline env from rr).1 :: l))
  | begin_policy pipeline env from rr w l :
      from ≠ "" → rr_find rr = get_of w → (pipeline, env, from) ∉ failure <$> l →
      cluster_step (mkCluster w l) (mkCluster w (mkRunning pipeline env from (ensureRollbackBundle pipeline env from rr).1 :: l))
  | send_create pipeline env from c rest w w' l1 l2 :
      create_in w c w' →
      cluster_step (mkCluster w (l1 ++ mkRunning pipeline env from (c :: rest) :: l2)) (mkCluster w' (l1 ++ mkRunning pipeline env from rest :: l2))
  | end_run r w l1 l2 : cluster_step (mkCluster w (l1 ++ r :: l2)) (mkCluster w (l1 ++ l2))
  | other_client w w' l : others_write w w' → cluster_step (mkCluster w l) (mkCluster w' l).

(** ** Lookups *)

Lemma IsRollbackOf_counts pipeline env from b : IsRollbackOf pipeline env from b = true → counts pipeline env from b = true.
Proof.
  unfold IsRollbackOf, counts. intros [[[-> ->]%andb_true_iff [_ ->]%andb_true_iff]%andb_true_iff ->]%andb_true_iff. by rewrite orb_true_r.
Qed.

Lemma find_in_none w pipeline env from names :
  find_in (get_of w) pipeline env from names = inl None ↔
  ∀ n b, n ∈ names → w !! n = Some b → counts pipeline env from b = false.
Proof.
  induction names as [|n names IH]; simpl; [split; [by intros _ ? ? ?%elem_of_nil|done]|]. unfold get_of at 1. destruct (w !! n) as [b|] eqn:E.
  - destruct (counts pipeline env from b) eqn:Ec.
    + split; [done|]. intros H. specialize (H n b (list_elem_of_here _ _) E). congruence.
    + rewrite IH. split; [|intros H m b' Hm; apply H; by right].
      intros H m b' [->|Hm]%elem_of_cons Hb; [congruence|by apply (H m)].
  - rewrite IH. split; [|intros H m b' Hm; apply H; by right].
    intros H m b' [->|Hm]%elem_of_cons Hb; [congruence|by apply (H m)].
Qed.

(** When one Bundle alone counts, it is the one that is found. *)
Lemma find_in_only w pipeline env from names n b :
  n ∈ names → w !! n = Some b → counts pipeline env from b = true →
  (∀ m c, m ∈ names → m ≠ n → w !! m = Some c → counts pipeline env from c = false) →
  find_in (get_of w) pipeline env from names = inl (Some n).
Proof.
  intros Hn Hb Hc Ho. induction names as [|m names IH]; [by apply elem_of_nil in Hn|]. simpl. unfold get_of at 1.
  destruct (decide (m = n)) as [->|Hne]; [by rewrite Hb, Hc|].
  apply elem_of_cons in Hn as [->|Hn]; [done|]. specialize (IH Hn (λ k c Hk, Ho k c (list_elem_of_further _ _ _ Hk))).
  destruct (w !! m) as [c|] eqn:Em; [|done]. by rewrite (Ho m c (list_elem_of_here _ _) Hne Em).
Qed.

Lemma NameIn_name get pipeline env from src name :
  src ∈ [RollbackSourceAlarm; RollbackSourcePolicy] → AutoRollbackNameIn get pipeline from src env = inr name → name ∈ rollback_names env from.
Proof.
  unfold AutoRollbackNameIn. intros Hs Hn. unfold rollback_names. apply list_elem_of_bind. exists src. split; [|done].
  destruct (rollbackNameFree _ _ _ _ _) as [[]|]; [|destruct (rollbackNameFree _ (AutoRollbackName from (_ +:+ _)) _ _ _) as [[]|]|];
    try done; injection Hn as <-; [by left|right; by left].
Qed.

(** ** What a run sends *)

Lemma plan_current rr pipeline env from p f : from ≠ "" → plan_of rr pipeline env from = inr (p, f) → pl_CurrentName p = from.
Proof.
  intros Hf. assert (∀ sn e rq steps fleet, rq_FromBundle rq = from →
    plan_environment NormalizeRepository ControllerCreator sn rq steps fleet = inr e → pl_CurrentName e = from) as Hcur.
  { intros sn e rq [steps|] fleet Hrq; [|done]. intros (_ & _ & _ & _ & -> & _)%plan_environment_ok.
    unfold current_of. rewrite Hrq. by case_bool_decide. }
  unfold plan_of, RollbackFleet.PlanRollback. destruct (_ || _); [done|]. destruct (rr_pipeline rr) as [pl| |]; try done.
  destruct (negb _); [done|].
  destruct (RollbackFleet.fleetTargets _ _ _ _ pl _) as [[|t ts]|]; [done| |].
  - destruct (rr_steps rr) as [steps|]; [|done]. intros (to & eff & t' & _ & _ & _ & _ & Hp & _)%RollbackFleet.planFleetRollback_ok.
    by apply Hcur in Hp.
  - destruct (plan_environment _ _ _ _ _ _) as [|e] eqn:Ep; [done|]. intros [= -> _]. by apply Hcur in Ep.
Qed.

Lemma stamped_bundle actor pipeline env from name now p :
  let b := StampCreatedBy ControllerCreator (auto_bundle actor pipeline env from name now p) in
  b_Name b = name ∧ IsAutoRollback ControllerCreator b = true ∧ b_Pipeline b = pipeline ∧ b_Target b = env ∧ b_RollbackFrom b = pl_CurrentName p.
Proof. done. Qed.

Lemma stamped_rollback actor pipeline env from name now p :
  pl_CurrentName p = from →
  IsRollbackOf pipeline env from (mkStored (StampCreatedBy ControllerCreator (auto_bundle actor pipeline env from name now p)) true) = true.
Proof.
  intros Hc. destruct (stamped_bundle actor pipeline env from name now p) as (_ & Ha & Hp & He & Hf). unfold IsRollbackOf, boundTo.
  cbn [sb_Bundle sb_Intent]. rewrite Ha, Hp, He, Hf, Hc, !(bool_decide_true (_ = _)) by done.
  rewrite (bool_decide_true (from = from)) by done. by destruct (negb _).
Qed.

Lemma stamped_only actor pipeline env from name now p pipeline' env' from' :
  from ≠ "" → pl_CurrentName p = from →
  IsRollbackOf pipeline' env' from' (mkStored (StampCreatedBy ControllerCreator (auto_bundle actor pipeline env from name now p)) true) = true →
  pipeline' = pipeline ∧ env' = env ∧ from' = from.
Proof.
  intros Hn Hc. destruct (stamped_bundle actor pipeline env from name now p) as (_ & Ha & Hp & He & Hf). unfold IsRollbackOf, boundTo.
  cbn [sb_Bundle sb_Intent]. rewrite Ha, Hp, He, Hf, Hc, (bool_decide_false (from = "")) by done. cbn [negb andb]. intros H. bools. by subst.
Qed.

Lemma unstamped_not pipeline env from b : IsRollbackOf pipeline env from (mkStored (with_creator "" None b) true) = false.
Proof. done. Qed.

(** What is sent is the rollback of the plan, at the name it was given. *)
Definition proper_send (pipeline env from name : string) (c : Stored * create_answer) : Prop :=
  b_Name (sb_Bundle c.1) = name ∧
  ∀ pipeline' env' from', IsRollbackOf pipeline' env' from' c.1 = true → pipeline' = pipeline ∧ env' = env ∧ from' = from.

Lemma create_planned_sends {R} actor pipeline env from name rr p :
  from ≠ "" → pl_CurrentName p = from →
  Forall (proper_send pipeline env from name) (@create_planned R actor pipeline env from name rr p).1.
Proof.
  intros Hf Hc. unfold create_planned, sends. cbn [fst]. apply Forall_cons. split.
  - split; [done|]. intros p' e' f'. by apply stamped_only.
  - destruct (rr_first rr); [by apply Forall_nil| |by apply Forall_nil|by apply Forall_nil].
    apply Forall_singleton. split; [done|]. intros p' e' f'. cbn [fst]. by rewrite unstamped_not.
Qed.

(** A run that sends something found no rollback. *)
Lemma alarm_sends w rr pipeline env from :
  from ≠ "" → rr_find rr = get_of w →
  (createAutoRollback pipeline env from rr).1 = [] ∨
  (FindRollback (get_of w) pipeline env from = inl None ∧
   ∃ name, name ∈ rollback_names env from ∧ Forall (proper_send pipeline env from name) (createAutoRollback pipeline env from rr).1).
Proof.
  intros Hf Hrf. unfold createAutoRollback. rewrite Hrf.
  destruct (FindRollback (get_of w) pipeline env from) as [[?|]|]; [by left| |by left].
  destruct (AutoRollbackNameIn _ _ _ _ _) as [e|name] eqn:En; [left; by destruct e|].
  destruct (plan_of rr pipeline env from) as [e|[p f]] eqn:Ep; [left; by destruct e|].
  right. split; [done|]. exists name. split; [apply NameIn_name in En; [done|by left]|].
  apply create_planned_sends; [done|]. by apply plan_current in Ep.
Qed.

Lemma policy_sends w rr pipeline env from :
  from ≠ "" → rr_find rr = get_of w →
  (ensureRollbackBundle pipeline env from rr).1 = [] ∨
  (FindRollback (get_of w) pipeline env from = inl None ∧
   ∃ name, name ∈ rollback_names env from ∧ Forall (proper_send pipeline env from name) (ensureRollbackBundle pipeline env from rr).1 ∧
     match (ensureRollbackBundle pipeline env from rr).2 with Rolled m => m = name | Refusal _ => False | Retry => True end).
Proof.
  intros Hf Hrf. unfold ensureRollbackBundle. rewrite Hrf.
  destruct (FindRollback (get_of w) pipeline env from) as [[?|]|]; [by left| |by left].
  destruct (AutoRollbackNameIn _ _ _ _ _) as [e|name] eqn:En; [left; by destruct e|].
  destruct (plan_of rr pipeline env from) as [e|[p f]] eqn:Ep; [left; by destruct e|].
  right. split; [done|]. exists name. split_and!; [apply NameIn_name in En; [done|right; by left]| |].
  - apply create_planned_sends; [done|]. by apply plan_current in Ep.
  - unfold create_planned. cbn [snd]. destruct (CreateBundleAs _ _ _ _); [done|]. destruct (exists_error _ _); [|done].
    by destruct (RollbackTaken _ _ _ _ _) as [[]|].
Qed.

(** ** At most one rollback *)

(** The name is as it was, or it was free and holds what was sent. *)
Definition sent_only (pipeline env from name : string) (w w' : world) : Prop :=
  (∀ m, m ≠ name → w' !! m = w !! m) ∧
  (w' !! name = w !! name ∨
   (w !! name = None ∧ ∃ b a, w' !! name = Some b ∧ proper_send pipeline env from name (b, a))).

Lemma leaves_sends pipeline env from name w s l w' s' :
  (∀ c, CreateBundle c ∈ l → proper_send pipeline env from name c) → leaves (w, s) l (w', s') → sent_only pipeline env from name w w'.
Proof.
  intros Hp Hl. remember (w, s) as x eqn:Ex. remember (w', s') as y eqn:Ey. revert w s Ex Ey.
  induction Hl as [x effs|w0 s0 s1 effs y Hl IH|w0 s0 c w1 effs y Hc Hl IH|w0 s0 effs y Hl IH]; intros w s Ex Ey; simplify_eq.
  - split; [done|by left].
  - apply (IH (λ c Hc, Hp c (list_elem_of_further _ _ _ Hc)) _ _ eq_refl eq_refl).
  - destruct (IH (λ c Hc, Hp c (list_elem_of_further _ _ _ Hc)) _ _ eq_refl eq_refl) as [Ho Hn].
    pose proof (Hp c (list_elem_of_here _ _)) as Hpc. inversion Hc as [w2 b Hb|w2 b Hb|w2 b a Ha]; simplify_eq.
    1, 2: pose proof Hpc as [Hname _]; cbn [fst] in Hname; subst name; split;
      [intros m Hm; by rewrite Ho, lookup_insert_ne|];
      right; split; [done|];
      destruct Hn as [Hn|[Hn _]]; [|by rewrite lookup_insert_eq in Hn]; rewrite Hn, lookup_insert_eq; by eexists _, _.
    by split.
  - apply (IH (λ c Hc, Hp c (list_elem_of_further _ _ _ Hc)) _ _ eq_refl eq_refl).
Qed.

Lemma proper_all pipeline env from name cs :
  Forall (proper_send pipeline env from name) cs → ∀ c, CreateBundle c ∈ CreateBundle <$> cs → proper_send pipeline env from name c.
Proof. intros Hf c (c' & [= <-] & Hc)%list_elem_of_fmap. by apply (proj1 (Forall_forall _ _) Hf). Qed.

Definition at_most_one (pipeline env from : string) (w : world) : Prop :=
  ∀ n1 n2 b1 b2, n1 ∈ rollback_names env from → n2 ∈ rollback_names env from → w !! n1 = Some b1 → w !! n2 = Some b2 →
  IsRollbackOf pipeline env from b1 = true → IsRollbackOf pipeline env from b2 = true → n1 = n2.

(** The rollback of a failure is in [w] at the name [name] at most. *)
Definition only_at (pipeline env from name : string) (w : world) : Prop :=
  ∀ n b, n ∈ rollback_names env from → w !! n = Some b → IsRollbackOf pipeline env from b = true → n = name.

(** A run sends its rollback to one name, and no other name has it. *)
Definition run_ok (w : world) (r : Run) : Prop :=
  run_left r = [] ∨
  ∃ name, Forall (proper_send (run_pipeline r) (run_env r) (run_from r) name) (run_left r) ∧
    only_at (run_pipeline r) (run_env r) (run_from r) name w.

Record cluster_ok (x : Cluster) : Prop := {
  co_one pipeline env from : at_most_one pipeline env from (bundles x);
  co_run r : r ∈ running x → run_ok (bundles x) r;
  co_alone : NoDup (failure <$> running x)
}.

(** [w'] has no rollbacks but those of [w], those of the failure [k], if any, apart. *)
Definition no_new (k : option (string * string * string)) (w w' : world) : Prop :=
  ∀ n b' pipeline env from, Some (pipeline, env, from) ≠ k → w' !! n = Some b' → IsRollbackOf pipeline env from b' = true →
  ∃ b, w !! n = Some b ∧ IsRollbackOf pipeline env from b = true.

Lemma no_new_one k w w' pipeline env from :
  no_new k w w' → Some (pipeline, env, from) ≠ k → at_most_one pipeline env from w → at_most_one pipeline env from w'.
Proof.
  intros Hn Hk H n1 n2 b1 b2 H1 H2 Hb1 Hb2 Hr1 Hr2.
  destruct (Hn _ _ _ _ _ Hk Hb1 Hr1) as (c1 & Hc1 & Hk1), (Hn _ _ _ _ _ Hk Hb2 Hr2) as (c2 & Hc2 & Hk2). by apply (H n1 n2 c1 c2).
Qed.

Lemma no_new_run k w w' r : no_new k w w' → Some (failure r) ≠ k → run_ok w r → run_ok w' r.
Proof.
  intros Hn Hk [?|(name & Hs & Ho)]; [by left|right]. exists name. split; [done|]. intros n b' Hin Hb Hr.
  destruct (Hn _ _ _ _ _ Hk Hb Hr) as (b & Hb0 & Hr0). by apply (Ho n b).
Qed.

(** A create of a run: the failure it is about has its rollback at its name only. *)
Lemma create_new pipeline env from name w c w' :
  proper_send pipeline env from name c → only_at pipeline env from name w → create_in w c w' →
  no_new (Some (pipeline, env, from)) w w' ∧ only_at pipeline env from name w'.
Proof.
  intros [Hname Hs] Ho Hc. destruct c as [b a]. simpl in Hname, Hs.
  assert (w' = w ∨ w' = <[name := b]> w) as [->| ->] by (inversion Hc; subst; auto).
  { split; [|done]. intros n b' p e f _ Hb Hr. eauto. }
  split.
  - intros n b' p e f Hne Hb Hr. destruct (decide (n = name)) as [->|Hn]; [|rewrite lookup_insert_ne in Hb by done; eauto].
    rewrite lookup_insert_eq in Hb. injection Hb as <-. destruct (Hs p e f Hr) as (-> & -> & ->). done.
  - intros n b' Hin Hb Hr. destruct (decide (n = name)) as [->|Hn]; [done|]. rewrite lookup_insert_ne in Hb by done. by apply (Ho n b').
Qed.

Lemma found_none_only pipeline env from name w : FindRollback (get_of w) pipeline env from = inl None → only_at pipeline env from name w.
Proof.
  intros Hf n b Hin Hb Hr%IsRollbackOf_counts. by rewrite (proj1 (find_in_none _ _ _ _ _) Hf n b Hin Hb) in Hr.
Qed.

Lemma begin_ok pipeline env from cs w l :
  cs = [] ∨ (FindRollback (get_of w) pipeline env from = inl None ∧ ∃ name, Forall (proper_send pipeline env from name) cs) →
  (pipeline, env, from) ∉ failure <$> l → cluster_ok (mkCluster w l) → cluster_ok (mkCluster w (mkRunning pipeline env from cs :: l)).
Proof.
  intros Hcs Hk [H1 H2 H3]. split; simpl; [done| |by apply NoDup_cons]. intros r [->|Hr]%elem_of_cons; [|by apply H2].
  destruct Hcs as [->|(Hf & name & Hs)]; [by left|right]. exists name. split; [done|by apply found_none_only].
Qed.

Lemma send_ok pipeline env from c rest w w' l1 l2 :
  create_in w c w' → cluster_ok (mkCluster w (l1 ++ mkRunning pipeline env from (c :: rest) :: l2)) →
  cluster_ok (mkCluster w' (l1 ++ mkRunning pipeline env from rest :: l2)).
Proof.
  intros Hc [H1 H2 H3]. simpl in *. rewrite fmap_app in H3. simpl in H3.
  destruct (H2 (mkRunning pipeline env from (c :: rest))) as [?|(name & [Hs Hrest]%Forall_cons & Ho)]; [apply elem_of_app; right; left|done|]. simpl in *.
  destruct (create_new _ _ _ _ _ _ _ Hs Ho Hc) as [Hn Ho']. split; simpl.
  - intros p e f. destruct (decide ((p, e, f) = (pipeline, env, from))) as [[= -> -> ->]|Hne]; [|apply (no_new_one _ _ _ _ _ _ Hn); [congruence|done]].
    intros n1 n2 b1 b2 Hi1 Hi2 Hb1 Hb2 Hr1 Hr2. by rewrite (Ho' n1 b1), (Ho' n2 b2).
  - assert (∀ r, r ∈ l1 ∨ r ∈ l2 → run_ok w' r) as Hold.
    { intros r Hr. apply (no_new_run _ _ _ _ Hn); [|apply H2; rewrite elem_of_app, elem_of_cons; tauto]. intros E%(inj Some).
      apply NoDup_app in H3 as (_ & Hd & [Hx _]%NoDup_cons). destruct Hr as [Hr|Hr]; apply (list_elem_of_fmap_2 failure) in Hr; rewrite E in Hr; [|done].
      by apply (Hd _ Hr), elem_of_cons; left. }
    intros r [Hr|[->|Hr]%elem_of_cons]%elem_of_app; [by apply Hold; left| |by apply Hold; right]. right. by exists name.
  - by rewrite fmap_app.
Qed.

Lemma cluster_step_ok x y : cluster_step x y → cluster_ok x → cluster_ok y.
Proof.
  intros [pipeline env from rr w l Hf Hrd Hk|pipeline env from rr w l Hf Hrd Hk|pipeline env from c rest w w' l1 l2 Hc|r w l1 l2|w w' l Ho].
  - apply begin_ok; [|done]. destruct (alarm_sends w rr pipeline env from Hf Hrd) as [E|(Hn & name & _ & Hs)]; eauto.
  - apply begin_ok; [|done]. destruct (policy_sends w rr pipeline env from Hf Hrd) as [E|(Hn & name & _ & Hs & _)]; eauto.
  - by apply send_ok.
  - intros [H1 H2 H3]. split; simpl in *; [done|intros r' Hr'; apply H2; rewrite elem_of_app, elem_of_cons; apply elem_of_app in Hr'; tauto|].
    rewrite fmap_app in H3 |- *. simpl in H3. apply NoDup_app in H3 as (? & Hd & [_ ?]%NoDup_cons). apply NoDup_app. split_and!; [done| |done].
    intros k Hk ?. apply (Hd k Hk). by right.
  - assert (no_new None w w') as Hn.
    { intros n b p e f _ Hb Hr. destruct (Ho n b Hb) as (b0 & Hb0 & Hsame); [|exists b0; auto]. unfold IsRollbackOf in Hr. by bools. }
    intros [H1 H2 H3]. split; simpl in *; [|intros r Hr|done].
    + intros p e f. by apply (no_new_one None w).
    + by apply (no_new_run None w); [..|apply H2].
Qed.


(** ** Crashes of the policy's reconcile *)

Lemma leaves_world w s l w' s' : (∀ c, CreateBundle c ∉ l) → leaves (w, s) l (w', s') → w' = w.
Proof.
  intros Hno Hl. remember (w, s) as x eqn:Ex. remember (w', s') as y eqn:Ey. revert w s Ex Ey.
  induction Hl as [x effs|w0 s0 s1 effs y Hl IH|w0 s0 c w1 effs y Hc Hl IH|w0 s0 effs y Hl IH]; intros w s Ex Ey; simplify_eq.
  - done.
  - apply (IH (λ c Hc, Hno c (list_elem_of_further _ _ _ Hc)) _ _ eq_refl eq_refl).
  - by destruct (Hno c (list_elem_of_here _ _)).
  - apply (IH (λ c Hc, Hno c (list_elem_of_further _ _ _ Hc)) _ _ eq_refl eq_refl).
Qed.

(** The rollback a run sent is found from then on. *)
Lemma found_after pipeline env from name w w' n b :
  FindRollback (get_of w) pipeline env from = inl None → name ∈ rollback_names env from → sent_only pipeline env from name w w' →
  w !! n = None → w' !! n = Some b → IsRollbackOf pipeline env from b = true →
  n = name ∧ FindRollback (get_of w') pipeline env from = inl (Some n).
Proof.
  intros Hf Hin [Ho _] Hn Hb Hr. destruct (decide (n = name)) as [->|Hne]; [|rewrite Ho in Hb by done; congruence]. split; [done|].
  apply (find_in_only _ _ _ _ _ _ b); [done|done|by apply IsRollbackOf_counts|].
  intros m c Hm Hne Hc. rewrite Ho in Hc by done. by apply (proj1 (find_in_none _ _ _ _ _) Hf m).
Qed.

(** A name is recorded of a triggered policy only. *)
Definition policy_ok (s : PolicyStatus) : Prop := is_Some (ps_RollbackBundleName s) → ps_ShouldRollback s = true.

Lemma leaves_status w s l w' s' : leaves (w, s) l (w', s') → s' = s ∨ PatchStatus s' ∈ l.
Proof.
  intros Hl. remember (w, s) as x eqn:Ex. remember (w', s') as y eqn:Ey. revert w s Ex Ey.
  induction Hl as [x effs|w0 s0 s1 effs y Hl IH|w0 s0 c w1 effs y Hc Hl IH|w0 s0 effs y Hl IH]; intros w s Ex Ey; simplify_eq; [by left|..];
    destruct (IH _ _ eq_refl eq_refl) as [->|?]; [right; by left|right; by right|by left|right; by right|by left|right; by right].
Qed.

Definition with_policy_status (s : PolicyStatus) (rp : Policy) : Policy :=
  mkPolicy (rp_Name rp) (rp_PipelineName rp) (rp_Environment rp) (rp_BundleRef rp) (rp_FailureThreshold rp) (rp_Generation rp) s.

Lemma bundleStepFailures_status s rp steps : bundleStepFailures (with_policy_status s rp) steps = bundleStepFailures rp steps.
Proof. done. Qed.

(** A rollback that exists and is not recorded is recorded, and nothing is created. *)
Lemma reconcile_records rp steps w rr text now n :
  ps_ShouldRollback (rp_Status rp) = true → ps_RollbackBundleName (rp_Status rp) = None → reads_of w rr →
  (bundleStepFailures rp steps).2 ≠ 0%nat →
  FindRollback (get_of w) (rp_PipelineName rp) (rp_Environment rp) (rp_BundleRef rp) = inl (Some n) →
  ∃ s1 s2, reconcile (Got rp) (Some steps) (get_of w) rr text now = ([PatchStatus s1; PatchStatus s2], Done) ∧
    policy_ok s1 ∧ ps_ShouldRollback s2 = true ∧ ps_RollbackBundleName s2 = Some n.
Proof.
  intros Hs Hn [Hrf _] Hc Hf. unfold reconcile. assert (terminal (rp_Status rp) = false) as ->.
  { unfold terminal. rewrite Hn. by rewrite andb_false_r. }
  destruct (bundleStepFailures rp steps) as [failures count]. cbn [snd] in Hc. rewrite bool_decide_false by done.
  assert (triggered_of (get_of w) rp failures = Some true) as ->.
  { unfold triggered_of. destruct (_ <=? _)%Z; [done|]. by rewrite Hs, Hf. }
  unfold ensureRollbackBundle. rewrite Hrf, Hf. cbn [fmap list_fmap app].
  unfold recordOutcome, evaluated. cbn [ps_RollbackBundleName ps_Refused ps_ShouldRollback]. rewrite Hn.
  rewrite (bool_decide_false (None = Some n)) by done. cbn [negb orb].
  destruct (SetStatusCondition _ _) as [cond moved]. cbn [orb]. eexists _, _. split; [done|]. by split.
Qed.

(** The effects of a reconcile that creates: first the trigger is written, last the outcome. *)
Lemma reconcile_shape rp steps w rr text now :
  (∀ c, CreateBundle c ∉ (reconcile (Got rp) (Some steps) (get_of w) rr text now).1) ∨
  ∃ s rest, terminal (rp_Status rp) = false ∧ (bundleStepFailures rp steps).2 ≠ 0%nat ∧
    s = evaluated rp (bundleStepFailures rp steps).1 true now ∧
    let run := ensureRollbackBundle (rp_PipelineName rp) (rp_Environment rp) (rp_BundleRef rp) rr in
    (reconcile (Got rp) (Some steps) (get_of w) rr text now).1 = PatchStatus s :: (CreateBundle <$> run.1) ++ rest ∧
    match run.2 with
    | Rolled n => rest = recordOutcome (rp_Generation rp) s (inr n) text now
    | Refusal r => rest = recordOutcome (rp_Generation rp) s (inl r) text now
    | Retry => rest = []
    end.
Proof.
  unfold reconcile. destruct (terminal _) eqn:Et; [left; by intros c ?%elem_of_nil|].
  destruct (bundleStepFailures rp steps) as [failures count]. case_bool_decide as Ec; [left; by intros c ?%elem_of_nil|].
  destruct (triggered_of _ _ _) as [[]|]; [|left; by intros c ?%list_elem_of_singleton|left; by intros c ?%elem_of_nil].
  destruct (ensureRollbackBundle _ _ _ _) as [cs a]. right. cbn [fst snd].
  destruct a; eexists _, _; split_and!; try done; cbn [fst]; by rewrite ?app_nil_r.
Qed.

Lemma recordOutcome_effects gen s o text now e :
  e ∈ recordOutcome gen s o text now →
  (∃ c, e = PatchStatus (mkPolicyStatus (ps_ShouldRollback s) (ps_ConsecutiveFailures s)
          (match o with inl _ => ps_RollbackBundleName s | inr n => Some n end) (ps_LastEvaluatedAt s) c)) ∨ e = EmitRefused.
Proof.
  unfold recordOutcome. destruct o as [r|n]; destruct (SetStatusCondition _ _) as [cond moved].
  - destruct (false || moved); [|by intros ?%elem_of_nil]. intros [->|He]%elem_of_cons; [left; by eexists|right].
    destruct (match ps_Refused s with Some o => rc_True o | None => false end); [by apply elem_of_nil in He|by apply list_elem_of_singleton in He].
  - destruct (_ || moved); [|by intros ?%elem_of_nil]. intros ->%list_elem_of_singleton. left. by eexists.
Qed.

Lemma rest_no_create (run : attempt refusal) gen s text now rest c :
  match run with
  | Rolled n => rest = recordOutcome gen s (inr n) text now
  | Refusal r => rest = recordOutcome gen s (inl r) text now
  | Retry => rest = []
  end → CreateBundle c ∉ rest.
Proof. destruct run as [n|r|]; intros ->; [intros [[? ?]|?]%recordOutcome_effects..|intros ?%elem_of_nil]; done. Qed.

(** C13. A crash neither doubles nor loses the rollback of a policy.  Take a reconcile that
    put the rollback into the namespace, stopped anywhere after that, with the answer of
    the create lost or not.  Then the policy is triggered, and the next reconcile creates
    nothing: either the rollback is recorded already and there is nothing to do, or its
    name is written now, whatever the failures are by then. *)
Theorem policy_crash_safe rp steps rr text now w w' s' n b :
  rp_BundleRef rp ≠ "" → policy_ok (rp_Status rp) → reads_of w rr →
  leaves (w, rp_Status rp) (reconcile (Got rp) (Some steps) (get_of w) rr text now).1 (w', s') →
  w !! n = None → w' !! n = Some b → IsRollbackOf (rp_PipelineName rp) (rp_Environment rp) (rp_BundleRef rp) b = true →
  ps_ShouldRollback s' = true ∧
  ∀ steps' rr' text' now', reads_of w' rr' → (bundleStepFailures rp steps').2 ≠ 0%nat →
    let next := reconcile (Got (with_policy_status s' rp)) (Some steps') (get_of w') rr' text' now' in
    (ps_RollbackBundleName s' = Some n ∧ next = ([], Done)) ∨
    (ps_RollbackBundleName s' = None ∧ ∃ s1 s2, next = ([PatchStatus s1; PatchStatus s2], Done) ∧
       ps_ShouldRollback s2 = true ∧ ps_RollbackBundleName s2 = Some n).
Proof.
  intros Hne Hok Hrd Hl Hn Hb Hr.
  destruct (reconcile_shape rp steps w rr text now) as [Hno|(s & rest & Ht & _ & Hs & He & Hrest)].
  { rewrite (leaves_world _ _ _ _ _ Hno Hl) in Hb. congruence. }
  assert (ps_RollbackBundleName (rp_Status rp) = None) as Hnone.
  { unfold terminal in Ht. destruct (ps_RollbackBundleName (rp_Status rp)) as [m|] eqn:Em; [|done].
    rewrite (Hok ltac:(by eexists)) in Ht. done. }
  assert (ps_ShouldRollback s = true ∧ ps_RollbackBundleName s = None) as [Hs1 Hs2] by (by subst s).
  rewrite He in Hl. inversion Hl as [|w0 s0 s1 effs y Hl'| |]; simplify_eq. clear Hl He.
  destruct (policy_sends w rr (rp_PipelineName rp) (rp_Environment rp) (rp_BundleRef rp) Hne (proj1 Hrd)) as [Es|(Hf & name & Hin & Hsends & Hres)].
  { rewrite Es in Hl'. apply leaves_world in Hl' as ->; [congruence|]. intros c Hc. by apply (rest_no_create _ _ _ _ _ _ _ Hrest) in Hc. }
  destruct (found_after _ _ _ name w w' n b Hf Hin) as [-> Hfound]; [|done..|].
  { refine (leaves_sends _ _ _ _ _ _ _ _ _ _ Hl'). intros c [Hc|Hc]%elem_of_app; [by apply (proper_all _ _ _ _ _ Hsends)|].
    by apply (rest_no_create _ _ _ _ _ _ _ Hrest) in Hc. }
  apply leaves_status in Hl' as [->|[Hc|Hc]%elem_of_app].
  - split; [done|]. intros steps' rr' text' now' Hrd' Hc'. right. split; [done|].
    edestruct (reconcile_records (with_policy_status (evaluated rp (bundleStepFailures rp steps).1 true now) rp) steps' w' rr' text' now' name)
      as (s1 & s2 & H1 & _ & H2); [done..|]. by exists s1, s2.
  - by apply list_elem_of_fmap in Hc as (? & ? & _).
  - destruct (ensureRollbackBundle _ _ _ rr).2 as [m| |]; [subst m rest|done|by rewrite Hrest in Hc; apply elem_of_nil in Hc].
    apply recordOutcome_effects in Hc as [[c [= ->]]|]; [|done]. split; [done|]. intros steps' rr' text' now' _ _. by left.
Qed.

(** ** When a policy acts *)

Lemma failures_step_max rp steps acc :
  let r := foldl (failures_step rp) acc steps in
  (acc.1 ≤ r.1)%Z ∧ (∀ s, s ∈ steps → monitors rp s = true → (ws_Failures s ≤ r.1)%Z) ∧
  (r.1 = acc.1 ∨ ∃ s, s ∈ steps ∧ monitors rp s = true ∧ ws_Failures s = r.1) ∧
  (acc.2 ≤ r.2)%nat ∧ ((acc.2 < r.2)%nat ↔ ∃ s, s ∈ steps ∧ monitors rp s = true).
Proof.
  revert acc. induction steps as [|s steps IH]; intros acc; simpl.
  { split_and!; [lia|by intros ? ?%elem_of_nil|by left|lia|]. split; [lia|]. by intros (? & ?%elem_of_nil & _). }
  destruct (IH (failures_step rp acc s)) as (H1 & H2 & H3 & H4 & H5). unfold failures_step in *. destruct (monitors rp s) eqn:Em; simpl in *.
  - assert (acc.1 ≤ (if (acc.1 <? ws_Failures s)%Z then ws_Failures s else acc.1) ∧
            ws_Failures s ≤ (if (acc.1 <? ws_Failures s)%Z then ws_Failures s else acc.1))%Z as [Ha Hs] by (destruct (Z.ltb_spec acc.1 (ws_Failures s)); lia).
    split_and!; [lia| | |lia|split; [intros _; exists s; split; [by left|done]|lia]].
    + intros s' [->|Hs']%elem_of_cons Hm; [lia|by apply H2].
    + destruct H3 as [H3|(s' & Hs' & ? & ?)]; [|right; exists s'; split; [by right|done]].
      destruct (acc.1 <? ws_Failures s)%Z; [|by left]. right. exists s. split; [by left|done].
  - split_and!; [lia| |destruct H3 as [?|(s' & ? & ?)]; [by left|right; exists s'; split; [by right|done]]|lia|].
    + intros s' [->|Hs']%elem_of_cons Hm; [congruence|by apply H2].
    + rewrite H5. split; intros (s' & Hs' & Hm); exists s'; (split; [|done]); [by right|].
      apply elem_of_cons in Hs' as [->|?]; [congruence|done].
Qed.

Lemma threshold_pos rp : (0 < threshold_of rp)%Z.
Proof. unfold threshold_of, defaultFailureThreshold. destruct (Z.leb_spec (rp_FailureThreshold rp) 0); lia. Qed.

Lemma threshold_reached rp steps :
  (threshold_of rp <=? (bundleStepFailures rp steps).1)%Z = true ↔
  ∃ st, st ∈ steps ∧ monitors rp st = true ∧ (threshold_of rp ≤ ws_Failures st)%Z.
Proof.
  destruct (failures_step_max rp steps (0, 0%nat)) as (_ & H2 & H3 & _). fold (bundleStepFailures rp steps) in *. cbn [fst] in *.
  pose proof (threshold_pos rp). rewrite Z.leb_le. split.
  - intros Hle. destruct H3 as [H3|(s & Hs & Hm & E)]; [lia|]. exists s. split_and!; [done|done|lia].
  - intros (s & Hs & Hm & Hle). specialize (H2 s Hs Hm). lia.
Qed.

Lemma some_monitored rp steps : (bundleStepFailures rp steps).2 ≠ 0%nat ↔ ∃ st, st ∈ steps ∧ monitors rp st = true.
Proof. destruct (failures_step_max rp steps (0, 0%nat)) as (_ & _ & _ & _ & H). rewrite <- H. unfold bundleStepFailures. cbn [snd]. lia. Qed.

(** When a RollbackPolicy acts.  A policy whose rollback is not recorded yet becomes
    triggered exactly when a step of its Bundle in its environment has reached the
    threshold, or it was triggered before and the rollback exists by now; and it creates a
    rollback only in the first case, when there is none yet. *)
Theorem policy_triggers rp steps w rr text now :
  terminal (rp_Status rp) = false → rp_BundleRef rp ≠ "" → reads_of w rr →
  let effs := (reconcile (Got rp) (Some steps) (get_of w) rr text now).1 in
  let found := FindRollback (get_of w) (rp_PipelineName rp) (rp_Environment rp) (rp_BundleRef rp) in
  let reached := ∃ st, st ∈ steps ∧ monitors rp st = true ∧ (threshold_of rp ≤ ws_Failures st)%Z in
  ((∃ s rest, effs = PatchStatus s :: rest ∧ ps_ShouldRollback s = true) ↔
     reached ∨ (ps_ShouldRollback (rp_Status rp) = true ∧ (∃ st, st ∈ steps ∧ monitors rp st = true) ∧ ∃ n, found = inl (Some n))) ∧
  (∀ c, CreateBundle c ∈ effs → reached ∧ found = inl None).
Proof.
  intros Ht Hne Hrd. cbv zeta. rewrite <- some_monitored. unfold reconcile. rewrite Ht. pose proof (threshold_reached rp steps) as Hth.
  pose proof (some_monitored rp steps) as Hm. destruct (bundleStepFailures rp steps) as [failures count]. cbn [fst snd] in *.
  case_bool_decide as Ec.
  { split; [|by intros ? ?%elem_of_nil]. split; [by intros (? & ? & ? & _)|]. intros [(st & Hs & Hmo & _)|(_ & ? & _)]; [|done].
    destruct (proj2 Hm); [by exists st|done]. }
  unfold triggered_of. destruct (threshold_of rp <=? failures)%Z eqn:Eth.
  { pose proof (proj1 Hth eq_refl) as Hr. split.
    - split; [by left|]. intros _. destruct (ensureRollbackBundle _ _ _ rr) as [cs []]; by eexists _, _.
    - destruct (policy_sends w rr (rp_PipelineName rp) (rp_Environment rp) (rp_BundleRef rp) Hne (proj1 Hrd)) as [Es|(Hf & _)]; [|done].
      destruct (ensureRollbackBundle _ _ _ rr) as [cs a]. cbn [fst] in Es. subst cs. intros c Hc. exfalso.
      destruct a; cbn [fst fmap list_fmap app] in Hc; apply elem_of_cons in Hc as [?|Hc]; try done; [..|by apply elem_of_nil in Hc];
        apply recordOutcome_effects in Hc as [[? ?]|?]; done. }
  assert (¬ ∃ st, st ∈ steps ∧ monitors rp st = true ∧ (threshold_of rp ≤ ws_Failures st)%Z) as Hnr by (by rewrite <- Hth).
  destruct (ps_ShouldRollback (rp_Status rp)).
  2: { split; [|by intros c ?%list_elem_of_singleton]. split; [by intros (? & ? & [= <- _] & ?)|by intros [?|(? & _)]]. }
  destruct (FindRollback _ _ _ _) as [[n|]|] eqn:Ef.
  - rewrite bool_decide_true by (by eexists). split.
    + split; [intros _; right; split_and!; [done|done|by exists n]|]. intros _. destruct (ensureRollbackBundle _ _ _ rr) as [cs []]; by eexists _, _.
    + unfold ensureRollbackBundle. rewrite (proj1 Hrd), Ef. cbn [fst]. intros c Hc. exfalso. cbn [app fmap list_fmap] in Hc.
      apply elem_of_cons in Hc as [?|[[? ?]|?]%recordOutcome_effects]; done.
  - split; [|by intros c ?%list_elem_of_singleton]. split; [by intros (? & ? & [= <- _] & ?)|]. by intros [?|(_ & _ & ? & ?)].
  - split; [|by intros c ?%elem_of_nil]. split; [by intros (? & ? & ? & _)|]. by intros [?|(_ & _ & ? & ?)].
Qed.

(** A policy is not polled: every step it counts wakes it up, and no other does. *)
Theorem watch_covers rp policies s :
  rp ∈ policies → rp_BundleRef rp ≠ "" → NoDup (rp_Name <$> policies) →
  (rp_Name rp ∈ policiesForStep (Some policies) s ↔ monitors rp s = true).
Proof.
  intros Hin Hne Hnd. unfold policiesForStep, monitors. split.
  - case_bool_decide; [by intros ?%elem_of_nil|]. intros (rp' & E & Hf)%list_elem_of_fmap.
    apply list_elem_of_In, filter_In in Hf as [Hin'%list_elem_of_In Hm].
    assert (rp' = rp) as -> by (by apply (NoDup_fmap_elem_eq rp_Name policies)). bools. by rewrite !bool_decide_true.
  - intros Hm. bools. rewrite bool_decide_false by congruence. apply list_elem_of_fmap_2, list_elem_of_In, filter_In.
    split; [by apply list_elem_of_In|]. by rewrite !bool_decide_true.
Qed.

(** ** The length of a name *)

Lemma substring_length_le n s : (str_length (String.substring 0 n s) ≤ n)%nat.
Proof. revert n. induction s as [|a s IH]; intros [|n]; simpl; [lia..|]. specialize (IH n). unfold str_length in *. lia. Qed.

Lemma TrimRight_length s : (str_length (TrimRight s) ≤ str_length s)%nat.
Proof.
  induction s as [|a s IH]; [done|]. simpl. unfold str_length in *. destruct (TrimRight s) as [|a' t]; simpl in *; [|lia].
  destruct (in_cutset a); simpl; lia.
Qed.

(** The name of a rollback is never longer than the label value it becomes, whatever
    the names of the Bundle and the environment are. *)
Theorem rollback_name_fits bundle source :
  (∀ n, IsValidLabelValue n = true → (str_length n ≤ LabelValueMaxLength)%nat) →
  (str_length (AutoRollbackName bundle source) ≤ LabelValueMaxLength)%nat.
Proof.
  intros Hv. unfold AutoRollbackName. destruct (_ && _) eqn:E; [apply andb_true_iff in E as [? _]; by apply Hv|].
  set (hash := String.substring 0 10 _). assert (str_length hash ≤ 10)%nat as Hh by apply substring_length_le.
  set (suffix := "-rollback-" +:+ hash). assert (str_length suffix = 10 + str_length hash)%nat as Hs by (apply str_length_app).
  case_bool_decide.
  - replace (TrimPrefix suffix "-") with ("rollback-" +:+ hash) by (symmetry; apply (TrimPrefix_app "-" ("rollback-" +:+ hash))).
    rewrite str_length_app. unfold LabelValueMaxLength. simpl. lia.
  - rewrite str_length_app. match goal with |- context [TrimRight ?t] => pose proof (TrimRight_length t) end.
    match goal with H : (_ ≤ str_length (String.substring 0 ?n ?t))%nat |- _ => pose proof (substring_length_le n t) end.
    unfold LabelValueMaxLength in *. lia.
Qed.
End names.

(** ** Examples *)

Abbreviation demo_alarm := (createAutoRollback (λ _, true) (λ _, true) id (λ _, None) Fleet.demo_scaled (λ _, true) (λ a b, a +:+ "/" +:+ b) Some).
Abbreviation demo_ensure := (ensureRollbackBundle (λ _, true) (λ _, true) id (λ _, None) Fleet.demo_scaled (λ _, true) (λ a b, a +:+ "/" +:+ b) Some).
Abbreviation demo_reconcile := (reconcile (λ _, true) (λ _, true) id (λ _, None) Fleet.demo_scaled (λ _, true) (λ a b, a +:+ "/" +:+ b) Some).
Abbreviation demo_step_in := (cluster_step (λ _, true) (λ _, true) id (λ _, None) Fleet.demo_scaled (λ _, true) (λ a b, a +:+ "/" +:+ b) Some).

(** v2 failed in prod, where v1 was Verified before; [w] are the Bundles that are read. *)
Definition demo_run (w : world) (first second : create_answer) : RunReads :=
  mkRun (get_of w) (get_of w) (Got (Hold.pp_Fleets Hold.demo_app)) (Some demo_steps) demo_snapshot 100 first second (get_of w).

Definition demo_sent (actor name : string) : Stored :=
  mkStored (StampCreatedBy ControllerCreator (auto_bundle actor "app" "prod" "v2" name 100 demo_planned)) true.

Definition demo_world : world := <["v2-rollback-alarm" := demo_sent autoRollbackActor "v2-rollback-alarm"]> ∅.

Lemma demo_alarm_sends : (demo_alarm "app" "prod" "v2" (demo_run ∅ CreateOK CreateOK)).1 =
  [(demo_sent autoRollbackActor "v2-rollback-alarm", CreateOK)].
Proof. vm_compute. reflexivity. Qed.

Definition demo_untriggered : PolicyStatus := mkPolicyStatus false 0 None None None.

(** While the step's run for prod is under way, the policy's run for staging begins. *)
Definition demo_cluster : Cluster :=
  mkCluster demo_world [mkRunning "app" "staging" "v2" (demo_ensure "app" "staging" "v2" (demo_run ∅ CreateOK CreateOK)).1; mkRunning "app" "prod" "v2" []].

Lemma demo_reached : rtc demo_step_in (mkCluster ∅ []) demo_cluster.
Proof.
  eapply rtc_l; [apply (begin_alarm _ _ _ _ _ _ _ _ "app" "prod" "v2" (demo_run ∅ CreateOK CreateOK)); [done|done|apply not_elem_of_nil]|].
  rewrite demo_alarm_sends.
  eapply rtc_l; [apply (begin_policy _ _ _ _ _ _ _ _ "app" "staging" "v2" (demo_run ∅ CreateOK CreateOK)); [done|done|]|].
  { intros H. by apply list_elem_of_singleton in H. }
  apply rtc_once. apply (send_create _ _ _ _ _ _ _ _ "app" "prod" "v2" (demo_sent autoRollbackActor "v2-rollback-alarm", CreateOK) [] ∅ demo_world
    [mkRunning "app" "staging" "v2" (demo_ensure "app" "staging" "v2" (demo_run ∅ CreateOK CreateOK)).1] []).
  by apply (create_ok ∅ (demo_sent _ _)).
Qed.


(** A policy for v2 in prod, three failures seen. *)
Definition demo_policy : Policy := mkPolicy "guard" "app" "prod" "v2" 0 1 demo_untriggered.
Definition demo_failing (n : Z) : list PolicyStep := [mkPolicyStep "app" "prod" "v2" "" n].

Definition demo_policy_world : world := <["v2-rollback-policy" := demo_sent policyActor "v2-rollback-policy"]> ∅.

(** The reconcile crashes after the create; by the next one the failures are gone. *)
Definition demo_crashed : PolicyStatus := evaluated demo_policy 3 true 100.

Lemma demo_crash : leaves (∅, demo_untriggered)
  (demo_reconcile (Got demo_policy) (Some (demo_failing 3)) (get_of ∅) (demo_run ∅ CreateOK CreateOK) "" 100).1 (demo_policy_world, demo_crashed).
Proof.
  assert ((demo_reconcile (Got demo_policy) (Some (demo_failing 3)) (get_of ∅) (demo_run ∅ CreateOK CreateOK) "" 100).1 =
    PatchStatus demo_crashed :: CreateBundle (demo_sent policyActor "v2-rollback-policy", CreateOK) ::
    recordOutcome 1 demo_crashed (inr "v2-rollback-policy") "" 100) as -> by (vm_compute; reflexivity).
  apply leaves_patch, (leaves_create _ _ _ demo_policy_world); [by apply (create_ok ∅ (demo_sent _ _))|apply leaves_stop].
Qed.

Lemma policy_crash_safe_witness :
  ∃ s1 s2, demo_reconcile (Got (with_policy_status demo_crashed demo_policy)) (Some (demo_failing 0)) (get_of demo_policy_world)
    (demo_run demo_policy_world CreateOK CreateOK) "" 200 = ([PatchStatus s1; PatchStatus s2], Done) ∧
    ps_RollbackBundleName s2 = Some "v2-rollback-policy".
Proof.
  edestruct (policy_crash_safe (λ _, true) (λ _, true) id (λ _, None) Fleet.demo_scaled (λ _, true) (λ a b, a +:+ "/" +:+ b) Some
    demo_policy (demo_failing 3) (demo_run ∅ CreateOK CreateOK) "" 100 ∅ demo_policy_world demo_crashed "v2-rollback-policy"
    (demo_sent policyActor "v2-rollback-policy")) as [_ H].
  - discriminate.
  - intros []; discriminate.
  - split; reflexivity.
  - exact demo_crash.
  - reflexivity.
  - reflexivity.
  - vm_compute. reflexivity.
  - destruct (H (demo_failing 0) (demo_run demo_policy_world CreateOK CreateOK) "" 200) as [[E _]|(_ & s1 & s2 & E & _ & En)].
    + split; reflexivity.
    + vm_compute. discriminate.
    + vm_compute in E. discriminate E.
    + exists s1, s2. split; [exact E|exact En].
Defined.

Lemma policy_triggers_witness :
  let effs := (demo_reconcile (Got demo_policy) (Some (demo_failing 3)) (get_of ∅) (demo_run ∅ CreateOK CreateOK) "" 100).1 in
  ∃ s rest, effs = PatchStatus s :: rest ∧ ps_ShouldRollback s = true.
Proof.
  apply (proj1 (policy_triggers (λ _, true) (λ _, true) id (λ _, None) Fleet.demo_scaled (λ _, true) (λ a b, a +:+ "/" +:+ b) Some
    demo_policy (demo_failing 3) ∅ (demo_run ∅ CreateOK CreateOK) "" 100 eq_refl ltac:(discriminate) ltac:(split; reflexivity))).
  left. exists (mkPolicyStep "app" "prod" "v2" "" 3). split_and!; [left|reflexivity|vm_compute; discriminate].
Defined.

Lemma rollback_name_fits_witness :
  (str_length (AutoRollbackName (λ n, str_length n <=? 63)%nat (λ _, true) id "app-0123456789-0123456789-0123456789-0123456789-0123456789"
    "alarm-production") ≤ LabelValueMaxLength)%nat.
Proof. apply rollback_name_fits. intros n Hn. apply Nat.leb_le, Hn. Defined.

(** Two rollbacks of the same failure: a step and a policy that look before either has
    created one do not see each other's, and their names differ. *)
Theorem overlapping_runs_two_rollbacks :
  let w := <["v2-rollback-policy" := demo_sent policyActor "v2-rollback-policy"]> demo_world in
  (∃ s, leaves (∅, s) (CreateBundle <$> (demo_alarm "app" "prod" "v2" (demo_run ∅ CreateOK CreateOK)).1) (demo_world, s)) ∧
  (∃ s, leaves (demo_world, s) (CreateBundle <$> (demo_ensure "app" "prod" "v2" (demo_run ∅ CreateOK CreateOK)).1) (w, s)) ∧
  ¬ at_most_one (λ _, true) (λ _, true) id "app" "prod" "v2" w.
Proof.
  cbv zeta. split_and!.
  - exists demo_untriggered. rewrite demo_alarm_sends.
    apply (leaves_create _ _ _ demo_world); [by apply (create_ok ∅ (demo_sent _ _))|apply leaves_stop].
  - exists demo_untriggered.
    assert ((demo_ensure "app" "prod" "v2" (demo_run ∅ CreateOK CreateOK)).1 = [(demo_sent policyActor "v2-rollback-policy", CreateOK)]) as ->
      by (vm_compute; reflexivity).
    eapply leaves_create; [by apply (create_ok demo_world (demo_sent _ _))|apply leaves_stop].
  - intros H. specialize (H "v2-rollback-alarm" "v2-rollback-policy"). ospecialize (H _ _ _ _ _ _ _ _); [..|done].
    + left.
    + right. right. left.
    + reflexivity.
    + reflexivity.
    + vm_compute. reflexivity.
    + vm_compute. reflexivity.
Qed.

(** A controller that may not stamp its Bundles does not find its own rollback again: a
    second region of the environment makes another one, and only the third is refused. *)
Theorem unstamped_rollback_repeats :
  let plain := mkStored (with_creator "" None (sb_Bundle (demo_sent autoRollbackActor "v2-rollback-alarm"))) true in
  let own := mkStored (with_creator "" None (sb_Bundle (demo_sent autoRollbackActor "v2-rollback-alarm-prod"))) true in
  let w1 : world := <["v2-rollback-alarm" := plain]> ∅ in
  let w2 : world := <["v2-rollback-alarm-prod" := own]> w1 in
  demo_alarm "app" "prod" "v2" (demo_run ∅ CreateForbidden CreateOK) =
    ([(demo_sent autoRollbackActor "v2-rollback-alarm", CreateForbidden); (plain, CreateOK)], Rolled "v2-rollback-alarm") ∧
  demo_alarm "app" "prod" "v2" (demo_run w1 CreateForbidden CreateOK) =
    ([(demo_sent autoRollbackActor "v2-rollback-alarm-prod", CreateForbidden); (own, CreateOK)], Rolled "v2-rollback-alarm-prod") ∧
  demo_alarm "app" "prod" "v2" (demo_run w2 CreateForbidden CreateOK) = ([], Refusal ErrConflict).
Proof. vm_compute. by split_and!. Qed.

End AutoRollback.
