(* ===== verification/PipelinePhase.v ===== *)
(** * PipelinePhase: what a Pipeline shows

    Model of DerivePhase and anyInFlight (src/pkg/reconciler/pipeline/reconciler.go), of
    Halted, RejectedLiveStep, moreCurrent and CurrentBundle
    (src/pkg/lifecycle/lifecycle.go), and of the projection of the environments:
    ProjectEnvironments, currentStep and verifiedSince (environments.go), with
    BundleVersion (src/pkg/scm/pr_template.go).  Bundles and steps are those of
    [Rollback] and [History]; the order of Bundles is [RollbackFleet.created_before]. *)

From stdpp Require Import base gmap strings list sorting pretty.
From Stdlib Require Import Lia ZArith Ascii.
From S2P Require Import Prelude Topo Ordering Fleet Actor Engine StepStatus Hooks Outbox Bake Transition Cancel Pending PolicyGate History Rollback RollbackFleet BundlePhase Store Hold Deployed Promote.
Import StepStatus.StepStatus History.History Rollback.Rollback.
Import RollbackFleet.RollbackFleet.
Import Promote.Promote(created_before_total, names_inj).

Module PipelinePhase.

(** ** Bundles that count *)

Definition Halted (b : Bundle) : bool := bool_decide (b_Phase b = "Superseded") || Rejected b.

Definition LiveStepState (s : State) : bool := bool_decide (s = StateHealthChecking) || bool_decide (s = StateVerified).

Definition RejectedLiveStep (b : Bundle) (s : Step) : bool :=
  Rejected b && bool_decide (st_Bundle s = b_Name b) && LiveStepState (st_State s).

Definition degradedStates (s : State) : bool :=
  bool_decide (s = StateFailed) || bool_decide (s = StateAbortedByAlarm) || bool_decide (s = StateRollingBack).

Definition inFlightBundlePhases (phase : string) : bool :=
  bool_decide (phase = "") || bool_decide (phase = "Available") || bool_decide (phase = "Promoting").

(** CompareCreation(a, b) > 0. *)
Definition newer (a b : Bundle) : bool := created_before b a.

Definition anyInFlight (pipeline : string) (bundles : list Bundle) : bool :=
  existsb (λ b, bool_decide (b_Pipeline b = pipeline) && negb (Halted b) && inFlightBundlePhases (b_Phase b)) bundles.

(** ** The phase *)

(** [byName], [rejected], [inFlight] and [newestBundle]. *)
Record bundle_state := mkBundles {
  byName : gmap string Bundle;
  rejected : gmap string Bundle;
  inFlight : bool;
  newestBundle : option Bundle
}.

(** The newer one, the first of equals. *)
Definition take_newer (cur : option Bundle) (b : Bundle) : option Bundle :=
  match cur with
  | None => Some b
  | Some c => if newer b c then Some b else cur
  end.

Definition bundle_loop (pipelineName : string) (st : bundle_state) (b : Bundle) : bundle_state :=
  if negb (bool_decide (b_Pipeline b = pipelineName)) then st
  else if Halted b then
    if Rejected b then mkBundles (byName st) (<[b_Name b := b]> (rejected st)) (inFlight st) (newestBundle st) else st
  else mkBundles (<[b_Name b := b]> (byName st)) (rejected st) (inFlight st || inFlightBundlePhases (b_Phase b))
         (take_newer (newestBundle st) b).

(** The Bundle by which a step counts in the first pass. *)
Definition counting (st : bundle_state) (s : Step) : option Bundle :=
  match byName st !! st_Bundle s with
  | Some b => Some b
  | None =>
      match rejected st !! st_Bundle s with
      | Some rb => if RejectedLiveStep rb s then Some rb else None
      | None => None
      end
  end.

Definition newest_loop (st : bundle_state) (newest : gmap string Bundle) (s : Step) : gmap string Bundle :=
  match counting st s with
  | None => newest
  | Some b =>
      match newest !! st_Environment s with
      | Some cur => if newer b cur then <[st_Environment s := b]> newest else newest
      | None => <[st_Environment s := b]> newest
      end
  end.

(** [counted], [hasDegraded] and [allVerified]. *)
Definition tally_loop (newest : gmap string Bundle) (acc : nat * bool * bool) (s : Step) : nat * bool * bool :=
  let '(counted, hasDegraded, allVerified) := acc in
  match newest !! st_Environment s with
  | None => acc
  | Some b =>
      if negb (bool_decide (b_Name b = st_Bundle s)) then acc
      else (S counted, hasDegraded || RejectedLiveStep b s || degradedStates (st_State s),
            allVerified && bool_decide (st_State s = StateVerified))
  end.

Definition DerivePhase (pipelineName : string) (bundles : list Bundle) (steps : list Step) : string :=
  let st := foldl (bundle_loop pipelineName) (mkBundles ∅ ∅ false None) bundles in
  let newest := foldl (newest_loop st) ∅ steps in
  let '(counted, hasDegraded, allVerified) := foldl (tally_loop newest) (0%nat, false, true) steps in
  if hasDegraded || match newestBundle st with Some b => bool_decide (b_Phase b = "Failed") | None => false end then "Degraded"
  else if inFlight st || negb allVerified then "Promoting"
  else if (0 <? counted)%nat then "Ready"
  else "Unknown".

(** ** The current Bundle *)

(** The environments in which the rejected Bundle is live; the steps of other namespaces
    are not among [steps]. *)
Definition RejectedLiveEnvs (b : Bundle) (steps : list Step) : list string :=
  if negb (Rejected b) then []
  else sort_by str_ltb (foldl (λ envs s, if RejectedLiveStep b s && negb (bool_decide (st_Environment s ∈ envs)) then envs ++ [st_Environment s] else envs) [] steps).

Definition moreCurrent (live : string → bool) (a b : Bundle) : bool :=
  let aHalted := Halted a && negb (live (b_Name a)) in
  let bHalted := Halted b && negb (live (b_Name b)) in
  if negb (Bool.eqb aHalted bHalted) then bHalted else newer a b.

Definition live_bundles (bundles : list Bundle) (steps : list Step) : string → bool :=
  λ n, existsb (λ b, bool_decide (b_Name b = n) && (0 <? length (RejectedLiveEnvs b steps))%nat) bundles.

Definition CurrentBundle (bundles : list Bundle) (steps : list Step) : option Bundle :=
  let live := live_bundles bundles steps in
  foldl (λ current b, match current with
                      | None => Some b
                      | Some c => if moreCurrent live b c then Some b else current
                      end) None bundles.

(** ** The version of a Bundle *)

Fixpoint strip_slashes (s : string) : string :=
  match s with
  | EmptyString => EmptyString
  | String a s =>
      match strip_slashes s with
      | EmptyString => if Ascii.eqb a "/"%char then EmptyString else String a EmptyString
      | t => String a t
      end
  end.

(** path.Base. *)
Definition path_Base (p : string) : string :=
  if bool_decide (p = "") then "."
  else let p := strip_slashes p in
       let base := match CutLast "/"%char p with Some (_, b) => b | None => p end in
       if bool_decide (base = "") then "/" else base.

Definition truncate (s : string) (n : nat) : string := if (n <? str_length s)%nat then String.substring 0 n s else s.

Definition shortDigest (d : string) : string :=
  match Cut ":"%char d with
  | Some (algo, hex) => algo +:+ ":" +:+ truncate hex 12
  | None => truncate d 12
  end.

Definition maxVersionImages : nat := 3.

Definition imageVersion (i : ImageRef) : string :=
  let name := path_Base (Repository i) in
  if negb (bool_decide (Tag i = "")) then name +:+ ":" +:+ Tag i
  else if negb (bool_decide (Digest i = "")) then name +:+ "@" +:+ shortDigest (Digest i)
  else name.

Definition imagesVersion (images : list ImageRef) : string :=
  match images with
  | [i] =>
      if negb (bool_decide (Tag i = "")) then Tag i
      else if negb (bool_decide (Digest i = "")) then shortDigest (Digest i)
      else path_Base (Repository i)
  | _ =>
      let v := Join (imageVersion <$> take maxVersionImages images) ", " in
      if (maxVersionImages <? length images)%nat then v +:+ " and " +:+ pretty (length images - maxVersionImages)%nat +:+ " more" else v
  end.

Definition BundleVersion (spec : Artifacts) : string :=
  match (if bool_decide (Type_ spec = "chart") then Chart spec else None) with
  | Some c => ChartName c +:+ " " +:+ Version c
  | None =>
      let config := if has_commit spec then "config " +:+ truncate (commit_of spec) 7 else "" in
      if bool_decide (Type_ spec = "config") || bool_decide (Images spec = []) then config
      else
        let images := imagesVersion (Images spec) in
        if bool_decide (Type_ spec = "mixed") && negb (bool_decide (config = "")) then images +:+ " with " +:+ config else images
  end.

(** ** The environments *)

(** A step, with what only the projection reads of it. *)
Record EStep := mkEStep { es_Step : Step; es_PRURL : string; es_FrozenBy : option string }.

(** A gate instance: its labels, the name a user gave it, and whether it holds its Bundle
    ([Upstreams.gateHolds]). *)
Record Gate := mkGate {
  g_Name : string;
  g_NameLabel : string;
  g_TemplateLabel : string;
  g_Bundle : string;
  g_Environment : string;
  g_Holds : bool
}.

Definition gateName (g : Gate) : string :=
  if negb (bool_decide (g_NameLabel g = "")) then g_NameLabel g
  else if negb (bool_decide (g_TemplateLabel g = "")) then g_TemplateLabel g
  else g_Name g.

(** An entry of status.environments; [e_State] is [None] for the empty string. *)
Record EnvEntry := mkEntry {
  e_Name : string;
  e_Bundle : string;
  e_Version : string;
  e_State : option State;
  e_BlockedBy : list string;
  e_Held : bool;
  e_FrozenBy : string;
  e_IncomingBundle : string;
  e_IncomingVersion : string;
  e_PRURL : string;
  e_Since : option Time
}.

Definition stateBundle (e : EnvEntry) : string :=
  if negb (bool_decide (e_IncomingBundle e = "")) then e_IncomingBundle e else e_Bundle e.

(** The first loop of [currentStep]. *)
Definition current_loop (all : gmap string Bundle) (best : option (EStep * Bundle)) (s : EStep) : option (EStep * Bundle) :=
  match all !! st_Bundle (es_Step s) with
  | None => best
  | Some b =>
      if Halted b && (negb (Rejected b) || negb (RejectedLiveStep b (es_Step s))) then best
      else match best with
           | None => Some (s, b)
           | Some (t, c) =>
               if newer b c || (bool_decide (b_Name b = b_Name c) && newerStep (es_Step s) (es_Step t)) then Some (s, b) else best
           end
  end.

Definition deployed_loop (deployed : string) (best : option EStep) (s : EStep) : option EStep :=
  if bool_decide (st_Bundle (es_Step s) = deployed) &&
     match best with None => true | Some t => newerStep (es_Step s) (es_Step t) end then Some s else best.

Definition currentStep (steps : list EStep) (all : gmap string Bundle) (deployed : string) : option EStep :=
  match foldl (current_loop all) None steps with
  | Some (s, _) => Some s
  | None => foldl (deployed_loop deployed) None steps
  end.

Definition verifiedSince (steps : list EStep) (bundle : string) : option Time :=
  let at_ := foldl (λ at_ s, if negb (bool_decide (st_Bundle (es_Step s) = bundle)) then at_
                             else match st_VerifiedTime (es_Step s) with Some t => if at_ <? t then t else at_ | None => at_ end)
               zeroTime steps in
  if at_ =? zeroTime then None else Some at_.

Section project.
Context (selects : Ordering.FleetSelector → option (gmap string string → bool)).
Context (scaled : Ordering.IntOrString → Z → option Z).
Context (IsDNS1123Label : string → bool).
Context (path_Join : string → string → string).

(** [EnvironmentNames] of environments.go: a fleet is its targets. *)
Definition projected_names (p : Fleet.Pipeline) : list string :=
  let fleets := if Fleet.hasFleets p then match Fleet.fleetMembers selects scaled IsDNS1123Label path_Join p with inl _ => ∅ | inr s => Fleet.byFleet s end else ∅ in
  mjoin ((λ e, match Ordering.Fleet e with Some _ => default [] (fleets !! Ordering.Name e) | None => [Ordering.Name e] end) <$> Fleet.Environments p).

Variable p : Hold.Pipeline.
Variable bundles : list Bundle.
Variable steps : list EStep.
Variable gates : list Gate.
(** The clock of [HeldFrom]. *)
Variable clock : Time.

Definition all_bundles : gmap string Bundle :=
  foldl (λ m b, if bool_decide (b_Pipeline b = Hold.pp_Name p) then <[b_Name b := b]> m else m) ∅ bundles.

Definition steps_in (env : string) : list EStep :=
  filter (λ s, st_Pipeline (es_Step s) = Hold.pp_Name p ∧ st_Environment (es_Step s) = env) steps.

(** The gates that hold a Bundle in flight in the environment. *)
Definition held_in (env : string) : list (Bundle * string) :=
  omap (λ g, match all_bundles !! g_Bundle g with
             | Some b =>
                 if Halted b || negb (inFlightBundlePhases (b_Phase b)) || negb (g_Holds g) || negb (bool_decide (g_Environment g = env)) then None
                 else Some (b, gateName g)
             | None => None
             end) gates.

Definition version (name : string) : string := match all_bundles !! name with Some b => BundleVersion (b_Artifacts b) | None => "" end.

(** The names of the gates, each once, sorted. *)
Definition blocked_by (newest : Bundle) (hb : list (Bundle * string)) : list string :=
  sort_by str_ltb (foldl (λ l h, if bool_decide (b_Name h.1 = b_Name newest) && negb (bool_decide (h.2 ∈ l)) then l ++ [h.2] else l) [] hb).

(** [e.State], [curBundle], [cur] and [e.BlockedBy] after the gates. *)
Definition with_gates (cur : option EStep) (hb : list (Bundle * string)) : option State * string * option EStep * list string :=
  let curBundle := match cur with Some s => st_Bundle (es_Step s) | None => "" end in
  let state := (λ s, match st_State (es_Step s) with StatePending => StatePendingExplicit | x => x end) <$> cur in
  match foldl take_newer None (fst <$> hb) with
  | None => (state, curBundle, cur, [])
  | Some newest =>
      if match all_bundles !! curBundle with
         | None => true
         | Some c => bool_decide (b_Name newest = curBundle) || newer newest c
         end
      then if bool_decide (b_Name newest = curBundle) then (state, curBundle, cur, blocked_by newest hb)
           else (Some StatePendingExplicit, b_Name newest, None, blocked_by newest hb)
      else (state, curBundle, cur, [])
  end.

(** [e.Since], given the entry of the environment before. *)
Definition since (env : string) (state : option State) (curBundle : string) (cur : option EStep) (old : option EnvEntry) (now : Time) : option Time :=
  match state with
  | None => None
  | Some st =>
      match (if bool_decide (st = StateVerified) && bool_decide (is_Some cur) then verifiedSince (steps_in env) curBundle else None) with
      | Some t => Some t
      | None =>
          match old with
          | Some e =>
              if bool_decide (is_Some (e_Since e)) && bool_decide (e_State e = Some st) && bool_decide (stateBundle e = curBundle) then e_Since e
              else if now =? zeroTime then None else Some (truncate_second now)
          | None => if now =? zeroTime then None else Some (truncate_second now)
          end
      end
  end.

Definition project_env (old : option EnvEntry) (now : Time) (env : string) : EnvEntry :=
  let bundle := Deployed.d_Bundle (Deployed.DeployedInSteps (es_Step <$> steps_in env) (Hold.pp_Name p) env all_bundles) in
  let '(state, curBundle, cur, blockedBy) := with_gates (currentStep (steps_in env) all_bundles bundle) (held_in env) in
  let held := negb (bool_decide (curBundle = "")) && bool_decide (state = Some StatePendingExplicit) &&
              bool_decide (is_Some (Hold.HeldFrom selects scaled IsDNS1123Label path_Join clock p env curBundle)) in
  let frozenBy := match cur with
                  | Some s => if bool_decide (state = Some StatePendingExplicit) || bool_decide (state = Some StatePromoting)
                              then default "" (es_FrozenBy s) else ""
                  | None => ""
                  end in
  let incoming := negb (bool_decide (curBundle = "")) && negb (bool_decide (curBundle = bundle)) in
  mkEntry env bundle (version bundle) state blockedBy held frozenBy
    (if incoming then curBundle else "") (if incoming then version curBundle else "")
    (match cur with Some s => if bool_decide (state = Some StateWaitingForMerge) then es_PRURL s else "" | None => "" end)
    (since env state curBundle cur old now).

(** The entry of a name in the former status, the last one if there are more. *)
Definition old_of (prev : list EnvEntry) (env : string) : option EnvEntry := last (filter (λ e, e_Name e = env) prev).

Definition ProjectEnvironments (prev : list EnvEntry) (now : Time) : list EnvEntry :=
  (λ env, project_env (old_of prev env) now env) <$> projected_names (Hold.pp_Fleets p).
End project.

(** ** The greatest of a list *)

(** A loop that keeps the greater one ends with one that none is greater than. *)
Lemma keep_max {A} (more : A → A → bool) `{!StrictWeak more} (l : list A) :
  match foldl (λ cur b, match cur with None => Some b | Some c => if more b c then Some b else cur end) None l with
  | None => l = []
  | Some b => b ∈ l ∧ ∀ x, x ∈ l → more x b = false
  end.
Proof.
  induction l as [|x l IH] using rev_ind; [done|]. rewrite foldl_snoc. destruct (foldl _ None l) as [c|].
  - destruct IH as [Hc Hmax]. destruct (more x c) eqn:E.
    + split; [apply elem_of_app; right; by left|]. intros y [Hy| ->%list_elem_of_singleton]%elem_of_app; [|apply (less_irrefl more)].
      destruct (more y x) eqn:E2; [|done]. apply less_asym in E2. specialize (Hmax y Hy).
      by rewrite (less_negtrans x y c E2 Hmax) in E.
    + split; [apply elem_of_app; by left|]. by intros y [Hy| ->%list_elem_of_singleton]%elem_of_app; [apply Hmax|].
  - subst l. split; [by left|]. intros y ->%list_elem_of_singleton. apply (less_irrefl more).
Qed.

#[export] Instance newer_weak : StrictWeak newer.
Proof. split; unfold newer; intros x y; [apply less_asym|]. intros z H1 H2. by apply (less_negtrans z y x). Qed.

#[export] Instance moreCurrent_weak live : StrictWeak (moreCurrent live).
Proof.
  split.
  - intros x y. unfold moreCurrent. destruct (Halted x && _), (Halted y && _); cbn [Bool.eqb negb]; try done; apply less_asym.
  - intros x y z. unfold moreCurrent. destruct (Halted x && _), (Halted y && _), (Halted z && _); cbn [Bool.eqb negb]; try done; apply less_negtrans.
Qed.

(** ** What the phase means *)

Section phase.
Variable pipelineName : string.
Variable bundles : list Bundle.
Variable steps : list Step.

(** The Bundles that are not halted. *)
Definition active (b : Bundle) : Prop := b ∈ bundles ∧ b_Pipeline b = pipelineName ∧ Halted b = false.

(** A Bundle that has a step in the environment by which it counts there. *)
Definition counts_in (env : string) (b : Bundle) : Prop :=
  b ∈ bundles ∧ b_Pipeline b = pipelineName ∧
  ∃ s, s ∈ steps ∧ st_Environment s = env ∧ st_Bundle s = b_Name b ∧ (Halted b = false ∨ RejectedLiveStep b s = true).

(** The newest of them. *)
Definition newest_in (env : string) (b : Bundle) : Prop := counts_in env b ∧ ∀ b', counts_in env b' → newer b' b = false.

(** A step of the newest Bundle of its environment. *)
Definition current_step (s : Step) (b : Bundle) : Prop := s ∈ steps ∧ newest_in (st_Environment s) b ∧ st_Bundle s = b_Name b.

Definition degraded : Prop :=
  (∃ s b, current_step s b ∧ (degradedStates (st_State s) = true ∨ RejectedLiveStep b s = true)) ∨
  (∃ b, active b ∧ (∀ b', active b' → newer b' b = false) ∧ b_Phase b = "Failed").

Definition promoting : Prop :=
  (∃ b, active b ∧ inFlightBundlePhases (b_Phase b) = true) ∨ (∃ s b, current_step s b ∧ st_State s ≠ StateVerified).

Abbreviation folded := (foldl (bundle_loop pipelineName) (mkBundles ∅ ∅ false None)).

Lemma take_newer_max l :
  match foldl take_newer None l with
  | None => l = []
  | Some b => b ∈ l ∧ ∀ x, x ∈ l → newer x b = false
  end.
Proof. apply (keep_max newer). Qed.

(** The Bundles that satisfy [ok], by name. *)
Definition index_by (ok : Bundle → bool) (l : list Bundle) : gmap string Bundle :=
  foldl (λ m b, if ok b then <[b_Name b := b]> m else m) ∅ l.

Lemma index_by_lookup ok l n b : NoDup (b_Name <$> l) → index_by ok l !! n = Some b ↔ b ∈ l ∧ b_Name b = n ∧ ok b = true.
Proof.
  unfold index_by. revert n b. induction l as [|x l IH] using rev_ind; intros n b; simpl.
  { intros _. rewrite lookup_empty. split; [done|by intros [?%elem_of_nil _]]. }
  rewrite fmap_app, NoDup_app. intros (Hnd & Hx & _). rewrite foldl_snoc. specialize (λ n b, IH n b Hnd).
  assert (∀ b, b ∈ l → b_Name x ≠ b_Name b) as Hfresh.
  { intros b' Hb E. apply (Hx (b_Name b')); [by apply list_elem_of_fmap_2|]. rewrite <- E. by left. }
  rewrite elem_of_app, list_elem_of_singleton. destruct (ok x) eqn:Eo.
  - rewrite lookup_insert_Some, IH. split; [by intros [[<- <-]|[_ (? & ? & ?)]]; auto|].
    intros ([Hb| ->] & <- & ?); [right|by left]. split; [by apply Hfresh|done].
  - rewrite IH. split; [by intros (? & ? & ?); auto|]. intros ([?| ->] & ? & ?); [done|congruence].
Qed.

Definition active_b (b : Bundle) : bool := bool_decide (b_Pipeline b = pipelineName) && negb (Halted b).
Definition rejected_b (b : Bundle) : bool := bool_decide (b_Pipeline b = pipelineName) && Rejected b.

Lemma Rejected_Halted b : Rejected b = true → Halted b = true.
Proof. unfold Halted. intros ->. apply orb_true_r. Qed.

(** The four results of the first loop. *)
Lemma bundle_fold l :
  let st := folded l in
  byName st = index_by active_b l ∧ rejected st = index_by rejected_b l ∧
  inFlight st = existsb (λ b, active_b b && inFlightBundlePhases (b_Phase b)) l ∧
  newestBundle st = foldl take_newer None (filter (λ b, active_b b = true) l).
Proof.
  induction l as [|x l IH] using rev_ind; [done|]. cbv zeta in *. destruct IH as (H1 & H2 & H3 & H4). unfold index_by.
  rewrite !foldl_snoc, existsb_app, filter_app, foldl_app, <- H4, <- H3. fold (index_by active_b l) (index_by rejected_b l). rewrite <- H1, <- H2.
  unfold bundle_loop, active_b, rejected_b. cbn [existsb]. rewrite !orb_false_r. destruct (bool_decide (b_Pipeline x = pipelineName)) eqn:Ep; cbn [negb andb].
  - destruct (Halted x) eqn:Eh; cbn [negb andb].
    + rewrite orb_false_r, filter_cons_False by (rewrite ?Ep, ?Eh; done). cbn [filter list_filter foldl]. by destruct (Rejected x).
    + rewrite filter_cons_True by (rewrite ?Ep, ?Eh; done). cbn [filter list_filter foldl byName rejected inFlight newestBundle].
      destruct (Rejected x) eqn:Er; [apply Rejected_Halted in Er; congruence|done].
  - rewrite orb_false_r, filter_cons_False by (rewrite ?Ep, ?Eh; done). done.
Qed.

(** The second loop keeps the newest Bundle of each environment. *)
Lemma newest_fold st l env :
  foldl (newest_loop st) ∅ l !! env = foldl take_newer None (omap (counting st) (filter (λ s, st_Environment s = env) l)).
Proof.
  induction l as [|s l IH] using rev_ind; [done|]. rewrite foldl_snoc, filter_app, omap_app, foldl_app, <- IH. unfold newest_loop at 1.
  destruct (decide (st_Environment s = env)) as [<-|Hne].
  - rewrite filter_cons_True by done. cbn [filter list_filter omap list_omap]. destruct (counting st s) as [b|]; [|done]. cbn [foldl take_newer].
    destruct (foldl (newest_loop st) ∅ l !! st_Environment s) as [c|] eqn:Ec; cbn [take_newer]; [|apply lookup_insert_eq].
    destruct (newer b c); [apply lookup_insert_eq|done].
  - rewrite filter_cons_False by done. cbn [filter list_filter omap list_omap foldl].
    destruct (counting st s) as [b|]; [|done]. destruct (foldl (newest_loop st) ∅ l !! st_Environment s) as [c|]; [destruct (newer b c); [|done]|];
      by rewrite lookup_insert_ne.
Qed.

Lemma counting_iff l s b :
  NoDup (b_Name <$> l) → counting (folded l) s = Some b ↔
  b ∈ l ∧ b_Pipeline b = pipelineName ∧ st_Bundle s = b_Name b ∧ (Halted b = false ∨ RejectedLiveStep b s = true).
Proof.
  intros Hnd. destruct (bundle_fold l) as (H1 & H2 & _). unfold counting. rewrite H1, H2.
  assert (∀ c, index_by active_b l !! st_Bundle s = Some c ↔ c ∈ l ∧ st_Bundle s = b_Name c ∧ b_Pipeline c = pipelineName ∧ Halted c = false) as Ha.
  { intros c. rewrite index_by_lookup by done. unfold active_b. rewrite andb_true_iff, bool_decide_eq_true, negb_true_iff. naive_solver. }
  assert (∀ c, index_by rejected_b l !! st_Bundle s = Some c ↔ c ∈ l ∧ st_Bundle s = b_Name c ∧ b_Pipeline c = pipelineName ∧ Rejected c = true) as Hr.
  { intros c. rewrite index_by_lookup by done. unfold rejected_b. rewrite andb_true_iff, bool_decide_eq_true. naive_solver. }
  assert (∀ c d, c ∈ l → d ∈ l → st_Bundle s = b_Name c → st_Bundle s = b_Name d → c = d) as Hinj.
  { intros c d Hc Hd E1 E2. apply (names_inj l); [done..|congruence]. }
  assert (RejectedLiveStep b s = true → Rejected b = true) as Hlive.
  { unfold RejectedLiveStep. by intros [[? _]%andb_true_iff _]%andb_true_iff. }
  destruct (index_by active_b l !! st_Bundle s) as [c|] eqn:Ec.
  - destruct (proj1 (Ha c) eq_refl) as (Hc & En & Ep & Eh). split; [intros [= <-]; auto|]. intros (Hb & _ & Eb & _). f_equal. by apply Hinj.
  - assert (∀ c, ¬ (c ∈ l ∧ st_Bundle s = b_Name c ∧ b_Pipeline c = pipelineName ∧ Halted c = false)) as Hno by (intros c Hc; by apply Ha in Hc).
    destruct (index_by rejected_b l !! st_Bundle s) as [c|] eqn:Er.
    + destruct (proj1 (Hr c) eq_refl) as (Hc & En & Ep & Eh). destruct (RejectedLiveStep c s) eqn:El.
      * split; [intros [= <-]; auto|]. intros (Hb & _ & Eb & _). f_equal. by apply Hinj.
      * split; [done|]. intros (Hb & Hp & Eb & [Hh|Hl]); [by destruct (Hno b)|]. rewrite (Hinj b c Hb Hc Eb En) in Hl. congruence.
    + split; [done|]. intros (Hb & Hp & Eb & [Hh|Hl]); [by destruct (Hno b)|]. assert (None = Some b) as [=]. apply Hr. auto.
Qed.

Lemma counts_elem (l : list Step) env b :
  NoDup (b_Name <$> bundles) →
  b ∈ omap (counting (folded bundles)) (filter (λ s, st_Environment s = env) l) ↔
  b ∈ bundles ∧ b_Pipeline b = pipelineName ∧
  ∃ s, s ∈ l ∧ st_Environment s = env ∧ st_Bundle s = b_Name b ∧ (Halted b = false ∨ RejectedLiveStep b s = true).
Proof.
  intros Hnd. rewrite list_elem_of_omap. setoid_rewrite list_elem_of_filter. setoid_rewrite counting_iff; [|done..]. naive_solver.
Qed.

(** The Bundle the second loop ends with is the newest in the environment. *)
Lemma newest_fold_iff env b :
  NoDup (b_Name <$> bundles) → foldl (newest_loop (folded bundles)) ∅ steps !! env = Some b ↔ newest_in env b.
Proof.
  intros Hnd. rewrite newest_fold. pose proof (take_newer_max (omap (counting (folded bundles)) (filter (λ s, st_Environment s = env) steps))) as Hmax.
  assert (∀ c, counts_in env c ↔ c ∈ omap (counting (folded bundles)) (filter (λ s, st_Environment s = env) steps)) as Hel.
  { intros c. by rewrite counts_elem. }
  destruct (foldl take_newer None _) as [c|].
  - destruct Hmax as [Hc Hm]. split.
    + intros [= <-]. split; [by apply Hel|]. intros b' Hb'%Hel. by apply Hm.
    + intros [Hb Hn]. f_equal. apply Hel in Hc, Hb. pose proof (Hn c (proj2 (Hel c) ltac:(by apply Hel))) as H1. apply Hel in Hb as Hb2.
      apply (names_inj bundles); [done|apply Hc|apply Hb2|]. unfold newer in H1. apply created_before_total; [|done]. by apply (Hm b).
  - split; [done|]. intros [Hb _]. apply Hel in Hb. rewrite Hmax in Hb. by apply elem_of_nil in Hb.
Qed.

Lemma forallb_fails {A} (f : A → bool) (l : list A) : forallb f l = false ↔ ∃ x, x ∈ l ∧ f x = false.
Proof.
  induction l as [|y l IH]; simpl; [split; [done|by intros (? & ?%elem_of_nil & _)]|]. rewrite andb_false_iff, IH. setoid_rewrite elem_of_cons. naive_solver.
Qed.

(** A step the third loop looks at, and one that degrades the Pipeline. *)
Definition judged (newest : gmap string Bundle) (s : Step) : bool :=
  match newest !! st_Environment s with Some b => bool_decide (b_Name b = st_Bundle s) | None => false end.

Definition bad (newest : gmap string Bundle) (s : Step) : bool :=
  match newest !! st_Environment s with Some b => RejectedLiveStep b s || degradedStates (st_State s) | None => false end.

(** The third loop counts the steps of the newest Bundles. *)
Lemma phase_tally_fold newest l :
  foldl (tally_loop newest) (0%nat, false, true) l =
  (length (List.filter (judged newest) l), existsb (λ s, judged newest s && bad newest s) l,
   forallb (λ s, negb (judged newest s) || bool_decide (st_State s = StateVerified)) l).
Proof.
  induction l as [|s l IH] using rev_ind; [done|]. rewrite foldl_snoc, IH, List.filter_app, length_app, existsb_app, forallb_app.
  cbn [List.filter existsb forallb tally_loop]. rewrite !orb_false_r, !andb_true_r. unfold judged, bad.
  destruct (newest !! st_Environment s) as [b|]; cbn [andb negb orb].
  - case_bool_decide; cbn [negb andb orb length]; [by rewrite Nat.add_1_r, orb_assoc|].
    by rewrite Nat.add_0_r, orb_false_r, andb_true_r.
  - by rewrite Nat.add_0_r, orb_false_r, andb_true_r.
Qed.

Lemma latest_failed :
  NoDup (b_Name <$> bundles) →
  match newestBundle (folded bundles) with Some b => bool_decide (b_Phase b = "Failed") | None => false end = true ↔
  ∃ b, active b ∧ (∀ b', active b' → newer b' b = false) ∧ b_Phase b = "Failed".
Proof.
  intros Hnd. destruct (bundle_fold bundles) as (_ & _ & _ & ->). pose proof (take_newer_max (filter (λ b, active_b b = true) bundles)) as Hmax.
  assert (∀ c, active c ↔ c ∈ filter (λ b, active_b b = true) bundles) as Hel.
  { intros c. rewrite list_elem_of_filter. unfold active, active_b. rewrite andb_true_iff, bool_decide_eq_true, negb_true_iff. naive_solver. }
  destruct (foldl take_newer None _) as [c|].
  - destruct Hmax as [Hc Hm]. rewrite bool_decide_eq_true. split.
    + intros Hf. exists c. split_and!; [by apply Hel|intros b' Hb'%Hel; by apply Hm|done].
    + intros (b & Hb & Hn & Hf). assert (b = c) as ->; [|done]. apply Hel in Hc. apply (names_inj bundles); [done|apply Hb|apply Hc|].
      apply created_before_total; [by apply (Hn c)|]. by apply Hm, Hel.
  - split; [done|]. intros (b & Hb & _). apply Hel in Hb. rewrite Hmax in Hb. by apply elem_of_nil in Hb.
Qed.

Section judged.
Hypothesis unique : NoDup (b_Name <$> bundles).

Abbreviation newest := (foldl (newest_loop (folded bundles)) ∅ steps).

Lemma current_step_iff s b : current_step s b ↔ s ∈ steps ∧ newest !! st_Environment s = Some b ∧ st_Bundle s = b_Name b.
Proof. unfold current_step. by rewrite <- (newest_fold_iff _ _ unique). Qed.

Lemma judged_iff s : s ∈ steps → judged newest s = true ↔ ∃ b, current_step s b.
Proof.
  intros Hs. unfold judged. setoid_rewrite current_step_iff. destruct (newest !! st_Environment s) as [b|]; [rewrite bool_decide_eq_true|]; naive_solver.
Qed.

Lemma degraded_iff :
  existsb (λ s, judged newest s && bad newest s) steps ||
  match newestBundle (folded bundles) with Some b => bool_decide (b_Phase b = "Failed") | None => false end = true ↔ degraded.
Proof.
  rewrite orb_true_iff, (latest_failed unique). unfold degraded. f_equiv. rewrite existsb_exists. split.
  - intros (s & Hs%list_elem_of_In & [Hjs Hbs]%andb_true_iff). destruct (proj1 (judged_iff s Hs) Hjs) as [b Hb]. exists s, b. split; [done|].
    apply current_step_iff in Hb as (_ & Hn & _). unfold bad in Hbs. rewrite Hn in Hbs. apply orb_true_iff in Hbs as [?|?]; [by right|by left].
  - intros (s & b & Hb & Hbad). pose proof Hb as (Hs & Hn & _)%current_step_iff. exists s. split; [by apply list_elem_of_In|]. apply andb_true_iff.
    split; [apply (judged_iff s Hs); by exists b|]. unfold bad. rewrite Hn. apply orb_true_iff. destruct Hbad; [by right|by left].
Qed.

Lemma promoting_iff :
  inFlight (folded bundles) || negb (forallb (λ s, negb (judged newest s) || bool_decide (st_State s = StateVerified)) steps) = true ↔ promoting.
Proof.
  destruct (bundle_fold bundles) as (_ & _ & -> & _). rewrite orb_true_iff, negb_true_iff. unfold promoting. f_equiv.
  - rewrite existsb_exists. unfold active, active_b. setoid_rewrite andb_true_iff. setoid_rewrite andb_true_iff.
    setoid_rewrite bool_decide_eq_true. setoid_rewrite negb_true_iff. setoid_rewrite <- list_elem_of_In. naive_solver.
  - rewrite forallb_fails. split.
    + intros (s & Hs & [Hjs%negb_false_iff Hv%bool_decide_eq_false]%orb_false_iff). destruct (proj1 (judged_iff s Hs) Hjs) as [b Hb]. by exists s, b.
    + intros (s & b & Hb & Hv). pose proof Hb as (Hs & _). exists s. split; [done|]. apply orb_false_iff.
      split; [apply negb_false_iff, (judged_iff s Hs); by exists b|by apply bool_decide_eq_false].
Qed.

Lemma reached_iff : (0 <? length (List.filter (judged newest) steps))%nat = true ↔ ∃ env b, newest_in env b.
Proof.
  rewrite Nat.ltb_lt. split.
  - intros Hl. destruct (List.filter (judged newest) steps) as [|s l] eqn:Ef; [simpl in Hl; lia|].
    assert (s ∈ List.filter (judged newest) steps) as [Hs%list_elem_of_In Hjs]%list_elem_of_In%filter_In by (rewrite Ef; by left).
    destruct (proj1 (judged_iff s Hs) Hjs) as (b & _ & Hb & _). by eexists _, b.
  - intros (env & b & Hb). pose proof Hb as [(_ & _ & s & Hs & <- & Hn & _) _].
    assert (s ∈ List.filter (judged newest) steps) as Hin
      by (apply list_elem_of_In, filter_In; split; [by apply list_elem_of_In|apply (judged_iff s Hs); by exists b]).
    destruct (List.filter (judged newest) steps); [by apply elem_of_nil in Hin|simpl; lia].
Qed.

Lemma phase_cases :
  (DerivePhase pipelineName bundles steps = "Degraded" ∧ degraded) ∨
  (DerivePhase pipelineName bundles steps = "Promoting" ∧ ¬ degraded ∧ promoting) ∨
  (DerivePhase pipelineName bundles steps = "Ready" ∧ ¬ degraded ∧ ¬ promoting ∧ ∃ env b, newest_in env b) ∨
  (DerivePhase pipelineName bundles steps = "Unknown" ∧ ¬ degraded ∧ ¬ promoting ∧ ¬ ∃ env b, newest_in env b).
Proof.
  unfold DerivePhase. cbv zeta. rewrite phase_tally_fold. pose proof degraded_iff as Hd. pose proof promoting_iff as Hp. pose proof reached_iff as Hc.
  destruct (existsb _ _ || _); [left; split; [done|by apply Hd]|]. assert (¬ degraded) as Hnd' by (by rewrite <- Hd).
  destruct (inFlight _ || _); [right; left; split_and!; [done|done|by apply Hp]|]. assert (¬ promoting) as Hnp by (by rewrite <- Hp).
  destruct (0 <? _)%nat; right; right; [left|right]; split_and!; try done; [by apply Hc|by rewrite <- Hc].
Qed.
End judged.

(** C16. What status.phase says.  In each environment the newest Bundle counts that is not
    Superseded or Rejected, or is Rejected and live there.  The Pipeline is Degraded
    exactly when such a Bundle failed or is rolling back in its environment, or is a
    rejected one that is live, or the newest Bundle that is not halted is Failed; else
    Promoting exactly when a Bundle is in flight or a step of such a Bundle is not
    Verified; else Ready when any environment was reached, and else Unknown. *)
Theorem derive_phase_means :
  NoDup (b_Name <$> bundles) →
  (DerivePhase pipelineName bundles steps = "Degraded" ∧ degraded) ∨
  (DerivePhase pipelineName bundles steps = "Promoting" ∧ ¬ degraded ∧ promoting) ∨
  (DerivePhase pipelineName bundles steps = "Ready" ∧ ¬ degraded ∧ ¬ promoting ∧ ∃ env b, newest_in env b) ∨
  (DerivePhase pipelineName bundles steps = "Unknown" ∧ ¬ degraded ∧ ¬ promoting ∧ ¬ ∃ env b, newest_in env b).
Proof. apply phase_cases. Qed.
End phase.

(** The phase does not depend on the order in which the API lists Bundles and steps. *)
Theorem derive_phase_order pipelineName bundles bundles' steps steps' :
  NoDup (b_Name <$> bundles) → bundles ≡ₚ bundles' → steps ≡ₚ steps' →
  DerivePhase pipelineName bundles steps = DerivePhase pipelineName bundles' steps'.
Proof.
  intros Hnd Hb Hs. assert (NoDup (b_Name <$> bundles')) as Hnd' by (by rewrite <- Hb).
  assert (∀ env b, counts_in pipelineName bundles steps env b ↔ counts_in pipelineName bundles' steps' env b) as Hci.
  { intros env b. unfold counts_in. rewrite Hb. by setoid_rewrite Hs. }
  assert (∀ env b, newest_in pipelineName bundles steps env b ↔ newest_in pipelineName bundles' steps' env b) as Hni.
  { intros env b. unfold newest_in. by setoid_rewrite Hci. }
  assert (∀ s b, current_step pipelineName bundles steps s b ↔ current_step pipelineName bundles' steps' s b) as Hcs.
  { intros s b. unfold current_step. rewrite Hni. f_equiv. by rewrite Hs. }
  assert (∀ b, active pipelineName bundles b ↔ active pipelineName bundles' b) as Ha by (intros b; unfold active; by rewrite Hb).
  assert (degraded pipelineName bundles steps ↔ degraded pipelineName bundles' steps') as Hd.
  { unfold degraded. setoid_rewrite Hcs. by setoid_rewrite Ha. }
  assert (promoting pipelineName bundles steps ↔ promoting pipelineName bundles' steps') as Hp.
  { unfold promoting. setoid_rewrite Hcs. by setoid_rewrite Ha. }
  pose proof (phase_cases pipelineName bundles steps Hnd) as H1. pose proof (phase_cases pipelineName bundles' steps' Hnd') as H2.
  rewrite Hd, Hp in H1. setoid_rewrite Hni in H1. intuition congruence.
Qed.

(** ** The current Bundle *)

(** A halted Bundle that is not live anywhere. *)
Definition stale (bundles : list Bundle) (steps : list Step) (b : Bundle) : bool := Halted b && negb (live_bundles bundles steps (b_Name b)).

Lemma live_envs_iff b steps :
  (0 <? length (RejectedLiveEnvs b steps))%nat = true ↔ ∃ s, s ∈ steps ∧ RejectedLiveStep b s = true.
Proof.
  assert (∀ l envs, (0 < length (foldl (λ envs s, if RejectedLiveStep b s && negb (bool_decide (st_Environment s ∈ envs))
    then envs ++ [st_Environment s] else envs) envs l))%nat ↔ (0 < length envs)%nat ∨ ∃ s, s ∈ l ∧ RejectedLiveStep b s = true) as Hf.
  { induction l as [|s l IH]; intros envs; simpl; [split; [by left|by intros [?|(? & ?%elem_of_nil & _)]]|]. rewrite IH. setoid_rewrite elem_of_cons.
    destruct (RejectedLiveStep b s) eqn:E; cbn [andb].
    2: { split; [intros [?|(x & ? & ?)]; [by left|right; exists x; auto]|]. intros [?|(x & [->|?] & ?)]; [by left|congruence|right; by exists x]. }
    split; [intros _; right; exists s; split; [by left|done]|]. intros _. left.
    case_bool_decide as Hin; cbn [negb]; [|rewrite length_app; simpl; lia]. destruct envs; [by apply elem_of_nil in Hin|simpl; lia]. }
  unfold RejectedLiveEnvs. destruct (Rejected b) eqn:Er; cbn [negb].
  - rewrite Nat.ltb_lt, sort_by_length, Hf. simpl. split; [intros [?|?]; [lia|done]|by right].
  - split; [done|]. intros (s & _ & Hl). unfold RejectedLiveStep in Hl. by rewrite Er in Hl.
Qed.

(** The current Bundle of a Pipeline: the newest among the Bundles that are not halted
    or are rejected and live somewhere, and only when there is none of those the newest
    of all; so a newer Failed Bundle is never hidden behind an older one. *)
Theorem current_bundle_means bundles steps :
  NoDup (b_Name <$> bundles) →
  (∀ b, b ∈ bundles → stale bundles steps b = false ↔ Halted b = false ∨ ∃ s, s ∈ steps ∧ RejectedLiveStep b s = true) ∧
  match CurrentBundle bundles steps with
  | None => bundles = []
  | Some c => c ∈ bundles ∧ ∀ b, b ∈ bundles →
      (stale bundles steps b = false → stale bundles steps c = false) ∧
      (stale bundles steps b = stale bundles steps c → newer b c = false)
  end.
Proof.
  intros Hnd. split.
  - intros b Hb. unfold stale. rewrite andb_false_iff, negb_false_iff. f_equiv. unfold live_bundles. rewrite existsb_exists, <- live_envs_iff. split.
    + intros (b' & Hb'%list_elem_of_In & [En%bool_decide_eq_true Hl]%andb_true_iff). by rewrite <- (names_inj bundles b' b).
    + intros Hl. exists b. split; [by apply list_elem_of_In|]. by rewrite bool_decide_true.
  - unfold CurrentBundle. cbv zeta. set (live := live_bundles bundles steps). pose proof (keep_max (moreCurrent live) bundles) as Hmax.
    destruct (foldl _ None bundles) as [c|]; [|done]. destruct Hmax as [Hc Hm]. split; [done|]. intros b Hb.
    specialize (Hm b Hb). revert Hm. unfold moreCurrent, stale. fold live. destruct (Halted b && _), (Halted c && _); cbn [Bool.eqb negb]; by split.
Qed.

(** ** The projection *)

Section projection.
Context (selects : Ordering.FleetSelector → option (gmap string string → bool)).
Context (scaled : Ordering.IntOrString → Z → option Z).
Context (IsDNS1123Label : string → bool).
Context (path_Join : string → string → string).
Variable p : Hold.Pipeline.
Variable bundles : list Bundle.
Variable steps : list EStep.
Variable gates : list Gate.
Variable clock : Time.

Abbreviation all := (all_bundles p bundles).
Abbreviation project := (project_env selects scaled IsDNS1123Label path_Join p bundles steps gates clock).
Abbreviation ProjectEnvironments := (ProjectEnvironments selects scaled IsDNS1123Label path_Join p bundles steps gates clock).

Lemma all_bundles_name n b : all !! n = Some b → b ∈ bundles ∧ b_Name b = n.
Proof.
  unfold all_bundles. revert n b. induction bundles as [|x l IH] using rev_ind; intros n b; [simpl; by rewrite lookup_empty|]. rewrite foldl_snoc, elem_of_app.
  case_bool_decide; [rewrite lookup_insert_Some; intros [[<- <-]|[_ H']]; [split; [right; by left|done]|]|intros H'];
    apply IH in H' as [? ?]; by auto.
Qed.

Lemma all_bundles_lookup n b : NoDup (b_Name <$> bundles) → all !! n = Some b ↔ b ∈ bundles ∧ b_Name b = n ∧ b_Pipeline b = Hold.pp_Name p.
Proof.
  intros Hnd. pose proof (index_by_lookup (λ b, bool_decide (b_Pipeline b = Hold.pp_Name p)) bundles n b Hnd) as H.
  rewrite bool_decide_eq_true in H. exact H.
Qed.

(** The Bundle by which a step counts. *)
Definition eligible_bundle (s : EStep) : option Bundle :=
  match all !! st_Bundle (es_Step s) with
  | Some b => if Halted b && (negb (Rejected b) || negb (RejectedLiveStep b (es_Step s))) then None else Some b
  | None => None
  end.

Lemma eligible_bundle_some s b :
  eligible_bundle s = Some b ↔ all !! st_Bundle (es_Step s) = Some b ∧ (Halted b = false ∨ RejectedLiveStep b (es_Step s) = true).
Proof.
  unfold eligible_bundle. destruct (all !! _) as [c|]; [|naive_solver].
  assert (RejectedLiveStep c (es_Step s) = true → Rejected c = true) as Hr by (unfold RejectedLiveStep; by intros [[? _]%andb_true_iff _]%andb_true_iff).
  destruct (Halted c) eqn:Eh, (Rejected c) eqn:Er, (RejectedLiveStep c (es_Step s)) eqn:El; simpl; try (by specialize (Hr eq_refl));
    (split; [intros H; simplify_eq; try (by auto)|intros [H1 [H2|H2]]; simplify_eq; try congruence]).
Qed.

(** [currentStep] keeps a step of the newest of those Bundles. *)
Lemma current_fold l :
  match foldl (current_loop all) None l with
  | Some (s, b) => s ∈ l ∧ eligible_bundle s = Some b ∧ foldl take_newer None (omap eligible_bundle l) = Some b
  | None => foldl take_newer None (omap eligible_bundle l) = None
  end.
Proof.
  induction l as [|s l IH] using rev_ind; [done|]. rewrite foldl_snoc, omap_app, foldl_app. cbn [omap list_omap].
  assert (current_loop all (foldl (current_loop all) None l) s =
    match eligible_bundle s with
    | None => foldl (current_loop all) None l
    | Some b => match foldl (current_loop all) None l with
                | None => Some (s, b)
                | Some (t, c) => if newer b c || (bool_decide (b_Name b = b_Name c) && newerStep (es_Step s) (es_Step t)) then Some (s, b) else Some (t, c)
                end
    end) as ->.
  { unfold current_loop at 1, eligible_bundle. destruct (all !! _); [|done]. destruct (Halted _ && _); [done|]. by destruct (foldl _ None l) as [[]|]. }
  destruct (eligible_bundle s) as [b|] eqn:Eb; cbn [foldl take_newer].
  2: { destruct (foldl (current_loop all) None l) as [[t c]|]; [|done]. destruct IH as (? & ? & ?). rewrite elem_of_app. auto. }
  destruct (foldl (current_loop all) None l) as [[t c]|]; [|rewrite IH; cbn [take_newer]; rewrite elem_of_app; split; [right; by left|done]].
  destruct IH as (Ht & Ec & ->). cbn [take_newer]. destruct (newer b c) eqn:En; cbn [orb].
  { split; [apply elem_of_app; right; by left|done]. }
  case_bool_decide as Ename; cbn [andb]; [destruct (newerStep _ _); [|split; [apply elem_of_app; by left|done]]|split; [apply elem_of_app; by left|done]].
  split; [apply elem_of_app; right; by left|]. assert (b = c) as ->; [|done].
  apply eligible_bundle_some in Eb as [Eb _], Ec as [Ec _]. destruct (all_bundles_name _ _ Eb) as [_ N1], (all_bundles_name _ _ Ec) as [_ N2]. congruence.
Qed.

(** The projection agrees with the phase on what an environment's Bundle is: where a
    Bundle counts, the step that is shown is one of the Bundle by which [DerivePhase]
    judges the environment. *)
Theorem projection_agrees env deployed b :
  NoDup (b_Name <$> bundles) →
  newest_in (Hold.pp_Name p) bundles (es_Step <$> filter (λ s, st_Pipeline (es_Step s) = Hold.pp_Name p) steps) env b →
  ∃ s, currentStep (steps_in p steps env) all deployed = Some s ∧ s ∈ steps_in p steps env ∧ st_Bundle (es_Step s) = b_Name b.
Proof.
  intros Hnd [Hc Hm]. unfold currentStep. pose proof (current_fold (steps_in p steps env)) as Hf.
  pose proof (take_newer_max (omap eligible_bundle (steps_in p steps env))) as Hmax.
  assert (∀ c, c ∈ omap eligible_bundle (steps_in p steps env) ↔
    counts_in (Hold.pp_Name p) bundles (es_Step <$> filter (λ s, st_Pipeline (es_Step s) = Hold.pp_Name p) steps) env c) as Hel.
  { intros c. unfold counts_in, steps_in. rewrite list_elem_of_omap. setoid_rewrite eligible_bundle_some. setoid_rewrite (all_bundles_lookup _ _ Hnd).
    setoid_rewrite list_elem_of_fmap. setoid_rewrite list_elem_of_filter. naive_solver. }
  destruct (foldl (current_loop all) None _) as [[s c]|].
  - destruct Hf as (Hs & Ec & Ef). rewrite Ef in Hmax. destruct Hmax as [Hcl Hcm]. exists s. split_and!; [done|done|].
    apply Hel in Hcl as Hcc. assert (c = b) as ->.
    { apply (names_inj bundles); [done|apply Hcc|apply Hc|]. apply created_before_total; [by apply Hcm, Hel|by apply (Hm c)]. }
    apply eligible_bundle_some in Ec as [(_ & ? & _)%(all_bundles_lookup _ _ Hnd) _]. congruence.
  - rewrite Hf in Hmax. apply Hel in Hc. rewrite Hmax in Hc. by apply elem_of_nil in Hc.
Qed.

(** A state without a Bundle is of an environment in which nothing runs. *)
Lemma with_gates_bundle env state cb cur bl :
  "" ∉ b_Name <$> bundles →
  with_gates p bundles (currentStep (steps_in p steps env) all
    (Deployed.d_Bundle (Deployed.DeployedInSteps (es_Step <$> steps_in p steps env) (Hold.pp_Name p) env all))) (held_in p bundles gates env) = (state, cb, cur, bl) →
  is_Some state → cb = "" → Deployed.d_Bundle (Deployed.DeployedInSteps (es_Step <$> steps_in p steps env) (Hold.pp_Name p) env all) = "".
Proof.
  intros Hno. assert (∀ n b, all !! n = Some b → n ≠ "") as Hne.
  { intros n b [Hb <-]%all_bundles_name E. apply Hno. rewrite <- E. by apply list_elem_of_fmap_2. }
  set (bundle := Deployed.d_Bundle _). intros Hw Hst ->. unfold with_gates in Hw.
  assert (∀ s, currentStep (steps_in p steps env) all bundle = Some s → st_Bundle (es_Step s) = "" → bundle = "") as Hcs.
  { intros s. unfold currentStep. pose proof (current_fold (steps_in p steps env)) as Hf. destruct (foldl (current_loop all) None _) as [[t c]|].
    - destruct Hf as (_ & [Ec _]%eligible_bundle_some & _). intros [= <-] E. by destruct (Hne _ _ Ec).
    - intros Hd E. assert (∀ l, foldl (deployed_loop bundle) None l = Some s → st_Bundle (es_Step s) = bundle) as Hl; [|rewrite <- E; symmetry; by apply (Hl _ Hd)].
      clear. induction l as [|t l IH] using rev_ind; [done|]. rewrite foldl_snoc. unfold deployed_loop at 1. case_bool_decide; cbn [andb]; [|done].
      destruct (match foldl _ None l with None => true | Some t0 => _ end); [by intros [= <-]|done]. }
  assert (∀ b, foldl take_newer None (fst <$> held_in p bundles gates env) = Some b → b_Name b ≠ "") as Hh.
  { intros b Hb. pose proof (take_newer_max (fst <$> held_in p bundles gates env)) as Hm. rewrite Hb in Hm.
    destruct Hm as [([b' n] & -> & (g & Hg & Hs)%list_elem_of_omap)%list_elem_of_fmap _]. destruct (all !! g_Bundle g) as [c|] eqn:Ec; [|done].
    destruct (_ || _); [done|]. injection Hs as -> _. apply all_bundles_name in Ec as [Hc _]. intros E. apply Hno. rewrite <- E. by apply list_elem_of_fmap_2. }
  destruct (foldl take_newer None _) as [newest|] eqn:En; [specialize (Hh newest eq_refl); destruct (match all !! _ with None => true | Some c => _ end);
    [destruct (bool_decide (b_Name newest = _))|]|];
    destruct (currentStep _ _ _) as [t|] eqn:Et; simplify_eq; try (by destruct Hst); by apply (Hcs t).
Qed.

Lemma old_of_map (f : string → EnvEntry) names env : (∀ x, e_Name (f x) = x) → env ∈ names → old_of (f <$> names) env = Some (f env).
Proof.
  intros Hf. unfold old_of. induction names as [|x names IH] using rev_ind; [by intros ?%elem_of_nil|]. intros Hin.
  rewrite fmap_app, filter_app. cbn [fmap list_fmap]. destruct (decide (x = env)) as [->|Hne].
  - rewrite filter_cons_True by apply Hf. rewrite filter_nil. by rewrite last_snoc.
  - rewrite filter_cons_False by (by rewrite Hf). rewrite filter_nil, app_nil_r. apply IH.
    apply elem_of_app in Hin as [?|?%list_elem_of_singleton]; [done|congruence].
Qed.

Lemma since_stable env state cb cur old now now' e :
  now ≠ zeroTime → e_State e = state → (is_Some state → stateBundle e = cb) → e_Since e = since p steps env state cb cur old now →
  since p steps env state cb cur (Some e) now' = e_Since e.
Proof.
  intros Hnow Hs Hb He. unfold since in *. destruct state as [st|]; [|done].
  destruct (if bool_decide (st = StateVerified) && _ then _ else None) as [t|]; [done|].
  assert (is_Some (e_Since e)) as Hsome.
  { rewrite He. rewrite (proj2 (Z.eqb_neq _ _) Hnow). destruct old as [o|]; [|by eexists].
    destruct (bool_decide (is_Some (e_Since o))) eqn:Eo; cbn [andb]; [|by eexists]. destruct (_ && _); [by apply bool_decide_eq_true in Eo|by eexists]. }
  rewrite !bool_decide_true; [done|apply Hb; by eexists|done|done].
Qed.

(** The projection is stable: computed again from its own result it is the same,
    however much later, so the status is written only when something changed, and an
    entry keeps the time since when its Bundle is in its state. *)
Theorem projection_stable prev now now' :
  "" ∉ b_Name <$> bundles → now ≠ zeroTime → ProjectEnvironments (ProjectEnvironments prev now) now' = ProjectEnvironments prev now.
Proof.
  intros Hno Hnow. unfold PipelinePhase.ProjectEnvironments. apply list_fmap_ext. intros i env Henv.
  assert (old_of ((λ env, project (old_of prev env) now env) <$> projected_names selects scaled IsDNS1123Label path_Join (Hold.pp_Fleets p)) env =
    Some (project (old_of prev env) now env)) as ->.
  { apply (old_of_map (λ env, project (old_of prev env) now env)); [|by apply list_elem_of_lookup_2 in Henv]. intros x. unfold project_env. by destruct (with_gates _ _ _ _) as [[[? ?] ?] ?]. }
  unfold project_env. destruct (with_gates _ _ _ _) as [[[state cb] cur] bl] eqn:Ew. f_equal.
  apply (since_stable env state cb cur (old_of prev env) now now' (mkEntry _ _ _ _ _ _ _ _ _ _ _)); [done|done| |done].
  intros Hst. unfold stateBundle. cbn [e_IncomingBundle e_Bundle].
  pose proof (with_gates_bundle env state cb cur bl Hno Ew Hst) as Hb. destruct (decide (cb = "")) as [->|Hcb].
  - rewrite (bool_decide_true ("" = "")) by done. cbn [negb andb]. by apply Hb.
  - rewrite (bool_decide_false (cb = "")) by done. cbn [negb andb].
    destruct (bool_decide (cb = Deployed.d_Bundle _)) eqn:E; cbn [negb]; [|by rewrite (bool_decide_false (cb = "")) by done].
    apply bool_decide_eq_true in E. by rewrite (bool_decide_true ("" = "")).
Qed.
End projection.

(** ** Examples *)

(** v1 is Verified in staging and prod; v2 is newer, was rejected and is live in staging. *)
Definition demo_phase_bundle (name phase : string) (rejected : bool) (t : Time) : Bundle :=
  mkBundle name "app" (mkArtifacts "image" [demo_image name] None None) rejected phase None false None "" "" "" "" "" t None.

Definition demo_bundles (rejected : bool) : list Bundle :=
  [demo_phase_bundle "v1" "Verified" false 1; demo_phase_bundle "v2" (if rejected then "Rejected" else "Verified") rejected 2].

Definition demo_phase_steps : list Step :=
  [mkStepOf "v1-prod" "v1" "app" "prod" StateVerified 1 (Some 5) true;
   mkStepOf "v1-staging" "v1" "app" "staging" StateVerified 1 (Some 4) true;
   mkStepOf "v2-staging" "v2" "app" "staging" StateVerified 2 (Some 6) true].

Example demo_phases :
  DerivePhase "app" (demo_bundles false) demo_phase_steps = "Ready" ∧ DerivePhase "app" (demo_bundles true) demo_phase_steps = "Degraded" ∧
  DerivePhase "app" [] [] = "Unknown" ∧ b_Name <$> CurrentBundle (demo_bundles true) demo_phase_steps = Some "v2" ∧
  b_Name <$> CurrentBundle (demo_bundles true) [] = Some "v1" ∧ BundleVersion (b_Artifacts (demo_phase_bundle "v2" "" false 2)) = "v2".
Proof. by vm_compute. Qed.

Lemma demo_unique rejected : NoDup (b_Name <$> demo_bundles rejected).
Proof. apply (bool_decide_unpack _). by vm_compute. Qed.

Lemma derive_phase_means_witness : degraded "app" (demo_bundles true) demo_phase_steps.
Proof.
  destruct (derive_phase_means "app" (demo_bundles true) demo_phase_steps (demo_unique true)) as [[_ H]|[[E _]|[[E _]|[E _]]]];
    [exact H|vm_compute in E; discriminate E..].
Defined.

Lemma derive_phase_order_witness :
  DerivePhase "app" (reverse (demo_bundles true)) (reverse demo_phase_steps) = "Degraded".
Proof.
  rewrite <- (derive_phase_order "app" (demo_bundles true) (reverse (demo_bundles true)) demo_phase_steps (reverse demo_phase_steps)
    (demo_unique true) (symmetry (reverse_Permutation _)) (symmetry (reverse_Permutation _))). vm_compute. reflexivity.
Defined.

Abbreviation demo_project := (ProjectEnvironments (λ _, None) Fleet.demo_scaled (λ _, true) (λ a b, a +:+ "/" +:+ b) Hold.demo_app (demo_bundles false)
  ((λ s, mkEStep s "" None) <$> demo_phase_steps) [] 100).

Lemma projection_stable_witness : demo_project (demo_project [] 200) 300 = demo_project [] 200.
Proof.
  apply (projection_stable (λ _, None) Fleet.demo_scaled (λ _, true) (λ a b, a +:+ "/" +:+ b) Hold.demo_app (demo_bundles false)
    ((λ s, mkEStep s "" None) <$> demo_phase_steps) [] 100 [] 200 300).
  - apply (bool_decide_unpack _). vm_compute. exact I.
  - discriminate.
Defined.

End PipelinePhase.
