(* ===== verification/MetricText.v ===== *)
(** * MetricText: the placeholders of a MetricCheck

    Model of the texts of src/pkg/graph/metriccheck.go: the placeholders of a query
    (MetricPlaceholders), the values that may be put into one (safeValue), rendering
    (RenderMetricText), and whether the expression of a gate reads a metric
    (ExprReadsMetric).  The regular expressions are written out as functions on bytes. *)

From stdpp Require Import base gmap strings list.
From Stdlib Require Import Ascii Lia ZArith.
From S2P Require Import Prelude.

Open Scope nat_scope.

Module MetricText.

(** ** Characters *)

Definition between (lo hi a : ascii) : bool := (nat_of_ascii lo <=? nat_of_ascii a) && (nat_of_ascii a <=? nat_of_ascii hi).

Definition is_letter (a : ascii) : bool := between "a" "z" a || between "A" "Z" a.
Definition is_digit (a : ascii) : bool := between "0" "9" a.
Definition in_name (a : ascii) : bool := is_letter a || Ascii.eqb a "."%char.

(** \s. *)
Definition is_blank (a : ascii) : bool := existsb (λ n, nat_of_ascii a =? n) [9; 10; 12; 13; 32].

(** The longest prefix of characters of a class, and the rest. *)
Fixpoint span (p : ascii → bool) (s : string) : string * string :=
  match s with
  | EmptyString => (EmptyString, EmptyString)
  | String a t => if p a then let '(l, r) := span p t in (String a l, r) else (EmptyString, s)
  end.

Fixpoint all_chars (p : ascii → bool) (s : string) : bool :=
  match s with EmptyString => true | String a s => p a && all_chars p s end.

(** ** Placeholders *)

(** [placeholderRE] at the start of the text: the name and the text that matches. *)
Definition match_at (s : string) : option (string * string) :=
  if negb (HasPrefix s "{{") then None
  else
    let '(sp, s) := span is_blank (TrimPrefix s "{{") in
    match s with
    | String a _ =>
        if negb (is_letter a) then None
        else let '(name, s) := span in_name s in
             let '(sp', s) := span is_blank s in
             if HasPrefix s "}}" then Some (name, "{{" +:+ sp +:+ name +:+ sp' +:+ "}}") else None
    | EmptyString => None
    end.

Inductive segment := Literal (a : ascii) | Placeholder (name raw : string).

(** The matches of the text, leftmost first, and what is between; [skip] characters
    belong to the match before. *)
Fixpoint segments (skip : nat) (s : string) : list segment :=
  match s with
  | EmptyString => []
  | String a t =>
      match skip with
      | S k => segments k t
      | O =>
          match match_at s with
          | Some (name, raw) => Placeholder name raw :: segments (str_length raw - 1) t
          | None => Literal a :: segments 0 t
          end
      end
  end.

Definition name_of (g : segment) : option string := match g with Literal _ => None | Placeholder name _ => Some name end.

Definition MetricPlaceholders (s : string) : list string := omap name_of (segments 0 s).

Definition KnownMetricPlaceholder (name : string) : bool :=
  bool_decide (name ∈ ["bundle.name"; "bundle.version"; "bundle.imageTag"; "bundle.imageDigest"; "bundle.commitSHA";
                       "pipeline.name"; "environment.name"; "namespace"]).

(** ** Values *)

Definition safe_first (a : ascii) : bool :=
  is_letter a || is_digit a || existsb (Ascii.eqb a) ["_"; "+"; "-"]%char.

Definition safe_char (a : ascii) : bool := safe_first a || Ascii.eqb a "."%char.

Definition safeValueRE (v : string) : bool :=
  match v with EmptyString => false | String a v => safe_first a && all_chars safe_char v end.

Definition digestRE (v : string) : bool :=
  match Cut ":"%char v with
  | Some (algo, hex) =>
      negb (bool_decide (algo = "")) && all_chars (λ a, between "a" "z" a || is_digit a) algo &&
      (32 <=? str_length hex) && (str_length hex <=? 128) && all_chars (λ a, between "a" "f" a || is_digit a) hex
  | None => false
  end.

Definition safeValue (v : string) : bool := (safeValueRE v && negb (Contains v "..")) || digestRE v.

(** ** Rendering *)

Section render.
Variable vars : gmap string string.

Definition render_segment (g : segment) : string :=
  match g with
  | Literal a => String a EmptyString
  | Placeholder name raw =>
      match vars !! name with
      | Some v => if safeValue v then v else raw
      | None => raw
      end
  end.

Fixpoint concat_with (f : segment → string) (l : list segment) : string :=
  match l with [] => EmptyString | g :: l => f g +:+ concat_with f l end.

Definition RenderMetricText (s : string) : string := concat_with render_segment (segments 0 s).
End render.

(** ** Gates that read a metric *)

Definition isIdentChar (a : ascii) : bool := Ascii.eqb a "_"%char || is_digit a || is_letter a.

(** The loop over the occurrences of metrics.name; [skip] characters belong to the
    occurrence before. *)
Fixpoint reads_dotted (pat : string) (skip : nat) (s : string) : bool :=
  match s with
  | EmptyString => false
  | String a t =>
      match skip with
      | S k => reads_dotted pat k t
      | O =>
          if HasPrefix s pat then
            match TrimPrefix s pat with
            | EmptyString => true
            | String c _ => negb (isIdentChar c) || reads_dotted pat (str_length pat - 1) t
            end
          else reads_dotted pat 0 t
      end
  end.

Definition quote : string := String (ascii_of_nat 34) EmptyString.

Definition ExprReadsMetric (expr name : string) : bool :=
  Contains expr (quote +:+ name +:+ quote) || Contains expr ("'" +:+ name +:+ "'") || reads_dotted ("metrics." +:+ name) 0 expr.

(** ** Matches *)

Lemma prefix_split s p : HasPrefix s p = true → s = p +:+ TrimPrefix s p.
Proof.
  intros H. assert (∃ t, s = p +:+ t) as [t ->]; [|by rewrite TrimPrefix_app]. unfold HasPrefix in H. revert s H.
  induction p as [|c p IH]; intros s H; [by exists s|]. destruct s as [|a s]; [done|]. simpl in H. destruct (ascii_dec c a) as [->|]; [|done].
  destruct (IH s H) as [t ->]. by exists t.
Qed.

Lemma append_assoc a b c : (a +:+ b) +:+ c = a +:+ b +:+ c.
Proof. induction a as [|x a IH]; [done|]. change (String x ((a +:+ b) +:+ c) = String x (a +:+ b +:+ c)). by f_equal. Qed.

Lemma span_app p s : s = (span p s).1 +:+ (span p s).2.
Proof.
  induction s as [|a s IH]; [done|]. simpl. destruct (p a); [|done]. destruct (span p s) as [l r]. cbn [fst snd] in *.
  change (String a s = String a (l +:+ r)). by f_equal.
Qed.

Lemma span_all p s : all_chars p (span p s).1 = true.
Proof. induction s as [|a s IH]; [done|]. simpl. destruct (p a) eqn:E; [|done]. destruct (span p s) as [l r]. simpl in *. by rewrite E. Qed.

(** Of a text of the class followed by something else, the span is that text. *)
Lemma span_stop p l r : all_chars p l = true → match r with String a _ => p a = false | EmptyString => True end → span p (l +:+ r) = (l, r).
Proof.
  intros Hl Hr. induction l as [|a l IH]; simpl in *.
  - destruct r as [|b r]; [done|]. simpl. by rewrite Hr.
  - apply andb_true_iff in Hl as [-> Hl]. by rewrite (IH Hl).
Qed.

Lemma span_rest p s : match (span p s).2 with String a _ => p a = false | EmptyString => True end.
Proof. induction s as [|a s IH]; [done|]. simpl. destruct (p a) eqn:E; [|done]. by destruct (span p s). Qed.

Lemma letter_not_blank a : is_letter a = true → is_blank a = false.
Proof.
  unfold is_letter, is_blank, between. intros H. apply not_true_is_false. intros (n & Hn & E)%existsb_exists. apply Nat.eqb_eq in E.
  rewrite E in H. cbn in Hn. repeat destruct Hn as [<-|Hn]; vm_compute in H; done.
Qed.

Lemma blank_not_name a : is_blank a = true → in_name a = false.
Proof.
  intros H. unfold in_name. apply orb_false_iff. split; [apply not_true_is_false; intros E%letter_not_blank; congruence|].
  apply Ascii.eqb_neq. by intros ->.
Qed.

Lemma concat_with_app f l1 l2 : concat_with f (l1 ++ l2) = concat_with f l1 +:+ concat_with f l2.
Proof. induction l1 as [|g l1 IH]; [done|]. cbn [app concat_with]. by rewrite IH, append_assoc. Qed.

(** What a match is made of. *)
Lemma match_at_shape s name raw :
  match_at s = Some (name, raw) →
  ∃ sp sp' rest, raw = "{{" +:+ sp +:+ name +:+ sp' +:+ "}}" ∧ s = raw +:+ rest ∧ all_chars is_blank sp = true ∧ all_chars in_name name = true ∧
    all_chars is_blank sp' = true ∧ ∃ a t, name = String a t ∧ is_letter a = true.
Proof.
  unfold match_at. destruct (HasPrefix s "{{") eqn:Ep; [|done]. cbn [negb]. apply prefix_split in Ep. set (s1 := TrimPrefix s "{{") in *.
  pose proof (span_app is_blank s1) as E1. pose proof (span_all is_blank s1) as A1. destruct (span is_blank s1) as [sp s2]. cbn [fst snd] in *.
  destruct s2 as [|a s2]; [done|]. destruct (is_letter a) eqn:Ea; [|done]. cbn [negb].
  pose proof (span_app in_name (String a s2)) as E2. pose proof (span_all in_name (String a s2)) as A2.
  assert (∃ t, (span in_name (String a s2)).1 = String a t) as [t Et].
  { simpl. unfold in_name at 1. rewrite Ea. cbn [orb]. destruct (span in_name s2). by eexists. }
  destruct (span in_name (String a s2)) as [nm s3]. cbn [fst snd] in *.
  pose proof (span_app is_blank s3) as E3. pose proof (span_all is_blank s3) as A3. destruct (span is_blank s3) as [sp' s4]. cbn [fst snd] in *.
  destruct (HasPrefix s4 "}}") eqn:Eq; [|done]. apply prefix_split in Eq. intros [= <- <-]. exists sp, sp', (TrimPrefix s4 "}}").
  split_and!; [done| |done..|by exists a, t]. rewrite Ep, E1, E2, E3, Eq at 1. by rewrite !append_assoc.
Qed.

(** A match does not depend on what follows. *)
Lemma match_at_app s name raw rest : match_at s = Some (name, raw) → match_at (raw +:+ rest) = Some (name, raw).
Proof.
  intros (sp & sp' & r & Hraw & _ & A1 & A2 & A3 & a & t & Hn & Ha)%match_at_shape. subst raw. rewrite !append_assoc.
  unfold match_at. rewrite HasPrefix_app, TrimPrefix_app. cbn [negb].
  rewrite (span_stop is_blank sp) by (try done; rewrite Hn; by apply letter_not_blank).
  assert (∀ x, (match name +:+ x with String b _ => is_letter b | EmptyString => false end) = true) as Hfirst by (intros x; by rewrite Hn).
  specialize (Hfirst (sp' +:+ "}}" +:+ rest)). destruct (name +:+ sp' +:+ "}}" +:+ rest) as [|b u] eqn:Eu; [done|]. rewrite Hfirst. cbn [negb]. rewrite <- Eu.
  rewrite (span_stop in_name name); [|done|].
  2: { destruct sp' as [|c sp']; [done|]. simpl in A3. apply andb_true_iff in A3 as [Hc _]. by apply blank_not_name. }
  rewrite (span_stop is_blank sp') by done. by rewrite HasPrefix_app.
Qed.

(** ** Segments *)

Fixpoint drop_chars (n : nat) (s : string) : string :=
  match n, s with
  | O, _ => s
  | S n, String _ s => drop_chars n s
  | S _, EmptyString => EmptyString
  end.

Lemma drop_chars_app p s : drop_chars (str_length p) (p +:+ s) = s.
Proof. induction p as [|a p IH]; [by destruct s|]. exact IH. Qed.

Definition raw_of (g : segment) : string := match g with Literal a => String a EmptyString | Placeholder _ raw => raw end.

(** The segments make up the text. *)
Lemma segments_text s : ∀ skip, concat_with raw_of (segments skip s) = drop_chars skip s.
Proof.
  induction s as [|a s IH]; intros skip; [by destruct skip|]. destruct skip as [|skip]; [|apply IH]. cbn [segments].
  destruct (match_at (String a s)) as [[name raw]|] eqn:Em.
  - cbn [concat_with raw_of]. rewrite IH. destruct (match_at_shape _ _ _ Em) as (sp & sp' & rest & Hraw & Hs & _).
    destruct raw as [|c raw]; [done|]. change (String c raw +:+ rest) with (String c (raw +:+ rest)) in Hs. injection Hs as -> ->.
    replace (str_length (String c raw) - 1) with (str_length raw) by (unfold str_length; simpl; lia). rewrite drop_chars_app. done.
  - cbn [concat_with raw_of]. rewrite IH. done.
Qed.

(** A match anywhere in the text leaves a placeholder. *)
Lemma match_found t : is_Some (match_at t) → ∀ l, MetricPlaceholders (l +:+ t) ≠ [].
Proof.
  intros [[name raw] Hm] l. unfold MetricPlaceholders. induction l as [|a l IH].
  - change ("" +:+ t) with t. destruct t as [|c t]; [done|]. cbn [segments]. rewrite Hm. done.
  - change (String a l +:+ t) with (String a (l +:+ t)). cbn [segments]. destruct (match_at (String a (l +:+ t))) as [[n r]|]; [done|exact IH].
Qed.

Lemma segments_match s : ∀ skip name raw, Placeholder name raw ∈ segments skip s → ∃ t, match_at t = Some (name, raw).
Proof.
  induction s as [|a s IH]; intros skip name raw; [by intros ?%elem_of_nil|]. destruct skip as [|skip]; [|apply IH]. cbn [segments].
  destruct (match_at (String a s)) as [[n r]|] eqn:Em; intros [?|H]%elem_of_cons; simplify_eq; [by eexists|by apply (IH _ _ _ H)|by apply (IH _ _ _ H)].
Qed.

(** A text that is
    rendered without a placeholder left had every one of its placeholders replaced by a
    safe value: a name of letters, digits and _ + - with dots inside, or a digest. *)
Theorem rendered_values_safe vars s name :
  MetricPlaceholders (RenderMetricText vars s) = [] → name ∈ MetricPlaceholders s →
  ∃ v, vars !! name = Some v ∧ safeValue v = true.
Proof.
  intros Hnone (g & Hg & Hname)%list_elem_of_omap. destruct g as [|n raw]; [done|]. injection Hname as ->.
  destruct (segments_match _ _ _ _ Hg) as [t Ht].
  destruct (match vars !! name with Some v => if safeValue v then Some v else None | None => None end) as [v|] eqn:Ev.
  { destruct (vars !! name) as [v'|]; [|done]. destruct (safeValue v') eqn:Es; [|done]. injection Ev as ->. by exists v. }
  exfalso. assert (render_segment vars (Placeholder name raw) = raw) as Hr.
  { simpl. destruct (vars !! name) as [v'|]; [|done]. by destruct (safeValue v'). }
  unfold RenderMetricText in Hnone. destruct (list_elem_of_split _ _ Hg) as (l1 & l2 & E). rewrite E in Hnone.
  rewrite concat_with_app in Hnone. cbn [concat_with] in Hnone. rewrite Hr in Hnone.
  by apply (match_found (raw +:+ concat_with (render_segment vars) l2) ltac:(rewrite (match_at_app _ _ _ _ Ht); by eexists)
    (concat_with (render_segment vars) l1)).
Qed.

Lemma Cut_split c s x y : Cut c s = Some (x, y) → s = x +:+ String c y.
Proof.
  revert x. induction s as [|a s IH]; intros x; [done|]. simpl. destruct (Ascii.eqb_spec a c) as [->|]; [by intros [= <- <-]|].
  destruct (Cut c s) as [[u v]|]; [|done]. intros [= <- <-]. change (String a s = String a (u +:+ String c v)). f_equal. by apply IH.
Qed.

Lemma all_chars_weaken (p q : ascii → bool) s : (∀ a, p a = true → q a = true) → all_chars p s = true → all_chars q s = true.
Proof. intros Hpq. induction s as [|a s IH]; [done|]. simpl. intros [?%Hpq ?]%andb_true_iff. apply andb_true_iff. auto. Qed.

Lemma all_chars_app p x y : all_chars p (x +:+ y) = all_chars p x && all_chars p y.
Proof. induction x as [|a x IH]; [done|]. change (p a && all_chars p (x +:+ y) = p a && all_chars p x && all_chars p y). by rewrite IH, andb_assoc. Qed.

(** A safe value has no quote, brace, space or any other character with a meaning. *)
Theorem safe_value_chars v : safeValue v = true → v ≠ "" ∧ all_chars (λ a, safe_char a || Ascii.eqb a ":"%char) v = true.
Proof.
  unfold safeValue. intros [[Hs _]%andb_true_iff|Hd]%orb_true_iff.
  - destruct v as [|a v]; [done|]. split; [done|]. simpl in *. apply andb_true_iff in Hs as [Ha Hv]. unfold safe_char at 1. rewrite Ha. cbn [orb].
    revert Hv. apply all_chars_weaken. by intros c ->.
  - unfold digestRE in Hd. destruct (Cut ":"%char v) as [[algo hex]|] eqn:Ec; [|done]. apply Cut_split in Ec. subst v.
    repeat apply andb_true_iff in Hd as [Hd ?]. split; [by destruct algo|]. rewrite all_chars_app. apply andb_true_iff. split; [|apply andb_true_iff; split; [done|]].
    + eapply all_chars_weaken; [|done]. intros c Hc. unfold safe_char, safe_first, is_letter. apply orb_true_iff in Hc as [->| ->]; [done|].
      by rewrite !orb_true_r.
    + eapply all_chars_weaken; [|done]. intros c Hc. unfold safe_char, safe_first, is_letter. apply orb_true_iff in Hc as [Hc| ->]; [|by rewrite !orb_true_r].
      assert (between "a" "z" c = true) as ->; [|done]. unfold between in *. apply andb_true_iff in Hc as [Hlo Hhi%Nat.leb_le].
      rewrite Hlo. apply Nat.leb_le. change (nat_of_ascii "f") with 102 in Hhi. change (nat_of_ascii "z") with 122. lia.
Qed.

(** ** Examples *)

Definition demo_vars (version : string) : gmap string string := <["bundle.version" := version]> ∅.

Example demo_render :
  RenderMetricText (demo_vars "1.2.0") "rate{v={{ bundle.version }}} {{x}}" = "rate{v=1.2.0} {{x}}" ∧
  RenderMetricText (demo_vars "1} or vector(1") "rate{v={{bundle.version}}}" = "rate{v={{bundle.version}}}" ∧
  MetricPlaceholders "a {{ x }} {{{y.z}} {{ 1 }}" = ["x"; "y.z"] ∧
  safeValue "sha256:00112233445566778899aabbccddeeff" = true ∧ safeValue "a..b" = false ∧
  ExprReadsMetric "metrics.latency2.result" "latency" = false ∧ ExprReadsMetric "metrics.latency.result" "latency" = true.
Proof. by vm_compute. Qed.

Lemma rendered_values_safe_witness : ∃ v, demo_vars "1.2.0" !! "bundle.version" = Some v ∧ safeValue v = true.
Proof.
  apply (rendered_values_safe (demo_vars "1.2.0") "rate{v={{ bundle.version }}}" "bundle.version"); [vm_compute; reflexivity|].
  replace (MetricPlaceholders "rate{v={{ bundle.version }}}") with ["bundle.version"] by (vm_compute; reflexivity). by left.
Defined.

(** A value can complete a placeholder around it; what it makes is a placeholder again,
    so such a query is not sent. *)
Example nested_placeholder_kept :
  RenderMetricText (<["namespace" := "name"]> ∅) "{{ bundle.{{ namespace }} }}" = "{{ bundle.name }}" ∧
  MetricPlaceholders "{{ bundle.name }}" = ["bundle.name"].
Proof. by vm_compute. Qed.

End MetricText.
