(* ===== verification/MetricCheck.v ===== *)
(** * MetricCheck: evaluating a metric

    Model of src/pkg/reconciler/metriccheck/reconciler.go: one reconcile of a
    MetricCheck with the slot it needs ([Limiter]), the query, the threshold and the
    status it writes, and the retries of a write that fails.  A time is written to the
    status as it is; the API server keeps its whole seconds.  The backend's answer and
    time.ParseDuration are inputs; [MetricText] finds the placeholders.  A float64 is NaN,
    an infinity or m * 2^e, so comparing two is exact. *)

From stdpp Require Import base gmap strings list.
From Stdlib Require Import Lia ZArith.
From S2P Require Import Prelude Engine StepStatus Hooks Outbox Bake Transition Cancel MetricText.
Import Cancel.Cancel MetricText.MetricText.

Open Scope Z_scope.

Module MetricCheck.

(** ** Numbers *)

Inductive float64 := NaN | Inf (negative : bool) | Fin (m e : Z).

(** The comparison of two numbers; nothing compares with NaN. *)
Definition fcompare (a b : float64) : option comparison :=
  match a, b with
  | NaN, _ | _, NaN => None
  | Inf true, Inf true | Inf false, Inf false => Some Eq
  | Inf true, _ | _, Inf false => Some Lt
  | Inf false, _ | _, Inf true => Some Gt
  | Fin m e, Fin m' e' => let k := Z.min e e' in Some (Z.compare (m * 2 ^ (e - k)) (m' * 2 ^ (e' - k)))
  end.

Definition flt (a b : float64) : bool := match fcompare a b with Some Lt => true | _ => false end.
Definition feq (a b : float64) : bool := match fcompare a b with Some Eq => true | _ => false end.

(** math.IsNaN(v) || math.IsInf(v, 0). *)
Definition not_finite (v : float64) : bool := match v with Fin _ _ => false | _ => true end.

(** ** Data *)

Record Value := mkValue { v_Number : float64; v_Numeric : bool; v_Text : string }.

Record MetricThreshold := mkThreshold { t_Value : float64; t_Operator : string; t_Text : option string }.

(** The wording of the reasons that are compared; the rest are [ROther]. *)
Inductive Reason :=
  | RNone | RTemplate (unknown : list string) | RSuspended | RVersionFinal | RWaitingForSlot
  | RUnrendered (names : list string) | RQueryError | ROther (text : string).

#[export] Instance Reason_eq_dec : EqDecision Reason.
Proof. solve_decision. Defined.

Record Status := mkStatus {
  ms_LastValue : string;
  ms_LastEvaluatedAt : option Time;
  ms_ValidUntil : option Time;
  ms_Result : string;
  ms_Reason : Reason
}.

#[export] Instance Status_eq_dec : EqDecision Status.
Proof. solve_decision. Defined.

(** spec.web: its URL, body and the values of its headers. *)
Record WebProviderSpec := mkWeb { w_URL : string; w_Body : string; w_Headers : list (option string) }.

Record MetricCheck := mkCheck {
  mc_Key : NamespacedName;
  mc_BundleLabel : string;
  mc_Created : Time;
  mc_Interval : string;
  mc_PerPromotion : bool;
  mc_Suspend : bool;
  mc_Query : string;
  mc_Web : option WebProviderSpec;
  mc_Threshold : MetricThreshold;
  mc_Status : Status
}.

(** ** The threshold *)

Definition passFail (pass : bool) : string := if pass then "Pass" else "Fail".

Definition evaluateThreshold (value : Value) (t : MetricThreshold) : string :=
  match t_Text t with
  | Some text =>
      if bool_decide (t_Operator t = "eq") then passFail (bool_decide (v_Text value = text))
      else if bool_decide (t_Operator t = "ne") then passFail (negb (bool_decide (v_Text value = text)))
      else "Fail"
  | None =>
      if negb (v_Numeric value) then "Fail"
      else
        let v := v_Number value in
        if not_finite v then "Fail"
        else if bool_decide (t_Operator t = "lt") then passFail (flt v (t_Value t))
        else if bool_decide (t_Operator t = "gt") then passFail (flt (t_Value t) v)
        else if bool_decide (t_Operator t = "lte") then passFail (flt v (t_Value t) || feq v (t_Value t))
        else if bool_decide (t_Operator t = "gte") then passFail (flt (t_Value t) v || feq v (t_Value t))
        else if bool_decide (t_Operator t = "eq") then passFail (feq v (t_Value t))
        else if bool_decide (t_Operator t = "ne") then passFail (negb (feq v (t_Value t)))
        else "Fail"
  end.

(** ** Intervals *)

Definition defaultInterval : Duration := 60 * second.
Definition minInterval : Duration := 10 * second.
Definition staleAfterIntervals : Z := 3.
Definition minValidFor : Duration := 30 * second.
Definition firstWriteRetry : Duration := 5 * second.
Definition waitingRecheck : Duration := 30 * second.

Section reconcile.
(** time.ParseDuration; [None] is an error. *)
Variable ParseDuration : string → option Duration.

Definition parseInterval (s : string) : Duration :=
  if bool_decide (s = "") then defaultInterval
  else match ParseDuration s with
       | None => defaultInterval
       | Some d => if d <=? 0 then defaultInterval else if d <? minInterval then minInterval else d
       end.

Definition validFor (interval : Duration) : Duration := Z.max (i64 (staleAfterIntervals * interval)) minValidFor.

Definition writeRetry (lastWrite : option Time) (created attempted : Time) (interval : Duration) : Duration :=
  let early := Z.min interval firstWriteRetry in
  let '(since, from) := match lastWrite with
                        | None => (sub_time attempted created, 0)
                        | Some t => (sub_time attempted t, interval)
                        end in
  if (from <=? since) && (since <? i64 (from + early)) then early else interval.

(** ** The reconcile *)

(** The spec fields whose placeholders the Graph replaces. *)
Definition templatedTexts (mc : MetricCheck) : list string :=
  mc_Query mc :: match mc_Web mc with Some w => w_URL w :: w_Body w :: omap id (w_Headers w) | None => [] end.

Definition unrenderedPlaceholders (mc : MetricCheck) : list string := mjoin (MetricPlaceholders <$> templatedTexts mc).

Definition templateReason (mc : MetricCheck) : Reason :=
  RTemplate (filter (λ n, KnownMetricPlaceholder n = false) (mjoin (MetricPlaceholders <$> templatedTexts mc))).

Definition final_phase (phase : string) : bool := bool_decide (phase = "Superseded") || bool_decide (phase = "Rejected").

(** [versionFinal]: the phase of the Bundle of the label. *)
Definition versionFinal (mc : MetricCheck) (phase : read string) : bool :=
  if bool_decide (mc_BundleLabel mc = "") then false
  else match phase with Got ph => final_phase ph | _ => false end.

(** How a status patch ends. *)
Inductive write := WriteOK | WriteGone | WriteFailed.

Inductive effect :=
  | CancelSlot
  | TryAcquire (ok : bool)
  | RunQuery
  | PatchStatus (s : Status)
  | ReleaseSlot.

Inductive result := Done | RequeueAfter (d : Duration) | Error.

(** [markNotQueried]: the patch it sends, if any. *)
Definition markNotQueried (mc : MetricCheck) (reason : Reason) (clear : bool) : list effect :=
  let s := mc_Status mc in
  let want := if clear then mkStatus "" None None "" reason
              else mkStatus (ms_LastValue s) (ms_LastEvaluatedAt s) (ms_ValidUntil s) (ms_Result s) reason in
  if bool_decide (want = s) then [] else [PatchStatus want].

(** With no Limiter it does nothing. *)
Definition cancelSlot (slot : option bool) : list effect := match slot with Some _ => [CancelSlot] | None => [] end.

(** The end of a reconcile that does not query. *)
Definition marked (slot : option bool) (effs : list effect) (w : write) : list effect * result :=
  (cancelSlot slot ++ effs, match effs, w with _ :: _, WriteFailed => Error | _, _ => Done end).

Definition patched (mc : MetricCheck) (now : Time) (lastValue result_ : string) (reason : Reason) : Status :=
  mkStatus lastValue (Some now) (Some (now + validFor (parseInterval (mc_Interval mc)))) result_ reason.

Definition record (mc : MetricCheck) (interval : Duration) (now : Time) (w : write) (lastValue result_ : string) (reason : Reason) :
  list effect * result :=
  ([PatchStatus (patched mc now lastValue result_ reason)],
   match w with
   | WriteOK => RequeueAfter interval
   | WriteGone => Done
   | WriteFailed => RequeueAfter (writeRetry (ms_LastEvaluatedAt (mc_Status mc)) (mc_Created mc) now interval)
   end).

(** [slot]: there is a Limiter, and whether it grants a slot; [answer]: the backend's,
    [None] for an error; [text]: the wording of the verdict. *)
Definition reconcile (check : read MetricCheck) (phase : read string) (slot : option bool) (answer : option Value) (text : string)
    (now : Time) (w : write) : list effect * result :=
  match check with
  | Missing => (cancelSlot slot, Done)
  | ReadError => ([], Error)
  | Got mc =>
      if mc_PerPromotion mc then marked slot (markNotQueried mc (templateReason mc) true) w
      else if mc_Suspend mc then marked slot (markNotQueried mc RSuspended false) w
      else if versionFinal mc phase then marked slot (markNotQueried mc RVersionFinal false) w
      else
        let interval := parseInterval (mc_Interval mc) in
        let ph := unrenderedPlaceholders mc in
        if negb (bool_decide (ph = [])) then
          let '(effs, r) := record mc interval now w "" "Fail" (RUnrendered ph) in (cancelSlot slot ++ effs, r)
        else
          match slot with
          | Some false =>
              let overdue := match ms_LastEvaluatedAt (mc_Status mc) with None => true | Some last => interval <=? sub_time now last end in
              (TryAcquire false :: (if overdue then markNotQueried mc RWaitingForSlot false else []),
               RequeueAfter (Z.min waitingRecheck interval))
          | _ =>
              let '(effs, r) := match answer with
                                | None => record mc interval now w "" "Fail" RQueryError
                                | Some value => record mc interval now w (v_Text value) (evaluateThreshold value (mc_Threshold mc)) (ROther text)
                                end in
              let held := bool_decide (is_Some slot) in
              ((if held then [TryAcquire true] else []) ++ RunQuery :: effs ++ (if held then [ReleaseSlot] else []), r)
          end
  end.
End reconcile.

(** ** Workers *)

Definition maxConcurrentReconciles : Z := 16.
Definition spareWorkers : Z := 4.

(** [Global] is the Limiter's, if there is one. *)
Definition workerCount (Global : option Z) : Z :=
  match Global with
  | Some g => if maxConcurrentReconciles <? g + spareWorkers then g + spareWorkers else maxConcurrentReconciles
  | None => maxConcurrentReconciles
  end.

(** ** The watch on Bundles *)

(** An update of a Bundle passes when its phase becomes final. *)
Definition becameFinal (old new : string) : bool := final_phase new && negb (final_phase old).

(** [None]: the list could not be read. *)
Definition bundleInstances (checks : option (list MetricCheck)) (bundle : NamespacedName) : list NamespacedName :=
  match checks with
  | None => []
  | Some l => mc_Key <$> filter (λ mc, Namespace (mc_Key mc) = Namespace bundle ∧ mc_BundleLabel mc = Name bundle) l
  end.

(** ** What a threshold means *)

(** Two finite numbers compare as m * 2^e and m' * 2^e' do, at any common scale. *)
Lemma fcompare_scale m e m' e' k :
  k ≤ e → k ≤ e' → fcompare (Fin m e) (Fin m' e') = Some (Z.compare (m * 2 ^ (e - k)) (m' * 2 ^ (e' - k))).
Proof.
  intros He He'. unfold fcompare. f_equal.
  assert (e - k = (e - Z.min e e') + (Z.min e e' - k)) as -> by lia.
  assert (e' - k = (e' - Z.min e e') + (Z.min e e' - k)) as -> by lia.
  rewrite !Z.pow_add_r, !Z.mul_assoc by lia.
  by rewrite <- Zmult_compare_compat_r by (apply Z.lt_gt, Z.pow_pos_nonneg; lia).
Qed.

Lemma fcompare_flip a b : fcompare b a = CompOpp <$> fcompare a b.
Proof.
  destruct a as [|[]|m e], b as [|[]|m' e']; try done. unfold fcompare. rewrite Z.min_comm, Z.compare_antisym. done.
Qed.

(** When an operator holds of how the value compares with the threshold. *)
Definition relation (op : string) (c : option comparison) : Prop :=
  (op = "lt" ∧ c = Some Lt) ∨ (op = "gt" ∧ c = Some Gt) ∨ (op = "lte" ∧ (c = Some Lt ∨ c = Some Eq)) ∨
  (op = "gte" ∧ (c = Some Gt ∨ c = Some Eq)) ∨ (op = "eq" ∧ c = Some Eq) ∨ (op = "ne" ∧ c ≠ Some Eq).

Lemma passFail_pass b : passFail b = "Pass" ↔ b = true.
Proof. by destruct b. Qed.

(** The numeric branch: only a finite number passes. *)
Lemma number_passes value t :
  t_Text t = None →
  evaluateThreshold value t = "Pass" ↔
  v_Numeric value = true ∧ not_finite (v_Number value) = false ∧ relation (t_Operator t) (fcompare (v_Number value) (t_Value t)).
Proof.
  intros Ht. unfold evaluateThreshold, relation, flt, feq. rewrite Ht.
  rewrite (fcompare_flip (v_Number value) (t_Value t)).
  destruct (v_Numeric value); [|split; [done|naive_solver]]. destruct (not_finite _); [split; [done|naive_solver]|]. simpl.
  generalize (fcompare (v_Number value) (t_Value t)) as c; intros c.
  repeat case_bool_decide; rewrite ?passFail_pass; try (destruct c as [[]|]; simpl; naive_solver congruence).
Qed.

(** A threshold passes exactly when its relation holds.  With a text, the value must be
    that text (eq) or another (ne), and no other operator passes.  Without one the value
    must be a finite number in the relation of the operator to the threshold: NaN, which
    a division by zero gives, and the infinities never pass, not even with ne. *)
Theorem threshold_means value t :
  evaluateThreshold value t = "Pass" ↔
  match t_Text t with
  | Some text => (t_Operator t = "eq" ∧ v_Text value = text) ∨ (t_Operator t = "ne" ∧ v_Text value ≠ text)
  | None => v_Numeric value = true ∧
            ∃ m e, v_Number value = Fin m e ∧ relation (t_Operator t) (fcompare (Fin m e) (t_Value t))
  end.
Proof.
  destruct (t_Text t) as [text|] eqn:Ht.
  - unfold evaluateThreshold. rewrite Ht. repeat case_bool_decide; simpl; naive_solver congruence.
  - rewrite (number_passes _ _ Ht). destruct (v_Number value) as [|?|m e]; simpl; naive_solver.
Qed.

(** ** How long a result holds *)

Lemma parseInterval_bounds P s : (∀ d, P s = Some d → d < 2 ^ 63) → minInterval ≤ parseInterval P s < 2 ^ 63.
Proof.
  unfold parseInterval, minInterval, defaultInterval, second. intros HP. case_bool_decide; [lia|]. destruct (P s) as [d|]; [|lia].
  specialize (HP d eq_refl). destruct (Z.leb_spec d 0), (Z.ltb_spec d (10 * 1000000000)); lia.
Qed.

(** A result is valid for three intervals, and at least 30s, when three intervals fit in a
    Duration (292 years). *)
Lemma validFor_three interval : 0 ≤ interval → 3 * interval < 2 ^ 63 → validFor interval = Z.max (3 * interval) minValidFor.
Proof. intros ??. unfold validFor, staleAfterIntervals. rewrite i64_small by lia. done. Qed.

(** Past that the product wraps: a result of an interval of 1000000h is valid for 30s. *)
Lemma valid_for_overflows : let h := 3600 * second in 1000000 * h < 2 ^ 63 ∧ validFor (1000000 * h) = 30 * second.
Proof. by vm_compute. Qed.

(** ** Retrying a write *)

(** A failed status write is retried early at most once.  When the failure at [a] is
    retried early, any failure of the same stored object at or after that retry is
    retried after the interval, so a write that keeps failing queries the backend
    at most once more than the interval says. *)
Theorem early_retry_once lastWrite created a b interval :
  minInterval ≤ interval < 2 ^ 62 →
  writeRetry lastWrite created a interval = firstWriteRetry → a + firstWriteRetry ≤ b →
  writeRetry lastWrite created b interval = interval.
Proof.
  unfold writeRetry, minInterval, firstWriteRetry, second. intros Hi Ha Hb.
  rewrite Z.min_r in * by lia. destruct lastWrite as [t|];
    (rewrite i64_small in * by lia; unfold sub_time in *;
     match type of Ha with (if ?c then _ else _) = _ => destruct c eqn:Hc in Ha; [|lia] end;
     apply andb_true_iff in Hc as [Hc%Z.leb_le Hc'%Z.ltb_lt];
     match goal with |- (if ?c then _ else _) = _ => destruct c eqn:Hd end; [|done];
     apply andb_true_iff in Hd as [Hd%Z.leb_le Hd'%Z.ltb_lt]; lia).
Qed.

(** ** What a reconcile does *)

Section runs.
Context (P : string → option Duration).

Lemma marked_elem slot mc reason clear w x :
  x ∈ (marked slot (markNotQueried mc reason clear) w).1 →
  x = CancelSlot ∨ ∃ s, x = PatchStatus s ∧ ms_Reason s = reason ∧
    if clear then ms_Result s = "" ∧ ms_LastEvaluatedAt s = None ∧ ms_ValidUntil s = None
    else ms_Result s = ms_Result (mc_Status mc) ∧ ms_LastValue s = ms_LastValue (mc_Status mc) ∧
         ms_LastEvaluatedAt s = ms_LastEvaluatedAt (mc_Status mc) ∧ ms_ValidUntil s = ms_ValidUntil (mc_Status mc).
Proof.
  unfold marked, markNotQueried, cancelSlot. simpl. intros [H|H]%elem_of_app; [destruct slot; set_solver|].
  right. destruct clear; case_bool_decide; [set_solver| |set_solver|]; apply list_elem_of_singleton in H as ->; eauto 10.
Qed.

Lemma cancel_elem slot x : x ∈ cancelSlot slot → x = CancelSlot.
Proof. destruct slot; set_solver. Qed.

(** What a reconcile of [mc] that queries does, in order. *)
Definition query_run (mc : MetricCheck) (slot : option bool) (answer : option Value) (text : string) (now : Time) : list effect :=
  let s := match answer with
           | None => patched P mc now "" "Fail" RQueryError
           | Some v => patched P mc now (v_Text v) (evaluateThreshold v (mc_Threshold mc)) (ROther text)
           end in
  (if bool_decide (is_Some slot) then [TryAcquire true] else []) ++ [RunQuery; PatchStatus s] ++
  (if bool_decide (is_Some slot) then [ReleaseSlot] else []).

Definition may_query (mc : MetricCheck) (phase : read string) (slot : option bool) : Prop :=
  mc_PerPromotion mc = false ∧ mc_Suspend mc = false ∧ versionFinal mc phase = false ∧ unrenderedPlaceholders mc = [] ∧ slot ≠ Some false.

(** Either the reconcile runs the whole query, or it sends none and what it writes is not
    a new result. *)
Lemma reconcile_cases mc phase slot answer text now w :
  let effs := (reconcile P (Got mc) phase slot answer text now w).1 in
  (may_query mc phase slot ∧ effs = query_run mc slot answer text now) ∨
  (¬ may_query mc phase slot ∧
   ∀ x, x ∈ effs → x = CancelSlot ∨ x = TryAcquire false ∨
     ∃ s, x = PatchStatus s ∧
       (ms_Result s ≠ "Pass" ∨
        ms_Result s = ms_Result (mc_Status mc) ∧ ms_LastValue s = ms_LastValue (mc_Status mc) ∧
        ms_LastEvaluatedAt s = ms_LastEvaluatedAt (mc_Status mc) ∧ ms_ValidUntil s = ms_ValidUntil (mc_Status mc))).
Proof.
  intros effs. subst effs. unfold reconcile, may_query.
  destruct (mc_PerPromotion mc); [right; split; [naive_solver|]; intros x [->|(s & -> & _ & H & _)]%marked_elem; [by left|]; right; right; exists s; rewrite H; by auto|].
  destruct (mc_Suspend mc); [right; split; [naive_solver|]; intros x [->|(s & -> & _ & H)]%marked_elem; [by left|]; right; right; by eauto|].
  destruct (versionFinal mc phase); [right; split; [naive_solver|]; intros x [->|(s & -> & _ & H)]%marked_elem; [by left|]; right; right; by eauto|].
  case_bool_decide as Hph; simpl; [|right; split; [naive_solver|]; intros x [Hc%cancel_elem|Hc%list_elem_of_singleton]%elem_of_app; subst x; [by left|]; right; right; by eauto].
  destruct slot as [[]|]; simpl.
  - left. unfold query_run. destruct answer; simpl; naive_solver.
  - right. split; [naive_solver|]. intros x [->|H]%elem_of_cons; [naive_solver|].
    destruct (match ms_LastEvaluatedAt (mc_Status mc) with None => true | Some last => _ end); [|set_solver].
    destruct (marked_elem None mc RWaitingForSlot false WriteOK x H) as [->|(s & -> & _ & H')]; [by left|]. right; right; by eauto.
  - left. unfold query_run. destruct answer; simpl; naive_solver.
Qed.

(** ** Safety *)

(** The texts a query sends: the query of a metrics backend, and the URL, the body and the
    literal header values of a web check. *)
Inductive sent (mc : MetricCheck) : string → Prop :=
  | sent_query : sent mc (mc_Query mc)
  | sent_url w : mc_Web mc = Some w → sent mc (w_URL w)
  | sent_body w : mc_Web mc = Some w → sent mc (w_Body w)
  | sent_header w v : mc_Web mc = Some w → Some v ∈ w_Headers w → sent mc v.

(** When a check is queried: it is no template and not suspended, no placeholder is left in
    what it sends, it has its slot, and its Bundle, where it can be read, is neither
    superseded nor rejected. *)
Record queried (mc : MetricCheck) (phase : read string) (slot : option bool) : Prop := {
  q_concrete : mc_PerPromotion mc = false;
  q_active : mc_Suspend mc = false;
  q_current : mc_BundleLabel mc ≠ "" → ∀ ph, phase = Got ph → ph ≠ "Superseded" ∧ ph ≠ "Rejected";
  q_rendered : ∀ t, sent mc t → MetricPlaceholders t = [];
  q_slot : slot ≠ Some false
}.

Lemma templatedTexts_sent mc t : t ∈ templatedTexts mc ↔ sent mc t.
Proof.
  unfold templatedTexts. rewrite elem_of_cons. split.
  - intros [->|H]; [constructor|]. destruct (mc_Web mc) as [x|] eqn:Ew; [|by apply elem_of_nil in H].
    rewrite !elem_of_cons, list_elem_of_omap in H. destruct H as [->|[->|(o & Ho & E)]]; [by constructor..|].
    simpl in E. subst o. by eapply sent_header.
  - intros [|x E|x E|x v E Hv]; [by left|right; rewrite E..]; rewrite !elem_of_cons, ?list_elem_of_omap; [by left|by right; left|].
    right. right. by exists (Some v).
Qed.

Lemma may_query_iff mc phase slot : may_query mc phase slot ↔ queried mc phase slot.
Proof.
  assert (unrenderedPlaceholders mc = [] ↔ ∀ t, sent mc t → MetricPlaceholders t = []) as Hu.
  { unfold unrenderedPlaceholders. setoid_rewrite <- templatedTexts_sent. induction (templatedTexts mc) as [|x l IH]; simpl; [set_solver|].
    rewrite app_nil, IH. setoid_rewrite elem_of_cons. naive_solver. }
  assert (versionFinal mc phase = false ↔ (mc_BundleLabel mc ≠ "" → ∀ ph, phase = Got ph → ph ≠ "Superseded" ∧ ph ≠ "Rejected")) as Hv.
  { unfold versionFinal, final_phase. case_bool_decide; [naive_solver|]. destruct phase as [ph| |]; [|naive_solver..].
    rewrite orb_false_iff, !bool_decide_eq_false. naive_solver. }
  unfold may_query. rewrite Hu, Hv. split; [intros (? & ? & ? & ? & ?)|intros []]; by split_and?.
Qed.

(** C17. A query is sent exactly when it should be, within its slot, with safe values.  The
    check is no template, not suspended and has its slot; no placeholder is left in
    its query, nor in the URL, the body and the header values of a web check; and its Bundle
    is not read as superseded or rejected (a Bundle that cannot be read does not stop the
    query).  So when one of these texts was rendered from a template, every placeholder of
    the template was replaced by a safe value.  With a Limiter the query and the write of
    its result lie between the slot it was granted and its release. *)
Theorem query_guarded mc phase slot answer text now w :
  let effs := (reconcile P (Got mc) phase slot answer text now w).1 in
  (RunQuery ∈ effs ↔ queried mc phase slot) ∧
  (RunQuery ∈ effs → slot = Some true → ∃ s, effs = [TryAcquire true; RunQuery; PatchStatus s; ReleaseSlot]) ∧
  (RunQuery ∈ effs → ∀ t vars template name, sent mc t → t = RenderMetricText vars template → name ∈ MetricPlaceholders template →
     ∃ v, vars !! name = Some v ∧ safeValue v = true).
Proof.
  intros effs. rewrite <- may_query_iff.
  destruct (reconcile_cases mc phase slot answer text now w) as [[Hm He]|[Hn Hx]]; [fold effs in He|fold effs in Hx].
  - split_and!.
    + split; [done|]. intros _. rewrite He. unfold query_run. set_solver.
    + intros _ ->. rewrite He. unfold query_run. simpl. eauto.
    + intros _ t vars template name Ht -> Hin. apply rendered_values_safe with (s := template); [|done].
      by apply (q_rendered _ _ _ (proj1 (may_query_iff mc phase slot) Hm)).
  - assert (RunQuery ∉ effs) as Hq by (intros Hq; destruct (Hx _ Hq); naive_solver). by split_and!.
Qed.

(** C18. Only a measurement makes a check pass.  A reconcile that writes the result Pass
    either asked the backend in that reconcile, got a value that passes the threshold and
    writes it with the time of now and its validity, or keeps the result, value, time
    and validity the status had: a suspended, final or waiting check goes stale. *)
Theorem pass_is_measured mc phase slot answer text now w s :
  PatchStatus s ∈ (reconcile P (Got mc) phase slot answer text now w).1 → ms_Result s = "Pass" →
  (RunQuery ∈ (reconcile P (Got mc) phase slot answer text now w).1 ∧
   ∃ v, answer = Some v ∧ evaluateThreshold v (mc_Threshold mc) = "Pass" ∧ ms_LastValue s = v_Text v ∧
     ms_LastEvaluatedAt s = Some now ∧ ms_ValidUntil s = Some (now + validFor (parseInterval P (mc_Interval mc)))) ∨
  (ms_Result (mc_Status mc) = "Pass" ∧ ms_LastValue s = ms_LastValue (mc_Status mc) ∧
   ms_LastEvaluatedAt s = ms_LastEvaluatedAt (mc_Status mc) ∧ ms_ValidUntil s = ms_ValidUntil (mc_Status mc)).
Proof.
  intros Hs Hp. destruct (reconcile_cases mc phase slot answer text now w) as [[Hm He]|[_ Hx]].
  - left. rewrite He in *. unfold query_run in *. split; [set_solver|].
    assert (s = match answer with None => patched P mc now "" "Fail" RQueryError
                | Some v => patched P mc now (v_Text v) (evaluateThreshold v (mc_Threshold mc)) (ROther text) end) as ->.
    { case_bool_decide; simpl in Hs; set_solver. }
    destruct answer as [v|]; [|done]. exists v. done.
  - right. destruct (Hx _ Hs) as [?|[?|(s' & [= <-] & [?|(HR & ?)])]]; try done. split; [congruence|done].
Qed.

(** Marking a check that is not queried is idempotent: once written, nothing more is. *)
Lemma markNotQueried_once mc reason clear s :
  markNotQueried mc reason clear = [PatchStatus s] →
  ∀ mc', mc_Status mc' = s → markNotQueried mc' reason clear = [].
Proof.
  unfold markNotQueried. intros H mc' Hs. destruct clear; case_bool_decide; try done; injection H as <-; rewrite Hs; simpl; by rewrite bool_decide_true.
Qed.
End runs.

(** ** Workers *)

(** The queries never take every worker. *)
Lemma workers_spare g : 0 ≤ g → g + spareWorkers ≤ workerCount (Some g) ∧ maxConcurrentReconciles ≤ workerCount (Some g).
Proof. unfold workerCount, maxConcurrentReconciles, spareWorkers. destruct (Z.ltb_spec 16 (g + 4)); lia. Qed.

(** ** Examples *)

Definition demo_parse (s : string) : option Duration := if bool_decide (s = "1m") then Some defaultInterval else None.

Definition demo_check : MetricCheck :=
  mkCheck (mkName "ns" "latency") "" 0 "1m" false false (RenderMetricText (demo_vars "1.2.0") "rate{v={{ bundle.version }}}") None
    (mkThreshold (Fin 1 (-1)) "lt" None) (mkStatus "" None None "" RNone).

Definition demo_value : Value := mkValue (Fin 1 (-2)) true "0.25".

(** A web check whose URL was rendered. *)
Definition demo_web : WebProviderSpec := mkWeb (RenderMetricText (demo_vars "1.2.0") "https://m/{{ bundle.version }}") "" [].

Definition demo_web_check : MetricCheck :=
  mkCheck (mkName "ns" "latency") "" 0 "1m" false false ""
    (Some demo_web)
    (mkThreshold (Fin 1 (-1)) "lt" None) (mkStatus "" None None "" RNone).

Lemma query_guarded_witness : ∃ v, demo_vars "1.2.0" !! "bundle.version" = Some v ∧ safeValue v = true.
Proof.
  apply (query_guarded demo_parse demo_web_check Missing (Some true) (Some demo_value) "" 100 WriteOK)
    with (t := w_URL demo_web) (template := "https://m/{{ bundle.version }}").
  - replace (reconcile _ _ _ _ _ _ _ _).1 with (query_run demo_parse demo_web_check (Some true) (Some demo_value) "" 100) by (vm_compute; reflexivity).
    right. left.
  - exact (sent_url demo_web_check demo_web eq_refl).
  - vm_compute. reflexivity.
  - replace (MetricPlaceholders "https://m/{{ bundle.version }}") with ["bundle.version"] by (vm_compute; reflexivity). left.
Defined.

Lemma pass_is_measured_witness :
  let s := patched demo_parse demo_check 100 "0.25" "Pass" (ROther "") in
  ms_ValidUntil s = Some (100 + validFor defaultInterval) ∨ ms_Result (mc_Status demo_check) = "Pass".
Proof.
  intros s. destruct (pass_is_measured demo_parse demo_check Missing (Some true) (Some demo_value) "" 100 WriteOK s) as [(_ & v & _ & _ & _ & _ & H)|[H _]].
  - replace (reconcile _ _ _ _ _ _ _ _).1 with (query_run demo_parse demo_check (Some true) (Some demo_value) "" 100) by (vm_compute; reflexivity).
    right. right. left.
  - reflexivity.
  - left. exact H.
  - by right.
Defined.

Lemma early_retry_once_witness : writeRetry (Some 0) 0 (defaultInterval + firstWriteRetry) defaultInterval = defaultInterval.
Proof. apply (early_retry_once (Some 0) 0 defaultInterval (defaultInterval + firstWriteRetry) defaultInterval); vm_compute; intuition congruence. Defined.

(** NaN passes no operator, not even ne. *)
Example nan_fails : evaluateThreshold (mkValue NaN true "NaN") (mkThreshold (Fin 1 0) "ne" None) = "Fail".
Proof. reflexivity. Qed.

End MetricCheck.
